(* ===== verification/_CoqProject ===== *)
-Q . S2P
Prelude.v
Graphs.v
Cycles.v
Difflib.v
Command.v
ManifestText.v
PyLiteral.v
TaskQueue.v
Lock.v
GraphData.v
Sqlite.v
Store.v
Risk.v
StoreSpec.v
Impact.v
ImpactSpec.v
CycleCut.v
Apply.v
RenameLines.v
Scc.v
ArchFindings.v
UntestedCore.v
Vcs.v
Update.v
StoreGraph.v
EdgePass.v
Visibility.v
BareNames.v
Reexports.v
TestedBy.v
Endpoints.v
CycleTool.v
Scopes.v
ImportCycles.v
EntryPoints.v
FlowGraph.v
DiffRanges.v
CommunityStore.v
CommunityNames.v
Communities.v
CommunitySpec.v
CommunityFlow.v
Text.v
Syntax.v
Discovery.v
ParsedFile.v
ParsedFileSpec.v
CallTargets.v
BashParser.v
ParseFile.v
Realpath.v
TerraformModule.v
Rename.v
ImplMembers.v
