(* ===== verification/Prelude.v ===== *)
(** * dagayn: a verification library (root file)

    dagayn builds a graph of a repository's code (files, symbols, calls, imports)
    in SQLite, keeps it up to date, and answers questions about it.  This library
    models the Rust crates that decide what the graph holds and what is said about
    it.  Paths below are under src/.

    ** The parts and how they meet

    A build ([Update.full_build]) or an update ([Update.run_pipeline]) finds the
    files in scope (Discovery.v), asks git what changed (Vcs.v), parses files
    (ParseFile.v, over ParsedFile.v, CallTargets.v and the extractors, of which
    BashParser.v is one) and writes their nodes and edges to the store (Store.v)
    in batches, under the lock of the graph (Lock.v).  [Update] takes the parser
    as a parameter with a promise on its items, which
    [ParseFile.parse_file_storable] shows of the one modelled.  [Update] knows
    the store only through the class [Update.FileGraph] and its laws
    [Update.FileGraphLaws]; StoreGraph.v is the instance for the store and proves
    the laws.  The readers of the store are the
    impact radius (Impact.v), the bounded cycle listing (Cycles.v), the
    architecture overview (Scc.v, CycleCut.v, ArchFindings.v, UntestedCore.v), the
    listing of import cycles and the measures of scopes (CycleTool.v, Scopes.v,
    ImportCycles.v) and the entry points (EntryPoints.v, FlowGraph.v).  After a
    build, post-processing rewrites the edges whose target is a bare name
    (Visibility.v, BareNames.v, Reexports.v, TestedBy.v, Endpoints.v), all by one
    shape of pass (EdgePass.v), links members to types of other files
    (ImplMembers.v) and references to the declarations of their Terraform module
    (TerraformModule.v), and groups the nodes into communities (CommunityStore.v,
    CommunityNames.v, Communities.v, CommunitySpec.v, CommunityFlow.v).
    Around them stand the task queue (TaskQueue.v), the manifest scanners' text
    machinery (Command.v, ManifestText.v, PyLiteral.v), unified diffs (Difflib.v,
    DiffRanges.v), the writer of refactorings (Apply.v) and renames, which are
    previewed from the graph and handed to it (RenameLines.v, Rename.v); the
    paths it writes are resolved first (Realpath.v).

    - Prelude.v: tactics, hints, sorting and list lemmas.  Graphs.v: paths and
      cycles of a relation, for specifications.
    - GraphData.v: rows, inputs, qualified names and confidence tiers
      (crates/dagayn-graph/src/lib.rs, helpers/).
    - Store.v, StoreSpec.v: the tables as lists in row-id order; file batches,
      compact JSON batches, upserts, removals, bulk loads, index rows
      (crates/dagayn-graph/src/write.rs, upserts.rs, core.rs, fts_sync.rs,
      helpers/batch.rs, helpers/tx.rs).  Every sequence of writes keeps a store
      consistent; a batch replaces exactly its files' data; a removal takes exactly
      its files' rows; a JSON batch does what the direct one does.
    - Risk.v: crates/dagayn-graph/src/summary_risk.rs, maintenance.rs, lib.rs.
      The risk table has one row for each function, class and test.
    - Update.v: crates/dagayn-build/src/update.rs, build.rs, parse_batch.rs.  A
      full build leaves the graph holding, for each file to parse, the hash of its
      bytes and what its parser reads from them, and nothing else, and refuses jj
      and Subversion checkouts.  An update settles each path: nothing outside the
      scope is held, what changed is parsed again, and the files of a git scope no
      parser handles keep what is held of them unless they were parsed before.
    - Discovery.v: crates/dagayn-parser/src/ownership.rs, discovery.rs.  What a
      build and an update index: exactly the listed files that no pattern ignores
      and an extractor owns.
    - Text.v, Syntax.v: methods of [str]; syntax trees and the helpers of
      crates/dagayn-parser/src/util.rs on them.
    - ParsedFile.v, ParsedFileSpec.v, CallTargets.v: crates/dagayn-parser/src/
      types.rs, core.rs, stdlib/mod.rs.  What settles of an extractor's nodes and
      edges has each name once and each member on a node of the file, and settles
      to itself; a call by a name the file declares goes to its declaration.
    - BashParser.v: crates/dagayn-parser/src/bash.rs, stdlib/bash.rs.  The walk
      finds exactly the functions, commands and sourced scripts of the tree.
    - ParseFile.v: crates/dagayn-parser/src/core.rs, file_only.rs and
      crates/dagayn-build/src/parse_batch.rs.  What parsing a file gives can be
      stored.
    - StoreGraph.v: the queries of builds and updates (write.rs,
      edge_queries.rs, schema.rs, analysis_stats.rs) and the proof that the store
      is such a graph.
    - Impact.v, ImpactSpec.v: crates/dagayn-graph/src/impact_radius.rs,
      bridges.rs, query.rs, flows.rs.  The radius lists exactly the names within
      the hops asked for, nearest first, with the caveats at the changed nodes;
      claims and caveats split the bridges, and the walk takes the claims whose
      source is resolved.
    - Cycles.v: crates/dagayn-graph/src/cycles.rs.  The listing is a prefix of
      the enumeration of the simple cycles, sound, and complete within its limits.
    - Scc.v, CycleCut.v, ArchFindings.v, UntestedCore.v:
      crates/dagayn-tools/src/arch_findings.rs.  Tarjan's walk yields the
      components in order; the cuts proposed for an import cycle leave none
      standing and keep at least half of the import weight; the untested core
      is decided exactly.
    - CycleTool.v, ImportCycles.v: crates/dagayn-tools/src/cycles.rs.  The import
      cycles listed are simple cycles of the imports, each once; an answer that is
      not truncated has them all.  Scopes.v: crates/dagayn-tools/src/architecture.rs.
      The measures of abstractness and of stability count the dependencies between
      scopes alike.
    - EntryPoints.v, FlowGraph.v: crates/dagayn-tools/src/entry_points.rs,
      crates/dagayn-graph/src/flow_trace.rs, query.rs.  The search backwards from a
      target finds each entry point with a chain of calls of the least length; it
      knows the graph through the class [EntryPoints.CallGraph], whose laws the
      store meets.
    - Visibility.v, BareNames.v, Reexports.v, TestedBy.v, Endpoints.v, EdgePass.v:
      crates/dagayn-graph/src/postprocess/.  The import fixpoint ends at the least
      solution; the passes over bare calls, bare parents, re-exported names,
      TESTED_BY edges and loose ends change exactly the edges they should, to
      targets that are nodes.  Sqlite.v: values and LIKE.
    - ImplMembers.v: crates/dagayn-graph/src/postprocess/impl_members.rs.  An edge
      of an impl block starts at the one type found for its owner; a second run
      moves nothing; the source comes back when the type goes.
    - TerraformModule.v: crates/dagayn-graph/src/postprocess/terraform.rs.  A
      reference is bound exactly when its directory declares the name once.
    - CommunityStore.v: crates/dagayn-graph/src/communities.rs, relationships.rs,
      query.rs.  The communities table beside the graph and the regions of a
      change; a node's community is always one of the table.  CommunityNames.v,
      Communities.v, CommunitySpec.v: crates/dagayn-postproc/src/communities/.
      Detection finds disjoint communities of the nodes given, ordered by their
      first member, and the same ones for the same graph whatever order a hash
      map yields.  CommunityFlow.v: detection around a change replaces the
      communities of the region and leaves the others; the sweep removes those
      without a node and measures the rest again.
    - Vcs.v: crates/dagayn-build/src/vcs.rs, jj.rs.  What git prints is read back
      whole; the changed files are those of the commits and the worktree.
    - Lock.v: crates/dagayn-build/src/lock.rs.  The pid in the lock file is never
      garbled, though it is written after the lock is taken, in calls that may fail
      or be cut off; waiting ends as asked.
    - TaskQueue.v: crates/dagayn-build/src/task_queue.rs.  Payload merging,
      enqueueing under the invariant of one pending twin, JSON strings read back.
    - Command.v, ManifestText.v, PyLiteral.v:
      crates/dagayn-postproc/src/manifest_bridges/.  Quoted words split back, a
      resolved path stays inside the repository, rendered literals parse back,
      and the parser always answers.
    - DiffRanges.v: crates/dagayn-tools/src/changes.rs.  The ranges of a diff git
      prints are read back, under conditions on the parts of lines and on names that
      the code needs.
    - Difflib.v, Apply.v: crates/dagayn-tools/src/difflib.rs, apply.rs.  The
      opcodes turn one side into the other; in a text of newline-ended lines without
      identifiers beyond ASCII an edit changes exactly the named identifier; a plan
      writes exactly the files it lists, all inside the root.
    - Realpath.v: crates/dagayn-tools/src/pypath.rs.  Resolving a path ends, and
      opening the result leads to the result or nowhere, so that what is checked
      of it holds of the file.  [Realpath.edits_stay_inside] says so of Apply.v.
    - RenameLines.v, Rename.v: crates/dagayn-tools/src/refactor.rs, pending.rs,
      apply.rs, crates/dagayn-graph/src/edge_lookups.rs.  A rename that is
      previewed and applied in time leaves each such file with the lines of its
      edits renamed and nothing else changed, and cannot be applied twice.

    ** Conventions

    Operations are functions on explicit state; [GraphData.Result] carries the
    store's errors and [Update.M] threads state and error.  Loops that are not
    structural take fuel, and a theorem says the fuel given is enough: the text
    length for scanners ([PyLiteral.parse_fuel], [Vcs], [Apply.spans_from]), the
    number of modules for [CycleCut.place], of keys and neighbours for
    [Scc.fuel], of regions for [Difflib.match_regions], of levels for the impact
    walk, of callers for [EntryPoints.search_fuel], of pairs of files for
    [Visibility.sweeps_fuel], of the parts of a path and of every link's target
    for [Realpath.fuel_of], the list's length for chunks.  The steps and cycles
    [CycleTool.search] may take are the code's own limits.  Running out is a
    value of its own where it could be taken for an answer.  Integers that only count are [nat];
    SQLite and wire integers are [Z] with the tests the code makes; text is a string of
    bytes, or a list of code points where the code walks characters.  The order
    in which SQLite or a hash map yields unordered rows is a parameter that only
    permutes.  A file system does not change while one operation runs.

    ** Not modelled

    The tree-sitter grammars are C code that is generated: an extractor takes the
    tree as a parameter.  The extractors other than Bash's are thousands of lines
    each that walk such trees one kind of node at a time; they enter
    [ParseFile] as one parameter, with the promise [ParseFile.extracted]: their
    nodes and edges lie in the file, which has a node, and carry metadata that
    JSON can hold.  The SCIP importers, embeddings and search indexes are models of other languages or numeric services ([fts_values],
    full-text search).  The MCP server, the command line, the Python bindings,
    git and jj, the file system, the clock and SQLite itself are input and
    output; regular expressions and globs are matched by a library, and what
    counts as a word character beyond ASCII comes from tables.  The Leiden
    partition of a graph, the logarithm of its resolution, the splitting of
    names into words, lossy UTF-8 decoding, serde_json's text and SQLite's JSON
    functions are parameters, with laws where a theorem needs them.
    Floating-point ratios and their rounding (instability, abstractness, risk)
    and the wording and budgets of answers are left out.  So are the schema
    migrations, which are SQL text; and, though logic of the same kind as what is
    here, flow tracing and risk, the passes over returned values and external
    packages, the language bridges, the query walks and the reports of the review
    tools, which answer from what the modelled parts keep. *)
From stdpp Require Export base numbers option list list_numbers strings pretty gmap sorting relations.
From Stdlib Require Export Lia.

(** ** Scope of the development *)

Declare Scope dagayn_scope.
Delimit Scope dagayn_scope with dag.

(** ** Automation

    [dagayn] collects the lemmas that close the routine membership and length
    goals of every component; [case_bool] splits the next boolean test of the
    code in the goal or the context and turns it into a proposition. *)

Create HintDb dagayn.
Create Rewrite HintDb dagayn.

Ltac bool_to_prop :=
  repeat match goal with
  | H : andb _ _ = true |- _ => apply andb_true_iff in H as [? ?]
  | H : orb _ _ = false |- _ => apply orb_false_iff in H as [? ?]
  | H : negb _ = true |- _ => apply negb_true_iff in H
  | H : negb _ = false |- _ => apply negb_false_iff in H
  | H : (_ =? _)%nat = true |- _ => apply Nat.eqb_eq in H
  | H : (_ =? _)%nat = false |- _ => apply Nat.eqb_neq in H
  | H : (_ <=? _)%nat = true |- _ => apply Nat.leb_le in H
  | H : (_ <=? _)%nat = false |- _ => apply Nat.leb_gt in H
  | H : (_ <? _)%nat = true |- _ => apply Nat.ltb_lt in H
  | H : (_ <? _)%nat = false |- _ => apply Nat.ltb_ge in H
  | H : (_ =? _)%N = true |- _ => apply N.eqb_eq in H
  | H : (_ =? _)%N = false |- _ => apply N.eqb_neq in H
  | H : (_ <=? _)%N = true |- _ => apply N.leb_le in H
  | H : (_ <=? _)%N = false |- _ => apply N.leb_gt in H
  | H : (_ <? _)%N = true |- _ => apply N.ltb_lt in H
  | H : (_ <? _)%N = false |- _ => apply N.ltb_ge in H
  | H : (_ =? _)%Z = true |- _ => apply Z.eqb_eq in H
  | H : (_ =? _)%Z = false |- _ => apply Z.eqb_neq in H
  | H : (_ <=? _)%Z = true |- _ => apply Z.leb_le in H
  | H : (_ <=? _)%Z = false |- _ => apply Z.leb_gt in H
  | H : (_ <? _)%Z = true |- _ => apply Z.ltb_lt in H
  | H : (_ <? _)%Z = false |- _ => apply Z.ltb_ge in H
  | H : bool_decide _ = true |- _ => apply bool_decide_eq_true in H
  | H : bool_decide _ = false |- _ => apply bool_decide_eq_false in H
  | H : String.eqb _ _ = true |- _ => apply String.eqb_eq in H
  | H : String.eqb _ _ = false |- _ => apply String.eqb_neq in H
  end.

(** Split the first [if] of the goal. *)
Ltac case_if :=
  match goal with
  | |- context [if ?b then _ else _] =>
      lazymatch type of b with
      | bool => let E := fresh "E" in destruct b eqn:E; bool_to_prop
      | _ => destruct b
      end
  end.

(** ** Stable sorting

    [slice::sort_by] is stable, so ties keep the order of the input. The model
    is an insertion sort, which computes the same list; [sort_unstable] is
    only used where equal keys are equal values, where the result is the same. *)

Section stable_sort.
Context {A : Type} (le : A → A → bool).

Fixpoint sort_insert (x : A) (l : list A) : list A :=
  match l with
  | [] => [x]
  | y :: l' => if le x y then x :: y :: l' else y :: sort_insert x l'
  end.

Definition sort_by (l : list A) : list A := foldr sort_insert [] l.

Lemma sort_insert_Permutation x l : sort_insert x l ≡ₚ x :: l.
Proof.
  induction l as [|y l IH]; simpl; [done|].
  case_if; [done|]. rewrite IH. by apply Permutation_swap.
Qed.

Lemma sort_by_Permutation l : sort_by l ≡ₚ l.
Proof.
  induction l as [|x l IH]; simpl; [done|].
  by rewrite sort_insert_Permutation, IH.
Qed.

Lemma length_sort_by l : length (sort_by l) = length l.
Proof. by rewrite sort_by_Permutation. Qed.

Lemma elem_of_sort_by x l : x ∈ sort_by l ↔ x ∈ l.
Proof. by rewrite sort_by_Permutation. Qed.

Hypothesis le_total : ∀ x y, le x y = true ∨ le y x = true.
Hypothesis le_trans : ∀ x y z, le x y = true → le y z = true → le x z = true.

Let leR x y := le x y = true.

Lemma sort_insert_sorted x l :
  StronglySorted leR l → StronglySorted leR (sort_insert x l).
Proof.
  induction l as [|y l IH]; simpl; intros Hl.
  - repeat constructor.
  - inversion Hl as [|? ? Hl' Hy]; subst. case_if.
    + constructor; [done|]. constructor; [done|].
      eapply Forall_impl; [exact Hy|]. intros z; simpl. by apply le_trans.
    + constructor; [auto|]. rewrite sort_insert_Permutation.
      constructor; [|done]. destruct (le_total x y); [congruence|done].
Qed.

Lemma sort_by_sorted l : StronglySorted leR (sort_by l).
Proof. induction l; simpl; [constructor|by apply sort_insert_sorted]. Qed.

(** Sorting is a function of the multiset when the order is antisymmetric. *)
Lemma sort_by_unique l1 l2 :
  (∀ x y, le x y = true → le y x = true → x = y) →
  l1 ≡ₚ l2 → sort_by l1 = sort_by l2.
Proof.
  intros Hanti Hp.
  apply (StronglySorted_unique_strong leR).
  - intros x y _ _ ??. by apply Hanti.
  - apply sort_by_sorted.
  - apply sort_by_sorted.
  - by rewrite !sort_by_Permutation.
Qed.
End stable_sort.

#[export] Hint Rewrite @length_sort_by : dagayn.

(** [Vec::dedup]: drop each element equal to the one before it. *)
Fixpoint dedup `{EqDecision A} (l : list A) : list A :=
  match l with
  | [] => []
  | x :: l' =>
      match dedup l' with
      | [] => [x]
      | y :: r => if decide (x = y) then y :: r else x :: y :: r
      end
  end.

Lemma elem_of_dedup `{EqDecision A} (x : A) l : x ∈ dedup l ↔ x ∈ l.
Proof.
  induction l as [|y l IH]; simpl; [done|].
  destruct (dedup l) as [|z r]; [|destruct (decide (y = z))]; set_solver.
Qed.

Lemma dedup_sorted `{EqDecision A} (R : relation A) (l : list A) :
  (∀ x y, R x y → R y x → x = y) → (∀ x, R x x) →
  StronglySorted R l →
  StronglySorted (λ x y, R x y ∧ x ≠ y) (dedup l).
Proof.
  intros Hanti Hrefl. induction l as [|x l IH]; simpl; intros Hl; [constructor|].
  inversion Hl as [|? ? Hl' Hx]; subst. specialize (IH Hl').
  assert (Hin : ∀ y, y ∈ dedup l → R x y).
  { intros y Hy. rewrite elem_of_dedup in Hy. rewrite Forall_forall in Hx. by apply Hx. }
  destruct (dedup l) as [|y r] eqn:E; [repeat constructor|].
  destruct (decide (x = y)) as [->|Hne]; [done|].
  constructor; [done|]. inversion IH as [|? ? Hr Hy]; subst.
  rewrite Forall_forall in Hy |- *. intros z Hz. split; [by apply Hin|].
  intros ->. apply elem_of_cons in Hz as [->|Hz]; [done|].
  destruct (Hy z Hz) as [Hyz Hn]. apply Hne. apply Hanti; [|done].
  apply Hin. set_solver.
Qed.

Lemma StronglySorted_irrefl_NoDup {A} (R : relation A) (l : list A) :
  (∀ x, ¬ R x x) → StronglySorted R l → NoDup l.
Proof.
  intros Hir. induction 1 as [|x l Hl IH Hx]; constructor; [|done].
  intros Hin. rewrite Forall_forall in Hx. by apply (Hir x), Hx.
Qed.

Lemma NoDup_dedup_sorted `{EqDecision A} (R : relation A) (l : list A) :
  (∀ x y, R x y → R y x → x = y) → (∀ x, R x x) →
  StronglySorted R l → NoDup (dedup l).
Proof.
  intros Ha Hr Hl. eapply StronglySorted_irrefl_NoDup; [|by apply (dedup_sorted R)].
  naive_solver.
Qed.

(** Two strictly sorted lists with the same elements are the same list. *)
Lemma StronglySorted_strict_unique {A} (R : relation A) (l1 l2 : list A) :
  (∀ x, ¬ R x x) → (∀ x y, R x y → R y x → False) →
  StronglySorted R l1 → StronglySorted R l2 → (∀ x, x ∈ l1 ↔ x ∈ l2) → l1 = l2.
Proof.
  intros Hir Has H1 H2 Heq.
  eapply (StronglySorted_unique_strong R); [|done|done|].
  - intros x y _ _ ??. exfalso. eauto.
  - apply NoDup_Permutation; [eauto using StronglySorted_irrefl_NoDup..|done].
Qed.

Lemma StronglySorted_lookup_lt {A} (R : relation A) (l : list A) i j x y :
  StronglySorted R l → i < j → l !! i = Some x → l !! j = Some y → R x y.
Proof.
  intros Hs. revert i j. induction Hs as [|z l Hs IH Hz]; intros i j Hij Hi Hj; [done|].
  destruct i as [|i], j as [|j]; try lia; simpl in *.
  - injection Hi as ->. rewrite Forall_forall in Hz.
    by apply Hz, list_elem_of_lookup_2 with j.
  - apply (IH i j); [lia|done..].
Qed.

(** ** Byte order on strings

    [str]'s [Ord] compares bytes, as [String.leb] does. *)

Lemma string_leb_total s1 s2 : String.leb s1 s2 = true ∨ String.leb s2 s1 = true.
Proof. apply String.leb_total. Qed.

Lemma string_leb_trans s1 s2 s3 :
  String.leb s1 s2 = true → String.leb s2 s3 = true → String.leb s1 s3 = true.
Proof.
  intros H1 H2. apply Is_true_true. transitivity s2; by apply Is_true_true.
Qed.

Lemma string_leb_antisym s1 s2 :
  String.leb s1 s2 = true → String.leb s2 s1 = true → s1 = s2.
Proof. apply String.leb_antisym. Qed.

Lemma string_leb_refl s : String.leb s s = true.
Proof. by destruct (string_leb_total s s). Qed.

#[export] Hint Resolve string_leb_total string_leb_trans string_leb_antisym string_leb_refl
  : dagayn.

(** ** Text

    Where the code works on the characters of a string ([str::chars]), a text is
    the list of its Unicode scalar values; where it works on bytes (comparing,
    splitting at ASCII delimiters), it is a [string] of UTF-8 bytes. *)

Abbreviation char := N (only parsing).
Abbreviation text := (list N) (only parsing).

(** The code points of an ASCII literal. *)
Fixpoint chars (s : string) : list N :=
  match s with
  | EmptyString => []
  | String c s => Ascii.N_of_ascii c :: chars s
  end.

(** [char::is_whitespace]: Unicode's White_Space. *)
Definition is_whitespace (c : N) : bool :=
  ((9 <=? c)%N && (c <=? 13)%N) || (c =? 32)%N || (c =? 133)%N || (c =? 160)%N
  || (c =? 5760)%N || ((8192 <=? c)%N && (c <=? 8202)%N) || (c =? 8232)%N || (c =? 8233)%N
  || (c =? 8239)%N || (c =? 8287)%N || (c =? 12288)%N.

Definition is_ascii_digit (c : N) : bool := (48 <=? c)%N && (c <=? 57)%N.
Definition is_ascii_uppercase (c : N) : bool := (65 <=? c)%N && (c <=? 90)%N.
Definition is_ascii_lowercase (c : N) : bool := (97 <=? c)%N && (c <=? 122)%N.
Definition is_ascii_alphabetic (c : N) : bool := is_ascii_uppercase c || is_ascii_lowercase c.
Definition is_ascii_alphanumeric (c : N) : bool := is_ascii_alphabetic c || is_ascii_digit c.

(** [char::to_ascii_lowercase]. *)
Definition to_ascii_lowercase (c : N) : N := if is_ascii_uppercase c then (c + 32)%N else c.

(** A Unicode scalar value, what Rust's [char] ranges over. *)
Definition is_scalar (c : N) : bool :=
  (c <? 55296)%N || ((57344 <=? c)%N && (c <=? 1114111)%N).

(** [format!("{n}")] of an unsigned integer. *)
Definition decimal (n : nat) : string := pretty (N.of_nat n).

Lemma omap_of_fmap {A B C} (f : B → option C) (g : A → B) (l : list A) : omap f (g <$> l) = omap (λ x, f (g x)) l.
Proof. induction l as [|x l IH]; [done|]. cbn. by rewrite IH. Qed.

Lemma fmap_omap {A B C} (f : A → option B) (g : B → C) (h : A → option C) (l : list A) :
  (∀ x, g <$> f x = h x) → g <$> omap f l = omap h l.
Proof. intros Hfg. induction l as [|x l IH]; [done|]. cbn. rewrite <-Hfg, <-IH. by destruct (f x). Qed.

Lemma filter_of_fmap {A B} (f : A → B) (P : B → Prop) `{!∀ x, Decision (P x)} (l : list A) :
  filter P (f <$> l) = f <$> filter (λ x, P (f x)) l.
Proof. induction l as [|x l IH]; [done|]. rewrite fmap_cons, !filter_cons, IH. by destruct (decide (P (f x))). Qed.

Lemma list_filter_ext_in {A} (P Q : A → Prop) `{!∀ x, Decision (P x), !∀ x, Decision (Q x)}
    (l : list A) : (∀ x, x ∈ l → P x ↔ Q x) → filter P l = filter Q l.
Proof.
  induction l as [|x l IH]; intros Hpq; [done|]. rewrite !filter_cons.
  rewrite IH by (intros y Hy; apply Hpq; set_solver).
  destruct (decide (P x)), (decide (Q x)); [done| | |done]; exfalso; specialize (Hpq x); set_solver.
Qed.

Lemma elem_of_concat {A} (x : A) (ls : list (list A)) : x ∈ concat ls ↔ ∃ l, x ∈ l ∧ l ∈ ls.
Proof. rewrite list_elem_of_In, in_concat. setoid_rewrite <-list_elem_of_In. naive_solver. Qed.

Lemma seq_sorted k n : StronglySorted lt (seq k n).
Proof.
  revert k. induction n as [|n IH]; intros k; simpl; constructor; [done|].
  apply Forall_forall. intros x Hx. apply elem_of_seq in Hx. lia.
Qed.

Lemma filter_sorted {A} (R : relation A) (P : A → Prop) `{!∀ x, Decision (P x)} (l : list A) :
  StronglySorted R l → StronglySorted R (filter P l).
Proof.
  induction 1 as [|x l Hl IH Hx]; [constructor|]. rewrite filter_cons.
  destruct (decide (P x)); [|done]. constructor; [done|].
  apply Forall_forall. intros y Hy. apply list_elem_of_filter in Hy as [_ Hy].
  rewrite Forall_forall in Hx. by apply Hx.
Qed.

(** A path's parts between slashes. *)
Fixpoint split_slash (s : string) : list string :=
  match s with
  | EmptyString => [""]
  | String c s =>
      if bool_decide (c = Ascii.ascii_of_nat 47) then "" :: split_slash s
      else match split_slash s with
           | p :: ps => String c p :: ps
           | [] => []
           end
  end.

(** [str::contains] and [str::ends_with] of a string. *)
Fixpoint str_contains (sub s : string) : bool :=
  String.prefix sub s || match s with EmptyString => false | String _ s => str_contains sub s end.

Fixpoint str_ends_with (suffix s : string) : bool :=
  bool_decide (s = suffix) || match s with EmptyString => false | String _ s => str_ends_with suffix s end.

(** [str::replace] of one character by another. *)
Fixpoint replace_char (from to : Ascii.ascii) (s : string) : string :=
  match s with
  | EmptyString => EmptyString
  | String c s => String (if bool_decide (c = from) then to else c) (replace_char from to s)
  end.

(** The order of a [BTreeSet]. *)
Definition ascending (s : gset string) : list string := sort_by String.leb (elements s).

Lemma elem_of_ascending x s : x ∈ ascending s ↔ x ∈ s.
Proof. unfold ascending. rewrite elem_of_sort_by. apply elem_of_elements. Qed.

Lemma NoDup_ascending s : NoDup (ascending s).
Proof. unfold ascending. rewrite sort_by_Permutation. apply NoDup_elements. Qed.

Lemma length_ascending s : length (ascending s) = size s.
Proof. unfold ascending. by rewrite length_sort_by. Qed.
