(* ===== verification/Graphs.v ===== *)
(** * Paths and cycles of a directed graph

    Specification vocabulary shared by the components that search graphs: the
    cycle enumerations and the impact walk.  Nothing here models code. *)
From S2P Require Import Prelude.

Module Graphs.

Section graphs.
Context {A : Type}.

(** [chain E l]: consecutive elements of [l] are related by [E]. *)
Fixpoint chain (E : A → A → Prop) (l : list A) : Prop :=
  match l with
  | x :: ((y :: _) as l') => E x y ∧ chain E l'
  | _ => True
  end.

(** A simple cycle, given from one of its nodes, which is not repeated. *)
Definition simple_cycle (E : A → A → Prop) (c : list A) : Prop :=
  match c with
  | [] => False
  | h :: t => NoDup c ∧ chain E (c ++ [h])
  end.

(** [c'] is [c] read from another of its nodes. *)
Definition rotation (c c' : list A) : Prop := ∃ a b, c = a ++ b ∧ c' = b ++ a.

Lemma chain_cons (E : A → A → Prop) x l : chain E (x :: l) → chain E l.
Proof. destruct l; simpl; tauto. Qed.

Lemma chain_app (E : A → A → Prop) l1 x l2 :
  chain E (l1 ++ x :: l2) ↔ chain E (l1 ++ [x]) ∧ chain E (x :: l2).
Proof.
  induction l1 as [|y l1 IH]; [simpl; tauto|].
  destruct l1 as [|z l1]; simpl in *; [tauto|]. rewrite IH. tauto.
Qed.

Lemma chain_app_l (E : A → A → Prop) l1 l2 : chain E (l1 ++ l2) → chain E l1.
Proof.
  induction l1 as [|x [|y l1] IH]; intros Hc; [done..|].
  destruct Hc as [? Hc]. split; [done|]. by apply IH.
Qed.

Lemma chain_snoc2 (E : A → A → Prop) l x y :
  chain E (l ++ [x; y]) ↔ chain E (l ++ [x]) ∧ E x y.
Proof. rewrite (chain_app E l x [y]). simpl. tauto. Qed.

Lemma chain_mono (E F : A → A → Prop) l :
  (∀ x y, x ∈ l → y ∈ l → E x y → F x y) → chain E l → chain F l.
Proof.
  induction l as [|x [|y l] IH]; intros HEF Hc; [done..|].
  destruct Hc as [Hxy Hc]. split; [apply HEF; set_solver|].
  apply IH; [|done]. intros u v Hu Hv. apply HEF; by apply list_elem_of_further.
Qed.

Lemma simple_cycle_NoDup (E : A → A → Prop) c : simple_cycle E c → NoDup c.
Proof. destruct c; simpl; [done|tauto]. Qed.

Lemma chain_step (E : A → A → Prop) l x : x ∈ l → ∀ z, chain E (l ++ [z]) → ∃ y, y ∈ l ++ [z] ∧ E x y.
Proof.
  induction l as [|w l IH]; intros Hx z Hc; [by apply not_elem_of_nil in Hx|].
  apply elem_of_cons in Hx as [->|Hx].
  - destruct l as [|y l]; simpl in *; [exists z|exists y]; (split; [set_solver|tauto]).
  - rewrite <-app_comm_cons in Hc. apply chain_cons in Hc.
    destruct (IH Hx z Hc) as (y & Hy & ?). exists y. split; [|done]. set_solver.
Qed.

(** Every node of a cycle has an edge to another node of it. *)
Lemma simple_cycle_step (E : A → A → Prop) c x :
  simple_cycle E c → x ∈ c → ∃ y, y ∈ c ∧ E x y.
Proof.
  destruct c as [|h t]; [done|]. intros [_ Hc] Hx.
  destruct (chain_step E (h :: t) x Hx h Hc) as (y & Hy & ?). exists y. split; [|done]. set_solver.
Qed.

Lemma simple_cycle_rotate (E : A → A → Prop) a b :
  simple_cycle E (a ++ b) → simple_cycle E (b ++ a).
Proof.
  destruct a as [|x a]; [by rewrite app_nil_r|].
  destruct b as [|y b]; [by rewrite app_nil_r|].
  intros [Hnd Hc]. split; [by rewrite (Permutation_app_comm (y :: b))|].
  change ((x :: a) ++ y :: b) with (x :: a ++ y :: b) in Hc.
  rewrite <-app_comm_cons, <-app_assoc in Hc. rewrite <-app_comm_cons in Hc.
  rewrite (app_comm_cons a), chain_app in Hc. destruct Hc as [H1 H2].
  rewrite <-app_assoc. change ((y :: b) ++ (x :: a) ++ [y]) with ((y :: b) ++ x :: (a ++ [y])).
  apply chain_app. split; [exact H2|exact H1].
Qed.

Lemma rotation_simple_cycle (E : A → A → Prop) c c' :
  rotation c c' → simple_cycle E c → simple_cycle E c'.
Proof. intros (a & b & -> & ->). apply simple_cycle_rotate. Qed.

Lemma rotation_Permutation (c c' : list A) : rotation c c' → c ≡ₚ c'.
Proof. intros (a & b & -> & ->). apply Permutation_app_comm. Qed.

Lemma rotation_to (c : list A) x : x ∈ c → ∃ t, rotation c (x :: t).
Proof.
  intros Hx. apply list_elem_of_split in Hx as (a & b & ->).
  exists (b ++ a), a, (x :: b). done.
Qed.

(** A list without duplicates has one rotation from each element. *)
Lemma rotation_head_unique (c c1 c2 : list A) :
  NoDup c → rotation c c1 → rotation c c2 → head c1 = head c2 → c1 = c2.
Proof.
  assert (Hcanon : ∀ c' h, rotation c c' → head c' = Some h →
    ∃ a b, c = a ++ h :: b ∧ c' = h :: b ++ a).
  { intros c' h (a & b & -> & ->) Hh. destruct b as [|y b]; simpl in *.
    - destruct a as [|z a]; [done|]. injection Hh as ->. exists [], a.
      by rewrite !app_nil_r.
    - injection Hh as ->. by exists a, b. }
  intros Hnd H1 H2 Hh. destruct (head c1) as [h|] eqn:E1.
  - destruct (Hcanon _ _ H1 E1) as (a1 & b1 & Hc1 & ->).
    destruct (Hcanon _ _ H2 (eq_sym Hh)) as (a2 & b2 & Hc2 & ->).
    assert (Ha : length a1 = length a2).
    { eapply (NoDup_lookup c); [done| |].
      - rewrite Hc1. by apply list_lookup_middle.
      - rewrite Hc2. by apply list_lookup_middle. }
    rewrite Hc1 in Hc2. apply app_inj_1 in Hc2 as [-> Hc2]; [|done].
    by injection Hc2 as ->.
  - apply head_None in E1 as ->. symmetry in Hh. apply head_None in Hh as ->. done.
Qed.

End graphs.

Lemma chain_map {A B} (E : A → A → Prop) (F : B → B → Prop) (f : A → B) l :
  (∀ x y, x ∈ l → y ∈ l → E x y → F (f x) (f y)) → chain E l → chain F (f <$> l).
Proof.
  induction l as [|x [|y l] IH]; intros HEF Hc; [done..|].
  destruct Hc as [Hxy Hc]. split; [apply HEF; set_solver|].
  apply IH; [|done]. intros u v Hu Hv. apply HEF; by apply list_elem_of_further.
Qed.

Lemma simple_cycle_map {A B} (E : A → A → Prop) (F : B → B → Prop) (f : A → B) c :
  (∀ x y, x ∈ c → y ∈ c → f x = f y → x = y) →
  (∀ x y, x ∈ c → y ∈ c → E x y → F (f x) (f y)) →
  simple_cycle E c → simple_cycle F (f <$> c).
Proof.
  destruct c as [|h t]; [done|]. intros Hinj HEF [Hnd Hc]. split.
  - by apply NoDup_fmap_2_strong.
  - cut (chain F (f <$> (h :: t) ++ [h])); [by rewrite fmap_app|].
    apply (chain_map E); [|done]. intros x y Hx Hy. apply HEF; set_solver.
Qed.

(** ** Distances *)

Section distance.
Context {A : Type} (R : A → A → Prop) (seeds : A → Prop).

(** [x] is reached from a seed in [n] steps. *)
Definition reached (n : nat) (x : A) : Prop := ∃ s, seeds s ∧ nsteps R n s x.

(** The length of a shortest walk from a seed. *)
Definition distance (x : A) (n : nat) : Prop := reached n x ∧ ∀ m, m < n → ¬ reached m x.

Lemma distance_unique x n m : distance x n → distance x m → n = m.
Proof.
  intros [Hn Hn'] [Hm Hm']. destruct (lt_eq_lt_dec n m) as [[Hlt|]|Hlt]; [|done|].
  - by destruct (Hm' n Hlt).
  - by destruct (Hn' m Hlt).
Qed.

Lemma reached_S n x : reached (S n) x ↔ ∃ y, reached n y ∧ R y x.
Proof.
  split.
  - intros (s & Hs & Hn). apply nsteps_inv_r in Hn as (y & Hn & Hr). exists y. split; [by exists s|done].
  - intros (y & (s & Hs & Hn) & Hr). exists s. split; [done|]. by eapply nsteps_r.
Qed.

(** A node at distance [n + 1] follows one at distance [n]. *)
Lemma distance_S x n : distance x (S n) → ∃ y, distance y n ∧ R y x.
Proof.
  intros [Hr Hmin]. apply reached_S in Hr as (y & Hy & Hyx). exists y. split; [|done].
  split; [done|]. intros m Hm Hry. apply (Hmin (S m)); [lia|]. apply reached_S. by exists y.
Qed.

Lemma distance_below x n m : distance x n → m ≤ n → ∃ y, distance y m.
Proof.
  revert x. induction n as [|n IH]; intros x Hx Hm.
  - exists x. by replace m with 0 by lia.
  - destruct (decide (m = S n)) as [->|]; [by exists x|].
    apply distance_S in Hx as (y & Hy & _). apply (IH y Hy). lia.
Qed.

End distance.

Lemma distance_iff {A} (R : A → A → Prop) (P Q : A → Prop) x n :
  (∀ y, P y ↔ Q y) → distance R P x n ↔ distance R Q x n.
Proof.
  intros Hpq. assert (Hr : ∀ m y, reached R P m y ↔ reached R Q m y).
  { intros m y. unfold reached. by setoid_rewrite Hpq. }
  unfold distance. by setoid_rewrite Hr.
Qed.

End Graphs.
