(* ===== verification/Cycles.v ===== *)
(** * Bounded enumeration of simple cycles

    Models [bounded_simple_cycles] of crates/dagayn-graph/src/cycles.rs: the
    depth-first walk that lists the simple cycles of a directed graph, each from
    its smallest node by name, under a limit on the cycles kept and on the
    steps taken.  The walk is modelled statement by statement as an explicit
    state (path, on-path flags, cursors); [met] is the recursive enumeration it
    implements. *)
From S2P Require Import Prelude.
From S2P Require Import Graphs.
Import Graphs.

Module Cycles.

(** Source: crates/dagayn-graph/src/cycles.rs 11-21 [BoundedCycles]. *)
Record BoundedCycles := mkBoundedCycles {
  cycles : list (list nat);
  examined : nat;
  truncated : bool;
}.

(** The variables the loop of one start keeps.  [path] and [cursors] are the
    code's vectors with their last element first.

    Source: crates/dagayn-graph/src/cycles.rs 63-67 [path, on_path, cursors]. *)
Record walker := mkWalker {
  path : list nat;
  on_path : list bool;
  cursors : list nat;
}.

(** How the loop of one start ends: it ran out of cursors, with the steps still
    allowed, or it left every loop with [break 'starts]. *)
Inductive walk_end :=
| Done (found : BoundedCycles) (budget : nat)
| Broke (found : BoundedCycles).

Section walk.
Context (names : list string) (edges : list (nat * nat)).
Context (min_size max_length max_cycles max_steps : nat).

Definition count : nat := length names.

(** Node indices in name order (a stable sort).

    Source: crates/dagayn-graph/src/cycles.rs 36-37 [by_name]. *)
Definition by_name : list nat :=
  sort_by (λ left right, String.leb (names !!! left) (names !!! right)) (seq 0 count).

(** Source: crates/dagayn-graph/src/cycles.rs 38-41 [rank]. *)
Definition rank : list nat :=
  foldl (λ r '(position, node), <[node := position]> r)
    (replicate count 0) (imap pair by_name).

(** The adjacency lists by rank, sorted and without duplicates; an edge with an
    endpoint outside the list is dropped.

    Source: crates/dagayn-graph/src/cycles.rs 42-51 [successors]. *)
Definition successors : list (list nat) :=
  (λ l, dedup (sort_by Nat.leb l)) <$>
  foldl (λ s '(from, to),
      if (from <? count) && (to <? count)
      then alter (λ l, l ++ [rank !!! to]) (rank !!! from) s
      else s)
    (replicate count []) edges.

Definition truncate (found : BoundedCycles) : BoundedCycles :=
  {| cycles := cycles found; examined := examined found; truncated := true |}.

Definition count_examined (found : BoundedCycles) : BoundedCycles :=
  {| cycles := cycles found; examined := S (examined found);
     truncated := truncated found |}.

Definition push_cycle (found : BoundedCycles) (p : list nat) : BoundedCycles :=
  {| cycles := cycles found ++ [(λ r, by_name !!! r) <$> rev p];
     examined := examined found; truncated := truncated found |}.

(** One start: the [while let] loop.  [budget] is [max_steps - steps], so the
    test [steps > max_steps] after the increment is [budget = 0] before it; the
    recursion is on it.

    Source: crates/dagayn-graph/src/cycles.rs 68-108 [bounded_simple_cycles]. *)
Fixpoint walk_start (budget start : nat) (w : walker) (found : BoundedCycles) : walk_end :=
  match cursors w with
  | [] => Done found budget
  | cursor :: rest =>
      match budget with
      | 0 => Broke (truncate found)
      | S budget =>
          match path w with
          | [] => Done found budget
          | node :: up =>
              match (successors !!! node) !! cursor with
              | None =>
                  walk_start budget start
                    (mkWalker up (<[node := false]> (on_path w)) rest) found
              | Some next =>
                  let w' := mkWalker (path w) (on_path w) (S cursor :: rest) in
                  if next =? start then
                    if max_length <? length (path w) then walk_start budget start w' found
                    else
                      let found := count_examined found in
                      if max_cycles <=? length (cycles found) then Broke (truncate found)
                      else if min_size <=? length (path w)
                      then walk_start budget start w' (push_cycle found (path w))
                      else walk_start budget start w' found
                  else if (start <? next) && negb (on_path w !!! next)
                            && (length (path w) <? max_length)
                  then walk_start budget start
                         (mkWalker (next :: path w) (<[next := true]> (on_path w))
                            (0 :: S cursor :: rest)) found
                  else walk_start budget start w' found
              end
          end
      end
  end.

(** Source: crates/dagayn-graph/src/cycles.rs 63-67 [bounded_simple_cycles]. *)
Definition init_walker (start : nat) : walker :=
  mkWalker [start] (<[start := true]> (replicate count false)) [0].

(** Source: crates/dagayn-graph/src/cycles.rs 59-62 [bounded_simple_cycles]. *)
Fixpoint walk_starts (starts : list nat) (budget : nat) (found : BoundedCycles)
    : BoundedCycles :=
  match starts with
  | [] => found
  | start :: starts =>
      match walk_start budget start (init_walker start) found with
      | Broke found => found
      | Done found budget => walk_starts starts budget found
      end
  end.

(** Source: crates/dagayn-graph/src/cycles.rs 26-111 [bounded_simple_cycles]. *)
Definition bounded_simple_cycles : BoundedCycles :=
  walk_starts (seq 0 count) max_steps (mkBoundedCycles [] 0 false).

(** ** Specification *)

(** The recursive enumeration: the (reversed, ranked) cycles met from [path],
    trying the successors [nexts] of its last node in order. *)
Fixpoint met_fuel (fuel start : nat) (path nexts : list nat) : list (list nat) :=
  match fuel with
  | 0 => []
  | S fuel =>
      next ← nexts;
      if decide (next = start) then
        if decide (length path <= max_length) then [path] else []
      else if decide (start < next ∧ next ∉ path ∧ length path < max_length) then
        met_fuel fuel start (next :: path) (successors !!! next)
      else []
  end.

Definition met (start : nat) (path nexts : list nat) : list (list nat) :=
  met_fuel (S (max_length - length path)) start path nexts.

(** Every cycle met, in the walk's order, when no limit stops it. *)
Definition all_met : list (list nat) :=
  start ← seq 0 count; met start [start] (successors !!! start).

(** The cycles an unlimited walk keeps, as indices into [names]. *)
Definition all_cycles : list (list nat) :=
  (λ p, (λ r, by_name !!! r) <$> rev p) <$> filter (λ p, min_size <= length p) all_met.

(** What the walk still has to meet from a state. *)
Fixpoint pending (start : nat) (path cursors : list nat) : list (list nat) :=
  match path, cursors with
  | node :: up, cursor :: rest =>
      met start (node :: up) (drop cursor (successors !!! node)) ++ pending start up rest
  | _, _ => []
  end.

(** Feeding met cycles to [found]; [true] when the cycle limit stopped it. *)
Fixpoint absorb (found : BoundedCycles) (events : list (list nat)) : BoundedCycles * bool :=
  match events with
  | [] => (found, false)
  | p :: events =>
      let found := count_examined found in
      if max_cycles <=? length (cycles found) then (found, true)
      else absorb (if min_size <=? length p then push_cycle found p else found) events
  end.

(** The loop's invariant. *)
Definition walker_ok (w : walker) : Prop :=
  length (path w) = length (cursors w) ∧ NoDup (path w) ∧
  Forall (λ r, r < count) (path w) ∧ length (on_path w) = count ∧
  ∀ r, r < count → on_path w !!! r = bool_decide (r ∈ path w).

End walk.

(** The directed edges the function works on. *)
Definition graph_edge (names : list string) (edges : list (nat * nat)) (i j : nat) : Prop :=
  (i, j) ∈ edges ∧ i < length names ∧ j < length names.

(** ** The walk implements the enumeration *)

Section walk_facts.
Context (names : list string) (edges : list (nat * nat)).
Context (min_size max_length max_cycles max_steps : nat).

#[local] Abbreviation succs := (successors names edges).
#[local] Abbreviation met := (met names edges max_length).
#[local] Abbreviation pending := (pending names edges max_length).
#[local] Abbreviation absorb := (absorb names min_size max_cycles).
#[local] Abbreviation walk_start := (walk_start names edges min_size max_length max_cycles).
#[local] Abbreviation walk_starts := (walk_starts names edges min_size max_length max_cycles).
#[local] Abbreviation walker_ok := (walker_ok names).

(** What one successor contributes to [met]. *)
Definition visit (start : nat) (path : list nat) (next : nat) : list (list nat) :=
  if decide (next = start) then
    if decide (length path <= max_length) then [path] else []
  else if decide (start < next ∧ next ∉ path ∧ length path < max_length) then
    met start (next :: path) (succs !!! next)
  else [].

Lemma met_unfold start path nexts : met start path nexts = nexts ≫= visit start path.
Proof.
  unfold Cycles.met at 1. cbn [met_fuel]. apply list_bind_ext; [|done].
  intros next. unfold visit, Cycles.met.
  destruct (decide (next = start)); [done|].
  destruct (decide _) as [(? & ? & ?)|]; [|done]. f_equal. simpl. lia.
Qed.

Lemma met_nil start path : met start path [] = [].
Proof. by rewrite met_unfold. Qed.

Lemma met_cons start path next nexts :
  met start path (next :: nexts) = visit start path next ++ met start path nexts.
Proof. rewrite !met_unfold. done. Qed.

Lemma absorb_app found l1 l2 :
  (absorb found l1).2 = false → absorb found (l1 ++ l2) = absorb (absorb found l1).1 l2.
Proof.
  revert found. induction l1 as [|p l1 IH]; intros found; simpl; [done|].
  case_if; simpl; [done|]. apply IH.
Qed.

(** *** The order of names *)

Lemma by_name_perm : by_name names ≡ₚ seq 0 (length names).
Proof. apply sort_by_Permutation. Qed.

Lemma length_by_name : length (by_name names) = length names.
Proof. by rewrite by_name_perm, length_seq. Qed.

Lemma by_name_NoDup : NoDup (by_name names).
Proof. rewrite by_name_perm. apply NoDup_seq. Qed.

Lemma by_name_lt r : r < length names → by_name names !!! r < length names.
Proof.
  intros Hr. rewrite <-length_by_name in Hr. apply lookup_lt_is_Some_2 in Hr as [n Hn].
  rewrite (list_lookup_total_correct _ _ _ Hn).
  apply list_elem_of_lookup_2 in Hn. rewrite by_name_perm in Hn.
  apply elem_of_seq in Hn. lia.
Qed.

Lemma by_name_inj r1 r2 :
  r1 < length names → r2 < length names →
  by_name names !!! r1 = by_name names !!! r2 → r1 = r2.
Proof.
  rewrite <-length_by_name. intros H1 H2 Heq.
  eapply (NoDup_lookup (by_name names)); [apply by_name_NoDup| |].
  - by apply list_lookup_lookup_total_lt.
  - rewrite Heq. by apply list_lookup_lookup_total_lt.
Qed.

(** The scatter loop writes each position at the node it holds. *)
Lemma rank_scatter (l : list nat) (r : list nat) k :
  NoDup l → Forall (λ n, n < length r) l →
  let r' := foldl (λ r '(position, node), <[node := position]> r) r
              (imap (λ i n, (k + i, n)) l) in
  length r' = length r ∧
  (∀ i n, l !! i = Some n → r' !! n = Some (k + i)) ∧
  (∀ n, n ∉ l → r' !! n = r !! n).
Proof.
  revert r k. induction l as [|n l IH]; intros r k Hnd Hlt; simpl.
  { split; [done|]. split; [|done]. intros i n Hi. by rewrite lookup_nil in Hi. }
  apply NoDup_cons in Hnd as [Hn Hnd]. apply Forall_cons in Hlt as [Hlt Hlts].
  specialize (IH (<[n:=k + 0]> r) (S k) Hnd).
  rewrite length_insert in IH. specialize (IH Hlts) as (Hlen & Hin & Hout).
  assert (Heq : imap ((λ i n0, (k + i, n0)) ∘ S) l = imap (λ i n0, (S k + i, n0)) l).
  { apply imap_ext. intros i x _. simpl. by rewrite Nat.add_succ_r. }
  rewrite Heq. split; [done|]. split.
  - intros [|i] m Hi; simpl in Hi.
    + injection Hi as <-. rewrite (Hout n Hn). by apply list_lookup_insert_eq.
    + rewrite (Hin i m Hi). f_equal. lia.
  - intros m Hm. apply not_elem_of_cons in Hm as [Hne Hm].
    rewrite (Hout m Hm). by apply list_lookup_insert_ne.
Qed.

Lemma rank_by_name r : r < length names → rank names !!! (by_name names !!! r) = r.
Proof.
  intros Hr. destruct (rank_scatter (by_name names) (replicate (length names) 0) 0) as (_ & Hin & _).
  - apply by_name_NoDup.
  - rewrite length_replicate. apply Forall_forall. intros n Hn.
    rewrite by_name_perm in Hn. apply elem_of_seq in Hn. lia.
  - rewrite <-length_by_name in Hr. apply list_lookup_lookup_total_lt in Hr.
    specialize (Hin _ _ Hr). by apply list_lookup_total_correct in Hin.
Qed.

Lemma by_name_surj n :
  n < length names → ∃ r, r < length names ∧ by_name names !!! r = n.
Proof.
  intros Hn. assert (n ∈ by_name names) as Hin.
  { rewrite by_name_perm. apply elem_of_seq. lia. }
  apply list_elem_of_lookup in Hin as [r Hr]. exists r. split.
  - apply lookup_lt_Some in Hr. by rewrite length_by_name in Hr.
  - by apply list_lookup_total_correct.
Qed.

Lemma by_name_rank n :
  n < length names → rank names !!! n < length names ∧ by_name names !!! (rank names !!! n) = n.
Proof. intros Hn. destruct (by_name_surj n Hn) as (r & Hr & <-). by rewrite rank_by_name. Qed.

(** Ranks follow names. *)
Lemma by_name_sorted r1 r2 :
  r1 <= r2 → r2 < length names →
  String.leb (names !!! (by_name names !!! r1)) (names !!! (by_name names !!! r2)) = true.
Proof.
  intros Hle Hr2. destruct (decide (r1 = r2)) as [->|Hne]; [apply string_leb_refl|].
  assert (Hs := sort_by_sorted (λ l r, String.leb (names !!! l) (names !!! r))
                  (λ x y, string_leb_total _ _) (λ x y z, string_leb_trans _ _ _)
                  (seq 0 (length names))).
  fold (by_name names) in Hs. rewrite <-length_by_name in Hr2.
  apply (StronglySorted_lookup_lt
           (λ l r, String.leb (names !!! l) (names !!! r) = true)
           (by_name names) r1 r2); [exact Hs|lia| |].
  - apply list_lookup_lookup_total_lt. lia.
  - by apply list_lookup_lookup_total_lt.
Qed.

Lemma rank_leb n m :
  n < length names → m < length names → rank names !!! n <= rank names !!! m →
  String.leb (names !!! n) (names !!! m) = true.
Proof.
  intros Hn Hm Hle. destruct (by_name_rank n Hn) as [? En], (by_name_rank m Hm) as [? Em].
  rewrite <-En at 1. rewrite <-Em. by apply by_name_sorted.
Qed.

(** *** The adjacency lists *)

Lemma graph_edge_cons i j l a b :
  graph_edge names ((i, j) :: l) a b ↔
  (a = i ∧ b = j ∧ i < length names ∧ j < length names) ∨ graph_edge names l a b.
Proof. unfold graph_edge. rewrite elem_of_cons. naive_solver. Qed.

Lemma foldl_push_lookup (l : list (nat * nat)) (s : list (list nat)) r x :
  length s = length names →
  let s' := foldl (λ s '(from, to),
      if (from <? length names) && (to <? length names)
      then alter (λ l, l ++ [rank names !!! to]) (rank names !!! from) s
      else s) s l in
  length s' = length names ∧
  (r < length names → x ∈ s' !!! r ↔
     x ∈ s !!! r ∨ ∃ i j, graph_edge names l i j ∧ rank names !!! i = r ∧ rank names !!! j = x).
Proof.
  revert s. induction l as [|[i j] l IH]; intros s Hs; simpl.
  { split; [done|]. intros _. unfold graph_edge. split; [by left|].
    intros [?|(? & ? & (Hin & _) & _)]; [done|]. by apply not_elem_of_nil in Hin. }
  setoid_rewrite graph_edge_cons. case_if.
  - specialize (IH (alter (λ l0, l0 ++ [rank names !!! j]) (rank names !!! i) s)).
    rewrite length_alter in IH. destruct (IH Hs) as [Hlen Hx]. split; [done|].
    intros Hr. rewrite (Hx Hr), (list_lookup_total_alt s), (list_lookup_total_alt (alter _ _ _)),
      list_lookup_alter.
    rewrite <-Hs in Hr. apply lookup_lt_is_Some_2 in Hr as [v Hv].
    destruct (decide (rank names !!! i = r)) as [Hr|]; [rewrite Hr|]; rewrite Hv; simpl;
      [rewrite elem_of_app, list_elem_of_singleton|]; naive_solver.
  - destruct (IH s Hs) as [Hlen Hx]. split; [done|]. intros Hr. rewrite (Hx Hr).
    apply andb_false_iff in E as [E|E]; bool_to_prop; naive_solver lia.
Qed.

Lemma length_successors : length succs = length names.
Proof.
  unfold successors. rewrite length_fmap.
  apply (foldl_push_lookup edges _ 0 0). by rewrite length_replicate.
Qed.

Lemma successors_lookup r :
  r < length names → ∃ l,
    succs !!! r = dedup (sort_by Nat.leb l) ∧
    ∀ x, x ∈ l ↔ ∃ i j, graph_edge names edges i j ∧ rank names !!! i = r ∧ rank names !!! j = x.
Proof.
  intros Hr. pose proof (foldl_push_lookup edges (replicate (count names) []) r) as Hp.
  rewrite length_replicate in Hp. eexists. split.
  - unfold successors. apply list_lookup_total_correct. rewrite list_lookup_fmap.
    rewrite list_lookup_lookup_total_lt; [done|].
    destruct (Hp 0 eq_refl) as [Hl _]. eapply Nat.lt_le_trans; [exact Hr|].
    apply Nat.eq_le_incl. symmetry. exact Hl.
  - intros x. destruct (Hp x eq_refl) as [_ ->]; [|done].
    rewrite lookup_total_replicate_2 by done. split; [|by right].
    intros [Hin|?]; [|done]. by apply not_elem_of_nil in Hin.
Qed.

Lemma elem_of_successors r x :
  r < length names →
  x ∈ succs !!! r ↔ ∃ i j, graph_edge names edges i j ∧ rank names !!! i = r ∧ rank names !!! j = x.
Proof.
  intros Hr. destruct (successors_lookup r Hr) as (l & -> & Hl).
  by rewrite elem_of_dedup, elem_of_sort_by.
Qed.

(** The successors of a ranked node are its graph neighbours, ranked. *)
Lemma elem_of_successors_rank r x :
  r < length names →
  x ∈ succs !!! r ↔
  x < length names ∧ graph_edge names edges (by_name names !!! r) (by_name names !!! x).
Proof.
  intros Hr. rewrite elem_of_successors by done. split.
  - intros (i & j & (Hin & Hi & Hj) & <- & <-).
    destruct (by_name_rank i Hi) as [? ->], (by_name_rank j Hj) as [? ->]. done.
  - intros [Hx Hg]. exists (by_name names !!! r), (by_name names !!! x).
    by rewrite !rank_by_name.
Qed.

Lemma successors_NoDup r : NoDup (succs !!! r).
Proof.
  destruct (decide (r < length names)) as [Hr|Hr].
  - destruct (successors_lookup r Hr) as (l & -> & _).
    eapply (NoDup_dedup_sorted (λ x y, Nat.leb x y = true)).
    + intros x y ??. bool_to_prop. lia.
    + intros x. apply Nat.leb_refl.
    + apply sort_by_sorted.
      * intros x y. destruct (Nat.leb_spec x y); [by left|]. right. apply Nat.leb_le. lia.
      * intros x y z ??. bool_to_prop. apply Nat.leb_le. lia.
  - rewrite list_lookup_total_alt, lookup_ge_None_2; [constructor|].
    rewrite length_successors. lia.
Qed.

Lemma successors_lt r x : r < length names → x ∈ succs !!! r → x < length names.
Proof. intros Hr Hx. by apply elem_of_successors_rank in Hx as [? _]. Qed.

(** *** One start

    [ended found events e]: the loop that ended with [e] met [events], or a
    prefix of them when it broke off. *)
Definition ended (found : BoundedCycles) (events : list (list nat)) (e : walk_end) : Prop :=
  match e with
  | Done f _ => absorb found events = (f, false)
  | Broke f => ∃ pre suf, events = pre ++ suf ∧ f = truncate (absorb found pre).1
  end.

Lemma ended_event found p events e :
  max_cycles <= length (cycles found) ∨
    ended (if min_size <=? length p then push_cycle names (count_examined found) p
           else count_examined found) events e →
  (max_cycles <= length (cycles found) → e = Broke (truncate (count_examined found))) →
  ended found (p :: events) e.
Proof.
  intros He Hcap. destruct (decide (max_cycles <= length (cycles found))) as [Hle|Hlt].
  - rewrite (Hcap Hle). exists [p], events. split; [done|]. simpl.
    by rewrite (proj2 (Nat.leb_le _ _) Hle).
  - destruct He as [?|He]; [done|].
    assert (Hb : (max_cycles <=? length (cycles found)) = false) by (apply Nat.leb_gt; lia).
    destruct e as [f b|f]; simpl in *; [by rewrite Hb|].
    destruct He as (pre & suf & -> & ->). exists (p :: pre), suf. split; [done|].
    simpl. by rewrite Hb.
Qed.

Lemma walker_ok_pop node up op cursor rest :
  walker_ok (mkWalker (node :: up) op (cursor :: rest)) →
  walker_ok (mkWalker up (<[node := false]> op) rest).
Proof.
  intros (Hlen & Hnd & Hlt & Hop & Hon). simpl in *.
  apply NoDup_cons in Hnd as [Hn Hnd]. apply Forall_cons in Hlt as [Hnlt Hlt].
  repeat split; simpl; [lia|done|done|by rewrite length_insert|].
  intros r Hr. destruct (decide (r = node)) as [->|Hne].
  - rewrite list_lookup_total_insert_eq by (unfold count in *; lia).
    by rewrite bool_decide_eq_false_2.
  - rewrite list_lookup_total_insert_ne, Hon by done.
    apply bool_decide_ext. set_solver.
Qed.

Lemma walker_ok_push next p op cs c :
  next < length names → next ∉ p →
  walker_ok (mkWalker p op cs) →
  walker_ok (mkWalker (next :: p) (<[next := true]> op) (c :: cs)).
Proof.
  intros Hn Hni (Hlen & Hnd & Hlt & Hop & Hon). simpl in *.
  repeat split; simpl; [lia|by constructor|by constructor|by rewrite length_insert|].
  intros r Hr. destruct (decide (r = next)) as [->|Hne].
  - rewrite list_lookup_total_insert_eq by (unfold count in *; lia).
    by rewrite bool_decide_eq_true_2 by set_solver.
  - rewrite list_lookup_total_insert_ne, Hon by done.
    apply bool_decide_ext. set_solver.
Qed.

Lemma walk_start_spec budget start w found :
  walker_ok w → ended found (pending start (path w) (cursors w)) (walk_start budget start w found).
Proof.
  revert w found. induction budget as [|budget IH]; intros [p op cs] found Hok; simpl.
  { destruct cs as [|c cs]; [by destruct p|]. by exists [], (pending start p (c :: cs)). }
  destruct cs as [|cursor rest]; [by destruct p|].
  destruct p as [|node up]; [done|]. simpl.
  assert (Hnode : node < length names).
  { destruct Hok as (_ & _ & Hlt & _). by apply Forall_cons in Hlt as [? _]. }
  destruct (succs !!! node !! cursor) as [next|] eqn:Hnext.
  2:{ rewrite drop_ge, met_nil by (by apply lookup_ge_None). simpl.
      apply (IH (mkWalker up _ rest)). by eapply walker_ok_pop. }
  rewrite (drop_S _ _ _ Hnext), met_cons. unfold visit.
  assert (Hlt : next < length names).
  { eapply successors_lt; [exact Hnode|]. by eapply list_elem_of_lookup_2. }
  assert (Hok' : walker_ok (mkWalker (node :: up) op (S cursor :: rest))) by exact Hok.
  assert (Hmore : ∀ found',
    ended found' (met start (node :: up) (drop (S cursor) (succs !!! node)) ++ pending start up rest)
      (walk_start budget start (mkWalker (node :: up) op (S cursor :: rest)) found')).
  { intros found'. exact (IH (mkWalker (node :: up) op (S cursor :: rest)) found' Hok'). }
  destruct (Nat.eqb_spec next start) as [->|Hne].
  - rewrite decide_True by done.
    change (S (length up)) with (length (node :: up)).
    destruct (Nat.ltb_spec max_length (length (node :: up))).
    + rewrite decide_False by lia. apply Hmore.
    + rewrite decide_True by lia. rewrite <-app_assoc.
      apply (ended_event _ (node :: up)); destruct (Nat.leb_spec max_cycles (length (cycles found)));
        [by left| |done|lia].
      right. case_if; apply Hmore.
  - rewrite decide_False by done.
    assert (Hon : op !!! next = bool_decide (next ∈ node :: up)).
    { destruct Hok as (_ & _ & _ & _ & Hon). by apply Hon. }
    rewrite Hon.
    destruct (decide (start < next ∧ next ∉ node :: up ∧ length (node :: up) < max_length))
      as [(H1 & H2 & H3)|Hd].
    + rewrite (proj2 (Nat.ltb_lt _ _) H1), (bool_decide_eq_false_2 _ H2),
        (proj2 (Nat.ltb_lt (S (length up)) max_length) H3), <-app_assoc.
      apply (IH (mkWalker (next :: node :: up) _ (0 :: S cursor :: rest))).
      by apply walker_ok_push.
    + case_if; [|apply Hmore]. exfalso. apply Hd. simpl in *. repeat split; [lia|done|lia].
Qed.

Lemma init_walker_ok start : start < length names → walker_ok (init_walker names start).
Proof.
  intros Hs. repeat split; simpl.
  - apply NoDup_singleton.
  - by apply Forall_singleton.
  - by rewrite length_insert, length_replicate.
  - intros r Hr. destruct (decide (r = start)) as [->|Hne].
    + rewrite list_lookup_total_insert_eq by (by rewrite length_replicate).
      by rewrite bool_decide_eq_true_2 by set_solver.
    + rewrite list_lookup_total_insert_ne, lookup_total_replicate_2 by done.
      by rewrite bool_decide_eq_false_2 by set_solver.
Qed.

Lemma absorb_truncated found l :
  truncated (absorb found l).1 = truncated found.
Proof.
  revert found. induction l as [|p l IH]; intros found; simpl; [done|].
  case_if; [done|]. rewrite IH. by case_if.
Qed.

Lemma walk_starts_spec starts budget found :
  Forall (λ s, s < length names) starts → truncated found = false →
  let events := start ← starts; met start [start] (succs !!! start) in
  let f := walk_starts starts budget found in
  if truncated f then ∃ pre suf, events = pre ++ suf ∧ f = truncate (absorb found pre).1
  else absorb found events = (f, false).
Proof.
  revert budget found. induction starts as [|start starts IH]; intros budget found Hs Hf.
  { simpl. by rewrite Hf. }
  apply Forall_cons in Hs as [Hs Hss]. simpl.
  pose proof (walk_start_spec budget start (init_walker names start) found) as Hw.
  specialize (Hw (init_walker_ok start Hs)). simpl in Hw.
  rewrite drop_0, app_nil_r in Hw.
  destruct (walk_start budget start (init_walker names start) found) as [f b|f]; simpl in *.
  - assert (Hft : truncated f = false).
    { pose proof (absorb_truncated found (met start [start] (succs !!! start))) as Ht.
      by rewrite Hw in Ht; simpl in Ht; rewrite Ht. }
    specialize (IH b f Hss Hft). simpl in IH.
    destruct (truncated (walk_starts starts b f)).
    + destruct IH as (pre & suf & Hpre & ->). eexists (_ ++ pre), suf. rewrite <-app_assoc, <-Hpre.
      split; [done|]. by rewrite absorb_app, Hw by (by rewrite Hw).
    + by rewrite absorb_app, Hw by (by rewrite Hw).
  - destruct Hw as (pre & suf & Hpre & ->). simpl.
    exists pre, (suf ++ (starts ≫= λ start, met start [start] (succs !!! start))).
    by rewrite Hpre, <-app_assoc.
Qed.

(** Absorbing keeps a prefix of the long enough cycles, all of them when the
    limit does not stop it. *)
Lemma absorb_cycles found l :
  ∃ k, cycles (absorb found l).1 =
       cycles found ++ ((λ p, (λ r, by_name names !!! r) <$> rev p) <$>
                        take k (filter (λ p, min_size <= length p) l)) ∧
       ((absorb found l).2 = false → length (filter (λ p, min_size <= length p) l) <= k ∧
           examined (absorb found l).1 = examined found + length l).
Proof.
  revert found. induction l as [|p l IH]; intros found; simpl.
  { exists 0. rewrite app_nil_r. split; [done|]. simpl. lia. }
  destruct (Nat.leb_spec max_cycles (length (cycles found))) as [Hcap|Hcap]; simpl.
  { exists 0. by rewrite take_0, app_nil_r. }
  rewrite filter_cons. destruct (Nat.leb_spec min_size (length p)) as [Hl|Hl].
  - rewrite decide_True by done. destruct (IH (push_cycle names (count_examined found) p)) as (k & Hk & He).
    exists (S k). rewrite Hk. simpl. rewrite <-app_assoc. split; [done|].
    intros H. destruct (He H) as [? ->]. simpl. lia.
  - rewrite decide_False by lia. destruct (IH (count_examined found)) as (k & Hk & He).
    exists k. rewrite Hk. split; [done|]. intros H. destruct (He H) as [? ->]. simpl. lia.
Qed.

Lemma absorb_app_inv found l1 l2 f :
  absorb found (l1 ++ l2) = (f, false) →
  ∃ f1, absorb found l1 = (f1, false) ∧ absorb f1 l2 = (f, false).
Proof.
  intros H. destruct (absorb found l1) as [f1 b] eqn:E. exists f1.
  assert (b = false) as ->.
  { revert found E H. induction l1 as [|p l1 IH]; intros found E H; simpl in *; [congruence|].
    case_match; [congruence|]. by eapply IH. }
  split; [done|]. rewrite absorb_app in H by (by rewrite E). by rewrite E in H.
Qed.

(** Enough steps finish a frame of the walk and pop it. *)
Lemma frame_steps fuel start node up op cursor rest :
  max_length - length (node :: up) < fuel →
  walker_ok (mkWalker (node :: up) op (cursor :: rest)) →
  ∃ N, ∀ budget found f,
    absorb found (met start (node :: up) (drop cursor (succs !!! node))) = (f, false) →
    walk_start (N + budget) start (mkWalker (node :: up) op (cursor :: rest)) found =
    walk_start budget start (mkWalker up (<[node := false]> op) rest) f.
Proof.
  revert node up op cursor rest. induction fuel as [|fuel IHf]; [lia|].
  intros node up op cursor rest Hfuel.
  remember (length (succs !!! node) - cursor) as m eqn:Hm. revert cursor Hm.
  induction m as [|m IHm]; intros cursor Hm Hok.
  { exists 1. intros budget found f Hf. rewrite drop_ge, met_nil in Hf by lia.
    injection Hf as <-. simpl. by rewrite lookup_ge_None_2 by lia. }
  destruct (lookup_lt_is_Some_2 (succs !!! node) cursor) as [next Hnext]; [lia|].
  assert (Hnode : node < length names).
  { destruct Hok as (_ & _ & Hlt & _). by apply Forall_cons in Hlt as [? _]. }
  assert (Hlt : next < length names).
  { eapply successors_lt; [exact Hnode|]. by eapply list_elem_of_lookup_2. }
  destruct (IHm (S cursor)) as [N' HN']; [lia|exact Hok|].
  assert (Hon : op !!! next = bool_decide (next ∈ node :: up)).
  { destruct Hok as (_ & _ & _ & _ & Hon). by apply Hon. }
  destruct (decide (next ≠ start ∧ start < next ∧ next ∉ node :: up ∧ length (node :: up) < max_length))
    as [(Hne & H1 & H2 & H3)|Hno].
  - destruct (IHf next (node :: up) (<[next := true]> op) 0 (S cursor :: rest)) as [N1 HN1].
    { simpl in *. lia. }
    { by apply walker_ok_push. }
    exists (S (N1 + N')). intros budget found f Hf.
    rewrite (drop_S _ _ _ Hnext), met_cons in Hf. apply absorb_app_inv in Hf as (f1 & Hf1 & Hf).
    unfold visit in Hf1. rewrite decide_False, decide_True in Hf1 by done.
    cbn [Nat.add]. simpl. rewrite Hnext, (proj2 (Nat.eqb_neq _ _) Hne), Hon.
    rewrite (proj2 (Nat.ltb_lt _ _) H1), (bool_decide_eq_false_2 _ H2),
      (proj2 (Nat.ltb_lt (S (length up)) max_length) H3). cbn [negb andb].
    rewrite <-Nat.add_assoc, (HN1 _ _ _ Hf1), list_insert_insert_eq, list_insert_id; [by apply HN'|].
    rewrite <-(bool_decide_eq_false_2 _ H2), <-Hon. apply list_lookup_lookup_total_lt.
    destruct Hok as (_ & _ & _ & Hop & _). simpl in Hop. unfold count in Hop. lia.
  - exists (S N'). intros budget found f Hf.
    rewrite (drop_S _ _ _ Hnext), met_cons in Hf. apply absorb_app_inv in Hf as (f1 & Hf1 & Hf).
    unfold visit in Hf1. cbn [Nat.add]. simpl. rewrite Hnext.
    destruct (Nat.eqb_spec next start) as [->|Hne].
    + rewrite decide_True in Hf1 by done. change (S (length up)) with (length (node :: up)).
      destruct (Nat.ltb_spec max_length (length (node :: up))).
      * rewrite decide_False in Hf1 by lia. injection Hf1 as <-. by apply HN'.
      * rewrite decide_True in Hf1 by lia. cbn [Cycles.absorb cycles count_examined] in Hf1.
        destruct (max_cycles <=? _); [done|]. injection Hf1 as <-.
        destruct (min_size <=? _); by apply HN'.
    + rewrite decide_False, decide_False in Hf1 by tauto. injection Hf1 as <-.
      rewrite Hon. case_if; [|by apply HN']. exfalso. apply Hno. simpl in *.
      repeat split; [done|lia|done|lia].
Qed.

Lemma walk_starts_steps starts found f :
  Forall (λ s, s < length names) starts →
  absorb found (start ← starts; met start [start] (succs !!! start)) = (f, false) →
  ∃ N, ∀ budget, N <= budget → walk_starts starts budget found = f.
Proof.
  revert found. induction starts as [|start starts IH]; intros found Hs Hf.
  { exists 0. simpl in *. by injection Hf. }
  apply Forall_cons in Hs as [Hs Hss]. simpl in Hf. apply absorb_app_inv in Hf as (f1 & Hf1 & Hf).
  destruct (IH f1 Hss Hf) as [N HN].
  destruct (frame_steps (S max_length) start start [] (<[start:=true]> (replicate (count names) false)) 0 [])
    as [N1 HN1]; [lia|by apply init_walker_ok|].
  exists (N1 + N). intros budget Hb. simpl. unfold init_walker.
  replace budget with (N1 + (budget - N1)) by lia.
  rewrite (HN1 (budget - N1) found f1) by (by rewrite drop_0).
  destruct (budget - N1) eqn:E; simpl; apply HN; lia.
Qed.

(** *** What the enumeration contains *)

(** The ranked adjacency relation. *)
Definition ranked_edge (x y : nat) : Prop := x < length names ∧ y ∈ succs !!! x.

(** A reversed partial path of the walk from [start]. *)
Definition partial (start : nat) (p : list nat) : Prop :=
  ∃ ext, p = ext ++ [start] ∧ NoDup p ∧ Forall (λ x, start < x) ext ∧
         Forall (λ x, x < length names) p ∧ chain ranked_edge (rev p).

Lemma partial_init start : start < length names → partial start [start].
Proof.
  intros Hs. exists []. repeat split; [apply NoDup_singleton|done|by apply Forall_singleton].
Qed.

Lemma partial_push start node up next :
  partial start (node :: up) → next ∈ succs !!! node → start < next → next ∉ node :: up →
  partial start (next :: node :: up).
Proof.
  intros (ext & Hp & Hnd & Hext & Hlt & Hc) Hnext Hs Hni.
  assert (Hnode : node < length names) by by apply Forall_cons in Hlt as [? _].
  exists (next :: ext). rewrite Hp. split; [done|]. rewrite <-Hp. repeat split.
  - by constructor.
  - by constructor.
  - constructor; [|done]. by eapply successors_lt.
  - simpl. rewrite <-app_assoc. apply chain_snoc2. by split.
Qed.

Lemma met_fuel_sound fuel start node up nexts e :
  partial start (node :: up) → (∀ x, x ∈ nexts → x ∈ succs !!! node) →
  e ∈ met_fuel names edges max_length fuel start (node :: up) nexts →
  ∃ h t, e = h :: t ∧ partial start (h :: t) ∧ start ∈ succs !!! h ∧ length e <= max_length.
Proof.
  revert node up nexts. induction fuel as [|fuel IH]; intros node up nexts Hp Hn He; simpl in He.
  { by apply not_elem_of_nil in He. }
  apply list_elem_of_bind in He as (next & He & Hnext).
  destruct (decide (next = start)) as [->|Hne].
  - destruct (decide _); [|by apply not_elem_of_nil in He].
    apply list_elem_of_singleton in He as ->. exists node, up. auto.
  - destruct (decide _) as [(H1 & H2 & H3)|]; [|by apply not_elem_of_nil in He].
    apply (IH next (node :: up) (succs !!! next)); [|done|done].
    apply partial_push; auto.
Qed.

Lemma met_complete todo start node up :
  start ∈ succs !!! (default node (head (rev todo))) →
  chain ranked_edge (node :: todo) → NoDup (rev todo ++ node :: up) →
  Forall (λ x, start < x) todo → length todo + length (node :: up) <= max_length →
  start ∉ todo →
  rev todo ++ node :: up ∈ met start (node :: up) (succs !!! node).
Proof.
  revert node up. induction todo as [|next todo IH]; intros node up Hlast Hc Hnd Hgt Hlen Hs;
    rewrite met_unfold; apply list_elem_of_bind.
  - exists start. split; [|done]. unfold visit. rewrite decide_True by done.
    rewrite decide_True by done. simpl. by apply list_elem_of_singleton.
  - apply Forall_cons in Hgt as [Hgt1 Hgt]. destruct Hc as [[Hnode Hedge] Hc].
    apply not_elem_of_cons in Hs as [Hne Hs]. exists next. split; [|done].
    unfold visit. simpl in Hnd. rewrite <-app_assoc in Hnd. simpl in Hnd.
    rewrite decide_False by done. rewrite decide_True; [|repeat split; [done| |simpl in *; lia]].
    + simpl. rewrite <-app_assoc. apply (IH next (node :: up)); [|done|done|done|simpl in *; lia|done].
      simpl in Hlast. destruct (rev todo); simpl in *; done.
    + apply NoDup_app in Hnd as (_ & _ & Hnd). by apply NoDup_cons in Hnd as [? _].
Qed.

Lemma met_fuel_suffix fuel start p nexts e :
  e ∈ met_fuel names edges max_length fuel start p nexts → ∃ ext, e = ext ++ p.
Proof.
  revert p nexts. induction fuel as [|fuel IH]; intros p nexts He; simpl in He.
  { by apply not_elem_of_nil in He. }
  apply list_elem_of_bind in He as (next & He & _).
  destruct (decide _); [destruct (decide _)|destruct (decide _)];
    try by apply not_elem_of_nil in He.
  - apply list_elem_of_singleton in He as ->. by exists [].
  - destruct (IH _ _ He) as [ext ->]. exists (ext ++ [next]). by rewrite <-app_assoc.
Qed.

Lemma met_fuel_branch fuel start p x e :
  e ∈ (if decide (x = start) then
         if decide (length p <= max_length) then [p] else []
       else if decide (start < x ∧ x ∉ p ∧ length p < max_length) then
         met_fuel names edges max_length fuel start (x :: p) (succs !!! x) else []) →
  (x = start ∧ e = p) ∨ (x ≠ start ∧ ∃ ext, e = ext ++ x :: p).
Proof.
  repeat case_decide; try by intros ?%not_elem_of_nil.
  - intros ->%list_elem_of_singleton. by left.
  - intros He. right. split; [done|]. by eapply met_fuel_suffix.
Qed.

Lemma met_fuel_NoDup fuel start p nexts :
  NoDup nexts → NoDup (met_fuel names edges max_length fuel start p nexts).
Proof.
  revert p nexts. induction fuel as [|fuel IH]; intros p nexts Hnd; simpl; [constructor|].
  apply NoDup_bind; [| |done].
  - intros x1 x2 e _ _ H1 H2.
    apply met_fuel_branch in H1 as [[-> ->]|[? [e1 ->]]], H2 as [[-> H2]|[? [e2 H2]]];
      [done|exfalso; apply (f_equal length) in H2; rewrite ?length_app in H2; simpl in *; lia..|].
    change (x1 :: p) with ([x1] ++ p) in H2. change (x2 :: p) with ([x2] ++ p) in H2.
    rewrite !app_assoc in H2. apply app_inj_2 in H2 as [H2 _]; [|done].
    apply app_inj_2 in H2 as [_ H2]; [|done]. by injection H2.
  - intros x _. repeat case_decide;
      [apply NoDup_singleton|constructor|apply IH, successors_NoDup|constructor].
Qed.

#[local] Abbreviation all_met := (all_met names edges max_length).
#[local] Abbreviation all_cycles := (all_cycles names edges min_size max_length).
#[local] Abbreviation result :=
  (bounded_simple_cycles names edges min_size max_length max_cycles max_steps).
#[local] Abbreviation to_indices p := ((λ r, by_name names !!! r) <$> p).

(** A ranked cycle as the walk emits it: from its smallest rank. *)
Definition ranked_cycle (c : list nat) : Prop :=
  simple_cycle ranked_edge c ∧ length c <= max_length ∧
  ∀ h t, c = h :: t → Forall (λ x, h < x) t.

Lemma elem_of_all_met e : e ∈ all_met ↔ ranked_cycle (rev e).
Proof.
  unfold Cycles.all_met. rewrite list_elem_of_bind. split.
  - intros (start & He & Hs). apply elem_of_seq in Hs.
    eapply met_fuel_sound in He as (h & t & -> & (ext & Hp & Hnd & Hext & Hlt & Hc) & Hin & Hlen);
      [|apply partial_init; unfold count in *; lia|done].
    rewrite Hp in Hnd, Hlt, Hc, Hlen |- *. rewrite rev_unit in Hc |- *. split; [split|split].
    + rewrite <-rev_unit. by rewrite <-Permutation_rev.
    + assert (Hh : rev (h :: t) = start :: rev ext) by by rewrite Hp, rev_unit.
      simpl in Hh. rewrite <-Hh. rewrite <-app_assoc. simpl. apply chain_snoc2.
      rewrite Hh. split; [done|split; [|done]].
      rewrite <-Hp in Hlt. by apply Forall_cons in Hlt as [? _].
    + by rewrite <-rev_unit, length_rev.
    + intros h' t' [= <- <-]. by apply Forall_rev.
  - destruct (rev e) as [|start todo] eqn:Hrev; [by intros [[] _]|].
    intros ([Hnd Hc] & Hlen & Hmin). specialize (Hmin _ _ eq_refl).
    assert (He : e = rev todo ++ [start]).
    { rewrite <-(rev_involutive e), Hrev. done. }
    assert (Hs : start < length names).
    { destruct todo; simpl in Hc; destruct Hc as [[? _] _]; done. }
    exists start. split; [|apply elem_of_seq; unfold count; lia]. subst e. clear Hrev.
    apply NoDup_cons in Hnd as [Hni Hnd].
    apply (met_complete todo start start []); [| |by rewrite <-Permutation_rev, NoDup_app;
      repeat split; [done|set_solver|apply NoDup_singleton]|done|simpl in *; lia|done].
    + destruct (decide (todo = [])) as [->|Hne].
      * simpl in *. destruct Hc as [[_ ?] _]. done.
      * destruct (exists_last Hne) as (l & x & ->). rewrite rev_unit. simpl.
        rewrite app_comm_cons, <-app_assoc in Hc. simpl in Hc.
        apply (chain_snoc2 ranked_edge (start :: l)) in Hc as [_ [_ ?]]. done.
    + by eapply chain_app_l.
Qed.

(** The first node of the list has the smallest rank. *)
Definition smallest_first (c : list nat) : Prop :=
  ∀ h t, c = h :: t → Forall (λ n, rank names !!! h < rank names !!! n) t.

Lemma elem_of_all_cycles c :
  c ∈ all_cycles ↔
  simple_cycle (graph_edge names edges) c ∧ min_size <= length c <= max_length ∧ smallest_first c.
Proof.
  unfold Cycles.all_cycles. rewrite list_elem_of_fmap. split.
  - intros (p & -> & Hp). apply list_elem_of_filter in Hp as [Hmin Hp].
    apply elem_of_all_met in Hp as (Hcyc & Hmax & Hfirst).
    assert (Hlt : ∀ x, x ∈ rev p → x < length names).
    { intros x Hx. by destruct (simple_cycle_step _ _ _ Hcyc Hx) as (y & _ & ? & _). }
    rewrite length_fmap, length_rev in *. split; [|split; [lia|]].
    + apply (simple_cycle_map ranked_edge); [| |done].
      * intros x y Hx Hy. apply by_name_inj; auto.
      * intros x y Hx Hy [_ Hxy]. apply elem_of_successors_rank in Hxy as [_ ?]; auto.
    + intros h t Ht. destruct (rev p) as [|h' t'] eqn:Hrev; [done|].
      injection Ht as <- <-. specialize (Hfirst _ _ eq_refl).
      apply Forall_fmap, Forall_forall. intros x Hx. simpl.
      rewrite Forall_forall in Hfirst. rewrite !rank_by_name by (apply Hlt; set_solver).
      by apply Hfirst.
  - intros (Hcyc & Hlen & Hfirst).
    assert (Hlt : ∀ x, x ∈ c → x < length names).
    { intros x Hx. by destruct (simple_cycle_step _ _ _ Hcyc Hx) as (y & _ & _ & ? & _). }
    assert (Hid : to_indices ((λ n, rank names !!! n) <$> c) = c).
    { rewrite <-list_fmap_compose. rewrite <-(list_fmap_id c) at 2.
      apply list_fmap_ext. intros i x Hx. simpl.
      apply by_name_rank, Hlt. by eapply list_elem_of_lookup_2. }
    exists (rev ((λ n, rank names !!! n) <$> c)). rewrite rev_involutive. split; [done|].
    apply list_elem_of_filter. rewrite length_rev, length_fmap. split; [lia|].
    apply elem_of_all_met. rewrite rev_involutive. split; [|split].
    + apply (simple_cycle_map (graph_edge names edges)); [| |done].
      * intros x y Hx%Hlt Hy%Hlt Heq.
        apply by_name_rank in Hx as [_ <-], Hy as [_ <-]. by rewrite Heq.
      * intros x y Hx Hy Hxy. destruct (by_name_rank x (Hlt x Hx)) as [Hrx Hx'].
        destruct (by_name_rank y (Hlt y Hy)) as [Hry Hy'].
        split; [done|]. apply elem_of_successors_rank; [done|]. by rewrite Hx', Hy'.
    + rewrite length_fmap. lia.
    + intros h t Ht. destruct c as [|h' t']; [done|]. injection Ht as <- <-.
      specialize (Hfirst _ _ eq_refl). by apply Forall_fmap.
Qed.

Lemma all_cycles_NoDup : NoDup all_cycles.
Proof.
  unfold Cycles.all_cycles.
  assert (Hmet : NoDup all_met).
  { unfold Cycles.all_met. apply NoDup_bind; [| |apply NoDup_seq].
    - intros s1 s2 e _ _ H1 H2. apply met_fuel_suffix in H1 as [e1 ->], H2 as [e2 H2].
      apply app_inj_2 in H2 as [_ H2]; [|done]. by injection H2.
    - intros s _. apply met_fuel_NoDup, successors_NoDup. }
  apply NoDup_fmap_2_strong; [|by apply NoDup_filter].
  intros p1 p2 H1 H2 Heq. apply list_elem_of_filter in H1 as [_ H1], H2 as [_ H2].
  assert (Hlt : ∀ p, p ∈ all_met → ∀ x, x ∈ rev p → x < length names).
  { intros p Hp x Hx. apply elem_of_all_met in Hp as (Hcyc & _).
    by destruct (simple_cycle_step _ _ _ Hcyc Hx) as (y & _ & ? & _). }
  rewrite <-(rev_involutive p1), <-(rev_involutive p2). f_equal.
  specialize (Hlt p1 H1) as L1. specialize (Hlt p2 H2) as L2.
  revert Heq L1 L2. generalize (rev p1) (rev p2). clear.
  intros l1. induction l1 as [|x l1 IH]; intros [|y l2] Heq L1 L2; simpl in *; try done.
  injection Heq as Hxy Heq. f_equal.
  - apply by_name_inj; [apply L1|apply L2|done]; set_solver.
  - apply IH; [done| |]; intros z Hz; [apply L1|apply L2]; set_solver.
Qed.

(** *** The function *)

Lemma result_spec :
  if truncated result
  then ∃ pre suf, all_met = pre ++ suf ∧
         result = truncate (absorb (mkBoundedCycles [] 0 false) pre).1
  else absorb (mkBoundedCycles [] 0 false) all_met = (result, false).
Proof.
  apply (walk_starts_spec (seq 0 (count names)) max_steps); [|done].
  apply Forall_forall. intros x Hx. apply elem_of_seq in Hx. unfold count in Hx. lia.
Qed.

Lemma absorb_length found l :
  length (cycles found) <= max_cycles → length (cycles (absorb found l).1) <= max_cycles.
Proof.
  revert found. induction l as [|p l IH]; intros found Hf; simpl; [done|].
  destruct (Nat.leb_spec max_cycles (length (cycles found))); [done|]. apply IH.
  case_if; simpl; [|lia]. rewrite length_app. simpl. lia.
Qed.

Lemma prefix_of_filter_take (l1 l2 : list (list nat)) k :
  take k (filter (λ p, min_size <= length p) l1) `prefix_of`
  filter (λ p, min_size <= length p) (l1 ++ l2).
Proof.
  rewrite filter_app. exists (drop k (filter (λ p, min_size <= length p) l1) ++
    filter (λ p, min_size <= length p) l2). by rewrite app_assoc, take_drop.
Qed.

Lemma result_prefix : cycles result `prefix_of` all_cycles.
Proof.
  pose proof result_spec as Hs. unfold Cycles.all_cycles. destruct (truncated result).
  - destruct Hs as (pre & suf & Hall & ->). simpl.
    destruct (absorb_cycles (mkBoundedCycles [] 0 false) pre) as (k & -> & _). simpl.
    rewrite Hall. destruct (prefix_of_filter_take pre suf k) as [r ->].
    rewrite fmap_app. by eexists.
  - destruct (absorb_cycles (mkBoundedCycles [] 0 false) all_met) as (k & Hk & _).
    rewrite Hs in Hk. simpl in Hk. rewrite Hk. eexists.
    rewrite <-fmap_app. by rewrite take_drop.
Qed.

Lemma result_complete :
  truncated result = false → cycles result = all_cycles ∧ examined result = length all_met.
Proof.
  intros Ht. pose proof result_spec as Hs. rewrite Ht in Hs.
  destruct (absorb_cycles (mkBoundedCycles [] 0 false) all_met) as (k & Hk & He).
  rewrite Hs in Hk, He. destruct (He eq_refl) as [Hle Hex]. simpl in Hk, Hex. split; [|done].
  rewrite Hk, take_ge by done. done.
Qed.

Lemma result_length : length (cycles result) <= max_cycles.
Proof.
  pose proof result_spec as Hs. destruct (truncated result).
  - destruct Hs as (pre & suf & _ & ->). simpl. apply absorb_length. simpl. lia.
  - pose proof (absorb_length (mkBoundedCycles [] 0 false) all_met) as Hl.
    rewrite Hs in Hl. apply Hl. simpl. lia.
Qed.

End walk_facts.

Lemma successors_sorted names edges r :
  r < length names → StronglySorted (λ x y, Nat.leb x y = true ∧ x ≠ y) (successors names edges !!! r).
Proof.
  intros Hr. destruct (successors_lookup names edges r Hr) as (l & -> & _).
  apply (dedup_sorted (λ x y, Nat.leb x y = true)).
  - intros x y ??. bool_to_prop. lia.
  - intros x. apply Nat.leb_refl.
  - apply sort_by_sorted.
    + intros x y. destruct (Nat.leb_spec x y); [by left|]. right. apply Nat.leb_le. lia.
    + intros x y z ??. bool_to_prop. apply Nat.leb_le. lia.
Qed.

Lemma successors_edges names edges1 edges2 :
  (∀ e, e ∈ edges1 ↔ e ∈ edges2) → successors names edges1 = successors names edges2.
Proof.
  intros Heq. apply (list_eq_same_length _ _ (length names)); rewrite ?length_successors; [done..|].
  intros i l1 l2 Hi H1 H2.
  apply list_lookup_total_correct in H1 as <-, H2 as <-.
  apply (StronglySorted_strict_unique (λ x y, Nat.leb x y = true ∧ x ≠ y)).
  - naive_solver.
  - intros x y [? ?] [? ?]. bool_to_prop. lia.
  - by apply successors_sorted.
  - by apply successors_sorted.
  - intros x. rewrite !elem_of_successors_rank by done. unfold graph_edge. by rewrite Heq.
Qed.

Lemma walk_start_edges names edges1 edges2 min_size max_length max_cycles budget start w found :
  successors names edges1 = successors names edges2 →
  walk_start names edges1 min_size max_length max_cycles budget start w found =
  walk_start names edges2 min_size max_length max_cycles budget start w found.
Proof.
  intros Heq. revert w found. induction budget as [|budget IH]; intros w found; simpl; [done|].
  rewrite Heq. repeat case_match; auto.
Qed.

(** ** Properties *)

(** Whatever the limits, the cycles kept are the first ones of the complete
    enumeration, at most [max_cycles] of them; a walk that is not truncated keeps
    the whole enumeration and counts every cycle it met. *)
Theorem bounded_simple_cycles_prefix names edges min_size max_length max_cycles max_steps :
  let r := bounded_simple_cycles names edges min_size max_length max_cycles max_steps in
  cycles r `prefix_of` all_cycles names edges min_size max_length ∧
  length (cycles r) <= max_cycles ∧
  (truncated r = false →
     cycles r = all_cycles names edges min_size max_length ∧
     examined r = length (all_met names edges max_length)).
Proof. split; [apply result_prefix|split; [apply result_length|apply result_complete]]. Qed.

(** Every cycle reported is a simple cycle of the given edges, with
    [min_size] to [max_length] nodes, listed once and starting at its smallest
    node by name. *)
Theorem bounded_simple_cycles_sound names edges min_size max_length max_cycles max_steps c :
  let r := bounded_simple_cycles names edges min_size max_length max_cycles max_steps in
  c ∈ cycles r →
  NoDup (cycles r) ∧
  simple_cycle (graph_edge names edges) c ∧ min_size <= length c <= max_length ∧
  ∀ h t n, c = h :: t → n ∈ t → String.leb (names !!! h) (names !!! n) = true.
Proof.
  intros r Hc. pose proof (result_prefix names edges min_size max_length max_cycles max_steps) as [k Hk].
  assert (Hin : c ∈ all_cycles names edges min_size max_length) by (rewrite Hk; set_solver).
  apply elem_of_all_cycles in Hin as (Hcyc & Hlen & Hfirst). split; [|split; [done|split; [done|]]].
  - pose proof (all_cycles_NoDup names edges min_size max_length) as Hnd.
    rewrite Hk in Hnd. by apply NoDup_app in Hnd as [? _].
  - intros h t n -> Hn.
    assert (Hlt : ∀ x, x ∈ h :: t → x < length names).
    { intros x Hx. by destruct (simple_cycle_step _ _ _ Hcyc Hx) as (y & _ & _ & ? & _). }
    specialize (Hfirst _ _ eq_refl). rewrite Forall_forall in Hfirst.
    apply rank_leb; [apply Hlt; set_solver..|]. by apply Nat.lt_le_incl, Hfirst.
Qed.

(** C35: a walk that is not truncated reports every simple cycle of [min_size] to
    [max_length] nodes, from exactly one of its nodes. *)
Theorem bounded_simple_cycles_complete names edges min_size max_length max_cycles max_steps c :
  let r := bounded_simple_cycles names edges min_size max_length max_cycles max_steps in
  truncated r = false →
  simple_cycle (graph_edge names edges) c → min_size <= length c <= max_length →
  ∃ c', rotation c c' ∧ c' ∈ cycles r ∧
        ∀ c'', rotation c c'' → c'' ∈ cycles r → c'' = c'.
Proof.
  intros r Ht Hcyc Hlen. destruct (result_complete _ _ _ _ _ _ Ht) as [Hall _].
  fold r in Hall. rewrite Hall.
  assert (Hlt : ∀ x, x ∈ c → x < length names).
  { intros x Hx. by destruct (simple_cycle_step _ _ _ Hcyc Hx) as (y & _ & _ & ? & _). }
  assert (Hmin : ∃ h, h ∈ c ∧ ∀ n, n ∈ c → rank names !!! h <= rank names !!! n).
  { destruct c as [|h t]; [done|]. clear. induction t as [|x t IH] using rev_ind.
    - exists h. split; [set_solver|]. intros n ->%list_elem_of_singleton. done.
    - destruct IH as (m & Hm & Hmin).
      destruct (decide (rank names !!! x < rank names !!! m)) as [Hxm|Hxm].
      + exists x. split; [set_solver|]. intros n Hn. rewrite app_comm_cons in Hn.
        apply elem_of_app in Hn as [Hn| ->%list_elem_of_singleton]; [|done].
        specialize (Hmin n Hn). lia.
      + exists m. rewrite app_comm_cons. split; [set_solver|]. intros n Hn.
        apply elem_of_app in Hn as [Hn| ->%list_elem_of_singleton]; [auto|lia]. }
  destruct Hmin as (h & Hh & Hmin). destruct (rotation_to c h Hh) as [t Ht'].
  pose proof (rotation_Permutation _ _ Ht') as Hperm.
  pose proof (simple_cycle_NoDup _ _ Hcyc) as Hnd.
  assert (Hfirst : Forall (λ n, rank names !!! h < rank names !!! n) t).
  { apply Forall_forall. intros n Hn. rewrite Hperm in Hnd. apply NoDup_cons in Hnd as [Hni _].
    assert (n ∈ c) as Hnc by (rewrite Hperm; set_solver). specialize (Hmin n Hnc).
    destruct (decide (rank names !!! h = rank names !!! n)) as [Heq|]; [|lia].
    exfalso. apply Hni. destruct (by_name_rank names h (Hlt h Hh)) as [_ <-].
    rewrite Heq. by destruct (by_name_rank names n (Hlt n Hnc)) as [_ ->]. }
  exists (h :: t). split; [done|split].
  - apply elem_of_all_cycles. split; [by eapply rotation_simple_cycle|].
    rewrite <-(Permutation_length Hperm). split; [done|]. by intros h' t' [= <- <-].
  - intros c'' Hr'' Hin''. apply elem_of_all_cycles in Hin'' as (_ & _ & Hf'').
    eapply rotation_head_unique; [exact Hnd|done|done|].
    destruct c'' as [|h'' t'']; [by apply rotation_Permutation in Hr''; rewrite Hperm in Hr'';
      apply Permutation_nil_r in Hr''|].
    specialize (Hf'' _ _ eq_refl). simpl. f_equal.
    apply rotation_Permutation in Hr''. rewrite Hperm in Hr''.
    assert (Hhin : h ∈ h'' :: t'') by (rewrite <-Hr''; set_solver).
    assert (Hh''in : h'' ∈ h :: t) by (rewrite Hr''; set_solver).
    rewrite Forall_forall in Hf'', Hfirst.
    apply elem_of_cons in Hhin as [->|Hhin]; [done|].
    apply elem_of_cons in Hh''in as [->|Hh''in]; [done|].
    specialize (Hf'' _ Hhin). specialize (Hfirst _ Hh''in). simpl in *. lia.
Qed.

(** With enough steps and room for more cycles than there are, the walk is
    not truncated. *)
Theorem bounded_simple_cycles_finishes names edges min_size max_length max_cycles :
  length (all_cycles names edges min_size max_length) < max_cycles →
  ∃ N, ∀ max_steps, N <= max_steps →
    truncated (bounded_simple_cycles names edges min_size max_length max_cycles max_steps) = false.
Proof.
  intros Hcap.
  assert (Habs : ∀ l found, length (cycles found) +
      length (filter (λ p, min_size <= length p) l) < max_cycles →
      (absorb names min_size max_cycles found l).2 = false).
  { induction l as [|p l IH]; intros found Hf; simpl; [done|].
    rewrite filter_cons in Hf.
    rewrite (proj2 (Nat.leb_gt _ _)) by (simpl; lia). apply IH.
    destruct (Nat.leb_spec min_size (length p)).
    - rewrite decide_True in Hf by done. simpl in *. rewrite length_app. simpl. lia.
    - rewrite decide_False in Hf by lia. done. }
  unfold all_cycles in Hcap. rewrite length_fmap in Hcap.
  specialize (Habs (all_met names edges max_length) (mkBoundedCycles [] 0 false) Hcap).
  destruct (absorb names min_size max_cycles (mkBoundedCycles [] 0 false)
              (all_met names edges max_length)) as [f b] eqn:E. simpl in Habs. subst b.
  destruct (walk_starts_steps names edges min_size max_length max_cycles (seq 0 (count names))
              (mkBoundedCycles [] 0 false) f) as [N HN].
  - apply Forall_forall. intros x Hx. apply elem_of_seq in Hx. unfold count in Hx. lia.
  - exact E.
  - exists N. intros max_steps Hs. unfold bounded_simple_cycles. rewrite (HN _ Hs).
    pose proof (absorb_truncated names min_size max_cycles
      (mkBoundedCycles [] 0 false) (all_met names edges max_length)) as Ht.
    by rewrite E in Ht.
Qed.

(** The answer depends only on the set of edges, not on their order or on
    repeated edges. *)
Theorem bounded_simple_cycles_edge_set names edges1 edges2 min_size max_length max_cycles max_steps :
  (∀ e, e ∈ edges1 ↔ e ∈ edges2) →
  bounded_simple_cycles names edges1 min_size max_length max_cycles max_steps =
  bounded_simple_cycles names edges2 min_size max_length max_cycles max_steps.
Proof.
  intros Heq. apply (successors_edges names) in Heq. unfold bounded_simple_cycles.
  generalize (mkBoundedCycles [] 0 false), max_steps.
  induction (seq 0 (count names)) as [|s starts IH]; intros found budget; simpl; [done|].
  rewrite (walk_start_edges names edges1 edges2) by done.
  destruct (walk_start _ _ _ _ _ _ _ _ _); auto.
Qed.

(** ** Witnesses

    The graph of the unit tests: c, a, b with a→b, b→c, c→a, b→a. *)

Definition ex_names : list string := ["c"; "a"; "b"].
Definition ex_edges : list (nat * nat) := [(1, 2); (2, 0); (0, 1); (2, 1)].

Lemma bounded_simple_cycles_sound_witness :
  let r := bounded_simple_cycles ex_names ex_edges 2 10 100 1000 in
  [1; 2; 0] ∈ cycles r ∧ simple_cycle (graph_edge ex_names ex_edges) [1; 2; 0].
Proof.
  assert (Hin : [1; 2; 0] ∈ cycles (bounded_simple_cycles ex_names ex_edges 2 10 100 1000)).
  { vm_compute. right. left. }
  split; [exact Hin|].
  exact (proj1 (proj2 (bounded_simple_cycles_sound ex_names ex_edges 2 10 100 1000 [1; 2; 0] Hin))).
Defined.

Lemma bounded_simple_cycles_complete_witness :
  ∃ c', rotation [2; 0; 1] c' ∧
        c' ∈ cycles (bounded_simple_cycles ex_names ex_edges 2 10 100 1000).
Proof.
  destruct (bounded_simple_cycles_complete ex_names ex_edges 2 10 100 1000 [2; 0; 1])
    as (c' & H1 & H2 & _).
  - vm_compute. reflexivity.
  - split; [repeat constructor; set_solver|].
    unfold graph_edge, ex_edges. simpl. repeat split; try lia; set_solver.
  - simpl. lia.
  - exists c'. split; [exact H1|exact H2].
Defined.

Lemma bounded_simple_cycles_finishes_witness :
  ∃ N, ∀ max_steps, N <= max_steps →
    truncated (bounded_simple_cycles ex_names ex_edges 2 10 3 max_steps) = false.
Proof.
  apply (bounded_simple_cycles_finishes ex_names ex_edges 2 10 3).
  vm_compute. lia.
Defined.

Lemma bounded_simple_cycles_edge_set_witness :
  bounded_simple_cycles ex_names (ex_edges ++ [(1, 2)]) 2 10 100 1000 =
  bounded_simple_cycles ex_names ex_edges 2 10 100 1000.
Proof.
  apply (bounded_simple_cycles_edge_set ex_names).
  intros e. unfold ex_edges. set_solver.
Defined.

End Cycles.
