(* ===== verification/Difflib.v ===== *)
(** * Unified diffs

    Models crates/dagayn-tools/src/difflib.rs: the port of CPython's
    [SequenceMatcher] and [unified_diff] over lines, and [str.splitlines].
    Lines are strings compared for equality; [usize] arithmetic that the code
    keeps non-negative (or writes as [saturating_sub]) is on [nat]. *)
From S2P Require Import Prelude.

Module Difflib.

(** The opcode tags, static strings in the code.

    Source: crates/dagayn-tools/src/difflib.rs 120-128 [opcodes]. *)
Inductive tag := Equal | Replace | Delete | Insert.

#[export] Instance tag_eq_dec : EqDecision tag.
Proof. solve_decision. Defined.

(** Source: crates/dagayn-tools/src/difflib.rs 7 [Opcode]. *)
Record Opcode := mkOpcode { op_tag : tag; i1 : nat; i2 : nat; j1 : nat; j2 : nat }.

(** [(i, j, size)] of a matching block. *)
Definition block : Type := nat * nat * nat.

(** A pending region [(alo, ahi, blo, bhi)]. *)
Definition region : Type := nat * nat * nat * nat.

Section matcher.
Context (a b : list string).

(** The positions of each line of [b], in order.

    Source: crates/dagayn-tools/src/difflib.rs 19-22 [Matcher::new]. *)
Definition positions : gmap string (list nat) :=
  foldl (λ m '(index, line), <[line := default [] (m !! line) ++ [index]]> m)
    ∅ (imap pair b).

(** Source: crates/dagayn-tools/src/difflib.rs 18-28 [Matcher::new]. *)
Definition b2j : gmap string (list nat) :=
  if 200 <=? length b then
    let ntest := length b / 100 + 1 in
    filter (λ '(_, indices), length indices <= ntest) positions
  else positions.

(** One row of the match: the loop over the positions of line [i] of [a].

    Source: crates/dagayn-tools/src/difflib.rs 43-62 [find_longest_match]. *)
Fixpoint scan_row (i blo bhi : nat) (indices : list nat) (j2len next : gmap nat nat)
    (best : block) : gmap nat nat * block :=
  match indices with
  | [] => (next, best)
  | j :: indices =>
      if j <? blo then scan_row i blo bhi indices j2len next best
      else if bhi <=? j then (next, best)
      else
        let k := default 0 (match j with 0 => None | S prev => j2len !! prev end) + 1 in
        let next := <[j := k]> next in
        let '(_, _, bestsize) := best in
        let best := if bestsize <? k then (i + 1 - k, j + 1 - k, k) else best in
        scan_row i blo bhi indices j2len next best
  end.

(** The rows from [i] on; [rows] of them are left.

    Source: crates/dagayn-tools/src/difflib.rs 38-65 [find_longest_match]. *)
Fixpoint scan_rows (rows i blo bhi : nat) (j2len : gmap nat nat) (best : block) : block :=
  match rows with
  | 0 => best
  | S rows =>
      let '(next, best) :=
        match b2j !! (a !!! i) with
        | Some indices => scan_row i blo bhi indices j2len ∅ best
        | None => (∅, best)
        end in
      scan_rows rows (S i) blo bhi next best
  end.

(** Source: crates/dagayn-tools/src/difflib.rs 66-70 [find_longest_match]. *)
Fixpoint extend_back (alo blo besti bestj bestsize : nat) : block :=
  match besti, bestj with
  | S i, S j =>
      if (alo <? besti) && (blo <? bestj) && bool_decide (a !!! i = b !!! j)
      then extend_back alo blo i j (S bestsize)
      else (besti, bestj, bestsize)
  | _, _ => (besti, bestj, bestsize)
  end.

(** The forward loop; [room] is [ahi - (besti + bestsize)], so the bound on [a]
    holds as long as it is positive.

    Source: crates/dagayn-tools/src/difflib.rs 71-76 [find_longest_match]. *)
Fixpoint extend_forward (room bhi besti bestj bestsize : nat) : block :=
  match room with
  | 0 => (besti, bestj, bestsize)
  | S room =>
      if (bestj + bestsize <? bhi)
         && bool_decide (a !!! (besti + bestsize) = b !!! (bestj + bestsize))
      then extend_forward room bhi besti bestj (S bestsize)
      else (besti, bestj, bestsize)
  end.

(** Source: crates/dagayn-tools/src/difflib.rs 31-78 [find_longest_match]. *)
Definition find_longest_match (alo ahi blo bhi : nat) : block :=
  let best := scan_rows (ahi - alo) alo blo bhi ∅ (alo, blo, 0) in
  let '(besti, bestj, bestsize) := best in
  let '(besti, bestj, bestsize) := extend_back alo blo besti bestj bestsize in
  extend_forward (ahi - (besti + bestsize)) bhi besti bestj bestsize.

(** The work list; its last element comes first.  Each pop uses one unit of
    [fuel], and [None] means it ran out.

    Source: crates/dagayn-tools/src/difflib.rs 82-95 [matching_blocks]. *)
Fixpoint match_regions (fuel : nat) (queue : list region) (blocks : list block)
    : option (list block) :=
  match queue with
  | [] => Some blocks
  | (alo, ahi, blo, bhi) :: queue =>
      match fuel with
      | 0 => None
      | S fuel =>
          let '(i, j, k) := find_longest_match alo ahi blo bhi in
          if 0 <? k then
            let queue := if (alo <? i) && (blo <? j) then (alo, i, blo, j) :: queue else queue in
            let queue := if (i + k <? ahi) && (j + k <? bhi)
                         then (i + k, ahi, j + k, bhi) :: queue else queue in
            match_regions fuel queue (blocks ++ [(i, j, k)])
          else match_regions fuel queue blocks
      end
  end.

(** Lexicographic order of tuples ([sort_unstable] on them). *)
Definition block_leb (x y : block) : bool :=
  let '(i, j, k) := x in
  let '(i', j', k') := y in
  (i <? i') || ((i =? i') && ((j <? j') || ((j =? j') && (k <=? k')))).

(** Source: crates/dagayn-tools/src/difflib.rs 99-108 [matching_blocks]. *)
Definition merge_step (st : block * list block) (next : block) : block * list block :=
  let '((i1, j1, k1), merged) := st in
  let '(i2, j2, k2) := next in
  if (i1 + k1 =? i2) && (j1 + k1 =? j2) then ((i1, j1, k1 + k2), merged)
  else ((i2, j2, k2), if 0 <? k1 then merged ++ [(i1, j1, k1)] else merged).

(** Source: crates/dagayn-tools/src/difflib.rs 97-113 [matching_blocks]. *)
Definition merge_blocks (blocks : list block) : list block :=
  let '((i1, j1, k1), merged) := foldl merge_step ((0, 0, 0), []) blocks in
  (if 0 <? k1 then merged ++ [(i1, j1, k1)] else merged) ++ [(length a, length b, 0)].

(** Source: crates/dagayn-tools/src/difflib.rs 80-114 [matching_blocks]. *)
Definition matching_blocks : option (list block) :=
  blocks ← match_regions (2 * length a + 1) [(0, length a, 0, length b)] [];
  Some (merge_blocks (sort_by block_leb blocks)).

(** Source: crates/dagayn-tools/src/difflib.rs 119-137 [opcodes]. *)
Fixpoint opcodes_from (i j : nat) (blocks : list block) : list Opcode :=
  match blocks with
  | [] => []
  | (ai, bj, size) :: blocks =>
      (if (i <? ai) && (j <? bj) then [mkOpcode Replace i ai j bj]
       else if i <? ai then [mkOpcode Delete i ai j bj]
       else if j <? bj then [mkOpcode Insert i ai j bj]
       else []) ++
      (if 0 <? size then [mkOpcode Equal ai (ai + size) bj (bj + size)] else []) ++
      opcodes_from (ai + size) (bj + size) blocks
  end.

(** Source: crates/dagayn-tools/src/difflib.rs 116-139 [opcodes]. *)
Definition opcodes : option (list Opcode) := opcodes_from 0 0 <$> matching_blocks.

(** [*first = ...] on the first code, when it is equal.

    Source: crates/dagayn-tools/src/difflib.rs 146-157 [grouped_opcodes]. *)
Definition trim_first (n : nat) (codes : list Opcode) : list Opcode :=
  match codes with
  | c :: codes =>
      match op_tag c with
      | Equal => mkOpcode Equal (max (i1 c) (i2 c - n)) (i2 c) (max (j1 c) (j2 c - n)) (j2 c)
                 :: codes
      | _ => c :: codes
      end
  | [] => []
  end.

(** [*last = ...] on the last code, when it is equal.

    Source: crates/dagayn-tools/src/difflib.rs 158-163 [grouped_opcodes]. *)
Fixpoint trim_last (n : nat) (codes : list Opcode) : list Opcode :=
  match codes with
  | [] => []
  | [c] =>
      match op_tag c with
      | Equal => [mkOpcode Equal (i1 c) (min (i2 c) (i1 c + n)) (j1 c) (min (j2 c) (j1 c + n))]
      | _ => [c]
      end
  | c :: codes => c :: trim_last n codes
  end.

(** One code of the grouping loop: [(groups, group)].

    Source: crates/dagayn-tools/src/difflib.rs 166-174 [grouped_opcodes]. *)
Definition group_step (n : nat) (st : list (list Opcode) * list Opcode) (c : Opcode)
    : list (list Opcode) * list Opcode :=
  let '(groups, group) := st in
  if bool_decide (op_tag c = Equal) && (2 * n <? i2 c - i1 c) then
    (groups ++ [group ++ [mkOpcode (op_tag c) (i1 c) (min (i2 c) (i1 c + n))
                                   (j1 c) (min (j2 c) (j1 c + n))]],
     [mkOpcode (op_tag c) (max (i1 c) (i2 c - n)) (i2 c) (max (j1 c) (j2 c - n)) (j2 c)])
  else (groups, group ++ [c]).

(** Source: crates/dagayn-tools/src/difflib.rs 175 [only_context]. *)
Definition only_context (group : list Opcode) : bool :=
  match group with
  | [c] => bool_decide (op_tag c = Equal)
  | _ => false
  end.

(** Source: crates/dagayn-tools/src/difflib.rs 164-180 [grouped_opcodes]. *)
Definition group_codes (n : nat) (codes : list Opcode) : list (list Opcode) :=
  let '(groups, group) := foldl (group_step n) ([], []) codes in
  if negb (bool_decide (group = [])) && negb (only_context group)
  then groups ++ [group] else groups.

(** Source: crates/dagayn-tools/src/difflib.rs 141-180 [grouped_opcodes]. *)
Definition grouped_opcodes (n : nat) : option (list (list Opcode)) :=
  codes ← opcodes;
  let codes := match codes with [] => [mkOpcode Equal 0 1 0 1] | _ => codes end in
  Some (group_codes n (trim_last n (trim_first n codes))).

(** [&lines[from..to]]. *)
Definition slice (l : list string) (from to : nat) : list string := take (to - from) (drop from l).

(** Each line with its marker in front. *)
Definition marked (mark : string) (l : list string) : string :=
  String.concat "" ((λ line, mark +:+ line) <$> l).

(** Source: crates/dagayn-tools/src/difflib.rs 213-233 [unified_diff]. *)
Definition print_opcode (c : Opcode) : string :=
  match op_tag c with
  | Equal => marked " " (slice a (i1 c) (i2 c))
  | Replace => marked "-" (slice a (i1 c) (i2 c)) +:+ marked "+" (slice b (j1 c) (j2 c))
  | Delete => marked "-" (slice a (i1 c) (i2 c))
  | Insert => marked "+" (slice b (j1 c) (j2 c))
  end.

End matcher.

(** Source: crates/dagayn-tools/src/difflib.rs 184-191 [range]. *)
Definition range (start stop : nat) : string :=
  match stop - start with
  | 1 => decimal (start + 1)
  | 0 => decimal start +:+ ",0"
  | length => decimal (start + 1) +:+ "," +:+ decimal length
  end.

(** The newline character. *)
Definition nl : string := String (Ascii.ascii_of_nat 10) "".

(** Source: crates/dagayn-tools/src/difflib.rs 207-233 [unified_diff]. *)
Definition print_group (a b : list string) (group : list Opcode) : string :=
  match group, last group with
  | first :: _, Some final =>
      "@@ -" +:+ range (i1 first) (i2 final) +:+ " +" +:+ range (j1 first) (j2 final)
        +:+ " @@" +:+ nl +:+ String.concat "" (print_opcode a b <$> group)
  | _, _ => ""
  end.

(** Source: crates/dagayn-tools/src/difflib.rs 195-236 [unified_diff]. *)
Definition unified_diff (a b : list string) (fromfile tofile : string) (n : nat)
    : option string :=
  groups ← grouped_opcodes a b n;
  Some (match groups with
        | [] => ""
        | _ => "--- " +:+ fromfile +:+ nl +:+ "+++ " +:+ tofile +:+ nl
                 +:+ String.concat "" (print_group a b <$> groups)
        end).

(** The line boundaries of Python's [str.splitlines] but carriage return.

    Source: crates/dagayn-tools/src/difflib.rs 253-254 [splitlines]. *)
Definition is_boundary (c : N) : bool :=
  (c =? 10)%N || (c =? 11)%N || (c =? 12)%N || (c =? 28)%N || (c =? 29)%N || (c =? 30)%N
  || (c =? 133)%N || (c =? 8232)%N || (c =? 8233)%N.

(** [current] is the line being read, without the character just taken.

    Source: crates/dagayn-tools/src/difflib.rs 241-265 [splitlines]. *)
Fixpoint splitlines_from (current : list N) (rest : list N) : list (list N) :=
  match rest with
  | [] => match current with [] => [] | _ => [current] end
  | c :: rest =>
      let current := current ++ [c] in
      if (c =? 13)%N then
        match rest with
        | 10%N :: rest => (current ++ [10%N]) :: splitlines_from [] rest
        | _ => current :: splitlines_from [] rest
        end
      else if is_boundary c then current :: splitlines_from [] rest
      else splitlines_from current rest
  end.

(** Source: crates/dagayn-tools/src/difflib.rs 239-265 [splitlines]. *)
Definition splitlines (t : list N) : list (list N) := splitlines_from [] t.

(** ** Specification *)

Section spec.
Context (a b : list string).

(** [size] lines of [a] from [i] equal those of [b] from [j]. *)
Definition lines_match (i j size : nat) : Prop :=
  ∀ t, t < size → a !!! (i + t) = b !!! (j + t).

(** A match inside a region. *)
Definition match_in (alo ahi blo bhi : nat) (m : block) : Prop :=
  let '(i, j, k) := m in
  alo <= i ∧ i + k <= ahi ∧ blo <= j ∧ j + k <= bhi ∧ lines_match i j k.

(** [k] lines ending with line [i] of [a] and line [j] of [b] match, without
    leaving the region's start. *)
Definition run (alo blo i j k : nat) : Prop :=
  k <= S i - alo ∧ k <= S j - blo ∧ ∀ t, t < k → a !!! (i - t) = b !!! (j - t).

End spec.

(** ** The longest match *)

Section longest.
Context (a b : list string).

#[local] Abbreviation b2j := (b2j b).
#[local] Abbreviation run := (run a b).

Lemma positions_spec (l : list string) k (m : gmap string (list nat)) line :
  let m' := foldl (λ m '(index, line), <[line := default [] (m !! line) ++ [index]]> m)
              m (imap (λ i x, (k + i, x)) l) in
  default [] (m' !! line) =
  default [] (m !! line) ++ filter (λ i, l !! (i - k) = Some line) (seq k (length l)).
Proof.
  revert k m. induction l as [|x l IH]; intros k m; simpl.
  { by rewrite app_nil_r. }
  assert (Heq : imap ((λ i x0, (k + i, x0)) ∘ S) l = imap (λ i x0, (S k + i, x0)) l).
  { apply imap_ext. intros i y _. simpl. by rewrite Nat.add_succ_r. }
  rewrite Heq, (IH (S k)). rewrite filter_cons, Nat.sub_diag. simpl.
  assert (Hf : filter (λ i, (x :: l) !! (i - k) = Some line) (seq (S k) (length l)) =
               filter (λ i, l !! (i - S k) = Some line) (seq (S k) (length l))).
  { apply list_filter_ext_in. intros i Hi. apply elem_of_seq in Hi.
    by replace (i - k) with (S (i - S k)) by lia. }
  rewrite Hf. destruct (decide (x = line)) as [->|Hne].
  - rewrite lookup_insert_eq, decide_True by done. simpl.
    rewrite <-app_assoc. simpl. by rewrite Nat.add_0_r.
  - rewrite lookup_insert_ne, decide_False by congruence. done.
Qed.

Lemma b2j_lookup line indices :
  b2j !! line = Some indices →
  indices = filter (λ i, b !! i = Some line) (seq 0 (length b)).
Proof.
  intros H. assert (Hp : positions b !! line = Some indices).
  { unfold Difflib.b2j in H. destruct (200 <=? length b); [|done].
    by apply map_lookup_filter_Some in H as [? _]. }
  assert (Hs : default [] (positions b !! line) =
               default [] ((∅ : gmap string (list nat)) !! line) ++
               filter (λ i, b !! (i - 0) = Some line) (seq 0 (length b)))
    by exact (positions_spec b 0 ∅ line).
  rewrite Hp, lookup_empty in Hs. simpl in Hs. rewrite Hs.
  apply list_filter_iff. intros i. by rewrite Nat.sub_0_r.
Qed.

(** What one row does: every position of the line inside the region gets its run
    length, and the best match is the longest seen. *)
Lemma scan_row_spec i blo bhi indices j2len next best next' best' :
  StronglySorted lt indices →
  scan_row i blo bhi indices j2len next best = (next', best') →
  let len j := default 0 (match j with 0 => None | S prev => j2len !! prev end) + 1 in
  let hit j := j ∈ indices ∧ blo <= j < bhi in
  (∀ j, hit j → next' !! j = Some (len j)) ∧
  (∀ j, ¬ hit j → next' !! j = next !! j) ∧
  (best' = best ∨ ∃ j, hit j ∧ best' = (i + 1 - len j, j + 1 - len j, len j)) ∧
  snd best <= snd best' ∧ (∀ j, hit j → len j <= snd best').
Proof.
  intros Hs. revert next best. induction Hs as [|j indices Hs IH Hj]; intros next best Hrow len hit.
  { injection Hrow as <- <-. unfold hit. repeat split; try (by left); try lia;
      intros ? [Hin ?]; by apply not_elem_of_nil in Hin. }
  simpl in Hrow. unfold hit in *. clear hit.
  destruct (Nat.ltb_spec j blo) as [Hlo|Hlo].
  { destruct (IH next best Hrow) as (H1 & H2 & H3 & H4 & H5). fold len in H1, H3, H5.
    assert (Hiff : ∀ x, (x ∈ j :: indices ∧ blo <= x < bhi) ↔ (x ∈ indices ∧ blo <= x < bhi)).
    { intros x. rewrite elem_of_cons. split; [|naive_solver]. intros [[->|?] ?]; [lia|done]. }
    repeat split; [| | |done|].
    - intros x Hx. by apply H1, Hiff.
    - intros x Hx. apply H2. by rewrite <-Hiff.
    - destruct H3 as [?|(x & Hx & ?)]; [by left|]. right. exists x. by rewrite Hiff.
    - intros x Hx. by apply H5, Hiff. }
  destruct (Nat.leb_spec bhi j) as [Hhi|Hhi].
  { injection Hrow as <- <-. rewrite Forall_forall in Hj.
    assert (Hno : ∀ x, ¬ (x ∈ j :: indices ∧ blo <= x < bhi)).
    { intros x [Hx ?]. apply elem_of_cons in Hx as [->|Hx]; [lia|]. specialize (Hj x Hx). lia. }
    repeat split; [|by left|done|]; intros x Hx; exfalso; by apply (Hno x). }
  fold (len j) in Hrow. destruct best as [[bi bj] bs].
  destruct (IH _ _ Hrow) as (H1 & H2 & H3 & H4 & H5). fold len in H1, H3, H5.
  assert (Hjni : j ∉ indices).
  { rewrite Forall_forall in Hj. intros Hin. specialize (Hj j Hin). lia. }
  assert (Hbest : bs <= snd best' ∧ len j <= snd best').
  { destruct (Nat.ltb_spec bs (len j)); simpl in H4; lia. }
  repeat split.
  - intros x [Hx Hr]. apply elem_of_cons in Hx as [->|Hx]; [|by apply H1].
    rewrite H2 by tauto. by rewrite lookup_insert_eq.
  - intros x Hx. rewrite H2 by set_solver. apply lookup_insert_ne. intros ->. apply Hx. set_solver.
  - destruct H3 as [->|(x & [Hx ?] & ->)]; [|right; exists x; set_solver].
    case_if; [|by left]. right. exists j. set_solver.
  - apply Hbest.
  - intros x [Hx Hr]. apply elem_of_cons in Hx as [->|Hx]; [apply Hbest|by apply H5].
Qed.

Section region.
Context (alo blo bhi : nat) (Hbhi : bhi <= length b).

Lemma run_succ i j k :
  alo <= i → blo <= j → a !!! i = b !!! j →
  k = 0 ∨ (0 < i ∧ 0 < j ∧ run alo blo (i - 1) (j - 1) k) → run alo blo i j (S k).
Proof.
  intros Hi Hj Hab Hk. destruct Hk as [->|(Hi' & Hj' & H1 & H2 & H3)].
  - split; [lia|split; [lia|]]. intros t Ht. replace t with 0 by lia. by rewrite !Nat.sub_0_r.
  - split; [lia|split; [lia|]]. intros [|t] Ht; [by rewrite !Nat.sub_0_r|].
    replace (i - S t) with (i - 1 - t) by lia. replace (j - S t) with (j - 1 - t) by lia.
    apply H3. lia.
Qed.

Lemma run_pred i j k :
  run alo blo i j (S k) →
  alo <= i ∧ blo <= j ∧ a !!! i = b !!! j ∧
  (k = 0 ∨ (alo < i ∧ blo < j ∧ run alo blo (i - 1) (j - 1) k)).
Proof.
  intros (H1 & H2 & H3). split; [lia|split; [lia|split]].
  - specialize (H3 0 ltac:(lia)). by rewrite !Nat.sub_0_r in H3.
  - destruct k as [|k]; [by left|right]. split; [lia|split; [lia|]].
    split; [lia|split; [lia|]]. intros t Ht. specialize (H3 (S t) ltac:(lia)).
    replace (i - 1 - t) with (i - S t) by lia. replace (j - 1 - t) with (j - S t) by lia. done.
Qed.

Lemma run_match_in i j k :
  0 < k → j < bhi → run alo blo i j k →
  match_in a b alo (S i) blo bhi (i + 1 - k, j + 1 - k, k).
Proof.
  intros Hk Hj (H1 & H2 & H3). repeat split; try lia. intros t Ht.
  specialize (H3 (k - 1 - t) ltac:(lia)).
  replace (i + 1 - k + t) with (i - (k - 1 - t)) by lia.
  replace (j + 1 - k + t) with (j - (k - 1 - t)) by lia. done.
Qed.

Lemma match_in_run i j k ahi :
  0 < k → match_in a b alo ahi blo bhi (i, j, k) → run alo blo (i + k - 1) (j + k - 1) k.
Proof.
  intros Hk (H1 & H2 & H3 & H4 & H5). split; [lia|split; [lia|]]. intros t Ht.
  specialize (H5 (k - 1 - t) ltac:(lia)).
  replace (i + k - 1 - t) with (i + (k - 1 - t)) by lia.
  replace (j + k - 1 - t) with (j + (k - 1 - t)) by lia. done.
Qed.

(** The rows before [i] are scanned: the runs recorded are runs, and [best] is a
    match among those rows. *)
Definition rows_sound (i : nat) (j2len : gmap nat nat) (best : block) : Prop :=
  (∀ j k, j2len !! j = Some k → 0 < k ∧ blo <= j < bhi ∧ alo < i ∧ run alo blo (i - 1) j k) ∧
  match_in a b alo i blo bhi best.

(** ... and no run is missed. *)
Definition rows_full (i : nat) (j2len : gmap nat nat) (best : block) : Prop :=
  (∀ j k, blo <= j < bhi → 0 < k → alo < i → run alo blo (i - 1) j k →
     ∃ k', j2len !! j = Some k' ∧ k <= k') ∧
  (∀ i' j k, alo <= i' < i → blo <= j < bhi → run alo blo i' j k → k <= snd best).

Lemma indices_spec line indices j :
  b2j !! line = Some indices → j ∈ indices ↔ b !! j = Some line.
Proof.
  intros ->%b2j_lookup. rewrite list_elem_of_filter, elem_of_seq. split; [tauto|].
  intros Hj. split; [done|]. apply lookup_lt_Some in Hj. lia.
Qed.

Lemma indices_sorted line indices : b2j !! line = Some indices → StronglySorted lt indices.
Proof. intros ->%b2j_lookup. apply filter_sorted, seq_sorted. Qed.

Lemma lookup_b_total j line : j < bhi → b !! j = Some line ↔ b !!! j = line.
Proof.
  intros Hj. split; [apply list_lookup_total_correct|]. intros <-.
  apply list_lookup_lookup_total_lt. lia.
Qed.

Definition row_len (j2len : gmap nat nat) (j : nat) : nat :=
  default 0 (match j with 0 => None | S prev => j2len !! prev end) + 1.

Lemma row_len_run i j2len best j :
  alo <= i → rows_sound i j2len best → blo <= j < bhi → a !!! i = b !!! j →
  run alo blo i j (row_len j2len j).
Proof.
  intros Hi [HJ _] Hj Hab. unfold row_len. rewrite Nat.add_comm. apply run_succ; [done|lia|done|].
  destruct j as [|j]; simpl; [by left|]. destruct (j2len !! j) as [k|] eqn:Hk; simpl; [|by left].
  right. destruct (HJ _ _ Hk) as (_ & _ & ? & ?). rewrite Nat.sub_0_r. split; [lia|split; [lia|done]].
Qed.

Lemma row_len_max i j2len best j k :
  rows_full i j2len best → blo <= j < bhi → run alo blo i j k → k <= row_len j2len j.
Proof.
  intros [HJ _] Hj Hrun. destruct k as [|k]; [lia|].
  apply run_pred in Hrun as (Hi & _ & _ & [->|(Hi' & Hj' & Hrun)]); unfold row_len; [lia|].
  destruct k as [|k]; [lia|].
  destruct (HJ (j - 1) (S k)) as (k' & Hk' & ?); [lia|lia|done|done|].
  destruct j as [|j]; [lia|]. simpl in Hk'. rewrite Nat.sub_0_r in Hk'. rewrite Hk'. simpl. lia.
Qed.

Lemma match_in_le i i' m : i <= i' → match_in a b alo i blo bhi m → match_in a b alo i' blo bhi m.
Proof. destruct m as [[x y] k]. unfold match_in. intros ? (? & ? & ? & ? & ?). repeat split; auto; lia. Qed.

(** Below 200 lines no line is dropped as popular. *)
Lemma absent_line i j :
  length b < 200 → b2j !! (a !!! i) = None → blo <= j < bhi → a !!! i = b !!! j → False.
Proof.
  intros Hb Hnone Hj Hab. unfold Difflib.b2j in Hnone.
  rewrite (proj2 (Nat.leb_gt _ _) Hb) in Hnone.
  assert (Hs : default [] (positions b !! (a !!! i)) =
               default [] ((∅ : gmap string (list nat)) !! (a !!! i)) ++
               filter (λ k, b !! (k - 0) = Some (a !!! i)) (seq 0 (length b)))
    by exact (positions_spec b 0 ∅ (a !!! i)).
  rewrite Hnone, lookup_empty in Hs. simpl in Hs. symmetry in Hs.
  apply (filter_nil_not_elem_of _ _ j Hs); [|apply elem_of_seq; lia].
  rewrite Nat.sub_0_r, lookup_b_total by lia. done.
Qed.

(** One row keeps both invariants. *)
Lemma row_step i j2len best next best' :
  alo <= i → rows_sound i j2len best →
  match b2j !! (a !!! i) with
  | Some indices => scan_row i blo bhi indices j2len ∅ best
  | None => (∅, best)
  end = (next, best') →
  rows_sound (S i) next best' ∧
  (length b < 200 → rows_full i j2len best → rows_full (S i) next best').
Proof.
  intros Hi Hsound Hrow. destruct (b2j !! (a !!! i)) as [indices|] eqn:Hidx.
  - apply scan_row_spec in Hrow as (H1 & H2 & H3 & H4 & H5); [|by eapply indices_sorted].
    assert (Hhit : ∀ j, j ∈ indices ∧ blo <= j < bhi ↔ a !!! i = b !!! j ∧ blo <= j < bhi).
    { intros j. rewrite (indices_spec _ _ _ Hidx). split; intros [Hj ?];
        (split; [|done]); rewrite lookup_b_total in * by lia; done. }
    setoid_rewrite Hhit in H1. setoid_rewrite Hhit in H2. setoid_rewrite Hhit in H3.
    setoid_rewrite Hhit in H5.
    assert (Hnext : ∀ j k, next !! j = Some k →
              a !!! i = b !!! j ∧ blo <= j < bhi ∧ k = row_len j2len j).
    { intros j k Hj. destruct (decide (a !!! i = b !!! j ∧ blo <= j < bhi)) as [Hh|Hh].
      - rewrite (H1 j Hh) in Hj. injection Hj as <-. destruct Hh. done.
      - rewrite (H2 j Hh), lookup_empty in Hj. done. }
    split; [split|intros Hb Hfull; split].
    + intros j k Hj. apply Hnext in Hj as (Hab & Hj & ->).
      split; [unfold row_len; lia|]. split; [done|split; [lia|]].
      simpl. rewrite Nat.sub_0_r. by eapply row_len_run.
    + destruct H3 as [->|(j & [Hab Hj] & ->)].
      * eapply match_in_le; [|apply Hsound]. lia.
      * change (default 0 _ + 1) with (row_len j2len j).
        apply run_match_in; [unfold row_len; lia|lia|by eapply row_len_run].
    + intros j k Hj Hk _ Hrun. simpl in Hrun. rewrite Nat.sub_0_r in Hrun.
      exists (row_len j2len j). split; [|by eapply row_len_max].
      apply H1. destruct k; [lia|]. by apply run_pred in Hrun as (_ & _ & ? & _).
    + intros i' j k Hi' Hj Hrun. destruct (decide (i' = i)) as [->|].
      * destruct k as [|k]; [lia|]. etrans; [by eapply row_len_max|].
        apply (H5 j). by apply run_pred in Hrun as (_ & _ & ? & _).
      * etrans; [|exact H4]. apply (proj2 Hfull i' j); [lia|done|done].
  - injection Hrow as <- <-. split; [split|intros Hb Hfull; split].
    + intros j k Hj. by rewrite lookup_empty in Hj.
    + eapply match_in_le; [|apply Hsound]. lia.
    + intros j [|k] Hj Hk _ Hrun; [lia|]. exfalso. simpl in Hrun. rewrite Nat.sub_0_r in Hrun.
      apply run_pred in Hrun as (_ & _ & Hab & _). by eapply absent_line.
    + intros i' j [|k] Hi' Hj Hrun; [lia|]. destruct (decide (i' = i)) as [->|].
      * exfalso. apply run_pred in Hrun as (_ & _ & Hab & _). by eapply absent_line.
      * apply (proj2 Hfull i' j); [lia|done|done].
Qed.

Lemma scan_rows_spec rows i j2len best :
  alo <= i → rows_sound i j2len best →
  let best' := scan_rows a b rows i blo bhi j2len best in
  match_in a b alo (i + rows) blo bhi best' ∧
  (length b < 200 → rows_full i j2len best →
     ∀ i' j k, alo <= i' < i + rows → blo <= j < bhi → run alo blo i' j k → k <= snd best').
Proof.
  revert i j2len best. induction rows as [|rows IH]; intros i j2len best Hi Hs; simpl.
  { rewrite Nat.add_0_r. split; [apply Hs|]. intros _ [_ Hf]. exact Hf. }
  destruct (match b2j !! (a !!! i) with
            | Some indices => scan_row i blo bhi indices j2len ∅ best
            | None => (∅, best) end) as [next best'] eqn:Hrow.
  destruct (row_step i j2len best next best' Hi Hs Hrow) as [Hs' Hf'].
  destruct (IH (S i) next best' ltac:(lia) Hs') as [H1 H2].
  rewrite <-Nat.add_succ_comm. split; [done|]. intros Hb Hf. by apply H2, Hf'.
Qed.

Lemma extend_back_spec ahi i j k :
  match_in a b alo ahi blo bhi (i, j, k) →
  match_in a b alo ahi blo bhi (extend_back a b alo blo i j k) ∧
  k <= snd (extend_back a b alo blo i j k).
Proof.
  revert j k. induction i as [|i IH]; intros j k Hm; [done|]. simpl.
  destruct j as [|j]; [done|].
  destruct ((alo <? S i) && (blo <? S j) && bool_decide (a !!! i = b !!! j)) eqn:E; [|done].
  bool_to_prop. destruct (IH j (S k)) as [Hm1 Hm2].
  - destruct Hm as (? & ? & ? & ? & Hm). repeat split; try lia.
    intros [|t] Ht; [by rewrite !Nat.add_0_r|]. specialize (Hm t ltac:(lia)).
    by rewrite !Nat.add_succ_r.
  - split; [done|lia].
Qed.

Lemma extend_forward_spec room ahi i j k :
  i + k + room <= ahi →
  match_in a b alo ahi blo bhi (i, j, k) →
  match_in a b alo ahi blo bhi (extend_forward a b room bhi i j k) ∧
  k <= snd (extend_forward a b room bhi i j k).
Proof.
  revert k. induction room as [|room IH]; intros k Hr Hm; [done|]. simpl.
  destruct ((j + k <? bhi) && bool_decide (a !!! (i + k) = b !!! (j + k))) eqn:E; [|done].
  bool_to_prop. destruct (IH (S k)) as [Hm1 Hm2]; [lia| |split; [done|lia]].
  destruct Hm as (? & ? & ? & ? & Hm). repeat split; try lia.
  intros t Ht. destruct (decide (t = k)) as [->|]; [done|]. apply Hm. lia.
Qed.

Lemma find_longest_match_spec ahi :
  alo <= ahi → blo <= bhi →
  let m := find_longest_match a b alo ahi blo bhi in
  match_in a b alo ahi blo bhi m ∧
  (length b < 200 → ∀ m', match_in a b alo ahi blo bhi m' → snd m' <= snd m).
Proof.
  intros Ha Hb m. unfold find_longest_match in m.
  destruct (scan_rows_spec (ahi - alo) alo ∅ (alo, blo, 0)) as [H1 H2]; [done| |].
  { split; [intros j k Hj; by rewrite lookup_empty in Hj|].
    repeat split; try lia. intros t Ht. lia. }
  replace (alo + (ahi - alo)) with ahi in H1, H2 by lia.
  destruct (scan_rows a b (ahi - alo) alo blo bhi ∅ (alo, blo, 0)) as [[i j] k] eqn:E1.
  destruct (extend_back_spec ahi i j k H1) as [H3 H4].
  destruct (extend_back a b alo blo i j k) as [[i' j'] k'] eqn:E2.
  destruct (extend_forward_spec (ahi - (i' + k')) ahi i' j' k') as [H5 H6];
    [destruct H3 as (? & ? & _); lia|done|].
  split; [exact H5|]. intros Hlen [[x y] z] Hm. simpl.
  destruct z as [|z]; [lia|].
  assert (Hz : S z <= k).
  { apply (H2 Hlen) with (i' := x + S z - 1) (j := y + S z - 1).
    - split; [|intros u v ? ?; lia]. intros u v ? ? ?; lia.
    - destruct Hm as (? & ? & ? & ? & _). lia.
    - destruct Hm as (? & ? & ? & ? & _). lia.
    - eapply match_in_run; [lia|exact Hm]. }
  simpl in *. unfold m. lia.
Qed.

End region.
End longest.

(** ** Regions and blocks *)

Section regions.
Context (a b : list string).

Definition box (m : block) : region := let '(i, j, k) := m in (i, i + k, j, j + k).

Definition before (x y : region) : Prop :=
  let '(_, ahi, _, bhi) := x in
  let '(alo, _, blo, _) := y in ahi <= alo ∧ bhi <= blo.

Definition apart (x y : region) : Prop := before x y ∨ before y x.

Definition within (x y : region) : Prop :=
  let '(alo, ahi, blo, bhi) := x in
  let '(alo', ahi', blo', bhi') := y in
  alo' <= alo ∧ alo <= ahi ∧ ahi <= ahi' ∧ blo' <= blo ∧ blo <= bhi ∧ bhi <= bhi'.

Fixpoint all_apart (l : list region) : Prop :=
  match l with
  | [] => True
  | x :: l => Forall (apart x) l ∧ all_apart l
  end.

Definition whole : region := (0, length a, 0, length b).

Definition block_ok (m : block) : Prop :=
  let '(i, j, k) := m in 0 < k ∧ lines_match a b i j k.

Definition regions_ok (queue : list region) (blocks : list block) : Prop :=
  all_apart (queue ++ (box <$> blocks)) ∧
  Forall (λ x, within x whole) (queue ++ (box <$> blocks)) ∧
  Forall block_ok blocks.

Definition weight (x : region) : nat := let '(alo, ahi, _, _) := x in 2 * (ahi - alo) + 1.

Lemma apart_sym x y : apart x y → apart y x.
Proof. unfold apart. tauto. Qed.

Lemma before_within x y x' : before x y → within x' x → before x' y.
Proof.
  destruct x as [[[? ?] ?] ?], y as [[[? ?] ?] ?], x' as [[[? ?] ?] ?]. simpl. lia.
Qed.

Lemma before_within_r x y y' : before x y → within y' y → before x y'.
Proof.
  destruct x as [[[? ?] ?] ?], y as [[[? ?] ?] ?], y' as [[[? ?] ?] ?]. simpl. lia.
Qed.

Lemma apart_within x y x' : apart x y → within x' x → apart x' y.
Proof.
  intros [H|H] Hw; [left; by eapply before_within|right; by eapply before_within_r].
Qed.

Lemma within_trans x y z : within x y → within y z → within x z.
Proof.
  destruct x as [[[? ?] ?] ?], y as [[[? ?] ?] ?], z as [[[? ?] ?] ?]. simpl. lia.
Qed.

Lemma all_apart_app l1 l2 :
  all_apart (l1 ++ l2) ↔
  all_apart l1 ∧ all_apart l2 ∧ (∀ x y, x ∈ l1 → y ∈ l2 → apart x y).
Proof.
  induction l1 as [|x l1 IH]; simpl.
  { split; [|tauto]. intros ?. split; [done|split; [done|]]. by intros ? ? ?%not_elem_of_nil. }
  rewrite IH, Forall_app, !Forall_forall. split.
  - intros [[H1 H2] (H3 & H4 & H5)]. split; [done|split; [done|]].
    intros u v Hu Hv. apply elem_of_cons in Hu as [->|Hu]; auto.
  - intros [[H1 H2] [H3 H4]]. repeat split; auto; intros; apply H4; set_solver.
Qed.

Lemma all_apart_Permutation l1 l2 : l1 ≡ₚ l2 → all_apart l1 → all_apart l2.
Proof.
  induction 1 as [|x l1 l2 Hp IH|x y l|l1 l2 l3 H1 IH1 H2 IH2]; simpl; auto.
  - intros [Hx ?]. split; [by rewrite <-Hp|auto].
  - rewrite !Forall_cons. intros [[? ?] [? ?]]. auto using apart_sym.
Qed.

(** Replacing a region by regions inside it, apart from each other. *)
Lemma all_apart_refine x l1 l2 :
  all_apart (x :: l2) → all_apart l1 → Forall (λ y, within y x) l1 → all_apart (l1 ++ l2).
Proof.
  intros [Hx Hl2] Hl1 Hw. apply all_apart_app. split; [done|split; [done|]].
  intros u v Hu Hv. rewrite Forall_forall in Hx, Hw.
  eapply apart_within; [by apply Hx|by apply Hw].
Qed.

(** The work list empties within the fuel of [matching_blocks], and the blocks
    found are matches, apart from each other. *)
Lemma match_regions_spec fuel queue blocks :
  sum_list_with weight queue <= fuel → regions_ok queue blocks →
  ∃ out, match_regions a b fuel queue blocks = Some out ∧ regions_ok [] out.
Proof.
  revert queue blocks. induction fuel as [|fuel IH]; intros queue blocks Hw Hok.
  { destruct queue as [|[[[alo ahi] blo] bhi] queue]; simpl in *; [by eexists|lia]. }
  destruct queue as [|[[[alo ahi] blo] bhi] queue]; simpl in Hw |- *; [by eexists|].
  destruct Hok as (Hap & Hin & Hbl). simpl in Hin. apply Forall_cons in Hin as [Hr Hin].
  assert (Hr' := Hr). destruct Hr' as (_ & Ha & Hala & _ & Hb & Hblb).
  destruct (find_longest_match_spec a b alo blo bhi Hblb ahi Ha Hb) as [Hm _].
  destruct (find_longest_match a b alo ahi blo bhi) as [[i j] k].
  destruct Hm as (Hi1 & Hi2 & Hj1 & Hj2 & Hm).
  destruct (Nat.ltb_spec 0 k) as [Hk|Hk].
  - set (q1 := if (alo <? i) && (blo <? j) then [(alo, i, blo, j)] else [] : list region).
    set (q2 := if (i + k <? ahi) && (j + k <? bhi) then [(i + k, ahi, j + k, bhi)] else [] : list region).
    match goal with |- ∃ out, match_regions _ _ _ ?q ?bs = _ ∧ _ =>
      assert (Hq : q = q2 ++ q1 ++ queue) by (unfold q1, q2; repeat case_match; done) end.
    rewrite Hq. apply IH.
    + unfold q1, q2. rewrite !sum_list_with_app.
      repeat case_match; bool_to_prop; simpl; lia.
    + assert (Hperm : (q2 ++ q1 ++ queue) ++ (box <$> blocks ++ [(i, j, k)]) ≡ₚ
                      ((i, i + k, j, j + k) :: q1 ++ q2) ++ queue ++ (box <$> blocks)).
      { rewrite fmap_app. simpl. rewrite <-!app_assoc. solve_Permutation. }
      assert (Hsub : Forall (λ y, within y (alo, ahi, blo, bhi)) ((i, i + k, j, j + k) :: q1 ++ q2)).
      { unfold q1, q2. repeat case_match; bool_to_prop; repeat constructor; simpl; lia. }
      split; [|split].
      * eapply all_apart_Permutation; [symmetry; exact Hperm|].
        eapply all_apart_refine; [exact Hap| |exact Hsub].
        unfold q1, q2, apart. repeat case_match; bool_to_prop; simpl;
          repeat match goal with |- _ ∧ _ => split | |- Forall _ _ => constructor | |- True => exact I end;
          unfold apart; simpl; lia.
      * rewrite Hperm, Forall_app. split; [|exact Hin].
        eapply Forall_impl; [exact Hsub|]. intros x Hx. exact (within_trans _ _ _ Hx Hr).
      * apply Forall_app. split; [done|]. repeat constructor; [done|exact Hm].
  - apply IH; [lia|]. split; [|by split]. by destruct Hap.
Qed.

End regions.

(** ** Merged blocks and opcodes *)

Section codes.
Context (a b : list string).

(** Matching blocks in order, starting at or after line [i] of [a] and [j] of
    [b]. *)
Fixpoint blocks_from (i j : nat) (l : list block) : Prop :=
  match l with
  | [] => i <= length a ∧ j <= length b
  | (ai, bj, k) :: l =>
      i <= ai ∧ j <= bj ∧ lines_match a b ai bj k ∧ blocks_from (ai + k) (bj + k) l
  end.

(** One opcode covers nonempty ranges of the kind its tag says. *)
Definition op_ok (c : Opcode) : Prop :=
  match op_tag c with
  | Equal => i1 c < i2 c ∧ j2 c - j1 c = i2 c - i1 c ∧ j1 c < j2 c ∧
             lines_match a b (i1 c) (j1 c) (i2 c - i1 c)
  | Replace => i1 c < i2 c ∧ j1 c < j2 c
  | Delete => i1 c < i2 c ∧ j1 c = j2 c
  | Insert => i1 c = i2 c ∧ j1 c < j2 c
  end.

(** The opcodes cover [a] from [i] and [b] from [j] to the end, leaving no gap. *)
Fixpoint tiles (i j : nat) (l : list Opcode) : Prop :=
  match l with
  | [] => i = length a ∧ j = length b
  | c :: l => i1 c = i ∧ j1 c = j ∧ op_ok c ∧ tiles (i2 c) (j2 c) l
  end.

(** What [patch] prints for an opcode: the unchanged lines of [a], the new ones
    of [b]. *)
Definition patch (l : list Opcode) : list string :=
  c ← l;
  match op_tag c with
  | Equal => slice a (i1 c) (i2 c)
  | _ => slice b (j1 c) (j2 c)
  end.

Lemma block_leb_spec i j k i' j' k' :
  block_leb (i, j, k) (i', j', k') = true ↔
  i < i' ∨ (i = i' ∧ (j < j' ∨ (j = j' ∧ k <= k'))).
Proof.
  simpl. by rewrite !orb_true_iff, !andb_true_iff, !orb_true_iff, !andb_true_iff, !Nat.ltb_lt,
    !Nat.eqb_eq, Nat.leb_le.
Qed.

Lemma block_leb_total x y : block_leb x y = true ∨ block_leb y x = true.
Proof. destruct x as [[? ?] ?], y as [[? ?] ?]. rewrite !block_leb_spec. lia. Qed.

Lemma block_leb_fst x y : block_leb x y = true → x.1.1 <= y.1.1.
Proof. destruct x as [[? ?] ?], y as [[? ?] ?]. rewrite !block_leb_spec. simpl. lia. Qed.

Lemma block_leb_trans x y z :
  block_leb x y = true → block_leb y z = true → block_leb x z = true.
Proof.
  destruct x as [[? ?] ?], y as [[? ?] ?], z as [[? ?] ?]. rewrite !block_leb_spec. lia.
Qed.

(** Sorted blocks that are apart from each other follow each other. *)
Lemma sorted_blocks_from l i j :
  StronglySorted (λ x y, block_leb x y = true) l →
  all_apart (box <$> l) → Forall (λ x, within x (whole a b)) (box <$> l) →
  Forall (block_ok a b) l →
  i <= length a → j <= length b →
  (∀ x, x ∈ l → i <= x.1.1 ∧ j <= x.1.2) →
  blocks_from i j l.
Proof.
  intros Hs. revert i j. induction Hs as [|[[x y] k] l Hs IH Hx]; intros i j Hap Hin Hok Hi Hj Hfrom.
  { done. }
  rewrite fmap_cons in Hap, Hin. destruct Hap as [Hap Haps]. rewrite Forall_forall in Hap. rewrite Forall_forall in Hx.
  apply Forall_cons in Hin as [Hin Hins]. apply Forall_cons in Hok as [[Hk Hm] Hoks].
  simpl in Hin. destruct (Hfrom (x, y, k)) as [Hix Hjy]; [set_solver|]. simpl in *.
  split; [done|split; [done|split; [done|]]].
  apply IH; [done|done|done|lia|lia|]. intros [[x' y'] k'] Hin'. simpl.
  rewrite Forall_forall in Hoks. specialize (Hx _ Hin'). apply (block_leb_fst (x, y, k) (x', y', k')) in Hx.
  destruct (Hoks _ Hin') as [Hk' _]. simpl in Hx.
  specialize (Hap (box (x', y', k')) ltac:(by apply list_elem_of_fmap_2)).
  unfold apart in Hap. simpl in Hap. lia.
Qed.

(** Only the tail changes. *)
Lemma blocks_from_tail l t1 t2 i j :
  (∀ p q, blocks_from p q t1 → blocks_from p q t2) →
  blocks_from i j (l ++ t1) → blocks_from i j (l ++ t2).
Proof.
  intros Ht. revert i j. induction l as [|[[u v] w] l IH]; intros i j; simpl; [apply Ht|].
  intros (? & ? & ? & ?). auto.
Qed.

Lemma blocks_from_weaken i j l i' j' :
  i' <= i → j' <= j → blocks_from i j l → blocks_from i' j' l.
Proof. destruct l as [|[[u v] w] l]; simpl; [lia|]. intros ?? (? & ? & ? & ?). repeat split; auto; lia. Qed.

Lemma blocks_from_end i j l : blocks_from i j l → i <= length a ∧ j <= length b.
Proof.
  revert i j. induction l as [|[[u v] w] l IH]; intros i j; simpl; [done|].
  intros (? & ? & ? & H%IH). lia.
Qed.

(** The merging loop: [merged] followed by the block in hand covers the same
    matches in order. *)
Lemma merge_step_from rest i1 j1 k1 merged :
  blocks_from 0 0 (merged ++ [(i1, j1, k1)]) → blocks_from (i1 + k1) (j1 + k1) rest →
  ∃ i' j' k' merged',
    foldl merge_step ((i1, j1, k1), merged) rest = ((i', j', k'), merged') ∧
    blocks_from 0 0 (merged' ++ [(i', j', k')]).
Proof.
  revert i1 j1 k1 merged. induction rest as [|[[i2 j2] k2] rest IH]; intros i1 j1 k1 merged Hm Hr.
  { by repeat eexists. }
  destruct Hr as (Hi & Hj & Hmatch & Hr). simpl.
  destruct ((i1 + k1 =? i2) && (j1 + k1 =? j2)) eqn:E.
  - bool_to_prop. subst i2 j2. apply IH; [|by rewrite !Nat.add_assoc].
    eapply blocks_from_tail; [|exact Hm]. intros p q (? & ? & Hm1 & _). simpl.
    apply blocks_from_end in Hr. repeat split; [done|done| |lia|lia].
    intros t Ht. destruct (decide (t < k1)); [by apply Hm1|].
    specialize (Hmatch (t - k1) ltac:(lia)).
    replace (i1 + k1 + (t - k1)) with (i1 + t) in Hmatch by lia.
    by replace (j1 + k1 + (t - k1)) with (j1 + t) in Hmatch by lia.
  - apply blocks_from_end in Hr as Hend. apply IH; [|done].
    destruct (Nat.ltb_spec 0 k1).
    + rewrite <-app_assoc. eapply blocks_from_tail; [|exact Hm].
      intros p q (? & ? & ? & _). simpl. repeat split; auto; lia.
    + eapply blocks_from_tail; [|exact Hm].
      intros p q (? & ? & ? & _). simpl. repeat split; auto; lia.
Qed.

Lemma merge_blocks_from blocks :
  blocks_from 0 0 blocks →
  ∃ l, merge_blocks a b blocks = l ++ [(length a, length b, 0)] ∧
       blocks_from 0 0 (l ++ [(length a, length b, 0)]).
Proof.
  intros Hb. unfold merge_blocks.
  destruct (merge_step_from blocks 0 0 0 []) as (i & j & k & merged & Heq & Hm).
  { simpl. repeat split; try lia. intros t Ht. lia. }
  { done. }
  destruct (foldl merge_step (0, 0, 0, []) blocks) as [[[i' j'] k'] merged'] eqn:E.
  assert (H : Some (i', j', k', merged') = Some (i, j, k, merged)) by exact (f_equal Some (eq_trans (eq_sym E) Heq)).
  injection H as -> -> -> ->. eexists. split; [reflexivity|]. destruct (Nat.ltb_spec 0 k).
  - rewrite <-app_assoc. eapply blocks_from_tail; [|exact Hm].
    intros p q (? & ? & ? & ? & ?). simpl. repeat split; auto; try lia. intros t Ht. lia.
  - eapply blocks_from_tail; [|exact Hm].
    intros p q (? & ? & ? & ? & ?). simpl. repeat split; auto; try lia. intros t Ht. lia.
Qed.

(** The opcodes of blocks that end with the sentinel tile the two texts. *)
Lemma opcodes_from_tiles l i j :
  blocks_from i j (l ++ [(length a, length b, 0)]) →
  tiles i j (opcodes_from i j (l ++ [(length a, length b, 0)])).
Proof.
  revert i j. induction l as [|[[x y] k] l IH]; intros i j; simpl.
  - intros (Hi & Hj & _ & _).
    destruct (Nat.ltb_spec i (length a)), (Nat.ltb_spec j (length b)); simpl;
      unfold op_ok; simpl; lia.
  - intros (Hi & Hj & Hm & Hr). specialize (IH _ _ Hr).
    assert (Heq : tiles x y ((if 0 <? k then [mkOpcode Equal x (x + k) y (y + k)] else []) ++
                    opcodes_from (x + k) (y + k) (l ++ [(length a, length b, 0)]))).
    { destruct (Nat.ltb_spec 0 k); simpl.
      - unfold op_ok. simpl. replace (x + k - x) with k by lia. repeat split; try lia; done.
      - assert (k = 0) as -> by lia. by rewrite !Nat.add_0_r in *. }
    destruct (Nat.ltb_spec i x), (Nat.ltb_spec j y); simpl; unfold op_ok; simpl;
      try (assert (i = x) as -> by lia); try (assert (j = y) as -> by lia); try done;
      repeat split; try lia; exact Heq.
Qed.

Lemma opcodes_tile : ∃ ops, opcodes a b = Some ops ∧ tiles 0 0 ops.
Proof.
  unfold opcodes, matching_blocks.
  destruct (match_regions_spec a b (2 * length a + 1) [(0, length a, 0, length b)] [])
    as (out & Hout & Hap & Hin & Hok).
  { simpl. lia. }
  { split; [|split]; simpl; repeat constructor; simpl; lia. }
  rewrite Hout. simpl. simpl in Hap, Hin.
  assert (Hsorted : blocks_from 0 0 (sort_by block_leb out)).
  { apply sorted_blocks_from; try lia.
    - apply sort_by_sorted; [apply block_leb_total|apply block_leb_trans].
    - eapply all_apart_Permutation; [|exact Hap]. by rewrite sort_by_Permutation.
    - by rewrite sort_by_Permutation.
    - by rewrite sort_by_Permutation. }
  destruct (merge_blocks_from _ Hsorted) as (l & -> & Hl).
  eexists. split; [reflexivity|]. by apply opcodes_from_tiles.
Qed.

Lemma drop_slice (l : list string) i k : i <= k → slice l i k ++ drop k l = drop i l.
Proof.
  intros Hik. unfold slice. replace k with (i + (k - i)) at 2 by lia.
  rewrite <-drop_drop. apply take_drop.
Qed.

Lemma slice_match i j k :
  i + k <= length a → j + k <= length b → lines_match a b i j k →
  slice a i (i + k) = slice b j (j + k).
Proof.
  intros Ha Hb Hm. unfold slice. replace (i + k - i) with k by lia.
  replace (j + k - j) with k by lia.
  apply (list_eq_same_length _ _ k); [rewrite length_take, length_drop; lia..|].
  intros t x y Ht Hx Hy. rewrite lookup_take_lt, lookup_drop in Hx, Hy by done.
  apply list_lookup_total_correct in Hx as <-, Hy as <-. by apply Hm.
Qed.

Lemma tiles_end l i j : tiles i j l → i <= length a ∧ j <= length b.
Proof.
  revert i j. induction l as [|c l IH]; intros i j; simpl; [lia|].
  intros (<- & <- & Hok & H%IH). unfold op_ok in Hok. destruct (op_tag c); lia.
Qed.

Lemma tiles_patch l i j : tiles i j l → patch l = drop j b.
Proof.
  revert i j. induction l as [|c l IH]; intros i j; simpl.
  - intros [-> ->]. by rewrite drop_ge.
  - intros (<- & <- & Hok & Ht). rewrite (IH _ _ Ht). apply tiles_end in Ht as Hend.
    unfold op_ok in Hok. destruct (op_tag c).
    + destruct Hok as (H1 & H2 & H3 & Hm).
      replace (i2 c) with (i1 c + (i2 c - i1 c)) by lia.
      rewrite (slice_match _ (j1 c)) by (try done; lia).
      replace (j1 c + (i2 c - i1 c)) with (j2 c) by lia. apply drop_slice. lia.
    + apply drop_slice. lia.
    + apply drop_slice. lia.
    + apply drop_slice. lia.
Qed.

(** What undoing the opcodes prints: the old lines of [a]. *)
Definition unpatch (l : list Opcode) : list string :=
  c ← l;
  match op_tag c with
  | Equal => slice b (j1 c) (j2 c)
  | _ => slice a (i1 c) (i2 c)
  end.

Lemma tiles_unpatch l i j : tiles i j l → unpatch l = drop i a.
Proof.
  revert i j. induction l as [|c l IH]; intros i j; simpl.
  - intros [-> ->]. by rewrite drop_ge.
  - intros (<- & <- & Hok & Ht). rewrite (IH _ _ Ht). apply tiles_end in Ht as Hend.
    unfold op_ok in Hok. destruct (op_tag c).
    + destruct Hok as (H1 & H2 & H3 & Hm).
      replace (j2 c) with (j1 c + (i2 c - i1 c)) by lia.
      rewrite <-(slice_match (i1 c)) by (try done; lia).
      replace (i1 c + (i2 c - i1 c)) with (i2 c) by lia. apply drop_slice. lia.
    + apply drop_slice. lia.
    + apply drop_slice. lia.
    + apply drop_slice. lia.
Qed.

(** Only equal codes: the texts are equal. *)
Lemma tiles_all_equal l :
  tiles 0 0 l → Forall (λ c, op_tag c = Equal) l → a = b.
Proof.
  intros Ht Hall. apply tiles_patch in Ht as Hp. apply tiles_end in Ht as He.
  assert (Hg : ∀ i j, tiles i j l → patch l = drop i a).
  { clear Ht Hp. induction Hall as [|c l Hc Hall IH]; intros i j; simpl.
    - intros [-> _]. by rewrite drop_ge.
    - intros (<- & _ & Hok & Ht). rewrite Hc. unfold op_ok in Hok. rewrite Hc in Hok.
      rewrite (IH _ _ Ht). apply drop_slice. lia. }
  rewrite (Hg 0 0 Ht) in Hp. exact Hp.
Qed.

(** ** Groups *)

Definition changed (c : Opcode) : bool := negb (bool_decide (op_tag c = Equal)).

Lemma filter_changed_app l1 l2 :
  filter changed (l1 ++ l2) = filter changed l1 ++ filter changed l2.
Proof. apply filter_app. Qed.

Lemma changed_equal c : op_tag c = Equal → filter changed [c] = [].
Proof. intros Hc. rewrite filter_cons. unfold changed. by rewrite Hc. Qed.

Lemma trim_first_changed n l : filter changed (trim_first n l) = filter changed l.
Proof.
  destruct l as [|c l]; [done|]. simpl. destruct (op_tag c) eqn:Hc; [|done..].
  rewrite !filter_cons. unfold changed. simpl. by rewrite Hc.
Qed.

Lemma trim_last_changed n l : filter changed (trim_last n l) = filter changed l.
Proof.
  induction l as [|c [|c' l] IH]; [done| |].
  - simpl. destruct (op_tag c) eqn:Hc; [|done..]. rewrite !changed_equal by done. done.
  - change (trim_last n (c :: c' :: l)) with (c :: trim_last n (c' :: l)).
    rewrite !(filter_cons _ c), IH. done.
Qed.

Lemma group_step_changed n codes groups group :
  let '(groups', group') := foldl (group_step n) (groups, group) codes in
  filter changed (concat groups' ++ group') =
  filter changed (concat groups ++ group) ++ filter changed codes.
Proof.
  revert groups group. induction codes as [|c codes IH]; intros groups group.
  { simpl. by rewrite app_nil_r. }
  cbn [foldl]. unfold group_step at 2.
  destruct (bool_decide (op_tag c = Equal) && (2 * n <? i2 c - i1 c)) eqn:E.
  - bool_to_prop. specialize (IH (groups ++ [group ++ [mkOpcode (op_tag c) (i1 c)
      (min (i2 c) (i1 c + n)) (j1 c) (min (j2 c) (j1 c + n))]])
      [mkOpcode (op_tag c) (max (i1 c) (i2 c - n)) (i2 c) (max (j1 c) (j2 c - n)) (j2 c)]).
    destruct (foldl (group_step n) _ codes) as [groups' group']. rewrite IH.
    assert (Hc : filter changed (c :: codes) = filter changed codes).
    { change (c :: codes) with ([c] ++ codes). by rewrite filter_changed_app, changed_equal. }
    rewrite Hc, concat_app. simpl.
    rewrite app_nil_r, !filter_changed_app, !changed_equal by done.
    by rewrite !app_nil_r.
  - specialize (IH groups (group ++ [c])).
    destruct (foldl (group_step n) _ codes) as [groups' group']. rewrite IH.
    rewrite app_assoc, (filter_changed_app _ [c]), <-app_assoc, <-filter_changed_app. done.
Qed.

(** Every change is in some group, in order. *)
Lemma group_codes_changed n codes :
  filter changed (concat (group_codes n codes)) = filter changed codes.
Proof.
  unfold group_codes. pose proof (group_step_changed n codes [] []) as H.
  destruct (foldl (group_step n) ([], []) codes) as [groups group]. simpl in H. rewrite <-H.
  destruct (bool_decide (group = [])) eqn:E1; bool_to_prop; [by subst; rewrite app_nil_r|].
  destruct (only_context group) eqn:E2; simpl.
  - destruct group as [|c [|? ?]]; simpl in E2; try done. bool_to_prop.
    by rewrite filter_changed_app, changed_equal, app_nil_r.
  - by rewrite concat_app; simpl; rewrite app_nil_r.
Qed.

End codes.

(** ** Empty diffs *)

Lemma append_nonempty x y : String.append x y = "" → x = "".
Proof. by destruct x. Qed.

Lemma unified_diff_empty_groups a b f t n groups :
  grouped_opcodes a b n = Some groups →
  unified_diff a b f t n = Some "" → groups = [].
Proof. unfold unified_diff. intros ->. simpl. by destruct groups. Qed.

(** A code no longer than the context goes through trimming and grouping as the
    only context of a group, which is dropped. *)
Lemma group_one_equal n lo hi lo' hi' :
  group_codes n (trim_last n (trim_first n [mkOpcode Equal lo hi lo' hi'])) = [].
Proof.
  cbn [trim_first op_tag trim_last i1 i2 j1 j2].
  unfold group_codes. cbn [foldl]. unfold group_step. cbn [op_tag i1 i2 j1 j2].
  replace (2 * n <? _) with false; [done|]. symmetry. apply Nat.ltb_ge. lia.
Qed.

(** Equal texts match in one block. *)
Lemma find_longest_match_refl a :
  length a < 200 → find_longest_match a a 0 (length a) 0 (length a) = (0, 0, length a).
Proof.
  intros Hlen.
  destruct (find_longest_match_spec a a 0 0 (length a) (Nat.le_refl _) (length a)) as [Hm Hmax];
    [lia..|].
  specialize (Hmax Hlen (0, 0, length a)).
  destruct (find_longest_match a a 0 (length a) 0 (length a)) as [[i j] k].
  destruct Hm as (? & ? & ? & ? & _). simpl in Hmax.
  assert (length a <= k) by (apply Hmax; repeat split; try lia; intros t Ht; done).
  assert (k = length a) as -> by lia. assert (i = 0) as -> by lia. by assert (j = 0) as -> by lia.
Qed.

Lemma opcodes_refl a :
  length a < 200 → 0 < length a →
  opcodes a a = Some [mkOpcode Equal 0 (length a) 0 (length a)].
Proof.
  intros Hlen Hpos. unfold opcodes, matching_blocks.
  replace (2 * length a + 1) with (S (2 * length a)) by lia.
  cbn [match_regions]. rewrite find_longest_match_refl by done.
  rewrite (proj2 (Nat.ltb_lt _ _) Hpos). change (0 + length a) with (length a).
  rewrite !Nat.ltb_irrefl. simpl andb. cbn [app].
  destruct (2 * length a) eqn:E; [lia|].
  replace (match_regions a a (S n) [] [(0, 0, length a)]) with (Some [(0, 0, length a)]) by done.
  unfold merge_blocks. generalize dependent (length a). intros len.
  intros. destruct len as [|len]; [lia|].
  cbn. change (match len with 0 => false | S m' => len <=? m' end) with (len <? len).
  by rewrite !Nat.ltb_irrefl.
Qed.

Lemma unified_diff_refl a f t n : length a < 200 → unified_diff a a f t n = Some "".
Proof.
  intros Hlen. unfold unified_diff, grouped_opcodes. destruct a as [|x a].
  { replace (opcodes [] []) with (Some (@nil Opcode)) by done. simpl option_fmap.
    cbn [mbind option_bind]. by rewrite group_one_equal. }
  rewrite opcodes_refl by (simpl in *; lia). cbn [mbind option_bind]. by rewrite group_one_equal.
Qed.

Lemma grouped_opcodes_changed a b n ops :
  opcodes a b = Some ops →
  ∃ groups, grouped_opcodes a b n = Some groups ∧
    filter changed (concat groups) = filter changed ops.
Proof.
  intros Hops. unfold grouped_opcodes. rewrite Hops. simpl. eexists. split; [done|].
  rewrite group_codes_changed, trim_last_changed, trim_first_changed. by destruct ops.
Qed.

(** ** Lines *)

(** A line without the boundary that ends it. *)
Definition plain (l : list N) : Prop := Forall (λ c, c ≠ 13%N ∧ is_boundary c = false) l.

(** A line that ends in a boundary, which is the only one in it; carriage return
    and newline together are one. *)
Definition ended_line (l : list N) : Prop :=
  ∃ body, plain body ∧
    (l = body ++ [13%N] ∨ l = body ++ [13%N; 10%N] ∨
     ∃ c, is_boundary c = true ∧ l = body ++ [c]).

(** The lines of a text: ended lines, none of them ending in a carriage return
    just before a newline, and perhaps one more that is not ended. *)
Fixpoint lines_ok (l : list (list N)) : Prop :=
  match l with
  | [] => True
  | [x] => x ≠ [] ∧ (plain x ∨ ended_line x)
  | x :: (y :: _) as l =>
      ended_line x ∧ (last x = Some 13%N → head y ≠ Some 10%N) ∧ lines_ok l
  end.

Lemma lines_ok_cons x l :
  ended_line x → (last x = Some 13%N → head (concat l) ≠ Some 10%N) →
  Forall (λ y, y ≠ []) l → lines_ok l → lines_ok (x :: l).
Proof.
  intros Hx Hcr Hne Hl. destruct l as [|y l]; simpl.
  - split; [|by right]. destruct Hx as (body & _ & [->|[->|(c & _ & ->)]]); by destruct body.
  - split; [done|split; [|done]]. intros Hlast. apply Hcr in Hlast.
    apply Forall_cons in Hne as [Hy _]. by destruct y.
Qed.

Lemma ended_line_nonempty x : ended_line x → x ≠ [].
Proof. intros (body & _ & [->|[->|(c & _ & ->)]]); by destruct body. Qed.

Lemma splitlines_from_spec n rest current :
  length rest <= n → plain current →
  let out := splitlines_from current rest in
  concat out = current ++ rest ∧ lines_ok out ∧ Forall (λ y, y ≠ []) out.
Proof.
  revert rest current. induction n as [|n IH]; intros rest current Hlen Hplain; simpl.
  { destruct rest; [|simpl in Hlen; lia]. destruct current as [|c current]; simpl; [done|].
    rewrite app_nil_r. repeat split; [done|by left|]. by repeat constructor. }
  destruct rest as [|c rest]; simpl.
  { destruct current as [|c current]; simpl; [done|].
    rewrite app_nil_r. repeat split; [done|by left|]. by repeat constructor. }
  simpl in Hlen.
  assert (Hcons : ∀ line rest', length rest' <= n → ended_line line →
            (last line = Some 13%N → head rest' ≠ Some 10%N) →
            let out := line :: splitlines_from [] rest' in
            concat out = line ++ rest' ∧ lines_ok out ∧ Forall (λ y, y ≠ []) out).
  { intros line rest' Hl He Hcr. destruct (IH rest' [] Hl (Forall_nil_2 _)) as (H1 & H2 & H3).
    simpl in H1 |- *. rewrite H1. split; [done|split].
    - apply lines_ok_cons; [done|by rewrite H1|done|done].
    - constructor; [by apply ended_line_nonempty|done]. }
  assert (Happ : ∀ r, (current ++ [c]) ++ r = current ++ c :: r) by (intros; by rewrite <-app_assoc).
  destruct (N.eqb_spec c 13) as [->|Hc].
  - assert (He : ended_line (current ++ [13%N])) by (exists current; auto).
    destruct (decide (head rest = Some 10%N)) as [Hh|Hh].
    + destruct rest as [|d rest]; [done|]. injection Hh as ->. simpl in Hlen.
      destruct (Hcons ((current ++ [13%N]) ++ [10%N]) rest) as (H1 & H2); [lia| | |].
      * exists current. rewrite <-app_assoc. auto.
      * by rewrite last_snoc.
      * split; [|done]. simpl in H1 |- *. rewrite H1, <-!app_assoc. done.
    + assert (Hm : match rest with
              | 10%N :: rest0 => ((current ++ [13%N]) ++ [10%N]) :: splitlines_from [] rest0
              | _ => (current ++ [13%N]) :: splitlines_from [] rest end =
              (current ++ [13%N]) :: splitlines_from [] rest).
      { destruct rest as [|d rest]; [done|]. simpl in Hh.
        destruct (decide (d = 10%N)) as [->|Hd]; [done|]. repeat (case_match; try done). }
      rewrite Hm. destruct (Hcons (current ++ [13%N]) rest) as (H1 & H2); [lia|done|done|].
      split; [|done]. simpl in H1 |- *. by rewrite H1, Happ.
  - destruct (is_boundary c) eqn:Hb.
    + destruct (Hcons (current ++ [c]) rest) as (H1 & H2); [lia| | |].
      * exists current. eauto 6.
      * rewrite last_snoc. congruence.
      * split; [|done]. simpl in H1 |- *. by rewrite H1, Happ.
    + destruct (IH rest (current ++ [c])) as (H1 & H2); [lia| |].
      * apply Forall_app. by repeat constructor.
      * split; [|done]. by rewrite H1, Happ.
Qed.

(** ** Properties *)

(** C36: for any two texts the opcodes are computed within the fuel, cover both
    texts from start to end with no gap or overlap, each of the kind its tag says
    and equal codes covering equal lines; so applying them to the old text gives
    the new one, and undoing them gives the old. *)
Theorem opcodes_correct a b :
  ∃ ops, opcodes a b = Some ops ∧ tiles a b 0 0 ops ∧ patch a b ops = b ∧ unpatch a b ops = a.
Proof.
  destruct (opcodes_tile a b) as (ops & Hops & Ht). exists ops.
  split; [done|split; [done|]].
  by rewrite (tiles_patch _ _ _ _ _ Ht), (tiles_unpatch _ _ _ _ _ Ht), !drop_0.
Qed.

(** The block found in a region is a matching block of the region, and, when
    the text has fewer than the 200 lines from which popular lines are dropped,
    no matching block of the region is longer. *)
Theorem find_longest_match_longest a b alo ahi blo bhi :
  alo <= ahi → blo <= bhi → bhi <= length b →
  let m := find_longest_match a b alo ahi blo bhi in
  match_in a b alo ahi blo bhi m ∧
  (length b < 200 → ∀ m', match_in a b alo ahi blo bhi m' → snd m' <= snd m).
Proof. intros. by apply find_longest_match_spec. Qed.

Lemma find_longest_match_longest_witness :
  find_longest_match ["a"; "b"; "c"] ["x"; "b"; "c"; "y"] 0 3 0 4 = (1, 1, 2) ∧
  match_in ["a"; "b"; "c"] ["x"; "b"; "c"; "y"] 0 3 0 4 (1, 1, 2).
Proof.
  split; [vm_compute; reflexivity|].
  exact (proj1 (find_longest_match_longest ["a"; "b"; "c"] ["x"; "b"; "c"; "y"] 0 3 0 4
                  ltac:(lia) ltac:(lia) ltac:(simpl; lia))).
Defined.

(** Grouping the opcodes into hunks succeeds and keeps every code that is a
    change, unaltered and in order: only context lines are dropped. *)
Theorem grouped_opcodes_changes a b n :
  ∃ ops groups, opcodes a b = Some ops ∧ grouped_opcodes a b n = Some groups ∧
    filter changed (concat groups) = filter changed ops.
Proof.
  destruct (opcodes_tile a b) as (ops & Hops & _). exists ops.
  destruct (grouped_opcodes_changed a b n ops Hops) as (groups & ? & ?). eauto.
Qed.

(** The unified diff of two texts is empty exactly when they are the same
    text (fewer than 200 lines for "same text gives the empty diff"; an empty
    diff means equal texts at any length). *)
Theorem unified_diff_empty a b f t n :
  (unified_diff a b f t n = Some "" → a = b) ∧
  (length a < 200 → a = b → unified_diff a b f t n = Some "").
Proof.
  split; [|intros Hlen <-; by apply unified_diff_refl].
  intros Hd. destruct (opcodes_tile a b) as (ops & Hops & Ht).
  destruct (grouped_opcodes_changed a b n ops Hops) as (groups & Hg & Hf).
  rewrite (unified_diff_empty_groups _ _ _ _ _ _ Hg Hd) in Hf. simpl in Hf.
  apply (tiles_all_equal _ _ _ Ht). apply Forall_forall. intros c Hc.
  destruct (decide (op_tag c = Equal)) as [|Hne]; [done|].
  exfalso. apply (filter_nil_not_elem_of _ _ c (eq_sym Hf)); [|done].
  unfold changed. by rewrite bool_decide_eq_false_2.
Qed.

(** Splitting a text into lines loses nothing: the lines are not empty and
    put together are the text; each but the last ends in a line boundary, which
    is the only one in it, and a carriage return is never cut from the newline
    after it. *)
Theorem splitlines_lines t :
  concat (splitlines t) = t ∧ lines_ok (splitlines t) ∧ Forall (λ y, y ≠ []) (splitlines t).
Proof. apply (splitlines_from_spec (length t)); [done|constructor]. Qed.

End Difflib.
