(* ===== verification/Command.v ===== *)
(** * Command lines of build manifests

    Models crates/dagayn-postproc/src/manifest_bridges/command.rs: the POSIX
    [shlex.split] state machine with its fallback, the split of tokens into
    options and positional arguments, and [strip_quotes].  A text is the list of
    its characters; the delimiters are all ASCII, so cutting at them is the same
    on characters and on bytes. *)
From S2P Require Import Prelude.

Module Command.

(** [str::split_whitespace]: the maximal runs of characters that are not white
    space; [word] is the run being read, in reverse. *)
Fixpoint split_whitespace_from (word : list N) (t : list N) : list (list N) :=
  match t with
  | [] => match word with [] => [] | _ => [reverse word] end
  | c :: t =>
      if is_whitespace c then
        match word with
        | [] => split_whitespace_from [] t
        | _ => reverse word :: split_whitespace_from [] t
        end
      else split_whitespace_from (c :: word) t
  end.

Definition split_whitespace (t : list N) : list (list N) := split_whitespace_from [] t.

(** Source: crates/dagayn-postproc/src/manifest_bridges/command.rs 12-18 [Lex]. *)
Inductive Lex := Space | Word | Quote (q : N) | Escape.

#[export] Instance Lex_eq_dec : EqDecision Lex.
Proof. solve_decision. Defined.

(** The variables of the loop.

    Source: crates/dagayn-postproc/src/manifest_bridges/command.rs 22-27 [shlex_split]. *)
Record lexer := mkLexer {
  tokens : list (list N);
  token : list N;
  quoted : bool;
  state : Lex;
  escaped_from : Lex
}.

(** Source: crates/dagayn-postproc/src/manifest_bridges/command.rs 21 [is_space]. *)
Definition is_space (ch : N) : bool :=
  (ch =? 32)%N || (ch =? 9)%N || (ch =? 13)%N || (ch =? 10)%N.

(** The quote characters: double and single. *)
Definition dq : N := 34.
Definition sq : N := 39.
Definition backslash : N := 92.

Definition is_quote (ch : N) : bool := (ch =? dq)%N || (ch =? sq)%N.

Definition enter (s : Lex) (l : lexer) : lexer :=
  mkLexer (tokens l) (token l) (quoted l) s (escaped_from l).

Definition enter_escape (from : Lex) (l : lexer) : lexer :=
  mkLexer (tokens l) (token l) (quoted l) Escape from.

Definition push (ch : N) (l : lexer) : lexer :=
  mkLexer (tokens l) (token l ++ [ch]) (quoted l) (state l) (escaped_from l).

(** One character.

    Source: crates/dagayn-postproc/src/manifest_bridges/command.rs 28-81 [shlex_split]. *)
Definition shlex_step (l : lexer) (ch : N) : lexer :=
  match state l with
  | Space =>
      if is_space ch then l
      else if (ch =? backslash)%N then enter_escape Word l
      else if is_quote ch then enter (Quote ch) l
      else enter Word (push ch l)
  | Quote q =>
      let l := mkLexer (tokens l) (token l) true (state l) (escaped_from l) in
      if (ch =? q)%N then enter Word l
      else if (ch =? backslash)%N && (q =? dq)%N then enter_escape (state l) l
      else push ch l
  | Escape =>
      let l :=
        match escaped_from l with
        | Quote q => if negb (ch =? backslash)%N && negb (ch =? q)%N then push backslash l else l
        | _ => l
        end in
      enter (escaped_from l) (push ch l)
  | Word =>
      if is_space ch then
        if negb (bool_decide (token l = [])) || quoted l
        then mkLexer (tokens l ++ [token l]) [] false Space (escaped_from l)
        else enter Space l
      else if is_quote ch then enter (Quote ch) l
      else if (ch =? backslash)%N then enter_escape Word l
      else push ch l
  end.

(** Source: crates/dagayn-postproc/src/manifest_bridges/command.rs 82-88 [shlex_split]. *)
Definition shlex_end (l : lexer) : option (list (list N)) :=
  match state l with
  | Quote _ | Escape => None
  | Word => Some (if negb (bool_decide (token l = [])) || quoted l
                  then tokens l ++ [token l] else tokens l)
  | Space => Some (tokens l)
  end.

(** Source: crates/dagayn-postproc/src/manifest_bridges/command.rs 20-88 [shlex_split]. *)
Definition shlex_split (t : list N) : option (list (list N)) :=
  shlex_end (foldl shlex_step (mkLexer [] [] false Space Word) t).

(** Source: crates/dagayn-postproc/src/manifest_bridges/command.rs 5-10 [split_command]. *)
Definition split_command (t : list N) : list (list N) :=
  default (split_whitespace t) (shlex_split t).

(** [str::split_once] on one ASCII character. *)
Fixpoint split_once (sep : N) (t : list N) : option (list N * list N) :=
  match t with
  | [] => None
  | c :: t =>
      if (c =? sep)%N then Some ([], t)
      else '(before, after) ← split_once sep t; Some (c :: before, after)
  end.

(** Source: crates/dagayn-postproc/src/manifest_bridges/command.rs 90-94 [CommandOptions]. *)
Record CommandOptions := mkCommandOptions {
  options : gmap (list N) (list N);
  positional : list (list N)
}.

(** Source: crates/dagayn-postproc/src/manifest_bridges/command.rs 97-99 [CommandOptions::get]. *)
Definition get (o : CommandOptions) (flag : list N) : option (list N) := options o !! flag.

(** Source: crates/dagayn-postproc/src/manifest_bridges/command.rs 101-112 [CommandOptions::first_non_empty]. *)
Fixpoint first_non_empty_from (o : CommandOptions) (value : option (list N)) (flags : list (list N))
    : option (list N) :=
  match flags with
  | [] => value
  | flag :: flags =>
      match get o flag with
      | Some (c :: v) => Some (c :: v)
      | value => first_non_empty_from o value flags
      end
  end.

Definition first_non_empty (o : CommandOptions) (flags : list (list N)) : option (list N) :=
  first_non_empty_from o None flags.

(** The tokens from [index] on; the accumulator is what the loop has found.

    Source: crates/dagayn-postproc/src/manifest_bridges/command.rs 115-139 [command_options]. *)
Fixpoint command_options_from (valued : gset (list N)) (o : CommandOptions)
    (toks : list (list N)) : CommandOptions :=
  match toks with
  | [] => o
  | tok :: toks =>
      if bool_decide (head tok = Some 45%N) then
        match split_once 61 tok with
        | Some (flag, value) =>
            command_options_from valued
              (mkCommandOptions (<[flag := value]> (options o)) (positional o)) toks
        | None =>
            match toks with
            | value :: toks' =>
                if bool_decide (tok ∈ valued) then
                  command_options_from valued
                    (mkCommandOptions (<[tok := value]> (options o)) (positional o)) toks'
                else
                  command_options_from valued
                    (mkCommandOptions (<[tok := []]> (options o)) (positional o)) toks
            | [] =>
                command_options_from valued
                  (mkCommandOptions (<[tok := []]> (options o)) (positional o)) toks
            end
        end
      else if bool_decide (61%N ∉ tok) || bool_decide (head tok = Some 46%N) then
        command_options_from valued
          (mkCommandOptions (options o) (positional o ++ [tok])) toks
      else command_options_from valued o toks
  end.

(** Source: crates/dagayn-postproc/src/manifest_bridges/command.rs 115-139 [command_options]. *)
Definition command_options (toks : list (list N)) (valued : gset (list N)) : CommandOptions :=
  command_options_from valued (mkCommandOptions ∅ []) toks.

(** Source: crates/dagayn-postproc/src/manifest_bridges/command.rs 141-148 [strip_quotes]. *)
Definition strip_quotes (value : list N) : list N :=
  match value, last value with
  | c :: (_ :: _) as rest, Some d =>
      if (c =? d)%N && is_quote c then take (length rest - 1) rest else value
  | _, _ => value
  end.

(** ** Specification *)

(** [shlex.quote] of Python, for any word: between single quotes, a single quote
    of the word written ['"'"']. *)
Definition quote_char (c : N) : list N :=
  if (c =? sq)%N then [sq; dq; sq; dq; sq] else [c].

Definition quote (w : list N) : list N := [sq] ++ (w ≫= quote_char) ++ [sq].

(** The words quoted, with a space after each. *)
Definition command_line (ws : list (list N)) : list N := ws ≫= λ w, quote w ++ [32%N].

(** Text where quoting plays no part, and all white space is [shlex]'s. *)
Definition unquoted (t : list N) : Prop :=
  Forall (λ c, is_quote c = false ∧ c ≠ backslash ∧ (is_whitespace c = true → is_space c = true)) t.

(** ** Lemmas *)

Lemma is_space_whitespace c : is_space c = true → is_whitespace c = true.
Proof.
  unfold is_space. rewrite !orb_true_iff, !N.eqb_eq. intros [[[->| ->]| ->]| ->]; done.
Qed.

(** Reading a quoted word inside the quotes. *)
Lemma shlex_body w toks tok b e :
  foldl shlex_step (mkLexer toks tok b (Quote sq) e) ((w ≫= quote_char) ++ [sq]) =
  mkLexer toks (tok ++ w) true Word e.
Proof.
  revert tok b. induction w as [|c w IH]; intros tok b.
  { simpl. by rewrite app_nil_r. }
  rewrite bind_cons, <-app_assoc. unfold quote_char at 1.
  destruct (N.eqb_spec c sq) as [->|Hc].
  - cbn [app foldl]. unfold shlex_step at 6. cbn.
    change (foldl shlex_step (mkLexer toks (tok ++ [sq]) true (Quote sq) e)
              ((w ≫= quote_char) ++ [sq]) = mkLexer toks (tok ++ sq :: w) true Word e).
    rewrite IH, <-app_assoc. done.
  - cbn [app foldl]. unfold shlex_step at 2. cbn [state tokens token quoted escaped_from].
    rewrite (proj2 (N.eqb_neq _ _) Hc). replace (sq =? dq)%N with false by done.
    rewrite andb_false_r. unfold push. cbn. rewrite IH, <-app_assoc. done.
Qed.

Lemma shlex_quoted_word w toks e :
  foldl shlex_step (mkLexer toks [] false Space e) (quote w ++ [32%N]) =
  mkLexer (toks ++ [w]) [] false Space e.
Proof.
  unfold quote. rewrite <-!app_assoc. cbn [app foldl]. unfold shlex_step at 2. cbn.
  change ((w ≫= quote_char) ++ sq :: [32%N]) with ((w ≫= quote_char) ++ [sq] ++ [32%N]).
  rewrite app_assoc, foldl_app. unfold enter. cbn. rewrite shlex_body. cbn.
  by rewrite orb_true_r.
Qed.

Lemma shlex_words ws toks e :
  foldl shlex_step (mkLexer toks [] false Space e) (command_line ws) =
  mkLexer (toks ++ ws) [] false Space e.
Proof.
  revert toks. induction ws as [|w ws IH]; intros toks; [by rewrite app_nil_r|].
  change (command_line (w :: ws)) with ((quote w ++ [32%N]) ++ command_line ws).
  rewrite foldl_app, shlex_quoted_word, IH, <-app_assoc. done.
Qed.

(** The states of the machine on unquoted text follow the white-space split. *)
Lemma shlex_unquoted t toks word e :
  unquoted t →
  shlex_end (foldl shlex_step
    (mkLexer toks (reverse word) false (match word with [] => Space | _ => Word end) e) t) =
  Some (toks ++ split_whitespace_from word t).
Proof.
  intros Ht. revert toks word. induction Ht as [|c t (Hq & Hb & Hw) Ht IH]; intros toks word.
  { destruct word as [|c word]; unfold shlex_end;
      cbn [foldl state token quoted tokens split_whitespace_from]; [by rewrite app_nil_r|].
    rewrite bool_decide_eq_false_2; [done|]. rewrite reverse_cons. by destruct (reverse word). }
  apply N.eqb_neq in Hb. cbn [foldl split_whitespace_from].
  destruct (is_whitespace c) eqn:Ew.
  - specialize (Hw eq_refl). destruct word as [|d word]; unfold shlex_step at 2;
      cbn [state token quoted tokens escaped_from]; rewrite Hw.
    + apply (IH toks []).
    + rewrite bool_decide_eq_false_2 by (rewrite reverse_cons; by destruct (reverse word)).
      simpl orb. cbn match.
      etrans; [apply (IH (toks ++ [reverse (d :: word)]) [])|]. by rewrite <-app_assoc.
  - assert (Hs : is_space c = false).
    { destruct (is_space c) eqn:E; [|done]. apply is_space_whitespace in E. congruence. }
    specialize (IH toks (c :: word)).
    destruct word as [|d word]; unfold shlex_step at 2;
      cbn [state token quoted tokens escaped_from]; rewrite Hs, Hq, Hb;
      unfold push, enter; cbn [state token quoted tokens escaped_from];
      rewrite reverse_cons in IH; exact IH.
Qed.

Lemma split_once_Some sep t before after :
  split_once sep t = Some (before, after) → t = before ++ sep :: after ∧ sep ∉ before.
Proof.
  revert before. induction t as [|c t IH]; intros before; simpl; [done|].
  destruct (N.eqb_spec c sep) as [->|Hc].
  - intros [= <- <-]. split; [done|apply not_elem_of_nil].
  - destruct (split_once sep t) as [[b a]|]; simpl; [|done]. intros [= <- <-].
    destruct (IH b eq_refl) as [-> Hb]. split; [done|]. apply not_elem_of_cons. auto.
Qed.

Lemma split_once_None sep t : split_once sep t = None → sep ∉ t.
Proof.
  induction t as [|c t IH]; simpl; [intros _; apply not_elem_of_nil|].
  destruct (N.eqb_spec c sep) as [->|Hc]; [done|].
  destruct (split_once sep t) as [[b a]|]; simpl; [done|]. intros _.
  apply not_elem_of_cons. auto.
Qed.

(** ** Options *)

Definition is_flag (tok : list N) : Prop := head tok = Some 45%N.

(** What a list of tokens says, declaratively: the options given, in order, and
    the positional arguments. *)
Inductive reads (valued : gset (list N)) :
    list (list N) → list (list N * list N) → list (list N) → Prop :=
  | reads_nil : reads valued [] [] []
  | reads_equals flag value toks os ps :
      is_flag (flag ++ 61%N :: value) → 61%N ∉ flag → reads valued toks os ps →
      reads valued ((flag ++ 61%N :: value) :: toks) ((flag, value) :: os) ps
  | reads_valued flag value toks os ps :
      is_flag flag → 61%N ∉ flag → flag ∈ valued → reads valued toks os ps →
      reads valued (flag :: value :: toks) ((flag, value) :: os) ps
  | reads_switch flag toks os ps :
      is_flag flag → 61%N ∉ flag → flag ∉ valued ∨ toks = [] → reads valued toks os ps →
      reads valued (flag :: toks) ((flag, []) :: os) ps
  | reads_positional tok toks os ps :
      ¬ is_flag tok → 61%N ∉ tok ∨ head tok = Some 46%N → reads valued toks os ps →
      reads valued (tok :: toks) os (tok :: ps)
  | reads_assignment tok toks os ps :
      ¬ is_flag tok → 61%N ∈ tok → head tok ≠ Some 46%N → reads valued toks os ps →
      reads valued (tok :: toks) os ps.

(** The options inserted in order. *)
Definition insert_all (m : gmap (list N) (list N)) (os : list (list N * list N)) :
  gmap (list N) (list N) := foldl (λ m '(k, v), <[k := v]> m) m os.

Lemma command_options_reads valued n toks o :
  length toks <= n →
  ∃ os ps, reads valued toks os ps ∧
    command_options_from valued o toks =
    mkCommandOptions (insert_all (options o) os) (positional o ++ ps).
Proof.
  revert toks o. induction n as [|n IH]; intros toks o Hn.
  { destruct toks; [|simpl in Hn; lia]. exists [], []. split; [constructor|].
    destruct o. simpl. by rewrite app_nil_r. }
  destruct toks as [|tok toks].
  { exists [], []. split; [constructor|]. destruct o. simpl. by rewrite app_nil_r. }
  simpl in Hn. assert (Hn' : length toks <= n) by lia. simpl.
  destruct (bool_decide (head tok = Some 45%N)) eqn:Hf; bool_to_prop.
  - destruct (split_once 61 tok) as [[flag value]|] eqn:E.
    { apply split_once_Some in E as [-> Hni].
      destruct (IH toks (mkCommandOptions (<[flag:=value]> (options o)) (positional o)) Hn')
        as (os & ps & Hr & ->).
      exists ((flag, value) :: os), ps. split; [by constructor|done]. }
    apply split_once_None in E. destruct toks as [|value toks].
    { exists [(tok, [])], []. split; [|by rewrite app_nil_r].
      constructor; [done|done|by right|constructor]. }
    destruct (bool_decide (tok ∈ valued)) eqn:Hv; bool_to_prop.
    + simpl in Hn'.
      destruct (IH toks (mkCommandOptions (<[tok:=value]> (options o)) (positional o)))
        as (os & ps & Hr & ->); [lia|].
      exists ((tok, value) :: os), ps. split; [by constructor|done].
    + destruct (IH (value :: toks) (mkCommandOptions (<[tok:=[]]> (options o)) (positional o)) Hn')
        as (os & ps & Hr & ->).
      exists ((tok, []) :: os), ps. split; [constructor; auto|done].
  - destruct (bool_decide (61%N ∉ tok) || bool_decide (head tok = Some 46%N)) eqn:Hp.
    + apply orb_true_iff in Hp. rewrite !bool_decide_eq_true in Hp.
      destruct (IH toks (mkCommandOptions (options o) (positional o ++ [tok])) Hn')
        as (os & ps & Hr & ->).
      exists os, (tok :: ps). split; [by constructor|]. simpl. by rewrite <-app_assoc.
    + bool_to_prop. destruct (IH toks o Hn') as (os & ps & Hr & ->).
      exists os, ps. split; [|done]. constructor; [done| |done|done].
      destruct (decide (61%N ∈ tok)); [done|by exfalso].
Qed.

(** ** Properties *)

(** Words quoted the POSIX way and put on one command line are split back
    into the same words, whatever characters they hold. *)
Theorem split_command_quote ws : split_command (command_line ws) = ws.
Proof.
  unfold split_command, shlex_split. by rewrite shlex_words.
Qed.

(** On text without quotes and backslashes, whose white space is [shlex]'s,
    the state machine agrees with splitting at white space, which is also the
    fallback: nothing else is cut or dropped. *)
Theorem shlex_split_unquoted t : unquoted t → shlex_split t = Some (split_whitespace t).
Proof. intros Ht. exact (shlex_unquoted t [] [] Word Ht). Qed.

Lemma shlex_split_unquoted_witness :
  unquoted (chars "cc -o a.out") ∧
  shlex_split (chars "cc -o a.out") = Some [chars "cc"; chars "-o"; chars "a.out"].
Proof.
  assert (H : unquoted (chars "cc -o a.out")) by (repeat constructor; done).
  split; [exact H|]. exact (shlex_split_unquoted _ H).
Defined.

(** The tokens are read as the declarative reading says (a flag with [=], a
    valued flag with the token after it, a switch, a positional argument, an
    ignored assignment), every token once and in order; a later value of a flag
    replaces an earlier one. *)
Theorem command_options_spec valued toks :
  ∃ os ps, reads valued toks os ps ∧
    command_options toks valued = mkCommandOptions (insert_all ∅ os) ps.
Proof. exact (command_options_reads valued _ toks (mkCommandOptions ∅ []) (Nat.le_refl _)). Qed.

End Command.
