(* ===== verification/ManifestText.v ===== *)
(** * Text and path helpers of the manifest scanners

    Models crates/dagayn-postproc/src/manifest_bridges/text.rs: universal
    newlines, [str.splitlines], repository-relative paths and their lexical
    resolution, the containment check of [contained_path] (the canonical path of
    the file system is a parameter) and [PurePath.suffix]. *)
From S2P Require Import Prelude Command Difflib.

Module ManifestText.

(** ** Splitting and joining at a separator *)

(** [str::split] on one ASCII character. *)
Fixpoint split (sep : N) (t : list N) : list (list N) :=
  match t with
  | [] => [[]]
  | c :: t =>
      if (c =? sep)%N then [] :: split sep t
      else match split sep t with
           | part :: parts => (c :: part) :: parts
           | [] => [[c]]
           end
  end.

(** [<[_]>::join] with one character. *)
Fixpoint join (sep : N) (parts : list (list N)) : list N :=
  match parts with
  | [] => []
  | [part] => part
  | part :: parts => part ++ sep :: join sep parts
  end.

Definition slash : N := 47.
Definition dot : list N := [46%N].
Definition dotdot : list N := [46%N; 46%N].

(** [str::trim_start_matches] with a set of characters. *)
Fixpoint trim_start_matches (p : N → bool) (t : list N) : list N :=
  match t with
  | c :: t' => if p c then trim_start_matches p t' else t
  | [] => []
  end.

Definition trim_end_matches (p : N → bool) (t : list N) : list N :=
  reverse (trim_start_matches p (reverse t)).

(** [str::trim]. *)
Definition trim (t : list N) : list N :=
  trim_end_matches is_whitespace (trim_start_matches is_whitespace t).

(** [str::rsplit_once] on one ASCII character. *)
Fixpoint rsplit_once (sep : N) (t : list N) : option (list N * list N) :=
  match t with
  | [] => None
  | c :: t =>
      match rsplit_once sep t with
      | Some (before, after) => Some (c :: before, after)
      | None => if (c =? sep)%N then Some ([], t) else None
      end
  end.

(** ** Newlines *)

(** [str::replace] of CR LF by LF. *)
Fixpoint replace_crlf (t : list N) : list N :=
  match t with
  | [] => []
  | c :: t' =>
      if (c =? 13)%N then
        match t' with
        | 10%N :: t'' => 10%N :: replace_crlf t''
        | _ => c :: replace_crlf t'
        end
      else c :: replace_crlf t'
  end.

(** [str::replace] of CR by LF. *)
Definition replace_cr (t : list N) : list N :=
  (λ c, if (c =? 13)%N then 10%N else c) <$> t.

(** Source: crates/dagayn-postproc/src/manifest_bridges/text.rs 20-25 [universal_newlines]. *)
Definition universal_newlines (t : list N) : list N :=
  if negb (bool_decide (13%N ∈ t)) then t else replace_cr (replace_crlf t).

(** Source: crates/dagayn-postproc/src/manifest_bridges/text.rs 33-44 [splitlines]. *)
Definition boundary (ch : N) : bool :=
  (ch =? 10)%N || (ch =? 13)%N || (ch =? 11)%N || (ch =? 12)%N || (ch =? 28)%N || (ch =? 29)%N
  || (ch =? 30)%N || (ch =? 133)%N || (ch =? 8232)%N || (ch =? 8233)%N.

(** [line] is the text from [start] to the character being looked at.

    Source: crates/dagayn-postproc/src/manifest_bridges/text.rs 27-61 [splitlines]. *)
Fixpoint splitlines_from (line : list N) (t : list N) : list (list N) :=
  match t with
  | [] => match line with [] => [] | _ => [line] end
  | ch :: t =>
      if boundary ch then
        match t with
        | d :: t' =>
            if (ch =? 13)%N && (d =? 10)%N then line :: splitlines_from [] t'
            else line :: splitlines_from [] t
        | [] => line :: splitlines_from [] t
        end
      else splitlines_from (line ++ [ch]) t
  end.

(** Source: crates/dagayn-postproc/src/manifest_bridges/text.rs 27-61 [splitlines]. *)
Definition splitlines (t : list N) : list (list N) := splitlines_from [] t.

(** Source: crates/dagayn-postproc/src/manifest_bridges/text.rs 63-66 [is_py_space]. *)
Definition is_py_space (ch : N) : bool :=
  is_whitespace ch || ((28 <=? ch)%N && (ch <=? 31)%N).

(** ** Paths *)

(** Source: crates/dagayn-postproc/src/manifest_bridges/text.rs 77-84 [parent_dir]. *)
Definition parent_dir (rel : list N) : list N :=
  default [] (fst <$> rsplit_once slash (trim_end_matches (N.eqb slash) rel)).

(** Source: crates/dagayn-postproc/src/manifest_bridges/text.rs 86-93 [join_rel]. *)
Definition join_rel (dir name : list N) : list N :=
  match dir with [] => name | _ => dir ++ slash :: name end.

Definition is_slash (c : N) : bool := (c =? slash)%N || (c =? Command.backslash)%N.

(** Source: crates/dagayn-postproc/src/manifest_bridges/text.rs 118-124 [resolve_rel]. *)
Definition candidate (base_dir raw : list N) : list N :=
  match raw with
  | c :: _ =>
      if is_slash c then trim_start_matches is_slash raw
      else if bool_decide (base_dir = []) || bool_decide (base_dir = dot) then raw
      else base_dir ++ slash :: raw
  | [] => raw
  end.

(** The loop over the parts; the stack's top is the last part.

    Source: crates/dagayn-postproc/src/manifest_bridges/text.rs 125-134 [resolve_rel]. *)
Fixpoint push_parts (parts : list (list N)) (rest : list (list N)) : option (list (list N)) :=
  match rest with
  | [] => Some parts
  | part :: rest =>
      if bool_decide (part = []) || bool_decide (part = dot) then push_parts parts rest
      else if bool_decide (part = dotdot) then
        match parts with
        | [] => None
        | _ => push_parts (removelast parts) rest
        end
      else push_parts (parts ++ [part]) rest
  end.

(** Source: crates/dagayn-postproc/src/manifest_bridges/text.rs 108-139 [resolve_rel]. *)
Definition resolve_rel (base_dir declared : list N) : option (list N) :=
  let raw := trim declared in
  match raw with
  | [] => None
  | _ =>
      parts ← push_parts [] (split slash (candidate base_dir raw));
      match parts with
      | [] => None
      | _ => Some (join slash parts)
      end
  end.

Section contained.
(** [Path::canonicalize] of the file system: the absolute path with symbolic
    links resolved, if the path exists; [starts_with] is [Path]'s, by whole
    components. *)
Context (canonicalize : list N → option (list N)).

(** The components of an absolute path. *)
Definition components (p : list N) : list (list N) :=
  filter (λ part, part ≠ [] ∧ part ≠ dot) (split slash p).

(** [Path::starts_with], of absolute paths. *)
Definition starts_with (p root : list N) : bool :=
  bool_decide (components root `prefix_of` components p).

(** [Path::join] with a relative path. *)
Definition path_join (root rel : list N) : list N := root ++ slash :: rel.

(** Source: crates/dagayn-postproc/src/manifest_bridges/text.rs 141-155 [contained_path]. *)
Definition contained_path (repo_root rel_path : list N) : option (list N) :=
  match rel_path with
  | [] => None
  | c :: _ =>
      if is_slash c then None
      else
        _ ← resolve_rel [] rel_path;
        let root := default repo_root (canonicalize repo_root) in
        candidate ← canonicalize (path_join root rel_path);
        if starts_with candidate root then Some candidate else None
  end.

End contained.

(** The index of the last [.], if any. *)
Fixpoint rfind (c : N) (t : list N) : option nat :=
  match t with
  | [] => None
  | d :: t =>
      match rfind c t with
      | Some i => Some (S i)
      | None => if (d =? c)%N then Some 0 else None
      end
  end.

(** Source: crates/dagayn-postproc/src/manifest_bridges/text.rs 157-164 [py_suffix]. *)
Definition py_suffix (name : list N) : list N :=
  match rfind 46 name with
  | Some index =>
      if (0 <? index) && (index <? length name - 1) then drop index name else []
  | None => []
  end.

(** ** Specification *)

(** A line without the boundary at its end. *)
Definition strip_boundary (l : list N) : list N :=
  match reverse l with
  | 10%N :: 13%N :: r => reverse r
  | c :: r => if boundary c then reverse r else l
  | [] => []
  end.

(** A path component that names something. *)
Definition proper (part : list N) : Prop := part ≠ [] ∧ part ≠ dot ∧ part ≠ dotdot ∧ slash ∉ part.

(** Walking the parts from a directory [depth] levels below the root: the depth
    reached, or [None] when the walk leaves the root. *)
Fixpoint walk_depth (depth : nat) (rest : list (list N)) : option nat :=
  match rest with
  | [] => Some depth
  | part :: rest =>
      if bool_decide (part = []) || bool_decide (part = dot) then walk_depth depth rest
      else if bool_decide (part = dotdot) then
        match depth with 0 => None | S depth => walk_depth depth rest end
      else walk_depth (S depth) rest
  end.

(** ** Lemmas *)

Lemma split_nonempty sep t : split sep t ≠ [].
Proof. destruct t as [|c t]; simpl; [done|]. case_if; [done|]. by destruct (split sep t). Qed.

Lemma split_join sep t : join sep (split sep t) = t.
Proof.
  induction t as [|c t IH]; simpl; [done|]. pose proof (split_nonempty sep t) as Hne.
  revert IH Hne. destruct (N.eqb_spec c sep) as [->|Hc].
  - destruct (split sep t); [done|]. intros <- _. done.
  - destruct (split sep t) as [|part [|part' parts]]; [done| |]; intros <- _; done.
Qed.

Lemma split_no_sep sep t : Forall (λ part, sep ∉ part) (split sep t).
Proof.
  induction t as [|c t IH]; simpl; [by repeat constructor; apply not_elem_of_nil|].
  destruct (N.eqb_spec c sep) as [->|Hc]; [by constructor; [apply not_elem_of_nil|]|].
  destruct IH as [|part parts Hp Hps]; constructor; try done; set_solver.
Qed.

Lemma split_part sep part t :
  sep ∉ part → split sep (part ++ sep :: t) = part :: split sep t.
Proof.
  induction part as [|c part IH]; intros Hn; simpl; [by rewrite N.eqb_refl|].
  destruct (N.eqb_spec c sep) as [->|Hc]; [set_solver|]. rewrite IH by set_solver. done.
Qed.

Lemma split_whole sep part : sep ∉ part → split sep part = [part].
Proof.
  induction part as [|c part IH]; intros Hn; simpl; [done|].
  destruct (N.eqb_spec c sep) as [->|Hc]; [set_solver|]. by rewrite IH by set_solver.
Qed.

Lemma join_split sep parts :
  parts ≠ [] → Forall (λ part, sep ∉ part) parts → split sep (join sep parts) = parts.
Proof.
  intros Hne Hs. induction Hs as [|part parts Hp Hps IH]; [done|].
  destruct parts as [|part' parts]; [by apply split_whole|].
  change (join sep (part :: part' :: parts)) with (part ++ sep :: join sep (part' :: parts)).
  by rewrite split_part, IH.
Qed.

Lemma split_join_app sep parts t :
  parts ≠ [] → Forall (λ part, sep ∉ part) parts →
  split sep (join sep parts ++ sep :: t) = parts ++ split sep t.
Proof.
  intros Hne Hs. induction Hs as [|part parts Hp Hps IH]; [done|].
  destruct parts as [|part' parts]; [by apply split_part|].
  change (join sep (part :: part' :: parts)) with (part ++ sep :: join sep (part' :: parts)).
  rewrite <-app_assoc, <-app_comm_cons, split_part by done. by rewrite IH.
Qed.

Lemma push_parts_proper parts rest out :
  Forall proper parts → Forall (λ part, slash ∉ part) rest →
  push_parts parts rest = Some out → Forall proper out.
Proof.
  intros Hp Hr. revert parts Hp. induction Hr as [|part rest Hs Hr IH]; intros parts Hp; simpl.
  { by intros [= <-]. }
  destruct (bool_decide (part = []) || bool_decide (part = dot)) eqn:E1; [by apply IH|].
  bool_to_prop. destruct (bool_decide (part = dotdot)) eqn:E2; bool_to_prop.
  - destruct parts as [|x parts]; [done|]. apply IH. apply Forall_forall. intros y Hy. rewrite Forall_forall in Hp. apply Hp.
    rewrite (app_removelast_last [] (l := x :: parts)) by done. apply elem_of_app. by left.
  - apply IH. apply Forall_app. split; [done|]. by repeat constructor.
Qed.

Lemma push_parts_depth parts rest :
  walk_depth (length parts) rest = length <$> push_parts parts rest.
Proof.
  revert parts. induction rest as [|part rest IH]; intros parts; simpl; [done|].
  destruct (bool_decide (part = []) || bool_decide (part = dot)); [apply IH|].
  destruct (bool_decide (part = dotdot)).
  - destruct parts as [|x parts]; [done|]. rewrite <-IH.
    assert (Hl : length (removelast (x :: parts)) = length parts).
    { pose proof (app_removelast_last [] (l := x :: parts)) as H.
      apply (f_equal length) in H; [|done]. rewrite length_app in H. simpl in *. lia. }
    by rewrite Hl.
  - rewrite <-IH, length_app. simpl. by rewrite Nat.add_comm.
Qed.

(** Parts that are all proper are kept as they are. *)
Lemma push_parts_id parts rest :
  Forall proper rest → push_parts parts rest = Some (parts ++ rest).
Proof.
  intros Hr. revert parts. induction Hr as [|part rest (H1 & H2 & H3 & _) Hr IH]; intros parts; simpl.
  { by rewrite app_nil_r. }
  rewrite !bool_decide_eq_false_2 by done. simpl. by rewrite IH, <-app_assoc.
Qed.

Lemma rsplit_once_Some sep t before after :
  rsplit_once sep t = Some (before, after) ↔ t = before ++ sep :: after ∧ sep ∉ after.
Proof.
  assert (Hnone : ∀ t, rsplit_once sep t = None ↔ sep ∉ t).
  { clear. induction t as [|c t IH]; simpl; [split; [intros _; apply not_elem_of_nil|done]|].
    rewrite not_elem_of_cons. destruct (rsplit_once sep t) as [[b a]|].
    - split; [done|]. intros [_ H]. by apply IH in H.
    - destruct (N.eqb_spec c sep); split; try done; [naive_solver|].
      intros _. split; [congruence|]. by apply IH. }
  revert before. induction t as [|c t IH]; intros before; simpl.
  { split; [done|]. intros [H _]. by destruct before. }
  destruct (rsplit_once sep t) as [[b a]|] eqn:E.
  - split.
    + intros [= <- <-]. destruct (proj1 (IH b) eq_refl) as [-> ?]. done.
    + intros [H Hn]. destruct before as [|d before]; simpl in H; injection H as -> H.
      * subst. exfalso. apply (proj2 (Hnone after)) in Hn. congruence.
      * destruct (IH before) as [_ IH']. specialize (IH' (conj H Hn)). by injection IH' as -> ->.
  - apply Hnone in E. destruct (N.eqb_spec c sep) as [->|Hc].
    + split; [intros [= <- <-]; done|]. intros [H Hn].
      destruct before as [|d before]; simplify_eq/=; [done|]. set_solver.
    + split; [done|]. intros [H Hn]. destruct before; simplify_eq/=. set_solver.
Qed.

Lemma trim_end_matches_keep p t c : p c = false → trim_end_matches p (t ++ [c]) = t ++ [c].
Proof.
  intros Hp. unfold trim_end_matches. rewrite reverse_snoc. simpl. rewrite Hp.
  by rewrite reverse_cons, reverse_involutive.
Qed.

Lemma rfind_Some c t i :
  rfind c t = Some i → ∃ before after, t = before ++ c :: after ∧ length before = i ∧ c ∉ after.
Proof.
  revert i. induction t as [|d t IH]; intros i; simpl; [done|].
  assert (Hnone : ∀ t, rfind c t = None → c ∉ t).
  { clear. induction t as [|d t IH]; simpl; [intros _; apply not_elem_of_nil|].
    destruct (rfind c t); [done|]. destruct (N.eqb_spec d c); [done|].
    intros _. apply not_elem_of_cons. split; [congruence|auto]. }
  destruct (rfind c t) as [j|] eqn:E.
  - intros [= <-]. destruct (IH j eq_refl) as (b & a & -> & <- & ?). by exists (d :: b), a.
  - destruct (N.eqb_spec d c) as [->|]; [|done]. intros [= <-]. exists [], t. auto.
Qed.

(** ** Newlines *)

Lemma boundary_split c : boundary c = (c =? 13)%N || Difflib.is_boundary c.
Proof.
  unfold boundary, Difflib.is_boundary.
  destruct (c =? 10)%N, (c =? 13)%N; simpl; try done; by rewrite !orb_true_r.
Qed.

Lemma strip_boundary_snoc l c :
  boundary c = true → (c = 10%N → last l ≠ Some 13%N) → strip_boundary (l ++ [c]) = l.
Proof.
  intros Hb Hcr. unfold strip_boundary. rewrite reverse_snoc. rewrite Hb.
  destruct (decide (c = 10%N)) as [->|Hc].
  - specialize (Hcr eq_refl). destruct l as [|d l] using rev_ind; [done|].
    rewrite last_snoc in Hcr. rewrite reverse_snoc.
    destruct (decide (d = 13%N)) as [->|]; [done|].
    assert (Hr : reverse (d :: reverse l) = l ++ [d]) by (by rewrite reverse_cons, reverse_involutive).
    repeat (case_match; try done); congruence.
  - repeat (case_match; try done); by rewrite reverse_involutive.
Qed.

Lemma strip_boundary_crlf l : strip_boundary ((l ++ [13%N]) ++ [10%N]) = l.
Proof. unfold strip_boundary. rewrite !reverse_snoc. by rewrite reverse_involutive. Qed.

Lemma strip_boundary_plain l : l ≠ [] → Forall (λ c, boundary c = false) l → strip_boundary l = l.
Proof.
  destruct l as [|c l] using rev_ind; [done|]. intros _ Hl.
  apply Forall_app in Hl as [_ Hc]. rewrite Forall_singleton in Hc.
  unfold strip_boundary. rewrite reverse_snoc, Hc.
  assert (c ≠ 10%N) by (intros ->; done). repeat (case_match; try done).
Qed.

Lemma plain_last l : Forall (λ c, boundary c = false) l → last l ≠ Some 13%N.
Proof.
  destruct l as [|c l] using rev_ind; [done|]. intros Hl.
  apply Forall_app in Hl as [_ Hc]. rewrite Forall_singleton in Hc.
  rewrite last_snoc. intros [= ->]. done.
Qed.

Lemma difflib_cr current t :
  Difflib.splitlines_from current (13%N :: t) =
  match t with
  | 10%N :: t' => ((current ++ [13%N]) ++ [10%N]) :: Difflib.splitlines_from [] t'
  | _ => (current ++ [13%N]) :: Difflib.splitlines_from [] t
  end.
Proof. done. Qed.

Lemma splitlines_from_strip n t line :
  length t <= n → Forall (λ c, boundary c = false) line →
  splitlines_from line t = strip_boundary <$> Difflib.splitlines_from line t.
Proof.
  revert t line. induction n as [|n IH]; intros t line Hn Hl.
  { destruct t; [|simpl in Hn; lia]. destruct line as [|c line]; [done|].
    simpl splitlines_from. simpl Difflib.splitlines_from.
    cbn [fmap list_fmap]. by rewrite strip_boundary_plain. }
  destruct t as [|c t]; simpl in Hn.
  { destruct line as [|c line]; [done|].
    simpl splitlines_from. simpl Difflib.splitlines_from.
    cbn [fmap list_fmap]. by rewrite strip_boundary_plain. }
  assert (Hnil : Forall (λ c, boundary c = false) []) by constructor.
  destruct (decide (c = 13%N)) as [->|Hc].
  - rewrite difflib_cr. cbn [splitlines_from]. simpl boundary. cbn match.
    assert (Hone : line :: splitlines_from [] t =
      strip_boundary <$> (line ++ [13%N]) :: Difflib.splitlines_from [] t).
    { rewrite fmap_cons, strip_boundary_snoc by done. f_equal. apply IH; [lia|done]. }
    destruct t as [|d t]; [exact Hone|].
    destruct (N.eqb_spec d 10) as [->|Hd].
    + rewrite fmap_cons, strip_boundary_crlf. simpl in Hn. simpl andb.
      cbn match. f_equal. apply IH; [lia|done].
    + simpl andb. cbn match. rewrite Hone. repeat (case_match; try done).
  - assert (Hc' : (c =? 13)%N = false) by (by apply N.eqb_neq).
    pose proof (boundary_split c) as Hb. rewrite Hc' in Hb. simpl in Hb.
    cbn [splitlines_from Difflib.splitlines_from]. rewrite Hc', <-Hb. cbn [andb].
    destruct (boundary c) eqn:E.
    + rewrite fmap_cons, strip_boundary_snoc by (try done; intros _; by apply plain_last).
      assert (Hr : splitlines_from [] t = strip_boundary <$> Difflib.splitlines_from [] t)
        by (apply IH; [lia|done]).
      destruct t; by rewrite Hr.
    + apply IH; [lia|]. apply Forall_app. by repeat constructor.
Qed.

Lemma crlf_cons c t :
  c ≠ 13%N → replace_cr (replace_crlf (c :: t)) = c :: replace_cr (replace_crlf t).
Proof. intros Hc. simpl. rewrite (proj2 (N.eqb_neq _ _) Hc). simpl. by rewrite (proj2 (N.eqb_neq _ _) Hc). Qed.

Lemma splitlines_from_newlines n t line :
  length t <= n →
  splitlines_from line (replace_cr (replace_crlf t)) = splitlines_from line t.
Proof.
  revert t line. induction n as [|n IH]; intros t line Hn.
  { by destruct t; [|simpl in Hn; lia]. }
  destruct t as [|c t]; [done|]. simpl in Hn.
  destruct (decide (c = 13%N)) as [->|Hc].
  - assert (Hlf : ∀ r, splitlines_from line (10%N :: r) = line :: splitlines_from [] r)
      by (by intros []).
    destruct t as [|d t]; [done|]. destruct (decide (d = 10%N)) as [->|Hd].
    + simpl in Hn. change (replace_cr (replace_crlf (13%N :: 10%N :: t)))
        with (10%N :: replace_cr (replace_crlf t)).
      rewrite Hlf, IH by lia. done.
    + assert (Hr : replace_crlf (13%N :: d :: t) = 13%N :: replace_crlf (d :: t)).
      { simpl. repeat (case_match; try done). }
      rewrite Hr. change (replace_cr (13%N :: ?r)) with (10%N :: replace_cr r).
      rewrite Hlf, IH by (simpl in *; lia). cbn [splitlines_from]. simpl boundary. cbn match.
      by rewrite (proj2 (N.eqb_neq _ _) Hd).
  - rewrite crlf_cons by done. cbn [splitlines_from]. rewrite (proj2 (N.eqb_neq _ _) Hc).
    cbn [andb]. destruct (boundary c).
    + assert (Hr : ∀ r, match r with [] => line :: splitlines_from [] r
               | _ :: _ => line :: splitlines_from [] r end = line :: splitlines_from [] r)
        by (by intros []).
      rewrite !Hr, IH by lia. done.
    + apply IH. lia.
Qed.

Lemma replace_cr_none t : 13%N ∉ replace_cr t.
Proof.
  unfold replace_cr. intros (c & Hc & _)%list_elem_of_fmap.
  destruct (N.eqb_spec c 13); congruence.
Qed.

(** ** Properties *)

(** Resolution never leaves the repository: a path it returns has only
    proper components (none empty, [.] or [..]), as many as the walk of the
    declared path ends below the root; it returns nothing exactly when the
    declared path is blank, climbs above the root on the way, or names the root. *)
Theorem resolve_rel_contained base declared :
  let depth := walk_depth 0 (split slash (candidate base (trim declared))) in
  match resolve_rel base declared with
  | Some r => ∃ parts, parts ≠ [] ∧ Forall proper parts ∧ r = join slash parts ∧
                depth = Some (length parts)
  | None => trim declared = [] ∨ depth = None ∨ depth = Some 0
  end.
Proof.
  unfold resolve_rel. destruct (trim declared) as [|c raw]; [by left|].
  pose proof (push_parts_depth [] (split slash (candidate base (c :: raw)))) as Hd.
  simpl length in Hd. cbv zeta. rewrite Hd.
  destruct (push_parts _ _) as [parts|] eqn:Hp; simpl; [|by right; left].
  apply push_parts_proper in Hp; [|constructor|apply split_no_sep].
  destruct parts as [|part parts]; [by right; right|]. by exists (part :: parts).
Qed.

(** A declared path that is already clean is put under its base directory
    unchanged; in particular a resolved path resolves to itself. *)
Theorem resolve_rel_clean bs ds :
  Forall proper bs → Forall proper ds → ds ≠ [] →
  trim (join slash ds) = join slash ds →
  head (join slash ds) ≠ Some Command.backslash →
  resolve_rel (join slash bs) (join slash ds) = Some (join slash (bs ++ ds)).
Proof.
  intros Hbs Hds Hne Htrim Hhead.
  assert (Hns : ∀ l, Forall proper l → Forall (λ part, slash ∉ part) l).
  { intros l Hl. eapply Forall_impl; [exact Hl|]. by intros ? (_ & _ & _ & ?). }
  assert (Hsplit : ∀ l, l ≠ [] → Forall proper l → split slash (join slash l) = l).
  { intros l ? ?. apply join_split; [done|by apply Hns]. }
  destruct (join slash ds) as [|c raw] eqn:Ej.
  { exfalso. specialize (Hsplit ds Hne Hds). rewrite Ej in Hsplit. simpl in Hsplit. subst ds.
    apply Forall_singleton in Hds as [? _]. done. }
  unfold resolve_rel. rewrite Htrim.
  assert (Hslash : is_slash c = false).
  { unfold is_slash. apply orb_false_iff. rewrite !N.eqb_neq. split; [|simpl in Hhead; congruence].
    intros ->. specialize (Hsplit ds Hne Hds). rewrite Ej in Hsplit. simpl in Hsplit.
    rewrite <-Hsplit in Hds. apply Forall_cons in Hds as [[? _] _]. done. }
  assert (Hparts : split slash (candidate (join slash bs) (c :: raw)) = bs ++ ds).
  { unfold candidate. rewrite Hslash. destruct bs as [|b bs].
    { rewrite bool_decide_eq_true_2 by done. cbn [orb]. rewrite <-Ej. by apply Hsplit. }
    assert (Hb : ∀ x, split slash x = [x] → ¬ proper x → join slash (b :: bs) ≠ x).
    { intros x Hx Hp Hj. assert (Hs := Hsplit (b :: bs) ltac:(done) Hbs). rewrite Hj, Hx in Hs.
      injection Hs as -> <-. apply Forall_cons in Hbs as [? _]. done. }
    rewrite !bool_decide_eq_false_2 by (apply Hb; [done|unfold proper; tauto]). cbn [orb].
    rewrite <-Ej, split_join_app by (done || by apply Hns). by rewrite Hsplit. }
  rewrite Hparts, push_parts_id by (by apply Forall_app). simpl.
  destruct (bs ++ ds) eqn:E; [|done]. by apply app_eq_nil in E as [_ ->].
Qed.

Lemma resolve_rel_clean_witness :
  resolve_rel (join slash [chars "pkg"]) (join slash [chars "rust"; chars "Cargo.toml"]) =
  Some (chars "pkg/rust/Cargo.toml").
Proof.
  refine (resolve_rel_clean [chars "pkg"] [chars "rust"; chars "Cargo.toml"] _ _ _ _ _);
    try (vm_compute; done);
    repeat constructor; try (vm_compute; done); by apply (bool_decide_unpack _).
Defined.

(** The two line splitters agree: [str.splitlines()] gives the lines of
    [str.splitlines(keepends=True)] without their ends. *)
Theorem splitlines_without_ends t : splitlines t = strip_boundary <$> Difflib.splitlines t.
Proof. by apply (splitlines_from_strip (length t)). Qed.

(** Reading a text with universal newlines leaves no carriage return and
    does not change its lines. *)
Theorem universal_newlines_lines t :
  13%N ∉ universal_newlines t ∧ splitlines (universal_newlines t) = splitlines t.
Proof.
  unfold universal_newlines. destruct (decide (13%N ∈ t)) as [H|H].
  - rewrite bool_decide_eq_true_2 by done. simpl. split; [apply replace_cr_none|].
    by apply (splitlines_from_newlines (length t)).
  - by rewrite bool_decide_eq_false_2.
Qed.

(** The parent of a name put into a directory is that directory, at the
    repository root too. *)
Theorem parent_dir_join_rel dir name :
  name ≠ [] → slash ∉ name → parent_dir (join_rel dir name) = dir.
Proof.
  intros Hne Hns. unfold parent_dir.
  assert (Htrim : trim_end_matches (N.eqb slash) (join_rel dir name) = join_rel dir name).
  { destruct name as [|c name] using rev_ind; [done|].
    assert ((slash =? c)%N = false) by (apply N.eqb_neq; set_solver).
    destruct dir as [|d dir]; simpl; [by apply trim_end_matches_keep|].
    change (d :: dir ++ slash :: name ++ [c]) with ((d :: dir) ++ (slash :: name) ++ [c]).
    rewrite app_assoc. by apply trim_end_matches_keep. }
  rewrite Htrim. destruct dir as [|d dir].
  - simpl. destruct (rsplit_once slash name) as [[b a]|] eqn:E; [|done].
    apply rsplit_once_Some in E as [-> _]. set_solver.
  - unfold join_rel. rewrite (proj2 (rsplit_once_Some slash _ (d :: dir) name)); done.
Qed.

Lemma parent_dir_join_rel_witness :
  parent_dir (join_rel (chars "a/b") (chars "c.rs")) = chars "a/b".
Proof.
  apply parent_dir_join_rel; [done|]. by apply (bool_decide_unpack _).
Defined.

(** The suffix of a name ends it, starts with the last dot of the name, and
    is empty exactly when the name has no dot, or only one at its start or end. *)
Theorem py_suffix_spec name :
  match py_suffix name with
  | [] => 46%N ∉ name ∨ (∃ rest, name = 46%N :: rest ∧ 46%N ∉ rest) ∨ last name = Some 46%N
  | suffix => ∃ stem ext, stem ≠ [] ∧ ext ≠ [] ∧ 46%N ∉ ext ∧
                suffix = 46%N :: ext ∧ name = stem ++ suffix
  end.
Proof.
  unfold py_suffix. destruct (rfind 46 name) as [i|] eqn:E.
  - apply rfind_Some in E as (b & a & -> & <- & Ha). rewrite length_app. simpl.
    destruct b as [|x b]; simpl; [right; left; eauto|].
    destruct a as [|y a].
    + simpl. rewrite (proj2 (Nat.ltb_ge _ _)) by lia. right. right.
      change (x :: b ++ [46%N]) with ((x :: b) ++ [46%N]). apply last_snoc.
    + simpl. rewrite (proj2 (Nat.ltb_lt _ _)) by lia.
      rewrite drop_app_length. simpl. exists (x :: b), (y :: a). auto.
  - left. intros Hin. revert E. clear -Hin. induction name as [|d name IH]; simpl; [set_solver|].
    destruct (rfind 46 name); [done|]. destruct (N.eqb_spec d 46); [done|]. set_solver.
Qed.

End ManifestText.
