(* ===== verification/PyLiteral.v ===== *)
(** * Python literals

    Models crates/dagayn-postproc/src/manifest_bridges/native/pyliteral.rs: the
    recursive-descent parser of [ast.literal_eval]'s literals.  The parser's
    position is modelled by the characters from it on; each recursive call and
    each round of a loop takes one unit of fuel, and running out of it ([Fuel])
    is kept apart from a syntax error ([Error]).  The Unicode tables behind
    [char::is_alphabetic] and [char::is_numeric] beyond ASCII are
    parameters. *)
From S2P Require Import Prelude ManifestText.

Module PyLiteral.

(** Source: crates/dagayn-postproc/src/manifest_bridges/native/pyliteral.rs 7-18 [PyLiteral]. *)
Inductive literal :=
  | None_
  | Bool (b : bool)
  | Number
  | Str (s : list N)
  | Bytes
  | List (items : list literal)
  | Tuple (items : list literal)
  | Set_ (items : list literal)
  | Dict (items : list (literal * literal)).

(** Source: crates/dagayn-postproc/src/manifest_bridges/native/pyliteral.rs 21-26 [PyLiteral::as_str]. *)
Definition as_str (v : literal) : option (list N) :=
  match v with Str s => Some s | _ => None end.

(** [Iterator::find]. *)
Definition find_first {A} (p : A → bool) (l : list A) : option A :=
  snd <$> list_find (λ x, p x = true) l.

(** Source: crates/dagayn-postproc/src/manifest_bridges/native/pyliteral.rs 28-38 [PyLiteral::get]. *)
Definition get (v : literal) (key : list N) : option literal :=
  match v with
  | Dict items =>
      snd <$> find_first (λ '(name, _), bool_decide (as_str name = Some key)) (reverse items)
  | _ => None
  end.

(** The characters from [pos] on, and the bracket nesting.

    Source: crates/dagayn-postproc/src/manifest_bridges/native/pyliteral.rs 65-70 [Parser]. *)
Record Parser := mkParser { rest : list N; depth : nat }.

(** What a parsing function returns: out of fuel, [None], or a value. *)
Inductive res (A : Type) :=
  | Fuel
  | Error
  | Done (a : A) (p : Parser).
Arguments Fuel {A}.
Arguments Error {A}.
Arguments Done {A} a p.

Definition bind {A B} (r : res A) (f : A → Parser → res B) : res B :=
  match r with Fuel => Fuel | Error => Error | Done a p => f a p end.

#[local] Notation "'let!' ( x , p ) := r 'in' k" := (bind r (λ x p, k))
  (at level 200, x name, p name, r at level 100, k at level 200).

(** [None?] *)
Definition of_option {A} (o : option (A * Parser)) : res A :=
  match o with Some (a, p) => Done a p | None => Error end.

Section parser.
(** The tables of [char::is_alphabetic] and [char::is_numeric] past ASCII. *)
Context (alphabetic numeric : N → bool).

Definition is_alphabetic (c : N) : bool :=
  if (c <? 128)%N then is_ascii_alphabetic c else alphabetic c.
Definition is_alphanumeric (c : N) : bool :=
  is_alphabetic c || (if (c <? 128)%N then is_ascii_digit c else numeric c).

(** Named characters. *)
Definition LF : N := 10.
Definition SQ : N := 39.
Definition DQ : N := 34.
Definition BS : N := 92.

Definition is_quote (c : N) : bool := (c =? DQ)%N || (c =? SQ)%N.

(** [in_comment] while a comment is being skipped to the end of its line.

    Source: crates/dagayn-postproc/src/manifest_bridges/native/pyliteral.rs 77-93 [Parser::skip_blank]. *)
Fixpoint skip_chars (newlines in_comment : bool) (t : list N) : list N :=
  match t with
  | [] => []
  | c :: t' =>
      if in_comment && negb (c =? LF)%N then skip_chars newlines true t'
      else if (c =? 32)%N || (c =? 9)%N || (c =? 12)%N || (c =? 13)%N then
        skip_chars newlines false t'
      else if (c =? LF)%N && newlines then skip_chars newlines false t'
      else if (c =? 35)%N then skip_chars newlines true t'
      else if (c =? BS)%N then
        match t' with
        | d :: t'' => if (d =? LF)%N then skip_chars newlines false t'' else t
        | [] => t
        end
      else t
  end.

(** Source: crates/dagayn-postproc/src/manifest_bridges/native/pyliteral.rs 77-93 [Parser::skip_blank]. *)
Definition skip_blank (newlines : bool) (p : Parser) : Parser :=
  mkParser (skip_chars (newlines || (0 <? depth p)) false (rest p)) (depth p).

(** Source: crates/dagayn-postproc/src/manifest_bridges/native/pyliteral.rs 95-97 [Parser::skip]. *)
Definition skip (p : Parser) : Parser := skip_blank false p.

(** Source: crates/dagayn-postproc/src/manifest_bridges/native/pyliteral.rs 73-75 [Parser::peek]. *)
Definition peek (p : Parser) : option N := head (rest p).

Definition advance (n : nat) (p : Parser) : Parser := mkParser (drop n (rest p)) (depth p).

(** Source: crates/dagayn-postproc/src/manifest_bridges/native/pyliteral.rs 99-107 [Parser::eat]. *)
Definition eat (ch : N) (p : Parser) : bool * Parser :=
  let p := skip p in
  if bool_decide (peek p = Some ch) then (true, advance 1 p) else (false, p).

(** ** Numbers *)

(** The token's characters taken so far and the ones that follow.

    Source: crates/dagayn-postproc/src/manifest_bridges/native/pyliteral.rs 225-238 [Parser::number]. *)
Fixpoint number_token (taken : list N) (t : list N) : list N * list N :=
  match t with
  | [] => (taken, [])
  | ch :: t' =>
      let exponent_sign :=
        ((ch =? 43)%N || (ch =? 45)%N)
        && match last taken with Some e => (e =? 101)%N || (e =? 69)%N | None => false end
        && negb (existsb (λ c, (c =? 120)%N || (c =? 88)%N) taken) in
      if is_ascii_alphanumeric ch || (ch =? 46)%N || (ch =? 95)%N || exponent_sign
      then number_token (taken ++ [ch]) t'
      else (taken, t)
  end.

(** [char::is_digit]. *)
Definition to_digit (radix : N) (ch : N) : option N :=
  let value :=
    if is_ascii_digit ch then Some (ch - 48)%N
    else if is_ascii_lowercase ch then Some (ch - 87)%N
    else if is_ascii_uppercase ch then Some (ch - 55)%N
    else None in
  match value with Some v => if (v <? radix)%N then Some v else None | None => None end.

Definition is_digit (radix : N) (ch : N) : bool := bool_decide (is_Some (to_digit radix ch)).

(** [str::strip_prefix]. *)
Fixpoint strip_prefix (prefix t : list N) : option (list N) :=
  match prefix, t with
  | [], _ => Some t
  | c :: prefix, d :: t => if (c =? d)%N then strip_prefix prefix t else None
  | _, [] => None
  end.

(** The digits at the start, and what follows them. *)
Fixpoint take_digits (t : list N) : list N * list N :=
  match t with
  | c :: t' => if is_ascii_digit c then let '(ds, r) := take_digits t' in (c :: ds, r) else ([], t)
  | [] => ([], [])
  end.

(** The exponent of a float, or nothing. *)
Definition parse_exponent (t : list N) : bool :=
  match t with
  | [] => true
  | e :: t =>
      if (e =? 101)%N then
        let t := match t with
                 | s :: t' => if (s =? 43)%N || (s =? 45)%N then t' else t
                 | [] => [] end in
        match take_digits t with (_ :: _, []) => true | _ => false end
      else false
  end.

(** Whether [str::parse::<f64>] accepts a text in lower case: the grammar its
    documentation gives. *)
Definition parses_as_f64 (t : list N) : bool :=
  let t := match t with
           | s :: t' => if (s =? 43)%N || (s =? 45)%N then t' else t
           | [] => [] end in
  bool_decide (t = chars "inf") || bool_decide (t = chars "infinity")
  || bool_decide (t = chars "nan")
  || let '(whole, r) := take_digits t in
     match r with
     | 46%N :: r =>
         let '(fraction, r) := take_digits r in
         negb (bool_decide (whole = []) && bool_decide (fraction = [])) && parse_exponent r
     | _ => negb (bool_decide (whole = [])) && parse_exponent r
     end.

(** Source: crates/dagayn-postproc/src/manifest_bridges/native/pyliteral.rs 239-255 [Parser::number]. *)
Definition valid_number (token : list N) : bool :=
  let text := filter (λ ch, ch ≠ 95%N) token in
  let lower := to_ascii_lowercase <$> text in
  let digits radix body := negb (bool_decide (body = [])) && forallb (is_digit radix) body in
  match strip_prefix (chars "0x") lower, strip_prefix (chars "0o") lower,
        strip_prefix (chars "0b") lower with
  | Some body, _, _ => digits 16%N body
  | None, Some body, _ => digits 8%N body
  | None, None, Some body => digits 2%N body
  | None, None, None =>
      let body := match last lower with
                  | Some 106%N => removelast lower
                  | _ => lower end in
      negb (bool_decide (body = [46%N])) && parses_as_f64 body
      && negb match body with s :: _ => (s =? 43)%N || (s =? 45)%N | [] => false end
  end.

(** Source: crates/dagayn-postproc/src/manifest_bridges/native/pyliteral.rs 224-257 [Parser::number]. *)
Definition number (p : Parser) : option (literal * Parser) :=
  let '(token, rest) := number_token [] (rest p) in
  if valid_number token then Some (Number, mkParser rest (depth p)) else None.

(** ** Strings *)

(** The octal digits after the first of an escape: at most [n] more.

    Source: crates/dagayn-postproc/src/manifest_bridges/native/pyliteral.rs 365-373 [Parser::string_literal]. *)
Fixpoint octal_digits (n : nat) (code : N) (t : list N) : N * list N :=
  match n, t with
  | S n, c :: t' =>
      match to_digit 8 c with
      | Some digit => octal_digits n (code * 8 + digit) t'
      | None => (code, t)
      end
  | _, _ => (code, t)
  end.

(** [u32::from_str_radix] of hexadecimal digits. *)
Definition hex_value (t : list N) : option N :=
  foldl (λ code c, match code, to_digit 16 c with
                   | Some code, Some d => Some (code * 16 + d)%N
                   | _, _ => None end) (Some 0%N) t.

(** [char::from_u32]. *)
Definition from_u32 (code : N) : option N := if is_scalar code then Some code else None.

(** The characters an escape stands for: [next] follows the backslash and [t]
    follows [next].

    Source: crates/dagayn-postproc/src/manifest_bridges/native/pyliteral.rs 353-396 [Parser::string_literal]. *)
Definition escape (next : N) (t : list N) : option (list N * list N) :=
  if (next =? LF)%N then Some ([], t)
  else if (next =? BS)%N || (next =? SQ)%N || (next =? DQ)%N then Some ([next], t)
  else if (next =? 110)%N then Some ([10%N], t)
  else if (next =? 116)%N then Some ([9%N], t)
  else if (next =? 114)%N then Some ([13%N], t)
  else if (next =? 97)%N then Some ([7%N], t)
  else if (next =? 98)%N then Some ([8%N], t)
  else if (next =? 102)%N then Some ([12%N], t)
  else if (next =? 118)%N then Some ([11%N], t)
  else if (48 <=? next)%N && (next <=? 55)%N then
    code ← to_digit 8 next;
    let '(code, t) := octal_digits 2 code t in
    c ← from_u32 code; Some ([c], t)
  else if (next =? 120)%N || (next =? 117)%N || (next =? 85)%N then
    let width := if (next =? 120)%N then 2 else if (next =? 117)%N then 4 else 8 in
    if length t <? width then None
    else code ← hex_value (take width t); c ← from_u32 code; Some ([c], drop width t)
  else if (next =? 78)%N then None
  else Some ([BS; next], t).

(** Whether the text starts with two more quotes. *)
Definition two_quotes (quote : N) (t : list N) : bool :=
  match t with
  | c :: d :: _ => (c =? quote)%N && (d =? quote)%N
  | _ => false
  end.

(** The characters of a literal after its opening quotes; [fuel] bounds the
    rounds of the loop.

    Source: crates/dagayn-postproc/src/manifest_bridges/native/pyliteral.rs 324-397 [Parser::string_literal]. *)
Fixpoint string_body (fuel : nat) (raw triple : bool) (quote : N) (value t : list N)
    : option (list N * list N) :=
  match fuel with
  | 0 => None
  | S fuel =>
      match t with
      | [] => None
      | ch :: t =>
          if (ch =? quote)%N && negb triple then Some (value, t)
          else if (ch =? quote)%N && two_quotes quote t then Some (value, drop 2 t)
          else if (ch =? LF)%N && negb triple then None
          else if negb (ch =? BS)%N then string_body fuel raw triple quote (value ++ [ch]) t
          else
            match t with
            | [] => None
            | next :: t =>
                if raw then string_body fuel raw triple quote (value ++ [BS; next]) t
                else
                  '(out, t) ← escape next t;
                  string_body fuel raw triple quote (value ++ out) t
            end
      end
  end.

(** Every round of the loop takes a character, so the fuel is the length.

    Source: crates/dagayn-postproc/src/manifest_bridges/native/pyliteral.rs 318-398 [Parser::string_literal]. *)
Definition string_literal (raw : bool) (p : Parser) : option (list N * Parser) :=
  match rest p with
  | [] => None
  | quote :: t =>
      let triple := two_quotes quote t in
      let t := if triple then drop 2 t else t in
      '(value, t) ← string_body (S (length t)) raw triple quote [] t;
      Some (value, mkParser t (depth p))
  end.

Definition string_prefix (prefix : list N) : bool :=
  bool_decide (prefix ∈ [chars "r"; chars "u"; chars "b"; chars "br"; chars "rb"]).

(** The ASCII letters at the start. *)
Fixpoint take_letters (t : list N) : list N * list N :=
  match t with
  | c :: t' =>
      if is_ascii_alphabetic c then let '(l, r) := take_letters t' in (c :: l, r) else ([], t)
  | [] => ([], [])
  end.

(** The loop over adjacent literals; [fuel] bounds its rounds.

    Source: crates/dagayn-postproc/src/manifest_bridges/native/pyliteral.rs 285-316 [Parser::strings]. *)
Fixpoint strings_from (fuel : nat) (joined : list N) (bytes : option bool) (p : Parser)
    : option (literal * Parser) :=
  match fuel with
  | 0 => None
  | S fuel =>
      let p := skip p in
      let '(letters, t) := take_letters (rest p) in
      let prefix := to_ascii_lowercase <$> letters in
      if negb match t with c :: _ => is_quote c | [] => false end then
        match bytes with
        | None => None
        | Some true => Some (Bytes, p)
        | Some false => Some (Str joined, p)
        end
      else if negb (bool_decide (prefix = []) || string_prefix prefix) then None
      else
        let is_bytes := bool_decide (98%N ∈ prefix) in
        if match bytes with Some known => negb (Bool.eqb known is_bytes) | None => false end
        then None
        else
          '(value, p) ← string_literal (bool_decide (114%N ∈ prefix)) (mkParser t (depth p));
          strings_from fuel (joined ++ value) (Some is_bytes) p
  end.

(** Every round takes a quote, so the fuel is the length.

    Source: crates/dagayn-postproc/src/manifest_bridges/native/pyliteral.rs 285-316 [Parser::strings]. *)
Definition strings (joined : list N) (p : Parser) : option (literal * Parser) :=
  strings_from (S (length (rest p))) joined None p.

(** The characters of a word and what follows.

    Source: crates/dagayn-postproc/src/manifest_bridges/native/pyliteral.rs 261-266 [Parser::word]. *)
Fixpoint take_word (t : list N) : list N * list N :=
  match t with
  | c :: t' =>
      if is_alphanumeric c || (c =? 95)%N
      then let '(w, r) := take_word t' in (c :: w, r) else ([], t)
  | [] => ([], [])
  end.

(** Source: crates/dagayn-postproc/src/manifest_bridges/native/pyliteral.rs 259-283 [Parser::word]. *)
Definition word (p : Parser) : option (literal * Parser) :=
  let '(w, t) := take_word (rest p) in
  let p' := mkParser t (depth p) in
  if bool_decide (w = chars "True") then Some (Bool true, p')
  else if bool_decide (w = chars "False") then Some (Bool false, p')
  else if bool_decide (w = chars "None") then Some (None_, p')
  else if match t with c :: _ => is_quote c | [] => false end then
    if string_prefix (to_ascii_lowercase <$> w) then strings [] p else None
  else None.

(** ** Values *)

Definition open_bracket (p : Parser) : Parser := mkParser (drop 1 (rest p)) (S (depth p)).
Definition close_bracket (p : Parser) : Parser := mkParser (rest p) (pred (depth p)).

(** A value, with the functions it calls: [value] (lines 127-153), [sequence]
    (155-176) and [braces] (178-222), whose two loops are functions of their own.

    Source: crates/dagayn-postproc/src/manifest_bridges/native/pyliteral.rs 127-222 [Parser::value]. *)
Fixpoint value (fuel : nat) (p : Parser) : res literal :=
  match fuel with
  | 0 => Fuel
  | S fuel =>
      let p := skip p in
      match rest p with
      | [] => Error
      | ch :: t =>
          if (ch =? 123)%N then braces fuel p
          else if (ch =? 91)%N then
            let! (r, p) := sequence fuel 93 (open_bracket p) [] false in Done (List (fst r)) p
          else if (ch =? 40)%N then
            let! (r, p) := sequence fuel 41 (open_bracket p) [] false in
            match r with
            | ([item], false) => Done item p
            | (items, _) => Done (Tuple items) p
            end
          else if (ch =? 45)%N || (ch =? 43)%N then
            let! (v, p) := value fuel (advance 1 p) in
            match v with Number => Done Number p | _ => Error end
          else if is_ascii_digit ch || (ch =? 46)%N then of_option (number p)
          else if is_alphabetic ch || (ch =? 95)%N then of_option (word p)
          else if is_quote ch then of_option (strings [] p)
          else Error
      end
  end
(** The loop of [sequence]: the items so far and whether a comma trails them. *)
with sequence (fuel : nat) (close : N) (p : Parser) (items : list literal)
    (trailing_comma : bool) : res (list literal * bool) :=
  match fuel with
  | 0 => Fuel
  | S fuel =>
      let '(closed, p) := eat close p in
      if closed then Done (items, trailing_comma) (close_bracket p)
      else
        let! (item, p) := value fuel p in
        let items := items ++ [item] in
        let '(comma, p) := eat 44 p in
        if comma then sequence fuel close p items true
        else
          let '(closed, p) := eat close p in
          if closed then Done (items, false) (close_bracket p) else Error
  end
(** A display in braces: a dict or a set. *)
with braces (fuel : nat) (p : Parser) : res literal :=
  match fuel with
  | 0 => Fuel
  | S fuel =>
      let '(closed, p) := eat 125 (open_bracket p) in
      if closed then Done (Dict []) (close_bracket p)
      else
        let! (first, p) := value fuel p in
        let '(colon, p) := eat 58 p in
        if colon then
          let! (v, p) := value fuel p in
          dict_items fuel p [(first, v)]
        else set_items fuel p [first]
  end
(** The entries of a dict after the first. *)
with dict_items (fuel : nat) (p : Parser) (items : list (literal * literal)) : res literal :=
  match fuel with
  | 0 => Fuel
  | S fuel =>
      let '(comma, p) := eat 44 p in
      let '(closed, p) := eat 125 p in
      if closed then Done (Dict items) (close_bracket p)
      else if negb comma then Error
      else
        let! (key, p) := value fuel p in
        let '(colon, p) := eat 58 p in
        if negb colon then Error
        else
          let! (v, p) := value fuel p in
          dict_items fuel p (items ++ [(key, v)])
  end
(** The items of a set after the first. *)
with set_items (fuel : nat) (p : Parser) (items : list literal) : res literal :=
  match fuel with
  | 0 => Fuel
  | S fuel =>
      let '(comma, p) := eat 44 p in
      let '(closed, p) := eat 125 p in
      if closed then Done (Set_ items) (close_bracket p)
      else if negb comma then Error
      else
        let! (item, p) := value fuel p in
        set_items fuel p (items ++ [item])
  end.

(** The loop of [expression_list].

    Source: crates/dagayn-postproc/src/manifest_bridges/native/pyliteral.rs 116-124 [Parser::expression_list]. *)
Fixpoint tuple_items (fuel : nat) (p : Parser) (items : list literal) : res literal :=
  match fuel with
  | 0 => Fuel
  | S fuel =>
      let '(comma, p) := eat 44 p in
      if negb comma then Done (Tuple items) p
      else
        let p := skip p in
        match peek p with
        | None => Done (Tuple items) p
        | Some ch =>
            if (ch =? LF)%N then Done (Tuple items) p
            else let! (v, p) := value fuel p in tuple_items fuel p (items ++ [v])
        end
  end.

(** Source: crates/dagayn-postproc/src/manifest_bridges/native/pyliteral.rs 109-125 [Parser::expression_list]. *)
Definition expression_list (fuel : nat) (p : Parser) : res literal :=
  let! (first, p) := value fuel p in
  let p := skip p in
  if negb (bool_decide (peek p = Some 44%N)) then Done first p
  else tuple_items fuel p [first].

Definition is_blank (ch : N) : bool := (ch =? 32)%N || (ch =? 9)%N || (ch =? 13)%N || (ch =? 12)%N.

(** A line with something on it but a comment.

    Source: crates/dagayn-postproc/src/manifest_bridges/native/pyliteral.rs 50-55 [literal_eval]. *)
Definition has_code (line : list N) : bool :=
  match find_first (λ ch, negb (is_blank ch)) line with
  | Some ch => negb (ch =? 35)%N
  | None => false
  end.

(** Source: crates/dagayn-postproc/src/manifest_bridges/native/pyliteral.rs 41-63 [literal_eval]. *)
Definition literal_eval_fuel (fuel : nat) (source : list N) : res literal :=
  let source := ManifestText.trim_start_matches (λ c, (c =? 32)%N || (c =? 9)%N) source in
  match find_first has_code (ManifestText.split LF source) with
  | None => Error
  | Some first_code =>
      if match first_code with c :: _ => (c =? 32)%N || (c =? 9)%N | [] => false end then Error
      else
        let p := skip_blank true (mkParser source 0) in
        let! (v, p) := expression_list fuel p in
        let p := skip_blank true p in
        if bool_decide (rest p = []) then Done v p else Error
  end.

(** Enough fuel for any source of this length: see [value_total]. *)
Definition parse_fuel (n : nat) : nat := 2 * n + 3.

(** Source: crates/dagayn-postproc/src/manifest_bridges/native/pyliteral.rs 41-63 [literal_eval]. *)
Definition literal_eval (source : list N) : option literal :=
  match literal_eval_fuel (parse_fuel (length source)) source with
  | Done v _ => Some v
  | _ => None
  end.


(** ** Specification: printing *)

Definition render_char (c : N) : list N :=
  if (c =? BS)%N || is_quote c then [BS; c] else if (c =? LF)%N then [BS; 110%N] else [c].

(** A literal as Python source, with a comma after every item. *)
Fixpoint render (v : literal) : list N :=
  let items := (fix go l := match l with [] => [] | v :: l => render v ++ [44%N] ++ go l end) in
  match v with
  | None_ => chars "None"
  | Bool true => chars "True"
  | Bool false => chars "False"
  | Number => [48%N]
  | Str s => [SQ] ++ (s ≫= render_char) ++ [SQ]
  | Bytes => [98%N; SQ; SQ]
  | List l => [91%N] ++ items l ++ [93%N]
  | Tuple l => [40%N] ++ items l ++ [41%N]
  | Set_ l => [123%N] ++ items l ++ [125%N]
  | Dict l =>
      [123%N] ++ (fix go l := match l with
                              | [] => []
                              | (k, v) :: l => render k ++ [58%N] ++ render v ++ [44%N] ++ go l
                              end) l ++ [125%N]
  end.

Definition render_items (l : list literal) : list N := l ≫= λ v, render v ++ [44%N].
Definition render_pairs (l : list (literal * literal)) : list N :=
  l ≫= λ '(k, v), render k ++ [58%N] ++ render v ++ [44%N].

(** An empty set has no literal. *)
Fixpoint printable (v : literal) : bool :=
  match v with
  | List l | Tuple l => forallb printable l
  | Set_ l => negb (bool_decide (length l = 0)) && forallb printable l
  | Dict l => forallb (λ '(k, v), printable k && printable v) l
  | _ => true
  end.

(** ** Every function takes what it reads *)

Definition len (p : Parser) : nat := length (rest p).

Lemma skip_chars_length nl b t : length (skip_chars nl b t) <= length t.
Proof.
  remember (length t) as n eqn:Hn. assert (H : length t <= n) by lia. clear Hn.
  revert b t H. induction n as [|n IH]; intros b t H; destruct t as [|c t]; simpl in *; try lia.
  repeat case_if; simpl; try lia; try (etrans; [apply IH|]; lia).
  destruct t as [|d t]; simpl in *; [lia|]. case_if; simpl; [|lia]. etrans; [apply IH|]; lia.
Qed.

Lemma skip_len p : len (skip p) <= len p.
Proof. apply skip_chars_length. Qed.

Lemma eat_len ch p b p' : eat ch p = (b, p') → len p' <= len p ∧ (b = true → len p' < len p).
Proof.
  unfold eat. pose proof (skip_len p) as Hs. unfold len in *.
  destruct (bool_decide (peek (skip p) = Some ch)) eqn:E; intros [= <- <-]; bool_to_prop.
  - unfold peek in E. unfold advance. cbn [rest]. destruct (rest (skip p)) as [|x r]; [done|]. simpl in *. rewrite drop_0. lia.
  - done.
Qed.

Lemma number_token_app taken t token r :
  number_token taken t = (token, r) → token ++ r = taken ++ t.
Proof.
  revert taken. induction t as [|c t IH]; intros taken; cbn [number_token].
  { by intros [= <- <-]. }
  case_if; [|by intros [= <- <-]]. intros H%IH. by rewrite H, <-app_assoc.
Qed.

Lemma number_token_grows taken t : length (snd (number_token taken t)) <= length t.
Proof.
  revert taken. induction t as [|c t IH]; intros taken; cbn [number_token]; [done|].
  case_if; simpl; [|done]. etrans; [apply IH|]. lia.
Qed.

Lemma number_len c t d v p' :
  is_ascii_digit c || (c =? 46)%N = true → number (mkParser (c :: t) d) = Some (v, p') →
  length (rest p') < S (length t).
Proof.
  intros Hc. unfold number. cbn [rest number_token depth].
  assert (Ha : is_ascii_alphanumeric c || (c =? 46)%N = true).
  { unfold is_ascii_alphanumeric. apply orb_true_iff in Hc as [->| ->]; by rewrite ?orb_true_r. }
  rewrite Ha. cbn [orb].
  pose proof (number_token_grows ([] ++ [c]) t) as H.
  destruct (number_token ([] ++ [c]) t) as [token r]. case_if; [|done].
  intros [= _ <-]. simpl in *. lia.
Qed.

Lemma octal_digits_length n code t : length (snd (octal_digits n code t)) <= length t.
Proof.
  revert code t. induction n as [|n IH]; intros code [|c t]; simpl; try lia.
  destruct (to_digit 8 c); simpl; [|lia]. etrans; [apply IH|]. lia.
Qed.

Lemma escape_length next t out t' : escape next t = Some (out, t') → length t' <= length t.
Proof.
  unfold escape. repeat (case_if; [by intros [= _ <-]|]). case_if.
  { destruct (to_digit 8 next) as [n|]; cbn [mbind option_bind]; [|done].
    pose proof (octal_digits_length 2 n t) as Ho. revert Ho.
    destruct (octal_digits 2 n t) as [code r]. intros Ho.
    destruct (from_u32 code); simpl; [|done]. intros [= _ <-]. exact Ho. }
  case_if.
  { case_if; [done|]. destruct (hex_value _); simpl; [|done].
    destruct (from_u32 _); simpl; [|done]. intros [= _ <-]. rewrite length_drop. lia. }
  case_if; [done|]. by intros [= _ <-].
Qed.

Lemma string_body_spec fuel raw triple quote value t :
  length t < fuel →
  (∀ fuel', length t < fuel' →
     string_body fuel' raw triple quote value t = string_body fuel raw triple quote value t) ∧
  (∀ out t', string_body fuel raw triple quote value t = Some (out, t') → length t' <= length t).
Proof.
  revert value t. induction fuel as [|fuel IH]; intros value t Hf; [lia|].
  assert (Hdrop : length (drop 2 t) <= length t) by (rewrite length_drop; lia).
  split.
  - intros [|fuel'] Hf'; [lia|]. destruct t as [|c t]; [done|]. simpl in *.
    do 3 (case_if; [done|]). case_if; [apply IH; lia|].
    destruct t as [|d t]; [done|]. simpl in *. case_if; [apply IH; lia|].
    destruct (escape d t) as [[out t']|] eqn:Eo; simpl; [|done].
    apply escape_length in Eo. apply IH; lia.
  - intros out t'. destruct t as [|c t]; [done|]. simpl in *.
    case_if; [intros [= _ <-]; lia|].
    case_if; [intros [= _ <-]; rewrite length_drop; lia|].
    case_if; [done|]. case_if; [intros H; apply IH in H; lia|].
    destruct t as [|d t]; [done|]. simpl in *. case_if; [intros H; apply IH in H; lia|].
    destruct (escape d t) as [[o t1]|] eqn:Eo; simpl; [|done].
    apply escape_length in Eo. intros H. apply IH in H; lia.
Qed.

Lemma string_literal_len raw p v p' :
  string_literal raw p = Some (v, p') → len p' < len p.
Proof.
  unfold string_literal, len. destruct (rest p) as [|quote t]; [done|]. cbn zeta.
  set (u := if two_quotes quote t then drop 2 t else t).
  assert (Hu : length u <= length t) by (unfold u; case_if; rewrite ?length_drop; lia).
  destruct (string_body (S (length u)) raw (two_quotes quote t) quote [] u) as [[o t']|] eqn:E;
    [|done].
  simpl. intros [= _ <-]. simpl. apply string_body_spec in E; lia.
Qed.

Lemma take_letters_length t : length (snd (take_letters t)) <= length t.
Proof.
  induction t as [|c t IH]; simpl; [lia|]. case_if; simpl; [|lia].
  destruct (take_letters t); simpl in *. lia.
Qed.

Lemma strings_from_spec fuel joined bytes p :
  len p < fuel →
  (∀ fuel', len p < fuel' →
     strings_from fuel' joined bytes p = strings_from fuel joined bytes p) ∧
  (∀ v p', strings_from fuel joined bytes p = Some (v, p') →
     len p' <= len p ∧ (bytes = None → len p' < len p)).
Proof.
  revert joined bytes p. induction fuel as [|fuel IH]; intros joined bytes p Hf; [lia|].
  pose proof (skip_len p) as Hs. pose proof (take_letters_length (rest (skip p))) as Hl.
  split.
  - intros [|fuel'] Hf'; [lia|]. cbn [strings_from].
    revert Hl. destruct (take_letters (rest (skip p))) as [letters t]. intros Hl. cbn [snd] in Hl.
    case_if; [done|]. case_if; [done|]. cbv zeta.
    match goal with |- (if ?b then _ else _) = _ => destruct b; [done|] end.
    destruct (string_literal _ _) as [[value p1]|] eqn:Eo; simpl; [|done].
    apply string_literal_len in Eo. unfold len in *. cbn [rest] in Eo. apply IH; unfold len; lia.
  - intros v p'. cbn [strings_from].
    revert Hl. destruct (take_letters (rest (skip p))) as [letters t]. intros Hl. cbn [snd] in Hl.
    case_if.
    { destruct bytes as [[|]|]; [| |done]; intros [= _ <-]; by split. }
    case_if; [done|]. cbv zeta.
    match goal with |- (if ?b then _ else _) = _ → _ => destruct b; [done|] end.
    destruct (string_literal _ _) as [[value p1]|] eqn:Eo; simpl; [|done].
    apply string_literal_len in Eo. unfold len in *. cbn [rest] in Eo.
    intros H. apply IH in H; unfold len in *; [|lia]. split; [|intros _]; lia.
Qed.

Lemma strings_len joined p v p' : strings joined p = Some (v, p') → len p' < len p.
Proof.
  intros H. apply strings_from_spec in H as [_ H]; [by apply H|]. unfold len. lia.
Qed.

Lemma take_word_length t : length (snd (take_word t)) <= length t.
Proof.
  induction t as [|c t IH]; simpl; [lia|]. case_if; simpl; [|lia].
  destruct (take_word t); simpl in *. lia.
Qed.

Lemma word_len c t d v p' :
  is_alphabetic c || (c =? 95)%N = true → word (mkParser (c :: t) d) = Some (v, p') →
  length (rest p') < S (length t).
Proof.
  intros Hc. unfold word. cbn [rest take_word depth].
  assert (Ha : is_alphanumeric c || (c =? 95)%N = true).
  { unfold is_alphanumeric. apply orb_true_iff in Hc as [->| ->]; by rewrite ?orb_true_r. }
  rewrite Ha. pose proof (take_word_length t) as Hl.
  destruct (take_word t) as [w r]. cbn [snd] in Hl.
  repeat (case_if; [intros [= _ <-]; cbn [rest]; lia|]).
  case_if; [|done]. case_if; [|done].
  intros H. apply strings_len in H. exact H.
Qed.

(** ** Fuel *)

(** Not out of fuel, and a value leaves fewer than [n] characters. *)
Definition takes {A} (n : nat) (r : res A) : Prop :=
  match r with Fuel => False | Error => True | Done _ p => len p < n end.

Lemma takes_bind {A B} n m (r : res A) (f : A → Parser → res B) :
  takes m r → (∀ a p, len p < m → takes n (f a p)) → takes n (bind r f).
Proof. destruct r; simpl; auto. Qed.

Lemma takes_weaken {A} n m (r : res A) : takes n r → n <= m → takes m r.
Proof. destruct r; simpl; auto. lia. Qed.

Lemma takes_of_option {A} n (o : option (A * Parser)) :
  (∀ a p, o = Some (a, p) → len p < n) → takes n (of_option o).
Proof. destruct o as [[a p]|]; simpl; eauto. Qed.

Definition fuel_ok (f : nat) : Prop :=
  (∀ p, 2 * len p + 1 <= f → takes (len p) (value f p)) ∧
  (∀ close p items tc, 2 * len p + 2 <= f → takes (len p) (sequence f close p items tc)) ∧
  (∀ p, 1 <= len p → 2 * len p <= f → takes (len p) (braces f p)) ∧
  (∀ p items, 2 * len p + 2 <= f → takes (S (len p)) (dict_items f p items)) ∧
  (∀ p items, 2 * len p + 2 <= f → takes (S (len p)) (set_items f p items)).

Lemma len_close p : len (close_bracket p) = len p.
Proof. done. Qed.

Lemma len_open p : len (open_bracket p) = len p - 1.
Proof. unfold len, open_bracket. cbn [rest]. by rewrite length_drop. Qed.

Lemma len_advance n p : len (advance n p) = len p - n.
Proof. unfold len, advance. cbn [rest]. by rewrite length_drop. Qed.

Ltac eat_step :=
  match goal with
  | |- context [eat ?c ?p] =>
      let b := fresh "b" in let q := fresh "q" in let E := fresh "Eat" in
      let H := fresh "Heat" in
      destruct (eat c p) as [b q] eqn:E; apply eat_len in E as [E H];
      destruct b; [specialize (H eq_refl)|clear H]
  end.

Lemma fuel_ok_all f : fuel_ok f.
Proof.
  induction f as [|f (Hv & Hs & Hb & Hd & Hset)].
  { split; [|split; [|split; [|split]]]; intros; exfalso; lia. }
  split; [|split; [|split; [|split]]].
  - intros p Hf. cbn [value]. pose proof (skip_len p) as Hsk.
    destruct (rest (skip p)) as [|c t] eqn:Er; [done|].
    assert (Hlen : len (skip p) = S (length t)) by (unfold len; by rewrite Er).
    assert (Hp : skip p = mkParser (c :: t) (depth (skip p))).
    { rewrite <-Er. by destruct (skip p). }
    case_if; [eapply takes_weaken; [apply Hb|]; lia|].
    case_if.
    { eapply takes_bind; [apply Hs; rewrite len_open; lia|]. rewrite len_open.
      intros a q ?. simpl. lia. }
    case_if.
    { eapply takes_bind; [apply Hs; rewrite len_open; lia|]. rewrite len_open.
      intros [items tc] q ?. repeat case_match; simpl; lia. }
    case_if.
    { eapply takes_bind; [apply Hv; rewrite len_advance; lia|]. rewrite len_advance.
      intros v q ?. destruct v; simpl; try done. lia. }
    case_if.
    { apply takes_of_option. intros v q Hq. rewrite Hp in Hq. apply number_len in Hq; [|done].
      unfold len in *. lia. }
    case_if.
    { apply takes_of_option. intros v q Hq. rewrite Hp in Hq. apply word_len in Hq; [|done].
      unfold len in *. lia. }
    case_if; [|done].
    apply takes_of_option. intros v q Hq. apply strings_len in Hq. lia.
  - intros close p items tc Hf. cbn [sequence]. eat_step; [simpl; rewrite len_close; lia|].
    eapply takes_bind; [apply Hv; lia|]. intros item r Hr. cbv zeta. eat_step.
    + eapply takes_weaken; [apply Hs|]; lia.
    + eat_step; [simpl; rewrite len_close; lia|done].
  - intros p H1 Hf. cbn [braces]. pose proof (len_open p) as Ho.
    eat_step; [simpl; rewrite len_close; lia|].
    eapply takes_bind; [apply Hv; lia|]. intros first r Hr. eat_step.
    + eapply takes_bind; [apply Hv; lia|]. intros v u Hu.
      eapply takes_weaken; [apply Hd|]; lia.
    + eapply takes_weaken; [apply Hset|]; lia.
  - intros p items Hf. cbn [dict_items].
    eat_step; eat_step; try (simpl; rewrite len_close; lia); [|done]. cbn [negb].
    eapply takes_bind; [apply Hv; lia|]. intros key r Hr. eat_step; [|done]. cbn [negb].
    eapply takes_bind; [apply Hv; lia|]. intros v u Hu.
    eapply takes_weaken; [apply Hd|]; lia.
  - intros p items Hf. cbn [set_items].
    eat_step; eat_step; try (simpl; rewrite len_close; lia); [|done]. cbn [negb].
    eapply takes_bind; [apply Hv; lia|]. intros item r Hr.
    eapply takes_weaken; [apply Hset|]; lia.
Qed.

Lemma tuple_items_takes f p items :
  2 * len p + 2 <= f → takes (S (len p)) (tuple_items f p items).
Proof.
  revert p items. induction f as [|f IH]; intros p items Hf; [lia|]. cbn [tuple_items].
  eat_step; cbn [negb]; [|simpl; lia].
  pose proof (skip_len q). destruct (peek (skip q)); [|simpl; lia].
  case_if; [simpl; lia|].
  eapply takes_bind; [apply fuel_ok_all; lia|]. intros v r Hr.
  eapply takes_weaken; [apply IH|]; lia.
Qed.

(** More fuel does not change a result. *)
Definition agree {A} (r' r : res A) : Prop := r ≠ Fuel → r' = r.

Lemma agree_bind {A B} (r r' : res A) (f f' : A → Parser → res B) :
  agree r' r → (∀ a p, agree (f' a p) (f a p)) → agree (bind r' f') (bind r f).
Proof.
  intros Hr Hf Hne. unfold agree in *. destruct r as [| |a p]; [done| |]; rewrite Hr by done; simpl.
  - done.
  - by apply Hf.
Qed.

Lemma agree_refl {A} (r : res A) : agree r r.
Proof. done. Qed.

Definition more_ok (f f' : nat) : Prop :=
  (∀ p, agree (value f' p) (value f p)) ∧
  (∀ close p items tc, agree (sequence f' close p items tc) (sequence f close p items tc)) ∧
  (∀ p, agree (braces f' p) (braces f p)) ∧
  (∀ p items, agree (dict_items f' p items) (dict_items f p items)) ∧
  (∀ p items, agree (set_items f' p items) (set_items f p items)).

Lemma more_ok_all f f' : f <= f' → more_ok f f'.
Proof.
  revert f'. induction f as [|f IH]; intros f' Hf.
  { split; [|split; [|split; [|split]]]; intros; intros Hne; by destruct Hne. }
  destruct f' as [|f']; [lia|].
  destruct (IH f' ltac:(lia)) as (Hv & Hs & Hb & Hd & Hset).
  split; [|split; [|split; [|split]]].
  - intros p. cbn [value]. destruct (rest (skip p)); [apply agree_refl|].
    repeat (case_if; [first [apply Hb | apply agree_refl | apply agree_bind;
                             [first [apply Hs|apply Hv]|intros; apply agree_refl]]|]).
    apply agree_refl.
  - intros. cbn [sequence]. destruct (eat close p) as [[] q]; [apply agree_refl|].
    apply agree_bind; [apply Hv|]. intros item r. cbv zeta.
    destruct (eat 44 r) as [[] u]; [apply Hs|apply agree_refl].
  - intros. cbn [braces]. destruct (eat 125 (open_bracket p)) as [[] q]; [apply agree_refl|].
    apply agree_bind; [apply Hv|]. intros first r.
    destruct (eat 58 r) as [[] u]; [|apply Hset].
    apply agree_bind; [apply Hv|]. intros. apply Hd.
  - intros. cbn [dict_items]. destruct (eat 44 p) as [[] q], (eat 125 q) as [[] r];
      try apply agree_refl. cbn [negb].
    apply agree_bind; [apply Hv|]. intros key u.
    destruct (eat 58 u) as [[] w]; [|apply agree_refl]. cbn [negb].
    apply agree_bind; [apply Hv|]. intros. apply Hd.
  - intros. cbn [set_items]. destruct (eat 44 p) as [[] q], (eat 125 q) as [[] r];
      try apply agree_refl. cbn [negb].
    apply agree_bind; [apply Hv|]. intros. apply Hset.
Qed.

Lemma tuple_items_more f f' p items :
  f <= f' → agree (tuple_items f' p items) (tuple_items f p items).
Proof.
  revert f' p items. induction f as [|f IH]; intros f' p items Hf; [intros Hne; by destruct Hne|].
  destruct f' as [|f']; [lia|]. cbn [tuple_items]. destruct (eat 44 p) as [[] q]; [|apply agree_refl].
  cbn [negb]. destruct (peek (skip q)); [|apply agree_refl].
  case_if; [apply agree_refl|]. apply agree_bind; [apply more_ok_all; lia|].
  intros. apply IH. lia.
Qed.

Lemma expression_list_more f f' p : f <= f' → agree (expression_list f' p) (expression_list f p).
Proof.
  intros Hf. apply agree_bind; [by apply more_ok_all|]. intros first q. cbv zeta.
  case_if; [apply agree_refl|by apply tuple_items_more].
Qed.

Lemma expression_list_takes f p : 2 * len p + 1 <= f → takes (len p) (expression_list f p).
Proof.
  intros Hf. eapply takes_bind; [by apply fuel_ok_all|]. intros first q Hq. cbv zeta.
  pose proof (skip_len q). case_if; [simpl; lia|].
  eapply takes_weaken; [apply tuple_items_takes|]; lia.
Qed.

Lemma trim_start_length f t : length (ManifestText.trim_start_matches f t) <= length t.
Proof. induction t as [|c t IH]; simpl; [done|]. case_if; simpl; lia. Qed.

(** ** Reading back what is printed *)

(** A character that no skipping takes. *)
Definition solid (c : N) : bool :=
  negb (is_blank c || (c =? LF)%N || (c =? 35)%N || (c =? BS)%N).

(** What may follow a printed value: nothing, a comma or a colon. *)
Definition follows (k : list N) : Prop :=
  k = [] ∨ ∃ c k', k = c :: k' ∧ (c = 44%N ∨ c = 58%N).

Lemma skip_solid c t d : solid c = true → skip (mkParser (c :: t) d) = mkParser (c :: t) d.
Proof.
  unfold solid, is_blank. rewrite negb_true_iff, !orb_false_iff. intros ((((((H1 & H2) & H3) & H4) & H5) & H6) & H7).
  unfold skip, skip_blank. cbn [rest depth skip_chars]. by rewrite H1, H2, H3, H4, H5, H6, H7.
Qed.

Lemma skip_nil d : skip (mkParser [] d) = mkParser [] d.
Proof. done. Qed.

Lemma eat_hit c t d : solid c = true → eat c (mkParser (c :: t) d) = (true, mkParser t d).
Proof.
  intros Hc. unfold eat. rewrite skip_solid by done. unfold peek, advance. cbn [rest head depth].
  by rewrite bool_decide_eq_true_2.
Qed.

Lemma eat_miss c c' t d :
  solid c' = true → c' ≠ c → eat c (mkParser (c' :: t) d) = (false, mkParser (c' :: t) d).
Proof.
  intros Hc Hne. unfold eat. rewrite skip_solid by done. unfold peek. cbn [rest head].
  rewrite bool_decide_eq_false_2; [done|]. by intros [= ?].
Qed.

(** The first character of a printed value. *)
Lemma render_head v : ∃ c t, render v = c :: t ∧ solid c = true ∧
  c ≠ 93%N ∧ c ≠ 41%N ∧ c ≠ 125%N ∧ c ≠ 44%N ∧ c ≠ 32%N ∧ c ≠ 9%N.
Proof. destruct v as [|[|]| | | | | | |]; simpl; repeat esplit; by vm_compute. Qed.

Lemma render_length v : 1 <= length (render v).
Proof. destruct (render_head v) as (c & t & -> & _). simpl. lia. Qed.

Lemma render_char_head c : ∃ d t, render_char c = d :: t ∧ d ≠ SQ.
Proof.
  unfold render_char, is_quote. case_if; [by repeat esplit|]. case_if; [by repeat esplit|].
  bool_to_prop. repeat esplit. done.
Qed.

Lemma string_body_render s value k fuel :
  length ((s ≫= render_char) ++ SQ :: k) < fuel →
  string_body fuel false false SQ value ((s ≫= render_char) ++ SQ :: k) = Some (value ++ s, k).
Proof.
  revert value fuel. induction s as [|c s IH]; intros value fuel Hf.
  { destruct fuel as [|fuel]; [lia|]. simpl. by rewrite app_nil_r. }
  rewrite bind_cons, <-app_assoc in *. unfold render_char in *.
  destruct ((c =? BS)%N || is_quote c) eqn:E1.
  - destruct fuel as [|fuel]; [lia|]. cbn [app string_body].
    replace (BS =? SQ)%N with false by done. replace (BS =? LF)%N with false by done.
    rewrite N.eqb_refl. cbn [andb negb].
    assert (Hesc : ∀ t, escape c t = Some ([c], t)).
    { intros t. unfold escape. unfold is_quote in E1. rewrite orb_true_iff, orb_true_iff, !N.eqb_eq in E1.
      by destruct E1 as [->|[->| ->]]. }
    rewrite Hesc. cbn [mbind option_bind]. cbn in Hf.
    rewrite IH by (simpl in *; lia). by rewrite <-app_assoc.
  - apply orb_false_iff in E1 as [E1 E2]. unfold is_quote in E2. apply orb_false_iff in E2 as [E2 E3].
    destruct (N.eqb_spec c LF) as [->|Hlf].
    + destruct fuel as [|fuel]; [lia|]. cbn [app string_body].
      replace (BS =? SQ)%N with false by done. replace (BS =? LF)%N with false by done.
      rewrite N.eqb_refl. cbn [andb negb].
      replace (escape 110 ((s ≫= render_char) ++ SQ :: k))
        with (Some ([LF], (s ≫= render_char) ++ SQ :: k)) by done.
      cbn [mbind option_bind].
      rewrite IH by (simpl in *; lia). by rewrite <-app_assoc.
    + destruct fuel as [|fuel]; [lia|]. cbn [app string_body].
      rewrite E1, E3, (proj2 (N.eqb_neq _ _) Hlf). cbn [andb negb].
      rewrite IH by (simpl in *; lia). by rewrite <-app_assoc.
Qed.

Lemma follows_skip k d : follows k → skip (mkParser k d) = mkParser k d.
Proof. intros [->|(c & k' & -> & [->| ->])]; done. Qed.

Lemma follows_stop k d joined known fuel :
  follows k →
  strings_from (S fuel) joined (Some known) (mkParser k d) =
  Some (if known then Bytes else Str joined, mkParser k d).
Proof.
  intros Hk. cbn [strings_from]. rewrite follows_skip by done.
  destruct Hk as [->|(c & k' & -> & [->| ->])]; cbn; by destruct known.
Qed.

Lemma strings_render s k d :
  follows k →
  strings [] (mkParser (SQ :: (s ≫= render_char) ++ SQ :: k) d) = Some (Str s, mkParser k d).
Proof.
  intros Hk. unfold strings. cbn [rest].
  remember (length (SQ :: (s ≫= render_char) ++ SQ :: k)) as n eqn:Hn. cbn [strings_from].
  rewrite skip_solid by done. cbn [rest take_letters]. replace (is_ascii_alphabetic SQ) with false by done.
  cbn [fmap list_fmap]. rewrite bool_decide_eq_true_2 by done. simpl negb. cbn match.
  rewrite !bool_decide_eq_false_2 by apply not_elem_of_nil.
  unfold string_literal. cbn [rest depth].
  assert (Ht : two_quotes SQ ((s ≫= render_char) ++ SQ :: k) = false).
  { destruct s as [|c s]; simpl.
    - destruct Hk as [->|(c & k' & -> & [->| ->])]; done.
    - destruct (render_char_head c) as (x & r & -> & Hx). simpl.
      rewrite (proj2 (N.eqb_neq _ _) Hx). by destruct ((r ++ _) ++ _). }
  rewrite Ht. rewrite string_body_render by lia. cbn [mbind option_bind].
  destruct n as [|n]; [done|]. by rewrite follows_stop.
Qed.

Lemma follows_comma k : follows (44%N :: k).
Proof. right. repeat esplit. by left. Qed.

Lemma follows_colon k : follows (58%N :: k).
Proof. right. repeat esplit. by right. Qed.

(** Scalars. *)
Lemma follows_word w k :
  follows k → forallb (λ c, is_ascii_alphabetic c) w = true → take_word (w ++ k) = (w, k).
Proof.
  intros Hk Hw. induction w as [|c w IH]; simpl.
  { destruct Hk as [->|(c & k' & -> & [->| ->])]; done. }
  simpl in Hw. apply andb_true_iff in Hw as [Hc Hw]. rewrite IH by done.
  unfold is_alphanumeric, is_alphabetic.
  assert (Hlt : (c <? 128)%N = true).
  { apply N.ltb_lt. unfold is_ascii_alphabetic, is_ascii_uppercase, is_ascii_lowercase in Hc.
    rewrite orb_true_iff, !andb_true_iff, !N.leb_le in Hc. lia. }
  by rewrite Hlt, Hc.
Qed.

Lemma number_zero k d : follows k → number (mkParser (48%N :: k) d) = Some (Number, mkParser k d).
Proof. intros [->|(c & k' & -> & [->| ->])]; reflexivity. Qed.

Lemma bytes_empty k d :
  follows k → strings [] (mkParser (98%N :: SQ :: SQ :: k) d) = Some (Bytes, mkParser k d).
Proof. intros [->|(c & k' & -> & [->| ->])]; reflexivity. Qed.

Lemma word_render w v k d :
  follows k → forallb is_ascii_alphabetic w = true →
  (w, v) ∈ [(chars "True", Bool true); (chars "False", Bool false); (chars "None", None_)] →
  word (mkParser (w ++ k) d) = Some (v, mkParser k d).
Proof.
  intros Hk Hw Hin. unfold word. cbn [rest depth]. rewrite follows_word by done.
  rewrite !elem_of_cons in Hin.
  destruct Hin as [[= -> ->]|[[= -> ->]|[[= -> ->]|H]]]; try done. by apply not_elem_of_nil in H.
Qed.

Definition item_fuel (t : list N) : nat := 2 * length t + 2.

(** What each function reads back, for one amount of fuel. *)
Definition reads_back (f : nat) : Prop :=
  (∀ v k d, printable v = true → follows k → 2 * length (render v ++ k) + 1 <= f →
     value f (mkParser (render v ++ k) d) = Done v (mkParser k d)) ∧
  (∀ close vs k d acc tc, (close = 93 ∨ close = 41)%N → forallb printable vs = true →
     item_fuel (render_items vs ++ close :: k) <= f →
     sequence f close (mkParser (render_items vs ++ close :: k) d) acc tc =
     Done (acc ++ vs, match vs with [] => tc | _ => true end) (mkParser k (pred d))) ∧
  (∀ vs k d acc, forallb printable vs = true →
     item_fuel (44%N :: render_items vs ++ 125%N :: k) <= f →
     set_items f (mkParser (44%N :: render_items vs ++ 125%N :: k) d) acc =
     Done (Set_ (acc ++ vs)) (mkParser k (pred d))) ∧
  (∀ vs k d acc, forallb (λ '(k, v), printable k && printable v) vs = true →
     item_fuel (44%N :: render_pairs vs ++ 125%N :: k) <= f →
     dict_items f (mkParser (44%N :: render_pairs vs ++ 125%N :: k) d) acc =
     Done (Dict (acc ++ vs)) (mkParser k (pred d))).

Lemma render_list_items l :
  (fix go l := match l with [] => [] | v :: l => render v ++ [44%N] ++ go l end) l = render_items l.
Proof. induction l as [|v l IH]; [done|]. rewrite IH. unfold render_items. rewrite bind_cons. by rewrite <-app_assoc. Qed.

Lemma render_dict_pairs l :
  (fix go l := match l with
               | [] => []
               | (k, v) :: l => render k ++ [58%N] ++ render v ++ [44%N] ++ go l
               end) l = render_pairs l.
Proof.
  induction l as [|[k v] l IH]; [done|]. rewrite IH. unfold render_pairs. rewrite bind_cons.
  by rewrite <-!app_assoc.
Qed.

Lemma render_items_cons v l : render_items (v :: l) = render v ++ 44%N :: render_items l.
Proof. unfold render_items. rewrite bind_cons. by rewrite <-app_assoc. Qed.

Lemma render_pairs_cons k v l :
  render_pairs ((k, v) :: l) = render k ++ 58%N :: render v ++ 44%N :: render_pairs l.
Proof. unfold render_pairs. rewrite bind_cons. by rewrite <-!app_assoc. Qed.

Lemma eat_render_miss c v k d :
  c = 93%N ∨ c = 41%N ∨ c = 125%N ∨ c = 44%N →
  eat c (mkParser (render v ++ k) d) = (false, mkParser (render v ++ k) d).
Proof.
  destruct (render_head v) as (x & t & -> & Hs & H1 & H2 & H3 & H4 & _). intros Hc.
  simpl. apply eat_miss; [done|]. destruct Hc as [->|[->|[->| ->]]]; done.
Qed.

Lemma reads_back_sequence f : reads_back f →
  ∀ close vs k d acc tc, (close = 93 ∨ close = 41)%N → forallb printable vs = true →
     item_fuel (render_items vs ++ close :: k) <= S f →
     sequence (S f) close (mkParser (render_items vs ++ close :: k) d) acc tc =
     Done (acc ++ vs, match vs with [] => tc | _ => true end) (mkParser k (pred d)).
Proof.
  intros (Hv & Hs & _) close vs k d acc tc Hc Hp Hf. cbn [sequence].
  destruct vs as [|v vs].
  { change (render_items []) with (@nil N). cbn [app]. rewrite eat_hit by (destruct Hc as [->| ->]; done). by rewrite app_nil_r. }
  simpl in Hp. apply andb_true_iff in Hp as [Hp Hps].
  rewrite render_items_cons, <-app_assoc in Hf |- *. cbn [app] in Hf |- *.
  rewrite eat_render_miss by tauto. unfold item_fuel in Hf.
  rewrite Hv by (done || apply follows_comma || lia). cbn [bind]. cbv zeta.
  rewrite eat_hit by done. rewrite length_app in Hf. simpl in Hf.
  rewrite Hs by (done || unfold item_fuel; lia). rewrite <-app_assoc. by destruct vs.
Qed.

Lemma reads_back_set f : reads_back f →
  ∀ vs k d acc, forallb printable vs = true →
     item_fuel (44%N :: render_items vs ++ 125%N :: k) <= S f →
     set_items (S f) (mkParser (44%N :: render_items vs ++ 125%N :: k) d) acc =
     Done (Set_ (acc ++ vs)) (mkParser k (pred d)).
Proof.
  intros (Hv & _ & Hs & _) vs k d acc Hp Hf. cbn [set_items].
  rewrite eat_hit by done. destruct vs as [|v vs].
  { change (render_items []) with (@nil N). cbn [app]. rewrite eat_hit by done. by rewrite app_nil_r. }
  simpl in Hp. apply andb_true_iff in Hp as [Hp Hps].
  rewrite render_items_cons, <-app_assoc in Hf |- *. cbn [app] in Hf |- *.
  rewrite eat_render_miss by tauto. unfold item_fuel in Hf. cbn [negb].
  simpl length in Hf. rewrite Hv by (done || apply follows_comma || lia). cbn [bind].
  rewrite length_app in Hf. simpl in Hf.
  rewrite Hs by (done || unfold item_fuel; simpl; lia). by rewrite <-app_assoc.
Qed.

Lemma reads_back_dict f : reads_back f →
  ∀ vs k d acc, forallb (λ '(k, v), printable k && printable v) vs = true →
     item_fuel (44%N :: render_pairs vs ++ 125%N :: k) <= S f →
     dict_items (S f) (mkParser (44%N :: render_pairs vs ++ 125%N :: k) d) acc =
     Done (Dict (acc ++ vs)) (mkParser k (pred d)).
Proof.
  intros (Hv & _ & _ & Hs) vs k d acc Hp Hf. cbn [dict_items].
  rewrite eat_hit by done. destruct vs as [|[key v] vs].
  { change (render_pairs []) with (@nil N). cbn [app]. rewrite eat_hit by done. by rewrite app_nil_r. }
  simpl in Hp. apply andb_true_iff in Hp as [Hp Hps]. apply andb_true_iff in Hp as [Hk Hp].
  rewrite render_pairs_cons in Hf |- *. rewrite <-!app_assoc in Hf |- *. cbn [app] in Hf |- *.
  rewrite <-!app_assoc in Hf |- *. cbn [app] in Hf |- *.
  rewrite eat_render_miss by tauto. unfold item_fuel in Hf. cbn [negb].
  simpl length in Hf. rewrite Hv by (done || apply follows_colon || lia). cbn [bind].
  rewrite eat_hit by done. cbn [negb]. rewrite length_app in Hf. simpl length in Hf.
  rewrite Hv by (done || apply follows_comma || lia). cbn [bind].
  rewrite length_app in Hf. simpl in Hf.
  rewrite Hs by (done || unfold item_fuel; simpl; lia). by rewrite <-app_assoc.
Qed.

Lemma open_cons c t d : open_bracket (mkParser (c :: t) d) = mkParser t (S d).
Proof. unfold open_bracket. cbn [rest depth]. simpl. by rewrite drop_0. Qed.

Lemma reads_back_braces f : reads_back f →
  (∀ vs k d, vs ≠ [] → forallb printable vs = true →
     2 * length (123%N :: render_items vs ++ 125%N :: k) <= S f →
     braces (S f) (mkParser (123%N :: render_items vs ++ 125%N :: k) d) =
     Done (Set_ vs) (mkParser k d)) ∧
  (∀ vs k d, forallb (λ '(k, v), printable k && printable v) vs = true →
     2 * length (123%N :: render_pairs vs ++ 125%N :: k) <= S f →
     braces (S f) (mkParser (123%N :: render_pairs vs ++ 125%N :: k) d) =
     Done (Dict vs) (mkParser k d)).
Proof.
  intros (Hv & _ & Hset & Hd). split.
  - intros [|v vs] k d Hne Hp Hf; [done|]. cbn [braces]. rewrite open_cons.
    simpl in Hp. apply andb_true_iff in Hp as [Hp Hps].
    rewrite render_items_cons, <-app_assoc in Hf |- *. cbn [app] in Hf |- *.
    rewrite eat_render_miss by tauto. simpl length in Hf.
    rewrite Hv by (done || apply follows_comma || lia). cbn [bind].
    rewrite eat_miss by done. rewrite length_app in Hf. pose proof (render_length v). simpl in Hf.
    by rewrite Hset by (done || unfold item_fuel; simpl; lia).
  - intros [|[key v] vs] k d Hp Hf; cbn [braces]; rewrite open_cons.
    { change (render_pairs []) with (@nil N). cbn [app]. by rewrite eat_hit. }
    simpl in Hp. apply andb_true_iff in Hp as [Hp Hps]. apply andb_true_iff in Hp as [Hk Hp].
    rewrite render_pairs_cons in Hf |- *. rewrite <-!app_assoc in Hf |- *. cbn [app] in Hf |- *.
    rewrite <-!app_assoc in Hf |- *. cbn [app] in Hf |- *.
    rewrite eat_render_miss by tauto. simpl length in Hf.
    rewrite Hv by (done || apply follows_colon || lia). cbn [bind].
    rewrite eat_hit by done. rewrite length_app in Hf. simpl length in Hf.
    rewrite Hv by (done || apply follows_comma || lia). cbn [bind].
    rewrite length_app in Hf. simpl in Hf.
    by rewrite Hd by (done || unfold item_fuel; simpl; lia).
Qed.

Lemma reads_back_value f : reads_back f → reads_back (S f) →
  ∀ v k d, printable v = true → follows k → 2 * length (render v ++ k) + 1 <= S (S f) →
     value (S (S f)) (mkParser (render v ++ k) d) = Done v (mkParser k d).
Proof.
  intros Hb HbS v k d Hp Hk Hf.
  destruct (render_head v) as (c & t & Hr & Hs & _).
  assert (Hskip : skip (mkParser (render v ++ k) d) = mkParser (render v ++ k) d).
  { rewrite Hr. simpl. by apply skip_solid. }
  pose proof (reads_back_braces f Hb) as [Hset Hdict]. pose proof HbS as (_ & Hseq & _).
  assert (Hlen : length (render v ++ k) = length (render v) + length k) by apply length_app.
  cbn [value]. rewrite Hskip. destruct v as [|[|]| |s| |l|l|l|l]; cbn [rest].
  - cbn [render] in *. simpl chars. cbn [app]. change (of_option (word (mkParser (chars "None" ++ k) d)) = Done None_ (mkParser k d)).
    rewrite (word_render _ None_) by (try done; set_solver). done.
  - change (of_option (word (mkParser (chars "True" ++ k) d)) = Done (Bool true) (mkParser k d)).
    rewrite (word_render _ (Bool true)) by (try done; set_solver). done.
  - change (of_option (word (mkParser (chars "False" ++ k) d)) = Done (Bool false) (mkParser k d)).
    rewrite (word_render _ (Bool false)) by (try done; set_solver). done.
  - change (of_option (number (mkParser (48%N :: k) d)) = Done Number (mkParser k d)).
    by rewrite number_zero.
  - change (of_option (strings [] (mkParser (SQ :: ((s ≫= render_char) ++ [SQ]) ++ k) d)) =
            Done (Str s) (mkParser k d)).
    rewrite <-app_assoc. cbn [app]. by rewrite strings_render.
  - destruct Hk as [->|(c' & k' & -> & [->| ->])]; reflexivity.
  - cbn [render] in *. rewrite render_list_items in *.
    change ([91%N] ++ ?x) with (91%N :: x) in *. cbn [app] in *. rewrite <-!app_assoc in *. cbn [app] in *.
    match goal with |- (if _ then _ else if _ then bind ?r ?g else _) = ?x => change (bind r g = x) end.
    rewrite open_cons, Hseq; [done|by left|done|].
    unfold item_fuel. simpl length in Hf. lia.
  - cbn [render] in *. rewrite render_list_items in *.
    change ([40%N] ++ ?x) with (40%N :: x) in *. cbn [app] in *. rewrite <-!app_assoc in *. cbn [app] in *.
    match goal with |- (if _ then _ else if _ then _ else if _ then bind ?r ?g else _) = ?x =>
      change (bind r g = x) end.
    rewrite open_cons, Hseq; [|by right|done|unfold item_fuel; simpl length in Hf; lia].
    simpl. destruct l as [|? [|? ?]]; done.
  - cbn [render] in *. rewrite render_list_items in *.
    change ([123%N] ++ ?x) with (123%N :: x) in *. cbn [app] in *. rewrite <-!app_assoc in *. cbn [app] in *.
    simpl in Hp. apply andb_true_iff in Hp as [Hne Hp]. bool_to_prop.
    replace (123 =? 123)%N with true by done. cbn match.
    apply Hset; [by intros ->|done|lia].
  - cbn [render] in *. rewrite render_dict_pairs in *.
    change ([123%N] ++ ?x) with (123%N :: x) in *. cbn [app] in *. rewrite <-!app_assoc in *. cbn [app] in *.
    replace (123 =? 123)%N with true by done. cbn match.
    apply Hdict; [done|lia].
Qed.

Lemma reads_back_all f : reads_back f ∧ reads_back (S f).
Proof.
  induction f as [|f [IH IHS]].
  - assert (H0 : reads_back 0).
    { unfold reads_back, item_fuel. split; [|split; [|split]]; intros; exfalso; lia. }
    split; [done|]. split; [|split; [|split]];
      [|by apply reads_back_sequence|by apply reads_back_set|by apply reads_back_dict].
    intros v k d Hp Hk Hf. exfalso. pose proof (render_length v). rewrite length_app in Hf. lia.
  - split; [done|]. split; [|split; [|split]];
      [by apply reads_back_value|by apply reads_back_sequence|by apply reads_back_set|by apply reads_back_dict].
Qed.

(** The parser accepts any fuel from [parse_fuel] on, and the result is the same. *)
Lemma literal_eval_fuel_enough fuel source :
  parse_fuel (length source) <= fuel →
  literal_eval_fuel fuel source ≠ Fuel ∧
  literal_eval_fuel fuel source = literal_eval_fuel (parse_fuel (length source)) source.
Proof.
  intros Hf. unfold literal_eval_fuel.
  set (trim := λ c, (c =? 32)%N || (c =? 9)%N). cbv zeta.
  pose proof (trim_start_length trim source) as Hlen.
  set (src := ManifestText.trim_start_matches trim source) in *.
  destruct (find_first has_code (ManifestText.split LF src)); [|done].
  case_if; [done|].
  pose proof (skip_chars_length (true || (0 <? 0)) false src) as Hskip.
  set (p := skip_blank true (mkParser src 0)).
  assert (Hp : 2 * len p + 1 <= parse_fuel (length source)).
  { unfold parse_fuel, len, p, skip_blank. cbn [rest depth]. lia. }
  pose proof (expression_list_takes (parse_fuel (length source)) p Hp) as Ht.
  assert (Ha : agree (expression_list fuel p) (expression_list (parse_fuel (length source)) p))
    by (by apply expression_list_more).
  destruct (expression_list (parse_fuel (length source)) p) as [| |v q]; [done| |].
  - by rewrite Ha.
  - rewrite Ha by done. simpl. by case_if.
Qed.

Lemma find_first_head {A} (f : A → bool) x l : f x = true → find_first f (x :: l) = Some x.
Proof. intros Hx. unfold find_first. simpl. by rewrite decide_True. Qed.

End parser.

Arguments value alphabetic numeric fuel p : rename.

(** ** Properties *)

Section properties.
Context (alphabetic numeric : N → bool).

(** C37: every literal reads back from its printed form: for any value (an empty
    set apart, which has no literal) the parser returns that value, whatever
    strings it holds. *)
Theorem literal_eval_render v :
  printable v = true → literal_eval alphabetic numeric (render v) = Some v.
Proof.
  intros Hp. unfold literal_eval, literal_eval_fuel.
  destruct (render_head v) as (c & t & Hr & Hs & _ & _ & _ & Hcomma & H32 & H9).
  assert (Htrim : ManifestText.trim_start_matches (λ c, (c =? 32)%N || (c =? 9)%N) (render v) = render v).
  { rewrite Hr. simpl. by rewrite (proj2 (N.eqb_neq _ _) H32), (proj2 (N.eqb_neq _ _) H9). }
  rewrite Htrim. pose proof Hs as Hs'. unfold solid in Hs'.
  rewrite negb_true_iff, !orb_false_iff in Hs'. destruct Hs' as [[[Hb Hlf] Hh] Hbs].
  assert (Hfirst : ∃ line, find_first has_code (ManifestText.split LF (render v)) = Some (c :: line)).
  { rewrite Hr. simpl. rewrite Hlf.
    assert (Hcode : ∀ line, has_code (c :: line) = true).
    { intros line. unfold has_code. rewrite find_first_head by (by rewrite Hb). by rewrite Hh. }
    destruct (ManifestText.split LF t); eexists; by apply find_first_head. }
  destruct Hfirst as [line ->].
  rewrite (proj2 (N.eqb_neq _ _) H32), (proj2 (N.eqb_neq _ _) H9). cbn [orb].
  assert (Hskip : skip_blank true (mkParser (render v) 0) = mkParser (render v) 0).
  { rewrite Hr. unfold skip_blank, is_blank in *. rewrite !orb_false_iff in Hb.
    destruct Hb as [[[? ?] ?] ?]. simpl. repeat (rewrite H || rewrite H0 || rewrite H1 || rewrite H2).
    by rewrite Hlf, Hh, Hbs. }
  rewrite Hskip. unfold expression_list.
  destruct (reads_back_all alphabetic numeric (parse_fuel (length (render v)))) as [(Hv & _) _].
  specialize (Hv v [] 0 Hp ltac:(by left)). rewrite app_nil_r in Hv.
  rewrite Hv by (unfold parse_fuel; lia). simpl. done.
Qed.

(** Parsing terminates: for every source the fuel used is enough, and any
    larger amount gives the same result; the same holds of the loops over a
    string's characters and over adjacent strings. *)
Theorem literal_eval_total source fuel :
  parse_fuel (length source) <= fuel →
  (literal_eval_fuel alphabetic numeric fuel source ≠ Fuel ∧
   literal_eval_fuel alphabetic numeric fuel source =
   literal_eval_fuel alphabetic numeric (parse_fuel (length source)) source) ∧
  (∀ raw triple quote v t f, length t < f →
     string_body f raw triple quote v t = string_body (S (length t)) raw triple quote v t) ∧
  (∀ joined p f, len p < f → strings_from f joined None p = strings joined p).
Proof.
  intros Hf. split; [by apply literal_eval_fuel_enough|split].
  - intros. apply string_body_spec; lia.
  - intros. apply strings_from_spec; unfold len in *; lia.
Qed.

End properties.

Lemma literal_eval_render_witness :
  literal_eval (λ _, false) (λ _, false)
    (render (Dict [(Str (chars "sources"), List [Str (chars "a.cc"); Bool true; Number])])) =
  Some (Dict [(Str (chars "sources"), List [Str (chars "a.cc"); Bool true; Number])]).
Proof. apply (literal_eval_render (λ _, false) (λ _, false)). reflexivity. Defined.

Lemma literal_eval_total_witness :
  literal_eval_fuel (λ _, false) (λ _, false) 100 (chars "[1, 'a']") =
  literal_eval_fuel (λ _, false) (λ _, false) (parse_fuel 8) (chars "[1, 'a']").
Proof.
  refine (proj2 (proj1 (literal_eval_total (λ _, false) (λ _, false) (chars "[1, 'a']") 100 _))).
  vm_compute. lia.
Defined.

End PyLiteral.
