(* ===== verification/TaskQueue.v ===== *)
(** * The task queue's producer side

    Models crates/dagayn-build/src/task_queue.rs: task payloads and their JSON
    text, merging a payload into a pending twin, [enqueue] over the [tasks]
    table, and the lookup of a stalled update.  Payload texts are lists of
    characters; kinds and states are compared whole, so they are [string]s.
    Parsing JSON is [serde_json]'s and enters as parameters; so do SQLite's date
    functions.  A transaction is one step: [enqueue] holds the database from
    [BEGIN IMMEDIATE] to [COMMIT] or [ROLLBACK]. *)
From S2P Require Import Prelude ManifestText.

Module TaskQueue.

(** The errors of [QueueError] that the queue itself raises; I/O and SQLite
    errors are left out.

    Source: crates/dagayn-build/src/task_queue.rs 55-66 [QueueError]. *)
Inductive QueueError := UnknownKind (kind : string) | Payload.

(** [Result<A, QueueError>]. *)
Definition result (A : Type) : Type := A + QueueError.

Definition rbind {A B} (r : result A) (f : A → result B) : result B :=
  match r with inl a => f a | inr e => inr e end.

#[local] Notation "'try' x := r 'in' k" := (rbind r (λ x, k))
  (at level 200, x pattern, r at level 100, k at level 200).

(** Source: crates/dagayn-build/src/task_queue.rs 68-75 [default_priority]. *)
Definition default_priority (kind : string) : result Z :=
  if bool_decide (kind = "update") || bool_decide (kind = "prepare") then inl 10%Z
  else if bool_decide (kind = "embed") || bool_decide (kind = "postprocess") then inl 0%Z
  else inr (UnknownKind kind).

(** ** Payloads *)

(** Keys in order, each with its JSON text.

    Source: crates/dagayn-build/src/task_queue.rs 77-79 [TaskPayload]. *)
Definition TaskPayload : Type := list (list N * list N).

(** Source: crates/dagayn-build/src/task_queue.rs 82-87 [TaskPayload::set]. *)
Fixpoint set (p : TaskPayload) (key text : list N) : TaskPayload :=
  match p with
  | [] => [(key, text)]
  | (existing, old) :: p =>
      if bool_decide (existing = key) then (existing, text) :: p
      else (existing, old) :: set p key text
  end.

(** Source: crates/dagayn-build/src/task_queue.rs 89-91 [TaskPayload::remove]. *)
Definition remove (p : TaskPayload) (key : list N) : TaskPayload :=
  filter (λ '(existing, _), existing ≠ key) p.

(** Source: crates/dagayn-build/src/task_queue.rs 93-98 [TaskPayload::get]. *)
Fixpoint get (p : TaskPayload) (key : list N) : option (list N) :=
  match p with
  | [] => None
  | (existing, text) :: p => if bool_decide (existing = key) then Some text else get p key
  end.

(** One hexadecimal digit, in lower case. *)
Definition hex_digit (d : N) : N := if (d <? 10)%N then (48 + d)%N else (87 + d)%N.

(** [{unit:04x}] of a 16-bit unit. *)
Definition hex4 (u : N) : list N :=
  [hex_digit (u / 4096); hex_digit (u / 256 mod 16); hex_digit (u / 16 mod 16); hex_digit (u mod 16)].

(** [char::encode_utf16]. *)
Definition encode_utf16 (c : N) : list N :=
  if (c <? 65536)%N then [c]
  else [(55296 + (c - 65536) / 1024)%N; (56320 + (c - 65536) mod 1024)%N].

(** One character of [py_string].

    Source: crates/dagayn-build/src/task_queue.rs 174-189 [py_string]. *)
Definition py_char (c : N) : list N :=
  if (c =? 34)%N then [92; 34]%N
  else if (c =? 92)%N then [92; 92]%N
  else if (c =? 10)%N then [92; 110]%N
  else if (c =? 13)%N then [92; 114]%N
  else if (c =? 9)%N then [92; 116]%N
  else if (c =? 8)%N then [92; 98]%N
  else if (c =? 12)%N then [92; 102]%N
  else if (c <? 32)%N || (126 <? c)%N then encode_utf16 c ≫= λ u, [92; 117]%N ++ hex4 u
  else [c].

(** Source: crates/dagayn-build/src/task_queue.rs 169-193 [py_string]. *)
Definition py_string (t : list N) : list N := [34%N] ++ (t ≫= py_char) ++ [34%N].

(** Source: crates/dagayn-build/src/task_queue.rs 100-103 [TaskPayload::put_str]. *)
Definition put_str (p : TaskPayload) (key value : list N) : TaskPayload := set p key (py_string value).

(** Source: crates/dagayn-build/src/task_queue.rs 105-108 [TaskPayload::put_bool]. *)
Definition put_bool (p : TaskPayload) (key : list N) (value : bool) : TaskPayload :=
  set p key (chars (if value then "true" else "false")).

(** Source: crates/dagayn-build/src/task_queue.rs 110-114 [TaskPayload::put_int]. *)
Definition put_int (p : TaskPayload) (key : list N) (value : option Z) : TaskPayload :=
  set p key (chars (match value with Some v => pretty v | None => "null" end)).

(** [<[String]>::join] with [", "]. *)
Fixpoint join_comma (l : list (list N)) : list N :=
  match l with
  | [] => []
  | [x] => x
  | x :: l => x ++ [44; 32]%N ++ join_comma l
  end.

(** Source: crates/dagayn-build/src/task_queue.rs 116-124 [TaskPayload::dumps]. *)
Definition dumps (p : TaskPayload) : list N :=
  [123%N] ++ join_comma ((λ '(key, text), py_string key ++ [58; 32]%N ++ text) <$> p) ++ [125%N].

(** [serde_json::Value]; of a number, whether its [f64] is not zero, and its text
    when it is an [i64] or [u64]. *)
Inductive Value :=
  | VNull
  | VBool (flag : bool)
  | VNumber (nonzero : bool) (integer : option (list N))
  | VString (text : list N)
  | VArray (items : list Value)
  | VObject (entries : list (list N * Value)).

(** Byte order of UTF-8 is the order of code points. *)
Fixpoint text_leb (x y : list N) : bool :=
  match x, y with
  | [], _ => true
  | _ :: _, [] => false
  | c :: x, d :: y => (c <? d)%N || ((c =? d)%N && text_leb x y)
  end.

Section json.
(** [serde_json::from_str]: of an object, its entries in document order with
    each value's text as written; of a value, the value.  [None] is an error. *)
Context (parse_object : list N → option TaskPayload) (parse_value : list N → option Value).

(** The entries of an object as a [dict]: a repeated key keeps its first position
    and takes its last value.

    Source: crates/dagayn-build/src/task_queue.rs 154-163 [visit_map]. *)
Definition visit_map (entries : list (list N * list N)) : TaskPayload :=
  foldl (λ out '(key, value), set out key value) [] entries.

(** Source: crates/dagayn-build/src/task_queue.rs 126-137 [TaskPayload::loads]. *)
Definition loads (text : list N) : result TaskPayload :=
  match parse_object text with
  | Some entries => inl (visit_map entries)
  | None => inr Payload
  end.

(** Source: crates/dagayn-build/src/task_queue.rs 195-210 [truthy]. *)
Definition truthy (text : option (list N)) : result bool :=
  match text with
  | None => inl false
  | Some text =>
      match parse_value text with
      | None => inr Payload
      | Some VNull => inl false
      | Some (VBool flag) => inl flag
      | Some (VNumber nonzero _) => inl nonzero
      | Some (VString t) => inl (negb (bool_decide (t = [])))
      | Some (VArray items) => inl (match items with [] => false | _ => true end)
      | Some (VObject entries) => inl (match entries with [] => false | _ => true end)
      end
  end.

(** [str()] of one item of a list of paths.

    Source: crates/dagayn-build/src/task_queue.rs 224-230 [path_list]. *)
Definition path_item (item : Value) : result (list N) :=
  match item with
  | VString text => inl text
  | VBool flag => inl (chars (if flag then "True" else "False"))
  | VNull => inl (chars "None")
  | VNumber _ (Some digits) => inl digits
  | _ => inr Payload
  end.

Fixpoint path_items (items : list Value) : result (list (list N)) :=
  match items with
  | [] => inl []
  | item :: items =>
      try path := path_item item in
      try paths := path_items items in
      inl (path :: paths)
  end.

(** Source: crates/dagayn-build/src/task_queue.rs 212-233 [path_list]. *)
Definition path_list (text : option (list N)) : result (option (list (list N))) :=
  match text with
  | None => inl None
  | Some text =>
      match parse_value text with
      | None => inr Payload
      | Some (VArray items) => try paths := path_items items in inl (Some paths)
      | Some _ => inl None
      end
  end.

Definition SKIP_STRUCTURE : list N := chars "skip_structure".
Definition FILES : list N := chars "files".

(** Source: crates/dagayn-build/src/task_queue.rs 242-245 [merge_payloads]. *)
Definition overlay (old new : TaskPayload) : TaskPayload :=
  foldl (λ merged '(key, text), set merged key text) old new.

(** Source: crates/dagayn-build/src/task_queue.rs 254-258 [merge_payloads]. *)
Definition union_files (old_files new_files : list (list N)) : list (list N) :=
  dedup (sort_by text_leb (old_files ++ new_files)).

(** Source: crates/dagayn-build/src/task_queue.rs 235-263 [merge_payloads]. *)
Definition merge_payloads (kind : string) (old new : TaskPayload) : result TaskPayload :=
  let merged := overlay old new in
  if negb (bool_decide (kind = "embed")) then inl merged
  else
    try old_skip := truthy (get old SKIP_STRUCTURE) in
    try skip := (if old_skip : bool then truthy (get new SKIP_STRUCTURE) else inl false) in
    let merged := if skip : bool then merged else remove merged SKIP_STRUCTURE in
    try old_files := path_list (get old FILES) in
    try new_files := path_list (get new FILES) in
    match old_files, new_files with
    | Some old_files, Some new_files =>
        inl (set merged FILES
          ([91%N] ++ join_comma (py_string <$> union_files old_files new_files) ++ [93%N]))
    | _, _ => inl (remove merged FILES)
    end.

(** ** The table *)

(** A row of [tasks].

    Source: crates/dagayn-build/src/task_queue.rs 33-44 [SCHEMA]. *)
Record Task := mkTask {
  id : Z;
  kind : string;
  priority : Z;
  payload : list N;
  state : string;
  attempts : Z;
  created_at : list N;
  updated_at : list N;
  last_error : option (list N);
  not_before : option Z  (* [None]: the column is missing *)
}.

(** The rows, by row id. *)
Definition Table : Type := list Task.

(** The schema, and the column older databases lack (in milliseconds here;
    [enqueue] only writes its default).

    Source: crates/dagayn-build/src/task_queue.rs 265-289 [open_queue]. *)
Definition open_queue (db : option Table) : Table :=
  match db with
  | None => []
  | Some rows =>
      (λ t, match not_before t with
            | Some _ => t
            | None => mkTask (id t) (kind t) (priority t) (payload t) (state t) (attempts t)
                        (created_at t) (updated_at t) (last_error t) (Some 0%Z)
            end) <$> rows
  end.

(** The row a new one gets: SQLite's [max(rowid) + 1] (below 2^63 - 1). *)
Definition next_id (rows : Table) : Z := foldr (λ t m, Z.max (id t) m) 0%Z rows + 1.

Definition pending (k : string) (t : Task) : bool :=
  bool_decide (kind t = k) && bool_decide (state t = "pending").

(** Source: crates/dagayn-build/src/task_queue.rs 304-310 [enqueue]. *)
Definition twin (k : string) (rows : Table) : option Task :=
  snd <$> list_find (λ t, pending k t = true) rows.

(** [UPDATE tasks ... WHERE id = ?].

    Source: crates/dagayn-build/src/task_queue.rs 313-317 [enqueue]. *)
Definition update_row (i : Z) (text : list N) (prio : Z) (now : list N) (rows : Table) : Table :=
  (λ t, if bool_decide (id t = i)
        then mkTask (id t) (kind t) (Z.max (priority t) prio) text (state t) (attempts t)
               (created_at t) now (last_error t) (not_before t)
        else t) <$> rows.

Inductive outcome := Added | Coalesced.

(** The whole of [enqueue] at time [now]: what it returns and the table after.

    Source: crates/dagayn-build/src/task_queue.rs 291-334 [enqueue]. *)
Definition enqueue (db : option Table) (k : string) (p : TaskPayload) (now : list N)
    : result (outcome * Z) * option Table :=
  match default_priority k with
  | inr e => (inr e, db)
  | inl prio =>
      let rows := open_queue db in
      match twin k rows with
      | Some t =>
          match (try stored := loads (payload t) in merge_payloads k stored p) with
          | inl merged =>
              (inl (Coalesced, id t), Some (update_row (id t) (dumps merged) prio now rows))
          | inr e => (inr e, Some rows)
          end
      | None =>
          let i := next_id rows in
          (inl (Added, i),
           Some (rows ++ [mkTask i k prio (dumps p) "pending" 0 now now None (Some 0%Z)]))
      end
  end.

End json.

Section stalled.
(** [julianday(updated_at) < julianday('now', '-180 seconds')], and
    [julianday(updated_at) > julianday(?2, 'utc')]. *)
Context (stale : list N → bool) (later : list N → list N → bool).

(** Source: crates/dagayn-build/src/task_queue.rs 432-440 [StalledUpdate]. *)
Record StalledUpdate := mkStalledUpdate {
  su_id : Z;
  su_state : string;
  su_attempts : Z;
  su_last_error : option (list N)
}.

(** The [WHERE] of the query.

    Source: crates/dagayn-build/src/task_queue.rs 422-430 [STALLED_UPDATE_SQL]. *)
Definition stalled_where (last_updated : option (list N)) (t : Task) : bool :=
  bool_decide (kind t = "update")
  && (bool_decide (state t = "dead")
      || (bool_decide (state t = "running") && stale (updated_at t)))
  && match last_updated with None => true | Some since => later (updated_at t) since end.

(** [ORDER BY id DESC LIMIT 1]. *)
Definition newest (rows : Table) : option Task :=
  foldl (λ best t, match best with
                   | Some b => if (id b <? id t)%Z then Some t else best
                   | None => Some t
                   end) None rows.

(** Source: crates/dagayn-build/src/task_queue.rs 464-496 [stalled_update]. *)
Definition stalled_update (db : option Table) (graph_last_updated : option (list N))
    : option StalledUpdate :=
  rows ← db;
  let since := match graph_last_updated with Some [] => None | since => since end in
  t ← newest (filter (λ t, stalled_where since t = true) rows);
  Some (mkStalledUpdate (id t) (state t) (attempts t) (last_error t)).

End stalled.

(** Source: crates/dagayn-build/src/task_queue.rs 419-420 [STALLED_UPDATE_NEXT_STEP]. *)
Definition STALLED_UPDATE_NEXT_STEP : list N :=
  chars "run 'dagayn update', or create .dagayn/hook-skip to stop hook updates".

(** Source: crates/dagayn-build/src/task_queue.rs 443-461 [StalledUpdate::status_line]. *)
Definition status_line (s : StalledUpdate) : list N :=
  let what :=
    if bool_decide (su_state s = "dead") then
      chars "update task #" ++ chars (pretty (su_id s)) ++ chars " dead after "
        ++ chars (pretty (su_attempts s)) ++ chars " attempt(s)"
        ++ match su_last_error s with
           | Some (c :: error) => chars ": " ++ c :: error
           | _ => []
           end
    else
      chars "update task #" ++ chars (pretty (su_id s))
        ++ chars " left running by a worker that exited" in
  chars "Hook updates: stopped " ++ [8212%N] ++ chars " " ++ what ++ chars "; "
    ++ STALLED_UPDATE_NEXT_STEP.

(** ** Specification: reading a JSON string *)

Definition of_hex (c : N) : option N :=
  if is_ascii_digit c then Some (c - 48)%N
  else if (97 <=? c)%N && (c <=? 102)%N then Some (c - 87)%N
  else None.

Definition of_hex4 (a b c d : N) : option N :=
  a ← of_hex a; b ← of_hex b; c ← of_hex c; d ← of_hex d;
  Some (((a * 16 + b) * 16 + c) * 16 + d)%N.

(** The character a simple escape stands for. *)
Definition simple_escape (e : N) : option N :=
  if (e =? 34)%N || (e =? 92)%N || (e =? 47)%N then Some e
  else if (e =? 110)%N then Some 10%N
  else if (e =? 114)%N then Some 13%N
  else if (e =? 116)%N then Some 9%N
  else if (e =? 98)%N then Some 8%N
  else if (e =? 102)%N then Some 12%N
  else None.

(** The characters of a JSON string up to its closing quote; [high] is a high
    surrogate waiting for its other half. *)
Fixpoint unescape (high : option N) (t : list N) : option (list N * list N) :=
  match t with
  | [] => None
  | c :: t =>
      if (c =? 92)%N then
        match t with
        | [] => None
        | e :: t =>
            if (e =? 117)%N then
              match t with
              | a :: b :: c :: d :: t =>
                  u ← of_hex4 a b c d;
                  match high with
                  | Some h =>
                      if (56320 <=? u)%N && (u <? 57344)%N then
                        '(out, r) ← unescape None t;
                        Some ((65536 + (h - 55296) * 1024 + (u - 56320))%N :: out, r)
                      else None
                  | None =>
                      if (55296 <=? u)%N && (u <? 56320)%N then unescape (Some u) t
                      else '(out, r) ← unescape None t; Some (u :: out, r)
                  end
              | _ => None
              end
            else match high, simple_escape e with
                 | None, Some x => '(out, r) ← unescape None t; Some (x :: out, r)
                 | _, _ => None
                 end
        end
      else match high with
           | Some _ => None
           | None =>
               if (c =? 34)%N then Some ([], t)
               else '(out, r) ← unescape None t; Some (c :: out, r)
           end
  end.

Definition read_string (t : list N) : option (list N * list N) :=
  match t with
  | c :: t => if (c =? 34)%N then unescape None t else None
  | [] => None
  end.

(** ** Strings *)

#[local] Ltac Zify.zify_post_hook ::= Z.to_euclidean_division_equations.

Lemma hex_digit_ascii d : (d < 16 → 32 <= hex_digit d ∧ hex_digit d <= 126)%N.
Proof. unfold hex_digit. intros Hd. case_if; lia. Qed.

Lemma of_hex_digit d : (d < 16)%N → of_hex (hex_digit d) = Some d.
Proof.
  intros Hd. unfold of_hex, hex_digit, is_ascii_digit.
  destruct (N.ltb_spec d 10).
  - rewrite (proj2 (N.leb_le _ _)), (proj2 (N.leb_le _ _)) by lia. simpl. f_equal. lia.
  - rewrite (proj2 (N.leb_gt (87 + d) 57)) by lia. rewrite andb_false_r.
    rewrite (proj2 (N.leb_le _ _)), (proj2 (N.leb_le _ _)) by lia. simpl. f_equal. lia.
Qed.

Lemma of_hex4_hex4 u :
  (u < 65536)%N → ∃ a b c d, hex4 u = [a; b; c; d] ∧ of_hex4 a b c d = Some u.
Proof.
  intros Hu. unfold hex4. do 4 eexists. split; [reflexivity|].
  unfold of_hex4. rewrite !of_hex_digit by lia. simpl. f_equal. lia.
Qed.

Lemma hex4_ascii u : (u < 65536)%N → Forall (λ c, 32 <= c ∧ c <= 126)%N (hex4 u).
Proof. intros Hu. unfold hex4. repeat constructor; apply hex_digit_ascii; lia. Qed.

Lemma scalar_bound c : is_scalar c = true → (c < 55296 ∨ 57344 <= c <= 1114111)%N.
Proof.
  unfold is_scalar. rewrite orb_true_iff, andb_true_iff, N.ltb_lt, !N.leb_le. lia.
Qed.

Lemma unescape_unit u t :
  (u < 65536)%N →
  unescape None ([92; 117]%N ++ hex4 u ++ t) =
  if (55296 <=? u)%N && (u <? 56320)%N then unescape (Some u) t
  else '(out, r) ← unescape None t; Some (u :: out, r).
Proof.
  intros Hu. destruct (of_hex4_hex4 u Hu) as (a & b & c & d & -> & Hx).
  cbn [app unescape]. simpl (92 =? 92)%N. simpl (117 =? 117)%N. cbn match. by rewrite Hx.
Qed.

Lemma unescape_low h u t :
  (u < 65536)%N →
  unescape (Some h) ([92; 117]%N ++ hex4 u ++ t) =
  if (56320 <=? u)%N && (u <? 57344)%N then
    '(out, r) ← unescape None t; Some ((65536 + (h - 55296) * 1024 + (u - 56320))%N :: out, r)
  else None.
Proof.
  intros Hu. destruct (of_hex4_hex4 u Hu) as (a & b & c & d & -> & Hx).
  cbn [app unescape]. simpl (92 =? 92)%N. simpl (117 =? 117)%N. cbn match. by rewrite Hx.
Qed.

(** One character is read back. *)
Lemma unescape_py_char c t :
  is_scalar c = true →
  unescape None (py_char c ++ t) = '(out, r) ← unescape None t; Some (c :: out, r).
Proof.
  intros Hc%scalar_bound. unfold py_char.
  repeat match goal with
  | |- context [if (c =? ?n)%N then _ else _] =>
      destruct (N.eqb_spec c n) as [->|?]; [reflexivity|]
  end.
  destruct ((c <? 32)%N || (126 <? c)%N) eqn:E.
  - unfold encode_utf16. destruct (N.ltb_spec c 65536).
    + rewrite bind_cons. simpl ([] ≫= _). rewrite app_nil_r, <-app_assoc, unescape_unit by lia.
      assert (Hs : (55296 <=? c)%N && (c <? 56320)%N = false).
      { apply andb_false_iff. rewrite N.leb_gt, N.ltb_ge. lia. }
      by rewrite Hs.
    + rewrite !bind_cons. simpl ([] ≫= _).
      rewrite app_nil_r, <-!app_assoc, unescape_unit by lia.
      rewrite (proj2 (N.leb_le _ _)), (proj2 (N.ltb_lt _ _)) by lia. cbn [andb].
      rewrite unescape_low by lia.
      rewrite (proj2 (N.leb_le _ _)), (proj2 (N.ltb_lt _ _)) by lia. cbn [andb].
      destruct (unescape None t) as [[out r]|]; simpl; [|done]. do 3 f_equal. lia.
  - cbn [app unescape]. rewrite (proj2 (N.eqb_neq c 92)), (proj2 (N.eqb_neq c 34)) by lia. done.
Qed.

Lemma unescape_py_string t k :
  Forall (λ c, is_scalar c = true) t →
  unescape None ((t ≫= py_char) ++ 34%N :: k) = Some (t, k).
Proof.
  induction 1 as [|c t Hc Ht IH]; [done|].
  rewrite bind_cons, <-app_assoc, unescape_py_char by done. by rewrite IH.
Qed.

Lemma py_char_ascii c :
  is_scalar c = true → Forall (λ c, 32 <= c ∧ c <= 126)%N (py_char c).
Proof.
  intros Hc%scalar_bound. unfold py_char.
  repeat (case_if; [repeat constructor; lia|]).
  case_if.
  - unfold encode_utf16. destruct (N.ltb_spec c 65536).
    + rewrite bind_cons. simpl ([] ≫= _). rewrite app_nil_r.
      apply Forall_app. split; [repeat constructor; lia|]. by apply hex4_ascii.
    + rewrite !bind_cons. simpl ([] ≫= _). rewrite app_nil_r.
      repeat (apply Forall_app; split); try (repeat constructor; lia); apply hex4_ascii; lia.
  - bool_to_prop. repeat constructor; lia.
Qed.

(** ** Payloads as maps *)

Definition keys (p : TaskPayload) : list (list N) := p.*1.

Lemma get_set p k v k' :
  get (set p k v) k' = if bool_decide (k = k') then Some v else get p k'.
Proof.
  induction p as [|[e t] p IH]; cbn [set get]; [done|].
  destruct (decide (e = k)) as [->|Hne].
  - rewrite (bool_decide_eq_true_2 (k = k)) by done. cbn [get].
    by destruct (bool_decide (k = k')).
  - rewrite (bool_decide_eq_false_2 (e = k)) by done. cbn [get]. rewrite IH.
    destruct (decide (e = k')) as [->|?].
    + rewrite (bool_decide_eq_true_2 (k' = k')), (bool_decide_eq_false_2 (k = k')) by congruence.
      done.
    + by rewrite (bool_decide_eq_false_2 (e = k')).
Qed.

Lemma get_None p k : k ∉ keys p → get p k = None.
Proof.
  induction p as [|[e t] p IH]; cbn; [done|]. intros Hk.
  apply not_elem_of_cons in Hk as [? ?]. rewrite bool_decide_eq_false_2 by congruence. auto.
Qed.

Lemma get_Some_elem p k v : get p k = Some v → k ∈ keys p.
Proof.
  intros Hg. destruct (decide (k ∈ keys p)); [done|]. by rewrite get_None in Hg.
Qed.

Lemma remove_cons e t p k :
  remove ((e, t) :: p) k = if decide (e ≠ k) then (e, t) :: remove p k else remove p k.
Proof. exact (filter_cons (λ '(existing, _), existing ≠ k) (e, t) p). Qed.

Lemma get_remove p k k' :
  get (remove p k) k' = if bool_decide (k = k') then None else get p k'.
Proof.
  induction p as [|[e t] p IH]; [by destruct (bool_decide (k = k'))|].
  rewrite remove_cons. destruct (decide (e ≠ k)) as [Hne|Heq]; cbn [get].
  - rewrite IH. destruct (decide (e = k')) as [->|?].
    + rewrite (bool_decide_eq_true_2 (k' = k')), (bool_decide_eq_false_2 (k = k')) by congruence.
      done.
    + by rewrite (bool_decide_eq_false_2 (e = k')).
  - apply dec_stable in Heq as ->. rewrite IH. by destruct (bool_decide (k = k')).
Qed.

Lemma keys_set p k v :
  keys (set p k v) = if bool_decide (k ∈ keys p) then keys p else keys p ++ [k].
Proof.
  induction p as [|[e t] p IH].
  { rewrite bool_decide_eq_false_2; [done|apply not_elem_of_nil]. }
  cbn [set].
  destruct (decide (e = k)) as [->|Hne].
  - rewrite (bool_decide_eq_true_2 (k = k)) by done. cbn.
    by rewrite bool_decide_eq_true_2 by set_solver.
  - rewrite (bool_decide_eq_false_2 (e = k)) by done.
    change (keys ((e, t) :: set p k v)) with (e :: keys (set p k v)). rewrite IH.
    change (keys ((e, t) :: p)) with (e :: keys p).
    destruct (decide (k ∈ keys p)).
    + by rewrite !bool_decide_eq_true_2 by set_solver.
    + by rewrite !bool_decide_eq_false_2 by set_solver.
Qed.

Lemma keys_remove p k : keys (remove p k) = filter (λ e, e ≠ k) (keys p).
Proof.
  induction p as [|[e t] p IH]; [done|]. rewrite remove_cons.
  change (keys ((e, t) :: p)) with (e :: keys p). rewrite filter_cons.
  destruct (decide (e ≠ k)); [|done].
  change (keys ((e, t) :: remove p k)) with (e :: keys (remove p k)). by rewrite IH.
Qed.

Lemma NoDup_set p k v : NoDup (keys p) → NoDup (keys (set p k v)).
Proof.
  intros Hp. rewrite keys_set. destruct (decide (k ∈ keys p)).
  - by rewrite bool_decide_eq_true_2.
  - rewrite bool_decide_eq_false_2 by done. apply NoDup_app. split; [done|]. split; [set_solver|].
    apply NoDup_singleton.
Qed.

Lemma NoDup_remove p k : NoDup (keys p) → NoDup (keys (remove p k)).
Proof. intros Hp. rewrite keys_remove. by apply NoDup_filter. Qed.

Lemma get_overlay old new k :
  NoDup (keys new) →
  get (overlay old new) k = match get new k with Some v => Some v | None => get old k end.
Proof.
  unfold overlay. revert old. induction new as [|[e t] new IH]; intros old Hn; [done|].
  cbn [foldl get]. apply NoDup_cons in Hn as [He Hn]. rewrite IH, get_set by done.
  destruct (decide (e = k)) as [->|Hne].
  - rewrite (bool_decide_eq_true_2 (k = k)) by done. by rewrite get_None.
  - by rewrite (bool_decide_eq_false_2 (e = k)).
Qed.

Lemma NoDup_overlay old new : NoDup (keys old) → NoDup (keys (overlay old new)).
Proof.
  unfold overlay. revert old. induction new as [|[e t] new IH]; intros old Ho; [done|].
  apply IH. by apply NoDup_set.
Qed.

(** The keys of the pending payload keep their places. *)
Lemma keys_overlay old new :
  ∃ added, keys (overlay old new) = keys old ++ added ∧
    ∀ k, k ∈ added → k ∈ keys new ∧ k ∉ keys old.
Proof.
  unfold overlay. revert old. induction new as [|[e t] new IH]; intros old.
  { exists []. rewrite app_nil_r. split; [done|]. by intros k ?%not_elem_of_nil. }
  cbn [foldl]. destruct (IH (set old e t)) as (added & Hk & Hadd). rewrite keys_set in *.
  destruct (decide (e ∈ keys old)) as [He|He].
  - rewrite bool_decide_eq_true_2 in * by done. exists added. split; [done|].
    intros k Hin. destruct (Hadd k Hin). split; [|done]. by apply elem_of_cons; right.
  - rewrite bool_decide_eq_false_2 in * by done. exists (e :: added).
    rewrite Hk, <-app_assoc. split; [done|]. intros k [->|Hin]%elem_of_cons.
    + split; [apply elem_of_cons; by left|done].
    + destruct (Hadd k Hin). split; [by apply elem_of_cons; right|set_solver].
Qed.

Lemma text_leb_refl x : text_leb x x = true.
Proof. induction x as [|c x IH]; simpl; [done|]. by rewrite N.eqb_refl, IH, orb_true_r. Qed.

Lemma text_leb_spec c x d y :
  text_leb (c :: x) (d :: y) = true ↔ (c < d)%N ∨ (c = d ∧ text_leb x y = true).
Proof. simpl. by rewrite orb_true_iff, andb_true_iff, N.ltb_lt, N.eqb_eq. Qed.

Lemma text_leb_total x y : text_leb x y = true ∨ text_leb y x = true.
Proof.
  revert y. induction x as [|c x IH]; intros [|d y]; [by left|by left|by right|].
  rewrite !text_leb_spec. destruct (IH y), (N.lt_total c d) as [|[|]]; naive_solver.
Qed.

Lemma text_leb_trans x y z :
  text_leb x y = true → text_leb y z = true → text_leb x z = true.
Proof.
  revert y z. induction x as [|c x IH]; intros [|d y] [|e z]; try done.
  rewrite !text_leb_spec. intros [?|[-> ?]] [?|[-> ?]]; [left; lia|by left|by left|].
  right. split; [done|]. by eapply IH.
Qed.

Lemma text_leb_antisym x y : text_leb x y = true → text_leb y x = true → x = y.
Proof.
  revert y. induction x as [|c x IH]; intros [|d y]; try done.
  rewrite !text_leb_spec. intros [?|[-> ?]] [?|[? ?]]; try lia. f_equal. by apply IH.
Qed.

(** The union of two lists of files: each once, in order. *)
Lemma union_files_spec xs ys :
  (∀ f, f ∈ union_files xs ys ↔ f ∈ xs ∨ f ∈ ys) ∧ NoDup (union_files xs ys) ∧
  StronglySorted (λ x y, text_leb x y = true ∧ x ≠ y) (union_files xs ys).
Proof.
  assert (Hs : StronglySorted (λ x y, text_leb x y = true) (sort_by text_leb (xs ++ ys))).
  { apply sort_by_sorted; [apply text_leb_total|apply text_leb_trans]. }
  assert (Hd := dedup_sorted (λ x y, text_leb x y = true) _ text_leb_antisym text_leb_refl Hs).
  unfold union_files. split; [|split; [|done]].
  - intros f. rewrite elem_of_dedup, elem_of_sort_by. apply elem_of_app.
  - refine (StronglySorted_irrefl_NoDup _ _ _ Hd). naive_solver.
Qed.

(** Merging fails only on a payload it cannot read. *)
Lemma merge_payloads_error parse_value k old new e :
  merge_payloads parse_value k old new = inr e → e = Payload.
Proof.
  assert (Ht : ∀ t e, truthy parse_value t = inr e → e = Payload).
  { intros [t|] e'; simpl; [|done]. destruct (parse_value t) as [[]|]; naive_solver. }
  assert (Hi : ∀ items e, path_items items = inr e → e = Payload).
  { induction items as [|item items IH]; intros e'; simpl; [done|].
    destruct item as [| |? [|]| | |]; simpl; try naive_solver;
      destruct (path_items items); simpl; naive_solver. }
  assert (Hp : ∀ t e, path_list parse_value t = inr e → e = Payload).
  { intros [t|] e'; simpl; [|done]. destruct (parse_value t) as [[| | | |items|]|]; try naive_solver.
    specialize (Hi items). destruct (path_items items); simpl; naive_solver. }
  unfold merge_payloads. destruct (bool_decide (k = "embed")); [|done]. cbn [negb].
  destruct (truthy parse_value (get old SKIP_STRUCTURE)) as [o|e1] eqn:E1; [|naive_solver]. cbn [rbind].
  destruct (if o then truthy parse_value (get new SKIP_STRUCTURE) else inl false) as [n|e2] eqn:E2.
  2:{ destruct o; naive_solver. }
  cbn [rbind].
  destruct (path_list parse_value (get old FILES)) as [olds|] eqn:E3; [|naive_solver]. cbn [rbind].
  destruct (path_list parse_value (get new FILES)) as [news|] eqn:E4; [|naive_solver]. cbn [rbind].
  by destruct olds, news.
Qed.

(** ** Rows *)

Definition ids (rows : Table) : list Z := id <$> rows.

(** What [enqueue] relies on and keeps: row ids are positive and distinct, and a
    kind has at most one pending task. *)
Definition queue_ok (rows : Table) : Prop :=
  NoDup (ids rows) ∧ Forall (λ i, (0 < i)%Z) (ids rows) ∧
  ∀ t1 t2, t1 ∈ rows → t2 ∈ rows → state t1 = "pending" → state t2 = "pending" →
    kind t1 = kind t2 → t1 = t2.

Lemma next_id_above rows i : i ∈ ids rows → (i < next_id rows)%Z.
Proof.
  unfold ids, next_id. intros (t & -> & Ht)%list_elem_of_fmap.
  induction rows as [|t' rows IH]; [by apply not_elem_of_nil in Ht|]. simpl.
  apply elem_of_cons in Ht as [->|Ht]; [lia|]. specialize (IH Ht). lia.
Qed.

Lemma next_id_pos rows : (0 < next_id rows)%Z.
Proof.
  unfold next_id. induction rows as [|t rows IH]; simpl; lia.
Qed.

Lemma twin_Some k rows t : twin k rows = Some t → t ∈ rows ∧ kind t = k ∧ state t = "pending".
Proof.
  unfold twin. destruct (list_find _ rows) as [[i t']|] eqn:E; simpl; [|done]. intros [= ->].
  apply list_find_Some in E as (Hi & Hp & _). unfold pending in Hp. bool_to_prop.
  split; [by eapply list_elem_of_lookup_2|done].
Qed.

Lemma twin_None k rows t : twin k rows = None → t ∈ rows → kind t = k → state t ≠ "pending".
Proof.
  unfold twin. destruct (list_find _ rows) as [[i t']|] eqn:E; simpl; [done|]. intros _ Ht Hk Hs.
  apply list_find_None in E. rewrite Forall_forall in E. apply (E t Ht).
  unfold pending. by rewrite !bool_decide_eq_true_2.
Qed.

Lemma ids_update_row i text prio now rows : ids (update_row i text prio now rows) = ids rows.
Proof.
  unfold ids, update_row. rewrite <-list_fmap_compose. apply list_fmap_ext.
  intros _ t _. simpl. by case_if.
Qed.

Lemma ids_inj rows t1 t2 :
  NoDup (ids rows) → t1 ∈ rows → t2 ∈ rows → id t1 = id t2 → t1 = t2.
Proof.
  intros Hnd H1 H2 Heq. apply list_elem_of_lookup_1 in H1 as [i Hi].
  apply list_elem_of_lookup_1 in H2 as [j Hj].
  assert (i = j) as ->; [|by simplify_eq].
  eapply NoDup_lookup; [exact Hnd| |]; unfold ids; rewrite list_lookup_fmap.
  - by rewrite Hi.
  - by rewrite Hj; simpl; rewrite Heq.
Qed.

Lemma update_row_ok i text prio now rows :
  queue_ok rows → queue_ok (update_row i text prio now rows).
Proof.
  intros (Hnd & Hpos & Huniq). unfold queue_ok. rewrite ids_update_row.
  split; [done|split; [done|]]. intros t1 t2 H1 H2 S1 S2 Hk.
  unfold update_row in H1, H2.
  apply list_elem_of_fmap in H1 as (u1 & -> & Hu1). apply list_elem_of_fmap in H2 as (u2 & -> & Hu2).
  assert (u1 = u2) as ->; [|done].
  apply Huniq; [done|done| | |].
  - by destruct (bool_decide (id u1 = i)).
  - by destruct (bool_decide (id u2 = i)).
  - by destruct (bool_decide (id u1 = i)), (bool_decide (id u2 = i)).
Qed.

Lemma open_queue_ok db : queue_ok (default [] db) → queue_ok (open_queue db).
Proof.
  destruct db as [rows|]; [|done]. intros (Hnd & Hpos & Huniq). cbn [default open_queue from_option] in *.
  assert (Hids : ids (open_queue (Some rows)) = ids rows).
  { unfold ids, open_queue. rewrite <-list_fmap_compose. apply list_fmap_ext.
    intros _ t _. simpl. by destruct (not_before t). }
  change (queue_ok (open_queue (Some rows))). unfold queue_ok. rewrite Hids.
  split; [done|split; [done|]]. intros t1 t2 H1 H2 S1 S2 Hk. unfold open_queue in H1, H2.
  apply list_elem_of_fmap in H1 as (u1 & -> & Hu1). apply list_elem_of_fmap in H2 as (u2 & -> & Hu2).
  assert (u1 = u2) as ->; [|done].
  apply Huniq; [done|done| | |]; by destruct (not_before u1), (not_before u2).
Qed.

Lemma insert_row_ok rows i k prio text now :
  queue_ok rows → twin k rows = None → (∀ j, j ∈ ids rows → (j < i)%Z) → (0 < i)%Z →
  queue_ok (rows ++ [mkTask i k prio text "pending" 0 now now None (Some 0%Z)]).
Proof.
  intros (Hnd & Hpos & Huniq) Htwin Hnew Hi. unfold queue_ok, ids. rewrite fmap_app.
  split; [|split].
  - apply NoDup_app. split; [done|]. split; [|apply NoDup_singleton].
    intros j Hj. apply Hnew in Hj. simpl. intros ->%list_elem_of_singleton. lia.
  - apply Forall_app. by repeat constructor.
  - intros t1 t2 H1 H2 S1 S2 Hk.
    rewrite elem_of_app, list_elem_of_singleton in H1. rewrite elem_of_app, list_elem_of_singleton in H2.
    destruct H1 as [H1| ->], H2 as [H2| ->]; [by apply Huniq| | |done]; simpl in *; exfalso.
    + by eapply twin_None.
    + by eapply twin_None.
Qed.

(** What the table holds for [i] after a successful call. *)
Definition row_written (rows rows' : Table) (k : string) (prio : Z) (text now : list N) (i : Z) : Prop :=
  ∃ t, t ∈ rows' ∧ id t = i ∧ kind t = k ∧ state t = "pending" ∧ (prio <= priority t)%Z ∧
    payload t = text ∧ updated_at t = now ∧
    ∀ u, id u ≠ i → u ∈ rows ↔ u ∈ rows'.

Lemma update_row_written rows t prio text now :
  queue_ok rows → t ∈ rows → state t = "pending" →
  row_written rows (update_row (id t) text prio now rows) (kind t) prio text now (id t).
Proof.
  intros _ Ht Hs. eexists. split.
  { unfold update_row. apply list_elem_of_fmap_2. exact Ht. }
  rewrite bool_decide_eq_true_2 by done. simpl. repeat split; try done; try lia.
  - intros Hu. unfold update_row. apply list_elem_of_fmap. exists u.
    by rewrite bool_decide_eq_false_2.
  - unfold update_row. intros (v & -> & Hv)%list_elem_of_fmap.
    destruct (bool_decide (id v = id t)) eqn:E; [|done]. bool_to_prop. by simpl in H.
Qed.

(** The newest row of a list. *)
Lemma newest_spec rows :
  match newest rows with
  | Some t => t ∈ rows ∧ ∀ u, u ∈ rows → (id u <= id t)%Z
  | None => rows = []
  end.
Proof.
  unfold newest. set (step := λ best t, _).
  assert (Hg : ∀ rows best,
    match foldl step (Some best) rows with
    | Some t => (t = best ∨ t ∈ rows) ∧ (id best <= id t)%Z ∧ ∀ u, u ∈ rows → (id u <= id t)%Z
    | None => False
    end).
  { clear rows. induction rows as [|t rows IH]; intros best; simpl.
    { split; [by left|split; [lia|]]. by intros u ?%not_elem_of_nil. }
    destruct (Z.ltb_spec (id best) (id t)) as [Hlt|Hge].
    - specialize (IH t). destruct (foldl step (Some t) rows) as [r|]; [|done].
      destruct IH as (Hr & Hb & Hu). split; [right; set_solver|split; [lia|]].
      intros u [->|Hin]%elem_of_cons; [lia|auto].
    - specialize (IH best). destruct (foldl step (Some best) rows) as [r|]; [|done].
      destruct IH as (Hr & Hb & Hu). split; [set_solver|split; [lia|]].
      intros u [->|Hin]%elem_of_cons; [lia|auto]. }
  destruct rows as [|t rows]; [done|]. simpl. specialize (Hg rows t).
  destruct (foldl step (Some t) rows) as [r|]; [|done].
  destruct Hg as (Hr & Hb & Hu). split; [set_solver|].
  intros u [->|Hin]%elem_of_cons; [done|auto].
Qed.

(** ** Properties *)

(** [py_string] writes printable ASCII only, and reading it as a JSON string
    gives the text back, whatever follows: characters past U+FFFF survive as
    their surrogate pair. *)
Theorem py_string_read t k :
  Forall (λ c, is_scalar c = true) t →
  read_string (py_string t ++ k) = Some (t, k) ∧
  Forall (λ c, 32 <= c ∧ c <= 126)%N (py_string t).
Proof.
  intros Ht. split.
  - unfold py_string, read_string. cbn [app]. rewrite N.eqb_refl, <-app_assoc.
    by apply unescape_py_string.
  - unfold py_string. apply Forall_app. split; [repeat constructor; lia|].
    apply Forall_app. split; [|repeat constructor; lia].
    induction Ht as [|c t Hc Ht IH]; [constructor|]. rewrite bind_cons.
    apply Forall_app. split; [by apply py_char_ascii|done].
Qed.

Lemma py_string_read_witness :
  read_string (py_string [233; 34; 1; 128512]%N ++ []) = Some ([233; 34; 1; 128512]%N, []).
Proof. apply py_string_read. repeat constructor. Defined.

Section merging.
Context (parse_object : list N → option TaskPayload) (parse_value : list N → option Value).

(** Merging lets newer keys win and keeps every key once; for an [embed]
    task, [skip_structure] survives exactly when both payloads hold a true one,
    and [files] exactly when both hold a list, as the sorted union of the two. *)
Theorem merge_payloads_spec k old new merged :
  NoDup (keys old) → NoDup (keys new) →
  merge_payloads parse_value k old new = inl merged →
  NoDup (keys merged) ∧
  (∀ key, k ≠ "embed" ∨ (key ≠ SKIP_STRUCTURE ∧ key ≠ FILES) →
     get merged key = match get new key with Some v => Some v | None => get old key end) ∧
  (k = "embed" →
     (∃ o n, truthy parse_value (get old SKIP_STRUCTURE) = inl o ∧
        (o = true → truthy parse_value (get new SKIP_STRUCTURE) = inl n) ∧
        get merged SKIP_STRUCTURE =
        if o && n then match get new SKIP_STRUCTURE with
                       | Some v => Some v | None => get old SKIP_STRUCTURE end else None) ∧
     match path_list parse_value (get old FILES), path_list parse_value (get new FILES) with
     | inl (Some o), inl (Some n) =>
         get merged FILES =
         Some ([91%N] ++ join_comma (py_string <$> union_files o n) ++ [93%N])
     | inl _, inl _ => get merged FILES = None
     | _, _ => False
     end).
Proof.
  intros Ho Hn. unfold merge_payloads. cbv zeta.
  destruct (decide (k = "embed")) as [->|Hk].
  2:{ rewrite (bool_decide_eq_false_2 (k = "embed")) by done. cbn [negb]. intros [= <-].
      split; [by apply NoDup_overlay|split; [|by intros]]. intros key _. by apply get_overlay. }
  rewrite (bool_decide_eq_true_2 ("embed" = "embed")) by done. cbn [negb].
  destruct (truthy parse_value (get old SKIP_STRUCTURE)) as [o|]; [|done]. cbn [rbind].
  assert (Hskip : ∀ (r : result bool) (f : bool → result TaskPayload),
    rbind (if o then r else inl false) f = inl merged →
    ∃ n, (o = true → r = inl n) ∧ f (o && n) = inl merged).
  { intros r f. destruct o, r as [n|]; simpl; try done.
    - intros ?. by exists n.
    - intros ?. by exists n.
    - intros ?. by exists false. }
  intros (n & Hnew & Hm)%Hskip. clear Hskip.
  set (m1 := if o && n then overlay old new else remove (overlay old new) SKIP_STRUCTURE) in Hm.
  assert (Hm1 : NoDup (keys m1)).
  { unfold m1. destruct (o && n); [by apply NoDup_overlay|by apply NoDup_remove, NoDup_overlay]. }
  assert (Hg1 : ∀ key, get m1 key =
    if bool_decide (SKIP_STRUCTURE = key) && negb (o && n) then None
    else match get new key with Some v => Some v | None => get old key end).
  { intros key. unfold m1. destruct (o && n); cbn [negb].
    - rewrite andb_false_r. by apply get_overlay.
    - rewrite get_remove, andb_true_r. destruct (bool_decide _); [done|by apply get_overlay]. }
  destruct (path_list parse_value (get old FILES)) as [olds|]; [|done]. cbn [rbind] in Hm.
  destruct (path_list parse_value (get new FILES)) as [news|]; [|done]. cbn [rbind] in Hm.
  assert (Hcases : ∃ files, (∀ key, get merged key = if bool_decide (FILES = key) then files else get m1 key) ∧
    NoDup (keys merged) ∧
    match olds, news with
    | Some o, Some n => files = Some ([91%N] ++ join_comma (py_string <$> union_files o n) ++ [93%N])
    | _, _ => files = None end).
  { destruct olds as [olds|], news as [news|]; injection Hm as <-; eexists;
      (split; [intros key; first [apply get_set | apply get_remove]|]);
      split; try done; first [by apply NoDup_set | by apply NoDup_remove]. }
  destruct Hcases as (files & Hg & Hnd & Hf). split; [done|split].
  - intros key [|[H1 H2]]; [done|]. rewrite Hg, Hg1.
    by rewrite !bool_decide_eq_false_2 by congruence.
  - intros _. split.
    + exists o, n. split; [done|split; [done|]]. rewrite Hg, Hg1.
      rewrite (bool_decide_eq_false_2 (FILES = SKIP_STRUCTURE)) by done.
      rewrite (bool_decide_eq_true_2 (SKIP_STRUCTURE = SKIP_STRUCTURE)) by done.
      by destruct (o && n).
    + rewrite Hg, bool_decide_eq_true_2 by done. by destruct olds, news.
Qed.

(** C38: [enqueue] keeps at most one pending task of each kind.  When it
    succeeds, the row it returns is pending, of the kind asked for, at no less
    than the kind's priority and just updated: a new row with the payload, when
    there was no pending twin, or the twin with the merged payload; every other
    row is as it was.  It fails, changing no row, for an unknown kind or when the
    twin's payload cannot be merged. *)
Theorem enqueue_correct db k p now r db' :
  queue_ok (default [] db) → enqueue parse_object parse_value db k p now = (r, db') →
  queue_ok (default [] db') ∧
  let rows := open_queue db in
  match r with
  | inl (o, i) => ∃ prio rows', default_priority k = inl prio ∧ db' = Some rows' ∧
      match o with
      | Added => twin k rows = None ∧ i ∉ ids rows ∧ row_written rows rows' k prio (dumps p) now i
      | Coalesced => ∃ t stored merged, twin k rows = Some t ∧ id t = i ∧
          loads parse_object (payload t) = inl stored ∧
          merge_payloads parse_value k stored p = inl merged ∧
          row_written rows rows' k prio (dumps merged) now i
      end
  | inr (UnknownKind _) => db' = db ∧ ∃ e, default_priority k = inr e
  | inr Payload => db' = Some rows ∧ is_Some (twin k rows)
  end.
Proof.
  intros Hok. unfold enqueue.
  destruct (default_priority k) as [prio|e] eqn:Hprio.
  2:{ intros [= <- <-]. split; [done|]. simpl.
      assert (∃ kk, e = UnknownKind kk) as [kk ->]; [|by eauto].
      unfold default_priority in Hprio. repeat (case_match; simplify_eq). by eexists. }
  apply open_queue_ok in Hok as Hok'. set (rows := open_queue db) in *. cbv zeta.
  destruct (twin k rows) as [t|] eqn:Htwin.
  - apply twin_Some in Htwin as Ht. destruct Ht as (Ht & <- & Hs).
    destruct (loads parse_object (payload t)) as [stored|e] eqn:Hl; cbn [rbind].
    2:{ unfold loads in Hl. destruct (parse_object (payload t)); [done|]. injection Hl as <-.
        intros [= <- <-]. split; [done|]. split; [done|by eexists]. }
    destruct (merge_payloads parse_value (kind t) stored p) as [merged|e] eqn:Hm.
    + intros [= <- <-]. split; [by apply update_row_ok|]. exists prio, (update_row (id t) (dumps merged) prio now rows).
      split; [done|split; [done|]]. exists t, stored, merged.
      repeat (split; [done|]). by apply update_row_written.
    + intros [= <- <-]. split; [done|].
      assert (e = Payload) as ->; [|split; [done|by eexists]].
      eapply merge_payloads_error. exact Hm.
  - intros [= <- <-]. split.
    { apply insert_row_ok; [done|done|apply next_id_above|apply next_id_pos]. }
    exists prio. eexists. split; [done|split; [reflexivity|]].
    assert (Hni : next_id rows ∉ ids rows) by (intros Hin%next_id_above; lia).
    split; [done|split; [done|]].
    eexists. split; [apply elem_of_app; right; by apply list_elem_of_singleton|].
    simpl. repeat split; try done; try lia.
    + intros Hu. apply elem_of_app. by left.
    + rewrite elem_of_app, list_elem_of_singleton. intros [Hu| ->]; [done|]. by simpl in H.
Qed.

End merging.

Lemma merge_payloads_spec_witness :
  merge_payloads (λ _, None) "update" [(chars "a", chars "1")] [(chars "a", chars "2")] =
    inl [(chars "a", chars "2")] ∧
  NoDup (keys [(chars "a", chars "2")]).
Proof.
  split; [reflexivity|].
  refine (proj1 (merge_payloads_spec (λ _, None) "update" [(chars "a", chars "1")]
            [(chars "a", chars "2")] [(chars "a", chars "2")] _ _ _));
    [apply NoDup_singleton|apply NoDup_singleton|reflexivity].
Defined.

Lemma enqueue_correct_witness :
  queue_ok (default [] (snd (enqueue (λ _, None) (λ _, None) None "prepare" [] (chars "now")))).
Proof.
  refine (proj1 (enqueue_correct (λ _, None) (λ _, None) None "prepare" [] (chars "now") _ _ _ _)).
  - split; [constructor|split; [constructor|]]. intros t1 t2 H1. exfalso. by apply not_elem_of_nil in H1.
  - reflexivity.
Defined.

(** The stalled update reported is the newest task that is one: an update
    that is dead, or left running past its budget, and later than the graph's
    last update when that is known; none is reported exactly when there is none. *)
Theorem stalled_update_newest stale later rows since :
  let stuck t := t ∈ rows ∧ kind t = "update" ∧
    (state t = "dead" ∨ (state t = "running" ∧ stale (updated_at t) = true)) ∧
    (∀ s, since = Some s → s ≠ [] → later (updated_at t) s = true) in
  match stalled_update stale later (Some rows) since with
  | Some su => ∃ t, stuck t ∧ su = mkStalledUpdate (id t) (state t) (attempts t) (last_error t) ∧
                 ∀ u, stuck u → (id u <= id t)%Z
  | None => ∀ t, ¬ stuck t
  end.
Proof.
  intros stuck. unfold stalled_update. cbn [mbind option_bind].
  set (since' := match since with Some [] => None | _ => since end).
  assert (Hst : ∀ t, t ∈ filter (λ t, stalled_where stale later since' t = true) rows ↔ stuck t).
  { intros t. rewrite list_elem_of_filter. unfold stuck, stalled_where.
    rewrite !andb_true_iff, orb_true_iff, andb_true_iff, !bool_decide_eq_true.
    assert (Hs : match since' with None => true | Some s => later (updated_at t) s end = true ↔
                 ∀ s, since = Some s → s ≠ [] → later (updated_at t) s = true).
    { unfold since'. destruct since as [[|c s]|]; [naive_solver| |naive_solver].
      split; [intros H s' [= <-] _; exact H|intros H; by apply H]. }
    rewrite Hs. tauto. }
  pose proof (newest_spec (filter (λ t, stalled_where stale later since' t = true) rows)) as Hn.
  destruct (newest _) as [t|]; simpl.
  - destruct Hn as [Ht Hmax]. exists t. split; [by apply Hst|split; [done|]].
    intros u Hu. by apply Hmax, Hst.
  - intros t Ht. apply Hst in Ht. rewrite Hn in Ht. by apply not_elem_of_nil in Ht.
Qed.

End TaskQueue.
