(* ===== verification/Lock.v ===== *)
(** * The cross-process graph lock

    Models crates/dagayn-build/src/lock.rs: the polling loop of [acquire_mode],
    with its back-off and its ways to give up, and the protocol between any
    number of handles of one lock file as a step relation, in which a writer
    records its pid in several calls that may each fail.  Times are milliseconds.
    The answers of [flock] and the clock are parameters of the loop; in the
    protocol a lock is granted when it conflicts with no other. *)
From S2P Require Import Prelude.

Module Lock.

(** Source: crates/dagayn-build/src/lock.rs 17-23 [LockMode]. *)
Inductive LockMode := Exclusive | Shared.

#[export] Instance LockMode_eq_dec : EqDecision LockMode.
Proof. solve_decision. Defined.

(** What the loop ends with; [Open] errors come before it.

    Source: crates/dagayn-build/src/lock.rs 25-40 [LockError]. *)
Inductive outcome := Acquired | Busy | Timeout.

(** Source: crates/dagayn-build/src/lock.rs 15 [MAX_POLL_INTERVAL]. *)
Definition MAX_POLL_INTERVAL : nat := 100.

Section poll.
(** Whether the [n]th [flock] succeeds, and the time elapsed when it has not. *)
Context (flock : nat → bool) (elapsed : nat → nat).

(** The loop from its [n]th try with the sleep [interval]; the sleeps made are
    returned, and each try takes one unit of fuel.

    Source: crates/dagayn-build/src/lock.rs 88-107 [GraphLock::acquire_mode]. *)
Fixpoint poll (fuel n interval : nat) (wait : option nat) : option (outcome * list nat) :=
  match fuel with
  | 0 => None
  | S fuel =>
      if flock n then Some (Acquired, [])
      else
        match wait with
        | None => Some (Busy, [])
        | Some timeout =>
            if timeout <=? elapsed n then Some (Timeout, [])
            else
              '(r, sleeps) ← poll fuel (S n) (min (interval * 2) MAX_POLL_INTERVAL) wait;
              Some (r, interval :: sleeps)
        end
  end.

(** Source: crates/dagayn-build/src/lock.rs 88-107 [GraphLock::acquire_mode]. *)
Definition acquire (fuel : nat) (wait : option nat) : option (outcome * list nat) :=
  poll fuel 0 50 wait.

(** The sleep after the [n]th try. *)
Definition interval (n : nat) : nat := match n with 0 => 50 | _ => MAX_POLL_INTERVAL end.

(** The time slept before the [n]th try. *)
Fixpoint slept (n : nat) : nat :=
  match n with 0 => 0 | S n => slept n + interval n end.

(** The tries that fit in a timeout. *)
Definition tries (timeout : nat) : nat := timeout / 50 + 2.

(** A sleep lasts at least what was asked, and the clock does not go back. *)
Hypothesis clock : ∀ n, slept n <= elapsed n.

Lemma slept_lower n : 50 * n <= slept n.
Proof. induction n as [|n IH]; [done|]. destruct n; simpl in *; unfold MAX_POLL_INTERVAL; lia. Qed.

Lemma interval_next n : min (interval n * 2) MAX_POLL_INTERVAL = interval (S n).
Proof. by destruct n. Qed.

Definition sleeps_from (n k : nat) : list nat := interval <$> seq n k.

Lemma poll_spec fuel n wait :
  match poll fuel n (interval n) wait with
  | Some (r, sleeps) =>
      ∃ k, sleeps = sleeps_from n k ∧ (∀ i, n <= i < n + k → flock i = false) ∧
        match r with
        | Acquired => flock (n + k) = true
        | Busy => wait = None ∧ k = 0 ∧ flock n = false
        | Timeout => ∃ timeout, wait = Some timeout ∧ flock (n + k) = false ∧ timeout <= elapsed (n + k)
        end
  | None => ∃ timeout, (wait = Some timeout ∧ ∀ i, n <= i < n + fuel → elapsed i < timeout) ∨ fuel = 0
  end.
Proof.
  revert n. induction fuel as [|fuel IH]; intros n; simpl; [exists 0; by right|].
  destruct (flock n) eqn:Hn.
  { exists 0. rewrite Nat.add_0_r. split; [done|split; [|done]]. intros i Hi. lia. }
  destruct wait as [timeout|].
  2:{ exists 0. split; [done|split; [|done]]. intros i Hi. lia. }
  destruct (Nat.leb_spec timeout (elapsed n)) as [Ht|Ht].
  { exists 0. rewrite Nat.add_0_r. split; [done|split]; [intros i Hi; lia|]. by exists timeout. }
  rewrite interval_next. specialize (IH (S n)).
  destruct (poll fuel (S n) (interval (S n)) (Some timeout)) as [[r sleeps]|]; simpl.
  - destruct IH as (k & -> & Hf & Hr). exists (S k). split; [done|]. split.
    { intros i Hi. destruct (decide (i = n)) as [->|]; [done|]. apply Hf. lia. }
    rewrite Nat.add_succ_comm in Hr. destruct r; [done| |].
    + by destruct Hr as [[=] _].
    + exact Hr.
  - destruct IH as [t [[[= <-] Hall]|Hf]]; exists timeout; left; split; try done.
    + intros i Hi. destruct (decide (i = n)) as [->|]; [done|]. apply Hall. lia.
    + intros i Hi. assert (i = n) as -> by lia. done.
Qed.

End poll.

(** ** The protocol *)

(** The line a writer records: its pid.

    Source: crates/dagayn-build/src/lock.rs 113 [GraphLock::acquire_mode]. *)
Definition pid_line (pid : nat) : list N := chars (decimal pid) ++ [10%N].

(** What one handle is doing: nothing, polling, recording its pid, which starts
    with emptying the file and goes on with the text still to write, or holding
    the lock; a holder knows whether its pid was written. *)
Inductive handle :=
  | Idle
  | Polling (mode : LockMode)
  | Truncating
  | Writing (rest : list N)
  | Holding (mode : LockMode) (written : bool).

(** The lock a handle has been granted. *)
Definition mode_held (x : handle) : option LockMode :=
  match x with
  | Idle | Polling _ => None
  | Truncating | Writing _ => Some Exclusive
  | Holding mode _ => Some mode
  end.

(** All handles, each with its pid, and the text of the lock file.  The locks
    granted on the file are those the handles have.

    Source: crates/dagayn-build/src/lock.rs 42-45 [GraphLock]. *)
Record system := mkSystem { handles : gmap nat handle; pid : nat → nat; contents : list N }.

Definition with_handle (h : nat) (x : handle) (s : system) : system := mkSystem (<[h := x]> (handles s)) (pid s) (contents s).
Definition with_text (t : list N) (s : system) : system := mkSystem (handles s) (pid s) t.

(** [flock] with [LOCK_EX] or [LOCK_SH] and [LOCK_NB], by the kernel: granted
    unless another handle's lock conflicts. *)
Definition compatible (mode : LockMode) (h : nat) (s : system) : Prop :=
  ∀ h' x m, handles s !! h' = Some x → mode_held x = Some m → h' ≠ h → mode = Shared ∧ m = Shared.

(** Once the lock is granted: only a writer records its pid.

    Source: crates/dagayn-build/src/lock.rs 108-116 [GraphLock::acquire_mode]. *)
Definition granted (mode : LockMode) : handle :=
  if bool_decide (mode = Exclusive) then Truncating else Holding mode false.

(** One step of one handle.  Recording is three calls, and a write may take part
    of the text; what fails is ignored and the lock is kept.  A process may die
    at any point, which drops its lock as dropping the handle does.

    Source: crates/dagayn-build/src/lock.rs 59-126 [GraphLock::acquire_mode]. *)
Inductive step (s : system) : system → Prop :=
  | step_open h mode :
      handles s !! h = Some Idle →
      step s (with_handle h (Polling mode) s)
  | step_granted h mode :
      handles s !! h = Some (Polling mode) → compatible mode h s →
      step s (with_handle h (granted mode) s)
  | step_refused h mode :
      handles s !! h = Some (Polling mode) → ¬ compatible mode h s →
      step s s
  | step_emptied h :
      handles s !! h = Some Truncating →
      step s (with_text [] (with_handle h (Writing (pid_line (pid s h))) s))
  | step_appended h t rest :
      handles s !! h = Some (Writing (t ++ rest)) → rest ≠ [] →
      step s (with_text (contents s ++ t) (with_handle h (Writing rest) s))
  | step_recorded h rest :
      handles s !! h = Some (Writing rest) →
      step s (with_text (contents s ++ rest) (with_handle h (Holding Exclusive true) s))
  | step_not_recorded h x :
      handles s !! h = Some x → x = Truncating ∨ (∃ rest, x = Writing rest) →
      step s (with_handle h (Holding Exclusive false) s)
  | step_drop h x :
      handles s !! h = Some x → x ≠ Idle →
      step s (with_handle h Idle s).

(** No handle has or wants the lock at the start; the file may hold anything. *)
Definition initial (s : system) : Prop := ∀ h x, handles s !! h = Some x → x = Idle.

(** The text is what was there first, or the start of the line of one handle. *)
Definition whole (t0 : list N) (s : system) : Prop :=
  contents s = t0 ∨ ∃ h, contents s `prefix_of` pid_line (pid s h).

Record lock_ok (t0 : list N) (s : system) : Prop := {
  ok_alone h x h' x' m : handles s !! h = Some x → mode_held x = Some Exclusive →
    handles s !! h' = Some x' → mode_held x' = Some m → h' = h;
  ok_text : whole t0 s;
  ok_writing h rest : handles s !! h = Some (Writing rest) → contents s ++ rest = pid_line (pid s h);
  ok_written h mode : handles s !! h = Some (Holding mode true) → mode = Exclusive ∧ contents s = pid_line (pid s h)
}.

Lemma lock_ok_initial s : initial s → lock_ok (contents s) s.
Proof. intros H. split; [by intros h x h' x' m ->%H|by left|by intros h rest ?%H|by intros h mode ?%H]. Qed.

(** A handle that goes on alone: the others are as they were, and those that
    hold the lock exclusively still see their text. *)
Lemma lock_ok_change t0 s h x t :
  lock_ok t0 s → whole t0 (with_text t s) →
  (∀ h' y m, handles s !! h' = Some y → h' ≠ h → mode_held y = Some m →
     (mode_held x = Some Exclusive ∨ (mode_held x ≠ None ∧ m = Exclusive) → False) ∧ (m = Exclusive → t = contents s)) →
  (∀ rest, x = Writing rest → t ++ rest = pid_line (pid s h)) →
  (∀ mode, x = Holding mode true → mode = Exclusive ∧ t = pid_line (pid s h)) →
  lock_ok t0 (with_text t (with_handle h x s)).
Proof.
  intros [Halone Htext Hwriting Hwritten] Ht Hothers Hw Hh. split; cbn [handles contents pid with_text with_handle].
  - intros h1 x1 h2 x2 m [[<- <-]|[Hn1 H1]]%lookup_insert_Some Hx1 [[<- <-]|[Hn2 H2]]%lookup_insert_Some Hx2; [done| | |by eapply Halone].
    + exfalso. destruct (Hothers h2 x2 m H2 ltac:(done) Hx2) as [Hno _]. apply Hno. by left.
    + exfalso. destruct (Hothers h1 x1 Exclusive H1 ltac:(done) Hx1) as [Hno _]. apply Hno. right. by rewrite Hx2.
  - exact Ht.
  - intros h' rest [[<- ->]|[Hn H']]%lookup_insert_Some; [by apply Hw|].
    destruct (Hothers h' _ Exclusive H' ltac:(done) eq_refl) as [_ Hs]. rewrite Hs by done. by apply Hwriting.
  - intros h' mode [[<- ->]|[Hn H']]%lookup_insert_Some; [by apply Hh|].
    destruct (Hwritten h' mode H') as [-> Hc]. destruct (Hothers h' _ Exclusive H' ltac:(done) eq_refl) as [_ Hs]. split; [done|].
    by rewrite Hs.
Qed.

Lemma with_same_text s : with_text (contents s) s = s.
Proof. by destruct s. Qed.

Lemma lock_ok_step t0 s s' : lock_ok t0 s → step s s' → lock_ok t0 s'.
Proof.
  intros Hok Hstep. pose proof Hok as [Halone Htext Hwriting Hwritten].
  assert (Hquiet : ∀ h x y, handles s !! h = Some x → mode_held y = None ∨ mode_held y = mode_held x →
    (∀ rest, y ≠ Writing rest) → (∀ mode, y ≠ Holding mode true) → lock_ok t0 (with_handle h y s)).
  { intros h x y Hx Hy Hw Hh. rewrite <-(with_same_text (with_handle h y s)). apply lock_ok_change; [done|exact Htext| |by intros ? ?%Hw|by intros ? ?%Hh].
    intros h' z m Hz Hne Hm. split; [|done]. destruct Hy as [Hy|Hy]; rewrite Hy; [by intros [?|[? _]]|].
    intros [He|[Hsome ->]]; [by apply Hne; eapply Halone|]. destruct (mode_held x) as [mx|] eqn:Hmx; [|done]. apply Hne. symmetry. by eapply Halone. }
  assert (Hwriter : ∀ h x y t, handles s !! h = Some x → mode_held x = Some Exclusive → mode_held y = Some Exclusive →
    whole t0 (with_text t s) → (∀ rest, y = Writing rest → t ++ rest = pid_line (pid s h)) →
    (∀ mode, y = Holding mode true → mode = Exclusive ∧ t = pid_line (pid s h)) → lock_ok t0 (with_text t (with_handle h y s))).
  { intros h x y t Hx Hmx Hy Ht Hw Hh. apply lock_ok_change; [done..| |done|done]. intros h' z m Hz Hne Hm.
    exfalso. apply Hne. by eapply Halone. }
  destruct Hstep as [h mode Hh|h mode Hh Hc|h mode Hh Hc|h Hh|h t rest Hh Hrest|h rest Hh|h x Hh Hx|h x Hh Hx].
  - apply (Hquiet h Idle); [done|by left|done..].
  - rewrite <-(with_same_text (with_handle h (granted mode) s)). apply lock_ok_change; [done|exact Htext| |..].
    + intros h' y m Hy Hne Hm. destruct (Hc h' y m Hy Hm Hne) as [-> ->]. split; [|done]. cbn. by intros [?|[_ ?]].
    + unfold granted. by case_bool_decide.
    + unfold granted. by case_bool_decide.
  - done.
  - apply (Hwriter h Truncating); [done..| | |done]; [right; exists h; apply prefix_nil|by intros rest [= <-]].
  - apply (Hwriter h (Writing (t ++ rest))); [done..| | |done].
    + right. exists h. exists rest. cbn. by rewrite <-app_assoc, (Hwriting h _ Hh).
    + intros rest' [= <-]. by rewrite <-app_assoc, (Hwriting h _ Hh).
  - apply (Hwriter h (Writing rest)); [done..| |done|].
    + right. exists h. cbn. by rewrite (Hwriting h _ Hh).
    + intros mode [= <-]. split; [done|]. by apply Hwriting.
  - apply (Hquiet h x); [done| |done..]. right. by destruct Hx as [->|[rest ->]].
  - apply (Hquiet h x); [done|by left|done..].
Qed.

(** ** Properties *)

(** C39: The record of the writer in the lock file is never garbled.  In every
    state reached, however the handles' openings, tries, partial writes, failed
    writes, drops and deaths interleave, the text of the file is what was there
    before any writer, or the start of the line with one handle's pid; while a
    handle whose pid was written holds the lock it is exactly that line; and a
    handle that has the lock exclusively, also one whose write failed, is the
    only one that has it.  What is taken from the kernel is that it grants only
    compatible locks. *)
Theorem pid_record_whole s0 s :
  initial s0 → rtc step s0 s →
  (contents s = contents s0 ∨ ∃ h, contents s `prefix_of` pid_line (pid s h)) ∧
  (∀ h mode, handles s !! h = Some (Holding mode true) → mode = Exclusive ∧ contents s = pid_line (pid s h)) ∧
  ∀ h x h' x' m, handles s !! h = Some x → mode_held x = Some Exclusive →
    handles s !! h' = Some x' → mode_held x' = Some m → h' = h.
Proof.
  intros H0 Hr. apply lock_ok_initial in H0. revert H0. generalize (contents s0) as t0. intros t0 H0.
  assert (Hok : lock_ok t0 s) by (induction Hr; eauto using lock_ok_step).
  destruct Hok as [Ha Ht _ Hw]. by split_and!.
Qed.

(** A writer that takes the lock while a reader waits, and is cut off while it
    writes its pid. *)
Lemma pid_record_whole_witness :
  let start := mkSystem {[1 := Idle; 2 := Idle]} (λ h, h + 40) (chars "7") in
  ∃ s, rtc step start s ∧ handles s !! 1 = Some (Writing [49%N; 10%N]) ∧ contents s = [52%N] ∧
    (contents s = contents start ∨ ∃ h, contents s `prefix_of` pid_line (pid s h)).
Proof.
  intros start.
  set (s1 := with_handle 2 (Polling Shared) start). assert (H1 : step start s1) by (apply step_open; reflexivity).
  set (s2 := with_handle 1 (Polling Exclusive) s1). assert (H2 : step s1 s2) by (apply step_open; reflexivity).
  set (s3 := with_handle 1 (granted Exclusive) s2).
  assert (H3 : step s2 s3).
  { apply step_granted; [reflexivity|]. intros h' x m Hx Hm Hne. exfalso. unfold s2, s1, start in Hx. cbn [handles with_handle] in Hx.
    rewrite lookup_insert_ne in Hx by done. apply lookup_insert_Some in Hx as [[_ <-]|[_ Hx]]; [done|].
    apply lookup_insert_Some in Hx as [[_ <-]|[_ Hx]]; [done|]. by apply lookup_singleton_Some in Hx as [_ <-]. }
  set (s4 := with_text [] (with_handle 1 (Writing (pid_line 41)) s3)). assert (H4 : step s3 s4) by (apply (step_emptied s3 1); reflexivity).
  set (s5 := with_text (contents s4 ++ [52%N]) (with_handle 1 (Writing [49%N; 10%N]) s4)).
  assert (H5 : step s4 s5) by (apply (step_appended s4 1 [52%N] [49%N; 10%N]); [reflexivity|done]).
  assert (Hr : rtc step start s5) by (do 5 (eapply rtc_l; [eassumption|]); reflexivity).
  exists s5. split; [exact Hr|]. split; [reflexivity|]. split; [reflexivity|].
  refine (proj1 (pid_record_whole start s5 _ Hr)).
  intros h x Hx. change (<[1 := Idle]> ({[2 := Idle]} : gmap nat handle) !! h = Some x) in Hx. apply lookup_insert_Some in Hx as [[_ <-]|[_ Hx]]; [done|]. by apply lookup_singleton_Some in Hx as [_ <-].
Defined.

(** C40: acquiring with a timeout ends after at most [timeout / 50 + 2] tries,
    sleeping 50 and then 100 milliseconds between them: it has the lock, at the
    first try that is granted, or has timed out with every try refused and the
    timeout spent; without a timeout the first refusal is [Busy]. *)
Theorem acquire_outcome flock elapsed wait :
  (∀ n, slept n <= elapsed n) →
  ∃ r k, acquire flock elapsed (match wait with Some t => tries t | None => 1 end) wait =
         Some (r, sleeps_from 0 k) ∧
    (∀ i, i < k → flock i = false) ∧
    match r with
    | Acquired => flock k = true
    | Busy => wait = None ∧ k = 0 ∧ flock 0 = false
    | Timeout => ∃ t, wait = Some t ∧ flock k = false ∧ t <= elapsed k
    end.
Proof.
  intros Hclock. unfold acquire. change 50 with (interval 0) at 1.
  pose proof (poll_spec flock elapsed (match wait with Some t => tries t | None => 1 end) 0 wait) as H.
  destruct (poll _ _ _ _ _ _) as [[r sleeps]|].
  - destruct H as (k & -> & Hf & Hr). exists r, k. split; [done|]. split; [|exact Hr].
    intros i Hi. apply Hf. lia.
  - exfalso. destruct H as (t & [[-> Hall]|Hz]); [|destruct wait; unfold tries in *; lia].
    specialize (Hall (tries t - 1)). unfold tries in *.
    pose proof (slept_lower (t / 50 + 2 - 1)). specialize (Hclock (t / 50 + 2 - 1)).
    pose proof (Nat.div_mod_eq t 50). pose proof (Nat.mod_upper_bound t 50). lia.
Qed.

Lemma acquire_outcome_witness :
  acquire (λ n, n =? 3) slept (tries 1000) (Some 1000) = Some (Acquired, [50; 100; 100]) ∧
  ∃ r k, acquire (λ n, n =? 3) slept (tries 1000) (Some 1000) = Some (r, sleeps_from 0 k).
Proof.
  split; [vm_compute; reflexivity|].
  destruct (acquire_outcome (λ n, n =? 3) slept (Some 1000)) as (r & k & H & _); [done|].
  exists r, k. exact H.
Defined.

End Lock.
