(* ===== verification/GraphData.v ===== *)
(** * The data of the graph store

    Models the types of crates/dagayn-graph/src/lib.rs and the helpers that build
    rows from parser output (helpers/tx.rs, helpers/rows.rs, helpers/batch.rs):
    qualified names, confidence tiers and scores, the values of a node row and of
    an edge row.  Text columns are byte strings; [f64] is the Standard Library's
    [spec_float].  JSON values are [serde_json]'s: their operations are the
    class [Json]. *)
From Stdlib Require Import Floats.SpecFloat.
From S2P Require Import Prelude.

Module GraphData.

(** ** Floats *)

Definition f64 : Type := spec_float.

(** 1.0 and 0.2. *)
Definition one : f64 := S754_finite false 4503599627370496 (-52).
Definition fifth : f64 := S754_finite false 7205759403792794 (-55).

(** [f64::min]. *)
Definition f64_min (x y : f64) : f64 :=
  match x, y with
  | S754_nan, _ => y
  | _, S754_nan => x
  | _, _ => match SFcompare x y with Some Gt => y | _ => x end
  end.

(** [x <= y], false when either is not a number. *)
Definition f64_le (x y : f64) : Prop :=
  SFcompare x y = Some Lt ∨ SFcompare x y = Some Eq.

(** ** JSON *)

(** What the store uses of [serde_json::Value]. *)
Class Json := {
  Value : Type;
  is_null : Value → bool;
  is_empty_object : Value → bool;
  (** [serde_json::to_string] and [from_str]. *)
  to_string : Value → option string;
  from_str : string → option Value;
  empty_object : Value;
  (** [value.get(key).and_then(Value::as_f64)] and [... as_str]. *)
  get_f64 : Value → string → option f64;
  get_str : Value → string → option string;
  (** [value.get(key).and_then(Value::as_bool)] and [value.get(key).is_some()]. *)
  get_bool : Value → string → option bool;
  has_key : Value → string → bool
}.

(** ** Errors *)

(** The errors a store operation meets, I/O apart: a constraint of SQLite, or
    JSON.

    Source: crates/dagayn-graph/src/lib.rs 216-233 [GraphError]. *)
Inductive GraphError := Sqlite | JsonError.

(** Source: crates/dagayn-graph/src/lib.rs 259 [Result]. *)
Definition Result (A : Type) : Type := A + GraphError.

Definition rbind {A B} (f : A → Result B) (r : Result A) : Result B :=
  match r with inl a => f a | inr e => inr e end.

#[global] Instance result_ret : MRet Result := λ A a, inl a.
#[global] Instance result_bind : MBind Result := @rbind.

(** A JSON failure as an error. *)
Definition json {A} (o : option A) : Result A :=
  match o with Some a => inl a | None => inr JsonError end.

(** A loop that stops at the first error. *)
Fixpoint try_fold {A B} (f : A → B → Result A) (a : A) (l : list B) : Result A :=
  match l with
  | [] => inl a
  | b :: l => a ← f a b; try_fold f a l
  end.

(** ** Confidence *)

(** Source: crates/dagayn-graph/src/lib.rs 331-340 [ConfidenceTier]. *)
Inductive ConfidenceTier := Exact | Extracted | High | Medium | Low | Unknown.

#[global] Instance ConfidenceTier_eq_dec : EqDecision ConfidenceTier.
Proof. solve_decision. Defined.

(** [str::to_ascii_uppercase]. *)
Fixpoint to_ascii_uppercase (s : string) : string :=
  match s with
  | EmptyString => EmptyString
  | String c s =>
      let n := Ascii.N_of_ascii c in
      String (if (97 <=? n)%N && (n <=? 122)%N then Ascii.ascii_of_N (n - 32) else c)
        (to_ascii_uppercase s)
  end.

(** Source: crates/dagayn-graph/src/lib.rs 343-353 [ConfidenceTier::from_raw]. *)
Definition from_raw (value : option string) : ConfidenceTier :=
  let raw := to_ascii_uppercase (default "EXTRACTED" value) in
  if bool_decide (raw = "EXACT") then Exact
  else if bool_decide (raw = "EXTRACTED") then Extracted
  else if bool_decide (raw = "HIGH") then High
  else if bool_decide (raw = "MEDIUM") then Medium
  else if bool_decide (raw = "LOW") then Low
  else if bool_decide (raw = "UNKNOWN") then Unknown
  else Extracted.

(** Source: crates/dagayn-graph/src/lib.rs 355-364 [ConfidenceTier::as_str]. *)
Definition as_str (t : ConfidenceTier) : string :=
  match t with
  | Exact => "EXACT"
  | Extracted => "EXTRACTED"
  | High => "HIGH"
  | Medium => "MEDIUM"
  | Low => "LOW"
  | Unknown => "UNKNOWN"
  end.

(** [str::starts_with]. *)
Definition starts_with (prefix s : string) : bool := String.prefix prefix s.

Definition unresolved (name : string) : bool := starts_with "<unresolved:" name.

(** Source: crates/dagayn-graph/src/helpers/batch.rs 301-316 [normalize_edge_confidence]. *)
Definition normalize_edge_confidence (source target : string) (confidence : f64)
    (tier : ConfidenceTier) : f64 * ConfidenceTier :=
  if (unresolved source || unresolved target)
     && (bool_decide (tier = Extracted) || bool_decide (tier = Unknown))
  then (f64_min confidence fifth, Low)
  else (confidence, tier).

(** ** Names *)

(** Source: crates/dagayn-graph/src/helpers/tx.rs 25-38 [make_qualified_parts]. *)
Definition make_qualified_parts (kind name file_path : string) (parent_name : option string)
    : string :=
  if bool_decide (kind = "File") then file_path
  else match parent_name with
       | Some parent => file_path +:+ "::" +:+ parent +:+ "." +:+ name
       | None => file_path +:+ "::" +:+ name
       end.

Definition colon : Ascii.ascii := Ascii.ascii_of_nat 58.

(** What follows the last ["::"], if there is one. *)
Fixpoint after_last_colons (s : string) : option string :=
  match s with
  | EmptyString => None
  | String c rest =>
      match after_last_colons rest with
      | Some r => Some r
      | None =>
          match rest with
          | String d r =>
              if bool_decide (c = colon) && bool_decide (d = colon) then Some r else None
          | EmptyString => None
          end
      end
  end.

(** [str::split_once] at ["::"]. *)
Fixpoint split_colons (s : string) : option (string * string) :=
  match s with
  | String c (String d rest as s') =>
      if bool_decide (c = colon ∧ d = colon) then Some ("", rest)
      else '(p, rest) ← split_colons s'; Some (String c p, rest)
  | _ => None
  end.

(** Source: crates/dagayn-graph/src/helpers/tx.rs 40-46 [edge_target_name]. *)
Definition edge_target_name (target_qualified : string) : string :=
  default target_qualified (after_last_colons target_qualified).

(** ** Inputs and rows *)

Section data.
Context `{Json}.

(** Source: crates/dagayn-graph/src/lib.rs 261-282 [NodeInput]. *)
Record NodeInput := mkNodeInput {
  ni_kind : string;
  ni_name : string;
  ni_file_path : string;
  ni_line_start : Z;
  ni_line_end : Z;
  ni_language : string;
  ni_parent_name : option string;
  ni_params : option string;
  ni_return_type : option string;
  ni_modifiers : option string;
  ni_is_test : bool;
  ni_extra : Value
}.

(** Source: crates/dagayn-graph/src/lib.rs 284-294 [EdgeInput]. *)
Record EdgeInput := mkEdgeInput {
  ei_kind : string;
  ei_source : string;
  ei_target : string;
  ei_file_path : string;
  ei_line : Z;
  ei_extra : Value
}.

(** The raw compact forms hold the same fields with the JSON of [extra] as
    written.

    Source: crates/dagayn-graph/src/lib.rs 474-488 [RawCompactNodeInput]. *)
Record RawCompactNodeInput := mkRawNode {
  rn_kind : string;
  rn_name : string;
  rn_file_path : string;
  rn_line_start : Z;
  rn_line_end : Z;
  rn_language : string;
  rn_parent_name : option string;
  rn_params : option string;
  rn_return_type : option string;
  rn_modifiers : option string;
  rn_is_test : bool;
  rn_extra : string
}.

(** Source: crates/dagayn-graph/src/lib.rs 490-491 [RawCompactEdgeInput]. *)
Record RawCompactEdgeInput := mkRawEdge {
  re_kind : string;
  re_source : string;
  re_target : string;
  re_file_path : string;
  re_line : Z;
  re_extra : string
}.

(** A file of a batch: its path, nodes, edges, hash and modification time.

    Source: crates/dagayn-graph/src/lib.rs 471 [FileBatchItem]. *)
Record FileBatchItem (N E : Type) := mkItem {
  item_path : string;
  item_nodes : list N;
  item_edges : list E;
  item_hash : string;
  item_mtime : Z
}.

(** The columns a write of a node sets.

    Source: crates/dagayn-graph/src/lib.rs 168-186 [SCHEMA_SQL]. *)
Record NodeVals := mkNodeVals {
  kind : string;
  name : string;
  qualified_name : string;
  file_path : string;
  line_start : Z;
  line_end : Z;
  language : string;
  parent_name : option string;
  params : option string;
  return_type : option string;
  modifiers : option string;
  is_test : bool;
  file_hash : string;
  mtime_ns : Z;
  extra : string;
  updated_at : f64
}.

(** A node row: its id, those columns, and the columns post-processing sets. *)
Record NodeRow := mkNodeRow {
  node_id : Z;
  vals : NodeVals;
  signature : option string;
  community_id : option Z
}.

(** A row of the risk table.

    Source: crates/dagayn-graph/src/summary_risk.rs 60-90 [compute_risk_index]. *)
Record RiskRow := mkRiskRow {
  risk_node : Z;
  risk_name : string;
  risk_score : f64;
  caller_count : Z;
  test_coverage : string;
  security_relevant : bool;
  last_computed : string
}.

(** The columns of an edge but its id.

    Source: crates/dagayn-graph/src/lib.rs 188-200 [SCHEMA_SQL]. *)
Record EdgeVals := mkEdgeVals {
  e_kind : string;
  source_qualified : string;
  target_qualified : string;
  target_name : string;
  e_file_path : string;
  e_line : Z;
  e_extra : string;
  confidence : f64;
  confidence_tier : string;
  e_updated_at : f64
}.

Record EdgeRow := mkEdgeRow { edge_id : Z; e_vals : EdgeVals }.

(** Source: crates/dagayn-graph/src/helpers/rows.rs 5-11 [extra_json]. *)
Definition extra_json (v : Value) : Result string :=
  if is_null v || is_empty_object v then inl "{}" else json (to_string v).

(** Source: crates/dagayn-graph/src/helpers/batch.rs 287-299 [edge_metadata_from_raw_extra]. *)
Definition edge_metadata_from_raw_extra (raw : string) : Result (f64 * ConfidenceTier) :=
  if bool_decide (raw = "{}") then inl (one, Extracted)
  else
    extra ← json (from_str raw);
    inl (default one (get_f64 extra "confidence"), from_raw (get_str extra "confidence_tier")).

(** Source: crates/dagayn-graph/src/helpers/batch.rs 58-82 [store_file_batch_tx]. *)
Definition node_vals (now : f64) (hash : string) (mtime : Z) (n : NodeInput) : Result NodeVals :=
  extra ← extra_json (ni_extra n);
  inl (mkNodeVals (ni_kind n) (ni_name n)
         (make_qualified_parts (ni_kind n) (ni_name n) (ni_file_path n) (ni_parent_name n))
         (ni_file_path n) (ni_line_start n) (ni_line_end n) (ni_language n) (ni_parent_name n)
         (ni_params n) (ni_return_type n) (ni_modifiers n) (ni_is_test n) hash mtime extra now).

(** Source: crates/dagayn-graph/src/helpers/batch.rs 168-200 [store_raw_compact_file_batch_tx]. *)
Definition raw_node_vals (now : f64) (hash : string) (mtime : Z) (n : RawCompactNodeInput)
    : Result NodeVals :=
  inl (mkNodeVals (rn_kind n) (rn_name n)
         (make_qualified_parts (rn_kind n) (rn_name n) (rn_file_path n) (rn_parent_name n))
         (rn_file_path n) (rn_line_start n) (rn_line_end n) (rn_language n) (rn_parent_name n)
         (rn_params n) (rn_return_type n) (rn_modifiers n) (rn_is_test n) hash mtime
         (rn_extra n) now).

(** The identity of an edge.

    Source: crates/dagayn-graph/src/helpers/batch.rs 91-97 [store_file_batch_tx]. *)
Definition EdgeKey : Type := string * string * string * string * Z.

Definition key_of (v : EdgeVals) : EdgeKey :=
  (e_kind v, source_qualified v, target_qualified v, e_file_path v, e_line v).

Definition edge_key (e : EdgeInput) : EdgeKey :=
  (ei_kind e, ei_source e, ei_target e, ei_file_path e, ei_line e).

Definition raw_edge_key (e : RawCompactEdgeInput) : EdgeKey :=
  (re_kind e, re_source e, re_target e, re_file_path e, re_line e).

(** The row of an edge with its score and tier.

    Source: crates/dagayn-graph/src/helpers/batch.rs 108-120 [store_file_batch_tx]. *)
Definition edge_row (now : f64) (key : EdgeKey) (extra : string) (meta : f64 * ConfidenceTier)
    : EdgeVals :=
  let '(k, source, target, path, line) := key in
  let '(confidence, tier) := normalize_edge_confidence source target (fst meta) (snd meta) in
  mkEdgeVals k source target (edge_target_name target) path line extra confidence (as_str tier) now.

(** Source: crates/dagayn-graph/src/helpers/batch.rs 101-120 [store_file_batch_tx]. *)
Definition edge_vals (now : f64) (e : EdgeInput) : Result EdgeVals :=
  let confidence := default one (get_f64 (ei_extra e) "confidence") in
  let tier := from_raw (get_str (ei_extra e) "confidence_tier") in
  extra ← extra_json (ei_extra e);
  inl (edge_row now (edge_key e) extra (confidence, tier)).

(** Source: crates/dagayn-graph/src/helpers/batch.rs 220-232 [store_raw_compact_file_batch_tx]. *)
Definition raw_edge_vals (now : f64) (e : RawCompactEdgeInput) : Result EdgeVals :=
  meta ← edge_metadata_from_raw_extra (re_extra e);
  inl (edge_row now (raw_edge_key e) (re_extra e) meta).

End data.

(** ** Lemmas *)

Lemma from_raw_as_str t : from_raw (Some (as_str t)) = t.
Proof. by destruct t. Qed.

(** A finite score compared with itself. *)
Lemma f64_min_fifth x : f64_le (f64_min x fifth) fifth.
Proof.
  unfold f64_le, f64_min. destruct x as [s| s| |s m e].
  - by left; destruct s.
  - destruct s; [by left|by right].
  - by right.
  - unfold fifth at 1 2. destruct (SFcompare (S754_finite s m e) _) as [[]|] eqn:E;
      [by right|by left|by right|].
    exfalso. destruct s; [done|]. unfold SFcompare in E. by repeat case_match.
Qed.

Lemma key_of_edge_row now key extra meta : key_of (edge_row now key extra meta) = key.
Proof. destruct key as [[[[k s] t] p] l]. unfold edge_row. by destruct (normalize_edge_confidence _ _ _ _). Qed.

Lemma try_fold_app {A B} (f : A → B → Result A) a l1 l2 :
  try_fold f a (l1 ++ l2) = (a ← try_fold f a l1; try_fold f a l2).
Proof.
  revert a. induction l1 as [|b l1 IH]; intros a; [done|]. simpl.
  destruct (f a b); simpl; [apply IH|done].
Qed.

(** ASCII lower case. *)
Fixpoint to_ascii_lower (s : string) : string :=
  match s with
  | EmptyString => EmptyString
  | String c s => String (Ascii.ascii_of_N (to_ascii_lowercase (Ascii.N_of_ascii c))) (to_ascii_lower s)
  end.

(** JSON kept as its text; objects have no members that matter. *)
Definition text_json : Json := {|
  Value := string;
  is_null v := bool_decide (v = "null");
  is_empty_object v := bool_decide (v = "{}");
  to_string := Some;
  from_str := Some;
  empty_object := "{}";
  get_f64 _ _ := None;
  get_str _ _ := None;
  get_bool _ _ := None;
  has_key _ _ := false
|}.

End GraphData.
