(* ===== verification/Sqlite.v ===== *)
(** * What the queries take from SQLite

    The values a column or [json_extract] yields, how rusqlite reads them, and
    [LIKE].  Rows, [WHERE] clauses and updates are written as list functions where
    the queries are modelled. *)
From S2P Require Import Prelude GraphData.
Import GraphData.

Module Sqlite.

(** ** Values *)

Inductive Sql := Int (z : Z) | Real (x : f64) | Text (s : string).

(** [row.get] of an integer column that [COALESCE] fills with 0, as a flag; and
    of a text column that may be NULL. *)
Definition read_flag (v : option Sql) : Result bool :=
  match v with
  | None => inl false
  | Some (Int z) => inl (negb (z =? 0)%Z)
  | Some _ => inr Sqlite
  end.

Definition read_text (v : option Sql) : Result (option string) :=
  match v with
  | None => inl None
  | Some (Text s) => inl (Some s)
  | Some _ => inr Sqlite
  end.

(** [COALESCE(v, 0) = z] for a small integer. *)
Definition equals (z : Z) (v : option Sql) : bool :=
  match v with
  | None => (z =? 0)%Z
  | Some (Int i) => (i =? z)%Z
  | Some (Real x) => SpecFloat.SFeqb x (if (z =? 0)%Z then SpecFloat.S754_zero false else one)
  | Some (Text _) => false
  end.

(** ** Patterns *)

Definition percent : Ascii.ascii := Ascii.ascii_of_nat 37.
Definition underscore : Ascii.ascii := Ascii.ascii_of_nat 95.

Definition continuation (c : Ascii.ascii) : bool := let n := Ascii.N_of_ascii c in ((128 <=? n) && (n <? 192))%N.

(** The characters of a text in UTF-8. *)
Fixpoint characters (s : string) : list string :=
  match s with
  | EmptyString => []
  | String c s =>
      match characters s with
      | String d x :: xs => if continuation d then String c (String d x) :: xs else String c "" :: String d x :: xs
      | _ => [String c ""]
      end
  end.

(** [%] stands for any text, [_] for one character; ASCII letters match
    whatever their case. *)
Fixpoint like_characters (pattern text : list string) : bool :=
  match pattern with
  | [] => match text with [] => true | _ => false end
  | c :: pattern =>
      if bool_decide (c = String percent "") then
        (fix any text := like_characters pattern text || match text with [] => false | _ :: text => any text end) text
      else
        match text with
        | [] => false
        | d :: text =>
            (bool_decide (c = String underscore "") || bool_decide (to_ascii_lower c = to_ascii_lower d))
            && like_characters pattern text
        end
  end.

(** [text LIKE pattern]. *)
Definition like (pattern text : string) : bool := like_characters (characters pattern) (characters text).

Example like_prefix_case : like "<unresolved:%" "<UNRESOLVED:x>" = true ∧ like "<unresolved:%" "unresolved:x" = false.
Proof. by vm_compute. Qed.

(** An underscore in a pattern is not itself. *)
Example like_underscore : like "%/__init__.py" "pkg/__init__.py" = true ∧ like "%/__init__.py" "pkg/reinit01.py" = true.
Proof. by vm_compute. Qed.

End Sqlite.
