(* ===== verification/Store.v ===== *)
(** * The graph store: writes and the full-text index

    Models crates/dagayn-graph/src/{write,upserts,core}.rs, helpers/{tx,batch}.rs
    and the row bookkeeping of fts_sync.rs: the tables of the graph database as
    lists in row-id order, the chunked deletes and multi-row inserts of a file
    batch, single upserts, and the index rows that must follow the nodes.  Each
    operation is one transaction: an error leaves the store as it was.  The text
    an index row holds (source excerpts, Japanese segmentation) is a parameter,
    as are JSON and the clock. *)
From S2P Require Import Prelude GraphData.
Import GraphData.

Module Store.

(** Source: crates/dagayn-graph/src/lib.rs 13-18 [NODE_INSERT_ROWS]. *)
Definition NODE_INSERT_ROWS : nat := 30000 / 16.
Definition EDGE_INSERT_ROWS : nat := 30000 / 10.
Definition SUSPEND_INDEX_FILE_THRESHOLD : nat := 64.

(** [slice::chunks]. *)
Fixpoint chunks_fuel {A} (fuel n : nat) (l : list A) : list (list A) :=
  match fuel, l with
  | S fuel, _ :: _ => take n l :: chunks_fuel fuel n (drop n l)
  | _, _ => []
  end.

Definition chunks {A} (n : nat) (l : list A) : list (list A) := chunks_fuel (length l) n l.

Section store.
Context `{Json} {F : Type}.
(** The text columns of a node's index row, given the repository root. *)
Context (fts_values : option string → NodeRow → F).

(** The database; [fts] is [None] when the index table is missing.

    Source: crates/dagayn-graph/src/lib.rs 466-469 [GraphStore]. *)
Record GraphStore := mkStore {
  nodes : list NodeRow;
  node_seq : Z;
  edges : list EdgeRow;
  edge_seq : Z;
  flow_memberships : list (Z * Z);
  risk_index : list RiskRow;
  fts : option (gmap Z F);
  metadata : gmap string string;
  write_indexes : bool;
  bulk : bool
}.

Definition set_nodes (l : list NodeRow) (seq : Z) (s : GraphStore) : GraphStore :=
  mkStore l seq (edges s) (edge_seq s) (flow_memberships s) (risk_index s) (fts s) (metadata s)
    (write_indexes s) (bulk s).
Definition set_edges (l : list EdgeRow) (seq : Z) (s : GraphStore) : GraphStore :=
  mkStore (nodes s) (node_seq s) l seq (flow_memberships s) (risk_index s) (fts s) (metadata s)
    (write_indexes s) (bulk s).
Definition set_keyed (flows : list (Z * Z)) (risk : list RiskRow) (s : GraphStore) : GraphStore :=
  mkStore (nodes s) (node_seq s) (edges s) (edge_seq s) flows risk (fts s) (metadata s)
    (write_indexes s) (bulk s).
Definition set_fts (m : option (gmap Z F)) (s : GraphStore) : GraphStore :=
  mkStore (nodes s) (node_seq s) (edges s) (edge_seq s) (flow_memberships s) (risk_index s) m
    (metadata s) (write_indexes s) (bulk s).
Definition set_flags (indexes b : bool) (s : GraphStore) : GraphStore :=
  mkStore (nodes s) (node_seq s) (edges s) (edge_seq s) (flow_memberships s) (risk_index s) (fts s)
    (metadata s) indexes b.

(** Source: crates/dagayn-graph/src/core.rs 90-96 [set_metadata]. *)
Definition set_metadata (key value : string) (s : GraphStore) : GraphStore :=
  mkStore (nodes s) (node_seq s) (edges s) (edge_seq s) (flow_memberships s) (risk_index s) (fts s)
    (<[key := value]> (metadata s)) (write_indexes s) (bulk s).

(** Source: crates/dagayn-graph/src/core.rs 98-105 [get_metadata]. *)
Definition get_metadata (key : string) (s : GraphStore) : option string := metadata s !! key.

(** ** Index rows *)

Definition fts_count (s : GraphStore) : nat :=
  match fts s with Some m => size m | None => 0 end.

(** [now] is the text of the time.

    Source: crates/dagayn-graph/src/fts_sync.rs 13-38 [set_fts_watermark_tx]. *)
Definition set_fts_watermark (now : string) (node_count : option nat) (s : GraphStore) : GraphStore :=
  let count := match node_count with Some count => count | None => fts_count s end in
  set_metadata "fts_segmenter" "lindera"
    (set_metadata "fts_indexed_at" now
      (set_metadata "fts_indexed_node_count" (decimal count) s)).

(** Source: crates/dagayn-graph/src/fts_sync.rs 50-58 [delete_fts_for_node_ids_tx]. *)
Definition delete_fts_for_node_ids (ids : list Z) (s : GraphStore) : GraphStore :=
  match fts s with
  | None => s
  | Some m => set_fts (Some (foldl (λ m i, delete i m) m ids)) s
  end.

(** The nodes of the rows whose file is in a list. *)
Definition in_files (files : list string) (r : NodeRow) : Prop := file_path (vals r) ∈ files.

#[global] Instance in_files_dec files r : Decision (in_files files r).
Proof. unfold in_files. apply _. Defined.

(** Source: crates/dagayn-graph/src/fts_sync.rs 60-90 [delete_fts_for_file_paths_tx]. *)
Definition delete_fts_for_file_paths (files : list string) (s : GraphStore) : GraphStore :=
  match fts s with
  | None => s
  | Some _ =>
      foldl (λ s chunk,
        match fts s with
        | None => s
        | Some m =>
            let ids := filter (λ i, is_Some (m !! i))
                         (node_id <$> filter (in_files chunk) (nodes s)) in
            delete_fts_for_node_ids ids s
        end) s (chunks 450 files)
  end.

(** [INSERT INTO nodes_fts(rowid, ...)]: a row id that is taken is a constraint
    error.

    Source: crates/dagayn-graph/src/fts_sync.rs 205-244 [insert_fts_for_file_paths_tx]. *)
Definition insert_fts_row (root : option string) (m : gmap Z F) (r : NodeRow) : Result (gmap Z F) :=
  _ ← (if bool_decide (extra (vals r) = "") then inl empty_object
       else json (from_str (extra (vals r))));
  match m !! node_id r with
  | Some _ => inr Sqlite
  | None => inl (<[node_id r := fts_values root r]> m)
  end.

(** [ORDER BY file_path]. *)
Definition by_file_path (l : list NodeRow) : list NodeRow :=
  sort_by (λ x y, String.leb (file_path (vals x)) (file_path (vals y))) l.

(** Source: crates/dagayn-graph/src/fts_sync.rs 155-247 [insert_fts_for_file_paths_tx]. *)
Definition insert_fts_for_file_paths (files : list string) (root : option string) (s : GraphStore)
    : Result GraphStore :=
  match files with
  | [] => inl s
  | _ =>
      m ← try_fold (λ m chunk,
            try_fold (insert_fts_row root) m (by_file_path (filter (in_files chunk) (nodes s))))
          (default ∅ (fts s)) (chunks 450 files);
      inl (set_fts (Some m) s)
  end.

(** Source: crates/dagayn-graph/src/fts_sync.rs 141-153 [sync_fts_for_file_paths_tx]. *)
Definition sync_fts_for_file_paths (now : string) (files : list string) (root : option string)
    (s : GraphStore) : Result GraphStore :=
  match files with
  | [] => inl s
  | _ =>
      s ← insert_fts_for_file_paths files root (delete_fts_for_file_paths files s);
      inl (set_fts_watermark now None s)
  end.

(** Source: crates/dagayn-graph/src/fts_sync.rs 249-338 [upsert_fts_for_node_ids_tx]. *)
Definition upsert_fts_for_node_ids (now : string) (ids : list Z) (root : option string)
    (s : GraphStore) : Result GraphStore :=
  match ids with
  | [] => inl s
  | _ =>
      m ← try_fold (λ m chunk,
            try_fold (λ m r, insert_fts_row root (delete (node_id r) m) r) m
              (by_file_path (filter (λ r, node_id r ∈ chunk) (nodes s))))
          (default ∅ (fts s)) (chunks 450 ids);
      inl (set_fts_watermark now None (set_fts (Some m) s))
  end.

(** The index built afresh.

    Source: crates/dagayn-graph/src/fts_sync.rs 367-443 [rebuild_fts_index_tx]. *)
Definition rebuild_fts_index (now : string) (root : option string) (s : GraphStore)
    : Result GraphStore :=
  m ← try_fold (insert_fts_row root) ∅ (by_file_path (nodes s));
  inl (set_fts_watermark now (Some (length (nodes s))) (set_fts (Some m) s)).

(** ** Removal *)

(** Rows keyed on the ids of the nodes that match.

    Source: crates/dagayn-graph/src/helpers/tx.rs 48-69 [delete_node_keyed_rows_tx]. *)
Definition delete_node_keyed_rows (files : list string) (s : GraphStore) : GraphStore :=
  let ids := node_id <$> filter (in_files files) (nodes s) in
  set_keyed (filter (λ m, snd m ∉ ids) (flow_memberships s))
    (filter (λ i, risk_node i ∉ ids) (risk_index s)) s.

(** One chunk of the removal.

    Source: crates/dagayn-graph/src/helpers/tx.rs 90-102 [remove_files_rows_tx]. *)
Definition remove_chunk (s : GraphStore) (chunk : list string) : GraphStore :=
  let s := delete_node_keyed_rows chunk s in
  let s := set_edges (filter (λ e, e_file_path (e_vals e) ∉ chunk) (edges s)) (edge_seq s) s in
  set_nodes (filter (λ r, ¬ in_files chunk r) (nodes s)) (node_seq s) s.

(** Source: crates/dagayn-graph/src/helpers/tx.rs 86-104 [remove_files_rows_tx]. *)
Definition remove_files_rows (files : list string) (s : GraphStore) : GraphStore :=
  foldl remove_chunk (delete_fts_for_file_paths files s) (chunks 450 files).

(** Source: crates/dagayn-graph/src/helpers/tx.rs 80-84 [remove_files_data_tx]. *)
Definition remove_files_data (now : string) (files : list string) (s : GraphStore) : GraphStore :=
  set_fts_watermark now None (remove_files_rows files s).

(** Source: crates/dagayn-graph/src/helpers/tx.rs 71-78 [remove_file_data_tx]. *)
Definition remove_file_data (now : string) (file : string) (s : GraphStore) : GraphStore :=
  let s := delete_fts_for_file_paths [file] s in
  let s := delete_node_keyed_rows [file] s in
  let s := set_edges (filter (λ e, e_file_path (e_vals e) ≠ file) (edges s)) (edge_seq s) s in
  let s := set_nodes (filter (λ r, file_path (vals r) ≠ file) (nodes s)) (node_seq s) s in
  set_fts_watermark now None s.

(** ** Inserts *)

(** One row of [INSERT ... ON CONFLICT(qualified_name) DO UPDATE]: the row id is
    taken from the sequence either way, and a conflict keeps the row's own id and
    the columns the statement does not name.

    Source: crates/dagayn-graph/src/helpers/batch.rs 318-343 [insert_compact_node_rows]. *)
Definition upsert_row (t : list NodeRow * Z) (v : NodeVals) : list NodeRow * Z :=
  let '(rows, seq) := t in
  (if bool_decide (Exists (λ r, qualified_name (vals r) = qualified_name v) rows)
   then (λ r, if bool_decide (qualified_name (vals r) = qualified_name v)
              then mkNodeRow (node_id r) v (signature r) (community_id r) else r) <$> rows
   else rows ++ [mkNodeRow (seq + 1) v None None],
   seq + 1)%Z.

Definition insert_node_rows (s : GraphStore) (l : list NodeVals) : GraphStore :=
  let '(rows, seq) := foldl upsert_row (nodes s, node_seq s) l in set_nodes rows seq s.

(** One row of the edge insert.

    Source: crates/dagayn-graph/src/helpers/batch.rs 345-361 [insert_compact_edge_rows]. *)
Definition insert_row (t : list EdgeRow * Z) (v : EdgeVals) : list EdgeRow * Z :=
  let '(rows, seq) := t in (rows ++ [mkEdgeRow (seq + 1) v], seq + 1)%Z.

Definition insert_edge_rows (s : GraphStore) (l : list EdgeVals) : GraphStore :=
  let '(rows, seq) := foldl insert_row (edges s, edge_seq s) l in set_edges rows seq s.

(** Source: crates/dagayn-graph/src/helpers/batch.rs 273-278 [drop_graph_write_indexes]. *)
Definition drop_graph_write_indexes (s : GraphStore) : GraphStore := set_flags false (bulk s) s.

(** Source: crates/dagayn-graph/src/helpers/batch.rs 280-285 [create_graph_write_indexes]. *)
Definition create_graph_write_indexes (s : GraphStore) : GraphStore := set_flags true (bulk s) s.

(** Source: crates/dagayn-graph/src/helpers/batch.rs 254-271 [should_suspend_write_indexes]. *)
Definition should_suspend_write_indexes (file_count : nat) (s : GraphStore) : bool :=
  if file_count <? SUSPEND_INDEX_FILE_THRESHOLD then false
  else match nodes s, edges s with [], [] => true | _, _ => false end.

(** The variables of the loop over a batch: the store, the node and edge rows
    waiting, and the edges seen.

    Source: crates/dagayn-graph/src/helpers/batch.rs 49-55 [store_file_batch_tx]. *)
Record loader := mkLoader {
  store : GraphStore;
  node_wait : list NodeVals;
  edge_wait : list EdgeVals;
  seen_edges : gset EdgeKey
}.

(** Source: crates/dagayn-graph/src/helpers/batch.rs 82-87 [store_file_batch_tx]. *)
Definition push_node (l : loader) (v : NodeVals) : loader :=
  let wait := node_wait l ++ [v] in
  if length wait =? NODE_INSERT_ROWS
  then mkLoader (insert_node_rows (store l) wait) [] (edge_wait l) (seen_edges l)
  else mkLoader (store l) wait (edge_wait l) (seen_edges l).

(** Source: crates/dagayn-graph/src/helpers/batch.rs 121-126 [store_file_batch_tx]. *)
Definition push_edge (l : loader) (v : EdgeVals) : loader :=
  let wait := edge_wait l ++ [v] in
  if length wait =? EDGE_INSERT_ROWS
  then mkLoader (insert_edge_rows (store l) wait) (node_wait l) [] (seen_edges l)
  else mkLoader (store l) (node_wait l) wait (seen_edges l).

Section batch.
(** The two forms of a batch differ in how a node and an edge become a row. *)
Context {N E : Type} (node_row : string → Z → N → Result NodeVals)
  (edge_id_key : E → EdgeKey) (edge_row_of : E → Result EdgeVals).

(** Source: crates/dagayn-graph/src/helpers/batch.rs 58-88 [store_file_batch_tx]. *)
Definition load_node (hash : string) (mtime : Z) (l : loader) (n : N) : Result loader :=
  v ← node_row hash mtime n; inl (push_node l v).

(** Source: crates/dagayn-graph/src/helpers/batch.rs 90-127 [store_file_batch_tx]. *)
Definition load_edge (l : loader) (e : E) : Result loader :=
  if bool_decide (edge_id_key e ∈ seen_edges l) then inl l
  else
    let l := mkLoader (store l) (node_wait l) (edge_wait l) ({[edge_id_key e]} ∪ seen_edges l) in
    v ← edge_row_of e; inl (push_edge l v).

(** Source: crates/dagayn-graph/src/helpers/batch.rs 57-128 [store_file_batch_tx]. *)
Definition load_item (l : loader) (item : FileBatchItem N E) : Result loader :=
  l ← try_fold (load_node (item_hash _ _ item) (item_mtime _ _ item)) l (item_nodes _ _ item);
  try_fold load_edge l (item_edges _ _ item).

(** Source: crates/dagayn-graph/src/helpers/batch.rs 129-134 [store_file_batch_tx]. *)
Definition flush (l : loader) : GraphStore :=
  let s := match node_wait l with [] => store l | w => insert_node_rows (store l) w end in
  match edge_wait l with [] => s | w => insert_edge_rows s w end.

(** Source: crates/dagayn-graph/src/helpers/batch.rs 9-30 [sync_fts_after_file_batch_tx]. *)
Definition sync_fts_after_file_batch (now : string) (files : list string) (defer : bool)
    (s : GraphStore) : Result GraphStore :=
  s ← insert_fts_for_file_paths files (get_metadata "repo_root" s) s;
  inl (if defer then s else set_fts_watermark now None s).

(** What both forms of a batch do; a bulk load keeps its indexes dropped and puts
    off the watermark.

    Source: crates/dagayn-graph/src/helpers/batch.rs 38-56 [store_file_batch_tx]. *)
Definition store_batch (now : string) (batch : list (FileBatchItem N E)) (s : GraphStore)
    : Result GraphStore :=
  let suspend := negb (bulk s) && should_suspend_write_indexes (length batch) s in
  let s := if suspend then drop_graph_write_indexes s else s in
  let files := item_path _ _ <$> batch in
  let s := remove_files_rows files s in
  l ← try_fold load_item (mkLoader s [] [] ∅) batch;
  let s := flush l in
  let s := if suspend then create_graph_write_indexes s else s in
  sync_fts_after_file_batch now files (bulk s) s.

End batch.

(** A transaction: the new store, or the old one with the error. *)
Definition transact (f : GraphStore → Result GraphStore) (s : GraphStore) : GraphStore * Result unit :=
  match f s with
  | inl s' => (s', inl tt)
  | inr e => (s, inr e)
  end.

(** Source: crates/dagayn-graph/src/helpers/batch.rs 32-140 [store_file_batch_tx]. *)
Definition store_file_batch_tx (now : f64) (stamp : string)
    (batch : list (FileBatchItem NodeInput EdgeInput)) (s : GraphStore) : Result GraphStore :=
  store_batch (node_vals now) edge_key (edge_vals now) stamp batch s.

(** Source: crates/dagayn-graph/src/helpers/batch.rs 142-252 [store_raw_compact_file_batch_tx]. *)
Definition store_raw_compact_file_batch_tx (now : f64) (stamp : string)
    (batch : list (FileBatchItem RawCompactNodeInput RawCompactEdgeInput)) (s : GraphStore)
    : Result GraphStore :=
  store_batch (raw_node_vals now) raw_edge_key (raw_edge_vals now) stamp batch s.

(** Source: crates/dagayn-graph/src/write.rs 22-28 [store_file_batch]. *)
Definition store_file_batch (now : f64) (stamp : string) (batch : list (FileBatchItem NodeInput EdgeInput))
    : GraphStore → GraphStore * Result unit :=
  transact (store_file_batch_tx now stamp batch).

(** Source: crates/dagayn-graph/src/write.rs 5-20 [store_file_nodes_edges]. *)
Definition store_file_nodes_edges (now : f64) (stamp : string) (path : string)
    (ns : list NodeInput) (es : list EdgeInput) (hash : string) (mtime : Z)
    : GraphStore → GraphStore * Result unit :=
  store_file_batch now stamp [mkItem _ _ path ns es hash mtime].

(** The batch as the JSON parser gave it, or nothing.

    Source: crates/dagayn-graph/src/write.rs 30-37 [store_file_batch_json]. *)
Definition store_file_batch_json (now : f64) (stamp : string)
    (compact : option (list (FileBatchItem RawCompactNodeInput RawCompactEdgeInput)))
    : GraphStore → GraphStore * Result unit :=
  transact (λ s, batch ← json compact;
                 store_raw_compact_file_batch_tx now stamp batch s).

(** Source: crates/dagayn-graph/src/write.rs 39-48 [begin_bulk_load]. *)
Definition begin_bulk_load (s : GraphStore) : GraphStore :=
  if bulk s then s else set_flags (write_indexes (drop_graph_write_indexes s)) true s.

(** Source: crates/dagayn-graph/src/write.rs 50-60 [finish_bulk_load]. *)
Definition finish_bulk_load (now : string) (s : GraphStore) : GraphStore :=
  if negb (bulk s) then s
  else
    let s := set_fts_watermark now None (create_graph_write_indexes s) in
    set_flags (write_indexes s) false s.

(** The node's columns, with [null] extra spelt [{}].

    Source: crates/dagayn-graph/src/upserts.rs 12-22 [upsert_node]. *)
Definition upsert_node_vals (now : f64) (n : NodeInput) (hash : string) (mtime : Z) : Result NodeVals :=
  extra ← (if is_null (ni_extra n) then inl "{}" else json (to_string (ni_extra n)));
  inl (mkNodeVals (ni_kind n) (ni_name n)
         (make_qualified_parts (ni_kind n) (ni_name n) (ni_file_path n) (ni_parent_name n))
         (ni_file_path n) (ni_line_start n) (ni_line_end n) (ni_language n) (ni_parent_name n)
         (ni_params n) (ni_return_type n) (ni_modifiers n) (ni_is_test n) hash mtime extra now).

(** The row [RETURNING id] names. *)
Definition id_of (q : string) (rows : list NodeRow) : option Z :=
  node_id ∘ snd <$> list_find (λ r, qualified_name (vals r) = q) rows.

(** Source: crates/dagayn-graph/src/upserts.rs 10-66 [upsert_node]. *)
Definition upsert_node (now : f64) (stamp : string) (n : NodeInput) (hash : string) (mtime : Z)
    (s : GraphStore) : GraphStore * Result Z :=
  match (v ← upsert_node_vals now n hash mtime;
         let s' := insert_node_rows s [v] in
         let i := default 0%Z (id_of (qualified_name v) (nodes s')) in
         s' ← upsert_fts_for_node_ids stamp [i] (get_metadata "repo_root" s) s';
         inl (s', i)) with
  | inl (s', i) => (s', inl i)
  | inr e => (s, inr e)
  end.

(** Source: crates/dagayn-graph/src/upserts.rs 84-129 [upsert_edge]. *)
Definition upsert_edge_row (v : EdgeVals) (s : GraphStore) : GraphStore * Z :=
  match list_find (λ e, key_of (e_vals e) = key_of v) (edges s) with
  | Some (_, existing) =>
      (set_edges ((λ e, if bool_decide (key_of (e_vals e) = key_of v)
                        then mkEdgeRow (edge_id e) v else e) <$> edges s) (edge_seq s) s,
       edge_id existing)
  | None => (insert_edge_rows s [v], edge_seq s + 1)%Z
  end.

(** Source: crates/dagayn-graph/src/upserts.rs 68-132 [upsert_edge]. *)
Definition upsert_edge (now : f64) (e : EdgeInput) (s : GraphStore) : GraphStore * Result Z :=
  match (extra ← (if is_null (ei_extra e) then inl "{}" else json (to_string (ei_extra e)));
         meta ← edge_metadata_from_raw_extra extra;
         inl (edge_row now (edge_key e) extra meta)) with
  | inl v => let '(s', i) := upsert_edge_row v s in (s', inl i)
  | inr err => (s, inr err)
  end.

(** ** Chunks *)

Lemma concat_chunks {A} n (l : list A) : 0 < n → concat (chunks n l) = l.
Proof.
  intros Hn. unfold chunks. assert (Hf : length l <= length l) by done. revert Hf.
  generalize (length l) at 2 3. intros fuel. revert l.
  induction fuel as [|fuel IH]; intros [|x l] Hf; simpl in *; try done; [lia|].
  destruct n as [|n]; [lia|]. simpl. f_equal.
  rewrite IH; [apply take_drop|]. rewrite length_drop. lia.
Qed.

Lemma filter_true {A} (P : A → Prop) `{!∀ x, Decision (P x)} (l : list A) :
  (∀ x, x ∈ l → P x) → filter P l = l.
Proof.
  induction l as [|x l IH]; intros Hl; [done|]. rewrite filter_cons, decide_True by (apply Hl; set_solver).
  rewrite IH; [done|]. intros y Hy. apply Hl. set_solver.
Qed.

Lemma Forall_filter {A} (P Q : A → Prop) `{!∀ x, Decision (Q x)} (l : list A) :
  Forall P l → Forall P (filter Q l).
Proof.
  rewrite !Forall_forall. intros Hl x Hx. apply list_elem_of_filter in Hx as [_ Hx]. by apply Hl.
Qed.

(** ** Removal *)

Lemma store_eta s : mkStore (nodes s) (node_seq s) (edges s) (edge_seq s) (flow_memberships s)
  (risk_index s) (fts s) (metadata s) (write_indexes s) (bulk s) = s.
Proof. by destruct s. Qed.

Lemma elem_of_file_ids files (l : list NodeRow) i :
  i ∈ node_id <$> filter (in_files files) l ↔ ∃ r, r ∈ l ∧ in_files files r ∧ node_id r = i.
Proof.
  rewrite list_elem_of_fmap. setoid_rewrite list_elem_of_filter. naive_solver.
Qed.

Lemma remove_chunk_nil s : remove_chunk s [] = s.
Proof.
  unfold remove_chunk, delete_node_keyed_rows, set_nodes, set_edges, set_keyed. cbn.
  assert (Hids : node_id <$> filter (in_files []) (nodes s) = []).
  { destruct (node_id <$> filter (in_files []) (nodes s)) as [|i l] eqn:E; [done|]. exfalso.
    assert (Hi : i ∈ node_id <$> filter (in_files []) (nodes s)) by (rewrite E; set_solver).
    apply elem_of_file_ids in Hi as (r & _ & Hr & _). by apply not_elem_of_nil in Hr. }
  rewrite Hids, !filter_true; [apply store_eta|..]; intros x _;
    first [apply not_elem_of_nil | intros Hx; by apply not_elem_of_nil in Hx].
Qed.

Lemma remove_chunk_app s c1 c2 : remove_chunk (remove_chunk s c1) c2 = remove_chunk s (c1 ++ c2).
Proof.
  unfold remove_chunk, delete_node_keyed_rows, set_nodes, set_edges, set_keyed. cbn.
  assert (Hids : ∀ i, i ∉ node_id <$> filter (in_files c2) (filter (λ r, ¬ in_files c1 r) (nodes s)) ∧
                      i ∉ node_id <$> filter (in_files c1) (nodes s) ↔
                      i ∉ node_id <$> filter (in_files (c1 ++ c2)) (nodes s)).
  { intros i. rewrite !elem_of_file_ids. setoid_rewrite list_elem_of_filter.
    unfold in_files. setoid_rewrite elem_of_app. split.
    - intros [H2 H1] (r & Hr & [Hc|Hc] & Hi); [by apply H1; exists r|].
      destruct (decide (file_path (vals r) ∈ c1)); [by apply H1; exists r|].
      apply H2. by exists r.
    - intros Hn. split; intros (r & Hr & Hc & Hi); apply Hn; exists r; naive_solver. }
  f_equal; rewrite list_filter_filter; apply list_filter_iff; intros x.
  - unfold in_files. rewrite elem_of_app. tauto.
  - rewrite elem_of_app. tauto.
  - apply Hids.
  - apply Hids.
Qed.

Lemma remove_chunks s cs : foldl remove_chunk s cs = remove_chunk s (concat cs).
Proof.
  revert s. induction cs as [|c cs IH]; intros s; simpl; [by rewrite remove_chunk_nil|].
  by rewrite IH, remove_chunk_app.
Qed.

(** The index without the rows of some nodes. *)
Definition without (ids : list Z) (m : gmap Z F) : gmap Z F := filter (λ p, p.1 ∉ ids) m.

Lemma without_lookup ids m i :
  without ids m !! i = if bool_decide (i ∈ ids) then None else m !! i.
Proof.
  unfold without. destruct (decide (i ∈ ids)) as [Hi|Hi].
  - rewrite bool_decide_eq_true_2 by done. apply map_lookup_filter_None. right. naive_solver.
  - rewrite bool_decide_eq_false_2 by done. destruct (m !! i) as [x|] eqn:E.
    + by apply map_lookup_filter_Some.
    + apply map_lookup_filter_None. by left.
Qed.

Lemma foldl_delete_lookup ids (m : gmap Z F) i :
  foldl (λ m i, delete i m) m ids !! i = if bool_decide (i ∈ ids) then None else m !! i.
Proof.
  revert m. induction ids as [|j ids IH]; intros m; simpl; [done|]. rewrite IH.
  destruct (decide (i ∈ ids)) as [Hi|Hi].
  { by rewrite !bool_decide_eq_true_2 by set_solver. }
  rewrite (bool_decide_eq_false_2 (i ∈ ids)) by done. destruct (decide (i = j)) as [->|].
  - rewrite lookup_delete_eq, bool_decide_eq_true_2 by set_solver. done.
  - rewrite lookup_delete_ne, bool_decide_eq_false_2 by set_solver. done.
Qed.

Lemma foldl_delete_without ids (m : gmap Z F) : foldl (λ m i, delete i m) m ids = without ids m.
Proof. apply map_eq. intros i. by rewrite foldl_delete_lookup, without_lookup. Qed.

Lemma set_fts_fields m s :
  nodes (set_fts m s) = nodes s ∧ fts (set_fts m s) = m ∧ set_fts (fts s) s = s ∧
  (∀ m', set_fts m' (set_fts m s) = set_fts m' s).
Proof. split; [done|split; [done|split; [apply store_eta|done]]]. Qed.

Lemma delete_fts_spec files s :
  delete_fts_for_file_paths files s =
  set_fts (without (node_id <$> filter (in_files files) (nodes s)) <$> fts s) s.
Proof.
  unfold delete_fts_for_file_paths.
  destruct (fts s) as [m|] eqn:Em; [|simpl; rewrite <-Em; symmetry; apply store_eta].
  assert (Hg : ∀ cs s m, fts s = Some m →
    foldl (λ s chunk, match fts s with
        | None => s
        | Some m => delete_fts_for_node_ids (filter (λ i, is_Some (m !! i))
                         (node_id <$> filter (in_files chunk) (nodes s))) s end) s cs =
    set_fts (Some (without (node_id <$> filter (in_files (concat cs)) (nodes s)) m)) s).
  2:{ rewrite (Hg _ _ m Em), concat_chunks by lia. done. }
  clear. induction cs as [|c cs IH]; intros s m Hm; simpl.
  { rewrite <-(store_eta s) at 1. rewrite Hm. unfold set_fts. f_equal. f_equal.
    apply map_eq. intros i. rewrite without_lookup, bool_decide_eq_false_2; [done|].
    rewrite elem_of_file_ids. intros (r & _ & Hr & _). by apply not_elem_of_nil in Hr. }
  rewrite Hm. unfold delete_fts_for_node_ids at 2. rewrite Hm.
  rewrite (IH _ (foldl (λ m i, delete i m) m (filter (λ i, is_Some (m !! i))
     (node_id <$> filter (in_files c) (nodes s))))) by done.
  cbn [nodes set_fts]. unfold set_fts. cbn. f_equal. f_equal. apply map_eq. intros i.
  rewrite !without_lookup, foldl_delete_lookup.
  assert (Hin : i ∈ node_id <$> filter (in_files (c ++ concat cs)) (nodes s) ↔
    i ∈ node_id <$> filter (in_files c) (nodes s) ∨ i ∈ node_id <$> filter (in_files (concat cs)) (nodes s)).
  { rewrite !elem_of_file_ids. unfold in_files. setoid_rewrite elem_of_app. naive_solver. }
  destruct (decide (i ∈ node_id <$> filter (in_files (concat cs)) (nodes s))) as [H2|H2].
  { rewrite !bool_decide_eq_true_2; [done|by rewrite Hin; right|done]. }
  rewrite (bool_decide_eq_false_2 (i ∈ node_id <$> filter (in_files (concat cs)) (nodes s))) by done.
  destruct (decide (i ∈ node_id <$> filter (in_files c) (nodes s))) as [H1|H1].
  - rewrite (bool_decide_eq_true_2 (i ∈ node_id <$> filter (in_files (c ++ concat cs)) (nodes s)))
      by (rewrite Hin; by left).
    destruct (m !! i) as [x|] eqn:Ei; [|by case_match].
    rewrite bool_decide_eq_true_2; [done|]. apply list_elem_of_filter. by rewrite Ei.
  - rewrite (bool_decide_eq_false_2 (i ∈ node_id <$> filter (in_files (c ++ concat cs)) (nodes s)))
      by (rewrite Hin; tauto).
    rewrite bool_decide_eq_false_2; [done|]. rewrite list_elem_of_filter. tauto.
Qed.

(** Removal in one go: what the chunked loop computes. *)
Definition removed (files : list string) (s : GraphStore) : GraphStore :=
  let ids := node_id <$> filter (in_files files) (nodes s) in
  mkStore (filter (λ r, ¬ in_files files r) (nodes s)) (node_seq s)
    (filter (λ e, e_file_path (e_vals e) ∉ files) (edges s)) (edge_seq s)
    (filter (λ m, snd m ∉ ids) (flow_memberships s)) (filter (λ i, risk_node i ∉ ids) (risk_index s))
    (without ids <$> fts s) (metadata s) (write_indexes s) (bulk s).

Lemma remove_files_rows_spec files s : remove_files_rows files s = removed files s.
Proof.
  unfold remove_files_rows. rewrite remove_chunks, concat_chunks by lia.
  rewrite delete_fts_spec. done.
Qed.

(** ** The loader's batches *)

(** A list of results, or the first error. *)
Fixpoint try_map {A B} (f : A → Result B) (l : list A) : Result (list B) :=
  match l with
  | [] => inl []
  | a :: l => b ← f a; bs ← try_map f l; inl (b :: bs)
  end.

Lemma try_map_app {A B} (f : A → Result B) l1 l2 :
  try_map f (l1 ++ l2) = (b1 ← try_map f l1; b2 ← try_map f l2; inl (b1 ++ b2)).
Proof.
  induction l1 as [|a l1 IH]; simpl; [by destruct (try_map f l2)|].
  destruct (f a); simpl; [|done]. rewrite IH.
  destruct (try_map f l1); simpl; [|done]. by destruct (try_map f l2).
Qed.

(** The node and edge tables after what waits is written. *)
Definition view (l : loader) : (list NodeRow * Z) * (list EdgeRow * Z) :=
  (foldl upsert_row (nodes (store l), node_seq (store l)) (node_wait l),
   foldl insert_row (edges (store l), edge_seq (store l)) (edge_wait l)).

(** The store with other tables. *)
Definition with_tables (t : (list NodeRow * Z) * (list EdgeRow * Z)) (s : GraphStore) : GraphStore :=
  mkStore t.1.1 t.1.2 t.2.1 t.2.2 (flow_memberships s) (risk_index s) (fts s) (metadata s)
    (write_indexes s) (bulk s).

Lemma insert_node_rows_eq s l :
  insert_node_rows s l =
  with_tables (foldl upsert_row (nodes s, node_seq s) l, (edges s, edge_seq s)) s.
Proof. unfold insert_node_rows. by destruct (foldl upsert_row _ _). Qed.

Lemma insert_edge_rows_eq s l :
  insert_edge_rows s l =
  with_tables ((nodes s, node_seq s), foldl insert_row (edges s, edge_seq s) l) s.
Proof. unfold insert_edge_rows. by destruct (foldl insert_row _ _). Qed.

Lemma flush_view l : flush l = with_tables (view l) (store l).
Proof.
  unfold flush, view. destruct l as [s nw ew seen]. cbn [store node_wait edge_wait].
  destruct nw as [|v nw], ew as [|e ew]; rewrite ?insert_edge_rows_eq, ?insert_node_rows_eq; try done.
  by destruct s.
Qed.

Lemma view_push_node l v :
  view (push_node l v) = (upsert_row (view l).1 v, (view l).2) ∧
  with_tables (view l) (store (push_node l v)) = with_tables (view l) (store l) ∧
  seen_edges (push_node l v) = seen_edges l.
Proof.
  unfold push_node. destruct (length _ =? NODE_INSERT_ROWS); [|split; [unfold view; cbn; by rewrite foldl_snoc|done]].
  split; [|split]; [|by rewrite insert_node_rows_eq|done].
  rewrite insert_node_rows_eq. unfold view. cbn. rewrite foldl_snoc.
  by destruct (upsert_row _ v).
Qed.

Lemma view_push_edge l v :
  view (push_edge l v) = ((view l).1, insert_row (view l).2 v) ∧
  with_tables (view l) (store (push_edge l v)) = with_tables (view l) (store l) ∧
  seen_edges (push_edge l v) = seen_edges l.
Proof.
  unfold push_edge. destruct (length _ =? EDGE_INSERT_ROWS); [|split; [unfold view; cbn; by rewrite foldl_snoc|done]].
  split; [|split]; [|by rewrite insert_edge_rows_eq|done].
  rewrite insert_edge_rows_eq. unfold view. cbn. rewrite foldl_snoc.
  by destruct (insert_row _ v).
Qed.

Lemma with_tables_rest t t' s s' :
  with_tables t s = with_tables t s' → with_tables t' s = with_tables t' s'.
Proof. unfold with_tables. by intros [= -> -> -> -> -> ->]. Qed.

Section batch_spec.
Context {N E : Type} (node_row : string → Z → N → Result NodeVals)
  (edge_id_key : E → EdgeKey) (edge_row_of : E → Result EdgeVals).

(** The first edge of each identity. *)
Fixpoint first_edges (seen : gset EdgeKey) (es : list E) : list E :=
  match es with
  | [] => []
  | e :: es =>
      if bool_decide (edge_id_key e ∈ seen) then first_edges seen es
      else e :: first_edges ({[edge_id_key e]} ∪ seen) es
  end.

Definition seen_after (seen : gset EdgeKey) (es : list E) : gset EdgeKey :=
  foldl (λ seen e, {[edge_id_key e]} ∪ seen) seen es.

Lemma first_edges_app seen es1 es2 :
  first_edges seen (es1 ++ es2) =
  first_edges seen es1 ++ first_edges (seen_after seen es1) es2.
Proof.
  revert seen. induction es1 as [|e es1 IH]; intros seen; simpl; [done|].
  destruct (decide (edge_id_key e ∈ seen)) as [Hin|Hin].
  - rewrite bool_decide_eq_true_2, IH by done. do 2 f_equal. 
    replace ({[edge_id_key e]} ∪ seen) with seen by set_solver. done.
  - by rewrite bool_decide_eq_false_2, IH by done.
Qed.

Definition item_rows (item : FileBatchItem N E) : Result (list NodeVals) :=
  try_map (node_row (item_hash _ _ item) (item_mtime _ _ item)) (item_nodes _ _ item).

(** The rows of a batch, in order. *)
Definition batch_nodes (batch : list (FileBatchItem N E)) : Result (list NodeVals) :=
  rows ← try_map item_rows batch; inl (concat rows).

Definition batch_edges (batch : list (FileBatchItem N E)) : Result (list EdgeVals) :=
  try_map edge_row_of (first_edges ∅ (batch ≫= item_edges _ _)).

(** What a loader becomes when it has taken some rows. *)
Definition took (l l' : loader) (ns : list NodeVals) (es : list EdgeVals) : Prop :=
  view l' = (foldl upsert_row (view l).1 ns, foldl insert_row (view l).2 es) ∧
  with_tables (view l) (store l') = with_tables (view l) (store l).

Lemma took_trans l1 l2 l3 n1 e1 n2 e2 :
  took l1 l2 n1 e1 → took l2 l3 n2 e2 → took l1 l3 (n1 ++ n2) (e1 ++ e2).
Proof.
  intros [H1 W1] [H2 W2]. split.
  - rewrite H2, H1, !foldl_app. done.
  - etrans; [|exact W1]. eapply with_tables_rest. exact W2.
Qed.

Lemma took_refl l : took l l [] [].
Proof. split; [by destruct (view l)|done]. Qed.

Lemma load_nodes_spec hash mtime l ns :
  match try_fold (load_node node_row hash mtime) l ns, try_map (node_row hash mtime) ns with
  | inl l', inl vs => took l l' vs [] ∧ seen_edges l' = seen_edges l
  | inr e, inr e' => e = e'
  | _, _ => False
  end.
Proof.
  revert l. induction ns as [|n ns IH]; intros l; simpl; [split; [apply took_refl|done]|].
  replace (load_node node_row hash mtime l n) with (v ← node_row hash mtime n; inl (push_node l v))
    by done.
  destruct (node_row hash mtime n) as [v|e]; simpl; [|done].
  specialize (IH (push_node l v)). destruct (view_push_node l v) as (Hv & Hw & Hs).
  destruct (try_fold _ (push_node l v) ns) as [l'|], (try_map _ ns) as [vs|]; simpl; try done.
  destruct IH as [IH IHs]. split; [|by rewrite IHs].
  apply (took_trans l (push_node l v) l' [v] [] vs []); [|done]. by split.
Qed.

Lemma load_edges_spec l es :
  match try_fold (load_edge edge_id_key edge_row_of) l es,
        try_map edge_row_of (first_edges (seen_edges l) es) with
  | inl l', inl vs => took l l' [] vs ∧ seen_edges l' = seen_after (seen_edges l) es
  | inr e, inr e' => e = e'
  | _, _ => False
  end.
Proof.
  revert l. induction es as [|x es IH]; intros l; simpl; [split; [apply took_refl|done]|].
  assert (Hload : load_edge edge_id_key edge_row_of l x =
    if bool_decide (edge_id_key x ∈ seen_edges l) then inl l
    else v ← edge_row_of x;
         inl (push_edge (mkLoader (store l) (node_wait l) (edge_wait l)
                           ({[edge_id_key x]} ∪ seen_edges l)) v)) by done.
  rewrite Hload. clear Hload.
  destruct (decide (edge_id_key x ∈ seen_edges l)) as [Hin|Hin].
  - rewrite bool_decide_eq_true_2 by done. simpl. specialize (IH l).
    replace ({[edge_id_key x]} ∪ seen_edges l) with (seen_edges l) by set_solver. exact IH.
  - rewrite bool_decide_eq_false_2 by done. simpl. destruct (edge_row_of x) as [v|e]; simpl; [|done].
    set (l0 := mkLoader (store l) (node_wait l) (edge_wait l) ({[edge_id_key x]} ∪ seen_edges l)).
    specialize (IH (push_edge l0 v)). destruct (view_push_edge l0 v) as (Hv & Hw & Hs).
    rewrite Hs in IH. cbn [seen_edges l0] in IH. fold l0 in IH.
    destruct (try_fold _ (push_edge l0 v) es) as [l'|], (try_map _ (first_edges _ es)) as [vs|];
      simpl; try done.
    destruct IH as [IH IHs]. split; [|done].
    apply (took_trans l (push_edge l0 v) l' [] [v] [] vs); [|done]. by split.
Qed.

Lemma load_batch_spec l batch :
  match try_fold (load_item node_row edge_id_key edge_row_of) l batch with
  | inl l' =>
      ∃ rows vs, try_map item_rows batch = inl rows ∧
        try_map edge_row_of (first_edges (seen_edges l) (batch ≫= item_edges _ _)) = inl vs ∧
        took l l' (concat rows) vs
  | inr e => try_map item_rows batch = inr e ∨
             try_map edge_row_of (first_edges (seen_edges l) (batch ≫= item_edges _ _)) = inr e
  end.
Proof.
  revert l. induction batch as [|item batch IH]; intros l.
  { exists [], []. split; [done|split; [done|]]. apply took_refl. }
  rewrite bind_cons. revert IH. generalize (batch ≫= item_edges N E). intros later IH.
  cbn [try_fold try_map]. rewrite first_edges_app, try_map_app.
  assert (Hload : load_item node_row edge_id_key edge_row_of l item =
    (l ← try_fold (load_node node_row (item_hash _ _ item) (item_mtime _ _ item)) l (item_nodes _ _ item);
     try_fold (load_edge edge_id_key edge_row_of) l (item_edges _ _ item))) by done.
  assert (Hrows : item_rows item =
    try_map (node_row (item_hash _ _ item) (item_mtime _ _ item)) (item_nodes _ _ item)) by done.
  rewrite Hload, Hrows. clear Hload Hrows.
  pose proof (load_nodes_spec (item_hash _ _ item) (item_mtime _ _ item) l (item_nodes _ _ item)) as Hn.
  destruct (try_fold (load_node _ _ _) l _) as [l1|e1], (try_map (node_row _ _) _) as [ns|e1'];
    simpl; try done; [|subst; by left].
  destruct Hn as [Hn Hns]. pose proof (load_edges_spec l1 (item_edges _ _ item)) as He.
  rewrite Hns in He.
  destruct (try_fold (load_edge _ _) l1 _) as [l2|e2],
    (try_map edge_row_of (first_edges (seen_edges l) _)) as [es|e2']; simpl; try done;
    [|subst; by right].
  destruct He as [He Hes]. specialize (IH l2). rewrite Hes in IH.
  destruct (try_fold (load_item _ _ _) l2 batch) as [l3|e3].
  - destruct IH as (rows & vs & -> & -> & Ht). simpl. exists (ns :: rows), (es ++ vs).
    split; [done|split; [done|]]. simpl.
    apply (took_trans l l2 l3 ns es); [|done].
    pose proof (took_trans _ _ _ _ _ _ _ Hn He) as H'. by rewrite app_nil_r in H'.
  - destruct IH as [-> | ->]; simpl; [by left|by right].
Qed.

End batch_spec.

(** ** Upserts *)

Definition names (rows : list NodeRow) : list string := qualified_name ∘ vals <$> rows.
Definition ids (rows : list NodeRow) : list Z := node_id <$> rows.

Lemma elem_of_names q rows : q ∈ names rows ↔ ∃ r, r ∈ rows ∧ qualified_name (vals r) = q.
Proof. unfold names. rewrite list_elem_of_fmap. naive_solver. Qed.

Lemma upsert_row_new rows seq v :
  qualified_name v ∉ names rows →
  upsert_row (rows, seq) v = (rows ++ [mkNodeRow (seq + 1) v None None], (seq + 1)%Z).
Proof.
  intros Hq. unfold upsert_row. rewrite bool_decide_eq_false_2; [done|].
  intros (r & Hr & Hrq)%Exists_exists. apply Hq, elem_of_names. by exists r.
Qed.

Definition overwrite (v : NodeVals) (r : NodeRow) : NodeRow :=
  if bool_decide (qualified_name (vals r) = qualified_name v)
  then mkNodeRow (node_id r) v (signature r) (community_id r) else r.

Lemma upsert_row_old rows seq v :
  qualified_name v ∈ names rows →
  upsert_row (rows, seq) v = (overwrite v <$> rows, (seq + 1)%Z).
Proof.
  intros (r & Hr & Hrq)%elem_of_names. unfold upsert_row. rewrite bool_decide_eq_true_2; [done|].
  apply Exists_exists. by exists r.
Qed.

Lemma overwrite_name v r : qualified_name (vals (overwrite v r)) = qualified_name (vals r).
Proof. unfold overwrite. case_if; simpl; congruence. Qed.

Lemma overwrite_id v r : node_id (overwrite v r) = node_id r.
Proof. unfold overwrite. by case_if. Qed.

Lemma names_overwrite v rows : names (overwrite v <$> rows) = names rows.
Proof.
  unfold names. rewrite <-list_fmap_compose. apply list_fmap_ext. intros _ r _. apply overwrite_name.
Qed.

Lemma ids_overwrite v rows : ids (overwrite v <$> rows) = ids rows.
Proof.
  unfold ids. rewrite <-list_fmap_compose. apply list_fmap_ext. intros _ r _. apply overwrite_id.
Qed.

(** Row ids are distinct, positive and within the sequence; names are distinct. *)
Definition table_ok (t : list NodeRow * Z) : Prop :=
  NoDup (ids t.1) ∧ Forall (λ i, 0 < i ≤ t.2)%Z (ids t.1) ∧ NoDup (names t.1) ∧ (0 ≤ t.2)%Z.

Lemma upsert_row_ok t v : table_ok t → table_ok (upsert_row t v).
Proof.
  destruct t as [rows seq]. intros (Hi & Hb & Hn & H0). simpl in Hi, Hb, Hn, H0.
  destruct (decide (qualified_name v ∈ names rows)) as [Hin|Hin].
  - rewrite upsert_row_old by done. unfold table_ok. simpl. rewrite ids_overwrite, names_overwrite.
    repeat split; try done; [|lia]. eapply Forall_impl; [exact Hb|]. simpl. lia.
  - rewrite upsert_row_new by done. unfold table_ok, ids, names in *. simpl. rewrite !fmap_app. simpl.
    repeat split; [| | |lia].
    + apply NoDup_app. split; [done|split; [|apply NoDup_singleton]].
      intros i Hi'. rewrite list_elem_of_singleton. rewrite Forall_forall in Hb. apply Hb in Hi'. lia.
    + apply Forall_app. split; [|repeat constructor; lia].
      eapply Forall_impl; [exact Hb|]. simpl. lia.
    + apply NoDup_app. split; [done|split; [|apply NoDup_singleton]].
      intros q Hq. rewrite list_elem_of_singleton. congruence.
Qed.

Lemma foldl_upsert_ok t vs : table_ok t → table_ok (foldl upsert_row t vs).
Proof. revert t. induction vs as [|v vs IH]; intros t Ht; [done|]. by apply IH, upsert_row_ok. Qed.

(** Rows whose names the written values do not have stay where they are. *)
Lemma upsert_row_app rows0 rows seq v :
  qualified_name v ∉ names rows0 →
  upsert_row (rows0 ++ rows, seq) v =
  (rows0 ++ (upsert_row (rows, seq) v).1, (upsert_row (rows, seq) v).2).
Proof.
  intros H0. destruct (decide (qualified_name v ∈ names rows)) as [Hin|Hin].
  - rewrite !upsert_row_old; [|done|unfold names; rewrite fmap_app; apply elem_of_app; by right].
    simpl. rewrite fmap_app. do 2 f_equal. rewrite <-(list_fmap_id rows0) at 2.
    apply list_fmap_ext. intros i r Hr. unfold overwrite. rewrite bool_decide_eq_false_2; [done|].
    intros Heq. apply H0, elem_of_names. exists r. split; [by eapply list_elem_of_lookup_2|done].
  - rewrite !upsert_row_new; [|done|unfold names in *; rewrite fmap_app, elem_of_app; tauto].
    simpl. by rewrite app_assoc.
Qed.

Lemma foldl_upsert_app rows0 rows seq vs :
  Forall (λ v, qualified_name v ∉ names rows0) vs →
  foldl upsert_row (rows0 ++ rows, seq) vs =
  (rows0 ++ (foldl upsert_row (rows, seq) vs).1, (foldl upsert_row (rows, seq) vs).2).
Proof.
  intros Hvs. revert rows seq. induction Hvs as [|v vs Hv Hvs IH]; intros rows seq; cbn [foldl]; [done|].
  rewrite upsert_row_app by done. rewrite IH.
  rewrite <-surjective_pairing. done.
Qed.

(** The last of the values with a name. *)
Definition last_vals (q : string) (vs : list NodeVals) : option NodeVals :=
  last (filter (λ v, qualified_name v = q) vs).

Lemma last_vals_snoc q vs v :
  last_vals q (vs ++ [v]) = if bool_decide (qualified_name v = q) then Some v else last_vals q vs.
Proof.
  unfold last_vals. rewrite filter_app, filter_cons, filter_nil.
  destruct (decide (qualified_name v = q)).
  - by rewrite bool_decide_eq_true_2, last_snoc.
  - by rewrite bool_decide_eq_false_2, app_nil_r.
Qed.

(** The rows written from an empty table: one for each name, with the last
    values, and a fresh id. *)
Lemma foldl_upsert_fresh seq vs :
  let news := (foldl upsert_row ([], seq) vs).1 in
  (foldl upsert_row ([], seq) vs).2 = (seq + Z.of_nat (length vs))%Z ∧
  NoDup (ids news) ∧ NoDup (names news) ∧
  Forall (λ r, seq < node_id r ≤ seq + Z.of_nat (length vs))%Z news ∧
  (∀ q, (∃ r, r ∈ news ∧ qualified_name (vals r) = q) ↔ is_Some (last_vals q vs)) ∧
  (∀ r, r ∈ news → last_vals (qualified_name (vals r)) vs = Some (vals r)).
Proof.
  induction vs as [|v vs IH] using rev_ind.
  { simpl. split; [lia|split; [constructor|split; [constructor|split; [constructor|split]]]].
    - intros q. split; [intros (r & Hr & _); by apply not_elem_of_nil in Hr|by intros [? ?]].
    - intros r Hr. by apply not_elem_of_nil in Hr. }
  rewrite foldl_snoc, length_app. simpl.
  destruct (foldl upsert_row ([], seq) vs) as [news seq'] eqn:E. simpl in IH.
  destruct IH as (-> & Hi & Hn & Hb & Hq & Hv).
  destruct (decide (qualified_name v ∈ names news)) as [Hin|Hin].
  - rewrite upsert_row_old by done. simpl. rewrite ids_overwrite, names_overwrite.
    split; [lia|split; [done|split; [done|split; [|split]]]].
    + apply Forall_fmap. eapply Forall_impl; [exact Hb|]. intros r Hr. cbn in Hr |- *. rewrite overwrite_id. lia.
    + intros q. rewrite last_vals_snoc. rewrite <-elem_of_names, names_overwrite, elem_of_names, Hq.
      destruct (decide (qualified_name v = q)) as [<-|]; [|by rewrite bool_decide_eq_false_2].
      rewrite bool_decide_eq_true_2 by done. split; [by eexists|]. intros _. apply Hq, elem_of_names. done.
    + intros r (r' & -> & Hr')%list_elem_of_fmap. rewrite last_vals_snoc.
      rewrite overwrite_name. unfold overwrite.
      destruct (decide (qualified_name (vals r') = qualified_name v)) as [Heq|Hne].
      * rewrite (bool_decide_eq_true_2 (qualified_name (vals r') = _)), bool_decide_eq_true_2 by done. done.
      * rewrite (bool_decide_eq_false_2 (qualified_name (vals r') = _)), bool_decide_eq_false_2 by congruence.
        by apply Hv.
  - rewrite upsert_row_new by done. simpl.
    assert (Hold : ∀ r, r ∈ news → qualified_name (vals r) ≠ qualified_name v).
    { intros r Hr Heq. apply Hin, elem_of_names. by exists r. }
    split; [lia|]. unfold ids, names in *. rewrite !fmap_app. simpl. split; [|split; [|split; [|split]]].
    + apply NoDup_app. split; [done|split; [|apply NoDup_singleton]].
      intros i (r & -> & Hr)%list_elem_of_fmap. rewrite list_elem_of_singleton.
      rewrite Forall_forall in Hb. apply Hb in Hr. lia.
    + apply NoDup_app. split; [done|split; [|apply NoDup_singleton]].
      intros q Hq'. rewrite list_elem_of_singleton. congruence.
    + apply Forall_app. split; [|apply Forall_singleton; simpl; lia].
      eapply Forall_impl; [exact Hb|]. simpl. lia.
    + intros q. rewrite last_vals_snoc. destruct (decide (qualified_name v = q)) as [<-|Hne].
      * rewrite bool_decide_eq_true_2 by done. split; [by eexists|]. intros _.
        eexists. split; [apply elem_of_app; right; by apply list_elem_of_singleton|done].
      * rewrite bool_decide_eq_false_2, <-Hq by done. setoid_rewrite elem_of_app.
        setoid_rewrite list_elem_of_singleton. naive_solver.
    + intros r [Hr| ->%list_elem_of_singleton]%elem_of_app; rewrite last_vals_snoc.
      * rewrite bool_decide_eq_false_2 by (intros Heq; by eapply Hold). by apply Hv.
      * by rewrite bool_decide_eq_true_2.
Qed.

Lemma foldl_insert_row rows seq vs :
  ∃ news, foldl insert_row (rows, seq) vs = (rows ++ news, (seq + Z.of_nat (length vs))%Z) ∧
    e_vals <$> news = vs ∧ NoDup (edge_id <$> news) ∧
    Forall (λ e, seq < edge_id e ≤ seq + Z.of_nat (length vs))%Z news.
Proof.
  induction vs as [|v vs IH] using rev_ind.
  { exists []. rewrite app_nil_r, Z.add_0_r. repeat split; constructor. }
  destruct IH as (news & Hf & Hv & Hnd & Hb). rewrite foldl_snoc, Hf, length_app. simpl.
  exists (news ++ [mkEdgeRow (seq + Z.of_nat (length vs) + 1) v]).
  rewrite <-app_assoc, !fmap_app, Hv. simpl. split; [f_equal; lia|split; [done|split]].
  - apply NoDup_app. split; [done|split; [|apply NoDup_singleton]].
    intros i (r & -> & Hr)%list_elem_of_fmap. rewrite list_elem_of_singleton.
    rewrite Forall_forall in Hb. apply Hb in Hr. lia.
  - apply Forall_app. split; [|apply Forall_singleton; simpl; lia].
    eapply Forall_impl; [exact Hb|]. simpl. lia.
Qed.

(** ** Index rows *)

(** Values whose JSON cannot be read back. *)
Definition unread (v : NodeVals) : Prop := from_str (extra v) = None.

Lemma insert_row_cases root m r :
  m !! node_id r = None →
  insert_fts_row root m r = inl (<[node_id r := fts_values root r]> m) ∨
  insert_fts_row root m r = inr JsonError ∧ unread (vals r).
Proof.
  intros Hm. unfold insert_fts_row, unread. rewrite Hm. destruct (bool_decide _); [by left|].
  unfold json. destruct (from_str _); [by left|by right].
Qed.

Lemma insert_rows_spec root m rows :
  NoDup (ids rows) → (∀ r, r ∈ rows → m !! node_id r = None) →
  match try_fold (insert_fts_row root) m rows with
  | inl m' => (∀ r, r ∈ rows → m' !! node_id r = Some (fts_values root r)) ∧
              (∀ i, i ∉ ids rows → m' !! i = m !! i)
  | inr e => e = JsonError ∧ ∃ r, r ∈ rows ∧ unread (vals r)
  end.
Proof.
  revert m. induction rows as [|r rows IH]; intros m Hnd Hm.
  { split; [by intros r ?%not_elem_of_nil|done]. }
  cbn [try_fold]. unfold ids in Hnd. rewrite fmap_cons in Hnd. apply NoDup_cons in Hnd as [Hr Hnd].
  destruct (insert_row_cases root m r) as [-> | [-> Hun]]; [by apply Hm; apply elem_of_cons; left| |].
  2:{ split; [done|]. exists r. split; [by left|done]. }
  cbn [mbind result_bind rbind].
  specialize (IH (<[node_id r := fts_values root r]> m) Hnd).
  destruct (try_fold (insert_fts_row root) _ rows) as [m'|e].
  - destruct IH as [IH1 IH2].
    { intros r' Hr'. rewrite lookup_insert_ne; [apply Hm; set_solver|].
      intros Heq. apply Hr. rewrite Heq. by apply list_elem_of_fmap_2. }
    split.
    + intros r' [->|Hr']%elem_of_cons; [|by apply IH1].
      rewrite IH2 by done. by rewrite lookup_insert_eq.
    + intros i Hi. unfold ids in Hi. rewrite fmap_cons in Hi. rewrite not_elem_of_cons in Hi.
      destruct Hi as [Hi1 Hi2].
      rewrite IH2 by done. by rewrite lookup_insert_ne by done.
  - destruct IH as (He & r' & Hr' & Hun).
    { intros r' Hr'. rewrite lookup_insert_ne; [apply Hm; set_solver|].
      intros Heq. apply Hr. rewrite Heq. by apply list_elem_of_fmap_2. }
    split; [done|]. exists r'. split; [by right|done].
Qed.

Lemma by_file_path_Permutation l : by_file_path l ≡ₚ l.
Proof. apply sort_by_Permutation. Qed.

Lemma node_unique (rows : list NodeRow) r1 r2 :
  NoDup (ids rows) → r1 ∈ rows → r2 ∈ rows → node_id r1 = node_id r2 → r1 = r2.
Proof.
  intros Hnd H1 H2 Heq. apply list_elem_of_lookup_1 in H1 as [i Hi].
  apply list_elem_of_lookup_1 in H2 as [j Hj].
  assert (i = j) as ->; [|by simplify_eq].
  eapply NoDup_lookup; [exact Hnd| |]; unfold ids; rewrite list_lookup_fmap.
  - by rewrite Hi.
  - by rewrite Hj; simpl; rewrite Heq.
Qed.

Lemma ids_filter_NoDup (P : NodeRow → Prop) `{!∀ r, Decision (P r)} rows :
  NoDup (ids rows) → NoDup (ids (filter P rows)).
Proof.
  intros Hnd. unfold ids in *. eapply sublist_NoDup; [exact Hnd|].
  apply fmap_sublist, sublist_filter.
Qed.

Lemma insert_chunks_spec root rows m cs :
  NoDup (ids rows) → NoDup (concat cs) →
  (∀ r, r ∈ rows → in_files (concat cs) r → m !! node_id r = None) →
  match try_fold (λ m chunk, try_fold (insert_fts_row root) m
                               (by_file_path (filter (in_files chunk) rows))) m cs with
  | inl m' => (∀ r, r ∈ rows → in_files (concat cs) r → m' !! node_id r = Some (fts_values root r)) ∧
              (∀ i, (∀ r, r ∈ rows → in_files (concat cs) r → node_id r ≠ i) → m' !! i = m !! i)
  | inr e => e = JsonError ∧ ∃ r, r ∈ rows ∧ in_files (concat cs) r ∧ unread (vals r)
  end.
Proof.
  intros Hnd. revert m. induction cs as [|c cs IH]; intros m Hcs Hm.
  { split; [by intros r _ ?%not_elem_of_nil|done]. }
  cbn [try_fold]. simpl concat in *. apply NoDup_app in Hcs as (Hc & Hdisj & Hcs).
  assert (Hperm := by_file_path_Permutation (filter (in_files c) rows)).
  assert (Helem : ∀ r, r ∈ by_file_path (filter (in_files c) rows) ↔ in_files c r ∧ r ∈ rows).
  { intros r. rewrite Hperm. apply list_elem_of_filter. }
  pose proof (insert_rows_spec root m (by_file_path (filter (in_files c) rows))) as Hins.
  assert (Hnd' : NoDup (ids (by_file_path (filter (in_files c) rows)))).
  { unfold ids. rewrite Hperm. by apply (ids_filter_NoDup (in_files c)). }
  specialize (Hins Hnd').
  destruct (try_fold (insert_fts_row root) m _) as [m1|e]; cbn [mbind result_bind rbind].
  2:{ destruct Hins as (He & r & [Hr1 Hr2]%Helem & Hun).
      { intros r [Hr ?]%Helem. apply Hm; [done|]. unfold in_files in *. set_solver. }
      split; [done|]. exists r. split_and!; [done| |done]. unfold in_files in *. set_solver. }
  destruct Hins as [H1 H2].
  { intros r [Hr ?]%Helem. apply Hm; [done|]. unfold in_files in *. set_solver. }
  assert (Hold : ∀ r, r ∈ rows → in_files (concat cs) r → m1 !! node_id r = m !! node_id r).
  { intros r Hr Hin. apply H2. unfold ids. rewrite list_elem_of_fmap.
    intros (r' & Heq & [Hr'c Hr']%Helem). assert (r = r') as <- by (by apply (node_unique rows)).
    by apply (Hdisj (file_path (vals r))). }
  specialize (IH m1 Hcs).
  destruct (try_fold _ m1 cs) as [m2|e].
  - destruct IH as [I1 I2].
    { intros r Hr Hin. rewrite Hold by done. apply Hm; [done|]. unfold in_files in *. set_solver. }
    split.
    + intros r Hr Hin. destruct (decide (in_files (concat cs) r)) as [Hin2|Hin2]; [by apply I1|].
      assert (Hinc : in_files c r) by (unfold in_files in *; set_solver).
      rewrite I2; [apply H1; by apply Helem|]. intros r' Hr' Hin' Heq.
      assert (r' = r) as -> by (by apply (node_unique rows)). done.
    + intros i Hi. rewrite I2; [|intros r Hr Hin; apply Hi; [done|unfold in_files in *; set_solver]].
      apply H2. unfold ids. rewrite list_elem_of_fmap. intros (r' & -> & [Hr'c Hr']%Helem).
      apply (Hi r'); [done| |done]. unfold in_files in *; set_solver.
  - destruct IH as (He & r & Hr & Hin & Hun).
    { intros r Hr Hin. rewrite Hold by done. apply Hm; [done|]. unfold in_files in *. set_solver. }
    split; [done|]. exists r. split_and!; [done| |done]. unfold in_files in *. set_solver.
Qed.

(** ** Names and files *)

Fixpoint has_colon (s : string) : bool :=
  match s with
  | EmptyString => false
  | String c s => bool_decide (c = colon) || has_colon s
  end.

(** The name of a node is its file's path, or starts with it and ["::"]; the
    paths of the repository's files hold no colon. *)
Definition belongs (v : NodeVals) : Prop :=
  has_colon (file_path v) = false ∧
  (qualified_name v = file_path v ∨ ∃ rest, qualified_name v = file_path v +:+ "::" +:+ rest).

Fixpoint before_colon (s : string) : string :=
  match s with
  | EmptyString => EmptyString
  | String c s => if bool_decide (c = colon) then EmptyString else String c (before_colon s)
  end.

Lemma before_colon_path path rest : 
  has_colon path = false → before_colon path = path ∧ before_colon (path +:+ "::" +:+ rest) = path.
Proof.
  induction path as [|c path IH]; simpl; [done|].
  destruct (bool_decide (c = colon)); simpl; [done|]. intros [-> ->]%IH. done.
Qed.

Lemma belongs_file v1 v2 :
  belongs v1 → belongs v2 → qualified_name v1 = qualified_name v2 → file_path v1 = file_path v2.
Proof.
  assert (H1 : ∀ v, belongs v → before_colon (qualified_name v) = file_path v).
  { intros v [Hc [->|[rest ->]]].
    - by destruct (before_colon_path (file_path v) "" Hc).
    - by destruct (before_colon_path (file_path v) rest Hc). }
  intros Hb1%H1 Hb2%H1 Heq. congruence.
Qed.

Lemma make_qualified_belongs k n path parent v :
  has_colon path = false → file_path v = path →
  qualified_name v = make_qualified_parts k n path parent → belongs v.
Proof.
  intros Hc Hp Hq. unfold belongs. rewrite Hp, Hq. split; [done|]. unfold make_qualified_parts.
  destruct (bool_decide (k = "File")); [by left|]. right. destruct parent; by eexists.
Qed.

(** ** The store's invariant *)

Record store_ok (s : GraphStore) : Prop := mkStoreOk {
  ok_nodes : table_ok (nodes s, node_seq s);
  ok_paths : Forall (λ r, belongs (vals r)) (nodes s);
  ok_edges : NoDup (edge_id <$> edges s) ∧ Forall (λ e, edge_id e ≤ edge_seq s)%Z (edges s);
  (** Every node has one index row, and every index row its node. *)
  ok_fts : ∀ i, is_Some (default ∅ (fts s) !! i) ↔ i ∈ ids (nodes s);
  (** No derived row outlives its node. *)
  ok_flows : Forall (λ m, snd m ∈ ids (nodes s)) (flow_memberships s);
  ok_risk : Forall (λ i, risk_node i ∈ ids (nodes s)) (risk_index s);
  ok_indexes : write_indexes s = negb (bulk s)
}.

Lemma watermark_ok now n s : store_ok s → store_ok (set_fts_watermark now n s).
Proof. intros Hs. destruct Hs. by split. Qed.

(** The nodes that stay. *)
Lemma removed_node files s r : r ∈ nodes (removed files s) ↔ r ∈ nodes s ∧ ¬ in_files files r.
Proof. unfold removed. cbn. rewrite list_elem_of_filter. tauto. Qed.

Lemma removed_ids files s i :
  store_ok s → i ∈ ids (nodes (removed files s)) ↔
  i ∈ ids (nodes s) ∧ i ∉ node_id <$> filter (in_files files) (nodes s).
Proof.
  intros Hs. unfold ids. rewrite elem_of_file_ids, !list_elem_of_fmap.
  setoid_rewrite removed_node. split.
  - intros (r & -> & Hr & Hn). split; [by exists r|]. intros (r' & Hr' & Hin & Heq).
    assert (r' = r) as -> by (eapply node_unique; [apply Hs|done..]). done.
  - intros [(r & -> & Hr) Hn]. exists r. split; [done|split; [done|]]. intros Hin. apply Hn. by exists r.
Qed.

Lemma removed_ok files s : store_ok s → store_ok (removed files s).
Proof.
  intros Hs. pose proof (λ i, removed_ids files s i Hs) as Hids.
  destruct Hs as [(Hi & Hb & Hn & H0) Hp [He1 He2] Hf Hflow Hrisk Hidx]. split.
  - unfold removed, table_ok, ids, names in *. cbn [nodes node_seq fst snd] in *.
    split; [|split; [|split]].
    + by apply (ids_filter_NoDup (λ r, ¬ in_files files r)).
    + rewrite Forall_fmap in Hb |- *. by apply Forall_filter.
    + eapply sublist_NoDup; [exact Hn|]. apply fmap_sublist, sublist_filter.
    + done.
  - by apply Forall_filter.
  - cbn. split; [|by apply Forall_filter].
    eapply sublist_NoDup; [exact He1|]. apply fmap_sublist, sublist_filter.
  - intros i. rewrite Hids, <-Hf. cbn. destruct (fts s) as [m|]; cbn.
    + rewrite without_lookup.
      destruct (decide (i ∈ node_id <$> filter (in_files files) (nodes s))).
      * rewrite bool_decide_eq_true_2 by done. split; [by intros [? ?]|tauto].
      * rewrite bool_decide_eq_false_2 by done. tauto.
    + rewrite lookup_empty. split; [by intros [? ?]|by intros [[? ?] _]].
  - apply Forall_forall. intros m Hm. cbn in Hm. apply list_elem_of_filter in Hm as [Hm1 Hm2].
    rewrite Forall_forall in Hflow. apply Hids. split; [by apply Hflow|done].
  - apply Forall_forall. intros i Hm. cbn in Hm. apply list_elem_of_filter in Hm as [Hm1 Hm2].
    rewrite Forall_forall in Hrisk. apply Hids. split; [by apply Hrisk|done].
  - done.
Qed.

(** ** A batch *)

(** The state after a batch for [files] with node values [vs] and edge values
    [es]. *)
Record batch_stored (s s' : GraphStore) (files : list string) (vs : list NodeVals)
    (es : list EdgeVals) : Prop := mkBatchStored {
  (** Nodes of other files are untouched; those of the batch's files are the
      values given, the last for each name, in new rows. *)
  bs_nodes : ∃ news, nodes s' = filter (λ r, ¬ in_files files r) (nodes s) ++ news ∧
    Forall (λ r, node_seq s < node_id r)%Z news ∧
    (∀ q, (∃ r, r ∈ news ∧ qualified_name (vals r) = q) ↔ is_Some (last_vals q vs)) ∧
    (∀ r, r ∈ news → last_vals (qualified_name (vals r)) vs = Some (vals r));
  (** Edges of other files are untouched; the batch's follow, each in a new row. *)
  bs_edges : ∃ news, edges s' = filter (λ e, e_file_path (e_vals e) ∉ files) (edges s) ++ news ∧
    e_vals <$> news = es ∧ Forall (λ e, edge_seq s < edge_id e)%Z news
}.

Section batch_theorem.
Context {N E : Type} (node_row : string → Z → N → Result NodeVals)
  (edge_id_key : E → EdgeKey) (edge_row_of : E → Result EdgeVals).

(** The files of a batch are named once, and its nodes are in their file. *)
Definition batch_paths_ok (batch : list (FileBatchItem N E)) : Prop :=
  NoDup (item_path _ _ <$> batch) ∧
  ∀ item rows v, item ∈ batch → item_rows node_row item = inl rows → v ∈ rows →
    file_path v = item_path _ _ item ∧ belongs v.

Hypothesis node_row_json : ∀ h m n e, node_row h m n = inr e → e = JsonError.
Hypothesis edge_row_json : ∀ x e, edge_row_of x = inr e → e = JsonError.

Lemma try_map_error {A B} (f : A → Result B) l e :
  (∀ a e, f a = inr e → e = JsonError) → try_map f l = inr e → e = JsonError.
Proof.
  intros Hf. induction l as [|a l IH]; simpl; [done|].
  destruct (f a) as [b|e'] eqn:Ef; simpl.
  - destruct (try_map f l) as [bs|e''] eqn:Em; simpl; [done|]. intros [= ->]. by apply IH.
  - intros [= ->]. by eapply Hf.
Qed.

Lemma try_map_elem {A B} (f : A → Result B) l bs b :
  try_map f l = inl bs → b ∈ bs → ∃ a, a ∈ l ∧ f a = inl b.
Proof.
  revert bs. induction l as [|a l IH]; intros bs; simpl; [intros [= <-] Hb; by apply not_elem_of_nil in Hb|].
  destruct (f a) as [b'|] eqn:Ef; simpl; [|done].
  destruct (try_map f l) as [bs'|] eqn:Em; simpl; [|done]. intros [= <-] [->|Hb]%elem_of_cons.
  - exists a. split; [apply elem_of_cons; by left|done].
  - destruct (IH bs' eq_refl Hb) as (a' & Ha & Hf). exists a'. split; [apply elem_of_cons; by right|done].
Qed.

Lemma batch_rows_paths batch rows v :
  batch_paths_ok batch → try_map (item_rows node_row) batch = inl rows → v ∈ concat rows →
  file_path v ∈ item_path _ _ <$> batch ∧ belongs v.
Proof.
  intros [_ Hp] Hm Hv. apply list_elem_of_In, in_concat in Hv as (rs & Hrs & Hvr).
  apply list_elem_of_In in Hrs. apply list_elem_of_In in Hvr.
  destruct (try_map_elem _ _ _ _ Hm Hrs) as (item & Hitem & Hrow).
  destruct (Hp item rs v Hitem Hrow Hvr) as [-> Hb]. split; [|done].
  by apply list_elem_of_fmap_2.
Qed.

(** The store before the index is brought up to date. *)
Definition loaded (files : list string) (vs : list NodeVals) (es : list EdgeVals) (s : GraphStore)
    : GraphStore :=
  with_tables (foldl upsert_row (nodes (removed files s), node_seq s) vs,
               foldl insert_row (edges (removed files s), edge_seq s) es) (removed files s).

Lemma set_flags_flags i b s : i = write_indexes s → b = bulk s → set_flags i b s = s.
Proof. intros -> ->. apply store_eta. Qed.

Lemma removed_flags files i b s : removed files (set_flags i b s) = set_flags i b (removed files s).
Proof. done. Qed.

Lemma store_batch_loaded now batch s :
  store_ok s →
  match store_batch node_row edge_id_key edge_row_of now batch s with
  | inl s' => ∃ rows es,
      try_map (item_rows node_row) batch = inl rows ∧
      batch_edges edge_id_key edge_row_of batch = inl es ∧
      sync_fts_after_file_batch now (item_path _ _ <$> batch) (bulk s)
        (loaded (item_path _ _ <$> batch) (concat rows) es s) = inl s'
  | inr e => (e = JsonError ∧ (try_map (item_rows node_row) batch = inr e ∨
                               batch_edges edge_id_key edge_row_of batch = inr e)) ∨ ∃ rows es,
      try_map (item_rows node_row) batch = inl rows ∧
      batch_edges edge_id_key edge_row_of batch = inl es ∧
      sync_fts_after_file_batch now (item_path _ _ <$> batch) (bulk s)
        (loaded (item_path _ _ <$> batch) (concat rows) es s) = inr e
  end.
Proof.
  intros Hs. unfold store_batch. set (files := item_path _ _ <$> batch).
  set (suspend := negb (bulk s) && should_suspend_write_indexes (length batch) s).
  set (s0 := if suspend then drop_graph_write_indexes s else s). cbv zeta.
  rewrite remove_files_rows_spec.
  assert (Hrem : removed files s0 = set_flags (if suspend then false else write_indexes s) (bulk s) (removed files s)).
  { unfold s0. destruct suspend; [done|]. by rewrite <-removed_flags, set_flags_flags. }
  pose proof (load_batch_spec node_row edge_id_key edge_row_of (mkLoader (removed files s0) [] [] ∅) batch) as Hl.
  cbn [seen_edges] in Hl. fold (batch_edges edge_id_key edge_row_of batch) in Hl.
  destruct (try_fold _ _ batch) as [l|e]; cbn [mbind result_bind rbind].
  2:{ left. split; [|exact Hl]. destruct Hl as [Hl|Hl].
      - refine (try_map_error _ _ _ _ Hl). intros item e'. apply try_map_error. intros ? ?. apply node_row_json.
      - by eapply try_map_error. }
  destruct Hl as (rows & es & Hrows & Hes & [Hv Hw]).
  assert (Hfl : (if suspend then create_graph_write_indexes (flush l) else flush l) =
                loaded files (concat rows) es s).
  { rewrite flush_view, Hv. cbn [view store node_wait edge_wait foldl fst snd].
    rewrite (with_tables_rest _ _ _ _ Hw). cbn [store]. rewrite Hrem. unfold loaded.
    assert (Hbulk : suspend = true → write_indexes s = true).
    { unfold suspend. rewrite andb_true_iff, negb_true_iff. intros [Hb _].
      rewrite (ok_indexes s Hs), Hb. done. }
    destruct suspend; [|done]. unfold create_graph_write_indexes, with_tables, set_flags. cbn.
    by rewrite Hbulk. }
  rewrite Hfl.
  destruct (sync_fts_after_file_batch _ _ _ _) as [s'|e] eqn:Hsync; [|right]; by exists rows, es.
Qed.

(** The tables of [loaded]. *)
Lemma loaded_stored files vs es s :
  store_ok s → Forall (λ v, file_path v ∈ files ∧ belongs v) vs →
  batch_stored s (loaded files vs es s) files vs es ∧
  table_ok (nodes (loaded files vs es s), node_seq (loaded files vs es s)) ∧
  Forall (λ r, belongs (vals r)) (nodes (loaded files vs es s)) ∧
  NoDup (edge_id <$> edges (loaded files vs es s)) ∧
  Forall (λ e, edge_id e ≤ edge_seq (loaded files vs es s))%Z (edges (loaded files vs es s)) ∧
  (∀ r, r ∈ nodes (loaded files vs es s) → in_files files r → (node_seq s < node_id r)%Z) ∧
  (∀ r, r ∈ nodes (loaded files vs es s) ∧ ¬ in_files files r ↔ r ∈ nodes (removed files s)).
Proof.
  intros Hs Hvs. pose proof (removed_ok files s Hs) as Hr.
  assert (Hdisj : Forall (λ v, qualified_name v ∉ names (nodes (removed files s))) vs).
  { eapply Forall_impl; [exact Hvs|]. intros v [Hf Hb] (r & Hin & Hq)%elem_of_names.
    pose proof (ok_paths _ Hr) as Hp. rewrite Forall_forall in Hp. specialize (Hp r Hin).
    apply removed_node in Hin as [_ Hn]. apply Hn. unfold in_files.
    by rewrite (belongs_file (vals r) v). }
  pose proof (foldl_upsert_app (nodes (removed files s)) [] (node_seq s) vs Hdisj) as Hf.
  rewrite app_nil_r in Hf.
  pose proof (foldl_upsert_fresh (node_seq s) vs) as (Hseq & Hi & Hn & Hb & Hq & Hv).
  set (news := (foldl upsert_row ([], node_seq s) vs).1) in *.
  destruct (foldl_insert_row (edges (removed files s)) (edge_seq s) es) as (enews & He & Hev & Hend & Heb).
  assert (Hnodes : nodes (loaded files vs es s) = nodes (removed files s) ++ news).
  { unfold loaded, with_tables. cbn [nodes]. cbn [fst]. by rewrite Hf. }
  assert (Hedges : edges (loaded files vs es s) = edges (removed files s) ++ enews).
  { unfold loaded, with_tables. cbn [edges]. cbn [fst snd]. by rewrite He. }
  assert (Heseq : edge_seq (loaded files vs es s) = (edge_seq s + Z.of_nat (length es))%Z).
  { unfold loaded, with_tables. cbn [edge_seq]. cbn [fst snd]. by rewrite He. }
  assert (Hnewp : Forall (λ r, file_path (vals r) ∈ files ∧ belongs (vals r)) news).
  { apply Forall_forall. intros r Hin. apply Hv in Hin. unfold last_vals in Hin.
    apply last_Some_elem_of in Hin. apply list_elem_of_filter in Hin as [_ Hin].
    rewrite Forall_forall in Hvs. by apply Hvs. }
  pose proof (ok_edges _ Hr) as [Hre1 Hre2].
  rewrite Hnodes, Hedges, Heseq. split; [|split; [|split; [|split; [|split; [|split]]]]].
  - split.
    + exists news. rewrite Hnodes. split; [done|]. split; [|done].
      eapply Forall_impl; [exact Hb|]. simpl. lia.
    + exists enews. rewrite Hedges. split; [done|]. split; [done|].
      eapply Forall_impl; [exact Heb|]. simpl. lia.
  - rewrite <-Hnodes. unfold loaded, with_tables. cbn [nodes node_seq]. cbn [fst].
    rewrite <-surjective_pairing. apply foldl_upsert_ok. exact (ok_nodes _ Hr).
  - apply Forall_app. split; [exact (ok_paths _ Hr)|].
    eapply Forall_impl; [exact Hnewp|]. by intros r [_ ?].
  - rewrite fmap_app. apply NoDup_app. split; [done|split; [|done]].
    intros i (e & -> & Hin)%list_elem_of_fmap (e' & Heq & Hin')%list_elem_of_fmap.
    rewrite Forall_forall in Hre2. apply Hre2 in Hin. rewrite Forall_forall in Heb. apply Heb in Hin'.
    cbn in Hin. lia.
  - apply Forall_app. split; (eapply Forall_impl; [eassumption|]); cbn; lia.
  - intros r [Hin|Hin]%elem_of_app Hf'; [by apply removed_node in Hin as [_ ?]|].
    rewrite Forall_forall in Hb. apply Hb in Hin. lia.
  - intros r. rewrite elem_of_app. split.
    + intros [[Hin|Hin] Hf']; [done|]. rewrite Forall_forall in Hnewp.
      by apply Hnewp in Hin as [? _].
    + intros Hin. split; [by left|]. by apply removed_node in Hin as [_ ?].
Qed.

(** The invariant and the tables after the index is brought up to date. *)
(** A row of the batch's files holds values of the batch. *)
Lemma stored_node s s' files vs es r :
  batch_stored s s' files vs es → r ∈ nodes s' → in_files files r → vals r ∈ vs.
Proof.
  intros [(news & -> & _ & _ & Hv) _] [[Hn _]%list_elem_of_filter|Hin]%elem_of_app Hf; [done|].
  apply Hv in Hin. unfold last_vals in Hin. apply last_Some_elem_of in Hin. by apply list_elem_of_filter in Hin as [_ Hin].
Qed.

Lemma sync_loaded now files vs es s :
  store_ok s → NoDup files → Forall (λ v, file_path v ∈ files ∧ belongs v) vs →
  match sync_fts_after_file_batch now files (bulk s) (loaded files vs es s) with
  | inl s' => store_ok s' ∧ batch_stored s s' files vs es ∧ bulk s' = bulk s ∧
      (bulk s = false → metadata s' !! "fts_indexed_node_count" = Some (decimal (fts_count s')))
  | inr e => e = JsonError ∧ ∃ v, v ∈ vs ∧ unread v
  end.
Proof.
  intros Hs Hnd Hvs. pose proof (removed_ok files s Hs) as Hr.
  destruct (loaded_stored files vs es s Hs Hvs) as (Hst & Ht & Hp & He1 & He2 & Hnew & Hold).
  set (s1 := loaded files vs es s) in *.
  assert (Hfts1 : fts s1 = fts (removed files s)) by done.
  assert (Hids : ∀ i, i ∈ ids (nodes (removed files s)) → i ∈ ids (nodes s1)).
  { unfold ids. intros i (r & -> & Hin)%list_elem_of_fmap. apply list_elem_of_fmap_2. by apply Hold. }
  assert (Hfin : ∀ m, (∀ i, is_Some (m !! i) ↔ i ∈ ids (nodes s1)) →
    store_ok (set_fts (Some m) s1)).
  { intros m Hm. split; cbn; try done.
    - eapply Forall_impl; [exact (ok_flows _ Hr)|]. intros x Hx. by apply Hids.
    - eapply Forall_impl; [exact (ok_risk _ Hr)|]. intros x Hx. by apply Hids.
    - exact (ok_indexes _ Hs). }
  assert (Hseq1 : ∀ r, r ∈ nodes s1 → in_files files r → default ∅ (fts s1) !! node_id r = None).
  { intros r Hin Hf. destruct (default ∅ (fts s1) !! node_id r) eqn:Em; [|done]. exfalso.
    rewrite Hfts1 in Em. assert (Hi : node_id r ∈ ids (nodes (removed files s))).
    { apply (ok_fts _ Hr). by eexists. }
    unfold ids in Hi. apply list_elem_of_fmap in Hi as (r' & Heq & Hin'). apply removed_node in Hin' as [Hin' _].
    specialize (Hnew r Hin Hf). destruct (ok_nodes _ Hs) as (_ & Hb & _). unfold ids in Hb.
    rewrite Forall_fmap in Hb. rewrite Forall_forall in Hb. specialize (Hb r' Hin'). cbn in Hb. lia. }
  unfold sync_fts_after_file_batch, insert_fts_for_file_paths.
  assert (Hdone : ∀ s2, store_ok s2 → batch_stored s s2 files vs es → bulk s2 = bulk s →
    let s' := if bulk s then s2 else set_fts_watermark now None s2 in
    store_ok s' ∧ batch_stored s s' files vs es ∧ bulk s' = bulk s ∧
    (bulk s = false → metadata s' !! "fts_indexed_node_count" = Some (decimal (fts_count s')))).
  { intros s2 H1 H2 H3. destruct (bulk s); [done|]. split; [by apply watermark_ok|].
    split; [by destruct H2|]. split; [done|]. intros _. unfold set_fts_watermark. cbn.
    rewrite !lookup_insert_ne by done. by rewrite lookup_insert_eq. }
  destruct files as [|f files'].
  { cbn [mbind result_bind rbind]. apply Hdone; [|done|done].
    split; try done.
    - intros i. rewrite Hfts1, (ok_fts _ Hr). split; [apply Hids|].
      unfold ids. intros (r & -> & Hin)%list_elem_of_fmap. apply list_elem_of_fmap_2. apply Hold.
      split; [done|]. intros Hn. by apply not_elem_of_nil in Hn.
    - eapply Forall_impl; [exact (ok_flows _ Hr)|]. intros x Hx. by apply Hids.
    - eapply Forall_impl; [exact (ok_risk _ Hr)|]. intros x Hx. by apply Hids.
    - exact (ok_indexes _ Hs). }
  set (files := f :: files') in *.
  pose proof (insert_chunks_spec (get_metadata "repo_root" s1) (nodes s1) (default ∅ (fts s1))
                (chunks 450 files)) as Hins.
  rewrite concat_chunks in Hins by lia.
  specialize (Hins (proj1 Ht) Hnd Hseq1).
  destruct (try_fold _ _ (chunks 450 files)) as [m|e]; cbn [mbind result_bind rbind].
  2:{ destruct Hins as (He & r & Hrn & Hin & Hun). split; [done|]. exists (vals r). split; [|done].
      by apply (stored_node s s1 files vs es). }
  destruct Hins as [H1 H2]. apply Hdone; [|by destruct Hst|done]. apply Hfin. intros i. split.
  - intros Hi. destruct (decide (i ∈ ids (nodes s1))) as [|Hn]; [done|]. exfalso.
    rewrite H2 in Hi.
    + rewrite Hfts1 in Hi. apply (ok_fts _ Hr), Hids in Hi. done.
    + intros r Hin _ <-. apply Hn. by apply list_elem_of_fmap_2.
  - unfold ids. intros (r & -> & Hin)%list_elem_of_fmap.
    destruct (decide (in_files files r)) as [Hf|Hf]; [rewrite H1 by done; by eexists|].
    pose proof (proj1 (Hold r) (conj Hin Hf)) as Hrm.
    rewrite H2.
    + rewrite Hfts1. apply (ok_fts _ Hr). by apply list_elem_of_fmap_2.
    + intros r' Hin' Hf' Heq. assert (r' = r) as -> by (by apply (node_unique (nodes s1)); [apply Ht|..]).
      done.
Qed.

Lemma store_batch_spec now batch s :
  store_ok s → batch_paths_ok batch →
  match store_batch node_row edge_id_key edge_row_of now batch s with
  | inl s' => ∃ rows es,
      try_map (item_rows node_row) batch = inl rows ∧
      batch_edges edge_id_key edge_row_of batch = inl es ∧
      store_ok s' ∧ batch_stored s s' (item_path _ _ <$> batch) (concat rows) es ∧ bulk s' = bulk s ∧
      (bulk s = false → metadata s' !! "fts_indexed_node_count" = Some (decimal (fts_count s')))
  | inr e => e = JsonError ∧
      (try_map (item_rows node_row) batch = inr e ∨ batch_edges edge_id_key edge_row_of batch = inr e ∨
       ∃ rows v, try_map (item_rows node_row) batch = inl rows ∧ v ∈ concat rows ∧ unread v)
  end.
Proof.
  intros Hs Hb. pose proof (store_batch_loaded now batch s Hs) as H1.
  assert (Hsync : ∀ rows es, try_map (item_rows node_row) batch = inl rows →
    match sync_fts_after_file_batch now (item_path _ _ <$> batch) (bulk s)
            (loaded (item_path _ _ <$> batch) (concat rows) es s) with
    | inl s' => store_ok s' ∧ batch_stored s s' (item_path _ _ <$> batch) (concat rows) es ∧
        bulk s' = bulk s ∧
        (bulk s = false → metadata s' !! "fts_indexed_node_count" = Some (decimal (fts_count s')))
    | inr e => e = JsonError ∧ ∃ v, v ∈ concat rows ∧ unread v
    end).
  { intros rows es Hrows. apply sync_loaded; [done|apply Hb|]. apply Forall_forall. intros v Hv.
    by eapply batch_rows_paths. }
  destruct (store_batch _ _ _ _ _ _) as [s'|e].
  - destruct H1 as (rows & es & Hrows & Hes & Heq). specialize (Hsync rows es Hrows). rewrite Heq in Hsync.
    by exists rows, es.
  - destruct H1 as [(He & [Hm|Hm])|(rows & es & Hrows & Hes & Heq)]; [split; [done|by left]|split; [done|by right; left]|].
    specialize (Hsync rows es Hrows). rewrite Heq in Hsync. destruct Hsync as (He & v & Hv & Hun).
    split; [done|]. right. right. by exists rows, v.
Qed.

End batch_theorem.

(** ** Other operations *)

Lemma remove_files_data_eq now files s :
  remove_files_data now files s = set_fts_watermark now None (removed files s).
Proof. unfold remove_files_data. by rewrite remove_files_rows_spec. Qed.

Lemma remove_file_data_eq now f s : remove_file_data now f s = remove_files_data now [f] s.
Proof.
  rewrite remove_files_data_eq. unfold remove_file_data. rewrite delete_fts_spec.
  unfold delete_node_keyed_rows, set_keyed, set_nodes, set_edges, set_fts, removed. cbn.
  f_equal. f_equal; apply list_filter_iff; intros x; unfold in_files;
    rewrite list_elem_of_singleton; tauto.
Qed.

Lemma filter_one (rows : list NodeRow) r :
  NoDup (ids rows) → r ∈ rows → filter (λ x, node_id x ∈ [node_id r]) rows = [r].
Proof.
  intros Hnd Hr. apply list_elem_of_lookup_1 in Hr as [i Hi].
  assert (Hsplit := take_drop_middle rows i r Hi). rewrite <-Hsplit in Hnd |- *.
  unfold ids in Hnd. rewrite fmap_app, fmap_cons in Hnd.
  apply NoDup_app in Hnd as (_ & Hd1 & Hnd). apply NoDup_cons in Hnd as [Hd2 _].
  rewrite filter_app, filter_cons, decide_True by (by apply list_elem_of_singleton).
  assert (Hnone : ∀ l, node_id r ∉ node_id <$> l → filter (λ x, node_id x ∈ [node_id r]) l = []).
  { induction l as [|x l IH]; [done|]. rewrite fmap_cons, not_elem_of_cons, filter_cons.
    intros [? ?]. rewrite decide_False, IH; [done|done|]. rewrite list_elem_of_singleton. congruence. }
  rewrite !Hnone; [done|done|]. intros Hin. apply (Hd1 _ Hin). set_solver.
Qed.

Lemma by_file_path_one r : by_file_path [r] = [r].
Proof. done. Qed.

Lemma id_of_spec q rows r :
  NoDup (names rows) → r ∈ rows → qualified_name (vals r) = q → id_of q rows = Some (node_id r).
Proof.
  intros Hnd Hr Hq. unfold id_of.
  destruct (list_find _ rows) as [[i r']|] eqn:Ef; cbn.
  - apply list_find_Some in Ef as (Hi & Hq' & _). f_equal. cbn.
    apply list_elem_of_lookup_1 in Hr as [j Hj].
    assert (i = j) as ->; [|by simplify_eq]. eapply NoDup_lookup; [exact Hnd| |]; unfold names;
      rewrite list_lookup_fmap.
    + by rewrite Hi; cbn; rewrite Hq'.
    + by rewrite Hj; cbn; rewrite Hq.
  - exfalso. apply list_find_None in Ef. rewrite Forall_forall in Ef. by apply (Ef r).
Qed.

(** The row of an upserted node, and the rows that stay. *)
Lemma upsert_row_result rows seq v :
  table_ok (rows, seq) →
  let t := upsert_row (rows, seq) v in
  ∃ r, r ∈ t.1 ∧ vals r = v ∧
    (∀ i, i ∈ ids t.1 ↔ i = node_id r ∨ i ∈ ids rows) ∧
    (∀ x, qualified_name (vals x) ≠ qualified_name v → x ∈ t.1 ↔ x ∈ rows).
Proof.
  intros Ht t. unfold t. destruct (decide (qualified_name v ∈ names rows)) as [Hin|Hin].
  - rewrite upsert_row_old by done. cbn. pose proof Hin as (r & Hr & Hq)%elem_of_names.
    exists (overwrite v r). split; [by apply list_elem_of_fmap_2|]. split.
    { unfold overwrite. by rewrite bool_decide_eq_true_2. }
    rewrite ids_overwrite, overwrite_id. split.
    + intros i. split; [by right|]. intros [->|?]; [|done]. by apply list_elem_of_fmap_2.
    + intros x Hx. rewrite list_elem_of_fmap. split.
      * intros (y & -> & Hy). rewrite overwrite_name in Hx. unfold overwrite.
        by rewrite bool_decide_eq_false_2.
      * intros Hy. exists x. unfold overwrite. by rewrite bool_decide_eq_false_2.
  - rewrite upsert_row_new by done. cbn. exists (mkNodeRow (seq + 1) v None None).
    split; [apply elem_of_app; right; by apply list_elem_of_singleton|split; [done|split]].
    + intros i. unfold ids. rewrite fmap_app, elem_of_app. cbn. rewrite list_elem_of_singleton. tauto.
    + intros x Hx. rewrite elem_of_app, list_elem_of_singleton. split; [|by left].
      intros [?| ->]; [done|]. done.
Qed.

Lemma name_unique (rows : list NodeRow) r1 r2 :
  NoDup (names rows) → r1 ∈ rows → r2 ∈ rows →
  qualified_name (vals r1) = qualified_name (vals r2) → r1 = r2.
Proof.
  intros Hn [i Hi]%list_elem_of_lookup_1 [j Hj]%list_elem_of_lookup_1 Heq.
  assert (i = j) as ->; [|by simplify_eq].
  apply (NoDup_lookup (names rows) i j (qualified_name (vals r1))); [done| |]; unfold names;
    rewrite list_lookup_fmap; [by rewrite Hi|rewrite Heq; by rewrite Hj].
Qed.

Lemma upsert_node_spec now stamp n hash mtime s :
  store_ok s → has_colon (ni_file_path n) = false →
  match upsert_node now stamp n hash mtime s with
  | (s', inl i) => store_ok s' ∧ edges s' = edges s ∧ ∃ v r, upsert_node_vals now n hash mtime = inl v ∧
      r ∈ nodes s' ∧ node_id r = i ∧ vals r = v ∧
      (∀ x, qualified_name (vals x) ≠ qualified_name v → x ∈ nodes s' ↔ x ∈ nodes s)
  | (s', inr e) => s' = s ∧ e = JsonError
  end.
Proof.
  intros Hs Hcol. unfold upsert_node.
  destruct (upsert_node_vals now n hash mtime) as [v|e] eqn:Hv; cbn [mbind result_bind rbind].
  2:{ split; [done|]. unfold upsert_node_vals in Hv. destruct (is_null _); [done|].
      unfold json in Hv. destruct (to_string _); cbn in Hv; congruence. }
  assert (Hb : belongs v).
  { unfold upsert_node_vals in Hv. destruct (if is_null (ni_extra n) then _ else _) as [x|]; cbn in Hv; [|done].
    injection Hv as <-. by eapply (make_qualified_belongs _ _ (ni_file_path n)). }
  pose proof (ok_nodes _ Hs) as Ht. pose proof (upsert_row_ok _ v Ht) as Ht'.
  destruct (upsert_row_result _ _ v Ht) as (r & Hr & Hvr & Hids & Hother).
  rewrite insert_node_rows_eq. cbn [foldl].
  set (t := upsert_row (nodes s, node_seq s) v) in *. set (s1 := with_tables (t, (edges s, edge_seq s)) s).
  change (nodes s1) with t.1. rewrite (id_of_spec _ t.1 r); [|apply Ht'|done|by rewrite Hvr].
  cbn [default from_option id]. unfold upsert_fts_for_node_ids. cbv zeta.
  change (default 0%Z (Some (node_id r))) with (node_id r).
  change (chunks 450 [node_id r]) with [[node_id r]]. cbn [try_fold].
  change (nodes s1) with t.1. rewrite filter_one by (try apply Ht'; done).
  rewrite by_file_path_one. cbn [try_fold].
  destruct (insert_row_cases (get_metadata "repo_root" s) (delete (node_id r) (default ∅ (fts s1))) r)
    as [-> | [-> _]]; [by rewrite lookup_delete_eq| |done].
  cbn [mbind result_bind rbind]. split; [|split; [done|]].
  2:{ exists v, r. split; [done|split; [done|split; [done|split; [done|]]]]. exact Hother. }
  apply watermark_ok. split; cbn.
  - change (table_ok (t.1, t.2)). rewrite <-surjective_pairing. exact Ht'.
  - apply Forall_forall. intros x Hx. pose proof (ok_paths _ Hs) as Hp. rewrite Forall_forall in Hp.
    destruct (decide (qualified_name (vals x) = qualified_name v)) as [Heq|Hne].
    + assert (x = r) as ->; [|by rewrite Hvr]. destruct Ht' as (_ & _ & Hn & _).
      apply (name_unique t.1); [done..|]. by rewrite Hvr.
    + apply Hp. by apply Hother.
  - exact (ok_edges _ Hs).
  - intros i. change (is_Some (<[node_id r := fts_values (get_metadata "repo_root" s) r]>
      (delete (node_id r) (default ∅ (fts s1))) !! i) ↔ i ∈ ids t.1).
    rewrite Hids. destruct (decide (i = node_id r)) as [->|Hne].
    + rewrite lookup_insert_eq. split; [by left|by eexists].
    + rewrite lookup_insert_ne, lookup_delete_ne by done. change (fts s1) with (fts s).
      rewrite (ok_fts _ Hs). naive_solver.
  - eapply Forall_impl; [exact (ok_flows _ Hs)|]. intros x Hx. apply Hids. by right.
  - eapply Forall_impl; [exact (ok_risk _ Hs)|]. intros x Hx. apply Hids. by right.
  - exact (ok_indexes _ Hs).
Qed.

Lemma upsert_edge_row_spec v s :
  store_ok s →
  let '(s', i) := upsert_edge_row v s in
  store_ok s' ∧ nodes s' = nodes s ∧ fts s' = fts s ∧
  (∃ e, e ∈ edges s' ∧ edge_id e = i ∧ e_vals e = v) ∧
  (∀ e, e ∈ edges s' → key_of (e_vals e) = key_of v → e_vals e = v) ∧
  (∀ e, key_of (e_vals e) ≠ key_of v → e ∈ edges s' ↔ e ∈ edges s).
Proof.
  intros Hs. unfold upsert_edge_row.
  destruct (list_find _ (edges s)) as [[j x]|] eqn:Ef.
  - apply list_find_Some in Ef as (Hj & Hk & _).
    set (f := λ e, if bool_decide (key_of (e_vals e) = key_of v) then mkEdgeRow (edge_id e) v else e).
    assert (Hid : edge_id <$> (f <$> edges s) = edge_id <$> edges s).
    { rewrite <-list_fmap_compose. apply list_fmap_ext. intros _ e _. cbn. unfold f. by case_if. }
    assert (Hok : store_ok (set_edges (f <$> edges s) (edge_seq s) s)).
    { destruct Hs as [H1 H2 [H3 H4] H5 H6 H7 H8]. split; cbn; try done. rewrite Hid. split; [done|].
      rewrite Forall_fmap. eapply Forall_impl; [exact H4|]. intros e He. cbn in *. unfold f. by case_if. }
    split; [done|split; [done|split; [done|split; [|split]]]]; cbn.
    + exists (f x). split; [apply list_elem_of_fmap_2; by eapply list_elem_of_lookup_2|].
      unfold f. by rewrite bool_decide_eq_true_2.
    + intros e (y & -> & Hy)%list_elem_of_fmap. unfold f. case_if; [done|]. congruence.
    + intros e He. rewrite list_elem_of_fmap. split.
      * intros (y & -> & Hy). unfold f in *. destruct (bool_decide _) eqn:Ek; [done|done].
      * intros Hy. exists e. unfold f. by rewrite bool_decide_eq_false_2.
  - apply list_find_None in Ef. rewrite insert_edge_rows_eq. cbn [foldl insert_row].
    destruct Hs as [H1 H2 [H3 H4] H5 H6 H7 H8].
    split; [|split; [done|split; [done|split; [|split]]]].
    + split; cbn; try done. rewrite fmap_app. cbn. rewrite Forall_forall in H4. split.
      * apply NoDup_app. split; [done|split; [|apply NoDup_singleton]].
        intros i (e & -> & He)%list_elem_of_fmap. rewrite list_elem_of_singleton.
        specialize (H4 e He). cbn in H4. lia.
      * apply Forall_app. split; [|apply Forall_singleton; cbn; lia].
        apply Forall_forall. intros e He. specialize (H4 e He). cbn in *. lia.
    + cbn. eexists. split; [apply elem_of_app; right; by apply list_elem_of_singleton|done].
    + cbn. intros e [He| ->%list_elem_of_singleton]%elem_of_app Hk; [|done].
      rewrite Forall_forall in Ef. by destruct (Ef e He).
    + cbn. intros e He. rewrite elem_of_app, list_elem_of_singleton. split; [|by left].
      intros [?| ->]; [done|]. done.
Qed.

Lemma rebuild_ok now root s :
  store_ok s →
  match rebuild_fts_index now root s with
  | inl s' => store_ok s' ∧ edges s' = edges s ∧ nodes s' = nodes s ∧
      ∀ r, r ∈ nodes s → default ∅ (fts s') !! node_id r = Some (fts_values root r)
  | inr e => e = JsonError
  end.
Proof.
  intros Hs. unfold rebuild_fts_index.
  assert (Hperm := by_file_path_Permutation (nodes s)).
  pose proof (insert_rows_spec root ∅ (by_file_path (nodes s))) as Hins.
  destruct (try_fold _ ∅ _) as [m|e]; cbn [mbind result_bind rbind].
  2:{ apply Hins; [|by intros; apply lookup_empty]. unfold ids. rewrite Hperm. apply (ok_nodes _ Hs). }
  destruct Hins as [H1 H2]; [|intros; apply lookup_empty|].
  { unfold ids. rewrite Hperm. apply (ok_nodes _ Hs). }
  assert (Hrow : ∀ r, r ∈ nodes s → m !! node_id r = Some (fts_values root r)).
  { intros r Hr. apply H1. by rewrite Hperm. }
  split; [|split; [done|split; [done|done]]]. apply watermark_ok.
  destruct Hs as [? ? ? ? ? ? ?]. split; try done. intros i. cbn. split.
  - intros Hi. destruct (decide (i ∈ ids (by_file_path (nodes s)))) as [Hin|Hn].
    + unfold ids in *. by rewrite Hperm in Hin.
    + rewrite H2, lookup_empty in Hi by done. by destruct Hi.
  - unfold ids. intros (r & -> & Hr)%list_elem_of_fmap. rewrite Hrow by done. by eexists.
Qed.

End store.
End Store.
