(* ===== verification/Risk.v ===== *)
(** * The risk table

    Models crates/dagayn-graph/src/summary_risk.rs, the tokens and the security
    keywords of lib.rs it asks, and the pruning of maintenance.rs: one row for
    each function, class and test, with the score of its callers, tests and
    name.  The clock is a parameter. *)
From Stdlib Require Import Floats.SpecFloat.
From S2P Require Import Prelude GraphData Store.
Import GraphData Store.

Module Risk.

(** ** Words of a name *)

(** Source: crates/dagayn-graph/src/lib.rs 56-78 [SECURITY_KEYWORD_EXCLUDED_TOKENS]. *)
Definition SECURITY_KEYWORD_EXCLUDED_TOKENS : list text :=
  chars <$> ["hashmap"; "hashmaps"; "hashset"; "hashsets"; "hashtable"; "hashtables"; "signal"; "signals"; "signaled";
    "signaling"; "signalled"; "signalling"; "significant"; "significance"; "significantly"; "signify"; "author"; "authors";
    "authored"; "authoring"; "authorship"].

(** The characters of a kind that lead a text, and the rest. *)
Fixpoint run_of (p : char → bool) (l : text) : text * text :=
  match l with
  | c :: r => if p c then let '(run, rest) := run_of p r in (c :: run, rest) else ([], l)
  | [] => ([], [])
  end.

(** Source: crates/dagayn-graph/src/lib.rs 91-96 [identifier_tokens]. *)
Definition collect (l : text) : text := to_ascii_lowercase <$> l.

(** On the bytes of a name: those of a character beyond ASCII are no more
    alphanumeric than it is.  Each round takes one at least.

    Source: crates/dagayn-graph/src/lib.rs 97-138 [identifier_tokens]. *)
Fixpoint tokens_from (fuel : nat) (l : text) : list text :=
  match fuel, l with
  | S fuel, c :: rest =>
      if is_ascii_digit c then let '(run, rest) := run_of is_ascii_digit l in collect run :: tokens_from fuel rest
      else if is_ascii_lowercase c then let '(run, rest) := run_of is_ascii_lowercase l in collect run :: tokens_from fuel rest
      else if is_ascii_uppercase c then
        let '(upper, rest) := run_of is_ascii_uppercase l in
        if match rest with d :: _ => is_ascii_lowercase d | [] => false end then
          let word_start := length upper - 1 in
          let '(lower, rest) := run_of is_ascii_lowercase rest in
          (if 0 <? word_start then [collect (take word_start upper)] else [])
            ++ collect (drop word_start upper ++ lower) :: tokens_from fuel rest
        else collect upper :: tokens_from fuel rest
      else tokens_from fuel rest
  | _, _ => []
  end.

(** Source: crates/dagayn-graph/src/lib.rs 86-139 [identifier_tokens]. *)
Definition identifier_tokens (l : text) : list text := tokens_from (length l) l.

(** Source: crates/dagayn-graph/src/lib.rs 148-165 [identifier_matches_keywords]. *)
Definition identifier_matches_keywords (texts keywords : list text) : bool :=
  existsb (λ l,
    let tokens := identifier_tokens l in
    existsb (λ '(index, token),
      if bool_decide (token ∈ SECURITY_KEYWORD_EXCLUDED_TOKENS) then false
      else if match tokens !! S index with
              | Some next => bool_decide (token ++ next ∈ SECURITY_KEYWORD_EXCLUDED_TOKENS)
              | None => false
              end then false
      else existsb (λ keyword, bool_decide (keyword `prefix_of` token)) keywords)
      (imap pair tokens)) texts.

(** ** The score *)

Definition three_tenths : f64 := S754_finite false 5404319552844595 (-54).
Definition three_twentieths : f64 := S754_finite false 5404319552844595 (-55).
Definition two_fifths : f64 := S754_finite false 7205759403792794 (-54).

Definition f64_plus (x y : f64) : f64 := SFadd 53 1024 x y.

(** Source: crates/dagayn-graph/src/summary_risk.rs 44-59 [compute_risk_index]. *)
Definition security_keywords : list text :=
  chars <$> ["auth"; "login"; "password"; "token"; "session"; "crypt"; "secret"; "credential"; "permission"; "sql"; "execute";
    "encrypt"; "decrypt"].

(** Source: crates/dagayn-graph/src/summary_risk.rs 71-86 [compute_risk_index]. *)
Definition score (caller_count : Z) (untested security_relevant : bool) : f64 :=
  let risk := S754_zero false in
  let risk := if (caller_count >? 10)%Z then f64_plus risk three_tenths
              else if (caller_count >? 3)%Z then f64_plus risk three_twentieths else risk in
  let risk := if untested then f64_plus risk three_tenths else risk in
  let risk := if security_relevant then f64_plus risk two_fifths else risk in
  f64_min risk one.

(** ** The table *)

Section table.
Context `{Json} {F : Type}.
#[local] Notation Graph := (GraphStore (F := F)).

(** [GROUP BY] with [COUNT]: the edges of a kind, counted by an endpoint.

    Source: crates/dagayn-graph/src/summary_risk.rs 9-33 [compute_risk_index]. *)
Definition counts (kind : string) (key : EdgeVals → string) (l : list EdgeRow) : gmap string Z :=
  foldl (λ m e, <[key (e_vals e) := (default 0 (m !! key (e_vals e)) + 1)%Z]> m) ∅ (filter (λ e, e_kind (e_vals e) = kind) l).

(** Source: crates/dagayn-graph/src/summary_risk.rs 67-90 [compute_risk_index]. *)
Definition risk_row (now : string) (callers tested : gmap string Z) (r : NodeRow) : RiskRow :=
  let qualified := qualified_name (vals r) in
  let caller_count := default 0%Z (callers !! qualified) in
  let coverage := if (default 0 (tested !! qualified) >? 0)%Z then "tested" else "untested" in
  let security_relevant := identifier_matches_keywords [chars (name (vals r))] security_keywords in
  mkRiskRow (node_id r) qualified (score caller_count (bool_decide (coverage = "untested")) security_relevant)
    caller_count coverage security_relevant now.

(** [INSERT OR REPLACE] by the node's id.

    Source: crates/dagayn-graph/src/summary_risk.rs 60-65 [compute_risk_index]. *)
Definition put_risk (l : list RiskRow) (row : RiskRow) : list RiskRow :=
  filter (λ r, risk_node r ≠ risk_node row) l ++ [row].

(** Source: crates/dagayn-graph/src/summary_risk.rs 36-39 [compute_risk_index]. *)
Definition risk_kinds : list string := ["Function"; "Class"; "Test"].

(** Source: crates/dagayn-graph/src/summary_risk.rs 5-95 [compute_risk_index]. *)
Definition compute_risk_index (now : string) (s : Graph) : Graph :=
  let callers := counts "CALLS" target_qualified (edges s) in
  let tested := counts "TESTED_BY" source_qualified (edges s) in
  let risk_nodes := filter (λ r, kind (vals r) ∈ risk_kinds) (nodes s) in
  set_keyed (flow_memberships s) (foldl put_risk [] (risk_row now callers tested <$> risk_nodes)) s.

(** The one pruning step: risk rows whose node is gone.

    Source: crates/dagayn-graph/src/maintenance.rs 11-30 [prune_orphan_table]. *)
Definition prune_risk_index (s : Graph) : Graph :=
  set_keyed (flow_memberships s) (filter (λ r, risk_node r ∈ node_id <$> nodes s) (risk_index s)) s.

(** ** Properties *)

Lemma counts_lookup kd key l q :
  default 0%Z (counts kd key l !! q) = Z.of_nat (length (filter (λ e, e_kind (e_vals e) = kd ∧ key (e_vals e) = q) l)).
Proof.
  unfold counts. induction l as [|e l IH] using rev_ind; [done|].
  rewrite !filter_app, foldl_app, length_app, Nat2Z.inj_add, <-IH. cbn [filter list_filter].
  destruct (decide (e_kind (e_vals e) = kd)) as [Hk|Hk]; cbn [foldl].
  - destruct (decide (key (e_vals e) = q)) as [<-|Hq].
    + rewrite lookup_insert_eq, decide_True by done. done.
    + rewrite lookup_insert_ne, decide_False by naive_solver. cbn. lia.
  - rewrite decide_False by naive_solver. cbn. lia.
Qed.

Lemma risk_row_eq now es r :
  let q := qualified_name (vals r) in
  let security := identifier_matches_keywords [chars (name (vals r))] security_keywords in
  let callers := Z.of_nat (length (filter (λ e, e_kind (e_vals e) = "CALLS" ∧ target_qualified (e_vals e) = q) es)) in
  let tests := length (filter (λ e, e_kind (e_vals e) = "TESTED_BY" ∧ source_qualified (e_vals e) = q) es) in
  risk_row now (counts "CALLS" target_qualified es) (counts "TESTED_BY" source_qualified es) r =
    mkRiskRow (node_id r) q (score callers (bool_decide (tests = 0)) security) callers
      (if bool_decide (tests = 0) then "untested" else "tested") security now.
Proof.
  cbv zeta. unfold risk_row. rewrite !counts_lookup.
  destruct (length (filter (λ e, e_kind (e_vals e) = "TESTED_BY" ∧ _) es)); done.
Qed.

Lemma put_rows l rows :
  NoDup (risk_node <$> rows) → (∀ x y, x ∈ l → y ∈ rows → risk_node x ≠ risk_node y) →
  foldl put_risk l rows = l ++ rows.
Proof.
  revert l. induction rows as [|row rows IH]; intros l Hnd Hd; [by rewrite app_nil_r|].
  rewrite fmap_cons in Hnd. apply NoDup_cons in Hnd as [Hn Hnd]. cbn [foldl]. unfold put_risk at 2.
  rewrite filter_true by (intros x Hx; apply Hd; [done|left]).
  rewrite IH; [by rewrite <-app_assoc|done|].
  intros x y [Hx|Hx%list_elem_of_singleton]%elem_of_app Hy; [apply Hd; [done|by right]|].
  subst x. intros Heq. apply Hn. rewrite Heq. by apply list_elem_of_fmap_2.
Qed.

(** The rows computed: one for each function, class and test, in the order of
    the nodes. *)
Lemma risk_rows now (s : Graph) :
  store_ok s →
  risk_index (compute_risk_index now s) =
    risk_row now (counts "CALLS" target_qualified (edges s)) (counts "TESTED_BY" source_qualified (edges s))
      <$> filter (λ r, kind (vals r) ∈ risk_kinds) (nodes s).
Proof.
  intros Hs. unfold compute_risk_index. cbn [risk_index set_keyed]. rewrite put_rows; [done| |by intros x y ?%not_elem_of_nil].
  rewrite <-list_fmap_compose. destruct (ok_nodes _ Hs) as (Hnd & _).
  eapply sublist_NoDup; [exact Hnd|]. apply (fmap_sublist node_id), sublist_filter.
Qed.

Lemma compute_ok now (s : Graph) : store_ok s → store_ok (compute_risk_index now s).
Proof.
  intros Hs. pose proof (risk_rows now s Hs) as Hr. destruct Hs as [H1 H2 H3 H4 H5 _ H7]. split; try done.
  rewrite Hr. apply Forall_fmap, Forall_forall. intros r [_ Hin]%list_elem_of_filter. exact (list_elem_of_fmap_2 node_id _ _ Hin).
Qed.

Lemma prune_ok (s : Graph) : store_ok s → store_ok (prune_risk_index s) ∧ prune_risk_index s = s.
Proof.
  intros Hs. assert (Heq : prune_risk_index s = s).
  { unfold prune_risk_index. rewrite filter_true; [by destruct s|].
    intros x Hx. pose proof (ok_risk _ Hs) as Hr. rewrite Forall_forall in Hr. by apply Hr. }
  by rewrite Heq.
Qed.

(** The score of a function with more than ten callers, no test and a security
    word is the largest there is, and it is not beyond 1. *)
Lemma score_bounds c u k : f64_le (S754_zero false) (score c u k) ∧ f64_le (score c u k) (score 11 true true) ∧ f64_le (score 11 true true) one.
Proof.
  unfold score. destruct (c >? 10)%Z; [|destruct (c >? 3)%Z]; destruct u, k; vm_compute; tauto.
Qed.

(** The risk table follows the graph: after a computation it has exactly one row
    for each function, class and test, with its callers and tests counted over
    the edges and the score of those and its name, and no other row; nodes and
    edges stay, and there is nothing to prune. *)
Theorem compute_risk_index_spec now (s : Graph) :
  store_ok s →
  let s' := compute_risk_index now s in
  store_ok s' ∧ nodes s' = nodes s ∧ edges s' = edges s ∧ prune_risk_index s' = s' ∧
  NoDup (risk_node <$> risk_index s') ∧
  ∀ row, row ∈ risk_index s' ↔ ∃ r, r ∈ nodes s ∧ kind (vals r) ∈ risk_kinds ∧
    let q := qualified_name (vals r) in
    let security := identifier_matches_keywords [chars (name (vals r))] security_keywords in
    let callers := Z.of_nat (length (filter (λ e, e_kind (e_vals e) = "CALLS" ∧ target_qualified (e_vals e) = q) (edges s))) in
    let tests := length (filter (λ e, e_kind (e_vals e) = "TESTED_BY" ∧ source_qualified (e_vals e) = q) (edges s)) in
    row = mkRiskRow (node_id r) q (score callers (bool_decide (tests = 0)) security) callers
      (if bool_decide (tests = 0) then "untested" else "tested") security now.
Proof.
  intros Hs s'. pose proof (compute_ok now s Hs) as Hok. split; [done|]. split; [done|]. split; [done|].
  split; [by apply prune_ok|]. unfold s'. rewrite (risk_rows now s Hs). split.
  - rewrite <-list_fmap_compose. destruct (ok_nodes _ Hs) as (Hnd & _).
    eapply sublist_NoDup; [exact Hnd|]. apply (fmap_sublist node_id), sublist_filter.
  - intros row. rewrite list_elem_of_fmap. split; intros (r & H1 & H2); exists r.
    + apply list_elem_of_filter in H2 as [H2 H3]. split; [done|]. split; [done|]. by rewrite H1, risk_row_eq.
    + destruct H2 as [H2 H3]. rewrite risk_row_eq. split; [done|]. by apply list_elem_of_filter.
Qed.

End table.

Example tokens_demo :
  identifier_tokens <$> (chars <$> ["HTTPServer"; "sha256Hash"; "_get_URL"; "aB9"]) =
  [chars <$> ["http"; "server"]; chars <$> ["sha"; "256"; "hash"]; chars <$> ["get"; "url"]; chars <$> ["a"; "b"; "9"]].
Proof. by vm_compute. Qed.

End Risk.
