(* ===== verification/StoreSpec.v ===== *)
(** * What the graph store promises

    The contract of the operations of Store.v: what a file batch leaves behind,
    the invariant of every reachable store, what a removal takes, and that a
    batch that arrives as JSON does what the same batch does directly. *)
From S2P Require Import Prelude GraphData Store Risk.
Import GraphData Store.

Module StoreSpec.

Section spec.
Context `{Json} {F : Type} (fts_values : option string → NodeRow → F).

(** A batch names each file once, and the nodes of a file carry its path. *)
Definition batch_ok (batch : list (FileBatchItem NodeInput EdgeInput)) : Prop :=
  NoDup (item_path _ _ <$> batch) ∧
  ∀ item n, item ∈ batch → n ∈ item_nodes _ _ item →
    ni_file_path n = item_path _ _ item ∧ has_colon (ni_file_path n) = false.

Definition raw_batch_ok (batch : list (FileBatchItem RawCompactNodeInput RawCompactEdgeInput)) : Prop :=
  NoDup (item_path _ _ <$> batch) ∧
  ∀ item n, item ∈ batch → n ∈ item_nodes _ _ item →
    rn_file_path n = item_path _ _ item ∧ has_colon (rn_file_path n) = false.

(** An edge with an endpoint the resolver left open never claims to be extracted
    from the source, and every edge carries its target's bare name. *)
Definition edge_ok (v : EdgeVals) : Prop :=
  target_name v = edge_target_name (target_qualified v) ∧
  (unresolved (source_qualified v) || unresolved (target_qualified v) = true →
   confidence_tier v ≠ "EXTRACTED" ∧ confidence_tier v ≠ "UNKNOWN").

(** One write through the store's interface: batches, removals, upserts, bulk
    loads, index rebuilds, metadata, and the risk table computed and pruned.  The
    table of flow memberships has no writer left: only removals touch the rows a
    database of an earlier version brings along.  The clock's readings are given;
    a batch or node that breaks the callers' path convention is not a step. *)
Inductive write : GraphStore (F := F) → GraphStore (F := F) → Prop :=
  | write_batch now stamp batch s : batch_ok batch →
      write s (store_file_batch fts_values now stamp batch s).1
  | write_batch_json now stamp compact s :
      (∀ batch, compact = Some batch → raw_batch_ok batch) →
      write s (store_file_batch_json fts_values now stamp compact s).1
  | write_remove_files stamp files s : write s (remove_files_data stamp files s)
  | write_remove_file stamp file s : write s (remove_file_data stamp file s)
  | write_node now stamp n hash mtime s : has_colon (ni_file_path n) = false →
      write s (upsert_node fts_values now stamp n hash mtime s).1
  | write_edge now e s : write s (upsert_edge now e s).1
  | write_begin s : write s (begin_bulk_load s)
  | write_finish stamp s : write s (finish_bulk_load stamp s)
  | write_rebuild stamp root s s' : rebuild_fts_index fts_values stamp root s = inl s' → write s s'
  | write_metadata k v s : write s (set_metadata k v s)
  | write_risk now s : write s (Risk.compute_risk_index now s)
  | write_prune s : write s (Risk.prune_risk_index s).

(** A new database: empty tables and an empty index, or none yet. *)
Definition new_store (index : bool) : GraphStore (F := F) :=
  mkStore [] 0 [] 0 [] [] (if index then Some ∅ else None) ∅ true false.

(** ** The rows of a batch *)

Lemma extra_json_error v e : extra_json v = inr e → e = JsonError.
Proof. unfold extra_json, json. destruct (_ || _); [done|]. destruct (to_string v); by intros [= <-]. Qed.

Lemma node_vals_error now h m n e : node_vals now h m n = inr e → e = JsonError.
Proof.
  unfold node_vals. destruct (extra_json _) eqn:E; cbn; [done|]. intros [= <-].
  by eapply extra_json_error.
Qed.

Lemma raw_node_vals_error now h m n e : raw_node_vals now h m n = inr e → e = JsonError.
Proof. done. Qed.

Lemma edge_vals_error now x e : edge_vals now x = inr e → e = JsonError.
Proof.
  unfold edge_vals. destruct (extra_json _) eqn:E; cbn; [done|]. intros [= <-].
  by eapply extra_json_error.
Qed.

Lemma raw_edge_vals_error now x e : raw_edge_vals now x = inr e → e = JsonError.
Proof.
  unfold raw_edge_vals, edge_metadata_from_raw_extra, json. case_bool_decide; cbn; [done|].
  destruct (from_str _); cbn; [done|]. by intros [= <-].
Qed.

Lemma batch_paths now batch : batch_ok batch → batch_paths_ok (node_vals now) batch.
Proof.
  intros [Hnd Hp]. split; [done|]. intros item rows v Hitem Hrows Hv.
  destruct (try_map_elem _ _ _ _ Hrows Hv) as (n & Hn & Hrow).
  destruct (Hp item n Hitem Hn) as [Hpath Hcol]. unfold node_vals in Hrow.
  destruct (extra_json _); cbn in Hrow; [|done]. injection Hrow as <-. cbn. split; [done|].
  by eapply (make_qualified_belongs _ _ (ni_file_path n)).
Qed.

Lemma raw_batch_paths now batch : raw_batch_ok batch → batch_paths_ok (raw_node_vals now) batch.
Proof.
  intros [Hnd Hp]. split; [done|]. intros item rows v Hitem Hrows Hv.
  destruct (try_map_elem _ _ _ _ Hrows Hv) as (n & Hn & Hrow).
  destruct (Hp item n Hitem Hn) as [Hpath Hcol]. injection Hrow as <-. cbn. split; [done|].
  by eapply (make_qualified_belongs _ _ (rn_file_path n)).
Qed.

Lemma ok_inj {A} (a b : A) : (inl a : Result A) = inl b → a = b.
Proof. congruence. Qed.

Lemma edge_row_ok now key extra meta : edge_ok (edge_row now key extra meta).
Proof.
  destruct key as [[[[k s] t] p] l]. unfold edge_row, normalize_edge_confidence.
  destruct (unresolved s || unresolved t) eqn:Eu; cbn.
  - by destruct meta as [c []]; cbn.
  - split; [done|]. intros Hu. change (unresolved s || unresolved t = true) in Hu. congruence.
Qed.

Lemma edge_vals_ok now x v : edge_vals now x = inl v → edge_ok v.
Proof.
  unfold edge_vals. destruct (extra_json _); cbn [mbind result_bind rbind]; [|done].
  intros <-%ok_inj. apply edge_row_ok.
Qed.

Lemma raw_edge_vals_ok now x v : raw_edge_vals now x = inl v → edge_ok v.
Proof.
  unfold raw_edge_vals. destruct (edge_metadata_from_raw_extra _); cbn [mbind result_bind rbind]; [|done].
  intros <-%ok_inj. apply edge_row_ok.
Qed.

(** ** The theorems *)

Definition edges_ok (s : GraphStore (F := F)) : Prop := Forall (λ e, edge_ok (e_vals e)) (edges s).

Lemma batch_edges_ok {N E} node_row key row_of batch (s s' : GraphStore (F := F)) rows es :
  (∀ x v, row_of x = inl v → edge_ok v) → edges_ok s →
  try_map (item_rows node_row) batch = inl rows →
  @batch_edges N E key row_of batch = inl es →
  batch_stored s s' (item_path _ _ <$> batch) (concat rows) es → edges_ok s'.
Proof.
  intros Hrow Hs _ Hes Hst. destruct (bs_edges _ _ _ _ _ Hst) as (news & Heq & Hvals & _).
  unfold edges_ok. rewrite Heq. apply Forall_app. split; [by apply Forall_filter|].
  apply Forall_forall. intros e He.
  assert (Hin : e_vals e ∈ es) by (rewrite <-Hvals; by apply list_elem_of_fmap_2).
  destruct (try_map_elem _ _ _ _ Hes Hin) as (x & _ & Hx). by eapply Hrow.
Qed.

Lemma store_file_batch_run now stamp batch (s : GraphStore (F := F)) :
  store_ok s → batch_ok batch →
  let '(s', r) := store_file_batch fts_values now stamp batch s in
  match r with
  | inl _ => ∃ rows es,
      try_map (item_rows (node_vals now)) batch = inl rows ∧
      batch_edges edge_key (edge_vals now) batch = inl es ∧ store_ok s' ∧
      batch_stored s s' (item_path _ _ <$> batch) (concat rows) es ∧ bulk s' = bulk s ∧
      (bulk s = false → metadata s' !! "fts_indexed_node_count" = Some (decimal (fts_count s')))
  | inr e => s' = s ∧ e = JsonError
  end.
Proof.
  intros Hs Hb. unfold store_file_batch, transact.
  pose proof (store_batch_spec fts_values (node_vals now) edge_key (edge_vals now)
    (node_vals_error now) (edge_vals_error now) stamp batch s Hs (batch_paths now batch Hb)) as Hspec.
  unfold store_file_batch_tx. destruct (store_batch _ _ _ _ _ _ _) as [s'|e]; [done|].
  by split; [|apply Hspec].
Qed.

Lemma store_file_batch_json_run now stamp batch (s : GraphStore (F := F)) :
  store_ok s → raw_batch_ok batch →
  let '(s', r) := store_file_batch_json fts_values now stamp (Some batch) s in
  match r with
  | inl _ => ∃ rows es,
      try_map (item_rows (raw_node_vals now)) batch = inl rows ∧
      batch_edges raw_edge_key (raw_edge_vals now) batch = inl es ∧ store_ok s' ∧
      batch_stored s s' (item_path _ _ <$> batch) (concat rows) es
  | inr e => s' = s ∧ e = JsonError
  end.
Proof.
  intros Hs Hb. unfold store_file_batch_json, transact. cbn.
  pose proof (store_batch_spec fts_values (raw_node_vals now) raw_edge_key (raw_edge_vals now)
    (raw_node_vals_error now) (raw_edge_vals_error now) stamp batch s Hs (raw_batch_paths now batch Hb)) as Hspec.
  unfold store_raw_compact_file_batch_tx. destruct (store_batch _ _ _ _ _ _ _) as [s'|e].
  - destruct Hspec as (rows & es & ? & ? & ? & ? & _). by exists rows, es.
  - by split; [|apply Hspec].
Qed.

Lemma removed_edges_ok files (s : GraphStore (F := F)) : edges_ok s → edges_ok (removed files s).
Proof. apply Forall_filter. Qed.

Lemma write_step_ok (s s' : GraphStore (F := F)) :
  write s s' → store_ok s ∧ edges_ok s → store_ok s' ∧ edges_ok s'.
Proof.
  intros Hw [Hs He]. destruct Hw as [now stamp batch s Hb|now stamp [batch|] s Hb|stamp files s|stamp file s
    |now stamp n hash mtime s Hc|now e s|s|stamp s|stamp root s s' Hr|k v s|now s|s].
  - pose proof (store_file_batch_run now stamp batch s Hs Hb) as Hrun.
    destruct (store_file_batch _ _ _ _ _) as [s' [[]|e]]; cbn; [|by destruct Hrun as [-> _]].
    destruct Hrun as (rows & es & Hrows & Hes & Hok & Hst & _). split; [done|].
    eapply batch_edges_ok; [apply edge_vals_ok|done|exact Hrows|exact Hes|exact Hst].
  - pose proof (store_file_batch_json_run now stamp batch s Hs (Hb _ eq_refl)) as Hrun.
    destruct (store_file_batch_json _ _ _ _ _) as [s' [[]|e]]; cbn; [|by destruct Hrun as [-> _]].
    destruct Hrun as (rows & es & Hrows & Hes & Hok & Hst). split; [done|].
    eapply batch_edges_ok; [apply raw_edge_vals_ok|done|exact Hrows|exact Hes|exact Hst].
  - done.
  - rewrite remove_files_data_eq. split; [by apply watermark_ok, removed_ok|by apply removed_edges_ok].
  - rewrite remove_file_data_eq, remove_files_data_eq.
    split; [by apply watermark_ok, removed_ok|by apply removed_edges_ok].
  - pose proof (upsert_node_spec fts_values now stamp n hash mtime s Hs Hc) as Hrun.
    destruct (upsert_node _ _ _ _ _ _) as [s' [i|e]]; cbn; [|by destruct Hrun as [-> _]].
    destruct Hrun as (Hok & Heq & _). split; [done|]. unfold edges_ok. by rewrite Heq.
  - unfold upsert_edge. case_match eqn:E; [|done]. rename e0 into v.
    pose proof (upsert_edge_row_spec v s Hs) as Hrun. destruct (upsert_edge_row v s) as [s' i]. cbn.
    destruct Hrun as (Hok & _ & _ & _ & Hsame & Hother). split; [done|].
    apply Forall_forall. intros x Hx. destruct (decide (key_of (e_vals x) = key_of v)) as [Hk|Hk].
    + rewrite (Hsame _ Hx Hk). revert E. destruct (if is_null _ then _ else _) as [extra|]; cbn [mbind result_bind rbind]; [|done].
      destruct (edge_metadata_from_raw_extra extra) as [m|]; cbn [mbind result_bind rbind]; [|done]. intros <-%ok_inj. apply edge_row_ok.
    + unfold edges_ok in He. rewrite Forall_forall in He. apply He. by apply Hother.
  - unfold begin_bulk_load. case_match; [done|]. split; [|done]. destruct Hs. by split.
  - unfold finish_bulk_load. case_match; [done|]. split; [|done].
    destruct Hs. by split.
  - pose proof (rebuild_ok fts_values stamp root s Hs) as Hrun. rewrite Hr in Hrun.
    destruct Hrun as (Hok & Heq & _). split; [done|]. unfold edges_ok. by rewrite Heq.
  - split; [|done]. destruct Hs. by split.
  - split; [by apply Risk.compute_ok|done].
  - by rewrite (proj2 (Risk.prune_ok s Hs)).
Qed.

Lemma writes_ok (s s' : GraphStore (F := F)) :
  rtc write s s' → store_ok s ∧ edges_ok s → store_ok s' ∧ edges_ok s'.
Proof. intros Hr. induction Hr as [s|s1 s2 s3 Hw _ IH]; [done|]. intros Hs. apply IH. by eapply write_step_ok. Qed.

Lemma new_store_ok index : store_ok (new_store index) ∧ edges_ok (new_store index).
Proof.
  split; [|by apply Forall_nil_2]. split; cbn; try by apply Forall_nil_2.
  - split; [apply NoDup_nil_2|split; [by apply Forall_nil_2|split; [apply NoDup_nil_2|done]]].
  - split; [apply NoDup_nil_2|by apply Forall_nil_2].
  - intros i. destruct index; cbn; rewrite lookup_empty;
      (split; [by intros [? [=]]|intros Hi; by apply not_elem_of_nil in Hi]).
  - done.
Qed.

(** C1: A new database is consistent, and every sequence of writes keeps a
    consistent store so: row ids and qualified names are unique, every node has
    exactly one full-text index row and every index row its node, no risk row, nor
    a flow membership an older database brings along, names a node that is gone,
    the write indexes are dropped exactly while a bulk load runs, and no edge with
    an unresolved endpoint is filed as extracted.  The writes are file batches,
    given directly or as JSON, removals, single upserts, bulk loads, index
    rebuilds, metadata and the computing and pruning of the risk table, in any
    order; the passes of post-processing are not among them. *)
Theorem reachable_store_ok (s0 s : GraphStore (F := F)) :
  (∀ index, store_ok (new_store index) ∧ edges_ok (new_store index)) ∧
  (store_ok s0 → edges_ok s0 → rtc write s0 s → store_ok s ∧ edges_ok s).
Proof. split; [apply new_store_ok|]. intros Hs He Hr. by apply (writes_ok s0). Qed.

(** C2: A file batch replaces exactly the data of its files: on success the nodes
    and edges of other files are untouched rows, the files' nodes are the values
    given (the last value for each qualified name), their edges the first edge
    of each identity, all in new rows; the index watermark counts the index
    rows, except inside a bulk load, which puts it off.  A batch names each file
    once, and its nodes carry their file's path, which has no colon.  The store stays
    consistent, and a batch that fails (only JSON can) leaves the store as it
    was. *)
Theorem store_file_batch_spec now stamp batch (s : GraphStore (F := F)) :
  store_ok s → batch_ok batch →
  let '(s', r) := store_file_batch fts_values now stamp batch s in
  match r with
  | inl _ => ∃ rows es,
      try_map (item_rows (node_vals now)) batch = inl rows ∧
      batch_edges edge_key (edge_vals now) batch = inl es ∧ store_ok s' ∧
      batch_stored s s' (item_path _ _ <$> batch) (concat rows) es ∧ bulk s' = bulk s ∧
      (bulk s = false → metadata s' !! "fts_indexed_node_count" = Some (decimal (fts_count s')))
  | inr e => s' = s ∧ e = JsonError
  end.
Proof. apply store_file_batch_run. Qed.

(** Removing files, however many chunks the statement needs, takes exactly
    the rows of those files: their nodes and edges go, with the flow
    memberships, risk rows and index rows of those nodes, and everything else
    stays; removing one file is removing the list of it. *)
Theorem remove_files_data_spec stamp files (s : GraphStore (F := F)) :
  remove_files_data stamp files s = set_fts_watermark stamp None (removed files s) ∧
  (∀ f, files = [f] → remove_file_data stamp f s = remove_files_data stamp files s) ∧
  (∀ r, r ∈ nodes (removed files s) ↔ r ∈ nodes s ∧ file_path (vals r) ∉ files) ∧
  (∀ i, is_Some (default ∅ (fts (removed files s)) !! i) ↔
        is_Some (default ∅ (fts s) !! i) ∧
        ∀ r, r ∈ nodes s → file_path (vals r) ∈ files → node_id r ≠ i).
Proof.
  split; [apply remove_files_data_eq|split; [|split]].
  - intros f ->. apply remove_file_data_eq.
  - intros r. apply removed_node.
  - intros i. cbn. destruct (fts s) as [m|]; cbn.
    2:{ rewrite lookup_empty. split; [intros [? [=]]|intros [[? [=]] _]]. }
    rewrite without_lookup. case_bool_decide as Hin; rewrite elem_of_file_ids in Hin.
    + split; [intros [? [=]]|]. intros [_ Hn]. destruct Hin as (r & Hr & Hf & Hi). by destruct (Hn r Hr Hf).
    + split; [|by intros []]. intros Hm. split; [done|]. intros r Hr Hf Hi. apply Hin. by exists r.
Qed.

(** ** Batches as JSON *)

(** A node, edge and file and their compact forms, the JSON of [extra] written
    as the store writes it. *)
Definition same_node (n : NodeInput) (r : RawCompactNodeInput) : Prop :=
  extra_json (ni_extra n) = inl (rn_extra r) ∧
  r = mkRawNode (ni_kind n) (ni_name n) (ni_file_path n) (ni_line_start n) (ni_line_end n)
        (ni_language n) (ni_parent_name n) (ni_params n) (ni_return_type n) (ni_modifiers n)
        (ni_is_test n) (rn_extra r).

Definition same_edge (e : EdgeInput) (r : RawCompactEdgeInput) : Prop :=
  extra_json (ei_extra e) = inl (re_extra r) ∧
  r = mkRawEdge (ei_kind e) (ei_source e) (ei_target e) (ei_file_path e) (ei_line e) (re_extra r).

Definition same_item (i : FileBatchItem NodeInput EdgeInput)
    (r : FileBatchItem RawCompactNodeInput RawCompactEdgeInput) : Prop :=
  item_path _ _ i = item_path _ _ r ∧ item_hash _ _ i = item_hash _ _ r ∧
  item_mtime _ _ i = item_mtime _ _ r ∧
  Forall2 same_node (item_nodes _ _ i) (item_nodes _ _ r) ∧
  Forall2 same_edge (item_edges _ _ i) (item_edges _ _ r).

(** What serde_json documents: reading back what was written gives the value,
    null and the empty object have no members, and only the empty object is
    written as [{}]. *)
Class JsonLaws : Prop := {
  read_written : ∀ v t, to_string v = Some t → from_str t = Some v;
  empty_members : ∀ v k, is_null v || is_empty_object v = true → get_f64 v k = None ∧ get_str v k = None;
  written_empty : ∀ v, to_string v = Some "{}" → is_empty_object v = true
}.

Lemma same_node_vals now h m n r : same_node n r → node_vals now h m n = raw_node_vals now h m r.
Proof. intros [He ->]. unfold node_vals. rewrite He. done. Qed.

Lemma same_edge_key e r : same_edge e r → edge_key e = raw_edge_key r.
Proof. by intros [_ ->]. Qed.

Lemma same_edge_vals `{!JsonLaws} now e r : same_edge e r → edge_vals now e = raw_edge_vals now r.
Proof.
  intros Hs. pose proof (same_edge_key _ _ Hs) as Hk. destruct Hs as [He _].
  unfold edge_vals, raw_edge_vals. rewrite <-Hk, He. cbn [mbind result_bind rbind].
  assert (Hm : edge_metadata_from_raw_extra (re_extra r) =
    inl (default one (get_f64 (ei_extra e) "confidence"),
         from_raw (get_str (ei_extra e) "confidence_tier"))); [|by rewrite Hm].
  unfold edge_metadata_from_raw_extra, extra_json in *.
  destruct (is_null (ei_extra e) || is_empty_object (ei_extra e)) eqn:Em.
  - injection He as <-. cbn. by destruct (empty_members _ "confidence" Em) as [-> _],
      (empty_members _ "confidence_tier" Em) as [_ ->].
  - destruct (to_string (ei_extra e)) as [t|] eqn:Et; [|done]. injection He as <-.
    case_bool_decide as Hb.
    + subst t. apply written_empty in Et. by rewrite Et, orb_true_r in Em.
    + by rewrite (read_written _ _ Et).
Qed.

(** Loops over matching lists with matching steps agree. *)
Lemma try_fold_Forall2 {A B C} (R : B → C → Prop) (f : A → B → Result A) (g : A → C → Result A) l k :
  (∀ a b c, R b c → f a b = g a c) → Forall2 R l k → ∀ a, try_fold f a l = try_fold g a k.
Proof.
  intros Hfg. induction 1 as [|b c l k Hbc _ IH]; intros a; [done|]. simpl.
  rewrite (Hfg _ _ _ Hbc). destruct (g a c); simpl; [apply IH|done].
Qed.

Lemma same_load_item `{!JsonLaws} now (l : loader (F := F)) i r :
  same_item i r →
  load_item (node_vals now) edge_key (edge_vals now) l i =
  load_item (raw_node_vals now) raw_edge_key (raw_edge_vals now) l r.
Proof.
  intros (_ & Hh & Hm & Hn & He). unfold load_item.
  assert (Hnodes : ∀ l : loader (F := F), try_fold (load_node (node_vals now) (item_hash _ _ i) (item_mtime _ _ i)) l
      (item_nodes _ _ i) =
    try_fold (load_node (raw_node_vals now) (item_hash _ _ r) (item_mtime _ _ r)) l (item_nodes _ _ r)).
  { apply (try_fold_Forall2 same_node); [|done]. intros a n rn Hs. unfold load_node.
    by rewrite Hh, Hm, (same_node_vals _ _ _ _ _ Hs). }
  rewrite Hnodes. clear Hnodes.
  destruct (try_fold _ _ _) as [l'|]; cbn [mbind result_bind rbind]; [|done].
  apply (try_fold_Forall2 same_edge); [|done]. intros a e re Hs. unfold load_edge.
  by rewrite (same_edge_key _ _ Hs), (same_edge_vals _ _ _ Hs).
Qed.

(** C3: A batch that arrives as compact JSON does to the store exactly what the
    same batch does when it is given directly, success or failure. *)
Theorem store_file_batch_json_same `{!JsonLaws} now stamp batch raw (s : GraphStore (F := F)) :
  Forall2 same_item batch raw →
  store_file_batch_json fts_values now stamp (Some raw) s = store_file_batch fts_values now stamp batch s.
Proof.
  intros Hb. unfold store_file_batch_json, store_file_batch, transact. cbn [json mbind result_bind rbind].
  assert (Hp : item_path _ _ <$> batch = item_path _ _ <$> raw).
  { induction Hb as [|i r batch raw Hi _ IH]; [done|]. cbn. rewrite IH. by destruct Hi as [-> _]. }
  unfold store_raw_compact_file_batch_tx, store_file_batch_tx, store_batch.
  rewrite Hp, (Forall2_length _ _ _ Hb).
  by rewrite (try_fold_Forall2 same_item _ _ _ _ (λ a i r, same_load_item now a i r) Hb).
Qed.

End spec.
(** ** The theorems at work *)

#[local] Existing Instance text_json.

#[local] Instance text_json_laws : JsonLaws.
Proof.
  split; cbn; [by intros v t [= ->]|done|]. intros v [= ->]. by case_bool_decide.
Qed.

Definition no_text (root : option string) (r : NodeRow) : unit := tt.

Definition demo_nodes : list NodeInput :=
  [mkNodeInput "File" "a.py" "a.py" 1 9 "python" None None None None false "null";
   mkNodeInput "Function" "f" "a.py" 2 3 "python" None None None None false "{}"].

Definition demo_edge : EdgeInput := mkEdgeInput "CALLS" "a.py::f" "<unresolved:g>" "a.py" 3 "null".

Definition demo_batch : list (FileBatchItem NodeInput EdgeInput) :=
  [mkItem _ _ "a.py" demo_nodes [demo_edge; demo_edge] "h1" 7].

Definition demo_raw : list (FileBatchItem RawCompactNodeInput RawCompactEdgeInput) :=
  [mkItem _ _ "a.py"
     [mkRawNode "File" "a.py" "a.py" 1 9 "python" None None None None false "{}";
      mkRawNode "Function" "f" "a.py" 2 3 "python" None None None None false "{}"]
     [mkRawEdge "CALLS" "a.py::f" "<unresolved:g>" "a.py" 3 "{}";
      mkRawEdge "CALLS" "a.py::f" "<unresolved:g>" "a.py" 3 "{}"] "h1" 7].

Definition demo_store : GraphStore (F := unit) :=
  (store_file_batch no_text one "now" demo_batch (new_store true)).1.

Lemma demo_batch_ok : batch_ok demo_batch.
Proof.
  split; [apply NoDup_singleton|]. intros item n ->%list_elem_of_singleton Hn. cbn in Hn.
  apply elem_of_cons in Hn as [->|Hn]; [done|]. by apply list_elem_of_singleton in Hn as ->.
Qed.

(** Two nodes, and one edge filed as low confidence though given twice. *)
Example demo_store_rows :
  qualified_name ∘ vals <$> nodes demo_store = ["a.py"; "a.py::f"] ∧
  confidence_tier ∘ e_vals <$> edges demo_store = ["LOW"].
Proof. by vm_compute. Qed.

(** A database of an earlier version, with a flow through [f]. *)
Definition demo_flows : GraphStore (F := unit) := set_keyed [(7, 2)%Z] [] demo_store.

Lemma demo_flows_ok : store_ok demo_flows ∧ edges_ok demo_flows.
Proof.
  assert (Hd : store_ok demo_store ∧ edges_ok demo_store).
  { apply (writes_ok no_text (new_store true)); [|apply new_store_ok].
    apply rtc_once, (write_batch _ one "now" demo_batch), demo_batch_ok. }
  destruct Hd as [[H1 H2 H3 H4 _ _ H7] He]. split; [|done]. split; [exact H1|exact H2|exact H3|exact H4| | |exact H7].
  - apply Forall_singleton. vm_compute. right. left.
  - apply Forall_nil_2.
Qed.

(** The risk of [f] is computed, and then its file goes. *)
Lemma reachable_store_ok_witness :
  let s1 := Risk.compute_risk_index "now" demo_flows in
  let s2 := remove_files_data "later" ["a.py"] s1 in
  risk_node <$> risk_index s1 = [2%Z] ∧ rtc (write no_text) demo_flows s2 ∧ store_ok s2 ∧
  flow_memberships s2 = [] ∧ risk_index s2 = [].
Proof.
  intros s1 s2. split; [by vm_compute|].
  assert (Hr : rtc (write no_text) demo_flows s2).
  { eapply rtc_l; [apply (write_risk _ "now")|]. apply rtc_once, write_remove_files. }
  split; [exact Hr|]. split; [|by vm_compute].
  exact (proj1 (proj2 (reachable_store_ok no_text demo_flows s2) (proj1 demo_flows_ok) (proj2 demo_flows_ok) Hr)).
Defined.

Lemma store_file_batch_spec_witness :
  store_ok (new_store (F := unit) true) ∧ batch_ok demo_batch ∧
  ∃ s', store_file_batch no_text one "now" demo_batch (new_store true) = (s', inl tt) ∧ store_ok s'.
Proof.
  assert (Hs : store_ok (new_store (F := unit) true)) by apply new_store_ok.
  split; [exact Hs|split; [exact demo_batch_ok|]].
  pose proof (store_file_batch_spec no_text one "now" demo_batch _ Hs demo_batch_ok) as Hspec.
  destruct (store_file_batch _ _ _ _ _) as [s' [[]|e]] eqn:E.
  - exists s'. split; [done|]. by destruct Hspec as (rows & es & _ & _ & Hok & _).
  - exfalso. revert E. vm_compute. done.
Defined.

Lemma store_file_batch_json_same_witness :
  Forall2 same_item demo_batch demo_raw ∧
  store_file_batch_json no_text one "now" (Some demo_raw) (new_store true) =
  store_file_batch no_text one "now" demo_batch (new_store true).
Proof.
  assert (Hb : Forall2 same_item demo_batch demo_raw).
  { repeat first [apply Forall2_cons; split | apply Forall2_nil_2 | split | reflexivity]. }
  split; [exact Hb|exact (store_file_batch_json_same no_text one "now" _ _ _ Hb)].
Defined.

End StoreSpec.
