(* ===== verification/Impact.v ===== *)
(** * Bridges and the impact radius

    Models crates/dagayn-graph/src/bridges.rs, impact_radius.rs, the reads it
    makes (query.rs, node_queries.rs, schema.rs, helpers/rows.rs) and the edge data
    of flow tracing (flow_trace.rs): which CROSS_ARTIFACT edges are hard claims and which
    are caveats, and what changed files reach within a number of hops.  The order
    of rows a query leaves unordered, and of a HashMap's keys, is a parameter. *)
From S2P Require Import Prelude Graphs GraphData Store.
Import Graphs GraphData Store.

Module Impact.

#[local] Set Default Proof Using "Type".

Section impact.
Context `{Json} {F : Type}.
(** The order in which unordered rows and keys come. *)
Context (unordered : ∀ {A : Type}, list A → list A).
(** [Path::canonicalize], which asks the file system. *)
Context (canonicalize : string → option string).

(** ** Rows as read *)

(** Source: crates/dagayn-graph/src/lib.rs 297-316 [GraphNode]. *)
Record GraphNode := mkGraphNode {
  n_id : Z;
  n_kind : string;
  n_name : string;
  n_qualified_name : string;
  n_file_path : string;
  n_line_start : Z;
  n_line_end : Z;
  n_language : string;
  n_parent_name : option string;
  n_params : option string;
  n_return_type : option string;
  n_is_test : bool;
  n_file_hash : option string;
  n_extra : Value;
  n_signature : option string
}.

(** Source: crates/dagayn-graph/src/lib.rs 319-329 [GraphEdge]. *)
Record GraphEdge := mkGraphEdge {
  g_id : Z;
  g_kind : string;
  g_source_qualified : string;
  g_target_qualified : string;
  g_file_path : string;
  g_line : Z;
  g_extra : Value;
  g_confidence : f64;
  g_confidence_tier : ConfidenceTier
}.

(** Source: crates/dagayn-graph/src/helpers/rows.rs 90-95 [parse_json_column]. *)
Definition parse_json_column (raw : option string) : Result Value :=
  match raw with
  | Some raw =>
      if bool_decide (raw = "") then inl empty_object
      else match from_str raw with Some v => inl v | None => inr Sqlite end
  | None => inl empty_object
  end.

(** Source: crates/dagayn-graph/src/helpers/rows.rs 44-70 [node_from_row]. *)
Definition node_from_row (r : NodeRow) : Result GraphNode :=
  x ← parse_json_column (Some (extra (vals r)));
  inl (mkGraphNode (node_id r) (kind (vals r)) (name (vals r)) (qualified_name (vals r))
         (file_path (vals r)) (line_start (vals r)) (line_end (vals r)) (language (vals r))
         (parent_name (vals r)) (params (vals r)) (return_type (vals r)) (is_test (vals r))
         (Some (file_hash (vals r))) x (signature r)).

(** Source: crates/dagayn-graph/src/helpers/rows.rs 72-88 [edge_from_row]. *)
Definition edge_from_row (r : EdgeRow) : Result GraphEdge :=
  let v := e_vals r in
  x ← parse_json_column (Some (e_extra v));
  inl (mkGraphEdge (edge_id r) (e_kind v) (source_qualified v) (target_qualified v) (e_file_path v)
         (e_line v) x (confidence v) (from_raw (Some (confidence_tier v)))).

(** ** Bridges *)

(** Source: crates/dagayn-graph/src/bridges.rs 8-9 [REPORTABLE_CONFIDENCE_TIERS]. *)
Definition REPORTABLE_CONFIDENCE_TIERS : list string := ["EXACT"; "HIGH"; "EXTRACTED"].

(** Source: crates/dagayn-graph/src/bridges.rs 11-13 [is_cross_artifact]. *)
Definition is_cross_artifact (e : GraphEdge) : bool := bool_decide (g_kind e = "CROSS_ARTIFACT").

(** Source: crates/dagayn-graph/src/bridges.rs 15-20 [cross_artifact_role]. *)
Definition cross_artifact_role (e : GraphEdge) : option string :=
  if negb (is_cross_artifact e) then None else get_str (g_extra e) "relationship_role".

(** Source: crates/dagayn-graph/src/bridges.rs 27-29 [confidence_tier_of]. *)
Definition confidence_tier_of (e : GraphEdge) : string := as_str (g_confidence_tier e).

(** Source: crates/dagayn-graph/src/bridges.rs 31-33 [is_unresolved_target]. *)
Definition is_unresolved_target (e : GraphEdge) : bool := unresolved (g_target_qualified e).

(** Source: crates/dagayn-graph/src/bridges.rs 35-37 [extra_str]. *)
Definition extra_str (e : GraphEdge) (key : string) : string := default "" (get_str (g_extra e) key).

(** Source: crates/dagayn-graph/src/bridges.rs 40-46 [is_low_confidence_unresolved_markdown_code_span]. *)
Definition is_low_confidence_unresolved_markdown_code_span (e : GraphEdge) : bool :=
  is_cross_artifact e
  && bool_decide (extra_str e "relationship_role" = "describes_symbol")
  && is_unresolved_target e
  && bool_decide (confidence_tier_of e = "LOW")
  && (bool_decide (extra_str e "evidence_kind" = "markdown_code_span")
      || bool_decide (extra_str e "evidence_kind" = "")).

(** Source: crates/dagayn-graph/src/bridges.rs 49-56 [is_low_confidence_resolved_implicit_markdown_code_span]. *)
Definition is_low_confidence_resolved_implicit_markdown_code_span (e : GraphEdge) : bool :=
  is_cross_artifact e
  && negb (is_unresolved_target e)
  && bool_decide (extra_str e "relationship_role" = "describes_symbol")
  && bool_decide (extra_str e "evidence_kind" = "markdown_code_span")
  && bool_decide (extra_str e "evidence_source" = "code_span")
  && bool_decide (confidence_tier_of e = "MEDIUM").

(** Source: crates/dagayn-graph/src/bridges.rs 64-75 [is_low_confidence_bridge]. *)
Definition is_low_confidence_bridge (e : GraphEdge) : bool :=
  if negb (is_cross_artifact e) then false
  else if is_unresolved_target e || is_low_confidence_unresolved_markdown_code_span e
          || is_low_confidence_resolved_implicit_markdown_code_span e
  then true
  else negb (bool_decide (confidence_tier_of e ∈ REPORTABLE_CONFIDENCE_TIERS)).

(** Source: crates/dagayn-graph/src/bridges.rs 78-83 [is_reportable_bridge]. *)
Definition is_reportable_bridge (e : GraphEdge) : bool :=
  if negb (is_cross_artifact e) || is_unresolved_target e || is_low_confidence_bridge e then false
  else bool_decide (confidence_tier_of e ∈ REPORTABLE_CONFIDENCE_TIERS).

(** Absent text as [null].

    Source: crates/dagayn-graph/src/bridges.rs 85-91 [optional_str]. *)
Definition optional_str (value : string) : option string :=
  if bool_decide (value = "") then None else Some value.

(** The payload of a hop, its kind always CROSS_ARTIFACT.

    Source: crates/dagayn-graph/src/bridges.rs 95-108 [bridge_transition_value]. *)
Record Transition := mkTransition {
  t_source : string;
  t_target : string;
  t_relationship_role : option string;
  t_bridge_kind : option string;
  t_evidence_kind : option string;
  t_evidence_source : option string;
  t_confidence : f64;
  t_confidence_tier : option string;
  t_file_path : string;
  t_line : Z;
  t_claim_strength : string
}.

(** Source: crates/dagayn-graph/src/bridges.rs 94-109 [bridge_transition_value]. *)
Definition bridge_transition_value (e : GraphEdge) : Transition :=
  mkTransition (g_source_qualified e) (g_target_qualified e) (cross_artifact_role e)
    (optional_str (extra_str e "bridge_kind")) (optional_str (extra_str e "evidence_kind"))
    (optional_str (extra_str e "evidence_source")) (g_confidence e)
    (optional_str (confidence_tier_of e)) (g_file_path e) (g_line e)
    (if is_reportable_bridge e then "hard" else "caveat").

(** The varying part of a caveat: its reason, severity and effect are fixed text.

    Source: crates/dagayn-graph/src/bridges.rs 119-125 [low_confidence_bridge_missingness]. *)
Record Caveat := mkCaveat {
  c_source : string;
  c_target : string;
  c_relationship_role : option string;
  c_bridge_kind : option string;
  c_confidence_tier : option string
}.

(** Source: crates/dagayn-graph/src/bridges.rs 112-127 [low_confidence_bridge_missingness]. *)
Definition low_confidence_bridge_missingness (e : GraphEdge) : Caveat :=
  let meta := bridge_transition_value e in
  mkCaveat (t_source meta) (t_target meta) (t_relationship_role meta) (t_bridge_kind meta)
    (t_confidence_tier meta).

(** Source: crates/dagayn-graph/src/bridges.rs 130-144 [collect_bridge_transitions]. *)
Definition collect_bridge_transitions (es : list GraphEdge) : list Transition * list Caveat :=
  foldl (λ '(transitions, caveats) e,
    if negb (is_cross_artifact e) then (transitions, caveats)
    else if is_reportable_bridge e then (transitions ++ [bridge_transition_value e], caveats)
    else if is_low_confidence_bridge e
    then (transitions, caveats ++ [low_confidence_bridge_missingness e])
    else (transitions, caveats)) ([], []) es.

(** [LIKE '<prefix>%'], which ignores the case of ASCII letters. *)
Definition like_prefix (prefix s : string) : bool :=
  starts_with (to_ascii_lower prefix) (to_ascii_lower s).

(** Source: crates/dagayn-graph/src/impact_radius.rs 12-19 [REPORTABLE_BRIDGE_SQL]. *)
Definition reportable_bridge_sql (v : EdgeVals) : bool :=
  negb (bool_decide (e_kind v = "CROSS_ARTIFACT"))
  || (bool_decide (to_ascii_uppercase (confidence_tier v) ∈ ["EXACT"; "HIGH"; "EXTRACTED"])
      && negb (like_prefix "<unresolved:" (target_qualified v))
      && negb (like_prefix "<unresolved:" (source_qualified v))).

(** ** Keys *)

Definition is_absolute (path : string) : bool := starts_with "/" path.

(** The parts [Path::components] skips. *)
Definition skipped (p : string) : bool := bool_decide (p = "") || bool_decide (p = ".").

Fixpoint drop_skipped (parts : list string) : list string :=
  match parts with
  | p :: rest => if skipped p then drop_skipped rest else parts
  | [] => []
  end.

Definition drop_skipped_end (parts : list string) : list string := rev (drop_skipped (rev parts)).

Definition join_slash (parts : list string) : string := String.concat "/" parts.

(** Match the components of a base, one by one. *)
Fixpoint strip_parts (base parts : list string) : option (list string) :=
  match base with
  | [] => Some parts
  | b :: base =>
      match drop_skipped parts with
      | p :: parts => if bool_decide (p = b) then strip_parts base parts else None
      | [] => None
      end
  end.

(** [Path::strip_prefix] of an absolute path, the result as text. *)
Definition strip_prefix (path base : string) : option string :=
  if is_absolute base then
    rest ← strip_parts (filter (λ p, skipped p = false) (split_slash base)) (split_slash path);
    Some (join_slash (drop_skipped_end (drop_skipped rest)))
  else if bool_decide (base = "")
  then Some ("/" +:+ join_slash (drop_skipped_end (tail (split_slash path))))
  else None.

(** Source: crates/dagayn-graph/src/schema.rs 96-114 [normalize_file_path_key]. *)
Definition normalize_file_path_key (s : GraphStore (F := F)) (path : string) : string :=
  if negb (is_absolute path) then path
  else match get_metadata "repo_root" s with
       | None => path
       | Some root =>
           match strip_prefix path root with
           | Some rel => rel
           | None =>
               match canonicalize path, canonicalize root with
               | Some path', Some root' => default path (strip_prefix path' root')
               | _, _ => path
               end
           end
       end.

(** Source: crates/dagayn-graph/src/schema.rs 63-70 [file_key_candidates]. *)
Definition file_key_candidates (s : GraphStore (F := F)) (path : string) : list string :=
  let normalized := normalize_file_path_key s path in
  if bool_decide (normalized = path) then [path] else [path; normalized].

(** ** Reads *)

(** Which paths a key was asked for, in order.

    Source: crates/dagayn-graph/src/query.rs 149-157 [get_nodes_by_files]. *)
Definition key_to_originals (s : GraphStore (F := F)) (paths : list string) : gmap string (list string) :=
  foldl (λ m path,
    foldl (λ m key, <[key := default [] (m !! key) ++ [path]]> m) m (file_key_candidates s path))
    ∅ paths.

(** One row for one of its paths: kept once per node id.

    Source: crates/dagayn-graph/src/query.rs 171-183 [get_nodes_by_files]. *)
Definition add_node (n : GraphNode) (st : gmap string (list GraphNode) * gmap string (gset Z)) (original : string)
    : gmap string (list GraphNode) * gmap string (gset Z) :=
  let '(out, seen_by) := st in
  match seen_by !! original with
  | Some seen =>
      if bool_decide (n_id n ∈ seen) then st
      else (<[original := default [] (out !! original) ++ [n]]> out,
            <[original := {[n_id n]} ∪ seen]> seen_by)
  | None => st
  end.

(** Source: crates/dagayn-graph/src/query.rs 137-187 [get_nodes_by_files]. *)
Definition get_nodes_by_files (s : GraphStore (F := F)) (paths : list string)
    : Result (gmap string (list GraphNode)) :=
  let out : gmap string (list GraphNode) := list_to_map ((λ p, (p, [])) <$> paths) in
  let originals := key_to_originals s paths in
  let seen : gmap string (gset Z) := list_to_map ((λ p, (p, ∅)) <$> paths) in
  let keys := unordered _ (map_to_list originals).*1 in
  st ← try_fold (λ st chunk,
         try_fold (λ st r,
           n ← node_from_row r;
           inl (foldl (add_node n) st (default [] (originals !! n_file_path n))))
           st (unordered _ (filter (in_files chunk) (nodes s))))
         (out, seen) (chunks 450 keys);
  inl (fst st).

(** Source: crates/dagayn-graph/src/node_queries.rs 98-115 [batch_get_nodes]. *)
Definition batch_get_nodes (s : GraphStore (F := F)) (qns : list string) : Result (list GraphNode) :=
  try_fold (λ out chunk,
    rows ← try_map node_from_row
             (unordered _ (filter (λ r, qualified_name (vals r) ∈ chunk) (nodes s)));
    inl (out ++ rows)) [] (chunks 450 qns).

(** ** The impact radius *)

(** Source: crates/dagayn-graph/src/impact_radius.rs 21-31 [ImpactRadius]. *)
Record ImpactRadius := mkImpactRadius {
  changed_nodes : list GraphNode;
  impacted_nodes : list GraphNode;
  impacted_files : list string;
  radius_edges : list GraphEdge;
  bridge_transitions : list Transition;
  low_confidence_bridges : list Caveat;
  truncated : bool;
  total_impacted : Z
}.

Definition no_impact : ImpactRadius := mkImpactRadius [] [] [] [] [] [] false 0.

(** Source: crates/dagayn-graph/src/impact_radius.rs 45-50 [get_impact_radius]. *)
Definition seeds_of (by_file : gmap string (list GraphNode)) (files : list string) : gset string :=
  foldl (λ seeds f,
    foldl (λ seeds n, {[n_qualified_name n]} ∪ seeds) seeds (default [] (by_file !! f))) ∅ files.

(** The seed table after some names.

    Source: crates/dagayn-graph/src/impact_radius.rs 182-191 [insert_impact_seeds]. *)
Definition insert_impact_seeds (table : gset string) (qns : list string) : gset string :=
  foldl (λ table chunk, table ∪ list_to_set chunk) table (chunks 450 qns).

(** What an edge leads to from the names of a depth, either way.

    Source: crates/dagayn-graph/src/impact_radius.rs 163-172 [expand_impact_levels]. *)
Definition level_names (s : GraphStore (F := F)) (visited : gmap string nat) (depth : nat) : gset string :=
  let reportable := filter (λ e, reportable_bridge_sql (e_vals e) = true) (edges s) in
  list_to_set (target_qualified ∘ e_vals <$>
    filter (λ e, visited !! source_qualified (e_vals e) = Some depth) reportable)
  ∪ list_to_set (source_qualified ∘ e_vals <$>
      filter (λ e, visited !! target_qualified (e_vals e) = Some depth) reportable).

(** [INSERT OR IGNORE] of a level, and how many rows it inserted.

    Source: crates/dagayn-graph/src/impact_radius.rs 163-177 [expand_impact_levels]. *)
Definition expand_level (s : GraphStore (F := F)) (visited : gmap string nat) (depth : nat)
    : gmap string nat * nat :=
  let fresh := level_names s visited depth ∖ dom visited in
  (visited ∪ gset_to_gmap (S depth) fresh, size fresh).

(** Source: crates/dagayn-graph/src/impact_radius.rs 173-180 [expand_impact_levels]. *)
Fixpoint expand_from (s : GraphStore (F := F)) (fuel depth : nat) (visited : gmap string nat)
    : gmap string nat :=
  match fuel with
  | 0 => visited
  | S fuel =>
      let '(visited, inserted) := expand_level s visited depth in
      if inserted =? 0 then visited else expand_from s fuel (S depth) visited
  end.

(** Source: crates/dagayn-graph/src/impact_radius.rs 154-180 [expand_impact_levels]. *)
Definition expand_impact_levels (s : GraphStore (F := F)) (seeds : gset string) (max_depth : Z)
    : gmap string nat :=
  expand_from s (Z.to_nat (Z.max max_depth 0)) 0 (gset_to_gmap 0 seeds).

(** By depth, then name. *)
Definition depth_name_le (x y : nat * string) : bool :=
  (fst x <? fst y) || ((fst x =? fst y) && String.leb (snd x) (snd y)).

(** [LIMIT n], which is no limit when [n] is negative. *)
Definition limit {A} (n : Z) (l : list A) : list A := if (n <? 0)%Z then l else take (Z.to_nat n) l.

(** Source: crates/dagayn-graph/src/impact_radius.rs 72-82 [get_impact_radius]. *)
Definition depth_by_qn (visited : gmap string nat) (max_nodes : Z) : list (nat * string) :=
  limit max_nodes
    (sort_by depth_name_le
      (filter (λ p, 0 < fst p) ((λ p, (snd p, fst p)) <$> map_to_list visited))).

(** Source: crates/dagayn-graph/src/impact_radius.rs 107-113 [get_impact_radius]. *)
Definition files_of (ns : list GraphNode) : list string :=
  fst (foldl (λ '(files, seen) n,
    if bool_decide (n_file_path n ∈ seen) then (files, seen)
    else (files ++ [n_file_path n], {[n_file_path n]} ∪ seen)) ([], (∅ : gset string)) ns).

(** Source: crates/dagayn-graph/src/impact_radius.rs 211-220 [low_confidence_bridges_near_seeds]. *)
Definition add_caveat (st : gset (string * string) * list Caveat) (r : EdgeRow)
    : Result (gset (string * string) * list Caveat) :=
  let '(seen, caveats) := st in
  e ← edge_from_row r;
  if negb (is_low_confidence_bridge e) then inl st
  else
    let key := (g_source_qualified e, g_target_qualified e) in
    if bool_decide (key ∈ seen) then inl st
    else inl ({[key]} ∪ seen, caveats ++ [low_confidence_bridge_missingness e]).

(** Source: crates/dagayn-graph/src/impact_radius.rs 194-223 [low_confidence_bridges_near_seeds]. *)
Definition low_confidence_bridges_near_seeds (s : GraphStore (F := F)) (seeds : list string)
    : Result (list Caveat) :=
  st ← try_fold (λ st chunk,
         try_fold add_caveat st
           (unordered _ (filter (λ e, e_kind (e_vals e) = "CROSS_ARTIFACT" ∧
              (source_qualified (e_vals e) ∈ chunk ∨ target_qualified (e_vals e) ∈ chunk)) (edges s))))
         (∅, []) (chunks 450 seeds);
  inl (snd st).

(** Source: crates/dagayn-graph/src/impact_radius.rs 34-146 [get_impact_radius]. *)
Definition get_impact_radius (s : GraphStore (F := F)) (changed_files : list string)
    (max_depth max_nodes : Z) : Result ImpactRadius :=
  if bool_decide (changed_files = []) then inl no_impact
  else
    by_file ← get_nodes_by_files s changed_files;
    let seeds := seeds_of by_file changed_files in
    if bool_decide (seeds = ∅) then inl no_impact
    else
      let seed_list := sort_by String.leb (unordered _ (elements seeds)) in
      let seed_table := insert_impact_seeds ∅ seed_list in
      let visited := expand_impact_levels s seed_table max_depth in
      let total := Z.of_nat (length (filter (λ p, 0 < snd p) (map_to_list visited))) in
      let depth_by_qn := depth_by_qn visited max_nodes in
      let depth_of : gmap string nat := list_to_map ((λ p, (snd p, fst p)) <$> depth_by_qn) in
      let impacted_qns := snd <$> depth_by_qn in
      changed ← batch_get_nodes s seed_list;
      found ← batch_get_nodes s impacted_qns;
      let key n := (default 0 (depth_of !! n_qualified_name n), n_qualified_name n) in
      let impacted := sort_by (λ x y, depth_name_le (key x) (key y)) found in
      let seed_table := if bool_decide (impacted = []) then seed_table
                        else insert_impact_seeds seed_table (n_qualified_name <$> impacted) in
      edges ← try_map edge_from_row
                (unordered _ (filter (λ e, source_qualified (e_vals e) ∈ seed_table ∧
                                target_qualified (e_vals e) ∈ seed_table) (edges s)));
      caveats ← low_confidence_bridges_near_seeds s seed_list;
      inl (mkImpactRadius changed impacted (files_of impacted) edges
             (fst (collect_bridge_transitions edges)) caveats (max_nodes <? total)%Z total).

(** ** The edges of flow tracing *)

Definition bytes_of (l : list N) : string := foldr (λ b s, String (Ascii.ascii_of_N b) s) "" l.

(** The UTF-8 of the White_Space characters. *)
Definition whitespace_bytes : list (list N) :=
  [[9]; [10]; [11]; [12]; [13]; [32]; [194; 133]; [194; 160]; [225; 154; 128];
   [226; 128; 128]; [226; 128; 129]; [226; 128; 130]; [226; 128; 131]; [226; 128; 132];
   [226; 128; 133]; [226; 128; 134]; [226; 128; 135]; [226; 128; 136]; [226; 128; 137];
   [226; 128; 138]; [226; 128; 168]; [226; 128; 169]; [226; 128; 175]; [226; 129; 159];
   [227; 128; 128]]%N.

Fixpoint strip_whitespace (spaces : list (list N)) (fuel : nat) (l : list N) : list N :=
  match fuel with
  | 0 => l
  | S fuel =>
      match list_find (λ w, take (length w) l = w) spaces with
      | Some (_, w) => strip_whitespace spaces fuel (drop (length w) l)
      | None => l
      end
  end.

(** [str::trim]. *)
Definition trim (s : string) : string :=
  let l := strip_whitespace whitespace_bytes (String.length s) (chars s) in
  bytes_of (rev (strip_whitespace (rev (A := N) <$> whitespace_bytes) (length l) (rev l))).

(** Source: crates/dagayn-graph/src/flows.rs 60-72 [extra_confidence_tier]. *)
Definition extra_confidence_tier (extra_json : option string) : option string :=
  raw ← extra_json;
  v ← from_str raw;
  tier ← get_str v "confidence_tier";
  let tier := trim tier in
  if bool_decide (tier = "") then None else Some (to_ascii_uppercase tier).

(** Source: crates/dagayn-graph/src/flows.rs 81-103 [is_reportable_cross_artifact]. *)
Definition is_reportable_cross_artifact (target : string) (confidence_tier extra_json : option string) : bool :=
  if unresolved target then false
  else
    let column_tier :=
      match trim <$> confidence_tier with
      | Some tier => if bool_decide (tier = "") then None else Some (to_ascii_uppercase tier)
      | None => None
      end in
    let tier :=
      match column_tier with
      | Some tier => tier
      | None => default "EXTRACTED" (extra_confidence_tier extra_json)
      end in
    bool_decide (tier ∈ ["EXACT"; "HIGH"; "EXTRACTED"]).

Definition push_call (calls : gmap string (list string)) (source target : string) : gmap string (list string) :=
  <[source := default [] (calls !! source) ++ [target]]> calls.

(** Source: crates/dagayn-graph/src/flows.rs 30-46 [get_flow_edge_data]. *)
Definition flow_edge (node_qns : gset string) (st : gmap string (list string) * gset string) (v : EdgeVals)
    : gmap string (list string) * gset string :=
  let '(calls_out, has_tested_by) := st in
  if bool_decide (e_kind v = "CALLS")
  then (push_call calls_out (source_qualified v) (target_qualified v), has_tested_by)
  else if bool_decide (e_kind v = "TESTED_BY") then (calls_out, {[source_qualified v]} ∪ has_tested_by)
  else if bool_decide (e_kind v = "CROSS_ARTIFACT") && bool_decide (target_qualified v ∈ node_qns)
          && is_reportable_cross_artifact (target_qualified v) (Some (confidence_tier v)) (Some (e_extra v))
  then (push_call calls_out (source_qualified v) (target_qualified v), has_tested_by)
  else st.

(** The rows come by id, which is the order of the table.

    Source: crates/dagayn-graph/src/flows.rs 4-48 [get_flow_edge_data]. *)
Definition get_flow_edge_data (s : GraphStore (F := F)) : gmap string (list string) * gset string :=
  let node_qns := list_to_set (qualified_name ∘ vals <$> nodes s) in
  foldl (λ st e, flow_edge node_qns st (e_vals e)) (∅, ∅)
    (filter (λ e, e_kind (e_vals e) ∈ ["CALLS"; "TESTED_BY"; "CROSS_ARTIFACT"]) (edges s)).

(** ** Bridges: claims and caveats *)

Lemma capped_medium e :
  is_low_confidence_resolved_implicit_markdown_code_span e = true → confidence_tier_of e = "MEDIUM".
Proof.
  unfold is_low_confidence_resolved_implicit_markdown_code_span. rewrite !andb_true_iff.
  intros [_ Ht]. by apply bool_decide_eq_true in Ht.
Qed.

Lemma span_unresolved e :
  is_low_confidence_unresolved_markdown_code_span e = true → is_unresolved_target e = true.
Proof. unfold is_low_confidence_unresolved_markdown_code_span. rewrite !andb_true_iff. tauto. Qed.

Lemma low_confidence_tier e :
  is_cross_artifact e = true → is_unresolved_target e = false →
  is_low_confidence_bridge e = negb (bool_decide (confidence_tier_of e ∈ REPORTABLE_CONFIDENCE_TIERS)).
Proof.
  intros Hc Hu. unfold is_low_confidence_bridge. rewrite Hc, Hu. cbn [negb orb].
  destruct (is_low_confidence_unresolved_markdown_code_span e) eqn:E1;
    [by rewrite (span_unresolved _ E1) in Hu|].
  destruct (is_low_confidence_resolved_implicit_markdown_code_span e) eqn:E2; cbn [orb]; [|done].
  by rewrite (capped_medium _ E2).
Qed.

Lemma reportable_tier e :
  is_cross_artifact e = true → is_unresolved_target e = false →
  is_reportable_bridge e = bool_decide (confidence_tier_of e ∈ REPORTABLE_CONFIDENCE_TIERS).
Proof.
  intros Hc Hu. unfold is_reportable_bridge. rewrite (low_confidence_tier _ Hc Hu), Hc, Hu. cbn [negb orb].
  by destruct (bool_decide _).
Qed.

Lemma low_confidence_negb e :
  is_cross_artifact e = true → is_low_confidence_bridge e = negb (is_reportable_bridge e).
Proof.
  intros Hc. destruct (is_unresolved_target e) eqn:Hu.
  - unfold is_reportable_bridge, is_low_confidence_bridge. by rewrite Hc, Hu.
  - by rewrite reportable_tier, low_confidence_tier.
Qed.

(** An edge row as the store writes it: its tier column is the text of a tier. *)
Definition tier_written (v : EdgeVals) : Prop := ∃ t, confidence_tier v = as_str t.

Lemma trim_tier t : trim (as_str t) = as_str t.
Proof. by destruct t. Qed.

Lemma flow_reportable target tier extra :
  is_reportable_cross_artifact target (Some (as_str tier)) extra =
  negb (unresolved target) && bool_decide (as_str tier ∈ REPORTABLE_CONFIDENCE_TIERS).
Proof.
  unfold is_reportable_cross_artifact. destruct (unresolved target); [done|]. cbn [fmap option_fmap option_map].
  rewrite trim_tier. by destruct tier.
Qed.

Lemma collect_bridges es :
  collect_bridge_transitions es =
  (bridge_transition_value <$> filter (λ e, is_reportable_bridge e = true) es,
   low_confidence_bridge_missingness <$>
     filter (λ e, is_cross_artifact e = true ∧ is_reportable_bridge e = false) es).
Proof.
  induction es as [|e es IH] using rev_ind; [done|]. unfold collect_bridge_transitions in *.
  rewrite foldl_snoc, IH, !filter_app, !fmap_app, !filter_cons, !filter_nil. cbv beta.
  assert (Hr : is_reportable_bridge e = true → is_cross_artifact e = true).
  { unfold is_reportable_bridge. by destruct (is_cross_artifact e). }
  destruct (is_cross_artifact e) eqn:Hc; cbn [negb].
  - rewrite (low_confidence_negb _ Hc).
    destruct (is_reportable_bridge e) eqn:Hb; cbn [negb].
    + rewrite decide_True by done. rewrite decide_False by (by intros [_ ?]). by rewrite app_nil_r.
    + rewrite decide_False by done. rewrite decide_True by done. by rewrite app_nil_r.
  - destruct (is_reportable_bridge e) eqn:Hb; [by specialize (Hr eq_refl)|].
    rewrite !decide_False by (try intros [? ?]; done). by rewrite !app_nil_r.
Qed.

(** ** The expansion is breadth first *)

(** A hop between names: an edge the expansion may follow, either way. *)
Definition hop (s : GraphStore (F := F)) (x y : string) : Prop :=
  ∃ e, e ∈ edges s ∧ reportable_bridge_sql (e_vals e) = true ∧
    ((source_qualified (e_vals e) = x ∧ target_qualified (e_vals e) = y) ∨
     (target_qualified (e_vals e) = x ∧ source_qualified (e_vals e) = y)).

Lemma elem_of_level_names s visited depth y :
  y ∈ level_names s visited depth ↔ ∃ x, visited !! x = Some depth ∧ hop s x y.
Proof.
  clear unordered canonicalize.
  unfold level_names, hop. rewrite elem_of_union, !elem_of_list_to_set, !list_elem_of_fmap.
  setoid_rewrite list_elem_of_filter. setoid_rewrite list_elem_of_filter. naive_solver.
Qed.

Definition visited_to (s : GraphStore (F := F)) (seeds : gset string) (depth : nat) (visited : gmap string nat) : Prop :=
  ∀ q k, visited !! q = Some k ↔ distance (hop s) (.∈ seeds) q k ∧ k ≤ depth.

Lemma expand_level_spec s seeds depth visited :
  visited_to s seeds depth visited →
  visited_to s seeds (S depth) (expand_level s visited depth).1 ∧
  ((expand_level s visited depth).2 = 0 → ∀ q, ¬ distance (hop s) (.∈ seeds) q (S depth)).
Proof.
  clear unordered canonicalize.
  intros Hv. unfold expand_level. cbn [fst snd].
  assert (Hnew : ∀ q, q ∈ level_names s visited depth ∖ dom visited ↔
                      distance (hop s) (.∈ seeds) q (S depth)).
  { intros q. rewrite elem_of_difference, elem_of_level_names, not_elem_of_dom. split.
    - intros [(x & Hx & Hh) Hn]. apply Hv in Hx as [[Hx _] _]. split; [apply reached_S; by exists x|].
      assert (Hno : ∀ n, n ≤ depth → ¬ distance (hop s) (.∈ seeds) q n).
      { intros n Hle Hd. assert (visited !! q = Some n) by (by apply Hv). congruence. }
      intros m Hm. induction (lt_wf m) as [m _ IH]. intros Hr.
      apply (Hno m); [lia|]. split; [done|]. intros k Hk. apply IH; lia.
    - intros Hd. split.
      + apply distance_S in Hd as (y & Hy & Hh). exists y. split; [by apply Hv|done].
      + apply eq_None_not_Some. intros [k Hk]. apply Hv in Hk as [Hk Hle].
        pose proof (distance_unique _ _ _ _ _ Hd Hk). lia. }
  split.
  - intros q k. rewrite lookup_union_Some_raw, lookup_gset_to_gmap_Some, Hnew, (Hv q). split.
    + intros [[? ?]|(_ & ? & <-)]; [split; [done|lia]|done].
    + intros [Hd Hle]. destruct (decide (k = S depth)) as [->|]; [|left; split; [done|lia]].
      right. split; [|done]. apply eq_None_not_Some. intros [j Hj]. apply Hv in Hj as [Hj Hle'].
      pose proof (distance_unique _ _ _ _ _ Hd Hj). lia.
  - intros Hs q Hd. apply Hnew in Hd. apply size_empty_inv in Hs. set_solver.
Qed.

Lemma expand_from_spec s seeds fuel depth visited :
  visited_to s seeds depth visited → visited_to s seeds (depth + fuel) (expand_from s fuel depth visited).
Proof.
  clear unordered canonicalize.
  revert depth visited. induction fuel as [|fuel IH]; intros depth visited Hv; cbn [expand_from].
  { by rewrite Nat.add_0_r. }
  destruct (expand_level_spec s seeds depth visited Hv) as [Hl Hz].
  destruct (expand_level s visited depth) as [visited' inserted]. cbn [fst snd] in *.
  replace (depth + S fuel) with (S depth + fuel) by lia.
  destruct (inserted =? 0) eqn:E; [|by apply IH]. bool_to_prop. specialize (Hz E).
  intros q k. rewrite (Hl q k). split; intros [Hd Hle]; (split; [done|]); [lia|].
  destruct (decide (k ≤ S depth)) as [|Hn]; [done|].
  destruct (distance_below _ _ q k (S depth) Hd) as [y Hy]; [lia|]. by destruct (Hz y).
Qed.

Lemma expand_impact_levels_spec s seeds max_depth q k :
  expand_impact_levels s seeds max_depth !! q = Some k ↔
  distance (hop s) (.∈ seeds) q k ∧ (Z.of_nat k ≤ Z.max max_depth 0)%Z.
Proof.
  clear unordered canonicalize.
  unfold expand_impact_levels.
  assert (H0 : visited_to s seeds 0 (gset_to_gmap 0 seeds)).
  { intros q' k'. rewrite lookup_gset_to_gmap_Some. split.
    - intros [Hs <-]. split; [|done]. split; [|lia]. exists q'. split; [done|constructor].
    - intros [[(x & Hx & Hn) _] Hk]. assert (k' = 0) as -> by lia. inversion Hn; subst. done. }
  rewrite (expand_from_spec s seeds _ _ _ H0 q k). split; intros [? ?]; (split; [done|lia]).
Qed.

End impact.
End Impact.
