(* ===== verification/ImpactSpec.v ===== *)
(** * What the impact radius promises

    The theorems on bridges and the impact walk of Impact.v: claims and caveats
    split the bridges, the three places that decide what is reportable agree,
    and the radius lists exactly the names within the given number of hops, by
    distance and then name. *)
From S2P Require Import Prelude Graphs GraphData Store StoreSpec Impact.
Import Graphs GraphData Store StoreSpec Impact.

Module ImpactSpec.

(** ** Loops that read rows *)

Lemma try_map_Permutation {A B} (f : A → Result B) l out :
  try_map f l = inl out → Forall2 (λ a b, f a = inl b) l out.
Proof.
  revert out. induction l as [|a l IH]; intros out; cbn; [intros [= <-]; constructor|].
  destruct (f a) as [b|] eqn:Ef; cbn; [|done]. destruct (try_map f l) as [bs|]; cbn; [|done].
  intros [= <-]. constructor; [done|]. by apply IH.
Qed.

Lemma Forall2_elem_of_r {A B} (P : A → B → Prop) l k y :
  Forall2 P l k → y ∈ k → ∃ x, x ∈ l ∧ P x y.
Proof.
  induction 1 as [|x y' l k Hp _ IH]; [by intros ?%not_elem_of_nil|].
  intros [->|Hy]%elem_of_cons; [exists x; set_solver|].
  destruct (IH Hy) as (x' & ? & ?). exists x'. set_solver.
Qed.

Lemma Forall2_elem_of_l {A B} (P : A → B → Prop) l k x :
  Forall2 P l k → x ∈ l → ∃ y, y ∈ k ∧ P x y.
Proof.
  induction 1 as [|x' y l k Hp _ IH]; [by intros ?%not_elem_of_nil|].
  intros [->|Hx]%elem_of_cons; [exists y; set_solver|].
  destruct (IH Hx) as (y' & ? & ?). exists y'. set_solver.
Qed.

(** What a loop over chunks reads. *)
Lemma filter_elem_app {A} `{EqDecision K} (f : A → K) (a b : list K) (l : list A) :
  (∀ k, k ∈ a → k ∉ b) →
  filter (λ x, f x ∈ a ++ b) l ≡ₚ filter (λ x, f x ∈ a) l ++ filter (λ x, f x ∈ b) l.
Proof.
  intros Hd. induction l as [|x l IH]; [done|]. rewrite !filter_cons.
  destruct (decide (f x ∈ a)) as [Ha|Ha].
  - rewrite decide_True by set_solver. rewrite (decide_False (P := f x ∈ b)) by (by apply Hd). cbn. by rewrite IH.
  - destruct (decide (f x ∈ b)) as [Hb|Hb].
    + rewrite decide_True by set_solver. rewrite IH. by rewrite Permutation_middle.
    + by rewrite decide_False by set_solver.
Qed.

Section impact_spec.
Context `{Json} {F : Type}.
Context (unordered : ∀ {A : Type}, list A → list A) (canonicalize : string → option string).
Hypothesis unordered_perm : ∀ (A : Type) (l : list A), unordered A l ≡ₚ l.

Lemma node_from_row_vals r n :
  node_from_row r = inl n →
  n_id n = node_id r ∧ n_qualified_name n = qualified_name (vals r) ∧ n_file_path n = file_path (vals r).
Proof.
  unfold node_from_row. destruct (parse_json_column _) as [x|]; cbn; [|done]. by intros [= <-].
Qed.

Lemma batch_get_nodes_rows (s : GraphStore (F := F)) qns out :
  NoDup qns → batch_get_nodes (@unordered) s qns = inl out →
  ∃ rows, rows ≡ₚ filter (λ r, qualified_name (vals r) ∈ qns) (nodes s) ∧
    Forall2 (λ r n, node_from_row r = inl n) rows out.
Proof.
  unfold batch_get_nodes. pose proof (concat_chunks 450 qns ltac:(lia)) as Hc. revert Hc.
  generalize (chunks 450 qns). intros cs <-.
  assert (Hgen : ∀ pre prerows out, NoDup (pre ++ concat cs) →
    prerows ≡ₚ filter (λ r, qualified_name (vals r) ∈ pre) (nodes s) →
    ∀ acc, Forall2 (λ r n, node_from_row r = inl n) prerows acc →
    try_fold (λ out chunk,
      rows ← try_map node_from_row (unordered _ (filter (λ r, qualified_name (vals r) ∈ chunk) (nodes s)));
      inl (out ++ rows)) acc cs = inl out →
    ∃ rows, rows ≡ₚ filter (λ r, qualified_name (vals r) ∈ pre ++ concat cs) (nodes s) ∧
      Forall2 (λ r n, node_from_row r = inl n) rows out).
  { clear out. induction cs as [|c cs IH]; intros pre prerows out Hnd Hp acc Hacc; cbn [try_fold concat].
    { intros [= <-]. exists prerows. by rewrite app_nil_r. }
    destruct (try_map _ _) as [rows|] eqn:Em; cbn [mbind result_bind rbind]; [|done].
    intros Hrun. cbn [concat] in Hnd. rewrite app_assoc in Hnd |- *.
    apply (IH (pre ++ c) (prerows ++ unordered _ (filter (λ r, qualified_name (vals r) ∈ c) (nodes s)))
      out Hnd) with (acc := acc ++ rows).
    - rewrite unordered_perm, Hp. symmetry. apply (filter_elem_app (λ r, qualified_name (vals r))).
      apply NoDup_app in Hnd as [Hnd _]. apply NoDup_app in Hnd as (_ & Hd & _). exact Hd.
    - apply Forall2_app; [done|]. by apply try_map_Permutation.
    - done. }
  intros Hnd Hrun. apply (Hgen [] [] out Hnd) with (acc := []); [|constructor|done].
  clear Hgen Hrun. induction (nodes s) as [|r l IH]; [done|].
  rewrite filter_cons, decide_False by (by apply not_elem_of_nil). exact IH.
Qed.

Lemma rows_names rows out :
  Forall2 (λ r n, node_from_row r = inl n) rows out →
  n_qualified_name <$> out = qualified_name ∘ vals <$> rows.
Proof.
  induction 1 as [|r n rows out Hrn _ IH]; [done|]. rewrite !fmap_cons, IH.
  f_equal. by apply node_from_row_vals in Hrn as (_ & -> & _).
Qed.

Lemma batch_get_nodes_names (s : GraphStore (F := F)) qns out :
  NoDup (names (nodes s)) → NoDup qns → batch_get_nodes (@unordered) s qns = inl out →
  n_qualified_name <$> out ≡ₚ filter (.∈ names (nodes s)) qns.
Proof.
  intros Hnames Hnd Hrun. destruct (batch_get_nodes_rows s qns out Hnd Hrun) as (rows & Hp & Hrows).
  rewrite (rows_names _ _ Hrows), Hp. apply NoDup_Permutation.
  - eapply sublist_NoDup; [exact Hnames|]. apply fmap_sublist, sublist_filter.
  - by apply NoDup_filter.
  - intros q. rewrite list_elem_of_fmap, list_elem_of_filter, elem_of_names.
    setoid_rewrite list_elem_of_filter. naive_solver.
Qed.

(** ** The nodes of files *)

Lemma key_to_originals_spec (s : GraphStore (F := F)) paths key f :
  f ∈ default [] (key_to_originals canonicalize s paths !! key) ↔
  f ∈ paths ∧ key ∈ file_key_candidates canonicalize s f.
Proof.
  unfold key_to_originals.
  assert (Hin : ∀ path keys (m : gmap string (list string)),
    f ∈ default [] (foldl (λ m key, <[key := default [] (m !! key) ++ [path]]> m) m keys !! key) ↔
    f ∈ default [] (m !! key) ∨ (f = path ∧ key ∈ keys)).
  { intros path keys. induction keys as [|k keys IH]; intros m; cbn [foldl]; [set_solver|].
    rewrite IH. destruct (decide (key = k)) as [->|Hne].
    - rewrite lookup_insert_eq. cbn. set_solver.
    - rewrite lookup_insert_ne by done. set_solver. }
  induction paths as [|path paths IH] using rev_ind; [cbn; set_solver|].
  rewrite foldl_snoc, Hin, IH. set_solver.
Qed.

(** What a path has got from the rows read so far. *)
Definition path_has (originals : gmap string (list string)) (read : list NodeRow)
    (st : gmap string (list GraphNode) * gmap string (gset Z)) (f : string) : Prop :=
  ∃ l ids, st.1 !! f = Some l ∧ st.2 !! f = Some ids ∧ (∀ i, i ∈ ids ↔ i ∈ n_id <$> l) ∧
    (∀ n, n ∈ l ↔ ∃ r, r ∈ read ∧ node_from_row r = inl n ∧
                       f ∈ default [] (originals !! file_path (vals r))) ∧
    ∀ r, r ∈ read → ∃ n, node_from_row r = inl n.

Lemma add_node_lookup n st original f l ids :
  st.1 !! f = Some l → st.2 !! f = Some ids →
  (add_node n st original).1 !! f =
    Some (if bool_decide (original = f ∧ n_id n ∉ ids) then l ++ [n] else l) ∧
  (add_node n st original).2 !! f =
    Some (if bool_decide (original = f) then {[n_id n]} ∪ ids else ids).
Proof.
  destruct st as [out seen]. cbn. intros Hl Hids. destruct (decide (original = f)) as [->|Hne].
  - rewrite Hids. rewrite (bool_decide_eq_true_2 (f = f)) by done. case_bool_decide as Hin; cbn.
    + rewrite bool_decide_eq_false_2 by (by intros [_ ?]). split; [done|]. rewrite Hids. f_equal. set_solver.
    + rewrite bool_decide_eq_true_2 by done. by rewrite !lookup_insert_eq, Hl.
  - rewrite (bool_decide_eq_false_2 (original = f)), (bool_decide_eq_false_2 (_ ∧ _)) by naive_solver.
    destruct (seen !! original) as [ids'|]; [|done]. case_bool_decide; cbn; [done|].
    by rewrite !lookup_insert_ne by done.
Qed.

(** Adding a node for a list of paths. *)
Lemma add_nodes_lookup n st os f l ids :
  st.1 !! f = Some l → st.2 !! f = Some ids →
  let st' := foldl (add_node n) st os in
  st'.1 !! f = Some (if bool_decide (f ∈ os ∧ n_id n ∉ ids) then l ++ [n] else l) ∧
  st'.2 !! f = Some (if bool_decide (f ∈ os) then {[n_id n]} ∪ ids else ids).
Proof.
  cbn zeta. revert st l ids. induction os as [|o os IH]; intros st l ids Hl Hids; cbn [foldl].
  { by rewrite !bool_decide_eq_false_2 by set_solver. }
  destruct (add_node_lookup n st o f l ids Hl Hids) as [H1 H2].
  destruct (IH _ _ _ H1 H2) as [-> ->]. clear IH H1 H2.
  destruct (decide (o = f)) as [->|Hne].
  - rewrite (bool_decide_eq_true_2 (f = f)), (bool_decide_eq_true_2 (f ∈ f :: os)) by set_solver.
    rewrite (bool_decide_eq_false_2 (f ∈ os ∧ _)) by set_solver. split.
    + f_equal. case_bool_decide as H1; case_bool_decide as H2; try done; set_solver.
    + f_equal. case_bool_decide; set_solver.
  - rewrite (bool_decide_eq_false_2 (o = f)), (bool_decide_eq_false_2 (o = f ∧ _)) by naive_solver.
    split; f_equal; repeat case_bool_decide; set_solver.
Qed.

Lemma read_row rows originals read st f r n :
  NoDup (ids rows) → r ∈ rows → (∀ r', r' ∈ read → r' ∈ rows) → node_from_row r = inl n →
  path_has originals read st f →
  path_has originals (read ++ [r])
    (foldl (add_node n) st (default [] (originals !! n_file_path n))) f.
Proof.
  intros Hnd Hr Hread Hn (l & is0 & Hl & Hi & Hids & Hin & Hall).
  destruct (add_nodes_lookup n st (default [] (originals !! n_file_path n)) f l is0 Hl Hi) as [H1 H2].
  destruct (node_from_row_vals _ _ Hn) as (Hid & _ & Hpath). rewrite Hpath in H1, H2 |- *.
  eexists _, _. split; [exact H1|split; [exact H2|]]. clear H1 H2.
  assert (Hstep : ∀ x, (∃ r0, r0 ∈ read ++ [r] ∧ node_from_row r0 = inl x ∧
                         f ∈ default [] (originals !! file_path (vals r0))) ↔
                       x ∈ l ∨ (x = n ∧ f ∈ default [] (originals !! file_path (vals r)))).
  { intros x. rewrite Hin. setoid_rewrite elem_of_app. setoid_rewrite list_elem_of_singleton. split.
    - intros (r0 & [Hr0| ->] & Hx & Hf); [left; by exists r0|right]. split; [congruence|done].
    - intros [(r0 & ? & ? & ?)|[-> Hf]]; [exists r0|exists r]; naive_solver. }
  assert (Hold : n_id n ∈ is0 → f ∈ default [] (originals !! file_path (vals r)) → n ∈ l).
  { intros Hmem Hf. apply Hids, list_elem_of_fmap in Hmem as (n' & Heq & Hn').
    apply Hin in Hn' as Hn''. destruct Hn'' as (r' & Hr' & Hrn & _).
    destruct (node_from_row_vals _ _ Hrn) as (Hid' & _).
    assert (r' = r) as -> by (eapply node_unique; [exact Hnd|by apply Hread|done|congruence]).
    by assert (n = n') as -> by congruence. }
  split; [|split; [|intros x [?| ->%list_elem_of_singleton]%elem_of_app; [by apply Hall|by exists n]]].
  - intros i. destruct (decide (f ∈ default [] (originals !! file_path (vals r)))) as [Hf|Hf].
    + rewrite bool_decide_eq_true_2 by done. destruct (decide (n_id n ∈ is0)) as [Hm|Hm].
      * rewrite bool_decide_eq_false_2 by naive_solver. set_solver.
      * rewrite bool_decide_eq_true_2 by done. rewrite fmap_app. set_solver.
    + rewrite !bool_decide_eq_false_2 by naive_solver. apply Hids.
  - intros x. rewrite Hstep. case_bool_decide as Hc; [set_solver|].
    split; [by left|]. intros [?|[-> Hf]]; [done|]. apply Hold; [|done].
    destruct (decide (n_id n ∈ is0)); [done|]. by destruct Hc.
Qed.

Lemma read_rows rows originals f l : ∀ read st st',
  NoDup (ids rows) → (∀ r, r ∈ l → r ∈ rows) → (∀ r, r ∈ read → r ∈ rows) →
  path_has originals read st f →
  try_fold (λ st r, n ← node_from_row r;
    inl (foldl (add_node n) st (default [] (originals !! n_file_path n)))) st l = inl st' →
  path_has originals (read ++ l) st' f.
Proof.
  induction l as [|r l IH]; intros read st st' Hnd Hl Hread Hp; cbn [try_fold].
  { intros [= <-]. by rewrite app_nil_r. }
  destruct (node_from_row r) as [n|] eqn:En; cbn [mbind result_bind rbind]; [|done]. intros Hrun.
  replace (read ++ r :: l) with ((read ++ [r]) ++ l) by (by rewrite <-app_assoc).
  eapply IH; [done|set_solver| |eapply read_row; [exact Hnd|apply Hl; by left|done|exact En|exact Hp]|exact Hrun].
  intros x [Hx|Hx]%elem_of_app; [by apply Hread|]. apply Hl. set_solver.
Qed.

Lemma list_to_map_const {A} (x : A) paths f :
  f ∈ paths → (list_to_map ((λ p, (p, x)) <$> paths) : gmap string A) !! f = Some x.
Proof.
  induction paths as [|p paths IH]; [by intros ?%not_elem_of_nil|]. cbn.
  destruct (decide (f = p)) as [->|Hne]; [by rewrite lookup_insert_eq|].
  rewrite lookup_insert_ne by done. intros [?|?]%elem_of_cons; [done|by apply IH].
Qed.

Lemma get_nodes_by_files_spec (s : GraphStore (F := F)) paths m f :
  NoDup (ids (nodes s)) → get_nodes_by_files (@unordered) canonicalize s paths = inl m → f ∈ paths →
  ∃ l, m !! f = Some l ∧
    (∀ n, n ∈ l ↔ ∃ r, r ∈ nodes s ∧ node_from_row r = inl n ∧
                       file_path (vals r) ∈ file_key_candidates canonicalize s f) ∧
    ∀ r, r ∈ nodes s → file_path (vals r) ∈ file_key_candidates canonicalize s f →
         ∃ n, node_from_row r = inl n.
Proof.
  intros Hnd Hrun Hf. unfold get_nodes_by_files in Hrun. cbv zeta in Hrun.
  set (originals := key_to_originals canonicalize s paths) in *.
  set (keys := unordered _ (map_to_list originals).*1) in *.
  destruct (try_fold _ _ _) as [st|] eqn:Et; cbn [mbind result_bind rbind] in Hrun; [|done].
  injection Hrun as <-.
  assert (Hcs : ∀ cs read st0, (∀ r, r ∈ read → r ∈ nodes s) → path_has originals read st0 f →
    try_fold (λ st chunk, try_fold (λ st r, n ← node_from_row r;
        inl (foldl (add_node n) st (default [] (originals !! n_file_path n)))) st
        (unordered _ (filter (in_files chunk) (nodes s)))) st0 cs = inl st →
    ∃ read', path_has originals read' st f ∧
      ∀ r, r ∈ read' ↔ r ∈ read ∨ (r ∈ nodes s ∧ file_path (vals r) ∈ concat cs)).
  { induction cs as [|c cs IH]; intros read st0 Hread Hp; cbn [try_fold concat].
    { intros [= ->]. exists read. split; [done|]. set_solver. }
    destruct (try_fold _ st0 _) as [st1|] eqn:E1; cbn [mbind result_bind rbind]; [|done]. intros Hrun.
    assert (Hl : ∀ r, r ∈ unordered _ (filter (in_files c) (nodes s)) ↔
                      r ∈ nodes s ∧ file_path (vals r) ∈ c).
    { intros r. rewrite unordered_perm, list_elem_of_filter. unfold in_files. tauto. }
    apply (read_rows (nodes s) originals f _ read) in E1; [|done|by intros r [? _]%Hl|done|done].
    assert (Hread' : ∀ r, r ∈ read ++ unordered _ (filter (in_files c) (nodes s)) → r ∈ nodes s).
    { intros r [?|[? _]%Hl]%elem_of_app; [by apply Hread|done]. }
    destruct (IH _ _ Hread' E1 Hrun) as (read' & Hp' & Hr').
    exists read'. split; [done|]. intros r. rewrite Hr', !elem_of_app, Hl. tauto. }
  assert (Hstart : path_has originals []
    ((list_to_map ((λ p, (p, [])) <$> paths) : gmap string (list GraphNode)),
     (list_to_map ((λ p, (p, ∅)) <$> paths) : gmap string (gset Z))) f).
  { exists [], ∅. cbn [fst snd]. rewrite !list_to_map_const by done.
    split; [done|split; [done|split; [set_solver|]]].
    split; [|by intros r ?%not_elem_of_nil].
    intros n. split; [by intros ?%not_elem_of_nil|]. by intros (r & ?%not_elem_of_nil & _). }
  destruct (Hcs _ [] _ ltac:(by intros r ?%not_elem_of_nil) Hstart Et) as (read & (l & _ & Hl & _ & _ & Hin & Hall) & Hread).
  assert (Hks : ∀ key, f ∈ default [] (originals !! key) ↔
                       f ∈ paths ∧ key ∈ file_key_candidates canonicalize s f)
    by (intros; apply key_to_originals_spec).
  assert (Hback : ∀ r, r ∈ nodes s → file_path (vals r) ∈ file_key_candidates canonicalize s f → r ∈ read).
  { intros r Hr Hk. apply Hread. right. split; [done|].
    rewrite concat_chunks by lia. unfold keys. rewrite unordered_perm.
    destruct (originals !! file_path (vals r)) as [os|] eqn:Eo.
    + apply list_elem_of_fmap. exists (file_path (vals r), os). split; [done|]. by apply elem_of_map_to_list.
    + exfalso. assert (Hmem : f ∈ default [] (originals !! file_path (vals r))) by (by apply Hks).
      rewrite Eo in Hmem. by apply not_elem_of_nil in Hmem. }
  exists l. split; [done|]. split; [|intros r Hr Hk; by apply Hall, Hback].
  intros n. rewrite Hin. setoid_rewrite Hks. split.
  - intros (r & [?%not_elem_of_nil|[Hr _]]%Hread & Hn & _ & Hk); [done|by exists r].
  - intros (r & Hr & Hn & Hk). exists r. split; [by apply Hback|done].
Qed.

(** ** Seeds and pages *)

Lemma seeds_of_spec m files q :
  q ∈ seeds_of m files ↔ ∃ f n, f ∈ files ∧ n ∈ default [] (m !! f) ∧ n_qualified_name n = q.
Proof.
  unfold seeds_of.
  assert (Hin : ∀ ns (acc : gset string),
    q ∈ foldl (λ seeds n, {[n_qualified_name n]} ∪ seeds) acc ns ↔ q ∈ acc ∨ q ∈ n_qualified_name <$> ns).
  { induction ns as [|n ns IH]; intros acc; cbn [foldl]; [set_solver|]. rewrite IH, fmap_cons. set_solver. }
  induction files as [|f files IH] using rev_ind; [cbn; set_solver|].
  rewrite foldl_snoc, Hin, IH, list_elem_of_fmap. set_solver.
Qed.

Lemma insert_impact_seeds_spec table qns : insert_impact_seeds table qns = table ∪ list_to_set qns.
Proof.
  unfold insert_impact_seeds. pose proof (concat_chunks 450 qns ltac:(lia)) as Hc. revert Hc.
  generalize (chunks 450 qns). intros cs <-. revert table.
  induction cs as [|c cs IH]; intros table; cbn [foldl concat list_to_set]; [set_solver|].
  rewrite IH, list_to_set_app_L. set_solver.
Qed.

Lemma depth_name_spec i x j y :
  depth_name_le (i, x) (j, y) = true ↔ i < j ∨ (i = j ∧ String.leb x y = true).
Proof. unfold depth_name_le. cbn [fst snd]. by rewrite orb_true_iff, andb_true_iff, Nat.ltb_lt, Nat.eqb_eq. Qed.

Lemma depth_name_total x y : depth_name_le x y = true ∨ depth_name_le y x = true.
Proof.
  destruct x as [i x], y as [j y]. rewrite !depth_name_spec.
  destruct (lt_eq_lt_dec i j) as [[?|]|?], (string_leb_total x y); lia || naive_solver.
Qed.

Lemma depth_name_trans x y z :
  depth_name_le x y = true → depth_name_le y z = true → depth_name_le x z = true.
Proof.
  destruct x as [i x], y as [j y], z as [k z]. rewrite !depth_name_spec.
  intros [?|[-> H1]] [?|[-> H2]]; [left; lia|by left|by left|right].
  split; [done|]. by eapply string_leb_trans.
Qed.

Lemma depth_name_antisym x y : depth_name_le x y = true → depth_name_le y x = true → x = y.
Proof.
  destruct x as [i x], y as [j y]. rewrite !depth_name_spec.
  intros [?|[-> H1]] [?|[? H2]]; try lia. f_equal. by apply string_leb_antisym.
Qed.

(** All names the walk reached, by depth and name. *)
Definition ranked (visited : gmap string nat) : list (nat * string) :=
  sort_by depth_name_le (filter (λ p, 0 < fst p) ((λ p, (snd p, fst p)) <$> map_to_list visited)).

Lemma elem_of_ranked visited k q : (k, q) ∈ ranked visited ↔ visited !! q = Some k ∧ 0 < k.
Proof.
  unfold ranked. rewrite elem_of_sort_by, list_elem_of_filter, list_elem_of_fmap. cbn. split.
  - intros [Hk ([q' k'] & [= -> ->] & Hp)]. by apply elem_of_map_to_list in Hp.
  - intros [Hv Hk]. split; [done|]. exists (q, k). split; [done|]. by apply elem_of_map_to_list.
Qed.

Lemma ranked_sorted visited : StronglySorted (λ x y, depth_name_le x y = true) (ranked visited).
Proof. apply sort_by_sorted; [apply depth_name_total|apply depth_name_trans]. Qed.

Lemma ranked_names visited : NoDup (snd <$> ranked visited).
Proof.
  unfold ranked. rewrite sort_by_Permutation.
  eapply sublist_NoDup; [|apply fmap_sublist, sublist_filter].
  rewrite <-list_fmap_compose. apply NoDup_fst_map_to_list.
Qed.

Lemma ranked_length visited :
  length (ranked visited) = length (filter (λ p : string * nat, 0 < snd p) (map_to_list visited)).
Proof.
  unfold ranked. rewrite length_sort_by. induction (map_to_list visited) as [|[q k] l IH]; [done|].
  rewrite fmap_cons, !filter_cons. cbn [fst snd]. destruct (decide (0 < k)); cbn; by rewrite IH.
Qed.

Lemma limit_fmap {A B} (f : A → B) n l : f <$> limit n l = limit n (f <$> l).
Proof. unfold limit. case_if; [done|]. by rewrite fmap_take. Qed.

Lemma limit_sublist {A} n (l : list A) : limit n l `sublist_of` l.
Proof. unfold limit. case_if; [done|]. apply sublist_take. Qed.

Lemma StronglySorted_sublist {A} (R : relation A) (l k : list A) :
  l `sublist_of` k → StronglySorted R k → StronglySorted R l.
Proof.
  induction 1 as [|x l k Hlk IH|x l k Hlk IH]; intros Hk; [done|..].
  - apply StronglySorted_inv in Hk as [Hk Hx]. constructor; [by apply IH|].
    apply Forall_forall. intros y Hy. rewrite Forall_forall in Hx. apply Hx. eapply elem_of_submseteq; [exact Hy|by apply sublist_submseteq].
  - apply StronglySorted_inv in Hk as [Hk _]. by apply IH.
Qed.

Lemma files_of_spec ns :
  NoDup (files_of ns) ∧ ∀ f, f ∈ files_of ns ↔ f ∈ n_file_path <$> ns.
Proof.
  unfold files_of.
  set (step := λ '(files, seen) n, if bool_decide (n_file_path n ∈ seen) then (files, seen)
    else (files ++ [n_file_path n], {[n_file_path n]} ∪ seen) : list string * gset string).
  assert (Hg : let '(files, seen) := foldl step ([], ∅) ns in
    NoDup files ∧ (∀ f, f ∈ files ↔ f ∈ seen) ∧ ∀ f, f ∈ files ↔ f ∈ n_file_path <$> ns).
  { induction ns as [|n ns IH] using rev_ind; cbn [foldl].
    { split; [constructor|]. set_solver. }
    rewrite foldl_snoc. destruct (foldl step ([], ∅) ns) as [files seen]. destruct IH as (Hnd & Hs & Hf).
    cbn [step]. case_bool_decide as Hin.
    - split; [done|split; [done|]]. intros f. rewrite fmap_app. set_solver.
    - split; [|split].
      + apply NoDup_app. split; [done|split; [|apply NoDup_singleton]]. set_solver.
      + set_solver.
      + intros f. rewrite fmap_app. set_solver. }
  destruct (foldl step ([], ∅) ns) as [files seen]. destruct Hg as (? & _ & ?). by split.
Qed.

(** ** The radius *)

(** The name of a node in one of the changed files. *)
Definition is_seed (s : GraphStore (F := F)) (files : list string) (q : string) : Prop :=
  ∃ r f, r ∈ nodes s ∧ f ∈ files ∧ file_path (vals r) ∈ file_key_candidates canonicalize s f ∧
         qualified_name (vals r) = q.

(** What a radius must say, [ranked] being the names within reach. *)
Record radius_ok (s : GraphStore (F := F)) (files : list string) (max_depth max_nodes : Z)
    (ranked : list (nat * string)) (r : ImpactRadius) : Prop := mkRadiusOk {
  (** The names at a distance of 1 to [max_depth] hops from a changed node. *)
  ro_within : ∀ k q, (k, q) ∈ ranked ↔
    distance (hop s) (is_seed s files) q k ∧ 0 < k ∧ (Z.of_nat k ≤ Z.max max_depth 0)%Z;
  ro_once : NoDup (snd <$> ranked);
  ro_sorted : StronglySorted (λ x y, depth_name_le x y = true) ranked;
  ro_total : total_impacted r = Z.of_nat (length ranked);
  ro_truncated : truncated r = bool_decide (max_nodes < total_impacted r)%Z;
  (** The impacted nodes are the stored ones of the first [max_nodes] names. *)
  ro_impacted : n_qualified_name <$> impacted_nodes r =
    filter (.∈ names (nodes s)) (snd <$> take (Z.to_nat max_nodes) ranked);
  ro_files : NoDup (impacted_files r) ∧
    ∀ f, f ∈ impacted_files r ↔ f ∈ n_file_path <$> impacted_nodes r;
  ro_changed : NoDup (n_qualified_name <$> changed_nodes r) ∧
    ∀ q, q ∈ n_qualified_name <$> changed_nodes r ↔ is_seed s files q;
  (** The edges among changed and impacted nodes. *)
  ro_edges : ∀ e, e ∈ radius_edges r ↔ ∃ row, row ∈ edges s ∧ edge_from_row row = inl e ∧
    ∀ q, q = g_source_qualified e ∨ q = g_target_qualified e →
      is_seed s files q ∨ q ∈ n_qualified_name <$> impacted_nodes r;
  ro_bridges : bridge_transitions r =
    bridge_transition_value <$> filter (λ e, is_reportable_bridge e = true) (radius_edges r)
}.

(** A bridge at a changed node that is no hard claim. *)
Definition is_caveat (s : GraphStore (F := F)) (files : list string) (e : GraphEdge) : Prop :=
  ∃ row, row ∈ edges s ∧ edge_from_row row = inl e ∧ is_low_confidence_bridge e = true ∧
    (is_seed s files (g_source_qualified e) ∨ is_seed s files (g_target_qualified e)).

Definition ends (e : GraphEdge) : string * string := (g_source_qualified e, g_target_qualified e).

(** The caveats of a radius: one for each pair of ends such bridges have. *)
Definition caveats_ok (s : GraphStore (F := F)) (files : list string) (r : ImpactRadius) : Prop :=
  ∃ es, low_confidence_bridges r = low_confidence_bridge_missingness <$> es ∧ NoDup (ends <$> es) ∧
    (∀ e, e ∈ es → is_caveat s files e) ∧ ∀ e, is_caveat s files e → ends e ∈ ends <$> es.

Lemma no_seed_no_caveat s files : (∀ q, ¬ is_seed s files q) → caveats_ok s files no_impact.
Proof.
  intros Hs. exists []. split; [done|]. split; [constructor|]. split; [by intros e ?%not_elem_of_nil|].
  intros e (row & _ & _ & _ & [Hq|Hq]); by apply Hs in Hq.
Qed.

Lemma add_caveat_eq seen cs row :
  add_caveat (seen, cs) row =
    match edge_from_row row with
    | inl e => if negb (is_low_confidence_bridge e) || bool_decide (ends e ∈ seen) then inl (seen, cs)
               else inl ({[ends e]} ∪ seen, cs ++ [low_confidence_bridge_missingness e])
    | inr err => inr err
    end.
Proof.
  unfold add_caveat, ends. destruct (edge_from_row row) as [e|err]; [|done]. cbn. by destruct (is_low_confidence_bridge e).
Qed.

Lemma add_caveats rows seen cs seen' cs' :
  try_fold add_caveat (seen, cs) rows = inl (seen', cs') →
  ∃ es, cs' = cs ++ (low_confidence_bridge_missingness <$> es) ∧ NoDup (ends <$> es) ∧
    (∀ e, e ∈ es → ends e ∉ seen ∧ is_low_confidence_bridge e = true ∧ ∃ row, row ∈ rows ∧ edge_from_row row = inl e) ∧
    ∀ row e, row ∈ rows → edge_from_row row = inl e → is_low_confidence_bridge e = true → ends e ∈ seen ∨ ends e ∈ ends <$> es.
Proof.
  revert seen cs. induction rows as [|row rows IH]; intros seen cs; cbn [try_fold].
  { intros [= <- <-]. exists []. rewrite app_nil_r. split; [done|]. split; [constructor|].
    split; [by intros e ?%not_elem_of_nil|]. intros row e Hr. by apply not_elem_of_nil in Hr. }
  rewrite add_caveat_eq. destruct (edge_from_row row) as [e|] eqn:He; [|done].
  assert (Hskip : is_low_confidence_bridge e = false ∨ ends e ∈ seen →
    try_fold add_caveat (seen, cs) rows = inl (seen', cs') →
    ∃ es, cs' = cs ++ (low_confidence_bridge_missingness <$> es) ∧ NoDup (ends <$> es) ∧
      (∀ e, e ∈ es → ends e ∉ seen ∧ is_low_confidence_bridge e = true ∧ ∃ r, r ∈ row :: rows ∧ edge_from_row r = inl e) ∧
      ∀ r e, r ∈ row :: rows → edge_from_row r = inl e → is_low_confidence_bridge e = true → ends e ∈ seen ∨ ends e ∈ ends <$> es).
  { intros Hold Hrun. destruct (IH seen cs Hrun) as (es & Hcs & Hnd & Hin & Hall). exists es. split; [done|]. split; [done|]. split.
    - intros x Hx. destruct (Hin x Hx) as (? & ? & r & Hr & ?). split_and!; [done..|]. exists r. split; [by right|done].
    - intros r x [->|Hr]%elem_of_cons Hp Hl; [|by eapply Hall]. left. destruct Hold as [Hf|?]; congruence. }
  destruct (is_low_confidence_bridge e) eqn:Hl; cbn [negb orb]; [|apply Hskip; by left].
  case_bool_decide as Hseen; [apply Hskip; by right|]. cbn [mbind result_bind rbind]. intros Hrun.
  destruct (IH _ _ Hrun) as (es & Hcs & Hnd & Hin & Hall). exists (e :: es). split; [by rewrite Hcs, <-app_assoc|]. split_and!.
  - rewrite fmap_cons. apply NoDup_cons. split; [|done]. intros (x & Hx & (Hn & _)%Hin)%list_elem_of_fmap. apply Hn.
    unfold ends in *. rewrite <-Hx. apply elem_of_union. left. by apply elem_of_singleton.
  - intros x [->|Hx]%elem_of_cons; [split_and!; [done..|]; exists row; split; [left|done]|].
    destruct (Hin x Hx) as (Hn & ? & r & Hr & ?). split; [set_solver|]. split; [done|]. exists r. split; [by right|done].
  - intros r x [->|Hr]%elem_of_cons Hp Hlx; rewrite fmap_cons, elem_of_cons; [right; left; congruence|].
    destruct (Hall r x Hr Hp Hlx) as [Hx|?]; [|tauto]. apply elem_of_union in Hx as [Hx%elem_of_singleton|?]; tauto.
Qed.

Lemma try_fold_chunks {A B C} (f : A → B → Result A) (g : C → list B) cs st :
  try_fold (λ st c, try_fold f st (g c)) st cs = try_fold f st (concat (g <$> cs)).
Proof.
  revert st. induction cs as [|c cs IH]; intros st; [done|]. rewrite fmap_cons. cbn [concat try_fold]. rewrite try_fold_app.
  destruct (try_fold f st (g c)); cbn; [apply IH|done].
Qed.

Lemma edge_from_row_ends row e :
  edge_from_row row = inl e →
  g_source_qualified e = source_qualified (e_vals row) ∧ g_target_qualified e = target_qualified (e_vals row).
Proof.
  unfold edge_from_row. destruct (parse_json_column _); cbn; [|done]. by intros [= <-].
Qed.

(** The rows chunked queries give. *)
Lemma chunked_elem {A} (P : A → list string → Prop) `{∀ a c, Decision (P a c)} (rows : list A) cs a :
  a ∈ concat ((λ c, unordered _ (filter (λ a, P a c) rows)) <$> cs) ↔ a ∈ rows ∧ ∃ c, c ∈ cs ∧ P a c.
Proof.
  rewrite list_elem_of_In, in_concat. split.
  - intros (l & Hl%list_elem_of_In & Ha%list_elem_of_In). apply list_elem_of_fmap in Hl as (c & -> & Hc).
    rewrite unordered_perm, list_elem_of_filter in Ha. destruct Ha. split; [done|]. by exists c.
  - intros [Ha (c & Hc & Hp)]. exists (unordered _ (filter (λ a, P a c) rows)). rewrite <-!list_elem_of_In. split.
    + apply list_elem_of_fmap. by exists c.
    + rewrite unordered_perm. by apply list_elem_of_filter.
Qed.

Lemma near_seeds_caveats s files seeds r :
  (∀ q, q ∈ seeds ↔ is_seed s files q) →
  low_confidence_bridges_near_seeds (@unordered) s seeds = inl (low_confidence_bridges r) → caveats_ok s files r.
Proof.
  intros Hq. unfold low_confidence_bridges_near_seeds. rewrite try_fold_chunks. set (rows := concat _).
  destruct (try_fold add_caveat (∅, []) rows) as [[seen cs]|] eqn:E; cbn [mbind result_bind rbind]; [|done].
  intros [= Hcs]. cbn [snd] in Hcs. destruct (add_caveats _ _ _ _ _ E) as (es & Hes & Hnd & Hin & Hall).
  assert (Hrows : ∀ row, row ∈ rows ↔ row ∈ edges s ∧ e_kind (e_vals row) = "CROSS_ARTIFACT" ∧
      (is_seed s files (source_qualified (e_vals row)) ∨ is_seed s files (target_qualified (e_vals row)))).
  { assert (Hc : ∀ q, q ∈ seeds ↔ ∃ c, c ∈ chunks 450 seeds ∧ q ∈ c).
    { intros q. rewrite <-(concat_chunks 450 seeds) at 1 by lia. rewrite list_elem_of_In, in_concat.
      by setoid_rewrite <-list_elem_of_In. }
    intros row. unfold rows. rewrite chunked_elem, <-!Hq, !Hc. split.
    - intros (Hr & c & Hcin & Hk & [H1|H1]); (split; [done|]); (split; [done|]); [left|right]; by exists c.
    - intros (Hr & Hk & [(c & Hcin & H1)|(c & Hcin & H1)]); (split; [done|]); exists c; split_and!; auto. }
  exists es. split; [by rewrite <-Hcs|]. split; [done|]. split.
  - intros e He. destruct (Hin e He) as (_ & Hl & row & (Hrow & _ & Hs)%Hrows & Hp). exists row.
    destruct (edge_from_row_ends _ _ Hp) as [-> ->]. done.
  - intros e (row & Hrow & Hp & Hl & Hs). destruct (Hall row e) as [?%not_elem_of_empty|?]; [|done..].
    destruct (edge_from_row_ends _ _ Hp) as [H1 H2]. rewrite H1, H2 in Hs. apply Hrows. split; [done|]. split; [|done].
    revert Hl Hp. unfold is_low_confidence_bridge, edge_from_row. destruct (is_cross_artifact e) eqn:Hx; [|done]. intros _.
    destruct (parse_json_column _); cbn; [|done]. intros [= <-]. by apply bool_decide_eq_true in Hx.
Qed.

Lemma no_seed_no_impact s files max_depth max_nodes :
  (0 ≤ max_nodes)%Z → (∀ q, ¬ is_seed s files q) → radius_ok s files max_depth max_nodes [] no_impact.
Proof.
  intros Hm Hs. split; cbn; try done.
  - intros k q. split; [by intros ?%not_elem_of_nil|]. intros [[(x & Hx & _) _] _]. by destruct (Hs x).
  - constructor.
  - constructor.
  - symmetry. apply bool_decide_eq_false. lia.
  - by rewrite take_nil.
  - split; [constructor|done].
  - split; [constructor|]. intros q. split; [by intros ?%not_elem_of_nil|]. intros Hq. by destruct (Hs q).
  - intros e. split; [by intros ?%not_elem_of_nil|]. intros (row & _ & _ & Hq).
    destruct (Hq (g_source_qualified e)) as [Hq'|Hq'%not_elem_of_nil]; [by left|by destruct (Hs _ Hq')|done].
Qed.

Lemma seeds_are_seeds (s : GraphStore (F := F)) files m q :
  store_ok s → get_nodes_by_files (@unordered) canonicalize s files = inl m →
  q ∈ seeds_of m files ↔ is_seed s files q.
Proof.
  intros Hs Hm. rewrite seeds_of_spec. unfold is_seed. split.
  - intros (f & n & Hf & Hn & <-).
    destruct (get_nodes_by_files_spec s files m f (proj1 (ok_nodes _ Hs)) Hm Hf) as (l & Hl & Hin & _).
    rewrite Hl in Hn. apply Hin in Hn as (r & Hr & Hrn & Hk). exists r, f.
    apply node_from_row_vals in Hrn as (_ & <- & _). done.
  - intros (r & f & Hr & Hf & Hk & <-).
    destruct (get_nodes_by_files_spec s files m f (proj1 (ok_nodes _ Hs)) Hm Hf) as (l & Hl & Hin & Hall).
    destruct (Hall r Hr Hk) as [n Hn]. exists f, n. rewrite Hl. split; [done|split].
    + apply Hin. by exists r.
    + by apply node_from_row_vals in Hn as (_ & -> & _).
Qed.

Lemma StronglySorted_map {A B} (f : A → B) (R : relation B) (l : list A) :
  StronglySorted (λ x y, R (f x) (f y)) l → StronglySorted R (f <$> l).
Proof.
  induction 1 as [|x l Hl IH Hx]; [constructor|]. rewrite fmap_cons. constructor; [done|].
  by apply Forall_fmap.
Qed.

Lemma StronglySorted_in {A} (P Q : relation A) (l : list A) :
  (∀ x y, x ∈ l → y ∈ l → P x y → Q x y) → StronglySorted P l → StronglySorted Q l.
Proof.
  intros Hpq. induction 1 as [|x l Hl IH Hx]; [constructor|]. constructor; [apply IH; set_solver|].
  apply Forall_forall. intros y Hy. rewrite Forall_forall in Hx. apply Hpq; set_solver.
Qed.

(** The nodes found for a page, once sorted, are the page's stored names. *)
Lemma page_names (s : GraphStore (F := F)) (page : list (nat * string)) found :
  let depth_of : gmap string nat := list_to_map ((λ p, (snd p, fst p)) <$> page) in
  let key n := (default 0 (depth_of !! n_qualified_name n), n_qualified_name n) in
  NoDup (names (nodes s)) → NoDup (snd <$> page) →
  StronglySorted (λ x y, depth_name_le x y = true) page →
  batch_get_nodes (@unordered) s (snd <$> page) = inl found →
  n_qualified_name <$> sort_by (λ x y, depth_name_le (key x) (key y)) found =
  filter (.∈ names (nodes s)) (snd <$> page).
Proof.
  intros depth_of key Hnames Hnd Hsorted Hfound.
  pose proof (batch_get_nodes_names s _ _ Hnames Hnd Hfound) as Hp.
  set (R := λ x y : string, depth_name_le (default 0 (depth_of !! x), x) (default 0 (depth_of !! y), y) = true).
  assert (Hdepth : ∀ k q, (k, q) ∈ page → depth_of !! q = Some k).
  { intros k q Hq. apply elem_of_list_to_map_1.
    - rewrite <-list_fmap_compose. exact Hnd.
    - apply list_elem_of_fmap. by exists (k, q). }
  apply (StronglySorted_unique_strong R).
  - intros x y _ _ Hxy Hyx. by injection (depth_name_antisym _ _ Hxy Hyx).
  - apply StronglySorted_map.
    apply (sort_by_sorted (λ x y, depth_name_le (key x) (key y))).
    + intros x y. apply depth_name_total.
    + intros x y z. apply depth_name_trans.
  - apply filter_sorted, StronglySorted_map. eapply StronglySorted_in; [|exact Hsorted].
    intros [i x] [j y] Hx Hy. cbn [snd]. unfold R. by rewrite (Hdepth _ _ Hx), (Hdepth _ _ Hy).
  - by rewrite sort_by_Permutation.
Qed.

Lemma get_impact_radius_ok (s : GraphStore (F := F)) files max_depth max_nodes r :
  store_ok s → (0 ≤ max_nodes)%Z →
  get_impact_radius (@unordered) canonicalize s files max_depth max_nodes = inl r →
  (∃ ranked, radius_ok s files max_depth max_nodes ranked r) ∧ caveats_ok s files r.
Proof.
  intros Hs Hm. unfold get_impact_radius. case_bool_decide as Hf.
  { intros [= <-]. assert (Hn : ∀ q, ¬ is_seed s files q).
    { subst files. by intros q (r & f & _ & ?%not_elem_of_nil & _). }
    split; [exists []; by apply no_seed_no_impact|by apply no_seed_no_caveat]. }
  destruct (get_nodes_by_files _ _ _ _) as [m|] eqn:Em; cbn [mbind result_bind rbind]; [|done].
  pose proof (seeds_are_seeds s files m) as Hseed. case_bool_decide as He.
  { intros [= <-]. assert (Hn : ∀ q, ¬ is_seed s files q).
    { intros q Hq. apply Hseed in Hq; [|done..]. rewrite He in Hq. set_solver. }
    split; [exists []; by apply no_seed_no_impact|by apply no_seed_no_caveat]. }
  cbv zeta. set (seed_list := sort_by String.leb (unordered _ (elements (seeds_of m files)))).
  assert (Hlist : ∀ q, q ∈ seed_list ↔ is_seed s files q).
  { intros q. unfold seed_list. rewrite elem_of_sort_by, unordered_perm, elem_of_elements. by apply Hseed. }
  assert (Hlnd : NoDup seed_list).
  { unfold seed_list. rewrite sort_by_Permutation, unordered_perm. apply NoDup_elements. }
  rewrite insert_impact_seeds_spec. set (table := ∅ ∪ list_to_set seed_list).
  assert (Htable : ∀ q, q ∈ table ↔ is_seed s files q) by (intros q; rewrite <-Hlist; set_solver).
  set (visited := expand_impact_levels s table max_depth).
  change (depth_by_qn visited max_nodes) with (limit max_nodes (ranked visited)).
  set (page := limit max_nodes (ranked visited)).
  assert (Hnames : NoDup (names (nodes s))) by apply (ok_nodes _ Hs).
  assert (Hpage : page `sublist_of` ranked visited) by apply limit_sublist.
  assert (Hpnd : NoDup (snd <$> page)).
  { eapply sublist_NoDup; [apply (ranked_names visited)|by apply fmap_sublist]. }
  assert (Hps : StronglySorted (λ x y, depth_name_le x y = true) page).
  { eapply StronglySorted_sublist; [done|apply ranked_sorted]. }
  destruct (batch_get_nodes _ s seed_list) as [changed|] eqn:Ec; cbn [mbind result_bind rbind]; [|done].
  destruct (batch_get_nodes _ s (snd <$> page)) as [found|] eqn:Ef; cbn [mbind result_bind rbind]; [|done].
  pose proof (page_names s page found Hnames Hpnd Hps Ef) as Himp. cbv zeta in Himp.
  set (impacted := sort_by _ found) in *.
  set (table' := if bool_decide (impacted = []) then _ else _).
  assert (Htable' : ∀ q, q ∈ table' ↔ is_seed s files q ∨ q ∈ n_qualified_name <$> impacted).
  { intros q. unfold table'. rewrite <-Htable. case_bool_decide as Hi; [rewrite Hi; set_solver|].
    rewrite insert_impact_seeds_spec, elem_of_union, elem_of_list_to_set. done. }
  destruct (try_map edge_from_row _) as [es|] eqn:Ee; cbn [mbind result_bind rbind]; [|done].
  destruct (low_confidence_bridges_near_seeds _ s seed_list) as [cs|] eqn:Eb; cbn [mbind result_bind rbind]; [|done].
  apply try_map_Permutation in Ee. pose proof (batch_get_nodes_names s _ _ Hnames Hlnd Ec) as Hch.
  intros [= <-]. split; [|by apply (near_seeds_caveats s files seed_list)]. exists (ranked visited).
  split; cbn [total_impacted truncated impacted_nodes impacted_files changed_nodes radius_edges bridge_transitions].
  - intros k q. rewrite elem_of_ranked. unfold visited. rewrite expand_impact_levels_spec.
    rewrite (distance_iff (hop s) (.∈ table) (is_seed s files) q k Htable). tauto.
  - apply ranked_names.
  - apply ranked_sorted.
  - by rewrite ranked_length.
  - apply eq_bool_prop_intro. rewrite !Is_true_true, Z.ltb_lt, bool_decide_eq_true. done.
  - rewrite Himp. unfold page, limit. case_if; [lia|done].
  - apply files_of_spec.
  - split; [rewrite Hch; by apply NoDup_filter|]. intros q. rewrite Hch, list_elem_of_filter, Hlist.
    split; [by intros [_ ?]|]. intros Hq. split; [|done]. destruct Hq as (r & f & Hr & _ & _ & <-).
    apply elem_of_names. by exists r.
  - intros e. split.
    + intros He'. destruct (Forall2_elem_of_r _ _ _ _ Ee He') as (row & Hrow & Hparse).
      rewrite unordered_perm, list_elem_of_filter in Hrow. destruct Hrow as [[H1 H2] Hrow].
      exists row. split; [done|split; [done|]]. apply edge_from_row_ends in Hparse as [-> ->].
      intros q [->| ->]; by apply Htable'.
    + intros (row & Hrow & Hparse & Hq). 
      assert (Hin : row ∈ unordered _ (filter (λ e, source_qualified (e_vals e) ∈ table' ∧
                       target_qualified (e_vals e) ∈ table') (edges s))).
      { rewrite unordered_perm, list_elem_of_filter. split; [|done].
        destruct (edge_from_row_ends _ _ Hparse) as [<- <-]. split; apply Htable', Hq; [by left|by right]. }
      destruct (Forall2_elem_of_l _ _ _ _ Ee Hin) as (e' & He' & Hparse'). by assert (e = e') as -> by congruence.
  - by rewrite collect_bridges.
Qed.

(** Every JSON column of the store parses. *)
Definition rows_parse (s : GraphStore (F := F)) : Prop :=
  (∀ r, r ∈ nodes s → ∃ n, node_from_row r = inl n) ∧
  (∀ e, e ∈ edges s → ∃ x, edge_from_row e = inl x).

Lemma try_fold_total {A B} (f : A → B → Result A) l a :
  (∀ a b, b ∈ l → ∃ a', f a b = inl a') → ∃ a', try_fold f a l = inl a'.
Proof.
  revert a. induction l as [|b l IH]; intros a Hf; cbn; [by exists a|].
  destruct (Hf a b) as [a' ->]; [by left|]. apply IH. intros x y Hy. apply Hf. by right.
Qed.

Lemma try_map_total {A B} (f : A → Result B) l :
  (∀ a, a ∈ l → ∃ b, f a = inl b) → ∃ bs, try_map f l = inl bs.
Proof.
  induction l as [|a l IH]; intros Hf; cbn; [by eexists|].
  destruct (Hf a) as [b ->]; [by left|]. destruct IH as [bs ->]; [intros x Hx; apply Hf; by right|].
  by eexists.
Qed.

Lemma batch_get_nodes_total (s : GraphStore (F := F)) qns :
  rows_parse s → ∃ out, batch_get_nodes (@unordered) s qns = inl out.
Proof.
  intros [Hn _]. apply try_fold_total. intros out chunk _.
  destruct (try_map_total node_from_row
    (unordered _ (filter (λ r, qualified_name (vals r) ∈ chunk) (nodes s)))) as [rows ->]; [|by eexists].
  intros r. rewrite unordered_perm, list_elem_of_filter. intros [_ Hr]. by apply Hn.
Qed.

Lemma get_impact_radius_total (s : GraphStore (F := F)) files max_depth max_nodes :
  rows_parse s →
  ∃ r, get_impact_radius (@unordered) canonicalize s files max_depth max_nodes = inl r.
Proof.
  intros Hp. unfold get_impact_radius. case_bool_decide; [by eexists|].
  assert (∃ m, get_nodes_by_files (@unordered) canonicalize s files = inl m) as [m ->].
  { unfold get_nodes_by_files. cbv zeta.
    match goal with |- ∃ m, mbind _ (try_fold ?f ?a ?l) = _ => destruct (try_fold_total f l a) as [st ->] end;
      [|by eexists].
    intros st chunk _. apply try_fold_total. intros st' r.
    rewrite unordered_perm, list_elem_of_filter. intros [_ Hr].
    destruct Hp as [Hn _]. destruct (Hn r Hr) as [n ->]. by eexists. }
  cbn [mbind result_bind rbind]. case_bool_decide; [by eexists|]. cbv zeta.
  match goal with |- context [batch_get_nodes _ s ?l] => destruct (batch_get_nodes_total s l Hp) as [x1 ->] end.
  cbn [mbind result_bind rbind].
  match goal with |- context [batch_get_nodes _ s ?l] => destruct (batch_get_nodes_total s l Hp) as [x2 ->] end.
  cbn [mbind result_bind rbind].
  match goal with |- context [try_map edge_from_row ?l] =>
    destruct (try_map_total edge_from_row l) as [x3 ->] end.
  { intros e. rewrite unordered_perm, list_elem_of_filter. intros [_ He]. by apply Hp. }
  cbn [mbind result_bind rbind]. unfold low_confidence_bridges_near_seeds.
  match goal with |- context [try_fold ?f ?a ?l] => destruct (try_fold_total f l a) as [x4 ->] end; [|by eexists].
  intros st chunk _. apply try_fold_total. intros [seen cs] e.
  rewrite unordered_perm, list_elem_of_filter. intros [_ He]. unfold add_caveat.
  destruct (proj2 Hp e He) as [x ->]. cbn [mbind result_bind rbind]. repeat case_match; by eexists.
Qed.

Lemma starts_with_lower p s :
  starts_with p s = true → starts_with (to_ascii_lower p) (to_ascii_lower s) = true.
Proof using Type.
  revert s. induction p as [|c p IH]; intros [|d s]; cbn; try done.
  destruct (Ascii.ascii_dec c d) as [->|]; [|done]. intros Hs. destruct (Ascii.ascii_dec _ _); [|done].
  by apply IH.
Qed.

Lemma unresolved_like s : unresolved s = true → like_prefix "<unresolved:" s = true.
Proof using Type. apply starts_with_lower. Qed.

(** The SQL of the impact walk against the classification of loaded edges. *)
Lemma sql_agrees row e :
  edge_from_row row = inl e → tier_written (e_vals row) →
  like_prefix "<unresolved:" (target_qualified (e_vals row)) = unresolved (target_qualified (e_vals row)) →
  reportable_bridge_sql (e_vals row) =
    negb (is_low_confidence_bridge e) &&
    negb (is_cross_artifact e && like_prefix "<unresolved:" (source_qualified (e_vals row))).
Proof using Type.
  clear unordered unordered_perm canonicalize.
  intros He [t Ht] Hl. unfold reportable_bridge_sql. unfold edge_from_row in He.
  destruct (parse_json_column _) as [x|]; cbn [mbind result_bind rbind] in He; [|done]. injection He as <-.
  set (e := mkGraphEdge _ _ _ _ _ _ _ _ _). assert (Hc : is_cross_artifact e = bool_decide (e_kind (e_vals row) = "CROSS_ARTIFACT")) by done.
  case_bool_decide as Hk.
  2:{ unfold is_low_confidence_bridge. by rewrite Hc. }
  rewrite (low_confidence_negb e Hc), Hc, Hl, Ht. cbn [negb orb andb]. rewrite negb_involutive. f_equal.
  destruct (unresolved (target_qualified (e_vals row))) eqn:Hu.
  - assert (Hr : is_reportable_bridge e = false).
    { unfold is_reportable_bridge, is_unresolved_target. cbn [e g_target_qualified]. rewrite Hu. by rewrite orb_true_r. }
    rewrite Hr. by rewrite andb_false_r.
  - rewrite (reportable_tier e Hc Hu). unfold confidence_tier_of. cbn [e g_confidence_tier]. rewrite Ht, from_raw_as_str.
    by destruct t.
Qed.

(** C12: The impact radius of changed files is what it says, and it is there unless
    some stored JSON is broken: a breadth-first walk both ways over the edges of
    the store that are no bridges, and the bridges the walk's SQL takes.  The names
    it ranks are exactly those whose shortest walk from a changed node takes one to
    [max_depth] hops, each once, by distance and then name; the total counts
    them, the impacted nodes are the stored ones among the first [max_nodes],
    in that order, whatever order the database returns rows in; and the edges
    are those among changed and impacted nodes.  The caveats are the
    low-confidence bridges at a changed node, one for each pair of ends.  A bridge
    whose tier the store wrote is walked exactly when it is not of low confidence
    and its source is resolved, so that a claim from an unresolved source to a
    resolved target is neither walked nor a caveat. *)
Theorem get_impact_radius_spec (s : GraphStore (F := F)) files max_depth max_nodes :
  store_ok s → (0 ≤ max_nodes)%Z →
  (rows_parse s → ∃ r, get_impact_radius (@unordered) canonicalize s files max_depth max_nodes = inl r) ∧
  (∀ r, get_impact_radius (@unordered) canonicalize s files max_depth max_nodes = inl r →
    (∃ ranked, radius_ok s files max_depth max_nodes ranked r) ∧ caveats_ok s files r) ∧
  (∀ row e, row ∈ edges s → edge_from_row row = inl e → tier_written (e_vals row) →
    like_prefix "<unresolved:" (target_qualified (e_vals row)) = unresolved (target_qualified (e_vals row)) →
    reportable_bridge_sql (e_vals row) =
      negb (is_low_confidence_bridge e) &&
      negb (is_cross_artifact e && like_prefix "<unresolved:" (source_qualified (e_vals row)))).
Proof.
  intros Hs Hm. split; [apply get_impact_radius_total|]. split.
  - intros r. by apply get_impact_radius_ok.
  - intros row e _. apply sql_agrees.
Qed.

(** No bridge is lost between the claim and the caveat output: an edge list
    splits into transitions, one for each reportable bridge, and caveats, one
    for each other bridge, in order, and a bridge is a caveat exactly when it is
    not a claim; other edges give neither. *)
Theorem collect_bridge_transitions_spec (es : list GraphEdge) :
  collect_bridge_transitions es =
    (bridge_transition_value <$> filter (λ e, is_reportable_bridge e = true) es,
     low_confidence_bridge_missingness <$> filter (λ e, is_low_confidence_bridge e = true) es) ∧
  ∀ e, is_reportable_bridge e || is_low_confidence_bridge e = is_cross_artifact e ∧
       is_reportable_bridge e && is_low_confidence_bridge e = false.
Proof using Type.
  clear unordered unordered_perm canonicalize.
  assert (Hc : ∀ e, is_cross_artifact e = false →
                    is_reportable_bridge e = false ∧ is_low_confidence_bridge e = false).
  { intros e He. unfold is_reportable_bridge, is_low_confidence_bridge. by rewrite He. }
  split.
  - rewrite collect_bridges. do 2 f_equal. apply list_filter_ext_in. intros e _.
    destruct (is_cross_artifact e) eqn:He.
    + rewrite low_confidence_negb by done. rewrite negb_true_iff. tauto.
    + destruct (Hc e He) as [-> ->]. split; [by intros [? _]|done].
  - intros e. destruct (is_cross_artifact e) eqn:He.
    + rewrite low_confidence_negb by done. by destruct (is_reportable_bridge e).
    + by destruct (Hc e He) as [-> ->].
Qed.

(** The three places that decide whether a bridge is a hard claim agree on
    every bridge the store wrote: the classification of loaded edges, the edges
    of flow tracing, and the SQL of the impact walk, but that the SQL also
    leaves out a bridge whose source is unresolved. *)
Theorem reportable_agrees row e :
  edge_from_row row = inl e → e_kind (e_vals row) = "CROSS_ARTIFACT" → tier_written (e_vals row) →
  like_prefix "<unresolved:" (target_qualified (e_vals row)) = unresolved (target_qualified (e_vals row)) →
  is_reportable_cross_artifact (target_qualified (e_vals row)) (Some (confidence_tier (e_vals row)))
    (Some (e_extra (e_vals row))) = is_reportable_bridge e ∧
  reportable_bridge_sql (e_vals row) =
    is_reportable_bridge e && negb (like_prefix "<unresolved:" (source_qualified (e_vals row))).
Proof using Type.
  clear unordered unordered_perm canonicalize.
  intros He Hk [t Ht] Hl. rewrite Ht, flow_reportable.
  assert (Hb : is_reportable_bridge e = negb (unresolved (target_qualified (e_vals row))) &&
                 bool_decide (as_str t ∈ REPORTABLE_CONFIDENCE_TIERS)).
  { unfold edge_from_row in He. destruct (parse_json_column _) as [x|]; cbn [mbind result_bind rbind] in He; [|done].
    injection He as <-. destruct (unresolved (target_qualified (e_vals row))) eqn:Hu.
    - unfold is_reportable_bridge, is_unresolved_target. cbn [g_target_qualified]. rewrite Hu.
      by rewrite orb_true_r.
    - rewrite reportable_tier; [|by apply bool_decide_eq_true|exact Hu].
      unfold confidence_tier_of. cbn [g_confidence_tier]. by rewrite Ht, from_raw_as_str. }
  split; [by rewrite Hb|]. rewrite Hb. unfold reportable_bridge_sql.
  rewrite Hl, Ht, bool_decide_eq_true_2 by done. cbn [negb orb].
  destruct (unresolved _), t; cbn; done.
Qed.

(** ** Flow edges *)

(** An edge flow tracing follows. *)
Definition traced (node_qns : gset string) (v : EdgeVals) : Prop :=
  e_kind v = "CALLS" ∨
  (e_kind v = "CROSS_ARTIFACT" ∧ target_qualified v ∈ node_qns ∧
   is_reportable_cross_artifact (target_qualified v) (Some (confidence_tier v)) (Some (e_extra v)) = true).

#[global] Instance traced_dec q v : Decision (traced q v).
Proof. unfold traced. apply _. Defined.

Lemma flow_edge_step node_qns calls tested v :
  flow_edge node_qns (calls, tested) v =
  (if decide (traced node_qns v) then push_call calls (source_qualified v) (target_qualified v) else calls,
   if decide (e_kind v = "TESTED_BY") then {[source_qualified v]} ∪ tested else tested).
Proof using Type.
  clear unordered unordered_perm canonicalize.
  unfold flow_edge, traced. case_bool_decide as Hc.
  { rewrite decide_True by (by left). by rewrite decide_False by congruence. }
  case_bool_decide as Ht.
  { rewrite decide_False by (intros [?|[? _]]; congruence). by rewrite decide_True. }
  rewrite (decide_False (P := e_kind v = "TESTED_BY")) by done.
  case_match eqn:E.
  - apply andb_true_iff in E as [[E1 E2]%andb_true_iff E3]. bool_to_prop. rewrite decide_True; [done|]. by right.
  - rewrite decide_False; [done|]. intros [?|(H1 & H2 & H3)]; [done|].
    rewrite H3, !bool_decide_eq_true_2 in E by done. done.
Qed.

(** The kinds the query names are those that matter. *)
Lemma flow_edges_all node_qns es st :
  foldl (λ st e, flow_edge node_qns st (e_vals e)) st
    (filter (λ e, e_kind (e_vals e) ∈ ["CALLS"; "TESTED_BY"; "CROSS_ARTIFACT"]) es) =
  foldl (λ st e, flow_edge node_qns st (e_vals e)) st es.
Proof using Type.
  clear unordered unordered_perm canonicalize.
  revert st. induction es as [|e es IH]; intros st; [done|]. rewrite filter_cons. case_decide as Hk; cbn [foldl].
  - apply IH.
  - rewrite IH. f_equal. destruct st as [calls tested]. rewrite flow_edge_step.
    rewrite !decide_False; [done| |]; [intros Ht|intros [Ht|[Ht _]]]; apply Hk; rewrite Ht; set_solver.
Qed.

(** Flow tracing gets, for each node, the targets of its calls and of its
    bridges that are hard claims to stored nodes, in the order of the edge
    table, and the sources of TESTED_BY edges; nothing else. *)
Theorem get_flow_edge_data_spec (s : GraphStore (F := F)) q :
  let data := get_flow_edge_data s in
  let node_qns : gset string := list_to_set (names (nodes s)) in
  default [] (data.1 !! q) =
    target_qualified ∘ e_vals <$>
      filter (λ e, source_qualified (e_vals e) = q ∧ traced node_qns (e_vals e)) (edges s) ∧
  (q ∈ data.2 ↔ ∃ e, e ∈ edges s ∧ e_kind (e_vals e) = "TESTED_BY" ∧ source_qualified (e_vals e) = q).
Proof using Type.
  clear unordered unordered_perm canonicalize.
  cbv zeta. unfold get_flow_edge_data. change (qualified_name ∘ vals <$> nodes s) with (names (nodes s)).
  rewrite flow_edges_all. set (qns := list_to_set (names (nodes s)) : gset string).
  induction (edges s) as [|e es IH] using rev_ind.
  { split; [done|]. split; [set_solver|]. by intros (? & ?%not_elem_of_nil & _). }
  rewrite foldl_snoc, filter_app, fmap_app, filter_cons, filter_nil.
  destruct (foldl _ (∅, ∅) es) as [calls tested]. rewrite flow_edge_step. cbn [fst snd] in *.
  destruct IH as [IH1 IH2]. split.
  - rewrite <-IH1. case_decide as Ht.
    + unfold push_call. destruct (decide (source_qualified (e_vals e) = q)) as [<-|Hq].
      * by rewrite lookup_insert_eq, decide_True.
      * by rewrite lookup_insert_ne, decide_False, app_nil_r by naive_solver.
    + rewrite decide_False by naive_solver. by rewrite app_nil_r.
  - setoid_rewrite elem_of_app. setoid_rewrite list_elem_of_singleton.
    case_decide as Hk; [rewrite elem_of_union, elem_of_singleton|]; rewrite IH2; naive_solver.
Qed.

(** ** Absolute paths *)

Lemma split_slash_cons s : ∃ p ps, split_slash s = p :: ps.
Proof using Type.
  induction s as [|c s (p & ps & IH)]; cbn; [by eexists _, _|].
  case_bool_decide; [by eexists _, _|]. rewrite IH. by eexists _, _.
Qed.

Lemma split_slash_step c s :
  split_slash (String c s) =
  if bool_decide (c = Ascii.ascii_of_nat 47) then "" :: split_slash s
  else match split_slash s with p :: ps => String c p :: ps | [] => [] end.
Proof using Type. done. Qed.

Lemma split_slash_app a b : split_slash (a +:+ "/" +:+ b) = split_slash a ++ split_slash b.
Proof using Type.
  induction a as [|c a IH]; [done|].
  change (String c a +:+ "/" +:+ b) with (String c (a +:+ "/" +:+ b)).
  rewrite !split_slash_step, IH. case_bool_decide; [done|].
  by destruct (split_slash_cons a) as (p & ps & ->).
Qed.

Lemma join_split_slash s : join_slash (split_slash s) = s.
Proof using Type.
  induction s as [|c s IH]; [done|]. rewrite split_slash_step.
  destruct (split_slash_cons s) as (p & ps & E). rewrite E in IH |- *. case_bool_decide as Hc.
  - subst c. change (join_slash ("" :: p :: ps)) with ("/" +:+ join_slash (p :: ps)). by rewrite IH.
  - destruct ps as [|q ps].
    + change (join_slash [String c p]) with (String c (join_slash [p])). by rewrite IH.
    + change (join_slash (String c p :: q :: ps)) with (String c (join_slash (p :: q :: ps))). by rewrite IH.
Qed.

Lemma drop_skipped_none qs : Forall (λ p, skipped p = false) qs → drop_skipped qs = qs.
Proof using Type. destruct 1 as [|q qs Hq _]; cbn; [done|]. by rewrite Hq. Qed.

Lemma strip_parts_spec ps qs :
  Forall (λ p, skipped p = false) qs →
  ∃ rest, strip_parts (filter (λ p, skipped p = false) ps) (ps ++ qs) = Some rest ∧ drop_skipped rest = qs.
Proof using Type.
  intros Hq. induction ps as [|p ps (rest & Hs & Hd)].
  { exists qs. split; [done|]. by apply drop_skipped_none. }
  rewrite filter_cons. destruct (skipped p) eqn:Ep.
  - rewrite decide_False by done. destruct (filter _ ps) as [|b bs] eqn:Ef.
    + exists (p :: ps ++ qs). split; [done|]. cbn. rewrite Ep. cbn in Hs. injection Hs as <-. done.
    + exists rest. split; [|done]. revert Hs. cbn. by rewrite Ep.
  - rewrite decide_True by done. exists rest. split; [|done]. cbn. rewrite Ep.
    by rewrite bool_decide_eq_true_2.
Qed.

Lemma prefix_cons d t c s :
  String.prefix (String d t) (String c s) = if Ascii.ascii_dec d c then String.prefix t s else false.
Proof using Type. done. Qed.

Lemma is_absolute_cons c s : is_absolute (String c s) = true ↔ Ascii.ascii_of_nat 47 = c.
Proof using Type.
  unfold is_absolute, starts_with. rewrite prefix_cons. destruct (Ascii.ascii_dec _ c) as [<-|Hc].
  - by destruct s.
  - split; [done|]. intros Heq. by destruct Hc.
Qed.

(** A file given by its absolute path is looked up under the repository's:
    below the recorded root, whatever stray slashes and dots the root is written
    with, the key is the path relative to the root. *)
Theorem normalize_file_path_key_relative (s : GraphStore (F := F)) root rel :
  get_metadata "repo_root" s = Some root → is_absolute root = true →
  Forall (λ p, skipped p = false) (split_slash rel) →
  normalize_file_path_key canonicalize s (root +:+ "/" +:+ rel) = rel ∧
  (is_absolute rel = false → normalize_file_path_key canonicalize s rel = rel).
Proof using Type.
  clear unordered_perm.
  intros Hroot Habs Hrel. split; [|intros Hr; unfold normalize_file_path_key; by rewrite Hr].
  unfold normalize_file_path_key. assert (Ha : is_absolute (root +:+ "/" +:+ rel) = true).
  { destruct root as [|c root]; [done|]. apply is_absolute_cons in Habs. by apply is_absolute_cons. }
  rewrite Ha, Hroot. cbn [negb]. unfold strip_prefix. rewrite Habs, split_slash_app.
  destruct (strip_parts_spec (split_slash root) _ Hrel) as (rest & -> & Hd). cbn [mbind option_bind].
  rewrite Hd. unfold drop_skipped_end. rewrite drop_skipped_none by (by apply Forall_rev).
  by rewrite rev_involutive, join_split_slash.
Qed.

End impact_spec.
(** ** The theorems at work *)

#[local] Existing Instance text_json.

Definition in_order (A : Type) (l : list A) : list A := l.
Definition no_links (path : string) : option string := None.

Lemma in_order_perm (A : Type) (l : list A) : in_order A l ≡ₚ l.
Proof. done. Qed.

Definition call (source target : string) : EdgeInput := mkEdgeInput "CALLS" source target "s.py" 1 "null".
Definition func (name path : string) : NodeInput :=
  mkNodeInput "Function" name path 1 2 "python" None None None None false "null".

(** The graph of the tests in impact_radius.rs. *)
Definition radius_batch : list (FileBatchItem NodeInput EdgeInput) :=
  [mkItem _ _ "s.py" [func "f" "s.py"]
     [call "s.py::f" "b.py::b"; mkEdgeInput "CROSS_ARTIFACT" "s.py::f" "<unresolved:z>" "s.py" 1 "null"] "s" 0;
   mkItem _ _ "a.py" [func "a" "a.py"] [call "a.py::a" "s.py::f"; call "a.py::a" "c.py::c"] "a" 0;
   mkItem _ _ "b.py" [func "b" "b.py"] [call "b.py::b" "c.py::c"] "b" 0;
   mkItem _ _ "c.py" [func "c" "c.py"] [call "c.py::c" "d.py::d"] "c" 0;
   mkItem _ _ "d.py" [func "d" "d.py"] [] "d" 0].

Definition radius_store : GraphStore (F := unit) :=
  set_metadata "repo_root" "/work/repo/"
    (store_file_batch no_text one "now" radius_batch (new_store true)).1.

Lemma radius_store_ok : store_ok radius_store.
Proof.
  assert (Hb : batch_ok radius_batch).
  { split; [apply (bool_decide_unpack _); by vm_compute|].
    intros item n Hi Hn. repeat (apply elem_of_cons in Hi as [->|Hi];
      [cbn in Hn; first [by apply list_elem_of_singleton in Hn as -> | by apply not_elem_of_nil in Hn]|]).
    by apply not_elem_of_nil in Hi. }
  apply (write_step_ok no_text _ _ (write_metadata _ _ _ _)).
  apply (write_step_ok no_text _ _ (write_batch _ one "now" radius_batch _ Hb)). apply new_store_ok.
Qed.

Lemma get_impact_radius_spec_witness :
  store_ok radius_store ∧
  ∃ r ranked, get_impact_radius in_order no_links radius_store ["/work/repo/s.py"] 2 50 = inl r ∧
    radius_ok no_links radius_store ["/work/repo/s.py"] 2 50 ranked r.
Proof.
  split; [exact radius_store_ok|].
  destruct (get_impact_radius_spec in_order no_links in_order_perm radius_store ["/work/repo/s.py"] 2 50
    radius_store_ok ltac:(lia)) as (_ & Hr & _).
  destruct (get_impact_radius in_order no_links radius_store ["/work/repo/s.py"] 2 50) as [r|e] eqn:E.
  - destruct (Hr r eq_refl) as [[ranked Hok] _]. exists r, ranked. exact (conj eq_refl Hok).
  - exfalso. revert E. vm_compute. done.
Defined.

(** What the tests expect. *)
Example radius_names :
  match get_impact_radius in_order no_links radius_store ["/work/repo/s.py"] 2 50 with
  | inl r => n_qualified_name <$> impacted_nodes r = ["a.py::a"; "b.py::b"; "c.py::c"] ∧
             impacted_files r = ["a.py"; "b.py"; "c.py"] ∧ length (low_confidence_bridges r) = 1
  | inr _ => False
  end.
Proof. by vm_compute. Qed.

Definition bridge_row (source target tier : string) : EdgeRow :=
  mkEdgeRow 1 (mkEdgeVals "CROSS_ARTIFACT" source target target "README.md" 3 "{}" one tier one).

Lemma reportable_agrees_witness :
  ∃ e, edge_from_row (bridge_row "README.md" "app.py::main" "HIGH") = inl e ∧
       reportable_bridge_sql (e_vals (bridge_row "README.md" "app.py::main" "HIGH")) =
         is_reportable_bridge e && true.
Proof.
  eexists. split; [reflexivity|].
  refine (proj2 (reportable_agrees (bridge_row "README.md" "app.py::main" "HIGH") _ eq_refl eq_refl _ _)).
  - by exists High.
  - reflexivity.
Defined.

(** A hard claim with an unresolved source: neither walked nor a caveat. *)
Example unresolved_source_bridge :
  ∃ e, edge_from_row (bridge_row "<unresolved:cli>" "app.py::main" "HIGH") = inl e ∧
    is_reportable_bridge e = true ∧ is_low_confidence_bridge e = false ∧
    reportable_bridge_sql (e_vals (bridge_row "<unresolved:cli>" "app.py::main" "HIGH")) = false.
Proof. eexists. split; [reflexivity|by vm_compute]. Qed.

Lemma normalize_file_path_key_relative_witness :
  get_metadata "repo_root" radius_store = Some "/work/repo/" ∧
  normalize_file_path_key no_links radius_store "/work/repo//src/a.py" = "src/a.py".
Proof.
  split; [reflexivity|].
  refine (proj1 (normalize_file_path_key_relative no_links radius_store "/work/repo/" "src/a.py" _ _ _)).
  - reflexivity.
  - reflexivity.
  - repeat constructor.
Defined.

End ImpactSpec.
