(* ===== verification/CycleCut.v ===== *)
(** * The imports to cut

    Models [cycle_cut] of crates/dagayn-tools/src/arch_findings.rs: an
    Eades-Lin-Smyth order of the modules of an import cycle, and the imports
    that point backwards in it.  [None] is the panic of indexing a map by an
    absent key. *)
From S2P Require Import Prelude Graphs.
Import Graphs.

Module CycleCut.

(** An import: its two modules and the lines it stands on. *)
Definition import : Type := (string * string) * list Z.

Section cut.
Context (inner : list import).

(** Source: crates/dagayn-tools/src/arch_findings.rs 252-257 [cycle_cut]. *)
Definition weight (from to : string) : nat :=
  match list_find (λ i, fst i = (from, to)) inner with
  | Some (_, (_, lines)) => length lines
  | None => 0
  end.

(** [members] and [remaining] are sets in ascending order.

    Source: crates/dagayn-tools/src/arch_findings.rs 260-271 [cycle_cut]. *)
Definition degree (node : string) (remaining : list string) (outgoing : bool) : nat :=
  sum_list_with (λ other, if outgoing then weight node other else weight other node) remaining.

Definition remove (x : string) (l : list string) : list string := filter (.≠ x) l.

(** The modules to place, and those placed at either end. *)
Record state := mkState { remaining : list string; head : list string; tail : list string }.

Definition first_with (p : string → bool) (l : list string) : option string :=
  snd <$> list_find (λ x, p x = true) l.

(** Source: crates/dagayn-tools/src/arch_findings.rs 276-284 [cycle_cut]. *)
Definition take_sink (s : state) : state * bool :=
  match first_with (λ node, degree node (remaining s) true =? 0) (remaining s) with
  | Some sink => (mkState (remove sink (remaining s)) (head s) (tail s ++ [sink]), true)
  | None => (s, false)
  end.

(** Source: crates/dagayn-tools/src/arch_findings.rs 285-293 [cycle_cut]. *)
Definition take_source (s : state) : state * bool :=
  match first_with (λ node, degree node (remaining s) false =? 0) (remaining s) with
  | Some source => (mkState (remove source (remaining s)) (head s ++ [source]) (tail s), true)
  | None => (s, false)
  end.

(** Until a round changes nothing; every round but the last takes a module.

    Source: crates/dagayn-tools/src/arch_findings.rs 273-294 [cycle_cut]. *)
Fixpoint peel (fuel : nat) (s : state) : state :=
  match fuel with
  | 0 => s
  | S fuel =>
      let '(s, sink) := take_sink s in
      let '(s, source) := take_source s in
      if sink || source then peel fuel s else s
  end.

Definition score (remaining : list string) (node : string) : Z :=
  Z.of_nat (degree node remaining true) - Z.of_nat (degree node remaining false).

(** [max_by]'s comparison: by score, then the smaller name; the later of equals.

    Source: crates/dagayn-tools/src/arch_findings.rs 295-300 [cycle_cut]. *)
Definition better (remaining : list string) (x y : string) : string :=
  match (score remaining x ?= score remaining y)%Z with
  | Lt => y
  | Eq => if String.leb y x then y else x
  | Gt => x
  end.

Definition best (remaining : list string) : option string :=
  match remaining with
  | [] => None
  | x :: rest => Some (foldl (better remaining) x rest)
  end.

(** Source: crates/dagayn-tools/src/arch_findings.rs 295-303 [cycle_cut]. *)
Definition take_best (s : state) : state :=
  match best (remaining s) with
  | Some b => mkState (remove b (remaining s)) (head s ++ [b]) (tail s)
  | None => s
  end.

(** Source: crates/dagayn-tools/src/arch_findings.rs 272-304 [cycle_cut]. *)
Fixpoint place (fuel : nat) (s : state) : state :=
  match fuel with
  | 0 => s
  | S fuel =>
      match remaining s with
      | [] => s
      | _ => place fuel (take_best (peel (S (length (remaining s))) s))
      end
  end.

(** Source: crates/dagayn-tools/src/arch_findings.rs 258-306 [cycle_cut]. *)
Definition cut_order (members : list string) : list string :=
  let s := place (length members) (mkState members [] []) in
  head s ++ rev (tail s).

(** Source: crates/dagayn-tools/src/arch_findings.rs 307-307 [cycle_cut]. *)
Definition position (order : list string) (x : string) : option nat :=
  fst <$> list_find (.= x) order.

(** Source: crates/dagayn-tools/src/arch_findings.rs 308-315 [cycle_cut]. *)
Fixpoint backward (order : list string) (imports : list import) : option (list (string * string * Z)) :=
  match imports with
  | [] => Some []
  | ((from, to), lines) :: imports =>
      i ← position order from;
      j ← position order to;
      rest ← backward order imports;
      Some ((if j <? i then (λ line, (from, to, line)) <$> lines else []) ++ rest)
  end.

(** Source: crates/dagayn-tools/src/arch_findings.rs 248-317 [cycle_cut]. *)
Definition cycle_cut (members : list string) : option (list (string * string * Z)) :=
  backward (cut_order members) inner.

(** ** The weight of an order *)

Lemma sum_perm (f : string → nat) l k : l ≡ₚ k → sum_list_with f l = sum_list_with f k.
Proof. induction 1; simpl; lia. Qed.

Lemma sum_ext (f g : string → nat) l :
  (∀ x, x ∈ l → f x = g x) → sum_list_with f l = sum_list_with g l.
Proof.
  induction l as [|x l IH]; intros Hfg; [done|]. simpl. rewrite (Hfg x) by set_solver.
  rewrite IH; [done|]. intros y Hy. apply Hfg. set_solver.
Qed.

Lemma sum_add (f g : string → nat) l :
  sum_list_with (λ x, f x + g x) l = sum_list_with f l + sum_list_with g l.
Proof. induction l; simpl; lia. Qed.

Lemma sum_lt (f g : string → nat) l :
  l ≠ [] → (∀ x, x ∈ l → f x < g x) → sum_list_with f l < sum_list_with g l.
Proof.
  intros Hl Hfg. destruct l as [|x l]; [done|]. clear Hl. revert x Hfg.
  induction l as [|y l IH]; intros x Hfg; simpl in *.
  - specialize (Hfg x ltac:(set_solver)). lia.
  - specialize (IH y ltac:(intros z Hz; apply Hfg; set_solver)). specialize (Hfg x ltac:(set_solver)). lia.
Qed.

Section weights.
Context (W : string → string → nat).

(** What points backwards in an order, and all there is among some modules. *)
Fixpoint back (l : list string) : nat :=
  match l with
  | [] => 0
  | x :: rest => sum_list_with (λ y, W y x) rest + back rest
  end.

Definition total (l : list string) : nat := sum_list_with (λ x, sum_list_with (W x) l) l.

Lemma total_perm l k : l ≡ₚ k → total l = total k.
Proof.
  intros Hp. unfold total. rewrite (sum_perm _ _ _ Hp). apply sum_ext. intros x _. by apply sum_perm.
Qed.

Lemma total_cons x l :
  total (x :: l) = W x x + sum_list_with (W x) l + sum_list_with (λ y, W y x) l + total l.
Proof. unfold total. simpl. rewrite sum_add. lia. Qed.

Lemma back_snoc l x : back (l ++ [x]) = back l + sum_list_with (W x) l.
Proof.
  induction l as [|y l IH]; simpl; [done|]. rewrite IH, sum_list_with_app. simpl. lia.
Qed.

(** All outgoing weight is all incoming weight. *)
Lemma total_swap l : sum_list_with (λ x, sum_list_with (λ y, W y x) l) l = total l.
Proof.
  unfold total. assert (Hg : ∀ k, sum_list_with (λ x, sum_list_with (λ y, W y x) k) l =
    sum_list_with (λ y, sum_list_with (W y) l) k).
  { induction l as [|x l IH]; intros k; simpl; [by induction k|]. by rewrite IH, <-sum_add. }
  apply Hg.
Qed.

End weights.

(** ** Placing the modules *)

Lemma first_with_Some p l x : first_with p l = Some x → x ∈ l ∧ p x = true.
Proof.
  unfold first_with. destruct (list_find _ l) as [[i y]|] eqn:E; cbn; [|done]. intros [= <-].
  apply list_find_Some in E as (Hi & Hp & _). split; [by eapply list_elem_of_lookup_2|done].
Qed.

Lemma remove_Permutation x l : NoDup l → x ∈ l → l ≡ₚ x :: remove x l.
Proof.
  intros Hnd Hx. unfold remove. apply NoDup_Permutation; [done| |].
  - constructor; [|by apply NoDup_filter]. rewrite list_elem_of_filter. naive_solver.
  - intros y. rewrite elem_of_cons, list_elem_of_filter. destruct (decide (y = x)); naive_solver.
Qed.

Lemma remove_NoDup x l : NoDup l → NoDup (remove x l).
Proof. apply NoDup_filter. Qed.

(** From one state to a later one: what was placed, and that an order of the
    rest of weight at most half gives one of the whole. *)
Definition places (s s' : state) : Prop :=
  NoDup (remaining s') ∧ ∃ l1 l2, head s' = head s ++ l1 ∧ tail s' = tail s ++ l2 ∧
    remaining s ≡ₚ remaining s' ++ l1 ++ l2 ∧
    ∀ order, order ≡ₚ remaining s' → 2 * back weight order ≤ total weight (remaining s') →
      2 * back weight (l1 ++ order ++ rev l2) ≤ total weight (remaining s).

Lemma places_refl s : NoDup (remaining s) → places s s.
Proof.
  intros Hnd. split; [done|]. exists [], []. rewrite !app_nil_r. split; [done|split; [done|split; [done|]]].
  intros order _. by rewrite app_nil_l, app_nil_r.
Qed.

Lemma places_trans s1 s2 s3 : places s1 s2 → places s2 s3 → places s1 s3.
Proof.
  intros [_ (a1 & a2 & Ha1 & Ha2 & Hpa & Ha)] [Hnd (b1 & b2 & Hb1 & Hb2 & Hpb & Hb)].
  split; [done|]. exists (a1 ++ b1), (a2 ++ b2). rewrite Hb1, Hb2, Ha1, Ha2, <-!app_assoc.
  split; [done|split; [done|split]].
  - rewrite Hpa, Hpb. solve_Permutation.
  - intros order Ho Hw. rewrite rev_app_distr.
    replace ((a1 ++ b1) ++ order ++ rev b2 ++ rev a2) with (a1 ++ (b1 ++ order ++ rev b2) ++ rev a2)
      by (by rewrite <-!app_assoc).
    apply Ha; [|by apply Hb]. rewrite Hpb, Ho, <-Permutation_rev. solve_Permutation.
Qed.

Lemma degree_out x l :
  NoDup l → x ∈ l → degree x l true = weight x x + sum_list_with (weight x) (remove x l).
Proof. intros Hnd Hx. unfold degree. by rewrite (sum_perm _ _ _ (remove_Permutation x l Hnd Hx)). Qed.

Lemma degree_in x l :
  NoDup l → x ∈ l → degree x l false = weight x x + sum_list_with (λ y, weight y x) (remove x l).
Proof. intros Hnd Hx. unfold degree. by rewrite (sum_perm _ _ _ (remove_Permutation x l Hnd Hx)). Qed.

Lemma total_remove x l :
  NoDup l → x ∈ l →
  total weight l = weight x x + sum_list_with (weight x) (remove x l) +
                   sum_list_with (λ y, weight y x) (remove x l) + total weight (remove x l).
Proof.
  intros Hnd Hx. rewrite (total_perm _ _ _ (remove_Permutation x l Hnd Hx)). apply total_cons.
Qed.

(** A module without imports into the rest goes last, at no cost. *)
Lemma place_last s x :
  NoDup (remaining s) → x ∈ remaining s → degree x (remaining s) true = 0 →
  places s (mkState (remove x (remaining s)) (head s) (tail s ++ [x])).
Proof.
  intros Hnd Hx Hd. split; [by apply remove_NoDup|]. exists [], [x]. cbn [remaining head tail app rev].
  split; [by rewrite app_nil_r|split; [done|split]].
  - rewrite (remove_Permutation x _ Hnd Hx) at 1. solve_Permutation.
  - intros order Ho Hw. rewrite back_snoc, (total_remove x _ Hnd Hx).
    rewrite degree_out in Hd by done. rewrite (sum_perm _ _ _ Ho). lia.
Qed.

(** A module whose imports into the rest weigh at least those out of it goes
    first, and costs at most half of what it takes away. *)
Lemma place_first s x :
  NoDup (remaining s) → x ∈ remaining s →
  degree x (remaining s) false ≤ degree x (remaining s) true ∨ degree x (remaining s) false = 0 →
  places s (mkState (remove x (remaining s)) (head s ++ [x]) (tail s)).
Proof.
  intros Hnd Hx Hd. split; [by apply remove_NoDup|]. exists [x], []. cbn [remaining head tail app rev].
  split; [done|split; [by rewrite app_nil_r|split]].
  - rewrite (remove_Permutation x _ Hnd Hx) at 1. solve_Permutation.
  - intros order Ho Hw. rewrite app_nil_r, (total_remove x _ Hnd Hx).
    rewrite degree_out, degree_in in Hd by done. cbn [back app]. rewrite (sum_perm _ _ _ Ho). lia.
Qed.

Lemma take_sink_places s : NoDup (remaining s) → places s (take_sink s).1.
Proof.
  intros Hnd. unfold take_sink. destruct (first_with _ _) as [x|] eqn:E; cbn; [|by apply places_refl].
  apply first_with_Some in E as [Hx Hd]. bool_to_prop. by apply place_last.
Qed.

Lemma take_source_places s : NoDup (remaining s) → places s (take_source s).1.
Proof.
  intros Hnd. unfold take_source. destruct (first_with _ _) as [x|] eqn:E; cbn; [|by apply places_refl].
  apply first_with_Some in E as [Hx Hd]. bool_to_prop. apply place_first; [done|done|by right].
Qed.

Lemma peel_places fuel s : NoDup (remaining s) → places s (peel fuel s).
Proof.
  revert s. induction fuel as [|fuel IH]; intros s Hnd; cbn [peel]; [by apply places_refl|].
  pose proof (take_sink_places s Hnd) as H1. destruct (take_sink s) as [s1 b1]. cbn [fst] in H1.
  pose proof (take_source_places s1 (proj1 H1)) as H2. destruct (take_source s1) as [s2 b2]. cbn [fst] in H2.
  assert (H12 := places_trans _ _ _ H1 H2).
  destruct (b1 || b2); [|done]. eapply places_trans; [exact H12|]. apply IH, H12.
Qed.

Lemma better_spec R x y :
  (better R x y = x ∨ better R x y = y) ∧
  (score R x ≤ score R (better R x y))%Z ∧ (score R y ≤ score R (better R x y))%Z.
Proof.
  unfold better. destruct (Z.compare_spec (score R x) (score R y)); [destruct (String.leb y x)|..];
    (split; [tauto|lia]).
Qed.

Lemma best_spec R : R ≠ [] → ∃ b, best R = Some b ∧ b ∈ R ∧ ∀ x, x ∈ R → (score R x ≤ score R b)%Z.
Proof.
  destruct R as [|x R]; [done|]. intros _. unfold best. set (R0 := x :: R). eexists. split; [done|].
  assert (Hg : ∀ l y, (foldl (better R0) y l = y ∨ foldl (better R0) y l ∈ l) ∧
    (score R0 y ≤ score R0 (foldl (better R0) y l))%Z ∧
    ∀ z, z ∈ l → (score R0 z ≤ score R0 (foldl (better R0) y l))%Z).
  { induction l as [|z l IH]; intros y; cbn [foldl].
    { split; [by left|split; [lia|by intros z ?%not_elem_of_nil]]. }
    destruct (better_spec R0 y z) as (Hor & Hy & Hz). destruct (IH (better R0 y z)) as (Hin & Hle & Hall).
    split; [|split; [lia|]].
    - destruct Hin as [->|]; [destruct Hor as [->| ->]; set_solver|set_solver].
    - intros w [->|Hw]%elem_of_cons; [lia|by apply Hall]. }
  destruct (Hg R x) as (Hin & Hx & Hall). split; [unfold R0; set_solver|].
  intros z [->|Hz]%elem_of_cons; [done|by apply Hall].
Qed.

(** The best module has at least as much going out as coming in. *)
Lemma best_balance R b :
  NoDup R → best R = Some b → b ∈ R ∧ degree b R false ≤ degree b R true.
Proof.
  intros Hnd Hb. destruct (decide (R = [])) as [->|Hne]; [done|].
  destruct (best_spec R Hne) as (b' & Hb' & Hin & Hmax). rewrite Hb in Hb'. injection Hb' as <-.
  split; [done|]. destruct (decide (degree b R false ≤ degree b R true)) as [|Hn]; [done|]. exfalso.
  assert (Hlt : sum_list_with (λ x, degree x R true) R < sum_list_with (λ x, degree x R false) R).
  { apply sum_lt; [done|]. intros x Hx. specialize (Hmax x Hx). unfold score in Hmax. lia. }
  unfold degree in Hlt. cbn beta iota in Hlt. rewrite total_swap in Hlt. unfold total in Hlt. lia.
Qed.

Lemma take_best_places s : NoDup (remaining s) → places s (take_best s).
Proof.
  intros Hnd. unfold take_best. destruct (best (remaining s)) as [b|] eqn:Eb; [|by apply places_refl].
  destruct (best_balance _ _ Hnd Eb) as [Hin Hd]. apply place_first; [done|done|by left].
Qed.

Lemma remove_length x l : x ∈ l → length (remove x l) < length l.
Proof.
  unfold remove. induction l as [|y l IH]; [by intros ?%not_elem_of_nil|]. rewrite filter_cons. intros Hx.
  destruct (decide (y ≠ x)) as [Hy|Hy]; cbn.
  - apply elem_of_cons in Hx as [->|Hx]; [done|]. specialize (IH Hx). lia.
  - pose proof (length_filter (.≠ x) l). lia.
Qed.

Lemma places_shorter s s' : places s s' → length (remaining s') ≤ length (remaining s).
Proof. intros [_ (l1 & l2 & _ & _ & Hp & _)]. rewrite Hp, length_app. lia. Qed.

(** With fuel for every module, all are placed. *)
Lemma place_spec fuel s :
  NoDup (remaining s) → length (remaining s) ≤ fuel →
  places s (place fuel s) ∧ remaining (place fuel s) = [].
Proof.
  revert s. induction fuel as [|fuel IH]; intros s Hnd Hf; cbn [place].
  { split; [by apply places_refl|]. destruct (remaining s); [done|cbn in Hf; lia]. }
  destruct (remaining s) as [|x R] eqn:E; [by split; [apply places_refl; rewrite E|]|].
  rewrite <-E in *. set (s1 := peel (S (length (remaining s))) s).
  assert (H1 : places s s1) by (by apply peel_places).
  assert (H2 : places s1 (take_best s1)) by (apply take_best_places, H1).
  assert (Hlen : length (remaining (take_best s1)) ≤ fuel).
  { pose proof (places_shorter _ _ H1) as Hl1. unfold take_best.
    destruct (best (remaining s1)) as [b|] eqn:Eb.
    - cbn [remaining]. destruct (best_balance _ _ (proj1 H1) Eb) as [Hin _].
      pose proof (remove_length _ _ Hin). lia.
    - destruct (remaining s1) as [|y R1] eqn:E1; [cbn; lia|done]. }
  destruct (IH (take_best s1) (proj1 H2) Hlen) as [H3 H4].
  split; [|done]. eapply places_trans; [exact H1|]. by eapply places_trans.
Qed.

(** The order has every module once, and the imports pointing backwards in it
    weigh at most half of all. *)
Lemma cut_order_spec members :
  NoDup members →
  cut_order members ≡ₚ members ∧ 2 * back weight (cut_order members) ≤ total weight members.
Proof.
  intros Hnd. unfold cut_order.
  destruct (place_spec (length members) (mkState members [] []) Hnd) as [[_ Hp] Hr]; [done|].
  destruct Hp as (l1 & l2 & Hh & Ht & Hperm & Hw). rewrite Hr in Hperm, Hw. rewrite Hh, Ht.
  cbn [remaining head tail app] in *. split; [by rewrite Hperm, <-Permutation_rev|].
  apply (Hw []); [done|]. cbn. lia.
Qed.

End cut.

(** ** One import at a time *)

(** The weight of a single import. *)
Definition single (i : import) (x y : string) : nat :=
  if decide (fst i = (x, y)) then length (snd i) else 0.

Definition summed (imports : list import) (x y : string) : nat :=
  sum_list_with (λ i, single i x y) imports.

Lemma weight_summed inner x y : NoDup inner.*1 → weight inner x y = summed inner x y.
Proof.
  unfold weight, summed. induction inner as [|i inner IH]; intros Hnd; [done|].
  cbn in Hnd. apply NoDup_cons in Hnd as [Hi Hnd]. cbn. unfold single at 1. case_decide as Hk.
  - destruct i as [k lines]. cbn in *. subst k.
    assert (Hz : sum_list_with (λ i, single i x y) inner = 0); [|lia].
    clear IH Hnd. induction inner as [|j inner IH]; [done|]. cbn in *.
    unfold single at 1. rewrite decide_False by set_solver. apply IH. set_solver.
  - rewrite <-IH by done. destruct (list_find _ inner) as [[n [k l]]|]; done.
Qed.

Lemma back_add f g l : back (λ x y, f x y + g x y) l = back f l + back g l.
Proof. induction l as [|x l IH]; [done|]. cbn. rewrite IH, sum_add. lia. Qed.

Lemma back_ext f g l : (∀ x y, f x y = g x y) → back f l = back g l.
Proof.
  intros Hfg. induction l as [|x l IH]; [done|]. cbn. rewrite IH. f_equal. apply sum_ext. intros y _. apply Hfg.
Qed.

Lemma total_add f g l : total (λ x y, f x y + g x y) l = total f l + total g l.
Proof. unfold total. rewrite <-sum_add. apply sum_ext. intros x _. apply sum_add. Qed.

Lemma total_ext f g l : (∀ x y, f x y = g x y) → total f l = total g l.
Proof. intros Hfg. unfold total. apply sum_ext. intros x _. apply sum_ext. intros y _. apply Hfg. Qed.

Lemma sum_zero f (l : list string) : (∀ x, x ∈ l → f x = 0) → sum_list_with f l = 0.
Proof.
  induction l as [|x l IH]; intros Hf; [done|]. cbn. rewrite (Hf x), IH by set_solver. done.
Qed.

Lemma sum_one f x (l : list string) :
  NoDup l → x ∈ l → (∀ y, y ≠ x → f y = 0) → sum_list_with f l = f x.
Proof.
  intros Hnd Hx Hf. induction l as [|y l IH]; [by apply not_elem_of_nil in Hx|].
  apply NoDup_cons in Hnd as [Hy Hnd]. cbn. apply elem_of_cons in Hx as [->|Hx].
  - rewrite (sum_zero f l); [lia|]. intros z Hz. apply Hf. set_solver.
  - rewrite (Hf y) by set_solver. by apply IH.
Qed.

Lemma back_single_absent a b lines l :
  a ∉ l ∨ b ∉ l → back (single ((a, b), lines)) l = 0.
Proof.
  induction l as [|x l IH]; intros Hab; [done|]. cbn. rewrite IH by set_solver.
  rewrite sum_zero; [done|]. intros y Hy. unfold single. rewrite decide_False; [done|]. cbn. intros [= -> ->].
  destruct Hab as [Ha|Hb]; [apply Ha|apply Hb]; set_solver.
Qed.

Lemma position_cons x l y :
  position (x :: l) y = if decide (x = y) then Some 0 else S <$> position l y.
Proof.
  unfold position. cbn. case_decide as Hxy; [done|]. by destruct (list_find _ l) as [[n z]|].
Qed.

Lemma position_Some l x i : position l x = Some i → x ∈ l.
Proof.
  unfold position. destruct (list_find _ l) as [[n z]|] eqn:E; cbn; [|done]. intros _.
  apply list_find_Some in E as (Hn & -> & _). by eapply list_elem_of_lookup_2.
Qed.

Lemma position_elem l x : x ∈ l → ∃ i, position l x = Some i.
Proof.
  induction l as [|y l IH]; [by intros ?%not_elem_of_nil|]. rewrite position_cons. intros Hx.
  case_decide; [by eexists|]. destruct IH as [i ->]; [set_solver|]. by eexists.
Qed.

Lemma back_single a b lines l i j :
  NoDup l → position l a = Some i → position l b = Some j →
  back (single ((a, b), lines)) l = if j <? i then length lines else 0.
Proof.
  revert i j. induction l as [|x l IH]; intros i j Hnd; [done|].
  apply NoDup_cons in Hnd as [Hx Hnd]. rewrite !position_cons. cbn [back].
  destruct (decide (x = b)) as [->|Hb].
  - intros Ha [= <-]. rewrite (back_single_absent a b) by tauto. case_decide as Hba.
    + injection Ha as <-. subst b. rewrite sum_zero; [done|]. intros y Hy. unfold single.
      rewrite decide_False; [done|]. cbn. intros [= ->]. done.
    + destruct (position l a) as [i'|] eqn:Ei; [|done]. injection Ha as <-.
      rewrite (sum_one _ a); [|done|by eapply position_Some|].
      * unfold single. rewrite decide_True by done. cbn. lia.
      * intros y Hy. unfold single. rewrite decide_False; [done|]. cbn. congruence.
  - intros Ha Hj. rewrite sum_zero.
    2:{ intros y _. unfold single. rewrite decide_False; [done|]. cbn. congruence. }
    case_decide as Hxa.
    + injection Ha as <-. subst x. rewrite back_single_absent by tauto. done.
    + destruct (position l a) as [i'|] eqn:Ei; [|done]. destruct (position l b) as [j'|] eqn:Ej; [|done].
      injection Ha as <-. injection Hj as <-. rewrite (IH i' j') by done. done.
Qed.

Lemma total_single a b lines l :
  NoDup l → a ∈ l → b ∈ l → total (single ((a, b), lines)) l = length lines.
Proof.
  intros Hnd Ha Hb. unfold total. rewrite (sum_one _ a); [|done|done|].
  - rewrite (sum_one _ b); [|done|done|].
    + unfold single. by rewrite decide_True.
    + intros y Hy. unfold single. rewrite decide_False; [done|]. cbn. congruence.
  - intros y Hy. apply sum_zero. intros z _. unfold single. rewrite decide_False; [done|]. cbn. congruence.
Qed.

(** The imports found backward weigh what points backward. *)
Lemma backward_length order imports cut :
  NoDup order → backward order imports = Some cut → length cut = back (summed imports) order.
Proof.
  intros Hnd. revert cut. induction imports as [|[[a b] lines] imports IH]; intros cut; cbn [backward].
  { intros [= <-]. rewrite (back_ext _ (λ _ _, 0)) by done. clear. induction order as [|x l IH]; [done|].
    cbn. rewrite sum_zero by done. done. }
  destruct (position order a) as [i|] eqn:Ei; cbn [mbind option_bind]; [|done].
  destruct (position order b) as [j|] eqn:Ej; cbn [mbind option_bind]; [|done].
  destruct (backward order imports) as [rest|]; cbn [mbind option_bind]; [|done]. intros [= <-].
  rewrite length_app, (IH rest eq_refl).
  rewrite (back_ext (summed ((a, b, lines) :: imports)) (λ x y, single (a, b, lines) x y + summed imports x y)) by done.
  rewrite back_add, (back_single a b lines order i j Hnd Ei Ej). f_equal.
  case_if; [apply length_fmap|done].
Qed.

Lemma summed_total members imports :
  NoDup members → Forall (λ i, i.1.1 ∈ members ∧ i.1.2 ∈ members) imports →
  total (summed imports) members = sum_list_with (λ i, length (snd i)) imports.
Proof.
  intros Hnd. induction 1 as [|[[a b] lines] imports [Ha Hb] _ IH].
  { unfold total. apply sum_zero. intros x _. apply sum_zero. done. }
  rewrite (total_ext _ (λ x y, single (a, b, lines) x y + summed imports x y)) by done.
  rewrite total_add, IH, total_single by done. done.
Qed.

(** ** The cut *)

(** The imports of a component: among its modules, and not of themselves. *)
Definition imports_within (members : list string) (inner : list import) : Prop :=
  Forall (λ i, (i.1.1 ∈ members ∧ i.1.2 ∈ members) ∧ i.1.1 ≠ i.1.2) inner.

(** [x] still imports [y] once the cut lines are gone. *)
Definition kept (inner : list import) (cut : list (string * string * Z)) (x y : string) : Prop :=
  ∃ lines line, ((x, y), lines) ∈ inner ∧ line ∈ lines ∧ (x, y, line) ∉ cut.

Lemma backward_spec order imports :
  Forall (λ i, i.1.1 ∈ order ∧ i.1.2 ∈ order) imports →
  ∃ cut, backward order imports = Some cut ∧
    ∀ x y line, (x, y, line) ∈ cut ↔ ∃ lines i j, ((x, y), lines) ∈ imports ∧ line ∈ lines ∧
      position order x = Some i ∧ position order y = Some j ∧ j < i.
Proof.
  induction 1 as [|[[a b] lines] imports [Ha Hb] _ (rest & Hrest & Hspec)]; cbn [backward].
  { exists []. split; [done|]. intros x y line. split; [by intros ?%not_elem_of_nil|].
    by intros (? & ? & ? & ?%not_elem_of_nil & _). }
  apply position_elem in Ha as [i Hi]. apply position_elem in Hb as [j Hj]. cbn [fst snd] in *.
  rewrite Hi, Hj, Hrest. cbn [mbind option_bind]. eexists. split; [done|]. intros x y line.
  rewrite elem_of_app, Hspec. setoid_rewrite elem_of_cons. split.
  - intros [Hin|(l & i' & j' & ? & ?)]; [|exists l, i', j'; tauto].
    revert Hin. case_if; [|by intros ?%not_elem_of_nil].
    intros (l & [= -> -> ->] & Hl)%list_elem_of_fmap. exists lines, i, j. tauto.
  - intros (l & i' & j' & [[= -> -> ->]|Hin] & Hl & Hx & Hy & Hlt).
    + left. rewrite Hi in Hx. rewrite Hj in Hy. injection Hx as ->. injection Hy as ->.
      assert (j' <? i' = true) as -> by (by apply Nat.ltb_lt). apply list_elem_of_fmap. by exists line.
    + right. by exists l, i', j'.
Qed.

Lemma position_inj order x y i : position order x = Some i → position order y = Some i → x = y.
Proof.
  revert i. induction order as [|z order IH]; intros i; [done|]. rewrite !position_cons.
  case_decide as Hx; case_decide as Hy.
  - congruence.
  - intros [= <-]. by destruct (position order y).
  - intros Hpx [= <-]. by destruct (position order x).
  - destruct (position order x), (position order y); cbn; try done. intros [= <-] [= ->]. by apply (IH n).
Qed.

Lemma cycle_cut_kept inner members :
  NoDup members → imports_within members inner →
  ∃ cut, cycle_cut inner members = Some cut ∧
    (∀ x y line, (x, y, line) ∈ cut → ∃ lines, ((x, y), lines) ∈ inner ∧ line ∈ lines) ∧
    ∀ x, ¬ tc (kept inner cut) x x.
Proof.
  intros Hnd Hin. destruct (cut_order_spec inner members Hnd) as [Hp _]. unfold cycle_cut.
  set (order := cut_order inner members) in *.
  destruct (backward_spec order inner) as (cut & Hcut & Hspec).
  { eapply Forall_impl; [exact Hin|]. intros i [Hi _]. by rewrite Hp. }
  exists cut. split; [done|split].
  { intros x y line (lines & i & j & Hi & Hl & _)%Hspec. by exists lines. }
  assert (Hstep : ∀ x y, kept inner cut x y →
    ∃ i j, position order x = Some i ∧ position order y = Some j ∧ i < j).
  { intros x y (lines & line & Hi & Hl & Hn). unfold imports_within in Hin. rewrite Forall_forall in Hin.
    destruct (Hin _ Hi) as [[Hx Hy] Hne]. cbn in Hx, Hy, Hne.
    destruct (position_elem order x) as [i Hpx]; [by rewrite Hp|].
    destruct (position_elem order y) as [j Hpy]; [by rewrite Hp|].
    exists i, j. split; [done|split; [done|]]. destruct (lt_eq_lt_dec i j) as [[?|<-]|Hlt]; [done| |].
    - by destruct Hne; eapply position_inj.
    - destruct Hn. apply Hspec. by exists lines, i, j. }
  assert (Htc : ∀ x y, tc (kept inner cut) x y →
    ∃ i j, position order x = Some i ∧ position order y = Some j ∧ i < j).
  { induction 1 as [x y Hk|x y z Hk _ (j' & k & Hj' & Hk' & ?)]; [by apply Hstep|].
    destruct (Hstep _ _ Hk) as (i & j & Hi & Hj & ?). exists i, k.
    split; [done|split; [done|]]. rewrite Hj in Hj'. injection Hj' as ->. lia. }
  intros x (i & j & Hi & Hj & Hlt)%Htc. rewrite Hi in Hj. injection Hj as ->. lia.
Qed.

(** Cutting what [cycle_cut] lists breaks every cycle of the component: it
    never fails on the imports of a component, it names only imports that are
    there, and among the imports left no module reaches itself. *)
Theorem cycle_cut_acyclic inner members :
  NoDup members → imports_within members inner →
  ∃ cut, cycle_cut inner members = Some cut ∧
    (∀ x y line, (x, y, line) ∈ cut → ∃ lines, ((x, y), lines) ∈ inner ∧ line ∈ lines) ∧
    ∀ x, ¬ tc (kept inner cut) x x.
Proof. apply cycle_cut_kept. Qed.

(** C31: The cut is never more than half of the import lines of the component. *)
Theorem cycle_cut_half inner members cut :
  NoDup members → NoDup inner.*1 → imports_within members inner →
  cycle_cut inner members = Some cut → 2 * length cut ≤ sum_list_with (λ i, length (snd i)) inner.
Proof.
  intros Hnd Hkeys Hin Hcut. destruct (cut_order_spec inner members Hnd) as [Hp Hw].
  assert (Hwt : ∀ x y, weight inner x y = summed inner x y) by (intros; by apply weight_summed).
  assert (Hnd' : NoDup (cut_order inner members)) by (by rewrite Hp).
  unfold cycle_cut in Hcut. rewrite (backward_length _ _ _ Hnd' Hcut).
  rewrite (back_ext _ _ _ Hwt), (total_ext _ _ _ Hwt) in Hw. rewrite summed_total in Hw; [done|done|].
  eapply Forall_impl; [exact Hin|]. by intros i [? _].
Qed.

Example cut_keeps_the_heavier_direction :
  cycle_cut [(("a.py", "b.py"), [1; 2; 3]%Z); (("b.py", "a.py"), [7%Z])] ["a.py"; "b.py"] =
  Some [("b.py", "a.py", 7%Z)].
Proof. by vm_compute. Qed.

Definition demo_imports : list import :=
  [(("a.py", "b.py"), [1; 2; 3]%Z); (("b.py", "a.py"), [7%Z]); (("b.py", "c.py"), [4%Z]); (("c.py", "a.py"), [2%Z])].

Lemma demo_within : imports_within ["a.py"; "b.py"; "c.py"] demo_imports.
Proof.
  repeat (apply Forall_cons; split; [split; [split|done]|]); try apply Forall_nil_2;
    by apply (bool_decide_unpack _).
Qed.

Lemma demo_members : NoDup ["a.py"; "b.py"; "c.py"].
Proof. by apply (bool_decide_unpack _). Qed.

Lemma cycle_cut_acyclic_witness :
  cycle_cut demo_imports ["a.py"; "b.py"; "c.py"] = Some [("b.py", "a.py", 7%Z); ("c.py", "a.py", 2%Z)] ∧
  ∀ x, ¬ tc (kept demo_imports [("b.py", "a.py", 7%Z); ("c.py", "a.py", 2%Z)]) x x.
Proof.
  assert (Hc : cycle_cut demo_imports ["a.py"; "b.py"; "c.py"] =
               Some [("b.py", "a.py", 7%Z); ("c.py", "a.py", 2%Z)]) by (by vm_compute).
  split; [exact Hc|].
  destruct (cycle_cut_acyclic demo_imports _ demo_members demo_within) as (cut & Heq & _ & Ha).
  rewrite Hc in Heq. injection Heq as <-. exact Ha.
Defined.

Lemma cycle_cut_half_witness :
  2 * length [("b.py", "a.py", 7%Z); ("c.py", "a.py", 2%Z)] ≤
  sum_list_with (λ i : import, length (snd i)) demo_imports.
Proof.
  refine (cycle_cut_half demo_imports ["a.py"; "b.py"; "c.py"] _ demo_members _ demo_within _).
  - by apply (bool_decide_unpack _).
  - by vm_compute.
Defined.

End CycleCut.
