(* ===== verification/Apply.v ===== *)
(** * Applying a refactoring

    Models crates/dagayn-tools/src/apply.rs: where a name stands as a whole
    identifier of a line, one edit of a text, the plan of a list of edits over
    the files they name, the dry run and the writes.  Resolving a path against
    the file system and the pending store are not modelled; a file system is a
    finite map, and which files can be written is a parameter. *)
From S2P Require Import Prelude Difflib.
Import Difflib.

Module Apply.

(** ** One edit *)

(** Source: crates/dagayn-tools/src/apply.rs 19-25 [Edit]. *)
Record Edit := mkEdit { edit_file : string; edit_line : option Z; old : text; new : text }.

(** Source: crates/dagayn-tools/src/apply.rs 116-118 [is_ident]. *)
Definition is_ident (c : char) : bool := is_ascii_alphanumeric c || (c =? 95)%N.

Definition double_quote : char := 34%N.
Definition single_quote : char := 39%N.
Definition backslash : char := 92%N.

(** [slice::starts_with]. *)
Definition starts_with (l p : text) : bool := bool_decide (take (length p) l = p).

(** [line.get(i).is_some_and(is_ident)]. *)
Definition ident_at (line : text) (i : nat) : bool :=
  match line !! i with Some c => is_ident c | None => false end.

(** Neither the character before [index] nor the one at [after] continues an
    identifier.

    Source: crates/dagayn-tools/src/apply.rs 145-147 [identifier_spans]. *)
Definition bounded (line : text) (index after : nat) : bool :=
  ((index =? 0) || negb (ident_at line (index - 1))) && ((length line <=? after) || negb (ident_at line after)).

(** The loop; an index moves past the end at most once.

    Source: crates/dagayn-tools/src/apply.rs 126-155 [identifier_spans]. *)
Fixpoint spans_from (fuel : nat) (line name : text) (quote : option char) (index : nat) : list nat :=
  match fuel, line !! index with
  | S fuel, Some c =>
      match quote with
      | Some open =>
          if (c =? backslash)%N then spans_from fuel line name quote (index + 2)
          else spans_from fuel line name (if (c =? open)%N then None else quote) (index + 1)
      | None =>
          if (c =? double_quote)%N || (c =? single_quote)%N
          then spans_from fuel line name (Some c) (index + 1)
          else if starts_with (drop index line) name && bounded line index (index + length name)
          then index :: spans_from fuel line name None (index + length name)
          else spans_from fuel line name None (index + 1)
      end
  | _, _ => []
  end.

(** Source: crates/dagayn-tools/src/apply.rs 121-157 [identifier_spans]. *)
Definition identifier_spans (line name : text) : list nat := spans_from (length line) line name None 0.

(** [Vec::splice] of [start..start + len]. *)
Definition splice (line : text) (start len : nat) (by_ : text) : text :=
  take start line ++ by_ ++ drop (start + len) line.

(** The splices, from the last span to the first.

    Source: crates/dagayn-tools/src/apply.rs 182-184 [apply_edit]. *)
Definition replace_spans (line : text) (spans : list nat) (len : nat) (by_ : text) : text :=
  foldl (λ line start, splice line start len by_) line (rev spans).

(** The new content, or why the edit is skipped.

    Source: crates/dagayn-tools/src/apply.rs 160-187 [apply_edit]. *)
Definition apply_edit (content : text) (e : Edit) : text + string :=
  match edit_line e with
  | None => inr "no_line_recorded"
  | Some target =>
      let lines := splitlines content in
      let index := (target - 1)%Z in
      if (index <? 0)%Z || (Z.of_nat (length lines) <=? index)%Z then inr "line_out_of_range"
      else if bool_decide (old e = []) then inr "line_no_longer_matches"
      else
        let line := default [] (lines !! Z.to_nat index) in
        match identifier_spans line (old e) with
        | [] => inr "line_no_longer_matches"
        | spans =>
            inl (concat (<[Z.to_nat index := replace_spans line spans (length (old e)) (new e)]> lines))
        end
  end.

(** ** The plan *)

(** What stands at a path. *)
Inductive entry := Text (t : text) | Unreadable | NotAFile.

(** Source: crates/dagayn-tools/src/apply.rs 189-195 [Planned]. *)
Record Planned := mkPlanned {
  file : string;
  path : string;
  original : text;
  content : text;
  count : nat
}.

Definition group : Type := string * string * list Edit.

(** An edit joins the group of its file, or starts one.

    Source: crates/dagayn-tools/src/apply.rs 267-270 [apply_refactor]. *)
Fixpoint add_to_group (groups : list group) (e : Edit) (p : string) : list group :=
  match groups with
  | [] => [(edit_file e, p, [e])]
  | (f, p', es) :: groups =>
      if bool_decide (f = edit_file e) then (f, p', es ++ [e]) :: groups
      else (f, p', es) :: add_to_group groups e p
  end.

(** Source: crates/dagayn-tools/src/apply.rs 265-271 [apply_refactor]. *)
Definition group_edits (edits : list (Edit * string)) : list group :=
  foldl (λ groups '(e, p), add_to_group groups e p) [] edits.

(** The edits of one file, each on what the ones before it left.

    Source: crates/dagayn-tools/src/apply.rs 289-299 [apply_refactor]. *)
Definition apply_group (original : text) (es : list Edit) : text * nat * list (Edit * string) :=
  foldl (λ '(content, count, skipped) e,
    match apply_edit content e with
    | inl next => (next, count + 1, skipped)
    | inr reason => (content, count, skipped ++ [(e, reason)])
    end) (original, 0, []) es.

(** Source: crates/dagayn-tools/src/apply.rs 274-309 [apply_refactor]. *)
Definition plan_file (fs : gmap string entry) (st : list Planned * list (Edit * string)) (g : group)
    : list Planned * list (Edit * string) :=
  let '(planned, skipped) := st in
  let '(f, p, es) := g in
  match fs !! p with
  | None | Some NotAFile => (planned, skipped ++ ((λ e, (e, "file_not_found")) <$> es))
  | Some Unreadable => (planned, skipped ++ ((λ e, (e, "file_unreadable")) <$> es))
  | Some (Text t) =>
      let '(c, n, skips) := apply_group t es in
      (if 0 <? n then planned ++ [mkPlanned f p t c n] else planned, skipped ++ skips)
  end.

(** Source: crates/dagayn-tools/src/apply.rs 264-309 [apply_refactor]. *)
Definition plan_edits (fs : gmap string entry) (edits : list (Edit * string))
    : list Planned * list (Edit * string) :=
  foldl (plan_file fs) ([], []) (group_edits edits).

(** ** The outcome *)

Section outcome.
(** Whether [fs::write] of a path succeeds, and a line as its UTF-8. *)
Context (writable : string → bool) (utf8 : text → string).

(** The fields of the answer.

    Source: crates/dagayn-tools/src/apply.rs 328-342 [apply_refactor]. *)
Record Outcome := mkOutcome {
  status : string;
  dry_run : bool;
  applied : nat;
  files_modified : list string;
  edits_applied : nat;
  skipped : list (Edit * string);
  would_modify : list string;
  diffs : list (string * option string)
}.

(** One write, and what is counted.

    Source: crates/dagayn-tools/src/apply.rs 349-357 [apply_refactor]. *)
Definition write_plan (st : gmap string entry * nat * list string) (plan : Planned)
    : gmap string entry * nat * list string :=
  let '(fs, applied, modified) := st in
  if writable (path plan)
  then (<[path plan := Text (content plan)]> fs, applied + count plan,
        if bool_decide (path plan ∈ modified) then modified else modified ++ [path plan])
  else st.

(** Once every path is inside the root: the plan, shown or written.

    Source: crates/dagayn-tools/src/apply.rs 264-370 [apply_refactor]. *)
Definition apply_planned (dry : bool) (edits : list (Edit * string)) (fs : gmap string entry)
    : gmap string entry * Outcome :=
  let '(planned, skips) := plan_edits fs edits in
  let st := if bool_decide (skips = []) then "ok" else "partial" in
  if dry
  then (fs, mkOutcome st true 0 [] (sum_list_with count planned) skips
              (sort_by String.leb (file <$> planned))
              ((λ plan, (file plan,
                   unified_diff (utf8 <$> splitlines (original plan)) (utf8 <$> splitlines (content plan))
                     ("a/" +:+ file plan) ("b/" +:+ file plan) 3)) <$> planned))
  else
    let '(fs', n, modified) := foldl write_plan (fs, 0, []) planned in
    (fs', mkOutcome st false n (sort_by String.leb modified) n skips [] []).

(** [Path::starts_with] of absolute paths: component by component. *)
Definition components (p : string) : list string := filter (.≠ "") (split_slash p).
Definition inside (root path : string) : bool :=
  bool_decide (take (length (components root)) (components path) = components root).

(** Every path resolved and inside the root, before any file is read; [None]
    where a path does not resolve.

    Source: crates/dagayn-tools/src/apply.rs 251-262 [apply_refactor]. *)
Fixpoint resolve_edits (resolve : string → option string) (root : string) (edits : list Edit)
    : option (list (Edit * string) + string) :=
  match edits with
  | [] => Some (inl [])
  | e :: edits =>
      p ← resolve (edit_file e);
      if negb (inside root p) then Some (inr ("Edit path '" +:+ edit_file e +:+ "' is outside repo root."))
      else
        rest ← resolve_edits resolve root edits;
        Some (match rest with inl l => inl ((e, p) :: l) | inr m => inr m end)
  end.

(** The answer once the preview is read: an error or an outcome.

    Source: crates/dagayn-tools/src/apply.rs 234-370 [apply_refactor]. *)
Definition apply_edits (resolve : string → option string) (root : string) (dry : bool) (edits : list Edit)
    (fs : gmap string entry) : option (gmap string entry * (Outcome + string)) :=
  if bool_decide (edits = []) then Some (fs, inl (mkOutcome "ok" dry 0 [] 0 [] [] []))
  else
    resolved ← resolve_edits resolve root edits;
    Some (match resolved with
          | inr message => (fs, inr message)
          | inl edits => let '(fs, out) := apply_planned dry edits fs in (fs, inl out)
          end).

End outcome.
(** ** Reference: where a name stands *)

(** The reading of a line: inside which quote, and whether the next character is
    escaped. *)
Definition quote_step (st : option char * bool) (c : char) : option char * bool :=
  match st with
  | (q, true) => (q, false)
  | (Some open, false) =>
      if (c =? backslash)%N then (Some open, true) else (if (c =? open)%N then None else Some open, false)
  | (None, false) => if (c =? double_quote)%N || (c =? single_quote)%N then (Some c, false) else (None, false)
  end.

Definition state_at (line : text) (i : nat) : option char * bool := foldl quote_step (None, false) (take i line).

(** [name] stands at [i] as a whole identifier, outside quotes. *)
Definition stands (line name : text) (i : nat) : Prop :=
  state_at line i = (None, false) ∧ starts_with (drop i line) name = true ∧
  bounded line i (i + length name) = true.

#[global] Instance stands_dec line name i : Decision (stands line name i).
Proof. unfold stands. apply _. Defined.

Definition whole_spans (line name : text) : list nat := filter (stands line name) (seq 0 (length line)).

Lemma state_at_S line i c : line !! i = Some c → state_at line (S i) = quote_step (state_at line i) c.
Proof. intros Hc. unfold state_at. by rewrite (take_S_r _ _ _ Hc), foldl_snoc. Qed.

Lemma starts_with_lookup l p k c :
  starts_with l p = true → p !! k = Some c → l !! k = Some c.
Proof.
  unfold starts_with. intros Hs Hc. bool_to_prop. rewrite <-Hs in Hc.
  apply lookup_take_Some in Hc as [Hc _]. done.
Qed.

Lemma seq_filter_skip (P : nat → Prop) `{!∀ i, Decision (P i)} i n k :
  (∀ j, i ≤ j < i + k → ¬ P j) → k ≤ n → filter P (seq i n) = filter P (seq (i + k) (n - k)).
Proof.
  revert i n. induction k as [|k IH]; intros i n Hn Hk.
  { by rewrite Nat.add_0_r, Nat.sub_0_r. }
  destruct n as [|n]; [lia|]. cbn [seq]. rewrite filter_cons, decide_False by (apply Hn; lia).
  rewrite IH; [|intros j Hj; apply Hn; lia|lia].
  replace (S i + k) with (i + S k) by lia. done.
Qed.

Section spans.
Context (line name : text) (Hne : name ≠ []) (Hident : Forall (λ c, is_ident c = true) name).

Lemma ident_not_quote c : is_ident c = true → (c =? double_quote)%N = false ∧ (c =? single_quote)%N = false.
Proof.
  intros Hc. split; apply N.eqb_neq; intros ->; done.
Qed.

(** Over the characters of an identifier that stands outside quotes, the reading
    stays outside. *)
Lemma state_over_name i k :
  state_at line i = (None, false) → starts_with (drop i line) name = true → k ≤ length name →
  state_at line (i + k) = (None, false).
Proof.
  intros Hst Hs. induction k as [|k IH]; intros Hk; [by rewrite Nat.add_0_r|].
  destruct (lookup_lt_is_Some_2 name k) as [c Hc]; [lia|].
  pose proof (starts_with_lookup _ _ _ _ Hs Hc) as Hl. rewrite lookup_drop in Hl.
  rewrite Nat.add_succ_r, (state_at_S _ _ _ Hl), IH by lia. cbn.
  rewrite Forall_lookup in Hident. destruct (ident_not_quote c (Hident _ _ Hc)) as [-> ->]. done.
Qed.

(** Inside an occurrence of the name no other one begins. *)
Lemma inside_name i j :
  starts_with (drop i line) name = true → i < j < i + length name → ¬ stands line name j.
Proof.
  intros Hs Hj (_ & _ & Hb). unfold bounded in Hb. apply andb_true_iff in Hb as [Hb _].
  apply orb_true_iff in Hb as [Hb|Hb]; bool_to_prop; [lia|]. unfold ident_at in Hb.
  destruct (lookup_lt_is_Some_2 name (j - 1 - i)) as [c Hc]; [lia|].
  pose proof (starts_with_lookup _ _ _ _ Hs Hc) as Hl. rewrite lookup_drop in Hl.
  replace (i + (j - 1 - i)) with (j - 1) in Hl by lia. rewrite Hl in Hb.
  rewrite Forall_lookup in Hident. rewrite (Hident _ _ Hc) in Hb. done.
Qed.

Lemma spans_from_spec fuel quote i :
  length line - i ≤ fuel → (i ≤ length line → state_at line i = (quote, false)) →
  spans_from fuel line name quote i = filter (stands line name) (seq i (length line - i)).
Proof.
  revert quote i. induction fuel as [|fuel IH]; intros quote i Hf Hst.
  { replace (length line - i) with 0 by lia. by destruct (line !! i). }
  cbn [spans_from]. destruct (line !! i) as [c|] eqn:Hc.
  2:{ apply lookup_ge_None in Hc. by replace (length line - i) with 0 by lia. }
  pose proof (lookup_lt_Some _ _ _ Hc) as Hlt. specialize (Hst ltac:(lia)).
  pose proof (state_at_S _ _ _ Hc) as HS. rewrite Hst in HS.
  assert (Hskip : ∀ k, (∀ j, i ≤ j < i + k → ¬ stands line name j) → ∀ q,
    0 < k → (i + k ≤ length line → state_at line (i + k) = (q, false)) →
    spans_from fuel line name q (i + k) = filter (stands line name) (seq i (length line - i))).
  { intros k Hk q H0 Hq. rewrite IH; [|lia|done].
    destruct (decide (k ≤ length line - i)) as [Hle|Hgt].
    - rewrite (seq_filter_skip _ i _ k Hk Hle). do 2 f_equal. lia.
    - replace (length line - (i + k)) with 0 by lia.
      rewrite (seq_filter_skip _ i _ (length line - i)); [|intros j Hj; apply Hk; lia|done].
      by rewrite Nat.sub_diag. }
  destruct quote as [open|].
  - assert (Hno : ¬ stands line name i) by (intros [Hs _]; congruence).
    cbn in HS. destruct (c =? backslash)%N.
    + apply Hskip; [|lia|].
      * intros j Hj. destruct (decide (j = i)) as [->|]; [done|]. assert (j = S i) as -> by lia.
        intros [Hs _]. congruence.
      * intros Hle. destruct (lookup_lt_is_Some_2 line (S i)) as [d Hd]; [lia|].
        replace (i + 2) with (S (S i)) by lia. by rewrite (state_at_S _ _ _ Hd), HS.
    + apply Hskip; [|lia|].
      * intros j Hj. by assert (j = i) as -> by lia.
      * intros _. by rewrite Nat.add_1_r.
  - cbn in HS. destruct ((c =? double_quote)%N || (c =? single_quote)%N) eqn:Eq.
    + apply Hskip; [|lia|intros _; by rewrite Nat.add_1_r].
      intros j Hj. assert (j = i) as -> by lia. intros (_ & Hs & _).
      destruct name as [|d rest]; [done|]. 
      assert (Hd : drop i line !! 0 = Some d) by (by apply (starts_with_lookup _ (d :: rest))).
      rewrite lookup_drop, Nat.add_0_r, Hc in Hd. injection Hd as ->.
      apply Forall_cons in Hident as [Hd _]. destruct (ident_not_quote d Hd) as [H1 H2].
      by rewrite H1, H2 in Eq.
    + destruct (starts_with (drop i line) name && bounded line i (i + length name)) eqn:Em.
      * apply andb_true_iff in Em as [Hs Hb]. rewrite <-(Nat.succ_pred_pos (length line - i)) by lia.
        cbn [seq]. rewrite filter_cons, decide_True by done. f_equal.
        assert (Hn : 0 < length name) by (destruct name; [done|cbn; lia]).
        assert (Hle : i + length name ≤ length line).
        { unfold starts_with in Hs. bool_to_prop. apply (f_equal length) in Hs.
          rewrite length_take, length_drop in Hs. lia. }
        rewrite IH; [|lia|intros _; by apply state_over_name].
        rewrite (seq_filter_skip _ (S i) _ (length name - 1)); [|intros j Hj; apply (inside_name i); [done|lia]|lia].
        do 2 f_equal; lia.
      * apply Hskip; [|lia|intros _; by rewrite Nat.add_1_r].
        intros j Hj. assert (j = i) as -> by lia. intros (_ & Hs & Hb). by rewrite Hs, Hb in Em.
Qed.

End spans.

Lemma identifier_spans_whole line name :
  name ≠ [] → Forall (λ c, is_ident c = true) name → identifier_spans line name = whole_spans line name.
Proof.
  intros Hne Hid. unfold identifier_spans, whole_spans.
  rewrite (spans_from_spec line name Hne Hid); [by rewrite Nat.sub_0_r|lia|done].
Qed.

(** ** Reference: one line renamed *)

(** A line cut at the places of a name: what stands between them. *)
Fixpoint cut_at (pos : nat) (spans : list nat) (len : nat) (line : text) : list text :=
  match spans with
  | [] => [drop pos line]
  | s :: spans => take (s - pos) (drop pos line) :: cut_at (s + len) spans len line
  end.

(** Pieces with a word between each two. *)
Fixpoint glue (word : text) (pieces : list text) : text :=
  match pieces with
  | [] => []
  | [p] => p
  | p :: pieces => p ++ word ++ glue word pieces
  end.

(** Spans from [pos] on that do not overlap and fit the line. *)
Fixpoint apart (pos : nat) (spans : list nat) (len : nat) (line : text) : Prop :=
  match spans with
  | [] => pos ≤ length line
  | s :: spans => pos ≤ s ∧ apart (s + len) spans len line
  end.

Lemma apart_length pos spans len line : apart pos spans len line → pos ≤ length line.
Proof.
  revert pos. induction spans as [|s spans IH]; intros pos; cbn; [done|].
  intros [Hp Ha]. specialize (IH _ Ha). lia.
Qed.

Lemma cut_at_nonempty pos spans len line : ∃ p ps, cut_at pos spans len line = p :: ps.
Proof. destruct spans; by eexists _, _. Qed.

Lemma glue_cut word pos s spans len line :
  glue word (cut_at pos (s :: spans) len line) =
  take (s - pos) (drop pos line) ++ word ++ glue word (cut_at (s + len) spans len line).
Proof. cbn. by destruct (cut_at_nonempty (s + len) spans len line) as (p & ps & ->). Qed.

Lemma replace_spans_spec line spans len by_ pos :
  apart pos spans len line →
  replace_spans line spans len by_ = take pos line ++ glue by_ (cut_at pos spans len line).
Proof.
  revert pos. induction spans as [|s spans IH]; intros pos Ha.
  { cbn. by rewrite take_drop. }
  destruct Ha as [Hp Ha]. pose proof (apart_length _ _ _ _ Ha) as Hl.
  rewrite glue_cut. unfold replace_spans in *. cbn [rev]. rewrite foldl_snoc, (IH _ Ha). unfold splice.
  rewrite take_app_le by (rewrite length_take; lia). rewrite take_take, Nat.min_l by lia.
  rewrite drop_app_ge by (rewrite length_take; lia). rewrite length_take, Nat.min_l, Nat.sub_diag by lia.
  rewrite drop_0. assert (Ht : take s line = take pos line ++ take (s - pos) (drop pos line)).
  { rewrite take_take_drop. f_equal. lia. }
  by rewrite Ht, <-!app_assoc.
Qed.

Lemma glue_name line name spans pos :
  apart pos spans (length name) line →
  (∀ s, s ∈ spans → starts_with (drop s line) name = true) →
  take pos line ++ glue name (cut_at pos spans (length name) line) = line.
Proof.
  revert pos. induction spans as [|s spans IH]; intros pos Ha Hs; [cbn; apply take_drop|].
  destruct Ha as [Hp Ha]. pose proof (apart_length _ _ _ _ Ha) as Hl. rewrite glue_cut.
  rewrite <-(IH _ Ha) at 4 by (intros x Hx; apply Hs; by right).
  assert (Hn : name = take (length name) (drop s line)).
  { specialize (Hs s ltac:(by left)). unfold starts_with in Hs. by bool_to_prop. }
  assert (Htake : take (s + length name) line = take pos line ++ take (s - pos) (drop pos line) ++ name).
  { rewrite <-take_take_drop, <-Hn, app_assoc. f_equal. rewrite take_take_drop. f_equal. lia. }
  rewrite Htake, <-!app_assoc. done.
Qed.

Lemma whole_spans_apart line name :
  name ≠ [] → Forall (λ c, is_ident c = true) name →
  apart 0 (whole_spans line name) (length name) line.
Proof.
  intros Hne Hid. unfold whole_spans.
  assert (Hg : ∀ n i pos, length line = i + n → pos ≤ length line →
    (∀ j, i ≤ j → stands line name j → pos ≤ j) →
    apart pos (filter (stands line name) (seq i n)) (length name) line); [|apply (Hg _ 0); lia].
  induction n as [|n IH]; intros i pos Hlen Hp Hpos; [done|]. cbn [seq]. rewrite filter_cons.
  case_decide as Hst; [|apply IH; [lia|done|intros j Hj; apply Hpos; lia]].
  pose proof Hst as (_ & Hs & _). cbn [apart]. split; [by apply Hpos|].
  assert (Hle : i + length name ≤ length line).
  { unfold starts_with in Hs. bool_to_prop. apply (f_equal length) in Hs.
    rewrite length_take, length_drop in Hs. assert (0 < length name) by (destruct name; [done|cbn; lia]). lia. }
  apply IH; [lia|done|]. intros j Hj Hsj.
  destruct (decide (i + length name ≤ j)) as [|Hn]; [done|]. exfalso.
  apply (inside_name line name Hid i j Hs); [lia|done].
Qed.

Lemma elem_of_whole_spans line name i : i ∈ whole_spans line name ↔ i < length line ∧ stands line name i.
Proof. unfold whole_spans. rewrite list_elem_of_filter, elem_of_seq. split; [intros []|intros []]; split; auto; lia. Qed.

(** The renaming of a line. *)
Definition renamed (line name by_ : text) : text :=
  glue by_ (cut_at 0 (whole_spans line name) (length name) line).

Lemma renamed_spec line name by_ :
  name ≠ [] → Forall (λ c, is_ident c = true) name →
  replace_spans line (identifier_spans line name) (length name) by_ = renamed line name by_ ∧
  renamed line name name = line.
Proof.
  intros Hne Hid. rewrite identifier_spans_whole by done. pose proof (whole_spans_apart line name Hne Hid) as Ha.
  split; [by rewrite (replace_spans_spec _ _ _ _ 0)|].
  apply (glue_name line name (whole_spans line name) 0 Ha).
  by intros s (_ & _ & Hs & _)%elem_of_whole_spans.
Qed.

Lemma concat_splitlines t : concat (splitlines t) = t.
Proof. apply (splitlines_from_spec (length t)); [done|constructor]. Qed.

Lemma edit_applied content e :
  Forall (λ c, is_ident c = true) (old e) →
  let lines := splitlines content in
  apply_edit content e =
    match edit_line e with
    | None => inr "no_line_recorded"
    | Some target =>
        match (if (1 <=? target)%Z then lines !! Z.to_nat (target - 1) else None) with
        | None => inr "line_out_of_range"
        | Some line =>
            if bool_decide (old e = [] ∨ whole_spans line (old e) = []) then inr "line_no_longer_matches"
            else inl (concat (take (Z.to_nat (target - 1)) lines) ++ renamed line (old e) (new e) ++
                      concat (drop (Z.to_nat target) lines))
        end
    end ∧
  (∀ line, old e ≠ [] → renamed line (old e) (old e) = line).
Proof.
  intros Hid lines. split; [|intros line Hne; by apply (renamed_spec line (old e) [] Hne Hid)].
  unfold apply_edit. destruct (edit_line e) as [target|]; [|done]. fold lines.
  destruct (decide (1 ≤ target)%Z) as [H1|H1].
  2:{ rewrite (proj2 (Z.leb_gt 1 target)) by lia. rewrite (proj2 (Z.ltb_lt (target - 1) 0)) by lia. done. }
  rewrite (proj2 (Z.leb_le 1 target)), (proj2 (Z.ltb_ge (target - 1) 0)) by lia. cbn [orb].
  destruct (lines !! Z.to_nat (target - 1)) as [line|] eqn:El.
  2:{ apply lookup_ge_None in El. by rewrite (proj2 (Z.leb_le _ _)) by lia. }
  pose proof (lookup_lt_Some _ _ _ El) as Hlt. rewrite (proj2 (Z.leb_gt _ _)) by lia.
  case_bool_decide as Hold; [by rewrite bool_decide_eq_true_2 by (by left)|]. cbv zeta.
  change (default [] (Some line)) with line.
  destruct (renamed_spec line (old e) (new e) Hold Hid) as [Hr _].
  pose proof (identifier_spans_whole line (old e) Hold Hid) as Hw.
  destruct (identifier_spans line (old e)) as [|s0 ss] eqn:Es.
  { by rewrite bool_decide_eq_true_2 by (by right). }
  rewrite bool_decide_eq_false_2 by (intros [?|?]; congruence).
  rewrite Hr, insert_take_drop by done. rewrite concat_app. cbn [concat].
  by replace (S (Z.to_nat (target - 1))) with (Z.to_nat target) by lia.
Qed.

(** ** Reference: lines and words as a reader takes them *)

(** The lines newlines end, as editors and the graph count them. *)
Fixpoint newline_lines_from (current rest : text) : list text :=
  match rest with
  | [] => match current with [] => [] | _ => [current] end
  | c :: rest =>
      if (c =? 10)%N then (current ++ [c]) :: newline_lines_from [] rest else newline_lines_from (current ++ [c]) rest
  end.

Definition newline_lines (t : text) : list text := newline_lines_from [] t.

(** A text whose lines end in a newline, with or without a carriage return. *)
Fixpoint newlines_only (t : text) : Prop :=
  match t with
  | [] => True
  | c :: rest => (is_boundary c = true → c = 10%N) ∧ (c = 13%N → head rest = Some 10%N) ∧ newlines_only rest
  end.

Section words.
(** The characters of an identifier, whatever the language takes for one. *)
Context (is_word : char → bool).

Definition word_at (line : text) (i : nat) : bool := match line !! i with Some c => is_word c | None => false end.

(** The name stands at [i], outside quotes, and no word goes on at either end. *)
Definition is_whole (line name : text) (i : nat) : Prop :=
  state_at line i = (None, false) ∧ starts_with (drop i line) name = true ∧
  (i = 0 ∨ word_at line (i - 1) = false) ∧ word_at line (i + length name) = false.

#[global] Instance is_whole_dec line name i : Decision (is_whole line name i).
Proof. unfold is_whole. apply _. Defined.

Definition words_of (line name : text) : list nat := filter (is_whole line name) (seq 0 (length line)).

(** The renaming of the whole identifiers of a line. *)
Definition renamed_words (line name by_ : text) : text :=
  glue by_ (cut_at 0 (words_of line name) (length name) line).

(** A text of such lines in which only the characters of [is_ident] are those of
    an identifier. *)
Definition ordinary (t : text) : Prop := newlines_only t ∧ Forall (λ c, is_word c = is_ident c) t.

Lemma newline_lines_split current t : newlines_only t → splitlines_from current t = newline_lines_from current t.
Proof.
  clear is_word. revert current. induction t as [t IH] using (induction_ltof1 _ length); intros current.
  destruct t as [|c t]; [done|]. intros (Hb & Hcr & Ht). cbn [splitlines_from newline_lines_from].
  destruct (N.eqb_spec c 13) as [->|H13].
  - specialize (Hcr eq_refl). destruct t as [|d t]; [done|]. injection Hcr as ->. cbn [N.eqb Pos.eqb newline_lines_from].
    f_equal. apply IH; [unfold ltof; cbn; lia|]. by destruct Ht as (_ & _ & ?).
  - destruct (is_boundary c) eqn:Hc.
    + rewrite (Hb eq_refl). cbn [N.eqb Pos.eqb]. f_equal. by apply IH; [unfold ltof; cbn; lia|].
    + destruct (N.eqb_spec c 10) as [->|_]; [done|]. by apply IH; [unfold ltof; cbn; lia|].
Qed.

Lemma concat_newline_lines t : concat (newline_lines t) = t.
Proof.
  clear is_word. unfold newline_lines. assert (Hg : ∀ current, concat (newline_lines_from current t) = current ++ t); [|apply (Hg [])].
  induction t as [|c t IH]; intros current; cbn [newline_lines_from].
  - rewrite app_nil_r. destruct current; [done|]. cbn. by rewrite app_nil_r.
  - destruct (c =? 10)%N; cbn [concat]; rewrite IH; by rewrite <-app_assoc.
Qed.

Lemma words_of_agree line name :
  Forall (λ c, is_word c = is_ident c) line → words_of line name = whole_spans line name.
Proof.
  intros Hl. assert (Hat : ∀ i, word_at line i = ident_at line i).
  { intros i. unfold word_at, ident_at. destruct (line !! i) as [c|] eqn:Hc; [|done]. rewrite Forall_lookup in Hl. by eapply Hl. }
  unfold words_of, whole_spans. apply list_filter_ext_in. intros i _. unfold is_whole, stands, bounded. rewrite !Hat.
  rewrite andb_true_iff, !orb_true_iff, !negb_true_iff, Nat.eqb_eq, Nat.leb_le.
  assert (Hpast : length line ≤ i + length name → ident_at line (i + length name) = false).
  { intros Hle. unfold ident_at. by rewrite lookup_ge_None_2. }
  tauto.
Qed.

Lemma renamed_agree line name by_ :
  Forall (λ c, is_word c = is_ident c) line → renamed_words line name by_ = renamed line name by_.
Proof. intros Hl. unfold renamed_words, renamed. by rewrite words_of_agree. Qed.

(** The lines of an ordinary text. *)
Lemma ordinary_lines t :
  ordinary t → splitlines t = newline_lines t ∧ ∀ i line, newline_lines t !! i = Some line → Forall (λ c, is_word c = is_ident c) line.
Proof.
  intros [Hn Hw]. split; [by apply newline_lines_split|]. intros i line Hl. rewrite <-(concat_newline_lines t) in Hw.
  apply Forall_concat in Hw. rewrite Forall_lookup in Hw. by eapply Hw.
Qed.

End words.

(** C34: An edit changes the line it names, and there exactly the places where
    the old name stands as a whole identifier outside quotes: what stands
    between them and every other line, line ends included, is kept.  It is
    skipped, for the reason it states, exactly when no line is recorded, the
    line is outside the text, or the name is empty or does not stand on it.
    This is so for an old name of ASCII letters, digits and underscores, in a
    text whose lines end in newlines, with or without carriage returns, and in
    which no character but those is one of an identifier, whatever the language
    takes for one: in other texts the edit may count lines otherwise, or rewrite
    a part of an identifier. *)
Theorem apply_edit_spec is_word content e :
  ordinary is_word content → Forall (λ c, is_ident c = true) (old e) →
  let lines := newline_lines content in
  apply_edit content e =
    match edit_line e with
    | None => inr "no_line_recorded"
    | Some target =>
        match (if (1 <=? target)%Z then lines !! Z.to_nat (target - 1) else None) with
        | None => inr "line_out_of_range"
        | Some line =>
            if bool_decide (old e = [] ∨ words_of is_word line (old e) = []) then inr "line_no_longer_matches"
            else inl (concat (take (Z.to_nat (target - 1)) lines) ++ renamed_words is_word line (old e) (new e) ++
                      concat (drop (Z.to_nat target) lines))
        end
    end ∧
  (∀ i line, lines !! i = Some line → old e ≠ [] → renamed_words is_word line (old e) (old e) = line).
Proof.
  intros Ho Hid lines. destruct (ordinary_lines is_word content Ho) as [Heq Hall]. fold lines in Heq, Hall.
  destruct (edit_applied content e Hid) as [He Hsame]. rewrite Heq in He. split.
  - rewrite He. destruct (edit_line e) as [target|]; [|done].
    destruct (if (1 <=? target)%Z then _ else None) as [line|] eqn:El; [|done].
    assert (Hl : Forall (λ c, is_word c = is_ident c) line) by (destruct (1 <=? target)%Z; [by eapply Hall|done]).
    by rewrite words_of_agree, renamed_agree.
  - intros i line Hl Hne. rewrite renamed_agree by by eapply Hall. by apply Hsame.
Qed.

(** ** The plan accounts for every edit *)

Lemma apply_group_spec t es :
  let '(c, n, skips) := apply_group t es in n + length skips = length es ∧ (n = 0 → c = t).
Proof.
  unfold apply_group. induction es as [|e es IH] using rev_ind; [done|]. rewrite foldl_snoc.
  destruct (foldl _ _ es) as [[c n] skips]. destruct IH as [Hn Hc]. rewrite length_app. cbn.
  destruct (apply_edit c e); [split; [lia|]; intros; lia|]. rewrite length_app. cbn. split; [lia|done].
Qed.

(** What a group adds to the plan. *)
Definition group_plan (fs : gmap string entry) (g : group) : list Planned * list (Edit * string) :=
  plan_file fs ([], []) g.

Lemma plan_file_app fs planned skips g :
  plan_file fs (planned, skips) g = (planned ++ (group_plan fs g).1, skips ++ (group_plan fs g).2).
Proof.
  destruct g as [[f p] es]. unfold group_plan, plan_file.
  destruct (fs !! p) as [[t| |]|]; cbn; rewrite ?app_nil_r; try done.
  destruct (apply_group t es) as [[c n] sk].
  destruct n; cbn; by rewrite ?app_nil_r.
Qed.

Lemma plan_edits_eq fs edits :
  plan_edits fs edits = (concat ((λ g, (group_plan fs g).1) <$> group_edits edits),
                         concat ((λ g, (group_plan fs g).2) <$> group_edits edits)).
Proof.
  unfold plan_edits. induction (group_edits edits) as [|g gs IH] using rev_ind; [done|].
  rewrite foldl_snoc, IH, plan_file_app, !fmap_app, !concat_app. cbn. by rewrite !app_nil_r.
Qed.

(** Groups: one for each file, in first-edit order, with its edits in order. *)
Definition groups_ok (edits : list (Edit * string)) (gs : list group) : Prop :=
  NoDup (fst ∘ fst <$> gs) ∧
  (∀ f p es, (f, p, es) ∈ gs → es = fst <$> filter (λ x, edit_file (fst x) = f) edits ∧
     ∃ e, (e, p) ∈ edits ∧ edit_file e = f) ∧
  (∀ e p, (e, p) ∈ edits → edit_file e ∈ (fst ∘ fst <$> gs)) ∧
  sum_list_with (λ g, length (snd g)) gs = length edits.

Lemma add_to_group_files gs e p :
  fst ∘ fst <$> add_to_group gs e p =
  if decide (edit_file e ∈ (fst ∘ fst <$> gs)) then fst ∘ fst <$> gs else (fst ∘ fst <$> gs) ++ [edit_file e].
Proof.
  induction gs as [|[[f p'] es] gs IH]; [done|]. cbn [add_to_group]. case_bool_decide as Hf.
  - subst f. rewrite decide_True by (cbn; left). done.
  - rewrite !fmap_cons, IH. cbn. destruct (decide (edit_file e ∈ (fst ∘ fst <$> gs))) as [Hin|Hin].
    + rewrite decide_True by (by right). done.
    + rewrite decide_False; [done|]. intros [?|?]%elem_of_cons; [by subst|done].
Qed.

Lemma add_to_group_elem gs e p f q es :
  NoDup (fst ∘ fst <$> gs) →
  (f, q, es) ∈ add_to_group gs e p ↔
    (f ≠ edit_file e ∧ (f, q, es) ∈ gs) ∨
    (f = edit_file e ∧ ((∃ es0, (f, q, es0) ∈ gs ∧ es = es0 ++ [e]) ∨
                        (f ∉ (fst ∘ fst <$> gs) ∧ q = p ∧ es = [e]))).
Proof.
  induction gs as [|[[f' p'] es'] gs IH]; intros Hnd; cbn [add_to_group].
  { rewrite list_elem_of_singleton. split.
    - intros [= -> -> ->]. right. split; [done|]. right. split; [apply not_elem_of_nil|done].
    - intros [[_ ?%not_elem_of_nil]|[-> [(? & ?%not_elem_of_nil & _)|(_ & -> & ->)]]]; done. }
  cbn in Hnd. apply NoDup_cons in Hnd as [Hn Hnd]. 
  assert (Hnot : ∀ q es, (f', q, es) ∉ gs).
  { intros q0 es0 Hin. apply Hn. apply list_elem_of_fmap. by exists (f', q0, es0). }
  case_bool_decide as Hf.
  - subst f'. rewrite !elem_of_cons. split.
    + intros [[= -> -> ->]|Hin].
      * right. split; [done|]. left. exists es'. split; [left|done].
      * left. split; [|by right]. intros ->. by eapply Hnot.
    + intros [[Hne [[= -> -> ->]|Hin]]|[-> [(es0 & [[= -> ->]|Hin]%elem_of_cons & ->)|(Hnin & _)]]]; try done.
      * by right.
      * by left.
      * by apply Hnot in Hin.
      * destruct Hnin. cbn. left.
  - rewrite !elem_of_cons, IH by done. cbn. setoid_rewrite elem_of_cons.
    assert (Hx : f = edit_file e → (f ∉ f' :: ((λ x, x.1.1) <$> gs)) ↔ f ∉ (fst ∘ fst <$> gs)).
    { intros ->. rewrite not_elem_of_cons. change (fst ∘ fst <$> gs) with ((λ x : group, x.1.1) <$> gs).
      naive_solver. }
    naive_solver.
Qed.

Lemma groups_ok_group_edits edits : groups_ok edits (group_edits edits).
Proof.
  unfold group_edits. induction edits as [|[e p] edits IH] using rev_ind.
  { split; [apply NoDup_nil_2|]. split; [intros ??? []%not_elem_of_nil|]. split; [intros ?? []%not_elem_of_nil|done]. }
  rewrite foldl_snoc. set (gs := foldl _ _ edits) in *. destruct IH as (Hnd & Hg & Hin & Hlen).
  assert (Hnd' : NoDup (fst ∘ fst <$> add_to_group gs e p)).
  { rewrite add_to_group_files. case_decide as Hc; [done|]. apply NoDup_app. split; [done|]. split; [|apply NoDup_singleton].
    intros f Hf ->%list_elem_of_singleton. by apply Hc. }
  split; [done|]. split; [|split].
  - intros f q es. rewrite add_to_group_elem by done. rewrite filter_app, fmap_app, filter_cons, filter_nil. cbn.
    intros [[Hf Hold]|[-> [(es0 & Hold & ->)|(Hnew & -> & ->)]]].
    + destruct (Hg _ _ _ Hold) as [-> (e0 & He0 & Hf0)]. rewrite decide_False by congruence. cbn.
      rewrite app_nil_r. split; [done|]. exists e0. rewrite elem_of_app. auto.
    + destruct (Hg _ _ _ Hold) as [-> (e0 & He0 & Hf0)]. rewrite decide_True by done.
      split; [done|]. exists e0. rewrite elem_of_app. auto.
    + rewrite decide_True by done. split.
      * assert (Hnil : filter (λ x : Edit * string, edit_file x.1 = edit_file e) edits = []).
        { apply elem_of_nil_inv. intros [e0 p0] [Hf H0]%list_elem_of_filter. cbn in Hf. apply Hnew. rewrite <-Hf. by eapply Hin. }
        by rewrite Hnil.
      * exists e. rewrite elem_of_app, list_elem_of_singleton. auto.
  - intros e0 p0. rewrite elem_of_app, list_elem_of_singleton, add_to_group_files.
    intros [H0|[= -> ->]]; case_decide; rewrite ?elem_of_app, ?list_elem_of_singleton; eauto.
  - rewrite length_app. cbn. rewrite <-Hlen. clear. induction gs as [|[[f q] es] gs IH]; [done|].
    cbn [add_to_group]. case_bool_decide; cbn; [rewrite length_app; cbn|rewrite IH]; lia.
Qed.

Lemma group_plan_elem fs f p es pl :
  pl ∈ (group_plan fs (f, p, es)).1 ↔
  ∃ t c n skips, fs !! p = Some (Text t) ∧ apply_group t es = (c, n, skips) ∧ 0 < n ∧ pl = mkPlanned f p t c n.
Proof.
  unfold group_plan, plan_file. destruct (fs !! p) as [[t| |]|]; cycle 1.
  1-3: split; [by intros ?%not_elem_of_nil|by intros (? & ? & ? & ? & ? & _)].
  destruct (apply_group t es) as [[c n] skips] eqn:Ha. destruct n as [|n]; cbn.
  - split; [by intros ?%not_elem_of_nil|]. intros (t' & c' & n' & skips' & [= <-] & Ha' & Hn & _).
    rewrite Ha in Ha'. injection Ha'. lia.
  - rewrite list_elem_of_singleton. split.
    + intros ->. exists t, c, (S n), skips. split_and!; [done..|lia|done].
    + intros (t' & c' & n' & skips' & [= <-] & Ha' & Hn & ->). rewrite Ha in Ha'. by injection Ha' as -> -> ->.
Qed.

Lemma planned_spec fs edits pl :
  pl ∈ (plan_edits fs edits).1 ↔
  ∃ f p es t c n skips, (f, p, es) ∈ group_edits edits ∧ fs !! p = Some (Text t) ∧
    apply_group t es = (c, n, skips) ∧ 0 < n ∧ pl = mkPlanned f p t c n.
Proof.
  rewrite plan_edits_eq. cbn [fst]. rewrite elem_of_concat. setoid_rewrite list_elem_of_fmap. split.
  - intros (l & Hpl & ([[f p] es] & -> & Hg)). apply group_plan_elem in Hpl as (t & c & n & skips & Hpl).
    by exists f, p, es, t, c, n, skips.
  - intros (f & p & es & t & c & n & skips & Hg & Hpl).
    exists (group_plan fs (f, p, es)).1. split; [|by exists (f, p, es)].
    apply group_plan_elem. by exists t, c, n, skips.
Qed.

Lemma plan_counts fs edits :
  sum_list_with count (plan_edits fs edits).1 + length (plan_edits fs edits).2 = length edits.
Proof.
  rewrite plan_edits_eq. cbn [fst snd].
  pose proof (groups_ok_group_edits edits) as (_ & _ & _ & Hlen). rewrite <-Hlen. clear Hlen.
  induction (group_edits edits) as [|[[f p] es] gs IH]; [done|].
  rewrite !fmap_cons. cbn [concat sum_list_with snd]. rewrite sum_list_with_app, length_app.
  assert (Hg : sum_list_with count (group_plan fs (f, p, es)).1 + length (group_plan fs (f, p, es)).2 = length es).
  { unfold group_plan, plan_file. destruct (fs !! p) as [[t| |]|]; cbn; rewrite ?length_fmap; try done.
    pose proof (apply_group_spec t es) as Ha. destruct (apply_group t es) as [[c n] skips].
    destruct Ha as [Ha _]. destruct n; cbn; lia. }
  lia.
Qed.

Section writes.
Context (writable : string → bool).

Lemma writes_lookup fs planned q :
  NoDup (path <$> planned) →
  (foldl (write_plan writable) (fs, 0, []) planned).1.1 !! q =
  match filter (λ pl, path pl = q) planned with
  | pl :: _ => if writable q then Some (Text (content pl)) else fs !! q
  | [] => fs !! q
  end.
Proof.
  induction planned as [|pl planned IH] using rev_ind; [done|]. rewrite foldl_snoc, fmap_app. cbn [fmap list_fmap].
  intros [Hnd [Hnot _]]%NoDup_app. specialize (IH Hnd). rewrite filter_app, filter_cons, filter_nil.
  destruct (foldl _ _ planned) as [[fs1 n] modified]. cbn [fst] in IH. unfold write_plan.
  case_decide as Hq; cycle 1.
  { rewrite app_nil_r, <-IH. destruct (writable (path pl)); [|done]. cbn. by rewrite lookup_insert_ne. }
  assert (Hnil : filter (λ pl, path pl = q) planned = []).
  { apply elem_of_nil_inv. intros x [Hx Hin]%list_elem_of_filter. apply (Hnot q); [|by apply list_elem_of_singleton].
    rewrite <-Hx. by apply list_elem_of_fmap_2. }
  rewrite Hnil in *. cbn [app]. rewrite <-IH, Hq. destruct (writable q); [|done]. cbn. by rewrite lookup_insert_eq.
Qed.

Lemma writes_count planned fs0 n0 modified0 :
  let '(_, n, _) := foldl (write_plan writable) (fs0, n0, modified0) planned in
  n ≤ n0 + sum_list_with count planned ∧
  ((∀ pl, pl ∈ planned → writable (path pl) = true) → n = n0 + sum_list_with count planned).
Proof.
  revert fs0 n0 modified0. induction planned as [|pl planned IH]; intros fs0 n0 modified0; [cbn; lia|].
  cbn [foldl sum_list_with]. unfold write_plan at 2.
  destruct (writable (path pl)) eqn:Hw.
  - specialize (IH (<[path pl := Text (content pl)]> fs0) (n0 + count pl)
      (if bool_decide (path pl ∈ modified0) then modified0 else modified0 ++ [path pl])).
    destruct (foldl _ _ planned) as [[fs' n] m]. destruct IH as [Hle Heq]. split; [lia|].
    intros Hall. rewrite Heq; [lia|]. intros x Hx. apply Hall. by right.
  - specialize (IH fs0 n0 modified0). destruct (foldl _ _ planned) as [[fs' n] m].
    destruct IH as [Hle _]. split; [lia|]. intros Hall. rewrite (Hall pl) in Hw by left. done.
Qed.

Lemma writes_same fs0 n0 modified0 planned q :
  (∀ pl, pl ∈ planned → path pl = q → writable q = false) →
  (foldl (write_plan writable) (fs0, n0, modified0) planned).1.1 !! q = fs0 !! q.
Proof.
  revert fs0 n0 modified0. induction planned as [|pl planned IH]; intros fs0 n0 modified0 Hq; [done|].
  cbn [foldl]. assert (Hrest : ∀ x, x ∈ planned → path x = q → writable q = false).
  { intros x Hx. apply Hq. by right. }
  unfold write_plan at 2. destruct (writable (path pl)) eqn:Hw; [|by apply IH].
  rewrite IH by done. apply lookup_insert_ne. intros Hp. rewrite Hp, (Hq pl) in Hw; [done|left|done].
Qed.

End writes.

(** The paths of the plan, when a path has one name. *)
Lemma plan_paths fs edits :
  (∀ e p e' p', (e, p) ∈ edits → (e', p') ∈ edits → edit_file e = edit_file e' ↔ p = p') →
  NoDup (path <$> (plan_edits fs edits).1) ∧
  ∀ f p es, (f, p, es) ∈ group_edits edits → es = fst <$> filter (λ x, snd x = p) edits.
Proof.
  intros Hone. pose proof (groups_ok_group_edits edits) as (Hnd & Hg & _).
  assert (Hps : NoDup ((λ g, snd (fst g)) <$> group_edits edits)).
  { assert (Hsub : ∀ gs : list group, (∀ g, g ∈ gs → g ∈ group_edits edits) → NoDup (fst ∘ fst <$> gs) →
      NoDup ((λ g, snd (fst g)) <$> gs)); [|by apply Hsub].
    induction gs as [|[[f p] es] gs IH]; [constructor|]. intros Hin [Hn Hnd0]%NoDup_cons.
    rewrite fmap_cons. apply NoDup_cons. split; [|apply IH; [intros g Hgin; apply Hin; by right|done]].
    intros ([[f' p'] es'] & Hp & Hin')%list_elem_of_fmap. cbn in Hp. subst p'. apply Hn.
    destruct (Hg f p es) as (_ & e & He & <-); [apply Hin; left|].
    destruct (Hg f' p es') as (_ & e' & He' & <-); [apply Hin; by right|].
    assert (edit_file e = edit_file e') as Heq by (by apply (Hone _ p _ p)).
    apply list_elem_of_fmap. by exists (edit_file e', p, es'). }
  split.
  - rewrite plan_edits_eq. cbn [fst]. clear Hnd Hg Hone. induction (group_edits edits) as [|[[f p] es] gs IH]; [constructor|].
    rewrite fmap_cons in Hps. apply NoDup_cons in Hps as [Hn Hps]. rewrite fmap_cons. cbn [concat].
    rewrite fmap_app. apply NoDup_app. split; [|split; [|by apply IH]].
    + unfold group_plan, plan_file. destruct (fs !! p) as [[t| |]|]; cbn; try constructor.
      destruct (apply_group t es) as [[c n] skips]. destruct n; cbn; [constructor|apply NoDup_singleton].
    + intros q Hq Hq'. apply Hn. apply list_elem_of_fmap in Hq' as (pl & -> & Hpl).
      apply elem_of_concat in Hpl as (l & Hpl & ([[f' p'] es'] & -> & Hin)%list_elem_of_fmap).
      apply list_elem_of_fmap. exists (f', p', es'). split; [|done]. cbn.
      apply list_elem_of_fmap in Hq as (pl' & Hq & Hpl').
      apply group_plan_elem in Hpl as (? & ? & ? & ? & _ & _ & _ & ->), Hpl' as (? & ? & ? & ? & _ & _ & _ & ->). done.
  - intros f p es Hin. destruct (Hg f p es Hin) as (-> & e & He & Hf). f_equal. apply list_filter_ext_in.
    intros [e' p'] Hin'. cbn. rewrite <-Hf. rewrite (Hone _ _ _ _ Hin' He). done.
Qed.

Lemma resolve_edits_ok resolve root edits l :
  resolve_edits resolve root edits = Some (inl l) →
  ∀ e p, (e, p) ∈ l → e ∈ edits ∧ resolve (edit_file e) = Some p ∧ inside root p = true.
Proof.
  revert l. induction edits as [|e0 edits IH]; intros l; cbn [resolve_edits].
  { intros [= <-] e p []%not_elem_of_nil. }
  destruct (resolve (edit_file e0)) as [p0|] eqn:Hr; [|done]. cbn.
  destruct (inside root p0) eqn:Hi; cbn; [|done].
  destruct (resolve_edits resolve root edits) as [[l0|m]|]; cbn; [|done..].
  intros [= <-] e p [[= -> ->]|Hin]%elem_of_cons; [split; [left|done]|].
  destruct (IH l0 eq_refl e p Hin) as [He Hp]. split; [by right|done].
Qed.

(** ** Properties of the plan *)

Lemma planned_writes writable utf8 edits fs q :
  (∀ e p e' p', (e, p) ∈ edits → (e', p') ∈ edits → edit_file e = edit_file e' ↔ p = p') →
  (apply_planned writable utf8 false edits fs).1 !! q =
  match fs !! q with
  | Some (Text t) =>
      if writable q then Some (Text (apply_group t (fst <$> filter (λ x, snd x = q) edits)).1.1) else Some (Text t)
  | other => other
  end.
Proof.
  intros Hone. pose proof (groups_ok_group_edits edits) as (_ & _ & Hin & _).
  destruct (plan_paths fs edits Hone) as [Hnd Hes]. pose proof (planned_spec fs edits) as Hspec.
  unfold apply_planned. destruct (plan_edits fs edits) as [planned skips]. cbn [fst] in *. 
  pose proof (writes_lookup writable fs planned q Hnd) as Hw.
  destruct (foldl _ _ planned) as [[fs' n] modified]. cbn [fst] in *. rewrite Hw. clear Hw fs' n modified.
  destruct (filter (λ pl, path pl = q) planned) as [|pl pls] eqn:Hf.
  - destruct (fs !! q) as [[t| |]|] eqn:Hq; try done.
    enough ((apply_group t (fst <$> filter (λ x, x.2 = q) edits)).1.1 = t) as -> by by destruct (writable q).
    destruct (apply_group t _) as [[c n] skips'] eqn:Ha.
    pose proof (apply_group_spec t (fst <$> filter (λ x, x.2 = q) edits)) as Hg. rewrite Ha in Hg.
    destruct Hg as [_ Hc]. destruct n as [|n]; [by apply Hc|]. exfalso.
    destruct (fst <$> filter (λ x, x.2 = q) edits) as [|e0 es0] eqn:Hes0; [by injection Ha|].
    assert (He0 : e0 ∈ fst <$> filter (λ x, x.2 = q) edits) by (rewrite Hes0; left).
    apply list_elem_of_fmap in He0 as ([e p] & -> & [Hp He]%list_elem_of_filter). cbn in Hp. subst p.
    pose proof (Hin e q He) as ([[f p] es] & Hfe & Hgr)%list_elem_of_fmap.
    assert (p = q) as ->.
    { pose proof (groups_ok_group_edits edits) as (_ & Hg & _). destruct (Hg _ _ _ Hgr) as (_ & e' & He' & Hf').
      apply (Hone _ _ _ _ He' He). cbn in Hfe. congruence. }
    assert (Hpl : mkPlanned f q t c (S n) ∈ planned).
    { apply Hspec. exists f, q, es, t, c, (S n), skips'. rewrite (Hes _ _ _ Hgr), Hes0. split_and!; try done; [|lia].
      by rewrite (Hes _ _ _ Hgr), Hes0 in Hgr. }
    apply (not_elem_of_nil (mkPlanned f q t c (S n))). rewrite <-Hf. by apply list_elem_of_filter.
  - assert (Hpl : pl ∈ filter (λ pl, path pl = q) planned) by (rewrite Hf; left).
    apply list_elem_of_filter in Hpl as [Hpq (f & p & es & t & c & n & skips' & Hgr & Hp & Ha & _ & ->)%Hspec].
    cbn in Hpq |- *. subst p. rewrite Hp, <-(Hes _ _ _ Hgr), Ha. done.
Qed.

(** The files after the edits are written: a file that can be written holds
    its text with the edits that name it applied, in their order, each to what
    the ones before it left; every other path, and every file no edit names, is
    as it was. It is assumed that a path is named by one string, which the code
    relies on. *)
Theorem apply_planned_writes writable utf8 edits fs q :
  (∀ e p e' p', (e, p) ∈ edits → (e', p') ∈ edits → edit_file e = edit_file e' ↔ p = p') →
  (apply_planned writable utf8 false edits fs).1 !! q =
  match fs !! q with
  | Some (Text t) =>
      if writable q then Some (Text (apply_group t (fst <$> filter (λ x, snd x = q) edits)).1.1) else Some (Text t)
  | other => other
  end.
Proof. apply planned_writes. Qed.

(** Every edit is counted once, as applied or as skipped: the dry run
    leaves the files as they are and announces exactly what is counted when
    every file it names can be written; otherwise less is counted, never more.
    Both report the same skipped edits, and [ok] exactly when there is none. *)
Theorem apply_planned_counts writable utf8 edits fs :
  let '(fs1, dry) := apply_planned writable utf8 true edits fs in
  let '(fs2, real) := apply_planned writable utf8 false edits fs in
  fs1 = fs ∧ applied dry = 0 ∧ skipped real = skipped dry ∧
  edits_applied dry + length (skipped dry) = length edits ∧
  edits_applied real = applied real ∧ applied real ≤ edits_applied dry ∧
  ((∀ p, writable p = true) → applied real = edits_applied dry) ∧
  status real = status dry ∧ (status dry = "ok" ↔ skipped dry = []).
Proof.
  unfold apply_planned. pose proof (plan_counts fs edits) as Hc. destruct (plan_edits fs edits) as [planned skips].
  pose proof (writes_count writable planned fs 0 []) as Hw. destruct (foldl _ _ planned) as [[fs' n] modified].
  cbn in *. destruct Hw as [Hle Heq]. split_and!; try done.
  - intros Hall. by apply Heq.
  - by case_bool_decide.
Qed.

(** Whatever a refactoring's edits name, a file changes only when it is a
    readable file that one of them resolves to, inside the root, and the call is
    no dry run; when any of them resolves outside the root, the answer is an
    error and no file changes. *)
Theorem apply_edits_inside writable utf8 resolve root dry edits fs fs' r :
  apply_edits writable utf8 resolve root dry edits fs = Some (fs', r) →
  (∀ q, fs' !! q ≠ fs !! q →
     dry = false ∧ writable q = true ∧ inside root q = true ∧ (∃ t, fs !! q = Some (Text t)) ∧
     ∃ e, e ∈ edits ∧ resolve (edit_file e) = Some q) ∧
  ((∃ e q, e ∈ edits ∧ resolve (edit_file e) = Some q ∧ inside root q = false) →
     fs' = fs ∧ ∃ message, r = inr message).
Proof.
  unfold apply_edits. case_bool_decide as He.
  { intros [= <- <-]. split; [done|]. intros (e & _ & Hin & _). subst edits. by apply not_elem_of_nil in Hin. }
  destruct (resolve_edits resolve root edits) as [[l|m]|] eqn:Hl; cbn; [| |done].
  2:{ intros [= <- <-]. split; [done|]. intros _. split; [done|]. by eexists. }
  destruct (apply_planned writable utf8 dry l fs) as [fs1 out] eqn:Hp. intros [= <- <-]. split.
  - intros q Hq. unfold apply_planned in Hp. pose proof (planned_spec fs l) as Hspec.
    destruct (plan_edits fs l) as [planned skips]. destruct dry; [by injection Hp as <- _|]. split; [done|].
    pose proof (writes_same writable fs 0 [] planned q) as Hsame.
    destruct (foldl _ _ planned) as [[fs2 n] modified]. injection Hp as <- _. cbn [fst] in Hsame.
    destruct (decide (Exists (λ pl, path pl = q ∧ writable q = true) planned)) as [Hex|Hno].
    + apply Exists_exists in Hex as (pl & Hpl & Hpq & Hw).
      apply Hspec in Hpl as (f & p & es & t & c & k & sk & Hgr & Ht & _ & _ & ->). cbn in Hpq. subst p.
      pose proof (groups_ok_group_edits l) as (_ & Hg & _). destruct (Hg _ _ _ Hgr) as (_ & e & Hel & _).
      destruct (resolve_edits_ok _ _ _ _ Hl _ _ Hel) as (Hin & Hr & Hins). eauto 10.
    + destruct Hq. apply Hsame. intros pl Hpl Hpq. apply not_true_is_false. intros Hw. apply Hno.
      apply Exists_exists. eauto.
  - intros (e & q & Hin & Hr & Hout). exfalso.
    clear Hp He. revert l Hl. induction edits as [|e0 edits IH]; intros l; [by apply not_elem_of_nil in Hin|].
    cbn [resolve_edits]. apply elem_of_cons in Hin as [->|Hin].
    + rewrite Hr. cbn. by rewrite Hout.
    + destruct (resolve (edit_file e0)) as [p0|]; [|done]. cbn. destruct (negb _); [done|].
      destruct (resolve_edits resolve root edits) as [[l0|m]|] eqn:Hl0; cbn; [|done..]. intros _.
      by apply (IH Hin l0).
Qed.

(** ** Witnesses *)

Definition demo_edit (f : string) (line : Z) : Edit := mkEdit f (Some line) (chars "old") (chars "new").
Definition demo_fs : gmap string entry :=
  {[ "/r/a.py" := Text (chars "old = old_2 + 'old' + old
old"); "/r/b.py" := Unreadable ]}.
Definition demo_edits : list (Edit * string) :=
  [(demo_edit "a.py" 1, "/r/a.py"); (demo_edit "b.py" 1, "/r/b.py"); (demo_edit "a.py" 2, "/r/a.py"); (demo_edit "a.py" 3, "/r/a.py")].

(** A text with a dash that no language takes for part of an identifier. *)
Definition demo_text : text := chars "x " ++ [8212; 13; 10]%N ++ chars "old = old_2 + 'old' + old".

(** Letters beyond ASCII count too. *)
Definition demo_word (c : char) : bool := is_ident c || ((192 <=? c)%N && (c <=? 591)%N).

Lemma demo_ordinary : ordinary demo_word demo_text.
Proof.
  split; [|by apply (bool_decide_unpack _); vm_compute]. cbn. repeat (split; [done|]; split; [done|]). done.
Qed.

Lemma apply_edit_spec_witness :
  ordinary demo_word demo_text ∧ Forall (λ c, is_ident c = true) (old (demo_edit "a.py" 2)) ∧
  apply_edit demo_text (demo_edit "a.py" 2) = inl (chars "x " ++ [8212; 13; 10]%N ++ chars "new = old_2 + 'old' + new").
Proof.
  split; [exact demo_ordinary|]. split; [repeat constructor|].
  rewrite (proj1 (apply_edit_spec demo_word demo_text (demo_edit "a.py" 2) demo_ordinary ltac:(repeat constructor))).
  vm_compute. reflexivity.
Defined.

Lemma demo_one_name : ∀ e p e' p', (e, p) ∈ demo_edits → (e', p') ∈ demo_edits → edit_file e = edit_file e' ↔ p = p'.
Proof.
  assert (H : Forall (λ x, Forall (λ y, edit_file (fst x) = edit_file (fst y) ↔ snd x = snd y) demo_edits) demo_edits).
  { repeat constructor; done. }
  intros e p e' p' H1 H2. rewrite Forall_forall in H. specialize (H _ H1). rewrite Forall_forall in H. by specialize (H _ H2).
Qed.

Lemma apply_planned_writes_witness :
  (apply_planned (λ _, true) (λ _, "") false demo_edits demo_fs).1 !! "/r/a.py" = Some (Text (chars "new = old_2 + 'old' + new
new")).
Proof.
  rewrite (apply_planned_writes (λ _, true) (λ _, "") demo_edits demo_fs "/r/a.py" demo_one_name).
  vm_compute. reflexivity.
Defined.

Definition demo_resolve (f : string) : option string := Some ("/r/" +:+ f).

Lemma apply_edits_inside_witness :
  ∃ fs' r, apply_edits (λ _, true) (λ _, "") demo_resolve "/r" false [demo_edit "a.py" 1] demo_fs = Some (fs', r) ∧
    (fs' !! "/r/a.py" ≠ demo_fs !! "/r/a.py" → inside "/r" "/r/a.py" = true).
Proof.
  destruct (apply_edits (λ _, true) (λ _, "") demo_resolve "/r" false [demo_edit "a.py" 1] demo_fs) as [[fs' r]|] eqn:E.
  - exists fs', r. split; [reflexivity|]. intros Hq.
    exact (proj1 (proj2 (proj2 (proj1 (apply_edits_inside _ _ _ _ _ _ _ _ _ E) "/r/a.py" Hq)))).
  - exfalso. revert E. vm_compute. discriminate.
Defined.

(** Two names of one file: the second write starts from the original again, so
    the first edit is lost, though both are counted. *)
Example two_names_one_file :
  let edits := [(demo_edit "a.py" 1, "/r/a.py"); (demo_edit "./a.py" 2, "/r/a.py")] in
  let '(fs, out) := apply_planned (λ _, true) (λ _, "") false edits demo_fs in
  fs !! "/r/a.py" = Some (Text (chars "old = old_2 + 'old' + old
new")) ∧ applied out = 2.
Proof. vm_compute. done. Qed.

End Apply.
