(* ===== verification/RenameLines.v ===== *)
(** * What a rename leaves of a file

    The edits of a rename name one identifier and one replacement, each on a line
    of its own: whatever their order, the file then holds those lines renamed and
    every other line as it was (crates/dagayn-tools/src/apply.rs, difflib.rs). *)
From S2P Require Import Prelude Difflib Apply.
Import Difflib Apply.

Module RenameLines.

#[local] Set Default Proof Using "Type".

(** ** Lines and their ends *)

(** What ends a line. *)
Definition line_end (t : text) : Prop := t = [13%N] ∨ t = [13%N; 10%N] ∨ ∃ c, is_boundary c = true ∧ t = [c].

Lemma ended_split x : ended_line x ↔ ∃ body t, plain body ∧ line_end t ∧ x = body ++ t.
Proof.
  split.
  - intros (body & Hp & Hx). destruct Hx as [->|[->|(c & Hc & ->)]]; eexists body, _; (split; [done|]); (split; [|done]); unfold line_end; eauto.
  - intros (body & t & Hp & Ht & ->). exists body. split; [done|]. destruct Ht as [->|[->|(c & Hc & ->)]]; eauto.
Qed.

Lemma splitlines_body current body s :
  plain body → splitlines_from current (body ++ s) = splitlines_from (current ++ body) s.
Proof.
  intros Hb. revert current. induction Hb as [|c body [H13 Hc] _ IH]; intros current; [by rewrite app_nil_r|].
  cbn [app splitlines_from]. rewrite (proj2 (N.eqb_neq c 13)) by done. rewrite Hc, IH. by rewrite <-app_assoc.
Qed.

Lemma splitlines_ended x s :
  ended_line x → (last x = Some 13%N → head s ≠ Some 10%N) → splitlines (x ++ s) = x :: splitlines s.
Proof.
  intros (body & t & Hp & Ht & ->)%ended_split Hcr. unfold splitlines. rewrite <-app_assoc, (splitlines_body [] body) by done. cbn [app].
  destruct Ht as [->|[->|(c & Hc & ->)]]; cbn [app splitlines_from N.eqb Pos.eqb].
  - destruct s as [|d s]; [done|]. rewrite last_snoc in Hcr. cbn in Hcr. destruct (decide (d = 10%N)) as [->|Hd]; [by destruct Hcr|].
    repeat (case_match; try done).
  - by rewrite <-app_assoc.
  - rewrite Hc. destruct (N.eqb_spec c 13) as [->|]; [by vm_compute in Hc|done].
Qed.

(** Lines are what they are split into. *)
Lemma splitlines_concat l : lines_ok l → splitlines (concat l) = l.
Proof.
  assert (Hne : ∀ l, lines_ok l → Forall (λ y, y ≠ []) l).
  { clear. induction l as [|x [|y l] IH]; intros Hl; [constructor|by repeat constructor; destruct Hl|].
    destruct Hl as (Hx & _ & Hl). constructor; [by apply ended_line_nonempty|by apply IH]. }
  induction l as [|x l IH]; intros Hl; [done|]. cbn [concat]. destruct l as [|y l].
  - destruct Hl as [Hx [Hp|He]].
    + cbn [concat]. unfold splitlines. rewrite splitlines_body by done. cbn. by destruct x.
    + rewrite splitlines_ended; [done|done|done].
  - destruct Hl as (Hx & Hcr & Hl). rewrite splitlines_ended; [by rewrite IH|done|].
    intros Hlast. specialize (Hcr Hlast). specialize (Hne _ Hl). cbn [concat]. apply Forall_cons in Hne as [Hy _]. by destruct y.
Qed.

(** What may stand in the place of a line. *)
Record replaces (line after : text) : Prop := mkReplaces {
  replaces_plain : plain line → plain after;
  replaces_ended : ended_line line → ended_line after ∧ last after = last line;
  replaces_head : head after = Some 10%N → head line = Some 10%N;
  replaces_nonempty : line ≠ [] → after ≠ []
}.

Lemma lines_ok_insert lines i line after :
  lines_ok lines → lines !! i = Some line → replaces line after → lines_ok (<[i := after]> lines).
Proof.
  revert i. induction lines as [|x l IH]; intros i Hl Hi [Hp He Hh Hn]; [done|]. destruct i as [|i]; cbn in Hi.
  - injection Hi as ->. cbn. destruct l as [|y l]; cbn [lines_ok] in *.
    + destruct Hl as [Hx [Hpl|Hel]]; (split; [by apply Hn|]); [left; by apply Hp|right; by apply He].
    + destruct Hl as (Hx & Hcr & Hl). destruct (He Hx) as [Ha ->]. done.
  - destruct l as [|y l]; [done|]. destruct Hl as (Hx & Hcr & Hl). specialize (IH i Hl Hi ltac:(done)).
    cbn. destruct i as [|i]; cbn in *.
    + injection Hi as ->. split; [done|]. split; [|done]. intros Hlast Hhd. by apply (Hcr Hlast), Hh.
    + done.
Qed.

(** ** Renaming a line *)

Section rename.
Context (name by_ : text).
Context (name_nonempty : name ≠ []) (name_ident : Forall (λ c, is_ident c = true) name) (by_nonempty : by_ ≠ []) (by_plain : plain by_).

Lemma ident_plain : plain name.
Proof using name_ident.
  unfold plain. eapply Forall_impl; [exact name_ident|]. cbn. intros c Hc. unfold is_ident, is_ascii_alphanumeric in Hc.
  split; [by intros ->|]. apply not_true_is_false. intros Hb. unfold is_boundary in Hb.
  rewrite !orb_true_iff, !N.eqb_eq in Hb. by destruct Hb as [[[[[[[[->| ->]| ->]| ->]| ->]| ->]| ->]| ->]| ->].
Qed.

Lemma glue_plain pieces : Forall plain pieces → plain (glue by_ pieces).
Proof using by_plain.
  induction 1 as [|p [|q ps] Hp Hps IH]; [constructor|done|]. cbn [glue]. unfold plain in *.
  by repeat (apply Forall_app; split).
Qed.

Lemma cut_plain pos spans line : plain line → Forall plain (cut_at pos spans (length name) line).
Proof.
  intros Hl. revert pos. induction spans as [|s spans IH]; intros pos; cbn; repeat constructor; try by apply Forall_drop.
  - by apply Forall_take, Forall_drop.
  - apply IH.
Qed.

Lemma glue_cut_end pos spans body t :
  apart pos spans (length name) body →
  glue by_ (cut_at pos spans (length name) (body ++ t)) = glue by_ (cut_at pos spans (length name) body) ++ t.
Proof.
  revert pos. induction spans as [|s spans IH]; intros pos Ha.
  - cbn in *. by rewrite drop_app_le.
  - destruct Ha as [Hp Ha]. pose proof (apart_length _ _ _ _ Ha) as Hs. rewrite !glue_cut, (IH _ Ha).
    rewrite drop_app_le by lia. rewrite take_app_le by (rewrite length_drop; lia). by rewrite <-!app_assoc.
Qed.

(** An occurrence of the name does not reach into the end of a line. *)
Lemma apart_body pos spans body t :
  plain body → line_end t → (∀ s, s ∈ spans → starts_with (drop s (body ++ t)) name = true) →
  pos ≤ length body → apart pos spans (length name) (body ++ t) → apart pos spans (length name) body.
Proof using name_nonempty name_ident.
  intros Hb Ht Hs. revert pos. induction spans as [|s spans IH]; intros pos Hpos Ha; [done|]. destruct Ha as [Hp Ha].
  pose proof (apart_length _ _ _ _ Ha) as Hl. rewrite length_app in Hl.
  assert (Hin : s + length name ≤ length body).
  { destruct (decide (s + length name ≤ length body)) as [|Hgt]; [done|]. exfalso.
    assert (Hlast : ∃ k c, name !! k = Some c ∧ length body ≤ s + k).
    { exists (length name - 1). destruct (lookup_lt_is_Some_2 name (length name - 1)) as [c Hc]; [destruct name; [done|cbn; lia]|]. exists c. split; [done|lia]. }
    destruct Hlast as (k & c & Hc & Hk). pose proof (starts_with_lookup _ _ _ _ (Hs s ltac:(left)) Hc) as Hl'.
    rewrite lookup_drop, lookup_app_r in Hl' by done. pose proof ident_plain as Hnp. unfold plain in Hnp. rewrite Forall_lookup in Hnp.
    destruct (Hnp _ _ Hc) as [H13 Hbd]. apply list_elem_of_lookup_2 in Hl'.
    destruct Ht as [->|[->|(d & Hd & ->)]]; apply elem_of_cons in Hl' as [->|Hl']; try done; try congruence;
      try (apply elem_of_cons in Hl' as [->|Hl']; [done|]); by apply not_elem_of_nil in Hl'. }
  split; [done|]. apply IH; [|done|done]. intros x Hx. apply Hs. by right.
Qed.

Lemma renamed_parts body t :
  plain body → line_end t → renamed (body ++ t) name by_ = glue by_ (cut_at 0 (whole_spans (body ++ t) name) (length name) body) ++ t.
Proof using name_nonempty name_ident.
  intros Hb Ht. unfold renamed. apply glue_cut_end, (apart_body _ _ _ t); [done|done| |lia|by apply whole_spans_apart].
  by intros s (_ & _ & Hs & _)%elem_of_whole_spans.
Qed.

Lemma glue_nonempty s spans line : glue by_ (cut_at 0 (s :: spans) (length name) line) ≠ [].
Proof using by_nonempty. rewrite glue_cut. intros [_ [Hb _]%app_eq_nil]%app_eq_nil. done. Qed.

Lemma renamed_replaces line : replaces line (renamed line name by_).
Proof using All.
  destruct (decide (whole_spans line name = [])) as [Hnone|Hsome].
  { assert (Hr : renamed line name by_ = line) by (unfold renamed; by rewrite Hnone). rewrite Hr. by split. }
  destruct (whole_spans line name) as [|s ss] eqn:Hw; [done|]. clear Hsome.
  assert (Hplain : plain line → plain (renamed line name by_)) by (intros Hp; apply glue_plain, cut_plain, Hp).
  assert (Hparts : ended_line line → ∃ body t, plain body ∧ line_end t ∧ body ≠ [] ∧ renamed line name by_ = body ++ t ∧ last line = last t).
  { intros (body & t & Hb & Ht & Heq)%ended_split. exists (glue by_ (cut_at 0 (whole_spans line name) (length name) body)), t.
    split_and!; [by apply glue_plain, cut_plain|done|rewrite Hw; apply glue_nonempty|subst; by apply renamed_parts|].
    subst. rewrite last_app. destruct Ht as [->|[->|(c & _ & ->)]]; done. }
  split.
  - done.
  - intros (body & t & Hb & Ht & _ & -> & ->)%Hparts. split; [apply ended_split; by exists body, t|].
    rewrite last_app. destruct Ht as [->|[->|(c & _ & ->)]]; done.
  - intros Hh. unfold renamed in Hh. rewrite Hw, glue_cut in Hh. cbn [Nat.sub] in Hh. rewrite drop_0, Nat.sub_0_r in Hh.
    destruct (take s line) as [|c l] eqn:Ht.
    + exfalso. destruct by_ as [|c l]; [done|]. cbn in Hh. injection Hh as ->. unfold plain in by_plain. rewrite Forall_cons in by_plain.
      by destruct by_plain as [[_ ?] _].
    + cbn in Hh. injection Hh as ->. destruct line, s; naive_solver.
  - intros _. unfold renamed. rewrite Hw. apply glue_nonempty.
Qed.

(** ** Renaming the lines of a text *)

(** The lines named by [targets], from one, renamed. *)
Definition rename_at (targets : list Z) (lines : list text) : list text :=
  imap (λ i line, if bool_decide (Z.of_nat i + 1 ∈ targets)%Z then renamed line name by_ else line) lines.

(** Whether the name stands on the line of an edit. *)
Definition stands_on (lines : list text) (e : Edit) : bool :=
  match edit_line e with
  | Some target => match (if (1 <=? target)%Z then lines !! Z.to_nat (target - 1) else None) with
                   | Some line => negb (bool_decide (whole_spans line name = []))
                   | None => false
                   end
  | None => false
  end.

(** An edit of this rename. *)
Definition renames (e : Edit) : Prop := old e = name ∧ new e = by_.

Lemma rename_at_lookup targets lines i :
  rename_at targets lines !! i = (λ line, if bool_decide (Z.of_nat i + 1 ∈ targets)%Z then renamed line name by_ else line) <$> lines !! i.
Proof. unfold rename_at. by rewrite list_lookup_imap. Qed.

Lemma rename_nowhere lines : rename_at [] lines = lines.
Proof. apply list_eq. intros i. rewrite rename_at_lookup. by destruct (lines !! i). Qed.

Lemma rename_at_length targets lines : length (rename_at targets lines) = length lines.
Proof. apply length_imap. Qed.

Lemma renamed_without line : whole_spans line name = [] → renamed line name by_ = line.
Proof. unfold renamed. by intros ->. Qed.

Lemma rename_one_more targets lines target :
  rename_at (targets ++ [target]) lines =
  match (if (1 <=? target)%Z then lines !! Z.to_nat (target - 1) else None) with
  | Some line => if bool_decide (target ∈ targets) then rename_at targets lines
                 else <[Z.to_nat (target - 1) := renamed line name by_]> (rename_at targets lines)
  | None => rename_at targets lines
  end.
Proof.
  apply list_eq. intros i. rewrite rename_at_lookup.
  assert (Hold : (∀ line, lines !! i = Some line → (Z.of_nat i + 1 ≠ target)%Z ∨ target ∈ targets) →
    (λ line, if bool_decide (Z.of_nat i + 1 ∈ targets ++ [target])%Z then renamed line name by_ else line) <$> lines !! i = rename_at targets lines !! i).
  { intros Hi. rewrite rename_at_lookup. destruct (lines !! i) as [line|]; [|done]. cbn. f_equal.
    erewrite bool_decide_ext; [done|]. rewrite elem_of_app, list_elem_of_singleton. destruct (Hi line eq_refl); naive_solver. }
  destruct (Z.leb_spec 1 target) as [H1|H1].
  - destruct (lines !! Z.to_nat (target - 1)) as [line|] eqn:Hl.
    + destruct (decide (target ∈ targets)) as [Ht|Ht]; [rewrite (bool_decide_eq_true_2 _ Ht); apply Hold; by right|].
      rewrite (bool_decide_eq_false_2 _ Ht). destruct (decide (i = Z.to_nat (target - 1))) as [->|Hne].
      * rewrite Hl. cbn. rewrite list_lookup_insert_eq by (rewrite rename_at_length; by eapply lookup_lt_Some).
        rewrite bool_decide_eq_true_2; [done|]. apply elem_of_app. right. apply list_elem_of_singleton. lia.
      * rewrite list_lookup_insert_ne by done. apply Hold. left. lia.
    + apply Hold. intros line Hi. left. intros Heq. assert (i = Z.to_nat (target - 1)) as -> by lia. congruence.
  - apply Hold. intros line _. left. lia.
Qed.

Lemma rename_at_ok targets lines : lines_ok lines → lines_ok (rename_at targets lines).
Proof using All.
  intros Hl. induction targets as [|target targets IH] using rev_ind.
  - by rewrite rename_nowhere.
  - rewrite rename_one_more. destruct (if (1 <=? target)%Z then _ else None) as [line|] eqn:Hline; [|done].
    destruct (decide (target ∈ targets)) as [Ht|Ht]; [by rewrite (bool_decide_eq_true_2 _ Ht)|rewrite (bool_decide_eq_false_2 _ Ht)].
    destruct (Z.leb_spec 1 target); [|done].
    eapply lines_ok_insert; [done| |apply renamed_replaces]. rewrite rename_at_lookup, Hline. cbn.
    rewrite bool_decide_eq_false_2; [done|]. by replace (Z.of_nat (Z.to_nat (target - 1)) + 1)%Z with target by lia.
Qed.

(** The edits of a rename, no two of one line, in any order: the lines they name
    are renamed, where the name stands on them, and all else stays; those on
    which it does not stand are skipped. *)
Lemma group_renamed t es :
  Forall renames es → NoDup (edit_line <$> es) →
  ∃ skips, apply_group t es =
    (concat (rename_at (omap edit_line es) (splitlines t)), length (filter (λ e, stands_on (splitlines t) e = true) es), skips) ∧
    skips.*1 = filter (λ e, stands_on (splitlines t) e = false) es.
Proof using All.
  intros Hes Hnd. set (lines := splitlines t). unfold apply_group. induction es as [|e es IH] using rev_ind.
  { exists []. cbn. split; [|done]. unfold lines. by rewrite rename_nowhere, concat_splitlines. }
  apply Forall_app in Hes as [Hes [Hold Hnew]%Forall_singleton]. rewrite fmap_app in Hnd. apply NoDup_app in Hnd as (Hnd & Hdis & _).
  destruct (IH Hes Hnd) as (skips & Hrun & Hskips). rewrite foldl_snoc, Hrun. clear IH Hrun.
  set (targets := omap edit_line es). rewrite omap_app, !filter_app, !length_app.
  assert (Hid : Forall (λ c, is_ident c = true) (old e)) by by rewrite Hold.
  destruct (edit_applied (concat (rename_at targets lines)) e Hid) as [He _]. cbv zeta in He. rewrite Hold, Hnew in He.
  assert (Hok : lines_ok lines) by apply (splitlines_from_spec (length t) t [] (Nat.le_refl _) (Forall_nil_2 _)).
  rewrite splitlines_concat in He by by apply rename_at_ok.
  assert (Hstand : stands_on lines e = stands_on lines e) by done. unfold stands_on in Hstand at 1.
  cbn [omap list_omap]. rewrite !filter_cons, !filter_nil.
  destruct (edit_line e) as [target|] eqn:Hel.
  2:{ rewrite He, <-Hstand. cbn. exists (skips ++ [(e, "no_line_recorded")]).
      rewrite !app_nil_r, fmap_app, Hskips. split; [|done].
      destruct (decide (false = true)); [done|]. cbn. by rewrite Nat.add_0_r. }
  assert (Hnot : target ∉ targets).
  { intros (x & Hx & Hxl)%list_elem_of_omap. apply (Hdis (Some target)); [apply list_elem_of_fmap; by exists x|].
    apply list_elem_of_fmap. exists e. by split; [|left]. }
  rewrite rename_one_more, (bool_decide_eq_false_2 (target ∈ targets)) by done.
  assert (Hsame : (if (1 <=? target)%Z then rename_at targets lines !! Z.to_nat (target - 1) else None) =
                  (if (1 <=? target)%Z then lines !! Z.to_nat (target - 1) else None)).
  { destruct (Z.leb_spec 1 target); [|done]. rewrite rename_at_lookup. destruct (lines !! Z.to_nat (target - 1)); [|done]. cbn.
    rewrite bool_decide_eq_false_2; [done|]. by replace (Z.of_nat (Z.to_nat (target - 1)) + 1)%Z with target by lia. }
  rewrite Hsame in He. destruct (if (1 <=? target)%Z then lines !! Z.to_nat (target - 1) else None) as [line|] eqn:Hline.
  2:{ rewrite He, <-Hstand. cbn. exists (skips ++ [(e, "line_out_of_range")]). rewrite fmap_app, Hskips. split; [|done].
      destruct (decide (false = true)); [done|]. cbn. by rewrite Nat.add_0_r. }
  destruct (decide (whole_spans line name = [])) as [Hw|Hw].
  - rewrite bool_decide_eq_true_2 in He by by right. rewrite He, <-Hstand, bool_decide_eq_true_2 by done. cbn.
    exists (skips ++ [(e, "line_no_longer_matches")]). rewrite fmap_app, Hskips. split; [|done].
    destruct (decide (false = true)); [done|]. cbn. rewrite Nat.add_0_r. do 2 f_equal.
    rewrite (renamed_without line Hw). f_equal. symmetry. apply list_insert_id. destruct (Z.leb_spec 1 target); [|done].
    by rewrite Hsame.
  - rewrite bool_decide_eq_false_2 in He by naive_solver. rewrite He, <-Hstand, bool_decide_eq_false_2 by done. cbn.
    exists skips. rewrite app_nil_r. split; [|done].
    destruct (decide (true = true)); [|done]. cbn. do 2 f_equal.
    destruct (Z.leb_spec 1 target); [|done]. rewrite insert_take_drop by (rewrite rename_at_length; by eapply lookup_lt_Some).
    rewrite concat_app. cbn [concat]. by replace (S (Z.to_nat (target - 1))) with (Z.to_nat target) by lia.
Qed.

End rename.

(** ** The renaming as a reader takes it *)

(** The lines named by [targets], from one, with the whole identifiers renamed. *)
Definition rename_words (is_name : char → bool) (name by_ : text) (targets : list Z) (lines : list text) : list text :=
  imap (λ i line, if bool_decide (Z.of_nat i + 1 ∈ targets)%Z then renamed_words is_name line name by_ else line) lines.

Lemma rename_words_ordinary is_name name by_ targets t :
  ordinary is_name t → rename_words is_name name by_ targets (newline_lines t) = rename_at name by_ targets (splitlines t).
Proof.
  intros Ho. destruct (ordinary_lines is_name t Ho) as [-> Hall]. apply list_eq. intros i.
  unfold rename_words, rename_at. rewrite !list_lookup_imap. destruct (newline_lines t !! i) as [line|] eqn:Hl; [|done]. cbn.
  by rewrite renamed_agree by by eapply Hall.
Qed.

(** A text no line of which is named. *)
Lemma rename_words_nowhere is_name name by_ t : concat (rename_words is_name name by_ [] (newline_lines t)) = t.
Proof.
  rewrite <-(concat_newline_lines t) at 2. f_equal. apply list_eq. intros i. unfold rename_words. rewrite list_lookup_imap.
  by destruct (newline_lines t !! i).
Qed.

End RenameLines.
