(* ===== verification/Scc.v ===== *)
(** * Strongly connected components

    Models [strongly_connected] of crates/dagayn-tools/src/arch_findings.rs:
    Tarjan's algorithm with its work list, its stack and its maps as one state,
    stepped the way the inner loop is, and run from each key in order.  It is
    shown to end, and to yield exactly the components, each after those it
    leads to. *)
From S2P Require Import Prelude.

Module Scc.

(** ** The algorithm *)

(** [BTreeMap<&str, BTreeSet<&str>>]. *)
Notation graph := (gmap string (gset string)).

(** The order of a [BTreeMap]. *)
Definition keys (adjacency : graph) : list string := ascending (dom adjacency).

(** The names still to look at are kept with the next first; the code keeps
    them reversed and pops the last.  The lists [stack] and [work] have their
    top first.

    Source: crates/dagayn-tools/src/arch_findings.rs 190-195 [strongly_connected]. *)
Record state := mkState {
  index : gmap string nat;
  low : gmap string nat;
  on_stack : gset string;
  stack : list string;
  work : list (string * list string);
  components : list (list string);
  next : nat
}.

Definition init : state := mkState ∅ ∅ ∅ [] [] [] 0.

(** A node is numbered, stacked and put to work; [adjacency[x]] panics where
    there is no such key.

    Source: crates/dagayn-tools/src/arch_findings.rs 201-206 [strongly_connected];
    211-216 are the same for a child. *)
Definition enter (adjacency : graph) (x : string) (s : state) : option state :=
  pending ← adjacency !! x;
  Some (mkState (<[x := next s]> (index s)) (<[x := next s]> (low s)) ({[x]} ∪ on_stack s) (x :: stack s)
          ((x, ascending pending) :: work s) (components s) (S (next s))).

(** Source: crates/dagayn-tools/src/arch_findings.rs 229-236 [strongly_connected]. *)
Fixpoint pop_component (node : string) (stack : list string) (on : gset string)
    : list string * list string * gset string :=
  match stack with
  | [] => ([], [], on)
  | member :: stack =>
      let on := on ∖ {[member]} in
      if bool_decide (member = node) then ([member], stack, on)
      else let '(component, stack, on) := pop_component node stack on in (member :: component, stack, on)
  end.

(** The next name of the top of the work list.

    Source: crates/dagayn-tools/src/arch_findings.rs 209-220 [strongly_connected]. *)
Definition visit (adjacency : graph) (node child : string) (s : state) : option state :=
  match index s !! child with
  | None => enter adjacency child s
  | Some i =>
      if bool_decide (child ∈ on_stack s) then
        l ← low s !! node;
        Some (mkState (index s) (<[node := Nat.min l i]> (low s)) (on_stack s) (stack s) (work s) (components s) (next s))
      else Some s
  end.

(** The node is done: its parent learns its [low], and where it is the root of
    a component, that is taken from the stack.

    Source: crates/dagayn-tools/src/arch_findings.rs 223-239 [strongly_connected]. *)
Definition finish (node : string) (s : state) : option state :=
  low' ← match work s with
         | [] => Some (low s)
         | (parent, _) :: _ =>
             p ← low s !! parent; l ← low s !! node; Some (<[parent := Nat.min p l]> (low s))
         end;
  l ← low' !! node;
  i ← index s !! node;
  Some (if l =? i then
    let '(component, stack', on') := pop_component node (stack s) (on_stack s) in
    mkState (index s) low' on' stack' (work s) (components s ++ [sort_by String.leb component]) (next s)
  else mkState (index s) low' (on_stack s) (stack s) (work s) (components s) (next s)).

(** One round of the inner loop.

    Source: crates/dagayn-tools/src/arch_findings.rs 207-240 [strongly_connected]. *)
Definition step (adjacency : graph) (s : state) : option state :=
  let with_work w := mkState (index s) (low s) (on_stack s) (stack s) w (components s) (next s) in
  match work s with
  | [] => Some s
  | (node, child :: pending) :: rest => visit adjacency node child (with_work ((node, pending) :: rest))
  | (node, []) :: rest => finish node (with_work rest)
  end.

(** The inner loop; [None] is a panic, or fuel that runs out.

    Source: crates/dagayn-tools/src/arch_findings.rs 207-240 [strongly_connected]. *)
Fixpoint run (fuel : nat) (adjacency : graph) (s : state) : option state :=
  match work s with
  | [] => Some s
  | _ =>
      match fuel with
      | 0 => None
      | S fuel => s ← step adjacency s; run fuel adjacency s
      end
  end.

(** Each node is entered once and left once, each of its names looked at once. *)
Definition cost (adjacency : graph) (x : string) : nat := size (default ∅ (adjacency !! x)) + 2.
Definition fuel (adjacency : graph) : nat := sum_list_with (cost adjacency) (keys adjacency).

(** Source: crates/dagayn-tools/src/arch_findings.rs 196-241 [strongly_connected]. *)
Definition visit_start (adjacency : graph) (s : option state) (start : string) : option state :=
  s ← s;
  if bool_decide (start ∈ dom (index s)) then Some s
  else s ← enter adjacency start s; run (fuel adjacency) adjacency s.

(** Source: crates/dagayn-tools/src/arch_findings.rs 187-243 [strongly_connected]. *)
Definition strongly_connected (adjacency : graph) : option (list (list string)) :=
  components <$> foldl (visit_start adjacency) (Some init) (keys adjacency).

(** ** What holds between two rounds *)

Section scc.
Context (adjacency : graph).

Definition edge (x y : string) : Prop := ∃ s, adjacency !! x = Some s ∧ y ∈ s.
Definition closed_graph : Prop := ∀ x y, edge x y → y ∈ dom adjacency.

Definition idx (s : state) (x : string) : nat := default 0 (index s !! x).
Definition lowest (s : state) (x : string) : nat := default 0 (low s !! x).

(** [w] is the last node at work that is not numbered after [x]. *)
Definition owner (s : state) (w x : string) : Prop :=
  w ∈ (work s).*1 ∧ idx s w ≤ idx s x ∧ ∀ w', w' ∈ (work s).*1 → idx s w' ≤ idx s x → idx s w' ≤ idx s w.

(** Each component leads only into itself and those before it. *)
Definition ordered (cs : list (list string)) : Prop :=
  ∀ l1 c l2 x y, cs = l1 ++ c :: l2 → x ∈ c → edge x y → y ∈ concat l1 ++ c.

Record good (s : state) : Prop := {
  g_keys : dom (index s) ⊆ dom adjacency;
  g_next : ∀ x, x ∈ dom (index s) → idx s x < next s;
  g_nodup : NoDup (stack s ++ concat (components s));
  g_seen : ∀ x, x ∈ dom (index s) ↔ x ∈ stack s ++ concat (components s);
  g_on : ∀ x, x ∈ on_stack s ↔ x ∈ stack s;
  g_stack : StronglySorted (λ x y, idx s y < idx s x) (stack s);
  g_work : StronglySorted (λ x y, idx s y < idx s x) (work s).*1;
  g_work_stack : ∀ w, w ∈ (work s).*1 → w ∈ stack s;
  g_low_dom : ∀ w, w ∈ (work s).*1 → is_Some (low s !! w);
  g_low : ∀ w, w ∈ (work s).*1 →
    ∃ y, y ∈ stack s ∧ lowest s w = idx s y ∧ idx s y ≤ idx s w ∧ rtc edge w y;
  g_down : ∀ w x, w ∈ (work s).*1 → x ∈ stack s → idx s w ≤ idx s x → rtc edge w x;
  g_up : ∀ x, x ∈ stack s → ∃ w, w ∈ (work s).*1 ∧ idx s w ≤ idx s x ∧ rtc edge x w;
  g_pending : ∀ w l y, (w, l) ∈ work s → y ∈ l → edge w y;
  g_explored : ∀ x y, x ∈ stack s → edge x y → (∀ l, (x, l) ∈ work s → y ∉ l) →
    y ∈ dom (index s) ∧ (y ∈ stack s → ∀ w, owner s w x → lowest s w ≤ idx s y);
  g_ordered : ordered (components s);
  g_connected : ∀ c x y, c ∈ components s → x ∈ c → y ∈ c → rtc edge x y;
  g_sorted : ∀ c, c ∈ components s → c ≠ [] ∧ StronglySorted (λ x y, String.leb x y = true) c
}.

Lemma decreasing_inj {A} (f : A → nat) l x y :
  StronglySorted (λ x y, f y < f x) l → x ∈ l → y ∈ l → f x = f y → x = y.
Proof.
  induction 1 as [|z l Hl IH Hz]; [by intros ?%not_elem_of_nil|]. rewrite Forall_forall in Hz.
  intros [->|Hx]%elem_of_cons [->|Hy]%elem_of_cons Heq; [done|exfalso..|auto].
  - specialize (Hz y Hy). lia.
  - specialize (Hz x Hx). lia.
Qed.

Lemma decreasing_ext {A} (f g : A → nat) l :
  (∀ x, x ∈ l → f x = g x) → StronglySorted (λ x y, f y < f x) l → StronglySorted (λ x y, g y < g x) l.
Proof.
  induction l as [|x l IH]; intros Heq Hl; [constructor|].
  apply StronglySorted_inv in Hl as [Hl Hx]. constructor.
  - apply IH; [|done]. intros y Hy. apply Heq. by right.
  - rewrite Forall_forall in *. intros y Hy. rewrite <-!Heq by (by constructor). by apply Hx.
Qed.

Lemma idx_lookup s x : x ∈ dom (index s) → index s !! x = Some (idx s x).
Proof. intros [i Hi]%elem_of_dom. unfold idx. by rewrite Hi. Qed.

Lemma lowest_lookup s x : is_Some (low s !! x) → low s !! x = Some (lowest s x).
Proof. intros [i Hi]. unfold lowest. by rewrite Hi. Qed.

(** The top of the work list is numbered last. *)
Lemma work_top s node l rest w :
  good s → work s = (node, l) :: rest → w ∈ (work s).*1 → w = node ∨ (w ∈ rest.*1 ∧ idx s w < idx s node).
Proof.
  intros Hg Hw Hin. pose proof (g_work _ Hg) as Hs. rewrite Hw in *. cbn in *.
  apply elem_of_cons in Hin as [->|Hin]; [by left|]. right. split; [done|].
  apply StronglySorted_inv in Hs as [_ Hs]. rewrite Forall_forall in Hs. by apply Hs.
Qed.

Lemma not_in_components s x : good s → x ∈ stack s → x ∉ concat (components s).
Proof. intros Hg Hx Hc. pose proof (g_nodup _ Hg) as Hnd. apply NoDup_app in Hnd as (_ & Hnd & _). by apply (Hnd x). Qed.

Lemma on_stack_seen s x : good s → x ∈ stack s → x ∈ dom (index s).
Proof. intros Hg Hx. apply (g_seen _ Hg), elem_of_app. by left. Qed.

(** *** Entering a node *)

Lemma enter_good s x w0 s' :
  good s → x ∉ dom (index s) →
  w0.*1 = (work s).*1 →
  (stack s = [] ∨ ∀ w, w ∈ (work s).*1 → rtc edge w x) →
  (∀ z y, edge z y → (∀ l, (z, l) ∈ w0 → y ∉ l) → y = x ∨ (∀ l, (z, l) ∈ work s → y ∉ l)) →
  (∀ w l y, (w, l) ∈ w0 → y ∈ l → edge w y) →
  enter adjacency x (mkState (index s) (low s) (on_stack s) (stack s) w0 (components s) (next s)) = Some s' →
  good s'.
Proof.
  intros Hg Hx Hw0 Hreach Hex Hpend. unfold enter. destruct (adjacency !! x) as [succs|] eqn:Ha; [|done].
  cbn. intros [= <-].
  set (s' := mkState _ _ _ _ _ _ _).
  assert (Hidx : ∀ y, y ∈ dom (index s) → idx s' y = idx s y).
  { intros y Hy. unfold idx. cbn. rewrite lookup_insert_ne; [done|]. by intros ->. }
  assert (Hlow : ∀ y, y ∈ dom (index s) → lowest s' y = lowest s y).
  { intros y Hy. unfold lowest. cbn. rewrite lookup_insert_ne; [done|]. by intros ->. }
  assert (Hx' : idx s' x = next s) by (unfold idx; cbn; by rewrite lookup_insert_eq).
  assert (Hlx : lowest s' x = next s) by (unfold lowest; cbn; by rewrite lookup_insert_eq).
  pose proof (λ y, on_stack_seen s y Hg) as Hss. pose proof (g_work_stack _ Hg) as Hws.
  assert (Hlt : ∀ y, y ∈ stack s → idx s y < next s) by (intros y Hy; by apply (g_next _ Hg), Hss).
  assert (Hnx : x ∉ stack s) by (intros H; by apply Hx, Hss).
  assert (Hstack : ∀ y, y ∈ stack s' ↔ y = x ∨ y ∈ stack s) by (intros y; apply elem_of_cons).
  assert (Hseen : ∀ y, y ∈ dom (index s') ↔ y = x ∨ y ∈ dom (index s)) by (intros y; cbn; set_solver).
  assert (Hwork : ∀ w, w ∈ (work s').*1 ↔ w = x ∨ w ∈ (work s).*1).
  { intros w. cbn. by rewrite elem_of_cons, Hw0. }
  assert (Hnc : x ∉ concat (components s)).
  { intros H. apply Hx, (g_seen _ Hg), elem_of_app. by right. }
  constructor.
  - intros y [->|Hy]%Hseen; [by apply elem_of_dom_2 in Ha|by apply (g_keys _ Hg)].
  - intros y [->|Hy]%Hseen; [rewrite Hx'; cbn; lia|].
    rewrite Hidx by done. pose proof (g_next _ Hg y Hy). cbn. lia.
  - cbn. apply NoDup_cons. split; [|apply (g_nodup _ Hg)]. by rewrite elem_of_app; intros [?|?].
  - intros y. rewrite Hseen, (g_seen _ Hg). cbn. by rewrite elem_of_cons.
  - intros y. rewrite Hstack, <-(g_on _ Hg). cbn. set_solver.
  - cbn [stack s']. constructor.
    + apply (decreasing_ext (idx s)); [|apply (g_stack _ Hg)]. intros y Hy. symmetry. by apply Hidx, Hss.
    + apply Forall_forall. intros y Hy. rewrite Hx', Hidx by auto. by apply Hlt.
  - cbn [work s' fmap list_fmap fst]. rewrite Hw0. constructor.
    + apply (decreasing_ext (idx s)); [|apply (g_work _ Hg)]. intros y Hy. symmetry. by apply Hidx, Hss, Hws.
    + apply Forall_forall. intros y Hy. rewrite Hx', Hidx by auto. by apply Hlt, Hws.
  - intros w [->|Hw]%Hwork; apply Hstack; auto.
  - intros w [->|Hw]%Hwork; cbn; [rewrite lookup_insert_eq; by eexists|].
    rewrite lookup_insert_ne; [by apply (g_low_dom _ Hg)|]. intros ->. by apply Hx, Hss, Hws.
  - intros w [->|Hw]%Hwork.
    + exists x. rewrite Hlx, Hx', Hstack. split_and!; [by left|done..|apply rtc_refl].
    + destruct (g_low _ Hg w Hw) as (y & Hy & Hl & Hle & Hr). exists y.
      rewrite Hlow, !Hidx, Hstack by auto. auto.
  - intros w y [->|Hw]%Hwork [->|Hy]%Hstack; [intros _; apply rtc_refl| | |].
    + rewrite Hx', Hidx by auto. intros Hle. pose proof (Hlt y Hy). lia.
    + intros _. destruct Hreach as [Hnil|Hreach]; [|by apply Hreach].
      specialize (Hws w Hw). rewrite Hnil in Hws. by apply not_elem_of_nil in Hws.
    + rewrite !Hidx by auto. by apply (g_down _ Hg).
  - intros y [->|Hy]%Hstack.
    + exists x. rewrite Hwork. split_and!; [by left|done|apply rtc_refl].
    + destruct (g_up _ Hg y Hy) as (w & Hw & Hle & Hr). exists w. rewrite Hwork, !Hidx by auto. auto.
  - intros w l y [[= -> ->]|Hin]%elem_of_cons; [|by apply Hpend].
    intros Hy%elem_of_ascending. by exists succs.
  - intros z y [->|Hz]%Hstack He Hl.
    + exfalso. apply (Hl (ascending succs)); [left|]. destruct He as (succs' & Ha' & Hy).
      rewrite Ha in Ha'. injection Ha' as <-. by apply elem_of_ascending.
    + assert (Hown : ∀ w, owner s' w z → owner s w z).
      { intros w (Hw & Hle & Hmax). rewrite (Hidx z) in Hle by auto. apply Hwork in Hw as [->|Hw].
        - rewrite Hx' in Hle. specialize (Hlt _ Hz). lia.
        - rewrite (Hidx w) in Hle by auto. split; [done|]. split; [done|]. intros w' Hw' Hle'.
          specialize (Hmax w'). rewrite Hwork, (Hidx w'), (Hidx w), (Hidx z) in Hmax by auto. auto. }
      destruct (Hex z y He) as [->|Hold]; [intros l Hin; apply Hl; by right| |].
      * split; [apply Hseen; by left|]. intros _ w Hw%Hown. pose proof Hw as (Hww & Hle & _).
        rewrite Hlow, Hx' by auto. destruct (g_low _ Hg w Hww) as (v & Hv & -> & Hvle & _). specialize (Hlt _ Hv). lia.
      * destruct (g_explored _ Hg z y Hz He Hold) as [Hsy Hly]. split; [apply Hseen; by right|].
        intros [->|Hy]%Hstack w Hw%Hown; [done|]. rewrite Hlow, Hidx by (auto; apply Hss, Hws, Hw). by apply Hly.
  - apply (g_ordered _ Hg).
  - apply (g_connected _ Hg).
  - apply (g_sorted _ Hg).
Qed.

(** *** Looking at a name already numbered *)

Lemma consume_good s node child pending rest s' :
  good s → work s = (node, child :: pending) :: rest → child ∈ dom (index s) →
  index s' = index s → on_stack s' = on_stack s → stack s' = stack s →
  work s' = (node, pending) :: rest → components s' = components s → next s' = next s →
  (∀ w, w ≠ node → low s' !! w = low s !! w) →
  low s' !! node = Some (if bool_decide (child ∈ stack s) then Nat.min (lowest s node) (idx s child) else lowest s node) →
  good s'.
Proof.
  intros Hg Hw Hc Ei Eo Es Ew Ec En Hlo Hln.
  assert (Hidx : ∀ y, idx s' y = idx s y) by (intros y; unfold idx; by rewrite Ei).
  assert (Hwork : (work s').*1 = (work s).*1) by (by rewrite Ew, Hw).
  assert (Hlow : ∀ w, w ≠ node → lowest s' w = lowest s w) by (intros w Hn; unfold lowest; by rewrite Hlo).
  assert (Hnode : node ∈ (work s).*1) by (rewrite Hw; left).
  assert (Hle : ∀ w, w ∈ (work s).*1 → lowest s' w ≤ lowest s w).
  { intros w Hin. destruct (decide (w = node)) as [->|Hn]; [|by rewrite Hlow].
    unfold lowest at 1. rewrite Hln. cbn. case_bool_decide; lia. }
  assert (Hedge : edge node child) by (apply (g_pending _ Hg node (child :: pending)); [rewrite Hw; left|left]).
  constructor; rewrite ?Ei, ?Eo, ?Es, ?Ec, ?En, ?Hwork; try apply Hg.
  - intros x. rewrite Hidx. apply Hg.
  - apply (decreasing_ext (idx s)); [done|apply Hg].
  - apply (decreasing_ext (idx s)); [done|apply Hg].
  - intros w Hin. destruct (decide (w = node)) as [->|Hn]; [by rewrite Hln; eexists|].
    rewrite Hlo by done. by apply Hg.
  - intros w Hin. destruct (g_low _ Hg w Hin) as (y & Hy & Hl & Hyle & Hr).
    destruct (decide (w = node)) as [->|Hn]; [|exists y; by rewrite Hlow, !Hidx].
    unfold lowest. rewrite Hln. cbn. case_bool_decide as Hcs; [|exists y; by rewrite !Hidx].
    destruct (decide (idx s child ≤ lowest s node)) as [Hm|Hm].
    + exists child. rewrite !Hidx, Nat.min_r by done. split_and!; [done|done|lia|by apply rtc_once].
    + exists y. rewrite !Hidx, Nat.min_l by lia. done.
  - intros w x Hwi Hx. rewrite !Hidx. by apply Hg.
  - intros x Hx. setoid_rewrite Hidx. by apply Hg.
  - intros w l y Hin Hy. rewrite Ew in Hin. apply elem_of_cons in Hin as [[= -> ->]|Hin].
    + apply (g_pending _ Hg node (child :: pending)); [rewrite Hw; left|by right].
    + apply (g_pending _ Hg w l); [rewrite Hw; by right|done].
  - intros x y Hx He Hl. split.
    + destruct (decide (y = child)) as [->|Hn]; [done|]. apply (g_explored _ Hg x y Hx He).
      intros l Hin Hy. rewrite Hw in Hin. apply elem_of_cons in Hin as [[= -> ->]|Hin].
      * apply elem_of_cons in Hy as [->|Hy]; [done|]. apply (Hl pending); [rewrite Ew; left|done].
      * apply (Hl l); [rewrite Ew; by right|done].
    + intros Hy w (Hwi & Hwle & Hmax). rewrite Hwork in Hwi, Hmax. rewrite !Hidx in Hwle.
      assert (Hown : owner s w x).
      { split; [done|]. split; [done|]. intros w' Hw'. specialize (Hmax w' Hw'). by rewrite !Hidx in Hmax. }
      destruct (decide (x = node ∧ y = child)) as [[-> ->]|Hn].
      * assert (w = node) as ->.
        { destruct (work_top s node (child :: pending) rest w Hg Hw Hwi) as [|[_ Hlt]]; [done|].
          specialize (Hmax node Hnode). rewrite !Hidx in Hmax. lia. }
        unfold lowest. rewrite Hln, Hidx. cbn. rewrite bool_decide_eq_true_2 by done. lia.
      * rewrite Hidx. etrans; [by apply Hle|]. apply (g_explored _ Hg x y Hx He); [|done|done].
        intros l Hin Hyl. rewrite Hw in Hin. apply elem_of_cons in Hin as [[= -> ->]|Hin].
        -- apply elem_of_cons in Hyl as [->|Hyl]; [by apply Hn|]. apply (Hl pending); [rewrite Ew; left|done].
        -- apply (Hl l); [rewrite Ew; by right|done].
Qed.

(** *** Leaving a node *)

(** What finishing a node does to [low]: the parent's takes the node's. *)
Definition told (s : state) (node : string) (rest : list (string * list string)) (low' : gmap string nat) : Prop :=
  match rest with
  | [] => low' = low s
  | (parent, _) :: _ => low' = <[parent := Nat.min (lowest s parent) (lowest s node)]> (low s)
  end.

Lemma owner_rest s node rest w x :
  good s → work s = (node, []) :: rest → x ∈ stack s →
  w ∈ rest.*1 → idx s w ≤ idx s x → (∀ w', w' ∈ rest.*1 → idx s w' ≤ idx s x → idx s w' ≤ idx s w) →
  (idx s x < idx s node ∧ owner s w x) ∨
  (idx s node ≤ idx s x ∧ owner s node x ∧ ∃ l rest', rest = (w, l) :: rest').
Proof.
  intros Hg Hw Hx Hin Hle Hmax. destruct (decide (idx s node ≤ idx s x)) as [Hn|Hn].
  - right. split; [done|]. split.
    + split; [rewrite Hw; left|]. split; [done|]. intros w' Hw' _.
      destruct (work_top s node [] rest w' Hg Hw Hw') as [->|[_ Hlt]]; lia.
    + destruct rest as [|[p l] rest']; [by apply not_elem_of_nil in Hin|].
      apply elem_of_cons in Hin as [->|Hin]; [by eexists _, _|]. exfalso.
      pose proof (g_work _ Hg) as Hs. rewrite Hw in Hs. cbn in Hs.
      apply StronglySorted_inv in Hs as [Hs Hs0]. apply StronglySorted_inv in Hs as [_ Hs].
      rewrite Forall_forall in Hs, Hs0. specialize (Hs w Hin). specialize (Hs0 p ltac:(left)).
      specialize (Hmax p ltac:(left)). cbn in *. lia.
  - left. split; [lia|]. split; [rewrite Hw; by right|]. split; [done|].
    intros w' Hw' Hle'. apply Hmax; [|done]. rewrite Hw in Hw'. cbn in Hw'.
    apply elem_of_cons in Hw' as [->|Hw']; [lia|done].
Qed.

(** A node whose [low] is below its number hands it to its parent. *)
Lemma merge_good s node rest low' s' :
  good s → work s = (node, []) :: rest → lowest s node < idx s node → told s node rest low' →
  s' = mkState (index s) low' (on_stack s) (stack s) rest (components s) (next s) →
  good s'.
Proof.
  intros Hg Hw Hlt Ht ->.
  assert (Hnode : node ∈ (work s).*1) by (rewrite Hw; left).
  assert (Hrest : ∀ w, w ∈ rest.*1 → w ∈ (work s).*1) by (intros w Hin; rewrite Hw; by right).
  pose proof (g_work _ Hg) as Hsort. rewrite Hw in Hsort. apply StronglySorted_inv in Hsort as [Hsort Hbelow].
  rewrite Forall_forall in Hbelow. fold ((λ w : string * list string, w.1) <$> rest) in *.
  destruct (g_low _ Hg node Hnode) as (y0 & Hy0 & Hl0 & _ & Hr0).
  assert (Hup0 : ∃ w, w ∈ rest.*1 ∧ idx s w < idx s node ∧ rtc edge node w).
  { destruct (g_up _ Hg y0 Hy0) as (w & Hwi & Hle & Hr).
    destruct (work_top s node [] rest w Hg Hw Hwi) as [->|[Hwr Hlt']]; [lia|].
    exists w. split_and!; [done..|by etrans]. }
  destruct rest as [|[p l] rest']; [by destruct Hup0 as (w & ?%not_elem_of_nil & _)|].
  set (rest := (p, l) :: rest') in *. cbn in Ht. subst low'. set (s' := mkState _ _ _ _ _ _ _).
  assert (Hp : p ∈ rest.*1) by left.
  assert (Hlp : lowest s' p = Nat.min (lowest s p) (lowest s node)) by (unfold lowest; cbn; by rewrite lookup_insert_eq).
  assert (Hlow : ∀ w, w ≠ p → lowest s' w = lowest s w).
  { intros w Hn. unfold lowest. cbn. by rewrite lookup_insert_ne. }
  assert (Hle : ∀ w, lowest s' w ≤ lowest s w).
  { intros w. destruct (decide (w = p)) as [->|Hn]; [rewrite Hlp; lia|by rewrite Hlow]. }
  change (idx s) with (idx s') in *.
  constructor; cbn [index on_stack stack components next work s']; try apply Hg.
  - done.
  - intros w Hin. by apply (g_work_stack _ Hg), Hrest.
  - intros w Hin. cbn. destruct (decide (w = p)) as [->|Hn]; [rewrite lookup_insert_eq; by eexists|].
    rewrite lookup_insert_ne by done. by apply (g_low_dom _ Hg), Hrest.
  - intros w Hin. destruct (g_low _ Hg w (Hrest w Hin)) as (y & Hy & Hl & Hyle & Hr).
    destruct (decide (w = p)) as [->|Hn]; [|exists y; by rewrite Hlow]. rewrite Hlp.
    destruct (decide (lowest s p ≤ lowest s node)) as [Hm|Hm]; [exists y; by rewrite Nat.min_l|].
    exists y0. rewrite Nat.min_r by lia. change (idx s) with (idx s') in *. split_and!; [done..|lia|].
    etrans; [|done]. apply (g_down _ Hg p node (Hrest p Hp)); [by apply (g_work_stack _ Hg)|].
    specialize (Hbelow p Hp). cbn in Hbelow. change (idx s) with (idx s') in *. lia.
  - intros w x Hin. by apply (g_down _ Hg), Hrest.
  - intros x Hx. destruct (g_up _ Hg x Hx) as (w & Hwi & Hwle & Hr).
    destruct (work_top s node [] rest w Hg Hw Hwi) as [->|[Hwr _]]; [|by exists w].
    destruct Hup0 as (w & Hwr & Hwlt & Hr'). exists w. change (idx s) with (idx s') in *.
    split_and!; [done|lia|by etrans].
  - intros w lw y Hin. apply (g_pending _ Hg). rewrite Hw. by right.
  - intros x y Hx He Hl. destruct (g_explored _ Hg x y Hx He) as [Hsy Hly].
    { intros lx Hin Hy. rewrite Hw in Hin. apply elem_of_cons in Hin as [[= -> ->]|Hin]; [by apply not_elem_of_nil in Hy|].
      by apply (Hl lx). }
    split; [done|]. intros Hy w (Hwi & Hwle & Hmax).
    destruct (owner_rest s node rest w x Hg Hw Hx Hwi Hwle Hmax) as [[_ Hown]|(_ & Hown & l' & rest'' & Heq)].
    + etrans; [apply Hle|]. by apply Hly.
    + injection Heq as <- _ _. rewrite Hlp. specialize (Hly Hy node Hown). change (idx s) with (idx s') in *. lia.
Qed.

Lemma pop_component_spec node st on :
  node ∈ st → NoDup st →
  let '(c, st', on') := pop_component node st on in
  st = c ++ st' ∧ (∃ c0, c = c0 ++ [node]) ∧ ∀ x, x ∈ on' ↔ x ∈ on ∧ x ∉ c.
Proof.
  revert on. induction st as [|m st IH]; intros on Hin Hnd; [by apply not_elem_of_nil in Hin|].
  apply NoDup_cons in Hnd as [Hm Hnd]. cbn [pop_component]. case_bool_decide as Hmn.
  - subst m. split; [done|]. split; [by exists []|]. intros x. rewrite list_elem_of_singleton. set_solver.
  - apply elem_of_cons in Hin as [->|Hin]; [done|]. specialize (IH (on ∖ {[m]}) Hin Hnd).
    destruct (pop_component node st _) as [[c st'] on']. destruct IH as (-> & (c0 & ->) & Hon).
    split; [done|]. split; [by exists (m :: c0)|]. intros x. rewrite Hon, elem_of_cons. set_solver.
Qed.

(** What a root takes from the stack is what is numbered from it on. *)
Lemma segment s c st' c0 node x :
  good s → stack s = c ++ st' → c = c0 ++ [node] →
  (x ∈ c ↔ x ∈ stack s ∧ idx s node ≤ idx s x) ∧ (x ∈ st' ↔ x ∈ stack s ∧ idx s x < idx s node).
Proof.
  intros Hg Hs ->. pose proof (g_stack _ Hg) as Hsort. rewrite Hs in *. rewrite <-app_assoc in Hsort.
  assert (Hb : (∀ y, y ∈ c0 → idx s node < idx s y) ∧ (∀ y, y ∈ st' → idx s y < idx s node)).
  { clear Hs. induction c0 as [|z c0 IH]; cbn in Hsort; apply StronglySorted_inv in Hsort as [Hsort Hz];
      rewrite Forall_forall in Hz.
    - split; [by intros y ?%not_elem_of_nil|exact Hz].
    - destruct (IH Hsort) as [H1 H2]. split; [|done].
      intros y [->|Hy]%elem_of_cons; [|by apply H1]. apply Hz. rewrite elem_of_app. right. left. }
  destruct Hb as [H1 H2]. rewrite !elem_of_app, list_elem_of_singleton.
  split; (split; [intros H; split; [tauto|]|intros [H Hle]]).
  - destruct H as [H| ->]; [specialize (H1 x H); lia|done].
  - destruct H as [H|H]; [done|]. specialize (H2 x H). lia.
  - by apply H2.
  - destruct H as [[H| ->]|H]; [|lia|done]. specialize (H1 x H). lia.
Qed.

(** The part of the graph that is done is closed under edges once the root's
    part of the stack joins it. *)
Lemma root_closed s node rest x y :
  good s → work s = (node, []) :: rest → lowest s node = idx s node →
  x ∈ stack s → idx s node ≤ idx s x → edge x y →
  (y ∈ stack s ∧ idx s node ≤ idx s y) ∨ y ∈ concat (components s).
Proof.
  intros Hg Hw Hl Hx Hle He. destruct (g_explored _ Hg x y Hx He) as [Hsy Hly].
  { intros l Hin Hy. rewrite Hw in Hin. apply elem_of_cons in Hin as [[= -> ->]|Hin]; [by apply not_elem_of_nil in Hy|].
    assert (Hxw : x ∈ rest.*1) by (apply list_elem_of_fmap; by exists (x, l)).
    pose proof (g_work _ Hg) as Hs. rewrite Hw in Hs. apply StronglySorted_inv in Hs as [_ Hs].
    rewrite Forall_forall in Hs. specialize (Hs x Hxw). cbn in Hs. lia. }
  apply (g_seen _ Hg), elem_of_app in Hsy as [Hy|Hy]; [|by right]. left. split; [done|].
  rewrite <-Hl. apply Hly; [done|]. split; [rewrite Hw; left|]. split; [done|].
  intros w Hwi _. destruct (work_top s node [] rest w Hg Hw Hwi) as [->|[_ Hlt]]; lia.
Qed.

(** From the components no edge leads out. *)
Lemma ordered_closed cs x y : ordered cs → x ∈ concat cs → edge x y → y ∈ concat cs.
Proof.
  intros Ho (c & Hx & Hc)%elem_of_concat He. apply list_elem_of_split in Hc as (l1 & l2 & ->).
  pose proof (Ho l1 c l2 x y eq_refl Hx He) as Hy. rewrite concat_app. cbn. set_solver.
Qed.

Lemma root_reaches s node rest x :
  good s → work s = (node, []) :: rest → lowest s node = idx s node →
  x ∈ stack s → idx s node ≤ idx s x → rtc edge x node.
Proof.
  intros Hg Hw Hl Hx Hle. destruct (g_up _ Hg x Hx) as (w & Hwi & Hwle & Hr).
  assert (Hend : (w ∈ stack s ∧ idx s node ≤ idx s w) ∨ w ∈ concat (components s)).
  { assert (H0 : (x ∈ stack s ∧ idx s node ≤ idx s x) ∨ x ∈ concat (components s)) by (by left).
    clear Hx Hle Hwi Hwle. induction Hr as [x|x y z He _ IH]; [done|]. apply IH. destruct H0 as [[Hx Hle]|Hx].
    - by eapply root_closed.
    - right. eapply ordered_closed; [apply Hg|done|done]. }
  destruct Hend as [[Hws Hwn]|Hwc].
  - destruct (work_top s node [] rest w Hg Hw Hwi) as [->|[_ Hlt]]; [done|lia].
  - exfalso. by apply (not_in_components s w Hg (g_work_stack _ Hg w Hwi)).
Qed.

Lemma ordered_snoc cs c :
  ordered cs → (∀ x y, x ∈ c → edge x y → y ∈ concat cs ++ c) → ordered (cs ++ [c]).
Proof.
  intros Ho Hc l1 c' l2 x y Heq. destruct l2 as [|c'' l2 _] using rev_ind.
  - apply app_inj_tail in Heq as [<- <-]. apply Hc.
  - rewrite app_comm_cons, app_assoc in Heq. apply app_inj_tail in Heq as [Heq _]. by apply (Ho _ _ l2).
Qed.

(** The [low] of what stays at work is not changed by a root. *)
Lemma told_root s node rest low' w :
  good s → work s = (node, []) :: rest → lowest s node = idx s node → told s node rest low' →
  w ∈ rest.*1 → low' !! w = low s !! w.
Proof.
  intros Hg Hw Hl Ht Hin. destruct rest as [|[p l] rest]; [by apply not_elem_of_nil in Hin|]. cbn in Ht. subst low'.
  destruct (decide (w = p)) as [->|Hn]; [|by rewrite lookup_insert_ne]. rewrite lookup_insert_eq.
  assert (Hpw : p ∈ (work s).*1) by (rewrite Hw; right; left).
  rewrite (lowest_lookup s p) by by apply Hg. f_equal. apply Nat.min_l. rewrite Hl.
  destruct (g_low _ Hg p Hpw) as (y & _ & -> & Hle & _).
  destruct (work_top s node [] _ p Hg Hw Hpw) as [->|[_ Hlt]]; lia.
Qed.

(** A root takes its component from the stack. *)
Lemma root_good s node rest low' c st' on' :
  good s → work s = (node, []) :: rest → lowest s node = idx s node → told s node rest low' →
  pop_component node (stack s) (on_stack s) = (c, st', on') →
  good (mkState (index s) low' on' st' rest (components s ++ [sort_by String.leb c]) (next s)).
Proof.
  intros Hg Hw Hl Ht Hpop.
  assert (Hnode : node ∈ (work s).*1) by (rewrite Hw; left).
  pose proof (g_nodup _ Hg) as Hnd. pose proof Hnd as (Hnds & Hdisj & Hndc)%NoDup_app.
  pose proof (pop_component_spec node (stack s) (on_stack s) (g_work_stack _ Hg node Hnode) Hnds) as Hspec.
  rewrite Hpop in Hspec. destruct Hspec as (Hst & (c0 & Hc0) & Hon).
  assert (Hin : ∀ x, x ∈ c ↔ x ∈ stack s ∧ idx s node ≤ idx s x) by (intros x; by apply (segment s c st' c0)).
  assert (Hout : ∀ x, x ∈ st' ↔ x ∈ stack s ∧ idx s x < idx s node) by (intros x; by apply (segment s c st' c0)).
  assert (Hrest : ∀ w, w ∈ rest.*1 ↔ w ∈ (work s).*1 ∧ idx s w < idx s node).
  { intros w. split.
    - intros Hw'. assert (Hww : w ∈ (work s).*1) by (rewrite Hw; by right).
      split; [done|]. pose proof (g_work _ Hg) as Hs. rewrite Hw in Hs. apply StronglySorted_inv in Hs as [_ Hs].
      rewrite Forall_forall in Hs. by apply Hs.
    - intros [Hw' Hlt]. destruct (work_top s node [] rest w Hg Hw Hw') as [->|[? _]]; [lia|done]. }
  assert (Hlow' : ∀ w, w ∈ rest.*1 → low' !! w = low s !! w) by (intros w; by apply (told_root s node rest)).
  assert (Hsc : ∀ x, x ∈ sort_by String.leb c ↔ x ∈ c) by (intros x; apply elem_of_sort_by).
  assert (Hcc : ∀ x, x ∈ concat (components s ++ [sort_by String.leb c]) ↔ x ∈ concat (components s) ∨ x ∈ c).
  { intros x. rewrite concat_app, elem_of_app. cbn. by rewrite app_nil_r, Hsc. }
  pose proof (g_stack _ Hg) as Hstack. rewrite Hst in Hstack.
  set (s' := mkState _ _ _ _ _ _ _). assert (Hidx : ∀ x, idx s' x = idx s x) by done.
  assert (Hlowest : ∀ w, w ∈ rest.*1 → lowest s' w = lowest s w).
  { intros w Hw'. unfold lowest. cbn. by rewrite Hlow'. }
  constructor; cbn [index on_stack stack components next work s']; try apply Hg.
  - rewrite concat_app. cbn. rewrite app_nil_r. rewrite (sort_by_Permutation String.leb c).
    rewrite Hst in Hnd. rewrite (Permutation_app_comm (concat _) c), app_assoc, (Permutation_app_comm st' c). done.
  - intros x. rewrite (g_seen _ Hg), !elem_of_app, Hcc, Hst, elem_of_app. tauto.
  - intros x. rewrite Hon, (g_on _ Hg), Hin, Hout. intuition lia.
  - clear -Hstack. induction c as [|z c IH]; [done|]. apply StronglySorted_inv in Hstack as [Hs _]. by apply IH.
  - pose proof (g_work _ Hg) as Hs. rewrite Hw in Hs. by apply StronglySorted_inv in Hs as [Hs _].
  - intros w Hw'. apply Hout. apply Hrest in Hw' as [Hw' Hlt]. split; [by apply (g_work_stack _ Hg)|done].
  - intros w Hw'. cbn. rewrite Hlow' by done. apply (g_low_dom _ Hg). by apply Hrest.
  - intros w Hw'. pose proof Hw' as [Hww Hlt]%Hrest. destruct (g_low _ Hg w Hww) as (y & Hy & Hly & Hle & Hr).
    exists y. rewrite Hlowest by done. rewrite Hout, !Hidx. split_and!; [done|lia|done..].
  - intros w x [Hw' _]%Hrest [Hx _]%Hout. by apply (g_down _ Hg).
  - intros x [Hx Hlt]%Hout. destruct (g_up _ Hg x Hx) as (w & Hw' & Hle & Hr). exists w.
    rewrite Hrest, !Hidx. split_and!; [done|lia|done..].
  - intros w l y Hwl. apply (g_pending _ Hg). rewrite Hw. by right.
  - intros x y [Hx Hlt]%Hout He Hp. destruct (g_explored _ Hg x y Hx He) as [Hsy Hly].
    { intros l Hwl Hy. rewrite Hw in Hwl. apply elem_of_cons in Hwl as [[= -> ->]|Hwl]; [lia|by apply (Hp l)]. }
    split; [done|]. intros [Hy _]%Hout w (Hw' & Hle & Hmax). cbn [work s'] in Hw', Hmax.
    rewrite Hlowest by done. rewrite Hidx in *. apply Hly; [done|]. apply Hrest in Hw' as [Hww Hwlt].
    split; [done|]. split; [done|]. intros w' Hw'' Hle'. apply Hmax; [|done]. apply Hrest. split; [done|lia].
  - apply ordered_snoc; [apply Hg|]. intros x y [Hx Hle]%Hsc%Hin He. rewrite elem_of_app, Hsc, Hin.
    destruct (root_closed s node rest x y); auto.
  - intros d x y [Hd| ->%list_elem_of_singleton]%elem_of_app; [by apply (g_connected _ Hg)|].
    intros [Hx Hlx]%Hsc%Hin [Hy Hly]%Hsc%Hin. etrans; [by eapply root_reaches|]. by apply (g_down _ Hg).
  - intros d [Hd| ->%list_elem_of_singleton]%elem_of_app; [by apply (g_sorted _ Hg)|]. split.
    + intros Hnil. assert (Hn : node ∈ sort_by String.leb c) by (apply Hsc, Hin; split; [by apply (g_work_stack _ Hg)|done]).
      rewrite Hnil in Hn. by apply not_elem_of_nil in Hn.
    + apply sort_by_sorted; [apply string_leb_total|apply string_leb_trans].
Qed.

(** *** One round, and all of them *)

Definition unseen (s : state) (x : string) : nat := if bool_decide (x ∈ dom (index s)) then 0 else cost adjacency x.
Definition measure (s : state) : nat :=
  sum_list_with (unseen s) (keys adjacency) + sum_list_with (λ w : string * list string, length w.2 + 1) (work s).

Lemma unseen_insert s s' x l :
  NoDup l → x ∈ l → x ∉ dom (index s) → (∀ y, y ∈ dom (index s') ↔ y = x ∨ y ∈ dom (index s)) →
  sum_list_with (unseen s) l = sum_list_with (unseen s') l + cost adjacency x.
Proof.
  intros Hnd Hx Hn Hs'.
  assert (Hsame : ∀ l, x ∉ l → sum_list_with (unseen s) l = sum_list_with (unseen s') l).
  { clear Hnd Hx l. induction l as [|y l IH]; [done|]. intros [Hy Hl]%not_elem_of_cons. cbn. rewrite IH by done.
    unfold unseen. rewrite (bool_decide_ext (y ∈ dom (index s)) (y ∈ dom (index s'))); [done|]. rewrite Hs'. naive_solver. }
  induction Hnd as [|y l Hy Hnd IH]; [by apply not_elem_of_nil in Hx|]. cbn.
  apply elem_of_cons in Hx as [<-|Hx].
  - rewrite (Hsame l Hy). unfold unseen at 1 3. rewrite bool_decide_eq_false_2 by done.
    rewrite bool_decide_eq_true_2 by (apply Hs'; by left). lia.
  - rewrite IH by done. unfold unseen at 1 3.
    rewrite (bool_decide_ext (y ∈ dom (index s)) (y ∈ dom (index s'))); [lia|]. rewrite Hs'.
    split; [by right|]. intros [->|?]; [done|done].
Qed.

Lemma unseen_same s s' l : index s' = index s → sum_list_with (unseen s') l = sum_list_with (unseen s) l.
Proof. intros He. induction l as [|x l IH]; [done|]. cbn. rewrite IH. unfold unseen. by rewrite He. Qed.

Lemma elem_of_keys x : x ∈ keys adjacency ↔ x ∈ dom adjacency.
Proof. apply elem_of_ascending. Qed.

(** A good next state, nearer to the end, which has seen what this one has. *)
Definition onwards (s s' : state) : Prop :=
  good s' ∧ measure s' < measure s ∧ dom (index s) ⊆ dom (index s').

Lemma enter_measure s x w0 s' :
  good s → x ∈ dom adjacency → x ∉ dom (index s) →
  enter adjacency x (mkState (index s) (low s) (on_stack s) (stack s) w0 (components s) (next s)) = Some s' →
  measure s' + sum_list_with (λ w : string * list string, length w.2 + 1) (work s) + 1 =
    measure s + sum_list_with (λ w : string * list string, length w.2 + 1) w0 ∧
  (∀ y, y ∈ dom (index s') ↔ y = x ∨ y ∈ dom (index s)).
Proof.
  intros Hg Hx Hn. unfold enter. destruct (adjacency !! x) as [succs|] eqn:Ha; [|done]. cbn. intros [= <-].
  assert (Hseen : ∀ y, y ∈ dom (<[x:=next s]> (index s)) ↔ y = x ∨ y ∈ dom (index s)) by (intros y; set_solver).
  split; [|done]. unfold measure. set (s' := mkState _ _ _ _ _ _ _).
  rewrite (unseen_insert s s' x (keys adjacency)); [|apply NoDup_ascending|by apply elem_of_keys|done|done].
  cbn [work s' sum_list_with snd]. unfold cost. rewrite Ha, length_ascending. cbn. lia.
Qed.

Lemma enter_child s node child pending rest :
  closed_graph → good s → work s = (node, child :: pending) :: rest → child ∉ dom (index s) →
  ∃ s', enter adjacency child (mkState (index s) (low s) (on_stack s) (stack s) ((node, pending) :: rest) (components s) (next s)) = Some s' ∧
    onwards s s'.
Proof.
  intros Hcl Hg Hw Hn. assert (Hedge : edge node child) by (apply (g_pending _ Hg node (child :: pending)); [rewrite Hw; left|left]).
  pose proof (Hcl _ _ Hedge) as Hd. assert (Hnode : node ∈ (work s).*1) by (rewrite Hw; left).
  destruct (enter adjacency child _) as [s'|] eqn:He; cycle 1.
  { exfalso. unfold enter in He. destruct (adjacency !! child) as [succs|] eqn:Ha; [done|].
    by apply not_elem_of_dom in Ha. }
  exists s'. split; [done|]. destruct (enter_measure _ _ _ _ Hg Hd Hn He) as [Hm Hseen]. split; [|split].
  - apply (enter_good s child ((node, pending) :: rest)); try done.
    + by rewrite Hw.
    + right. intros w Hwi. etrans; [|by apply rtc_once].
      apply (g_down _ Hg w node Hwi); [by apply (g_work_stack _ Hg)|].
      destruct (work_top s node _ rest w Hg Hw Hwi) as [->|[_ Hlt]]; lia.
    + intros z y He' Hl. destruct (decide (y = child)) as [->|Hne]; [by left|]. right. intros l Hin Hy.
      rewrite Hw in Hin. apply elem_of_cons in Hin as [[= -> ->]|Hin].
      * apply elem_of_cons in Hy as [->|Hy]; [done|]. apply (Hl pending); [left|done].
      * apply (Hl l); [by right|done].
    + intros w l y [[= -> ->]|Hin]%elem_of_cons Hy.
      * apply (g_pending _ Hg node (child :: pending)); [rewrite Hw; left|by right].
      * apply (g_pending _ Hg w l); [rewrite Hw; by right|done].
  - rewrite Hw in Hm. cbn in Hm. lia.
  - intros y Hy. apply Hseen. by right.
Qed.

Lemma visit_step s node child pending rest :
  closed_graph → good s → work s = (node, child :: pending) :: rest →
  ∃ s', step adjacency s = Some s' ∧ onwards s s'.
Proof.
  intros Hcl Hg Hw. unfold step. rewrite Hw. unfold visit. cbn [index on_stack low].
  assert (Hnode : node ∈ (work s).*1) by (rewrite Hw; left).
  destruct (index s !! child) as [i|] eqn:Hi; cycle 1.
  { apply enter_child; [done..|]. by apply not_elem_of_dom. }
  assert (Hc : child ∈ dom (index s)) by by apply elem_of_dom_2 in Hi.
  assert (Hi' : i = idx s child) by (unfold idx; by rewrite Hi). subst i.
  rewrite (lowest_lookup s node) by by apply (g_low_dom _ Hg).
  assert (Hmeasure : ∀ s', index s' = index s → work s' = (node, pending) :: rest → measure s' < measure s).
  { intros s' Ei Ew. unfold measure. rewrite (unseen_same s s') by done. rewrite Ew, Hw. cbn. lia. }
  case_bool_decide as Hon; cbn; eexists; (split; [reflexivity|]);
    (split; [|split; [by apply Hmeasure|done]]); rewrite (g_on _ Hg) in Hon;
    apply (consume_good s node child pending rest); cbn; try done.
  - intros w Hn. by rewrite lookup_insert_ne.
  - by rewrite lookup_insert_eq, bool_decide_eq_true_2.
  - rewrite bool_decide_eq_false_2 by done. apply lowest_lookup. by apply (g_low_dom _ Hg).
Qed.

Lemma finish_step s node rest :
  good s → work s = (node, []) :: rest → ∃ s', step adjacency s = Some s' ∧ onwards s s'.
Proof.
  intros Hg Hw. unfold step. rewrite Hw. unfold finish. cbn [work low index stack on_stack components next].
  assert (Hnode : node ∈ (work s).*1) by (rewrite Hw; left).
  pose proof (lowest_lookup s node (g_low_dom _ Hg node Hnode)) as Hln.
  pose proof (idx_lookup s node (on_stack_seen s node Hg (g_work_stack _ Hg node Hnode))) as Hin.
  assert (Hrest : node ∉ rest.*1).
  { intros Hr. pose proof (g_work _ Hg) as Hs. rewrite Hw in Hs. apply StronglySorted_inv in Hs as [_ Hs].
    rewrite Forall_forall in Hs. specialize (Hs node Hr). cbn in Hs. lia. }
  assert (Hlow : ∃ low', match rest with [] => Some (low s) | (parent, _) :: _ =>
      p ← low s !! parent; l ← low s !! node; Some (<[parent := Nat.min p l]> (low s)) end = Some low' ∧
      told s node rest low' ∧ low' !! node = Some (lowest s node)).
  { destruct rest as [|[p l] rest]; [by exists (low s)|].
    assert (Hp : p ∈ (work s).*1) by (rewrite Hw; right; left).
    rewrite (lowest_lookup s p) by by apply (g_low_dom _ Hg). rewrite Hln. cbn. eexists. split; [done|]. split; [done|].
    rewrite lookup_insert_ne; [done|]. intros ->. apply Hrest. left. }
  destruct Hlow as (low' & -> & Ht & Hl'). cbn. rewrite Hl', Hin. cbn. eexists. split; [done|].
  assert (Hmeasure : ∀ s', index s' = index s → work s' = rest → measure s' < measure s ∧ dom (index s) ⊆ dom (index s')).
  { intros s' Ei Ew. unfold measure. rewrite (unseen_same s s') by done. rewrite Ew, Hw, Ei. cbn. split; [lia|done]. }
  destruct (Nat.eqb_spec (lowest s node) (idx s node)) as [Hl|Hl].
  - destruct (pop_component node (stack s) (on_stack s)) as [[c st'] on'] eqn:Hpop.
    split; [by apply (root_good s node rest low' c st' on')|by apply Hmeasure].
  - split; [|by apply Hmeasure]. apply (merge_good s node rest low'); try done.
    destruct (g_low _ Hg node Hnode) as (y & _ & Hy & Hle & _). lia.
Qed.

Lemma run_spec n s :
  closed_graph → good s → measure s ≤ n →
  ∃ s', run n adjacency s = Some s' ∧ good s' ∧ work s' = [] ∧ dom (index s) ⊆ dom (index s').
Proof.
  intros Hcl. revert s. induction n as [|n IH]; intros s Hg Hn.
  { assert (Hw : work s = []). { unfold measure in Hn. destruct (work s); [done|]. cbn in Hn. lia. }
    exists s. cbn. rewrite Hw. done. }
  destruct (work s) as [|[node [|child pending]] rest] eqn:Hw.
  { exists s. cbn. rewrite Hw. done. }
  1: destruct (finish_step s node rest Hg Hw) as (s1 & Hs & Hg1 & Hm1 & Hd1).
  2: destruct (visit_step s node child pending rest Hcl Hg Hw) as (s1 & Hs & Hg1 & Hm1 & Hd1).
  all: destruct (IH s1 Hg1 ltac:(lia)) as (s' & Hr & Hg' & Hw' & Hd'); exists s';
    split; [cbn [run]; by rewrite Hw, Hs|]; split_and!; [done..|by etrans].
Qed.

(** *** The outer loop *)

Lemma ordered_app cs1 cs2 : ordered (cs1 ++ cs2) → ordered cs1.
Proof. intros Ho l1 c l2 x y ->. rewrite <-app_assoc, <-app_comm_cons in Ho. by apply (Ho l1 c (l2 ++ cs2)). Qed.

Lemma ordered_rtc cs x y : ordered cs → x ∈ concat cs → rtc edge x y → y ∈ concat cs.
Proof. intros Ho Hx Hr. induction Hr as [|x y z He _ IH]; [done|]. apply IH. by apply (ordered_closed cs x y). Qed.

Lemma init_good : good init.
Proof.
  constructor; cbn; try by (intros ? ?%not_elem_of_nil || constructor).
  - set_solver.
  - intros x. rewrite dom_empty. set_solver.
  - intros x. rewrite dom_empty. rewrite elem_of_empty, elem_of_nil. done.
  - intros x. rewrite elem_of_nil. set_solver.
  - intros w x ?%not_elem_of_nil. done.
  - intros w l y ?%not_elem_of_nil. done.
  - intros x y ?%not_elem_of_nil. done.
  - intros l1 c l2 x y Heq. by destruct l1.
  - intros c x y ?%not_elem_of_nil. done.
Qed.

Lemma idle_stack s : good s → work s = [] → stack s = [].
Proof.
  intros Hg Hw. destruct (stack s) as [|x st] eqn:Hs; [done|].
  destruct (g_up _ Hg x) as (w & Hwi & _); [rewrite Hs; left|]. rewrite Hw in Hwi. by apply not_elem_of_nil in Hwi.
Qed.

Lemma sum_unseen_le s l : sum_list_with (unseen s) l ≤ sum_list_with (cost adjacency) l.
Proof. induction l as [|x l IH]; [done|]. cbn. unfold unseen at 1. case_bool_decide; lia. Qed.

Lemma start_spec s start :
  closed_graph → good s → work s = [] → start ∈ dom adjacency →
  ∃ s', visit_start adjacency (Some s) start = Some s' ∧ good s' ∧ work s' = [] ∧
    dom (index s) ∪ {[start]} ⊆ dom (index s').
Proof.
  intros Hcl Hg Hw Hd. unfold visit_start. cbn. case_bool_decide as Hs.
  { exists s. split_and!; [done..|set_solver]. }
  pose proof (idle_stack s Hg Hw) as Hst.
  destruct (enter adjacency start s) as [s1|] eqn:He; cycle 1.
  { exfalso. unfold enter in He. destruct (adjacency !! start) eqn:Ha; [done|]. by apply not_elem_of_dom in Ha. }
  assert (He' : enter adjacency start (mkState (index s) (low s) (on_stack s) (stack s) [] (components s) (next s)) = Some s1).
  { rewrite <-He. f_equal. destruct s. cbn in Hw. by rewrite Hw. }
  destruct (enter_measure s start [] s1 Hg Hd Hs He') as [Hm Hseen].
  assert (Hg1 : good s1).
  { apply (enter_good s start []); try done; [by rewrite Hw|by left| |by intros w l y ?%not_elem_of_nil].
    intros z y _ _. right. intros l Hin. rewrite Hw in Hin. by apply not_elem_of_nil in Hin. }
  destruct (run_spec (fuel adjacency) s1 Hcl Hg1) as (s2 & Hr & Hg2 & Hw2 & Hd2).
  { rewrite Hw in Hm. cbn in Hm. pose proof (sum_unseen_le s (keys adjacency)) as Hle. unfold fuel.
    unfold measure in Hm at 2. rewrite Hw in Hm. cbn in Hm. lia. }
  exists s2. cbn. split_and!; [done..|]. intros y [Hy| ->%elem_of_singleton]%elem_of_union; apply Hd2, Hseen; auto.
Qed.

Lemma starts_spec s l :
  closed_graph → good s → work s = [] → (∀ x, x ∈ l → x ∈ dom adjacency) →
  ∃ s', foldl (visit_start adjacency) (Some s) l = Some s' ∧ good s' ∧ work s' = [] ∧
    dom (index s) ∪ list_to_set l ⊆ dom (index s').
Proof.
  intros Hcl. revert s. induction l as [|x l IH]; intros s Hg Hw Hl; [exists s; split_and!; [done..|set_solver]|].
  destruct (start_spec s x Hcl Hg Hw) as (s1 & Hs & Hg1 & Hw1 & Hd1); [apply Hl; left|].
  destruct (IH s1 Hg1 Hw1) as (s2 & Hs2 & Hg2 & Hw2 & Hd2); [intros y Hy; apply Hl; by right|].
  exists s2. cbn [foldl]. rewrite Hs. split_and!; [done..|set_solver].
Qed.

(** What a list of components is: each node once, each component one of mutual
    reachability, after all those it leads to. *)
Definition components_of (cs : list (list string)) : Prop :=
  NoDup (concat cs) ∧ (∀ x, x ∈ concat cs ↔ x ∈ dom adjacency) ∧
  (∀ x y, x ∈ dom adjacency → y ∈ dom adjacency →
    (∃ c, c ∈ cs ∧ x ∈ c ∧ y ∈ c) ↔ rtc edge x y ∧ rtc edge y x) ∧
  ordered cs ∧ ∀ c, c ∈ cs → c ≠ [] ∧ StronglySorted (λ x y, String.leb x y = true) c.

Lemma same_component cs x y :
  ordered cs → NoDup (concat cs) → x ∈ concat cs → rtc edge x y → rtc edge y x → ∃ c, c ∈ cs ∧ x ∈ c ∧ y ∈ c.
Proof.
  intros Ho Hnd (c & Hx & Hc)%elem_of_concat Hxy Hyx. exists c. split; [done|]. split; [done|].
  apply list_elem_of_split in Hc as (l1 & l2 & ->). rewrite concat_app in Hnd. cbn in Hnd.
  assert (Ho1 : ordered (l1 ++ [c])) by (apply (ordered_app _ l2); by rewrite <-app_assoc).
  pose proof (ordered_rtc (l1 ++ [c]) x y Ho1) as Hy. rewrite concat_app in Hy. cbn in Hy. rewrite app_nil_r in Hy.
  assert (Hin : y ∈ concat l1 ++ c) by (apply Hy; [apply elem_of_app; by right|done]).
  apply elem_of_app in Hin as [Hin|Hin]; [|done]. exfalso.
  assert (Hx1 : x ∈ concat l1) by (apply (ordered_rtc l1 y x); [by apply (ordered_app _ _ Ho)|done|done]).
  apply NoDup_app in Hnd as (_ & Hnd & _). apply (Hnd x Hx1). apply elem_of_app. by left.
Qed.

Lemma strongly_connected_ok : closed_graph → ∃ cs, strongly_connected adjacency = Some cs ∧ components_of cs.
Proof.
  intros Hcl. destruct (starts_spec init (keys adjacency) Hcl init_good eq_refl) as (s & Hs & Hg & Hw & Hd).
  { intros x. apply elem_of_keys. }
  unfold strongly_connected. rewrite Hs. cbn. exists (components s). split; [done|].
  pose proof (idle_stack s Hg Hw) as Hst. pose proof (g_nodup _ Hg) as Hnd. rewrite Hst in Hnd.
  assert (Hall : ∀ x, x ∈ concat (components s) ↔ x ∈ dom adjacency).
  { intros x. pose proof (g_seen _ Hg x) as Hx. rewrite Hst in Hx. cbn in Hx. rewrite <-Hx. split; [apply (g_keys _ Hg)|].
    intros Hin. apply Hd, elem_of_union. right. by apply elem_of_list_to_set, elem_of_keys. }
  split_and!; [done|done| |apply Hg|apply Hg]. intros x y Hx Hy. split.
  - intros (c & Hc & Hxc & Hyc). split; by apply (g_connected _ Hg c).
  - intros [Hxy Hyx]. apply same_component; [apply Hg|done|by apply Hall|done|done].
Qed.

End scc.

(** C27: Tarjan's algorithm ends without a panic on a graph whose edges lead to
    its nodes, and yields its strongly connected components: every node is in
    exactly one, two nodes are in the same one exactly when each reaches the
    other, none is empty, each is in ascending order, and a component comes
    after every other one its edges lead to. *)
Theorem strongly_connected_spec adjacency :
  closed_graph adjacency →
  ∃ cs, strongly_connected adjacency = Some cs ∧ components_of adjacency cs.
Proof. apply strongly_connected_ok. Qed.

Definition demo_graph : graph :=
  {[ "a" := {[ "b" ]}; "b" := {[ "c"; "d" ]}; "c" := {[ "a" ]}; "d" := {[ "e" ]}; "e" := {[ "d" ]}; "f" := {[ "a" ]} ]}.

Lemma strongly_connected_spec_witness :
  strongly_connected demo_graph = Some [["d"; "e"]; ["a"; "b"; "c"]; ["f"]] ∧
  ∃ cs, strongly_connected demo_graph = Some cs ∧ components_of demo_graph cs.
Proof.
  split; [vm_compute; reflexivity|]. apply strongly_connected_spec.
  assert (Hall : map_Forall (λ _ s, s ⊆ dom demo_graph) demo_graph) by (apply (bool_decide_unpack _); vm_compute; exact I).
  intros x y (s & Hs & Hy). exact (Hall x s Hs y Hy).
Defined.

End Scc.
