(* ===== verification/ArchFindings.v ===== *)
(** * Findings of the architecture overview

    Models crates/dagayn-tools/src/arch_findings.rs around [Scc] and [CycleCut]:
    the import cycles of a repository with the imports to cut, the widely used
    symbols no test reaches, the doc links that lead nowhere, and what of them is
    listed; and the path rules of findings.rs they ask.  Findings are records
    where the code builds JSON objects. *)
From S2P Require Import Prelude GraphData Impact CycleCut Scc.
Import GraphData Impact.

Module ArchFindings.

#[local] Set Default Proof Using "Type".

(** ** Path rules *)

Definition backslash_to_slash (s : string) : string :=
  replace_char (Ascii.ascii_of_nat 92) (Ascii.ascii_of_nat 47) s.

(** [rsplit('/').next()]. *)
Definition base_name (s : string) : string := default s (last (split_slash s)).

(** Source: crates/dagayn-parser/src/go.rs 212-215 [go_test_file]. *)
Definition go_test_file (path : string) : option bool :=
  let name := base_name (backslash_to_slash path) in
  if str_ends_with ".go" name then Some (str_ends_with "_test.go" name) else None.

(** Source: crates/dagayn-tools/src/findings.rs 238-250 [is_test_path]. *)
Definition is_test_path (rel : string) : bool :=
  let rel := backslash_to_slash rel in
  let name := base_name rel in
  existsb (λ part, bool_decide (part ∈ ["tests"; "test"; "__tests__"; "spec"; "testdata"])) (split_slash rel)
  || match go_test_file name with
     | Some b => b
     | None =>
         String.prefix "test_" name || str_contains "_test." name || str_contains ".test." name
         || str_contains ".spec." name || bool_decide (name = "conftest.py")
     end.

(** Source: crates/dagayn-tools/src/findings.rs 52-79 [CODE_LANGUAGES]. *)
Definition CODE_LANGUAGES : list string :=
  ["python"; "rust"; "typescript"; "tsx"; "javascript"; "go"; "java"; "kotlin"; "scala"; "c"; "cpp"; "csharp";
   "objc"; "swift"; "ruby"; "php"; "perl"; "lua"; "dart"; "elixir"; "julia"; "r"; "zig"; "gdscript"; "bash"; "vue"].

Section findings.
Context `{Json}.

(** Source: crates/dagayn-tools/src/findings.rs 234-236 [is_test_node]. *)
Definition is_test_node (node : GraphNode) (rel : string) : bool :=
  n_is_test node || bool_decide (n_kind node = "Test") || is_test_path rel.

(** Source: crates/dagayn-tools/src/findings.rs 254-271 [is_production_code]. *)
Definition is_production_code (node : GraphNode) (rel : string) : bool :=
  if is_test_node node rel || negb (bool_decide (n_language node ∈ CODE_LANGUAGES)) then false
  else
    let rel := backslash_to_slash rel in
    let name := base_name rel in
    negb (bool_decide (name = "build.rs") || bool_decide (name = "setup.py") || bool_decide (name = "conftest.py")
          || str_contains "_pb2" name || str_contains ".generated." name
          || existsb (λ part, bool_decide (part ∈
               ["examples"; "example"; "benches"; "bench"; "fixtures"; "generated"; "vendor"])) (split_slash rel)).

Definition CALLER_TEST_DEPTH : nat := 4.
Definition JS_CALLER_TEST_DEPTH : nat := 8.

(** Source: crates/dagayn-tools/src/findings.rs 34-40 [caller_test_depth]. *)
Definition caller_test_depth (language : string) : option nat :=
  if bool_decide (language = "rust") then None
  else if bool_decide (language ∈ ["typescript"; "tsx"; "javascript"]) then Some JS_CALLER_TEST_DEPTH
  else Some CALLER_TEST_DEPTH.

(** ** Import cycles *)

Definition MAX_PER_KIND : nat := 10.
Definition MAX_CYCLE_EDGES : nat := 20.
Definition MIN_CORE_USERS : nat := 5.
Definition LOAD_ORDER_LANGUAGES : list string := ["python"; "javascript"; "typescript"; "tsx"].
Definition NON_LOADING_IMPORT_KINDS : list string := ["type"; "require"; "dynamic"].

(** A [HashMap] collected from pairs: the last of a key counts. *)
Definition collect {A} (l : list (string * A)) : gmap string A := list_to_map (rev l).

(** Source: crates/dagayn-tools/src/arch_findings.rs 56-62 [file_languages]. *)
Definition file_languages (nodes : list GraphNode) : gmap string string :=
  collect ((λ n, (n_file_path n, n_language n)) <$> filter (λ n, n_kind n = "File") nodes).

(** Source: crates/dagayn-tools/src/arch_findings.rs 65-73 [loads_on_import]. *)
Definition loads_on_import (e : GraphEdge) : bool :=
  negb (has_key (g_extra e) "import_scope")
  && negb (bool_decide (get_bool (g_extra e) "lazy_export" = Some true))
  && match get_str (g_extra e) "import_kind" with
     | Some kind => negb (bool_decide (kind ∈ NON_LOADING_IMPORT_KINDS))
     | None => true
     end.

(** Source: crates/dagayn-tools/src/arch_findings.rs 76-95 [is_production_file]. *)
Definition is_production_file (path : string) : bool :=
  is_production_code
    (mkGraphNode 0 "File" "" path path 0 0 "python" None None None false None empty_object None) path.

Section repository.
Context (nodes : list GraphNode) (edges : list GraphEdge).

(** Source: crates/dagayn-tools/src/arch_findings.rs 102-105 [import_cycles]. *)
Definition file_of : gmap string string := collect ((λ n, (n_qualified_name n, n_file_path n)) <$> nodes).

(** Source: crates/dagayn-tools/src/arch_findings.rs 106-111 [import_cycles]. *)
Definition in_scope (file : string) : bool :=
  match file_languages nodes !! file with
  | Some language => bool_decide (language ∈ LOAD_ORDER_LANGUAGES) && is_production_file file
  | None => false
  end.

(** The files an edge leads from and to, where it is an import that counts.

    Source: crates/dagayn-tools/src/arch_findings.rs 114-132 [import_cycles]. *)
Definition import_of (e : GraphEdge) : option (string * string) :=
  if negb (bool_decide (g_kind e = "IMPORTS_FROM")) || negb (loads_on_import e) then None
  else
    let from := g_file_path e in
    to ← match file_of !! g_target_qualified e with
         | Some to => Some to
         | None => if bool_decide (g_target_qualified e ∈ dom (file_languages nodes))
                   then Some (g_target_qualified e) else None
         end;
    if bool_decide (from = to) || negb (in_scope from) || negb (in_scope to) then None else Some (from, to).

(** Source: crates/dagayn-tools/src/arch_findings.rs 113-134 [import_cycles]. *)
Definition add_import (imports : gmap (string * string) (list Z)) (e : GraphEdge) : gmap (string * string) (list Z) :=
  match import_of e with
  | Some p => <[p := default [] (imports !! p) ++ [g_line e]]> imports
  | None => imports
  end.

Definition pair_le (x y : string * string) : bool :=
  match String.compare x.1 y.1 with
  | Lt => true
  | Eq => String.leb x.2 y.2
  | Gt => false
  end.

(** The entries of the [BTreeMap], in its order.

    Source: crates/dagayn-tools/src/arch_findings.rs 113-134 [import_cycles]. *)
Definition imports : list CycleCut.import :=
  sort_by (λ x y, pair_le x.1 y.1) (map_to_list (foldl add_import ∅ edges)).

(** Source: crates/dagayn-tools/src/arch_findings.rs 136-139 [import_cycles]. *)
Definition add_neighbour (adjacency : Scc.graph) (p : string * string) : Scc.graph :=
  let '(from, to) := p in
  let adjacency := <[from := {[to]} ∪ default ∅ (adjacency !! from)]> adjacency in
  <[to := default ∅ (adjacency !! to)]> adjacency.

(** Source: crates/dagayn-tools/src/arch_findings.rs 135-139 [import_cycles]. *)
Definition adjacency : Scc.graph := foldl add_neighbour ∅ imports.*1.

Record CycleFinding := mkCycleFinding {
  cf_file : string;
  cf_targets : list string;
  cf_evidence : list (string * string * Z);
  cf_cut : list (string * string * Z);
  cf_evidence_omitted : option nat
}.

(** The imports within a component.

    Source: crates/dagayn-tools/src/arch_findings.rs 145-149 [import_cycles]. *)
Definition inner (members : list string) : list CycleCut.import :=
  filter (λ i, i.1.1 ∈ members ∧ i.1.2 ∈ members) imports.

(** Source: crates/dagayn-tools/src/arch_findings.rs 143-178 [import_cycles]. *)
Definition cycle_finding (component : list string) : option (nat * CycleFinding) :=
  let members := ascending (list_to_set component) in
  let inner := inner members in
  cut ← CycleCut.cycle_cut inner members;
  file ← head members;
  Some (length members,
    mkCycleFinding file members
      ('(p, lines) ← take MAX_CYCLE_EDGES inner; (λ line, (p, line)) <$> lines)
      cut
      (if MAX_CYCLE_EDGES <? length inner then Some (length inner - MAX_CYCLE_EDGES) else None)).

(** Larger cycles first, then by file.

    Source: crates/dagayn-tools/src/arch_findings.rs 179-182 [import_cycles]. *)
Definition larger_first (x y : nat * CycleFinding) : bool :=
  match x.1 ?= y.1 with
  | Gt => true
  | Eq => String.leb (cf_file x.2) (cf_file y.2)
  | Lt => false
  end.

(** Source: crates/dagayn-tools/src/arch_findings.rs 100-184 [import_cycles]. *)
Definition import_cycles : option (list CycleFinding) :=
  components ← Scc.strongly_connected adjacency;
  findings ← mapM cycle_finding (filter (λ component, 1 < length component) components);
  Some (snd <$> sort_by larger_first findings).

(** ** What the findings cover *)

Lemma tc_mono {A} (R S : relation A) x y : (∀ x y, R x y → S x y) → tc R x y → tc S x y.
Proof. intros HR. induction 1 as [u v Huv|u v w Huv _ IH]; [by apply tc_once, HR|]. eapply tc_l; [by apply HR|done]. Qed.

Definition import_map : gmap (string * string) (list Z) := foldl add_import ∅ edges.

(** A file imports another when it loads, at a line. *)
Definition imports_at (x y : string) (line : Z) : Prop :=
  ∃ e, e ∈ edges ∧ import_of e = Some (x, y) ∧ g_line e = line.
Definition imports_file (x y : string) : Prop := ∃ line, imports_at x y line.

Lemma import_map_spec x y line :
  imports_at x y line ↔ ∃ lines, import_map !! (x, y) = Some lines ∧ line ∈ lines.
Proof.
  unfold imports_at, import_map. induction edges as [|e es IH] using rev_ind.
  { split; [by intros (e & ?%not_elem_of_nil & _)|by intros (lines & Hl & _)]. }
  rewrite foldl_snoc. unfold add_import at 1. setoid_rewrite elem_of_app. setoid_rewrite list_elem_of_singleton.
  split.
  - intros (e' & [He| ->] & Hi & Hl).
    + destruct (proj1 IH) as (lines & Hlines & Hin); [by exists e'|].
      destruct (import_of e) as [p|]; [|by exists lines]. destruct (decide (p = (x, y))) as [->|Hn].
      * rewrite lookup_insert_eq, Hlines. eexists. split; [done|]. apply elem_of_app. by left.
      * rewrite lookup_insert_ne by done. by exists lines.
    + rewrite Hi, lookup_insert_eq. eexists. split; [done|]. apply elem_of_app. right.
      by apply list_elem_of_singleton.
  - destruct (import_of e) as [p|] eqn:Hi.
    + destruct (decide (p = (x, y))) as [->|Hn].
      * rewrite lookup_insert_eq. intros (lines & [= <-] & [Hin| ->%list_elem_of_singleton]%elem_of_app).
        -- destruct (foldl add_import ∅ es !! (x, y)) as [lines|]; [|by apply not_elem_of_nil in Hin].
           destruct (proj2 IH) as (e' & He' & H'); [by exists lines|]. exists e'. auto.
        -- exists e. auto.
      * rewrite lookup_insert_ne by done. intros (e' & He' & H')%IH. exists e'. auto.
    + intros (e' & He' & H')%IH. exists e'. auto.
Qed.

Lemma elem_of_imports x y lines : ((x, y), lines) ∈ imports ↔ import_map !! (x, y) = Some lines.
Proof. unfold imports. rewrite elem_of_sort_by. apply elem_of_map_to_list. Qed.

Lemma NoDup_imports : NoDup imports.*1.
Proof. unfold imports. rewrite (sort_by_Permutation _). apply NoDup_fst_map_to_list. Qed.

Lemma import_of_ne e x y : import_of e = Some (x, y) → x ≠ y.
Proof.
  unfold import_of. destruct (_ || _); [done|].
  match goal with |- context [mbind _ ?t] => destruct t as [to|] end; [|done]. cbn.
  case_bool_decide; cbn; [done|]. destruct (_ || _); [done|]. by intros [= <- <-].
Qed.

Lemma adjacency_of_spec (ps : list (string * string)) (adj : Scc.graph) x y :
  Scc.edge (foldl add_neighbour adj ps) x y ↔ Scc.edge adj x y ∨ (x, y) ∈ ps.
Proof.
  revert adj. induction ps as [|[a b] ps IH]; intros adj; [cbn; rewrite elem_of_nil; tauto|].
  cbn [foldl]. rewrite IH, elem_of_cons.
  enough (Scc.edge (add_neighbour adj (a, b)) x y ↔ Scc.edge adj x y ∨ (x, y) = (a, b)) as -> by tauto.
  unfold Scc.edge, add_neighbour. set (adj1 := <[a := _]> adj).
  assert (H1 : (∃ s, adj1 !! x = Some s ∧ y ∈ s) ↔ (∃ s, adj !! x = Some s ∧ y ∈ s) ∨ (x, y) = (a, b)).
  { unfold adj1. destruct (decide (x = a)) as [->|Hn].
    - rewrite lookup_insert_eq. destruct (adj !! a) as [s|]; cbn; naive_solver set_solver.
    - rewrite lookup_insert_ne by done. naive_solver. }
  rewrite <-H1. destruct (decide (x = b)) as [->|Hn].
  - rewrite lookup_insert_eq. destruct (adj1 !! b) as [s|]; cbn; naive_solver set_solver.
  - by rewrite lookup_insert_ne.
Qed.

Lemma add_neighbour_closed (ps : list (string * string)) (adj : Scc.graph) :
  Scc.closed_graph adj → Scc.closed_graph (foldl add_neighbour adj ps).
Proof.
  assert (Hdom : ∀ ps adj, dom adj ⊆ dom (foldl add_neighbour adj ps) ∧ ∀ x y, (x, y) ∈ ps → x ∈ dom (foldl add_neighbour adj ps) ∧ y ∈ dom (foldl add_neighbour adj ps)).
  { clear. induction ps as [|[a b] ps IH]; intros adj; [split; [done|by intros ?? ?%not_elem_of_nil]|].
    cbn [foldl]. destruct (IH (add_neighbour adj (a, b))) as [H1 H2].
    assert (Hd : dom (add_neighbour adj (a, b)) = {[b]} ∪ ({[a]} ∪ dom adj)).
    { unfold add_neighbour. by rewrite !dom_insert_L. }
    split; [set_solver|]. intros x y [[= -> ->]|Hin]%elem_of_cons; [set_solver|by apply H2]. }
  intros Hc x y [He|Hp]%adjacency_of_spec.
  - apply (Hdom ps adj), (Hc x y He).
  - by apply (proj2 (Hdom ps adj) x y).
Qed.

Lemma adjacency_closed : Scc.closed_graph adjacency.
Proof. apply add_neighbour_closed. by intros x y (s & ? & _). Qed.

Lemma adjacency_edge x y : Scc.edge adjacency x y ↔ imports_file x y.
Proof.
  unfold adjacency. rewrite adjacency_of_spec. unfold imports_file. setoid_rewrite import_map_spec. split.
  - intros [(s & ? & _)|Hin]; [done|]. apply list_elem_of_fmap in Hin as ([p lines] & Hp & Hin). cbn in Hp. subst p.
    apply elem_of_imports in Hin. assert (Hne : lines ≠ []).
    { intros ->. revert Hin. unfold import_map. clear. induction edges as [|e es IH] using rev_ind; [done|].
      rewrite foldl_snoc. unfold add_import at 1. destruct (import_of e) as [p|]; [|done].
      destruct (decide (p = (x, y))) as [->|Hn]; [|by rewrite lookup_insert_ne].
      rewrite lookup_insert_eq. intros [= Hnil]. by apply app_nil in Hnil as [_ ?]. }
    destruct lines as [|l lines]; [done|]. exists l, (l :: lines). split; [done|left].
  - intros (line & lines & Hl & _). right. apply elem_of_imports in Hl. apply list_elem_of_fmap. by exists ((x, y), lines).
Qed.

(** What is left when some import lines are cut. *)
Definition left_of (cut : string * string * Z → Prop) (x y : string) : Prop :=
  ∃ line, imports_at x y line ∧ ¬ cut (x, y, line).

Lemma inner_within c : CycleCut.imports_within (ascending (list_to_set c)) (inner (ascending (list_to_set c))).
Proof.
  apply Forall_forall. intros [[x y] lines] [[Hx Hy] Hin]%list_elem_of_filter. split; [done|]. cbn.
  apply elem_of_imports in Hin. 
  assert (He : Scc.edge adjacency x y).
  { unfold adjacency. apply adjacency_of_spec. right. apply list_elem_of_fmap. exists ((x, y), lines).
    split; [done|]. by apply elem_of_imports. }
  apply adjacency_edge in He as (line & e & _ & Hi & _). by eapply import_of_ne.
Qed.

(** A component of more than one file gives a finding, whose cut breaks it. *)
Lemma cycle_finding_ok c :
  1 < length c →
  ∃ n f, cycle_finding c = Some (n, f) ∧ (∀ x, x ∈ cf_targets f ↔ x ∈ c) ∧
    (NoDup c → length (cf_targets f) = length c) ∧
    (∀ x y line, (x, y, line) ∈ cf_cut f → imports_at x y line) ∧
    ∀ x, ¬ tc (λ x y, x ∈ c ∧ y ∈ c ∧ left_of (.∈ cf_cut f) x y) x x.
Proof.
  intros Hlen. unfold cycle_finding. set (members := ascending (list_to_set c)).
  assert (Hm : ∀ x, x ∈ members ↔ x ∈ c) by (intros x; unfold members; by rewrite elem_of_ascending, elem_of_list_to_set).
  destruct (CycleCut.cycle_cut_kept (inner members) members (NoDup_ascending _) (inner_within c)) as (cut & -> & Hin & Hac).
  destruct members as [|file members'] eqn:Em.
  { exfalso. destruct c as [|x c]; [cbn in Hlen; lia|]. apply (not_elem_of_nil x), Hm. left. }
  cbn [mbind option_bind head]. eexists _, _. split; [done|]. rewrite <-Em in *. cbn [cf_targets cf_cut].
  split_and!; [done| | |].
  - intros Hnd. unfold members. rewrite length_ascending. by apply size_list_to_set.
  - intros x y line (lines & Hi & Hl)%Hin. apply list_elem_of_filter in Hi as [_ Hi].
    apply elem_of_imports in Hi. apply import_map_spec. by exists lines.
  - intros x Htc. apply (Hac x). eapply tc_mono; [|exact Htc]. intros u v (Hu & Hv & line & (lines & Hl & Hline)%import_map_spec & Hn). exists lines, line. split; [|done].
    apply list_elem_of_filter. split; [by rewrite !Hm|]. by apply elem_of_imports.
Qed.

Lemma mapM_findings cs :
  (∀ c, c ∈ cs → 1 < length c) →
  ∃ fs, mapM cycle_finding cs = Some fs ∧
    Forall2 (λ c nf, cycle_finding c = Some nf) cs fs.
Proof.
  intros Hlen. assert (Hsome : Forall (λ c, is_Some (cycle_finding c)) cs).
  { apply Forall_forall. intros c Hc. destruct (cycle_finding_ok c (Hlen c Hc)) as (n & f & -> & _). by eexists. }
  apply mapM_is_Some in Hsome as [fs Hfs]. exists fs. split; [done|]. by apply mapM_Some.
Qed.

Lemma component_unique (cs : list (list string)) c c' x :
  NoDup (concat cs) → c ∈ cs → c' ∈ cs → x ∈ c → x ∈ c' → c = c'.
Proof.
  intros Hnd Hc Hc' Hx Hx'. apply list_elem_of_split in Hc as (l1 & l2 & ->).
  rewrite concat_app in Hnd. cbn in Hnd. apply NoDup_app in Hnd as (_ & H1 & (_ & H2 & _)%NoDup_app).
  apply elem_of_app in Hc' as [Hc'|[->|Hc']%elem_of_cons]; [exfalso|done|exfalso].
  - apply (H1 x); [apply elem_of_concat; by exists c'|]. apply elem_of_app. by left.
  - apply (H2 x Hx), elem_of_concat. by exists c'.
Qed.

(** A path that comes back to its start stays in the start's component. *)
Lemma cycle_within (R : relation string) cs c x0 x y :
  Scc.components_of adjacency cs → c ∈ cs → x0 ∈ c → (∀ x y, R x y → imports_file x y) →
  tc R x y → x ∈ c → rtc imports_file y x0 → tc (λ x y, x ∈ c ∧ y ∈ c ∧ R x y) x y.
Proof.
  intros (Hnd & Hall & Hsame & _) Hc H0 HR.
  assert (Hrtc : ∀ x y, rtc imports_file x y ↔ rtc (Scc.edge adjacency) x y).
  { intros u v. split; intros Hr; (eapply rtc_subrel; [|exact Hr]); intros a b; by rewrite adjacency_edge. }
  assert (Hd : ∀ x, x ∈ c → x ∈ dom adjacency) by (intros u Hu; apply Hall, elem_of_concat; by exists c).
  assert (Hin : ∀ x y, x ∈ c → R x y → rtc imports_file y x0 → y ∈ c).
  { intros u v Hu Huv Hv. assert (Huv' : Scc.edge adjacency u v) by by apply adjacency_edge, HR.
    pose proof (adjacency_closed u v Huv') as Hdv.
    destruct (proj2 (Hsame x0 v (Hd _ H0) Hdv)) as (c' & Hc' & H0' & Hv'); cycle 1.
    { by rewrite (component_unique cs c c' x0 Hnd Hc Hc' H0 H0'). }
    rewrite <-!Hrtc. split; [|done]. assert (Hxu : rtc (Scc.edge adjacency) x0 u).
    { apply Hsame; [by apply Hd..|]. by exists c. }
    etrans; [by apply Hrtc|]. apply rtc_once. by apply HR. }
  assert (Hsub : ∀ x y, tc R x y → rtc imports_file x y).
  { intros u v Huv. apply tc_rtc. by apply (tc_mono R). }
  induction 1 as [u v Huv|u w v Huw Hwv IH]; intros Hu Hv.
  - apply tc_once. split_and!; [done|by apply (Hin u)|done].
  - assert (Hw : w ∈ c) by (apply (Hin u); [done..|]; etrans; [by apply Hsub|done]).
    eapply tc_l; [by split_and!|]. by apply IH.
Qed.

(** The findings are those of the components of more than one file. *)
Lemma import_cycles_findings :
  ∃ cs fs, Scc.components_of adjacency cs ∧ import_cycles = Some fs ∧
    ∀ f, f ∈ fs ↔ ∃ c n, c ∈ cs ∧ 1 < length c ∧ cycle_finding c = Some (n, f).
Proof.
  destruct (Scc.strongly_connected_ok adjacency adjacency_closed) as (cs & Hcs & Hok).
  unfold import_cycles. rewrite Hcs. cbn [mbind option_bind].
  set (big := filter (λ component, 1 < length component) cs).
  destruct (mapM_findings big) as (nfs & Hm & Hf2); [by intros c [? _]%list_elem_of_filter|].
  rewrite Hm. cbn. eexists cs, _. split; [done|]. split; [done|]. intros f.
  rewrite list_elem_of_fmap. setoid_rewrite elem_of_sort_by. split.
  - intros ([n f'] & -> & Hin). apply list_elem_of_lookup in Hin as [i Hi].
    destruct (Forall2_lookup_r _ _ _ _ _ Hf2 Hi) as (c & Hc & Hcf). exists c, n.
    apply list_elem_of_lookup_2, list_elem_of_filter in Hc as [Hlen Hc]. done.
  - intros (c & n & Hc & Hlen & Hcf). assert (Hin : c ∈ big) by by apply list_elem_of_filter.
    apply list_elem_of_lookup in Hin as [i Hi]. destruct (Forall2_lookup_l _ _ _ _ _ Hf2 Hi) as (nf & Hnf & Hcf').
    rewrite Hcf in Hcf'. injection Hcf' as <-. exists (n, f). split; [done|]. by eapply list_elem_of_lookup_2.
Qed.

Lemma imports_rtc x y : rtc imports_file x y ↔ rtc (Scc.edge adjacency) x y.
Proof. split; intros Hr; (eapply rtc_subrel; [|exact Hr]); intros a b; by rewrite adjacency_edge. Qed.

(** A file that imports its way back to itself is in a component of two or more. *)
Lemma cycle_component cs x :
  Scc.components_of adjacency cs → tc imports_file x x → ∃ c, c ∈ cs ∧ x ∈ c ∧ 1 < length c.
Proof.
  intros Hok Htc. pose proof Hok as (Hnd & Hall & Hsame & _).
  assert (Hstep : ∃ y, imports_file x y ∧ rtc imports_file y x).
  { inversion Htc as [u v Hxx|u y v Hxy Hyx]; subst; [by exists x|]. exists y. split; [done|by apply tc_rtc]. }
  destruct Hstep as (y & Hxy & Hyx). pose proof Hxy as (line & e & _ & He & _). apply import_of_ne in He.
  apply adjacency_edge in Hxy. assert (Hx : x ∈ dom adjacency).
  { destruct Hxy as (s & Hs & _). by apply elem_of_dom_2 in Hs. }
  destruct (proj2 (Hsame x y Hx (adjacency_closed _ _ Hxy))) as (c & Hc & Hxc & Hyc).
  { split; [by apply rtc_once|by apply imports_rtc]. }
  exists c. split; [done|]. split; [done|]. destruct c as [|u [|v c]]; [|exfalso|cbn; lia].
  - by apply not_elem_of_nil in Hxc.
  - apply list_elem_of_singleton in Hxc, Hyc. congruence.
Qed.

Lemma other_member (c : list string) x : NoDup c → 1 < length c → ∃ y, y ∈ c ∧ x ≠ y.
Proof using Type.
  intros Hc Hlen. destruct c as [|u [|v c]]; cbn in Hlen; [lia|lia|]. apply NoDup_cons in Hc as [Hu _].
  destruct (decide (x = u)) as [->|Hn]; [|exists u; split; [left|done]].
  exists v. split; [right; left|]. intros ->. apply Hu. left.
Qed.

(** C26: The import cycles of a repository are found and can be cut: the
    analysis never fails; each finding names at least two files, each of which
    imports its way to every other; a file is named exactly when it imports its
    way back to itself; what a finding cuts are import lines that are there; and
    once all the lines cut are gone, no file imports its way back to itself. *)
Theorem import_cycles_spec :
  ∃ fs, import_cycles = Some fs ∧
    (∀ f, f ∈ fs → 2 ≤ length (cf_targets f) ∧
       ∀ x y, x ∈ cf_targets f → y ∈ cf_targets f → rtc imports_file x y) ∧
    (∀ x, tc imports_file x x ↔ ∃ f, f ∈ fs ∧ x ∈ cf_targets f) ∧
    (∀ f x y line, f ∈ fs → (x, y, line) ∈ cf_cut f → imports_at x y line) ∧
    ∀ x, ¬ tc (left_of (λ cut, ∃ f, f ∈ fs ∧ cut ∈ cf_cut f)) x x.
Proof.
  destruct import_cycles_findings as (cs & fs & Hok & Hfs & Hin). exists fs. split; [done|].
  pose proof Hok as (Hnd & Hall & Hsame & _).
  assert (Hdom : ∀ c x, c ∈ cs → x ∈ c → x ∈ dom adjacency) by (intros c x Hc Hx; apply Hall, elem_of_concat; by exists c).
  assert (Hnc : ∀ c, c ∈ cs → NoDup c).
  { intros c (l1 & l2 & ->)%list_elem_of_split. rewrite concat_app in Hnd. cbn in Hnd.
    by apply NoDup_app in Hnd as (_ & _ & (Hc & _)%NoDup_app). }
  assert (Hspec : ∀ f, f ∈ fs → ∃ c, c ∈ cs ∧ 1 < length c ∧ (∀ x, x ∈ cf_targets f ↔ x ∈ c) ∧
    length (cf_targets f) = length c ∧ ∀ x y line, (x, y, line) ∈ cf_cut f → imports_at x y line).
  { intros f (c & n & Hc & Hlen & Hcf)%Hin. exists c.
    destruct (cycle_finding_ok c Hlen) as (n' & f' & Hcf' & Ht & Hl & Hcut & _).
    rewrite Hcf in Hcf'. injection Hcf' as <- <-. auto 10. }
  assert (Hfind : ∀ c, c ∈ cs → 1 < length c → ∃ f, f ∈ fs ∧ (∀ x, x ∈ cf_targets f ↔ x ∈ c) ∧
    ∀ x, ¬ tc (λ x y, x ∈ c ∧ y ∈ c ∧ left_of (.∈ cf_cut f) x y) x x).
  { intros c Hc Hlen. destruct (cycle_finding_ok c Hlen) as (n & f & Hcf & Ht & _ & _ & Hac).
    exists f. split; [|done]. apply Hin. by exists c, n. }
  split_and!.
  - intros f Hf. destruct (Hspec f Hf) as (c & Hc & Hlen & Ht & Hl & _). rewrite Hl. split; [lia|].
    intros x y Hx%Ht Hy%Ht. apply imports_rtc. apply Hsame; [by apply (Hdom c)..|]. by exists c.
  - intros x. split.
    + intros Htc. destruct (cycle_component cs x Hok Htc) as (c & Hc & Hx & Hlen).
      destruct (Hfind c Hc Hlen) as (f & Hf & Ht & _). exists f. split; [done|by apply Ht].
    + intros (f & Hf & Hx). destruct (Hspec f Hf) as (c & Hc & Hlen & Ht & _). apply Ht in Hx.
      destruct (other_member c x (Hnc c Hc) Hlen) as (y & Hy & Hn).
      assert (Hxy : rtc imports_file x y ∧ rtc imports_file y x).
      { rewrite !imports_rtc. apply Hsame; [by apply (Hdom c)..|]. by exists c. }
      destruct Hxy as [Hxy Hyx]. destruct Hxy as [|x z y Hxz Hzy]; [done|].
      eapply tc_rtc_r; [by apply tc_once|]. by etrans.
  - intros f x y line Hf. destruct (Hspec f Hf) as (c & _ & _ & _ & _ & Hcut). apply Hcut.
  - intros x Htc.
    assert (Himp : ∀ x y, left_of (λ cut, ∃ f, f ∈ fs ∧ cut ∈ cf_cut f) x y → imports_file x y).
    { intros u v (line & Hl & _). by exists line. }
    destruct (cycle_component cs x Hok) as (c & Hc & Hx & Hlen); [by eapply tc_mono|].
    destruct (Hfind c Hc Hlen) as (f & Hf & _ & Hac). apply (Hac x).
    pose proof (cycle_within _ cs c x x x Hok Hc Hx Himp Htc Hx (rtc_refl _ _)) as Hw.
    eapply tc_mono; [|exact Hw]. intros u v (Hu & Hv & line & Hl & Hno). split_and!; [done..|].
    exists line. split; [done|]. intros Hcut. apply Hno. by exists f.
Qed.

End repository.
End findings.

End ArchFindings.
