(* ===== verification/UntestedCore.v ===== *)
(** * Core symbols no test reaches, and broken doc links

    Models [untested_core], [broken_doc_links] and [architecture_findings] of
    crates/dagayn-tools/src/arch_findings.rs.  The walk over callers is shown to
    decide reachability within the hops allowed, and the list to hold exactly the
    symbols it should. *)
From S2P Require Import Prelude GraphData Impact Scc ArchFindings.
Import GraphData Impact ArchFindings.

Module UntestedCore.

#[local] Set Default Proof Using "Type".

(** ** The walk over callers *)

Section walk.
Context (callers : gmap string (list string)) (hit : string → bool).

(** Source: crates/dagayn-tools/src/arch_findings.rs 387-391 [untested_core]. *)
Definition add_caller (st : list string * gset string) (caller : string) : list string * gset string :=
  let '(next, seen) := st in
  if bool_decide (caller ∈ seen) then (next, seen) else (next ++ [caller], {[caller]} ∪ seen).

(** Source: crates/dagayn-tools/src/arch_findings.rs 385-392 [untested_core]. *)
Definition expand (frontier : list string) (seen : gset string) : list string * gset string :=
  foldl (λ st qn, foldl add_caller st (default [] (callers !! qn))) ([], seen) frontier.

(** Each round but the last meets a new caller.

    Source: crates/dagayn-tools/src/arch_findings.rs 375-395 [untested_core]. *)
Fixpoint walk (fuel : nat) (limit : option nat) (hops : nat) (frontier : list string) (seen : gset string) : bool :=
  match fuel with
  | 0 => false
  | S fuel =>
      if bool_decide (frontier = []) then false
      else if match limit with Some limit => limit <? hops | None => false end then false
      else if existsb hit frontier then true
      else let '(next, seen) := expand frontier seen in walk fuel limit (S hops) next seen
  end.

(** Source: crates/dagayn-tools/src/arch_findings.rs 370-396 [untested_core]. *)
Definition reached (limit : option nat) (start : string) : bool :=
  walk (S (S (size (list_to_set (concat (map_to_list callers).*2) : gset string)))) limit 0 [start] {[start]}.

End walk.

(** ** Untested core symbols *)

Section core.
Context `{Json} (nodes : list GraphNode) (edges : list GraphEdge).

(** Source: crates/dagayn-tools/src/arch_findings.rs 326-329 [untested_core]. *)
Definition by_qn : gmap string GraphNode := collect ((λ n, (n_qualified_name n, n)) <$> nodes).

(** Source: crates/dagayn-tools/src/arch_findings.rs 330-333 [untested_core]. *)
Definition candidate (n : GraphNode) : bool :=
  bool_decide (n_kind n ∈ ["Function"; "Class"]) && is_production_code n (n_file_path n).

Record Uses := mkUses {
  users : gmap string (gset string);
  callers : gmap string (list string);
  tested : gset string
}.

(** Source: crates/dagayn-tools/src/arch_findings.rs 342-342 [untested_core]. *)
Definition is_use (kind : string) : bool :=
  bool_decide (kind ∈ ["CALLS"; "REFERENCES"; "INHERITS"; "IMPLEMENTS"]).

(** Whether an edge counts its file among the users of its target.

    Source: crates/dagayn-tools/src/arch_findings.rs 348-351 [untested_core]. *)
Definition counts_user (e : GraphEdge) : bool :=
  match by_qn !! g_target_qualified e with
  | Some node => candidate node && negb (bool_decide (g_file_path e = n_file_path node))
  | None => false
  end.

(** Source: crates/dagayn-tools/src/arch_findings.rs 337-360 [untested_core]. *)
Definition add_use (u : Uses) (e : GraphEdge) : Uses :=
  if bool_decide (g_kind e = "TESTED_BY") then mkUses (users u) (callers u) ({[g_source_qualified e]} ∪ tested u)
  else if is_use (g_kind e) then
    let target := g_target_qualified e in
    mkUses
      (if counts_user e then <[target := {[g_file_path e]} ∪ default ∅ (users u !! target)]> (users u) else users u)
      (<[target := default [] (callers u !! target) ++ [g_source_qualified e]]> (callers u))
      (tested u)
  else u.

(** Source: crates/dagayn-tools/src/arch_findings.rs 334-360 [untested_core]. *)
Definition uses : Uses := foldl add_use (mkUses ∅ ∅ ∅) edges.

(** Source: crates/dagayn-tools/src/arch_findings.rs 361-367 [untested_core]. *)
Definition threshold (counts : list nat) : nat :=
  let counts := sort_by Nat.leb counts in
  Nat.max (counts !!! Nat.min (length counts * 95 / 100) (length counts - 1)) MIN_CORE_USERS.

(** Source: crates/dagayn-tools/src/arch_findings.rs 377-382 [untested_core]. *)
Definition is_tested (qn : string) : bool :=
  bool_decide (qn ∈ tested uses)
  || match by_qn !! qn with Some node => is_test_node node (n_file_path node) | None => false end.

Record CoreFinding := mkCoreFinding {
  co_qualified_name : string;
  co_file : string;
  co_line : Z;
  co_used_from_files : nat;
  co_threshold : nat;
  co_caller_hops_searched : option nat
}.

(** Source: crates/dagayn-tools/src/arch_findings.rs 403-406 [untested_core]. *)
Definition more_users (x y : nat * GraphNode) : bool :=
  match x.1 ?= y.1 with
  | Gt => true
  | Eq => String.leb (n_qualified_name x.2) (n_qualified_name y.2)
  | Lt => false
  end.

(** Source: crates/dagayn-tools/src/arch_findings.rs 397-402 [untested_core]. *)
Definition core_nodes (limit : nat) : list (nat * GraphNode) :=
  omap (λ '(qn, files),
    node ← by_qn !! qn;
    if (limit <=? size files) && negb (reached (callers uses) is_tested (caller_test_depth (n_language node)) qn)
    then Some (size files, node) else None) (map_to_list (users uses)).

(** Source: crates/dagayn-tools/src/arch_findings.rs 321-424 [untested_core]. *)
Definition untested_core : list CoreFinding :=
  if negb (existsb (λ e, bool_decide (g_kind e = "TESTED_BY")) edges) then []
  else
    let counts := (λ p : string * gset string, size p.2) <$> map_to_list (users uses) in
    if bool_decide (counts = []) then []
    else
      let limit := threshold counts in
      (λ '(count, node),
        mkCoreFinding (n_qualified_name node) (n_file_path node) (n_line_start node) count limit
          (caller_test_depth (n_language node))) <$> sort_by more_users (core_nodes limit).

End core.

(** ** Broken doc links *)

Section links.
Context `{Json} (exists_ : string → bool).

(** Source: crates/dagayn-tools/src/arch_findings.rs 500-508 [is_repo_path]. *)
Definition is_repo_path (path : string) : bool :=
  negb (bool_decide (path = "") || String.prefix "~" path || String.prefix "/" path || String.prefix "$" path
        || String.prefix "<unresolved:" path || str_contains "://" path || existsb (String.eqb "..") (split_slash path)).

(** Source: crates/dagayn-tools/src/arch_findings.rs 437-452 [broken_doc_links]. *)
Definition directive (e : GraphEdge) : option string :=
  if bool_decide (g_kind e = "DEPENDS_ON") then get_str (g_extra e) "markdown_directive_kind"
  else if bool_decide (g_kind e = "CROSS_ARTIFACT")
          && bool_decide (get_str (g_extra e) "evidence_source" = Some "dagayn_directive")
  then Some (default "dagayn" (get_str (g_extra e) "dagayn_directive_kind"))
  else None.

(** [str::split_once("::")]. *)
Fixpoint split_colons (s : string) : option (string * string) :=
  match s with
  | EmptyString => None
  | String c rest =>
      match rest with
      | String d after =>
          if bool_decide (c = colon) && bool_decide (d = colon) then Some ("", after)
          else '(before, after) ← split_colons rest; Some (String c before, after)
      | EmptyString => None
      end
  end.

Context (nodes : list GraphNode).

(** Source: crates/dagayn-tools/src/arch_findings.rs 456-478 [broken_doc_links]. *)
Definition missing (target : string) : option string :=
  let '(file, member) := match split_colons target with Some (f, m) => (f, Some m) | None => (target, None) end in
  if negb (is_repo_path file) then None
  else if negb (exists_ file) then Some "file"
  else match member with
       | Some member =>
           if bool_decide (file ∈ n_file_path <$> nodes) && negb (bool_decide (target ∈ n_qualified_name <$> nodes))
           then Some (if str_ends_with ".md" file && negb (str_contains "." member) then "section" else "symbol")
           else None
       | None => None
       end.

Record LinkFinding := mkLinkFinding {
  li_file : string;
  li_line : Z;
  li_target : string;
  li_directive : string;
  li_missing : string
}.

(** Source: crates/dagayn-tools/src/arch_findings.rs 453-491 [broken_doc_links]. *)
Definition add_link (st : gset (string * Z * string) * list LinkFinding) (e : GraphEdge)
    : gset (string * Z * string) * list LinkFinding :=
  let '(seen, found) := st in
  match directive e, missing (g_target_qualified e) with
  | Some d, Some m =>
      let key := (g_file_path e, g_line e, g_target_qualified e) in
      if bool_decide (key ∈ seen) then st
      else ({[key]} ∪ seen, found ++ [mkLinkFinding (g_file_path e) (g_line e) (g_target_qualified e) d m])
  | _, _ => st
  end.

(** Source: crates/dagayn-tools/src/arch_findings.rs 493-495 [broken_doc_links]. *)
Definition link_le (x y : LinkFinding) : bool :=
  match String.compare (li_file x) (li_file y) with
  | Lt => true
  | Eq => (li_line x <=? li_line y)%Z
  | Gt => false
  end.

(** Source: crates/dagayn-tools/src/arch_findings.rs 428-497 [broken_doc_links]. *)
Definition broken_doc_links (edges : list GraphEdge) : list LinkFinding :=
  sort_by link_le (foldl add_link (∅, []) edges).2.

End links.

(** ** The overview *)

Section overview.
Context `{Json} (exists_ : string → bool).

Inductive Finding :=
  | Import_cycle (f : CycleFinding)
  | Unstable_dependency (f : Value)
  | Untested_core (f : CoreFinding)
  | Broken_doc_link (f : LinkFinding).

(** What is listed of a kind, and how many are not.

    Source: crates/dagayn-tools/src/arch_findings.rs 47-51 [architecture_findings]. *)
Definition list_kind (st : list Finding * gmap string nat) (k : string * list Finding) : list Finding * gmap string nat :=
  let '(findings, omitted) := st in
  let '(kind, found) := k in
  if MAX_PER_KIND <? length found
  then (findings ++ take MAX_PER_KIND found, <[kind := length found - MAX_PER_KIND]> omitted)
  else (findings ++ found, omitted).

(** The unstable dependencies are stability.rs's, given.

    Source: crates/dagayn-tools/src/arch_findings.rs 30-54 [architecture_findings]. *)
Definition architecture_findings (unstable : list Value) (nodes : list GraphNode) (edges : list GraphEdge)
    : option (list Finding * gmap string nat) :=
  cycles ← import_cycles nodes edges;
  Some (foldl list_kind ([], ∅)
    [("import_cycle", Import_cycle <$> cycles);
     ("unstable_dependency", Unstable_dependency <$> unstable);
     ("untested_core", Untested_core <$> untested_core nodes edges);
     ("broken_doc_link", Broken_doc_link <$> broken_doc_links exists_ nodes edges)]).

End overview.

(** ** The walk decides reachability *)

Section walk_spec.
Context (callers : gmap string (list string)).

Definition calls (x y : string) : Prop := y ∈ default [] (callers !! x).
Definition names : gset string := list_to_set (concat (map_to_list callers).*2).

Lemma calls_name x y : calls x y → y ∈ names.
Proof.
  unfold calls, names. destruct (callers !! x) as [l|] eqn:Hl; [|by intros ?%not_elem_of_nil].
  intros Hy. apply elem_of_list_to_set, elem_of_concat. exists l. split; [done|].
  apply list_elem_of_fmap. exists (x, l). split; [done|by apply elem_of_map_to_list].
Qed.

Lemma add_callers_spec l next seen :
  (∀ y, y ∈ (foldl add_caller (next, seen) l).1 ↔ y ∈ next ∨ (y ∈ l ∧ y ∉ seen)) ∧
  (∀ y, y ∈ (foldl add_caller (next, seen) l).2 ↔ y ∈ seen ∨ y ∈ l).
Proof.
  clear. revert next seen. induction l as [|x l IH]; intros next seen; [cbn; set_solver|].
  cbn [foldl]. unfold add_caller at 2 4. case_bool_decide as Hx.
  - destruct (IH next seen) as [H1 H2]. split; intros y; rewrite ?H1, ?H2; set_solver.
  - destruct (IH (next ++ [x]) ({[x]} ∪ seen)) as [H1 H2]. split; intros y; rewrite ?H1, ?H2; [|set_solver].
    destruct (decide (y = x)) as [->|Hn]; set_solver.
Qed.

Lemma expand_spec frontier seen :
  (∀ y, y ∈ (expand callers frontier seen).1 ↔ y ∉ seen ∧ ∃ x, x ∈ frontier ∧ calls x y) ∧
  (∀ y, y ∈ (expand callers frontier seen).2 ↔ y ∈ seen ∨ ∃ x, x ∈ frontier ∧ calls x y).
Proof.
  assert (Hflat : ∀ st, foldl (λ st qn, foldl add_caller st (default [] (callers !! qn))) st frontier =
    foldl add_caller st (concat ((λ qn, default [] (callers !! qn)) <$> frontier))).
  { induction frontier as [|x frontier IH]; intros st; [done|]. cbn. by rewrite IH, foldl_app. }
  unfold expand. rewrite Hflat. destruct (add_callers_spec (concat ((λ qn, default [] (callers !! qn)) <$> frontier)) [] seen) as [H1 H2].
  assert (Hin : ∀ y, y ∈ concat ((λ qn, default [] (callers !! qn)) <$> frontier) ↔ ∃ x, x ∈ frontier ∧ calls x y).
  { intros y. rewrite elem_of_concat. setoid_rewrite list_elem_of_fmap. unfold calls. naive_solver. }
  split; intros y; rewrite ?H1, ?H2, Hin; [|done]. rewrite elem_of_nil. tauto.
Qed.

Context (hit : string → bool).

(** Within the hops allowed, a hit. *)
Definition within (limit : option nat) (start : string) : Prop :=
  ∃ n y, (∀ l, limit = Some l → n ≤ l) ∧ nsteps calls n start y ∧ hit y = true.

(** Before a round: what is met lies at the hops gone or fewer, the frontier is
    what lies at no fewer, and no hit lies nearer. *)
Record round (start : string) (hops : nat) (frontier : list string) (seen : gset string) : Prop := {
  r_seen : ∀ y, y ∈ seen ↔ ∃ k, k ≤ hops ∧ nsteps calls k start y;
  r_frontier : ∀ y, y ∈ frontier → nsteps calls hops start y;
  r_level : ∀ y, nsteps calls hops start y → y ∈ frontier ∨ ∃ k, k < hops ∧ nsteps calls k start y;
  r_miss : ∀ k y, k < hops → nsteps calls k start y → hit y = false
}.

Lemma round_start start : round start 0 [start] {[start]}.
Proof.
  split.
  - intros y. rewrite elem_of_singleton. split.
    + intros ->. exists 0. split; [done|constructor].
    + intros (k & Hk & Hs). assert (k = 0) as -> by lia. by inversion Hs.
  - intros y ->%list_elem_of_singleton. constructor.
  - intros y Hs. inversion Hs; subst. left. by apply list_elem_of_singleton.
  - intros; lia.
Qed.

Lemma round_step start hops frontier seen :
  round start hops frontier seen → existsb hit frontier = false →
  round start (S hops) (expand callers frontier seen).1 (expand callers frontier seen).2.
Proof.
  intros [Hs Hf Hl Hm] Hno. destruct (expand_spec frontier seen) as [H1 H2].
  assert (Hnext : ∀ y, nsteps calls (S hops) start y → (∃ x, x ∈ frontier ∧ calls x y) ∨ y ∈ seen).
  { intros y (z & Hz & Hzy)%nsteps_inv_r. destruct (Hl z Hz) as [Hzf|(k & Hk & Hkz)]; [left; by exists z|].
    right. apply Hs. exists (S k). split; [lia|by eapply nsteps_r]. }
  assert (Hmiss : ∀ y, nsteps calls hops start y → hit y = false).
  { intros y Hy. destruct (Hl y Hy) as [Hyf|(k & Hk & Hky)]; [|by eapply Hm].
    destruct (hit y) eqn:Hh; [|done]. rewrite <-Hno. symmetry. apply existsb_exists. exists y.
    split; [by apply list_elem_of_In|done]. }
  split.
  - intros y. rewrite H2. split.
    + intros [(k & Hk & Hy)%Hs|(x & Hx & Hxy)]; [exists k; split; [lia|done]|].
      exists (S hops). split; [done|]. eapply nsteps_r; [by apply Hf|done].
    + intros (k & Hk & Hy). destruct (decide (k = S hops)) as [->|Hn].
      * destruct (Hnext y Hy) as [?|?]; auto.
      * left. apply Hs. exists k. split; [lia|done].
  - intros y (_ & x & Hx & Hxy)%H1. eapply nsteps_r; [by apply Hf|done].
  - intros y Hy. destruct (decide (y ∈ seen)) as [Hin|Hin].
    + right. apply Hs in Hin as (k & Hk & Hky). exists k. split; [lia|done].
    + left. apply H1. split; [done|]. by destruct (Hnext y Hy).
  - intros k y Hk Hy. destruct (decide (k = hops)) as [->|Hn]; [by apply Hmiss|]. apply (Hm k); [lia|done].
Qed.

(** An empty frontier: all there is lies nearer. *)
Lemma round_end start hops seen n y :
  round start hops [] seen → nsteps calls n start y → ∃ k, k < hops ∧ nsteps calls k start y.
Proof.
  intros [_ _ Hl _]. revert y. induction n as [|n IH]; intros y Hy.
  - destruct hops as [|hops]; [|exists 0; split; [lia|done]].
    destruct (Hl y Hy) as [?%not_elem_of_nil|(k & Hk & _)]; [done|lia].
  - apply nsteps_inv_r in Hy as (z & Hz & Hzy). destruct (IH z Hz) as (k & Hk & Hkz).
    assert (Hy : nsteps calls (S k) start y) by (by eapply nsteps_r). destruct (decide (S k < hops)) as [|Hn]; [by exists (S k)|].
    assert (S k = hops) as <- by lia. destruct (Hl y Hy) as [?%not_elem_of_nil|?]; done.
Qed.

Lemma walk_spec fuel limit start hops frontier seen :
  round start hops frontier seen →
  size (names ∖ seen) + (if bool_decide (frontier = []) then 0 else 1) < fuel →
  walk callers hit fuel limit hops frontier seen = true ↔ within limit start.
Proof.
  revert hops frontier seen. induction fuel as [|fuel IH]; intros hops frontier seen Hr Hf; [lia|].
  cbn [walk]. case_bool_decide as Hnil.
  { subst frontier. split; [done|]. intros (n & y & _ & Hy & Hhit).
    destruct (round_end _ _ _ _ _ Hr Hy) as (k & Hk & Hky). rewrite (r_miss _ _ _ _ Hr k y Hk Hky) in Hhit. done. }
  destruct (match limit with Some limit => limit <? hops | None => false end) eqn:Hlim.
  { split; [done|]. intros (n & y & Hn & Hy & Hhit). destruct limit as [l|]; [|done]. bool_to_prop.
    specialize (Hn l eq_refl). rewrite (r_miss _ _ _ _ Hr n y) in Hhit; [done|lia|done]. }
  destruct (existsb hit frontier) eqn:Hhit.
  { split; [intros _|done]. apply existsb_exists in Hhit as (y & Hy%list_elem_of_In & Hhit).
    exists hops, y. split_and!; [|by apply (r_frontier _ _ _ _ Hr)|done].
    intros l ->. bool_to_prop. lia. }
  pose proof (round_step _ _ _ _ Hr Hhit) as Hr'. destruct (expand_spec frontier seen) as [H1 H2].
  destruct (expand callers frontier seen) as [next seen']. cbn [fst snd] in *. apply IH; [done|].
  assert (Hsub : names ∖ seen' ⊆ names ∖ seen) by (intros y; rewrite !elem_of_difference, H2; tauto).
  case_bool_decide as Hnext; [pose proof (subseteq_size _ _ Hsub); lia|].
  destruct next as [|y next]; [done|]. assert (Hy : y ∈ y :: next) by left.
  pose proof Hy as (Hys & x & Hx & Hxy)%H1. 
  assert (Hlt : size (names ∖ seen') < size (names ∖ seen)); [|lia].
  apply subset_size. split; [done|]. intros Hsup. assert (Hyd : y ∈ names ∖ seen').
  { apply Hsup, elem_of_difference. split; [by eapply calls_name|done]. }
  apply elem_of_difference in Hyd as [_ Hyd]. apply Hyd, H2. right. by exists x.
Qed.

Lemma reached_spec limit start : reached callers hit limit start = true ↔ within limit start.
Proof.
  apply walk_spec; [apply round_start|]. rewrite bool_decide_eq_false_2 by done.
  pose proof (subseteq_size (names ∖ {[start]}) names ltac:(set_solver)). fold names. lia.
Qed.

End walk_spec.

(** ** What is listed *)

Section listed.
Context `{Json} (nodes : list GraphNode) (edges : list GraphEdge).

(** [y] uses [x]. *)
Definition used_by (x y : string) : Prop :=
  ∃ e, e ∈ edges ∧ is_use (g_kind e) = true ∧ g_target_qualified e = x ∧ g_source_qualified e = y.

(** Another file than the symbol's uses the production symbol [x]. *)
Definition used_from (x file : string) : Prop :=
  ∃ e, e ∈ edges ∧ is_use (g_kind e) = true ∧ g_target_qualified e = x ∧ counts_user nodes e = true ∧
    g_file_path e = file.

Definition recorded_tested (x : string) : Prop :=
  ∃ e, e ∈ edges ∧ g_kind e = "TESTED_BY" ∧ g_source_qualified e = x.

(** [x] is recorded as tested, or is a test. *)
Definition test_or_tested (x : string) : Prop :=
  recorded_tested x ∨ ∃ node, by_qn nodes !! x = Some node ∧ is_test_node node (n_file_path node) = true.

Lemma exists_snoc {A} (P : A → Prop) (l : list A) a :
  (∃ x, x ∈ l ++ [a] ∧ P x) ↔ (∃ x, x ∈ l ∧ P x) ∨ P a.
Proof.
  setoid_rewrite elem_of_app. setoid_rewrite list_elem_of_singleton. split.
  - intros (x & [Hx| ->] & HP); [left; by exists x|by right].
  - intros [(x & Hx & HP)|HP]; [exists x|exists a]; auto.
Qed.

Lemma users_spec x file :
  (∃ files, users (uses nodes edges) !! x = Some files ∧ file ∈ files) ↔ used_from x file.
Proof.
  unfold uses, used_from. induction edges as [|e es IH] using rev_ind.
  { cbn. split; [by intros (files & ? & _)|by intros (e & ?%not_elem_of_nil & _)]. }
  rewrite foldl_snoc, exists_snoc, <-IH. clear IH. set (u := foldl _ _ es). unfold add_use. case_bool_decide as Ht.
  { cbn. assert (is_use (g_kind e) = false) as -> by (by rewrite Ht). split; [auto|]. by intros [?|[? _]]. }
  destruct (is_use (g_kind e)) eqn:Hu; cbn; [|split; [auto|]; by intros [?|[? _]]].
  destruct (counts_user nodes e) eqn:Hc; [|split; [auto|]; by intros [?|(_ & _ & ? & _)]].
  destruct (decide (g_target_qualified e = x)) as [<-|Hn].
  - rewrite lookup_insert_eq. destruct (users u !! g_target_qualified e) as [files|] eqn:Hf; cbn; split.
    + intros (files' & [= <-] & [->%elem_of_singleton|Hin]%elem_of_union); [by right|left; by exists files].
    + intros [(files' & [= <-] & Hin)|(_ & _ & _ & <-)]; (eexists; split; [done|set_solver]).
    + intros (files' & [= <-] & [->%elem_of_singleton|Hin]%elem_of_union); [by right|by apply elem_of_empty in Hin].
    + intros [(files' & ? & _)|(_ & _ & _ & <-)]; [done|]. eexists. split; [done|set_solver].
  - rewrite lookup_insert_ne by done. split; [auto|]. by intros [?|(_ & ? & _)].
Qed.

Lemma calls_spec x y : calls (callers (uses nodes edges)) x y ↔ used_by x y.
Proof.
  unfold calls, uses, used_by. induction edges as [|e es IH] using rev_ind.
  { cbn. rewrite elem_of_nil. split; [done|by intros (e & ?%not_elem_of_nil & _)]. }
  rewrite foldl_snoc, exists_snoc, <-IH. clear IH. set (u := foldl _ _ es). unfold add_use. case_bool_decide as Ht.
  { cbn. assert (is_use (g_kind e) = false) as -> by (by rewrite Ht). split; [auto|]. by intros [?|[? _]]. }
  destruct (is_use (g_kind e)) eqn:Hu; cbn; [|split; [auto|]; by intros [?|[? _]]].
  destruct (decide (g_target_qualified e = x)) as [<-|Hn].
  - rewrite lookup_insert_eq. cbn. rewrite elem_of_app, list_elem_of_singleton. split.
    + intros [?| ->]; [by left|by right].
    + intros [?|(_ & _ & <-)]; [by left|by right].
  - rewrite lookup_insert_ne by done. split; [auto|]. by intros [?|(_ & ? & _)].
Qed.

Lemma tested_spec x : x ∈ tested (uses nodes edges) ↔ recorded_tested x.
Proof.
  unfold uses, recorded_tested. induction edges as [|e es IH] using rev_ind.
  { cbn. rewrite elem_of_empty. split; [done|by intros (e & ?%not_elem_of_nil & _)]. }
  rewrite foldl_snoc, exists_snoc, <-IH. clear IH. set (u := foldl _ _ es). unfold add_use. case_bool_decide as Ht.
  { cbn. rewrite elem_of_union, elem_of_singleton. split; [intros [->|?]; auto|intros [?|[_ <-]]; auto]. }
  destruct (is_use (g_kind e)); cbn; (split; [auto|]; by intros [?|[? _]]).
Qed.

Lemma is_tested_spec x : is_tested nodes edges x = true ↔ test_or_tested x.
Proof.
  unfold is_tested, test_or_tested. rewrite orb_true_iff, bool_decide_eq_true, tested_spec.
  destruct (by_qn nodes !! x) as [node|]; naive_solver.
Qed.

(** A test within the hops allowed for the symbol's language. *)
Definition test_within (limit : option nat) (x : string) : Prop :=
  ∃ n y, (∀ l, limit = Some l → n ≤ l) ∧ nsteps used_by n x y ∧ test_or_tested y.

Lemma reached_test limit x :
  reached (callers (uses nodes edges)) (is_tested nodes edges) limit x = true ↔ test_within limit x.
Proof.
  rewrite reached_spec. unfold within, test_within. setoid_rewrite is_tested_spec.
  assert (Hs : ∀ n y, nsteps (calls (callers (uses nodes edges))) n x y ↔ nsteps used_by n x y).
  { intros n. revert x. induction n as [|n IH]; intros x y; split; inversion 1; subst; try constructor;
      econstructor; try (by apply calls_spec); by apply IH. }
  by setoid_rewrite Hs.
Qed.

(** The number of files that make a symbol core. *)
Definition core_limit : nat := threshold ((λ p : string * gset string, size p.2) <$> map_to_list (users (uses nodes edges))).

Lemma core_nodes_spec limit count node :
  (count, node) ∈ core_nodes nodes edges limit ↔
  ∃ qn files, users (uses nodes edges) !! qn = Some files ∧ by_qn nodes !! qn = Some node ∧ count = size files ∧
    limit ≤ size files ∧ ¬ test_within (caller_test_depth (n_language node)) qn.
Proof.
  unfold core_nodes. rewrite list_elem_of_omap. split.
  - intros ([qn files] & Hin%elem_of_map_to_list & Hf). destruct (by_qn nodes !! qn) as [n|] eqn:Hn; [|done].
    cbn [mbind option_bind] in Hf. destruct (_ && _) eqn:Hb; [|done]. injection Hf as <- <-. apply andb_true_iff in Hb as [Hl Hr].
    bool_to_prop. exists qn, files. split_and!; try done. rewrite <-reached_test. by rewrite Hr.
  - intros (qn & files & Hu & Hn & -> & Hl & Hr). exists (qn, files). split; [by apply elem_of_map_to_list|].
    rewrite Hn. cbn [mbind option_bind]. rewrite (proj2 (Nat.leb_le _ _) Hl). rewrite <-reached_test in Hr.
    by apply not_true_is_false in Hr as ->.
Qed.

(** C28: The symbols listed as core and untested are exactly those: in a
    repository with some recorded test, the production functions and classes
    that at least the threshold of other files use (five or more), which no test
    reaches over their callers within the hops their language allows (any number
    for Rust). *)
Theorem untested_core_spec f :
  f ∈ untested_core nodes edges ↔
  (∃ e, e ∈ edges ∧ g_kind e = "TESTED_BY") ∧
  ∃ qn node (files : gset string), by_qn nodes !! qn = Some node ∧ (∀ file, file ∈ files ↔ used_from qn file) ∧
    core_limit ≤ size files ∧ 5 ≤ core_limit ∧
    ¬ test_within (caller_test_depth (n_language node)) qn ∧
    f = mkCoreFinding (n_qualified_name node) (n_file_path node) (n_line_start node) (size files) core_limit
          (caller_test_depth (n_language node)).
Proof.
  assert (Hlim : 5 ≤ core_limit) by (unfold core_limit, threshold, MIN_CORE_USERS; lia).
  unfold untested_core. destruct (existsb _ edges) eqn:He; cbn [negb]; cycle 1.
  { rewrite elem_of_nil. split; [done|]. intros [(e & Hin & Hk) _]. rewrite <-not_true_iff_false in He. apply He.
    apply existsb_exists. exists e. split; [by apply list_elem_of_In|by apply bool_decide_eq_true]. }
  apply existsb_exists in He as (e & Hin%list_elem_of_In & Hk). bool_to_prop.
  assert (Hfiles : ∀ qn files, users (uses nodes edges) !! qn = Some files → ∀ file, file ∈ files ↔ used_from qn file).
  { intros qn files Hu file. rewrite <-users_spec. split; [by exists files|]. intros (files' & Hu' & Hf). congruence. }
  case_bool_decide as Hnil.
  - rewrite elem_of_nil. split; [done|]. intros [_ (qn & node & files & _ & Hf & Hl & _)]. exfalso.
    assert (Hne : files ≢ ∅) by (intros ->%leibniz_equiv; rewrite size_empty in Hl; lia).
    apply set_choose in Hne as (file & Hfile%Hf). apply users_spec in Hfile as (files' & Hu & _).
    apply elem_of_map_to_list in Hu. apply fmap_nil_inv in Hnil. rewrite Hnil in Hu. by apply not_elem_of_nil in Hu.
  - fold core_limit. rewrite list_elem_of_fmap. split.
    + intros ([count node] & -> & Hin'). apply elem_of_sort_by, core_nodes_spec in Hin' as (qn & files & Hu & Hn & -> & Hl & Hr).
      split; [by exists e|]. exists qn, node, files. auto 10.
    + intros [_ (qn & node & files & Hn & Hf & Hl & _ & Hr & ->)].
      assert (Hne : files ≢ ∅) by (intros ->%leibniz_equiv; rewrite size_empty in Hl; lia).
      apply set_choose in Hne as (file & Hfile). pose proof (proj1 (Hf file) Hfile) as Hu.
      apply users_spec in Hu as (files' & Hu & _).
      assert (files' = files) as ->. { apply leibniz_equiv. intros x. by rewrite (Hfiles qn files' Hu), Hf. }
      exists (size files, node). split; [done|]. apply elem_of_sort_by, core_nodes_spec. exists qn, files. auto 10.
Qed.

End listed.

End UntestedCore.
