(* ===== verification/Vcs.v ===== *)
(** * Changed files

    Models crates/dagayn-build/src/vcs.rs and the parsing half of jj.rs: which
    refs git is given, how the NUL-separated output of [git diff --name-status -z]
    and [git status --porcelain -z] is read, and which files count as changed in a
    git checkout, a jj workspace or an SVN working copy.  The processes are
    parameters: what they print for given arguments. *)
From S2P Require Import Prelude GraphData Impact.
From stdpp Require Import gmap.

Module Vcs.

#[local] Set Default Proof Using "Type".

(** ** Text *)

Definition nul : Ascii.ascii := Ascii.ascii_of_nat 0.
Definition newline : Ascii.ascii := Ascii.ascii_of_nat 10.
Definition space : Ascii.ascii := Ascii.ascii_of_nat 32.
Definition comma : Ascii.ascii := Ascii.ascii_of_nat 44.
Definition question : Ascii.ascii := Ascii.ascii_of_nat 63.

(** [str::split] on one character. *)
Fixpoint split_on (sep : Ascii.ascii) (s : string) : list string :=
  match s with
  | EmptyString => [""]
  | String c s =>
      if bool_decide (c = sep) then "" :: split_on sep s
      else match split_on sep s with p :: ps => String c p :: ps | [] => [] end
  end.

(** [str::strip_suffix] of one character. *)
Fixpoint strip_last (c : Ascii.ascii) (s : string) : option string :=
  match s with
  | EmptyString => None
  | String d rest =>
      match rest with
      | EmptyString => if bool_decide (d = c) then Some "" else None
      | _ => String d <$> strip_last c rest
      end
  end.

Fixpoint all_chars (p : Ascii.ascii → bool) (s : string) : bool :=
  match s with EmptyString => true | String c s => p c && all_chars p s end.

Definition is_digit (c : Ascii.ascii) : bool :=
  let n := Ascii.N_of_ascii c in (48 <=? n)%N && (n <=? 57)%N.

Definition is_alphanumeric (c : Ascii.ascii) : bool :=
  let n := Ascii.N_of_ascii c in
  is_digit c || ((65 <=? n)%N && (n <=? 90)%N) || ((97 <=? n)%N && (n <=? 122)%N).

Definition starts_with_any (cs : string) (s : string) : bool :=
  match s with EmptyString => false | String c _ => str_contains (String c "") cs end.

Fixpoint drop_chars (n : nat) (s : string) : string :=
  match n, s with
  | 0, _ | _, EmptyString => s
  | S n, String _ s => drop_chars n s
  end.

(** ** Refs *)

(** Source: crates/dagayn-build/src/vcs.rs 59-65 [is_safe_git_ref]. *)
Definition is_safe_git_ref (reference : string) : bool :=
  let reference := default reference (strip_last newline reference) in
  negb (bool_decide (reference = ""))
  && all_chars (λ c, is_alphanumeric c || str_contains (String c "") "_.~^/@{}-") reference.

(** ** Parsing *)

(** Source: crates/dagayn-build/src/vcs.rs 335-340 [nul_fields]. *)
Definition nul_fields (payload : string) : list string := filter (.≠ "") (split_on nul payload).

(** Source: crates/dagayn-build/src/vcs.rs 417-423 [dedupe]. *)
Definition dedupe (paths : list string) : list string :=
  (foldl (λ '(seen, out) path,
     if bool_decide (path ∈ seen) then (seen, out) else ({[path]} ∪ seen, out ++ [path]))
     ((∅ : gset string), []) paths).2.

(** The paths of the records from [fields] on; each record takes a field.

    Source: crates/dagayn-build/src/vcs.rs 345-359 [parse_name_status]. *)
Fixpoint name_status_paths (fuel : nat) (fields : list string) : list string :=
  match fuel, fields with
  | S fuel, status :: rest =>
      let wanted := if starts_with_any "RC" status then 2 else 1 in
      take wanted rest ++ name_status_paths fuel (drop wanted rest)
  | _, _ => []
  end.

(** Source: crates/dagayn-build/src/vcs.rs 343-361 [parse_name_status]. *)
Definition parse_name_status (payload : string) : list string :=
  let fields := nul_fields payload in dedupe (name_status_paths (length fields) fields).

(** Source: crates/dagayn-build/src/vcs.rs 364-368 [Worktree]. *)
Record Worktree := mkWorktree { w_staged : list string; w_unstaged : list string; w_untracked : list string }.

(** Source: crates/dagayn-build/src/vcs.rs 372-380 [Worktree::worktree]. *)
Definition worktree (w : Worktree) : list string := dedupe (w_staged w ++ w_unstaged w ++ w_untracked w).

(** One entry, with the old path of a rename or copy.

    Source: crates/dagayn-build/src/vcs.rs 387-413 [parse_porcelain]. *)
Fixpoint porcelain_entries (fuel : nat) (entries : list string) (w : Worktree) : Worktree :=
  match fuel, entries with
  | S fuel, entry :: rest =>
      match entry with
      | String x (String y (String _ (String c path))) =>
          let renamed := starts_with_any "RC" (String x "") || starts_with_any "RC" (String y "") in
          let '(paths, rest) :=
            match rest with
            | old :: rest' => if renamed then ([String c path; old], rest') else ([String c path], rest)
            | [] => ([String c path], rest)
            end in
          let w :=
            if bool_decide (x = question) && bool_decide (y = question)
            then mkWorktree (w_staged w) (w_unstaged w) (w_untracked w ++ paths)
            else mkWorktree
                   (if bool_decide (x = space) then w_staged w else w_staged w ++ paths)
                   (if bool_decide (y = space) then w_unstaged w else w_unstaged w ++ paths)
                   (w_untracked w) in
          porcelain_entries fuel rest w
      | _ => porcelain_entries fuel rest w
      end
  | _, _ => w
  end.

(** Source: crates/dagayn-build/src/vcs.rs 384-415 [parse_porcelain]. *)
Definition parse_porcelain (payload : string) : Worktree :=
  let entries := nul_fields payload in porcelain_entries (length entries) entries (mkWorktree [] [] []).

(** Source: crates/dagayn-build/src/vcs.rs 467-480 [parse_renames]. *)
Fixpoint rename_records (fuel : nat) (fields : list string) (renames : gmap string string) : gmap string string :=
  match fuel, fields with
  | S fuel, status :: rest =>
      if starts_with_any "RC" status then
        let renames :=
          match rest with
          | old :: new :: _ => if starts_with_any "R" status then <[new := old]> renames else renames
          | _ => renames
          end in
        rename_records fuel (drop 2 rest) renames
      else rename_records fuel (drop 1 rest) renames
  | _, _ => renames
  end.

(** Source: crates/dagayn-build/src/vcs.rs 464-482 [parse_renames]. *)
Definition parse_renames (payload : string) : gmap string string :=
  let fields := nul_fields payload in rename_records (length fields) fields ∅.

(** ** jj *)

(** Source: crates/dagayn-build/src/jj.rs 62-66 [WorkingCopy]. *)
Record WorkingCopy := mkWorkingCopy { commit : string; parent : string; bookmark : string }.

(** [str::trim_matches] of newlines. *)
Fixpoint trim_newlines (s : string) : string :=
  match s with
  | String c rest => if bool_decide (c = newline) then trim_newlines rest else s
  | EmptyString => EmptyString
  end.
Definition rev_string (s : string) : string := String.string_of_list_ascii (rev (String.list_ascii_of_string s)).
Definition trim_newline_matches (s : string) : string := rev_string (trim_newlines (rev_string (trim_newlines s))).

(** The names of a comma-separated field.

    Source: crates/dagayn-build/src/jj.rs 137-144 [parse_working_copy]. *)
Definition names (fields : list string) (index : nat) : list string :=
  filter (.≠ "") (split_on comma (default "" (fields !! index))).

(** Source: crates/dagayn-build/src/jj.rs 131-153 [parse_working_copy]. *)
Definition parse_working_copy (out : string) : option WorkingCopy :=
  let fields := split_on space (trim_newline_matches out) in
  match fields with
  | first :: second :: _ =>
      if bool_decide (first = "") then None
      else
        parent ← head (filter (.≠ "") (split_on comma second));
        let bookmark :=
          match names fields 2 with
          | own :: _ => own
          | [] => default "" (head (names fields 3))
          end in
        Some (mkWorkingCopy first parent bookmark)
  | _ => None
  end.

(** Source: crates/dagayn-build/src/jj.rs 178-187 [head_relative_suffix]. *)
Definition head_relative_suffix (reference : string) : option string :=
  let reference := default reference (strip_last newline reference) in
  if String.prefix "HEAD" reference then
    let suffix := drop_chars 4 reference in
    if bool_decide (suffix = "")
       || (starts_with_any "~^" suffix && all_chars (λ c, str_contains (String c "") "~^" || is_digit c) suffix)
    then Some suffix else None
  else None.

(** ** Changed files *)

(** Source: crates/dagayn-build/src/vcs.rs 9-15 [Vcs]. *)
Inductive Vcs := Git | Jj | Svn | NoVcs.

#[global] Instance Vcs_eq_dec : EqDecision Vcs.
Proof. solve_decision. Defined.

(** Source: crates/dagayn-build/src/vcs.rs 118-125 [ChangeSources]. *)
Record ChangeSources := mkSources {
  files : list string;
  base_diff : list string;
  worktree_files : list string;
  staged : list string;
  unstaged : list string;
  untracked : list string
}.

Definition no_sources : ChangeSources := mkSources [] [] [] [] [] [].

(** Source: crates/dagayn-build/src/vcs.rs 132-135 [ChangeError]. *)
Record ChangeError := mkError { message : string; runtime_error : bool }.

(** What running a program comes to. *)
Inductive Output := NotFound | OsError (m : string) | Ran (success : bool) (stdout stderr : string).

Section changes.
(** The markers in the repository root; what git prints in it, what [jj log]
    prints, what git prints on the workspace's git directory, what
    [svn::changed_files] gives. *)
Context (has_git has_svn jj_workspace : bool).
Context (git jj_git : list string → Output) (jj_log : Output).
Context (svn_files : option string → list string + ChangeError) (is_safe_svn_rev : string → bool).
(** [String::from_utf8_lossy] and [pyerr::utf8_error]; the message of a jj
    failure. *)
Context (lossy : string → string) (utf8_error : string → option string) (jj_error : Output → string).

(** Source: crates/dagayn-build/src/vcs.rs 19-29 [detect_vcs]. *)
Definition detect_vcs : Vcs :=
  if has_git then Git else if jj_workspace then Jj else if has_svn then Svn else NoVcs.

(** Source: crates/dagayn-build/src/vcs.rs 323-333 [git_raw]. *)
Definition git_raw (args : list string) : option string :=
  match git args with Ran true stdout _ => Some (lossy stdout) | _ => None end.

(** Source: crates/dagayn-build/src/vcs.rs 44-55 [git_stdout]. *)
Definition git_stdout (args : list string) : string :=
  match git args with Ran true stdout _ => Impact.trim (lossy stdout) | _ => "" end.

(** Source: crates/dagayn-build/src/vcs.rs 241-258 [git_text]. *)
Definition git_text (args : list string) : option (bool * string) + ChangeError :=
  match git args with
  | NotFound => inl None
  | OsError m => inr (mkError m true)
  | Ran success stdout stderr =>
      match utf8_error stdout with
      | Some m => inr (mkError m true)
      | None =>
          match utf8_error stderr with
          | Some m => inr (mkError m true)
          | None => inl (Some (success, stdout))
          end
      end
  end.

Definition diff_args (base head : string) : list string := ["diff"; "--name-status"; "-M"; "-z"; base; head; "--"].
Definition status_args : list string := ["status"; "--porcelain"; "-z"; "--untracked-files=all"].

(** Source: crates/dagayn-build/src/vcs.rs 68-82 [resolve_commit_sha]. *)
Definition resolve_commit_sha (reference : string) : option string :=
  if negb (is_safe_git_ref reference) then None
  else
    let sha := git_stdout ["rev-parse"; "--verify"; "--quiet"; reference +:+ "^{commit}"] in
    if bool_decide (sha = "") then None else Some sha.

(** Source: crates/dagayn-build/src/vcs.rs 106-113 [worktree_changes]. *)
Definition worktree_changes : list string :=
  default [] ((λ payload, worktree (parse_porcelain payload)) <$> git_raw status_args).

(** Source: crates/dagayn-build/src/vcs.rs 90-102 [changed_files]. *)
Definition changed_files (base : string) : list string :=
  if negb (is_safe_git_ref base) then []
  else dedupe (default [] (parse_name_status <$> git_raw (diff_args base "HEAD")) ++ worktree_changes).

(** Source: crates/dagayn-build/src/jj.rs 169-175 [run_git]. *)
Definition run_jj_git (args : list string) : option string :=
  match jj_git args with Ran true stdout _ => Some (lossy stdout) | _ => None end.

(** Source: crates/dagayn-build/src/jj.rs 76-102 [require_working_copy]. *)
Definition require_working_copy : WorkingCopy + string :=
  match jj_log with
  | Ran true stdout _ =>
      let out := lossy stdout in
      if bool_decide (out = "") then inr (jj_error jj_log)
      else match parse_working_copy out with Some wc => inl wc | None => inr (jj_error jj_log) end
  | _ => inr (jj_error jj_log)
  end.

(** Source: crates/dagayn-build/src/jj.rs 70-72 [working_copy]. *)
Definition working_copy : option WorkingCopy :=
  match require_working_copy with inl wc => Some wc | inr _ => None end.

(** Source: crates/dagayn-build/src/jj.rs 191-219 [resolve_commit]. *)
Definition resolve_commit (reference : string) (wc : option WorkingCopy) : option string :=
  reference ← match head_relative_suffix reference with
              | Some suffix =>
                  wc ← match wc with Some wc => Some wc | None => working_copy end;
                  Some (parent wc +:+ suffix)
              | None => Some reference
              end;
  out ← run_jj_git ["rev-parse"; "--verify"; "--quiet"; reference +:+ "^{commit}"];
  let sha := Impact.trim out in
  if bool_decide (sha = "") then None else Some sha.

(** Source: crates/dagayn-build/src/vcs.rs 261-269 [jj_diff_files]. *)
Definition jj_diff_files (old new : string) : list string :=
  default [] (parse_name_status <$> (out ← run_jj_git (diff_args old new); if bool_decide (out = "") then None else Some out)).

(** Source: crates/dagayn-build/src/vcs.rs 274-291 [jj_change_sources]. *)
Definition jj_change_sources (base : string) : ChangeSources + ChangeError :=
  match require_working_copy with
  | inr m => inr (mkError m false)
  | inl wc =>
      let base_diff := match resolve_commit base (Some wc) with
                       | Some resolved => jj_diff_files resolved (parent wc)
                       | None => []
                       end in
      let worktree := jj_diff_files (parent wc) (commit wc) in
      inl (mkSources (dedupe (base_diff ++ worktree)) base_diff worktree [] worktree [])
  end.

(** Source: crates/dagayn-build/src/vcs.rs 311-321 [worktree_sources]. *)
Definition worktree_sources : Worktree + ChangeError :=
  match git_text status_args with
  | inr e => inr e
  | inl (Some (_, payload)) => inl (parse_porcelain payload)
  | inl None => inl (mkWorktree [] [] [])
  end.

(** Source: crates/dagayn-build/src/vcs.rs 33-42 [git_branch_info]. *)
Definition git_branch_info : string * string :=
  if jj_workspace then
    match working_copy with Some wc => (bookmark wc, parent wc) | None => ("", "") end
  else (git_stdout ["rev-parse"; "--abbrev-ref"; "HEAD"], git_stdout ["rev-parse"; "HEAD"]).

(** Source: crates/dagayn-build/src/vcs.rs 151-184 [change_file_sources]. *)
Definition change_file_sources (base : string) : ChangeSources + ChangeError :=
  match detect_vcs with
  | Svn =>
      match svn_files (if is_safe_svn_rev base then Some base else None) with
      | inl files => inl (mkSources files [] files [] files [])
      | inr e => inr e
      end
  | vcs =>
      if negb (is_safe_git_ref base) then inl no_sources
      else if bool_decide (vcs = Jj) then jj_change_sources base
      else
        match git_text (diff_args base "HEAD") with
        | inr e => inr e
        | inl diff =>
            let base_diff := match diff with Some (true, payload) => parse_name_status payload | _ => [] end in
            match worktree_sources with
            | inr e => inr e
            | inl w =>
                inl (mkSources (dedupe (base_diff ++ worktree w)) base_diff (worktree w)
                       (dedupe (w_staged w)) (dedupe (w_unstaged w)) (dedupe (w_untracked w)))
            end
        end
  end.

(** Source: crates/dagayn-build/src/vcs.rs 189-195 [staged_and_unstaged]. *)
Definition staged_and_unstaged : list string + ChangeError :=
  match detect_vcs with
  | Svn => svn_files None
  | Jj => match jj_change_sources "HEAD" with inl s => inl (worktree_files s) | inr e => inr e end
  | Git | NoVcs => match worktree_sources with inl w => inl (worktree w) | inr e => inr e end
  end.

(** Source: crates/dagayn-build/src/vcs.rs 201-209 [default_review_base]. *)
Definition default_review_base : string :=
  if negb (bool_decide (detect_vcs = Git)) then "HEAD~1"
  else match worktree_sources with
       | inl w => if negb (bool_decide (w_staged w = [])) || negb (bool_decide (w_unstaged w = [])) then "HEAD" else "HEAD~1"
       | inr _ => "HEAD~1"
       end.

(** Source: crates/dagayn-build/src/vcs.rs 296-307 [dirty_files]. *)
Definition dirty_files : list string :=
  if jj_workspace then
    match working_copy with Some wc => jj_diff_files (parent wc) (commit wc) | None => [] end
  else match worktree_sources with inl w => worktree w | inr _ => [] end.

(** Source: crates/dagayn-build/src/vcs.rs 432-461 [renames_since]. *)
Definition renames_since (base : string) : gmap string string :=
  if negb (is_safe_git_ref base) || String.prefix "-" base then ∅
  else
    let payload :=
      match detect_vcs with
      | Svn => None
      | Jj =>
          wc ← working_copy;
          resolved ← resolve_commit base (Some wc);
          run_jj_git (diff_args resolved (commit wc))
      | Git | NoVcs => git_raw ["diff"; "--name-status"; "-M"; "-z"; base; "--"]
      end in
    default ∅ (parse_renames <$> payload).

End changes.

(** ** Reference: first occurrences *)

Fixpoint first_seen (l : list string) : list string :=
  match l with
  | [] => []
  | x :: l => x :: filter (.≠ x) (first_seen l)
  end.

Lemma elem_of_first_seen x l : x ∈ first_seen l ↔ x ∈ l.
Proof.
  induction l as [|y l IH]; [done|]. cbn [first_seen]. rewrite !elem_of_cons, list_elem_of_filter, IH.
  destruct (decide (x = y)); tauto.
Qed.

Lemma NoDup_first_seen l : NoDup (first_seen l).
Proof.
  induction l as [|y l IH]; [constructor|]. cbn [first_seen]. apply NoDup_cons. split; [|by apply NoDup_filter].
  by intros [? _]%list_elem_of_filter.
Qed.

Lemma dedupe_from (seen : gset string) out l :
  (foldl (λ '(seen, out) path,
     if bool_decide (path ∈ seen) then (seen, out) else ({[path]} ∪ seen, out ++ [path])) (seen, out) l).2 =
  out ++ filter (.∉ seen) (first_seen l).
Proof.
  revert seen out. induction l as [|x l IH]; intros seen out; [cbn; by rewrite app_nil_r|].
  cbn [foldl first_seen]. rewrite filter_cons. case_bool_decide as Hx; rewrite IH.
  - rewrite decide_False by (intros ?; done). f_equal. rewrite list_filter_filter.
    apply list_filter_ext_in. intros y _. split; [|tauto]. intros Hy. split; [done|]. by intros ->.
  - rewrite decide_True by done. rewrite <-app_assoc. cbn. do 2 f_equal. rewrite list_filter_filter.
    apply list_filter_ext_in. intros y _. rewrite not_elem_of_union, not_elem_of_singleton. tauto.
Qed.

Lemma dedupe_first_seen l : dedupe l = first_seen l.
Proof.
  unfold dedupe. rewrite dedupe_from. cbn [app]. rewrite (list_filter_ext_in _ (λ _, True)).
  - induction (first_seen l) as [|x k IH]; [done|]. by rewrite filter_cons, decide_True, IH.
  - intros x _. split; [done|]. intros _. apply not_elem_of_empty.
Qed.

Lemma first_seen_app l k : first_seen (l ++ k) = first_seen l ++ filter (.∉ l) (first_seen k).
Proof.
  induction l as [|x l IH]; cbn [app first_seen].
  - induction (first_seen k) as [|x k' IH']; [done|]. rewrite filter_cons, decide_True, <-IH'; [done|apply not_elem_of_nil].
  - rewrite IH, filter_app. f_equal. f_equal. rewrite list_filter_filter. apply list_filter_ext_in.
    intros y _. rewrite not_elem_of_cons. tauto.
Qed.

(** ** Reference: the output read back *)

Definition field_ok (s : string) : Prop := s ≠ "" ∧ all_chars (λ c, negb (bool_decide (c = nul))) s = true.

(** Fields, each ended by a NUL. *)
Fixpoint ended (fields : list string) : string :=
  match fields with [] => "" | f :: fields => f +:+ String nul (ended fields) end.

Lemma split_on_app f rest :
  all_chars (λ c, negb (bool_decide (c = nul))) f = true →
  split_on nul (f +:+ String nul rest) = f :: split_on nul rest.
Proof.
  induction f as [|c f IH]; intros Hf; [done|]. cbn in Hf. apply andb_true_iff in Hf as [Hc Hf].
  change (String c f +:+ String nul rest) with (String c (f +:+ String nul rest)). cbn [split_on].
  bool_to_prop. rewrite bool_decide_eq_false_2 by done. by rewrite IH.
Qed.

Lemma nul_fields_ended fields : Forall field_ok fields → nul_fields (ended fields) = fields.
Proof.
  unfold nul_fields. induction 1 as [|f fields [Hne Hf] _ IH]; [done|].
  cbn [ended]. rewrite split_on_app by done. rewrite filter_cons, decide_True by done. by rewrite IH.
Qed.

(** A record of [git diff --name-status]. *)
Inductive Change := Edited (status path : string) | Moved (status old new : string).

Definition change_fields (c : Change) : list string :=
  match c with Edited status path => [status; path] | Moved status old new => [status; old; new] end.
Definition change_paths (c : Change) : list string :=
  match c with Edited _ path => [path] | Moved _ old new => [old; new] end.
Definition change_ok (c : Change) : Prop :=
  Forall field_ok (change_fields c) ∧
  match c with
  | Edited status _ => starts_with_any "RC" status = false
  | Moved status _ _ => starts_with_any "RC" status = true
  end.

(** The renames of some records; a copy is none. *)
Definition renames_of (cs : list Change) : gmap string string :=
  foldl (λ m c, match c with
                | Moved status old new => if starts_with_any "R" status then <[new := old]> m else m
                | Edited _ _ => m
                end) ∅ cs.

Definition diff_output (cs : list Change) : string := ended (concat (change_fields <$> cs)).

Lemma diff_output_fields cs : Forall change_ok cs → nul_fields (diff_output cs) = concat (change_fields <$> cs).
Proof.
  intros Hcs. apply nul_fields_ended. induction Hcs as [|c cs [Hc _] _ IH]; [constructor|].
  cbn. by apply Forall_app.
Qed.

Lemma length_change_fields c cs :
  length (concat (change_fields <$> c :: cs)) = length (change_paths c) + 1 + length (concat (change_fields <$> cs)).
Proof. cbn. rewrite length_app. destruct c; cbn; lia. Qed.

Lemma name_status_paths_spec fuel cs :
  Forall change_ok cs → length (concat (change_fields <$> cs)) ≤ fuel →
  name_status_paths fuel (concat (change_fields <$> cs)) = concat (change_paths <$> cs).
Proof.
  intros Hcs. revert fuel. induction Hcs as [|c cs [_ Hc] _ IH]; intros fuel Hf; [by destruct fuel|].
  rewrite length_change_fields in Hf. destruct fuel as [|fuel]; [lia|].
  destruct c as [status path|status old new]; cbn [fmap list_fmap concat change_fields app name_status_paths]; rewrite Hc;
    cbn [change_paths length] in *; cbn; rewrite IH by lia; done.
Qed.

Lemma rename_records_spec fuel cs m :
  Forall change_ok cs → length (concat (change_fields <$> cs)) ≤ fuel →
  rename_records fuel (concat (change_fields <$> cs)) m =
  foldl (λ m c, match c with
                | Moved status old new => if starts_with_any "R" status then <[new := old]> m else m
                | Edited _ _ => m
                end) m cs.
Proof.
  intros Hcs. revert fuel m. induction Hcs as [|c cs [_ Hc] _ IH]; intros fuel m Hf; [by destruct fuel|].
  rewrite length_change_fields in Hf. destruct fuel as [|fuel]; [lia|].
  destruct c as [status path|status old new]; cbn [fmap list_fmap concat change_fields app rename_records]; rewrite Hc;
    cbn [change_paths length drop foldl] in *; apply IH; lia.
Qed.

(** An entry of [git status --porcelain]; a rename or copy has its old path. *)
Record Entry := mkEntry { index_status : Ascii.ascii; tree_status : Ascii.ascii; new_path : string; old_path : option string }.

Definition entry_fields (e : Entry) : list string :=
  String (index_status e) (String (tree_status e) (String space (new_path e))) ::
  match old_path e with Some old => [old] | None => [] end.
Definition entry_paths (e : Entry) : list string :=
  new_path e :: match old_path e with Some old => [old] | None => [] end.
Definition is_moved (e : Entry) : bool :=
  starts_with_any "RC" (String (index_status e) "") || starts_with_any "RC" (String (tree_status e) "").
Definition entry_ok (e : Entry) : Prop :=
  Forall field_ok (entry_fields e) ∧ new_path e ≠ "" ∧
  match old_path e with Some _ => is_moved e = true | None => is_moved e = false end.

Definition is_untracked (e : Entry) : bool :=
  bool_decide (index_status e = question) && bool_decide (tree_status e = question).
Definition paths_where (p : Entry → bool) (es : list Entry) : list string :=
  concat (entry_paths <$> filter (λ e, p e = true) es).

Definition status_output (es : list Entry) : string := ended (concat (entry_fields <$> es)).

Definition staged_entry (e : Entry) : bool := negb (is_untracked e) && negb (bool_decide (index_status e = space)).
Definition unstaged_entry (e : Entry) : bool := negb (is_untracked e) && negb (bool_decide (tree_status e = space)).

Lemma paths_where_cons p e es : paths_where p (e :: es) = (if p e then entry_paths e else []) ++ paths_where p es.
Proof. unfold paths_where. rewrite filter_cons. by destruct (p e). Qed.

Lemma porcelain_entries_spec fuel es w :
  Forall entry_ok es → length (concat (entry_fields <$> es)) ≤ fuel →
  porcelain_entries fuel (concat (entry_fields <$> es)) w =
  mkWorktree (w_staged w ++ paths_where staged_entry es) (w_unstaged w ++ paths_where unstaged_entry es)
    (w_untracked w ++ paths_where is_untracked es).
Proof.
  intros Hes. revert fuel w. induction Hes as [|e es (_ & Hne & Hm) _ IH]; intros fuel w Hf.
  { destruct w. unfold paths_where. rewrite !filter_nil. cbn. rewrite !app_nil_r. by destruct fuel. }
  rewrite fmap_cons in *. cbn [concat] in *. rewrite length_app in Hf.
  destruct fuel as [|fuel]; [cbn in Hf; lia|]. rewrite !paths_where_cons.
  destruct e as [x y path old]. cbn [new_path old_path] in *. destruct path as [|c path]; [done|].
  unfold is_moved in Hm. cbn [index_status tree_status] in Hm.
  assert (Hfuel : length (concat (entry_fields <$> es)) ≤ fuel) by (cbn in Hf; lia).
  unfold staged_entry, unstaged_entry, is_untracked, entry_paths.
  cbn [index_status tree_status new_path old_path entry_fields app porcelain_entries].
  destruct old as [old|].
  - cbn [app]. rewrite Hm, IH by done. cbn [w_staged w_unstaged w_untracked].
    destruct (bool_decide (x = question) && bool_decide (y = question)); cbn [negb andb w_staged w_unstaged w_untracked app];
      [by rewrite <-app_assoc|].
    destruct (bool_decide (x = space)), (bool_decide (y = space)); cbn; by rewrite <-?app_assoc.
  - cbn [app]. rewrite Hm.
    assert (Hrest : ∀ rest : list string, match rest with
        | old :: rest' => if false then ([String c path; old], rest') else ([String c path], rest)
        | [] => ([String c path], rest) end = ([String c path], rest)) by (by intros []).
    rewrite Hrest, IH by done.
    destruct (bool_decide (x = question) && bool_decide (y = question)); cbn [negb andb w_staged w_unstaged w_untracked app];
      [by rewrite <-app_assoc|].
    destruct (bool_decide (x = space)), (bool_decide (y = space)); cbn; by rewrite <-?app_assoc.
Qed.

Lemma status_output_fields es : Forall entry_ok es → nul_fields (status_output es) = concat (entry_fields <$> es).
Proof.
  intros Hes. apply nul_fields_ended. induction Hes as [|e es [He _] _ IH]; [constructor|].
  cbn. apply Forall_cons. apply Forall_cons in He as [H1 H2]. split; [done|]. by apply Forall_app.
Qed.

(** ** Properties *)

(** C29: What git writes is what is read: from the NUL-separated records of a
    diff, every path is listed once, in the order the records name them, both
    sides of a rename or copy; the renames are those of the [R] records, the last
    for a new path counting; and from the entries of a status, the paths of the
    index, of the tree and the untracked ones, each in the order of the entries. *)
Theorem git_output_read cs es :
  Forall change_ok cs → Forall entry_ok es →
  parse_name_status (diff_output cs) = first_seen (concat (change_paths <$> cs)) ∧
  parse_renames (diff_output cs) = renames_of cs ∧
  parse_porcelain (status_output es) =
    mkWorktree (paths_where staged_entry es) (paths_where unstaged_entry es) (paths_where is_untracked es).
Proof.
  intros Hcs Hes. unfold parse_name_status, parse_renames, parse_porcelain.
  rewrite (diff_output_fields cs Hcs), (status_output_fields es Hes), dedupe_first_seen.
  rewrite name_status_paths_spec, rename_records_spec, porcelain_entries_spec by done. done.
Qed.

(** Field by field, decided. *)
#[local] Instance field_ok_dec s : Decision (field_ok s).
Proof. unfold field_ok. apply _. Defined.

#[local] Instance change_ok_dec c : Decision (change_ok c).
Proof. unfold change_ok. destruct c; apply _. Defined.

#[local] Instance entry_ok_dec e : Decision (entry_ok e).
Proof. unfold entry_ok. destruct (old_path e); apply _. Defined.

Definition demo_changes : list Change :=
  [Edited "M" "a.py"; Moved "R100" "old.py" "new.py"; Edited "D" "gone.py"; Moved "C090" "a.py" "copy.py"; Edited "M" "a.py"].
Definition demo_status : list Entry :=
  [mkEntry question question "new.txt" None; mkEntry space (Ascii.ascii_of_nat 77) "edited.py" None;
   mkEntry (Ascii.ascii_of_nat 82) space "moved.py" (Some "orig.py")].

Lemma git_output_read_witness :
  (Forall change_ok demo_changes ∧ Forall entry_ok demo_status) ∧
  parse_name_status (diff_output demo_changes) = ["a.py"; "old.py"; "new.py"; "gone.py"; "copy.py"] ∧
  parse_renames (diff_output demo_changes) = {[ "new.py" := "old.py" ]}.
Proof.
  assert (H : Forall change_ok demo_changes ∧ Forall entry_ok demo_status).
  { apply (bool_decide_unpack _). vm_compute. exact I. }
  split; [exact H|]. destruct (git_output_read demo_changes demo_status (proj1 H) (proj2 H)) as (H1 & H2 & _).
  split; [rewrite H1; vm_compute; reflexivity|rewrite H2; vm_compute; reflexivity].
Defined.

Section sources.
Context (has_git has_svn jj_workspace : bool) (git jj_git : list string → Output) (jj_log : Output).
Context (svn_files : option string → list string + ChangeError) (is_safe_svn_rev : string → bool).
Context (lossy : string → string) (utf8_error : string → option string) (jj_error : Output → string).

#[local] Notation sources := (change_file_sources has_git has_svn jj_workspace git jj_git jj_log svn_files is_safe_svn_rev
  lossy utf8_error jj_error).

(** C30: The changes of a git checkout, where git's two commands succeed and print
    UTF-8 when they are run: for an unsafe base nothing is changed, whatever they
    would print; otherwise the changed files are each listed once, the base diff's first, and are
    exactly the paths of the base diff, the index, the tree and the untracked
    ones; the incremental update ([changed_files]) sees the same list; and a
    review diffs against [HEAD] exactly when the index or the tree has a change. *)
Theorem change_file_sources_git base diff status err1 err2 :
  detect_vcs has_git has_svn jj_workspace = Git →
  git (diff_args base "HEAD") = Ran true diff err1 → git status_args = Ran true status err2 →
  Forall (λ text, utf8_error text = None) [diff; err1; status; err2] → lossy diff = diff → lossy status = status →
  if is_safe_git_ref base then
    ∃ s, sources base = inl s ∧
      files s = changed_files git lossy base ∧ NoDup (files s) ∧
      (∃ rest, files s = base_diff s ++ rest) ∧ base_diff s = parse_name_status diff ∧
      (∀ p, p ∈ files s ↔ p ∈ base_diff s ∨ p ∈ staged s ∨ p ∈ unstaged s ∨ p ∈ untracked s) ∧
      (default_review_base has_git has_svn jj_workspace git utf8_error = "HEAD" ↔ staged s ≠ [] ∨ unstaged s ≠ [])
  else sources base = inl no_sources ∧ changed_files git lossy base = [].
Proof.
  intros Hvcs Hdiff Hstatus Hutf Hl1 Hl2. unfold change_file_sources, changed_files, default_review_base.
  rewrite Hvcs. destruct (is_safe_git_ref base); cbn [negb]; [|done].
  rewrite !Forall_cons in Hutf. destruct Hutf as (H1 & H2 & H3 & H4 & _).
  unfold worktree_sources, worktree_changes, git_text, git_raw. rewrite Hdiff, Hstatus, H1, H2, H3, H4. cbn.
  rewrite Hl1, Hl2. set (w := parse_porcelain status). eexists. split; [reflexivity|]. cbn.
  assert (Hfs : ∀ l, first_seen l = [] ↔ l = []) by (by intros []). rewrite !dedupe_first_seen.
  split; [done|]. split; [apply NoDup_first_seen|]. split; [|split; [done|split]].
  - rewrite first_seen_app. unfold parse_name_status. rewrite dedupe_first_seen.
    assert (Hid : ∀ l, NoDup l → first_seen l = l).
    { induction 1 as [|x l Hx _ IH]; [done|]. cbn. rewrite IH. f_equal. clear IH.
      induction l as [|y l IH]; [done|]. apply not_elem_of_cons in Hx as [Hxy Hx].
      rewrite filter_cons, decide_True by done. by rewrite IH. }
    rewrite (Hid _ (NoDup_first_seen _)). by eexists.
  - intros p. rewrite !elem_of_first_seen, elem_of_app. unfold worktree. rewrite dedupe_first_seen, elem_of_first_seen, !elem_of_app.
    tauto.
  - rewrite !Hfs. destruct (w_staged w), (w_unstaged w); cbn; split; intros Hb;
      first [done|by left|by right|by destruct Hb].
Qed.

End sources.

Definition demo_git (args : list string) : Output :=
  if bool_decide (args = status_args) then Ran true (status_output demo_status) ""
  else Ran true (diff_output demo_changes) "".

Lemma change_file_sources_git_witness :
  ∃ s, change_file_sources true false false demo_git demo_git NotFound (λ _, inl []) (λ _, true) (λ t, t) (λ _, None)
         (λ _, "") "HEAD~1" = inl s ∧ NoDup (files s) ∧
    files s = ["a.py"; "old.py"; "new.py"; "gone.py"; "copy.py"; "moved.py"; "orig.py"; "edited.py"; "new.txt"].
Proof.
  destruct (change_file_sources_git true false false demo_git demo_git NotFound (λ _, inl []) (λ _, true) (λ t, t) (λ _, None)
    (λ _, "") "HEAD~1" (diff_output demo_changes) (status_output demo_status) "" "" eq_refl eq_refl eq_refl
    ltac:(repeat constructor) eq_refl eq_refl) as (s & Hs & _ & Hnd & _).
  exists s. split; [exact Hs|]. split; [exact Hnd|]. vm_compute in Hs. injection Hs as <-. reflexivity.
Defined.

End Vcs.
