(* ===== verification/Update.v ===== *)
(** * Building and updating the graph

    Models crates/dagayn-build/src/update.rs, build.rs and parse_batch.rs, and
    the candidate filter of crates/dagayn-parser/src/discovery.rs: which files a
    full build and an incremental update parse, store and remove.  The graph is
    met through the interface [FileGraph], whose laws say what its operations do
    to the data held for each file; the file system, the parser and git are
    parameters.  Post-processing and embeddings are not modelled. *)
From S2P Require Import Prelude GraphData Vcs.
Import GraphData.

Module Update.

#[local] Set Default Proof Using "Type".

(** ** The graph, file by file *)

Section interface.
Context `{Json}.

Definition Item : Type := FileBatchItem NodeInput EdgeInput.

(** The operations of a graph that a build and an update use, and what it holds:
    the hash, modification time and data of each file. *)
Class FileGraph (G : Type) := {
  Data : Type;
  item_data : Item → Data;
  held : G → gmap string (string * Z * Data);
  valid : G → Prop;
  get_metadata : string → G → option string;
  set_metadata : string → string → G → G;
  get_all_files : G → list string;
  get_file_meta_for_files : list string → G → gmap string (string * Z);
  get_direct_dependents : list string → G → list string;
  languages : G → list string;
  update_file_mtimes : list (string * Z) → G → G;
  remove_files_data : list string → G → G;
  begin_bulk_load : G → G;
  finish_bulk_load : G → G;
  store_file_batch : list Item → G → G * Result unit
}.

(** The hash and modification time held of a file that was parsed.  Files that
    others only name, such as manifests, are held without a hash. *)
Definition meta_of {G} {FG : FileGraph G} (s : G) : gmap string (string * Z) := filter (λ x, x.2.1 ≠ "") (fst <$> held s).

Definition put_mtime {D} (files : gmap string (string * Z * D)) (u : string * Z) : gmap string (string * Z * D) :=
  match files !! fst u with Some (h, _, d) => <[fst u := (h, snd u, d)]> files | None => files end.

Definition put_item {G} {FG : FileGraph G} (files : gmap string (string * Z * Data)) (i : Item) : gmap string (string * Z * Data) :=
  <[item_path _ _ i := (item_hash _ _ i, item_mtime _ _ i, item_data i)]> files.

(** What a graph promises of them.  [item_ok] says which items can be stored. *)
Class FileGraphLaws (G : Type) {FG : FileGraph G} (item_ok : Item → Prop) : Prop := {
  item_data_content : ∀ i j : Item, item_path _ _ i = item_path _ _ j → item_nodes _ _ i = item_nodes _ _ j →
    item_edges _ _ i = item_edges _ _ j → item_data i = item_data j;
  all_files_held : ∀ s p, valid s → p ∈ get_all_files s ↔ p ∈ dom (held s);
  file_meta_held : ∀ l s p, valid s → get_file_meta_for_files l s !! p = if decide (p ∈ l) then meta_of s !! p else None;
  set_metadata_held : ∀ k v s, valid s → valid (set_metadata k v s) ∧ held (set_metadata k v s) = held s;
  update_mtimes_held : ∀ us s, valid s →
    valid (update_file_mtimes us s) ∧ held (update_file_mtimes us s) = foldl put_mtime (held s) us;
  remove_held : ∀ l s, valid s →
    valid (remove_files_data l s) ∧ held (remove_files_data l s) = filter (λ p, fst p ∉ l) (held s);
  begin_held : ∀ s, valid s → valid (begin_bulk_load s) ∧ held (begin_bulk_load s) = held s;
  finish_held : ∀ s, valid s → valid (finish_bulk_load s) ∧ held (finish_bulk_load s) = held s;
  store_batch_held : ∀ batch s, valid s → NoDup (item_path _ _ <$> batch) → Forall item_ok batch →
    ∃ s', store_file_batch batch s = (s', inl tt) ∧ valid s' ∧ held s' = foldl put_item (held s) batch
}.

End interface.

(** ** A state and error monad *)

Definition M (S A : Type) : Type := S → S * Result A.

#[global] Instance M_ret S : MRet (M S) := λ A a s, (s, inl a).
#[global] Instance M_bind S : MBind (M S) := λ A B f m s,
  match m s with (s, inl a) => f a s | (s, inr e) => (s, inr e) end.

Definition gets {S A} (f : S → A) : M S A := λ s, (s, inl (f s)).
Definition modify {S} (f : S → S) : M S unit := λ s, (f s, inl tt).
Definition when {S} (b : bool) (m : M S unit) : M S unit := if b then m else mret tt.

(** A step run for its effect over a list, with an accumulator. *)
Fixpoint foldM {S A B} (f : A → B → M S A) (a : A) (l : list B) : M S A :=
  match l with
  | [] => mret a
  | b :: l => a ← f a b; foldM f a l
  end.

(** Source: crates/dagayn-build/src/update.rs 549-555 [ContentState]. *)
Inductive ContentState := Unchanged | MtimeOnly (mtime : Z) | Changed.

#[global] Instance ContentState_eq_dec : EqDecision ContentState.
Proof. solve_decision. Defined.

(** What becomes of a candidate. *)
Inductive Fate := Forced | Checked | Unowned | Mtime (m : Z) | Skip.

#[global] Instance Fate_eq_dec : EqDecision Fate.
Proof. solve_decision. Defined.

(** ** Parsing batches *)

Section batches.
Context `{Json}.
(** A file's modification time and bytes, or the error reading it gives. *)
Context (file_mtime_ns : string → Z + string) (read : string → string + string) (sha256_hex : string → string).
(** The parser: with the repository root or without; which paths and sources it
    owns; whether a path has an extension. *)
Context (parse_file_in_repo : bool → string → string → list NodeInput * list EdgeInput).
Context (rust_parser_owns_path : string → bool) (rust_parser_owns_source : string → string → bool).
Context (has_extension : string → bool).

(** Source: crates/dagayn-build/src/build.rs 138-148 [owns_path]. *)
Definition owns_path (rel_path : string) : bool :=
  if rust_parser_owns_path rel_path then true
  else if has_extension rel_path then false
  else match read rel_path with inl source => rust_parser_owns_source rel_path source | inr _ => false end.

(** A source with its hash and modification time.

    Source: crates/dagayn-build/src/parse_batch.rs 8-12 [CachedRustChangedFile]. *)
Definition Cached : Type := string * string * Z.

#[local] Notation Errors := (list (string * string)).

(** Source: crates/dagayn-build/src/parse_batch.rs 34-45 [parse_rust_owned_file_inputs]. *)
Definition make_item (root : bool) (path : string) (c : Cached) : Item :=
  let '(source, hash, mtime) := c in
  let '(nodes, edges) := parse_file_in_repo root path source in
  mkItem _ _ path nodes edges hash mtime.

(** Source: crates/dagayn-build/src/parse_batch.rs 105-121 [summarize_batch]. *)
Definition summarize_batch (parsed : list (Item + string * string)) : list Item * nat * nat * Errors :=
  foldl (λ '(batch, nodes, edges, errors) result,
    match result with
    | inl item => (batch ++ [item], nodes + length (item_nodes _ _ item), edges + length (item_edges _ _ item), errors)
    | inr error => (batch, nodes, edges, errors ++ [error])
    end) ([], 0, 0, []) parsed.

(** [unwrap_or(0)] of a modification time. *)
Definition mtime_or_zero (path : string) : Z := match file_mtime_ns path with inl m => m | inr _ => 0%Z end.

(** The pool keeps the order of the files.

    Source: crates/dagayn-build/src/parse_batch.rs 84-103 [collect_rust_owned_file_batch]. *)
Definition collect_rust_owned_file_batch (paths : list string) : list Item * nat * nat * Errors :=
  summarize_batch ((λ path,
    match read path with
    | inr err => inr (path, err)
    | inl source =>
        if negb (rust_parser_owns_source path source) then inr (path, "unsupported Rust parser path")
        else inl (make_item true path (source, sha256_hex source, mtime_or_zero path))
    end) <$> paths).

(** Source: crates/dagayn-build/src/parse_batch.rs 127-148 [collect_unowned_file_batch]. *)
Definition collect_unowned_file_batch (paths : list string) : list Item * nat * nat * Errors :=
  summarize_batch ((λ path,
    match read path with
    | inr err => inr (path, err)
    | inl source => inl (make_item false path (source, sha256_hex source, mtime_or_zero path))
    end) <$> paths).

(** Source: crates/dagayn-build/src/parse_batch.rs 249-287 [changed_rust_owned_file_source]. *)
Definition changed_rust_owned_file_source (file_meta : gmap string (string * Z)) (path : string)
    : option Cached * list (string * Z) * Errors :=
  match file_mtime_ns path with
  | inr err => (None, [], [(path, err)])
  | inl mtime =>
      match read path with
      | inr err => (None, [], [(path, err)])
      | inl source =>
          let hash := sha256_hex source in
          if bool_decide (fst <$> file_meta !! path = Some hash) then (None, [(path, mtime)], [])
          else (Some (source, hash, mtime), [], [])
      end
  end.

(** Source: crates/dagayn-build/src/parse_batch.rs 214-247 [classify_changed_rust_owned_file_batch]. *)
Definition classify_changed_rust_owned_file_batch (file_meta : gmap string (string * Z)) (paths : list string)
    : list (string * Cached) * list (string * Z) * Errors :=
  foldl (λ '(changed, mtimes, errors) path,
    let '(source, mtime, error) := changed_rust_owned_file_source file_meta path in
    match source with
    | Some c =>
        if negb (rust_parser_owns_source path c.1.1)
        then (changed, mtimes ++ mtime, errors ++ error ++ [(path, "unsupported Rust parser path")])
        else (changed ++ [(path, c)], mtimes ++ mtime, errors ++ error)
    | None => (changed, mtimes ++ mtime, errors ++ error)
    end) ([], [], []) paths.

(** A file of the batch: the cached bytes while the modification time stands.

    Source: crates/dagayn-build/src/parse_batch.rs 164-193 [collect_changed_rust_owned_file_batch]. *)
Definition changed_item (file_meta : gmap string (string * Z)) (path : string) (entry : option Cached)
    : option Item * list (string * Z) * Errors :=
  let cached_entry :=
    c ← entry;
    match file_mtime_ns path with inl m => if (m =? c.2)%Z then Some c else None | inr _ => None end in
  let '(found, mtimes, errors) :=
    match cached_entry with
    | Some c => (Some c, [], [])
    | None => changed_rust_owned_file_source file_meta path
    end in
  match found with
  | Some c =>
      if negb (rust_parser_owns_source path c.1.1)
      then (None, mtimes, errors ++ [(path, "unsupported Rust parser path")])
      else (Some (make_item true path c), mtimes, errors)
  | None => (None, mtimes, errors)
  end.

(** Each path with its entry, which is taken.

    Source: crates/dagayn-build/src/parse_batch.rs 156-162 [collect_changed_rust_owned_file_batch]. *)
Fixpoint take_cached (cached : gmap string Cached) (paths : list string) : list (string * option Cached) :=
  match paths with
  | [] => []
  | path :: paths => (path, cached !! path) :: take_cached (delete path cached) paths
  end.

(** Source: crates/dagayn-build/src/parse_batch.rs 150-212 [collect_changed_rust_owned_file_batch]. *)
Definition collect_changed_rust_owned_file_batch (file_meta : gmap string (string * Z)) (cached : gmap string Cached)
    (paths : list string) : list Item * list (string * Z) * nat * nat * Errors :=
  foldl (λ '(batch, mtimes, nodes, edges, errors) '(path, entry),
    let '(item, mtime, error) := changed_item file_meta path entry in
    match item with
    | Some item =>
        (batch ++ [item], mtimes ++ mtime, nodes + length (item_nodes _ _ item),
         edges + length (item_edges _ _ item), errors ++ error)
    | None => (batch, mtimes ++ mtime, nodes, edges, errors ++ error)
    end) ([], [], 0, 0, []) (take_cached cached paths).

(** ** The update *)

(** Source: crates/dagayn-build/src/update.rs 559-578 [content_state]. *)
Definition content_state (path : string) (stored : option (string * Z)) (trust_mtime : bool) : ContentState :=
  match file_mtime_ns path with
  | inr _ => Changed
  | inl mtime =>
      if trust_mtime && bool_decide (snd <$> stored = Some mtime) then Unchanged
      else match read path with
           | inl source => if bool_decide (fst <$> stored = Some (sha256_hex source)) then MtimeOnly mtime else Changed
           | inr _ => Changed
           end
  end.

(** Source: crates/dagayn-build/src/update.rs 580-584 [mtime_matches]. *)
Definition mtime_matches (path : string) (stored : option (string * Z)) : bool :=
  match stored, file_mtime_ns path with
  | Some (_, m), inl mtime => (m =? mtime)%Z
  | _, _ => false
  end.

(** What discovery.rs asks of a path under the root. *)
Context (ignored is_file is_symlink is_binary : string → bool).
Context (detect_language on_disk_spelling : string → option string).

(** Source: crates/dagayn-parser/src/discovery.rs 133-166 [filter_incremental_candidates]. *)
Definition candidate_kind (path : string) : option bool :=
  if ignored path then None
  else if negb (is_file path) then Some false
  else if is_symlink path then Some false
  else if bool_decide (detect_language path = None) || is_binary path then Some false
  else match on_disk_spelling path with
       | Some on_disk => if bool_decide (on_disk ≠ path) then Some false else Some true
       | None => Some true
       end.

(** Source: crates/dagayn-parser/src/discovery.rs 125-168 [filter_incremental_candidates]. *)
Definition filter_incremental_candidates (paths : list string) : list string * list string :=
  (filter (λ p, candidate_kind p = Some true) paths, filter (λ p, candidate_kind p = Some false) paths).

(** Source: crates/dagayn-build/src/update.rs 331-343 [filter_candidates]. *)
Definition filter_candidates (paths : gset string) (indexable : gset string) : list string * list string :=
  let paths := ascending paths in
  let '(parseable, removed) := filter_incremental_candidates paths in
  (filter (.∈ indexable) parseable, removed ++ filter (.∉ indexable) paths).

(** The VCS listing, or the walk without one; the extractors; whether a path is
    a changed submodule and what it tracks; the hops of dependents. *)
Context (vcs_scope : option (list string)) (parseable_files : list string).
Context (extractor_versions : list (string * N * list string)).
Context (is_submodule : string → bool) (ls_files : string → option (list string)) (max_hops : nat).

Definition MAX_DEPENDENT_FILES : nat := 500.
Definition PARSE_BATCH_SIZE : nat := 500.
Definition BULK_LOAD_FILE_THRESHOLD : nat := 64.

(** [dedupe] of vcs.rs. *)
Fixpoint firsts (l : list string) : list string :=
  match l with [] => [] | x :: l => x :: filter (.≠ x) (firsts l) end.

(** Source: crates/dagayn-build/src/update.rs 475-504 [expand_changed_submodules]. *)
Definition expand_changed_submodules (paths : list string) : list string :=
  firsts (path ← paths;
    if negb (is_submodule path) then [path]
    else let inner := (λ name, path +:+ "/" +:+ name) <$> filter (.≠ "") (default [] (ls_files path)) in
         if bool_decide (inner = []) then [path] else inner).

Section graph.
Context {G : Type} {FG : FileGraph G}.

(** Source: crates/dagayn-build/src/update.rs 346-355 [indexed_only]. *)
Definition indexed_only (s : G) (paths : list string) : list string :=
  if bool_decide (paths = []) then []
  else let indexed := get_file_meta_for_files paths s in filter (λ p, is_Some (indexed !! p)) paths.

(** Source: crates/dagayn-build/src/update.rs 359-378 [indexable_scope]. *)
Definition indexable_scope (s : G) : gset string * list string :=
  let indexable := list_to_set (default parseable_files vcs_scope) in
  (indexable, sort_by String.leb (filter (.∉ indexable) (get_all_files s))).

(** [str::split_once] and the version after it. *)
Fixpoint split_equals (s : string) : option (string * string) :=
  match s with
  | EmptyString => None
  | String c s =>
      if bool_decide (c = Ascii.ascii_of_nat 61) then Some ("", s)
      else '(k, v) ← split_equals s; Some (String c k, v)
  end.

(** The stored versions by extractor, as the stamp's text is read; [parse_u32] is
    [str::parse], [items] the trimmed parts between commas. *)
Context (parse_u32 : string → option N) (items : string → list string) (decimal_of : N → string).

(** Source: crates/dagayn-build/src/update.rs 387-395 [outdated_extractors]. *)
Definition stored_versions (stamp : string) : gmap string N :=
  foldl (λ m item, match split_equals item with
                   | Some (name, version) => match parse_u32 version with Some v => <[name := v]> m | None => m end
                   | None => m
                   end) ∅ (items stamp).

(** Source: crates/dagayn-build/src/update.rs 383-404 [outdated_extractors]. *)
Definition outdated_extractors (s : G) : list (string * N * list string) :=
  let stored := stored_versions (default "" (get_metadata "extractor_versions" s)) in
  let present := languages s in
  sort_by (λ x y, String.leb x.1.1 y.1.1)
    (filter (λ entry, default 0%N (stored !! entry.1.1) ≠ entry.1.2 ∧ Exists (.∈ present) entry.2) extractor_versions).

(** Source: crates/dagayn-build/src/update.rs 408-436 [extractor_reparse_scope]. *)
Definition extractor_reparse_scope (s : G) (indexable : gset string) : list string * list string :=
  let outdated := outdated_extractors s in
  if bool_decide (outdated = []) then ([], [])
  else
    let owned := concat (snd <$> outdated) in
    (fst ∘ fst <$> outdated,
     ascending (filter (λ path, match detect_language path with Some lang => bool_decide (lang ∈ owned) | None => false end = true)
       indexable)).

(** Source: crates/dagayn-build/src/build.rs 165-176 [extractor_versions_stamp]. *)
Definition extractor_versions_stamp : string :=
  String.concat "," ((λ '(name, version), name +:+ "=" +:+ decimal_of version) <$>
    sort_by (λ x y : string * N, match String.compare x.1 y.1 with Lt => true | Eq => (x.2 <=? y.2)%N | Gt => false end)
      (fst <$> extractor_versions)).

(** Source: crates/dagayn-build/src/update.rs 451-471 [find_dependents]. *)
Fixpoint dependents_from (hops : nat) (s : G) (visited : gset string) (frontier ordered : list string) : list string :=
  match hops with
  | 0 => ordered
  | S hops =>
      if bool_decide (frontier = []) then ordered
      else
        let next := ascending (list_to_set (filter (.∉ visited) (get_direct_dependents frontier s))) in
        let ordered := ordered ++ next in
        if MAX_DEPENDENT_FILES <? length ordered then take MAX_DEPENDENT_FILES ordered
        else dependents_from hops s (visited ∪ list_to_set next) next ordered
  end.

(** Source: crates/dagayn-build/src/update.rs 440-452 [find_dependents]. *)
Definition find_dependents (s : G) (roots : gset string) : list string :=
  dependents_from max_hops s roots (ascending roots) [].

(** Source: crates/dagayn-build/src/update.rs 94-106 [Plan]. *)
Record Plan := mkPlan {
  removed : list string;
  mtime_only : list (string * Z);
  rust_full : list string;
  rust_forced : list string;
  rust_checked : list string;
  unowned : list string;
  cached : gmap string Cached
}.

(** Source: crates/dagayn-build/src/update.rs 108-112 [Plan::parse_count]. *)
Definition parse_count (p : Plan) : nat :=
  length (rust_full p) + length (rust_forced p) + length (rust_checked p) + length (unowned p).

(** Source: crates/dagayn-build/src/update.rs 39-51 [UpdateReport]. *)
Record Report := mkReport {
  files_updated : nat;
  total_nodes : nat;
  total_edges : nat;
  changed_files : list string;
  dependent_files : list string;
  errors : Errors
}.

Definition no_report : Report := mkReport 0 0 0 [] [] [].

(** What the classification of the changed files finds. *)
Record Classified := mkClassified {
  c_removed : list string;
  c_changed : gset string;
  c_rust_changed : gset string;
  c_mtimes : list (string * Z);
  c_cached : gmap string Cached;
  c_mtime_only : list (string * Z);
  c_errors : Errors
}.

(** Which changed paths still exist, and whose content changed.

    Source: crates/dagayn-build/src/update.rs 141-178 [run_pipeline]. *)
Definition classify (s : G) (changed_set indexable : gset string) (stale : list string) : Classified :=
  let '(candidates, removed) := filter_candidates changed_set indexable in
  let removed := firsts (indexed_only s removed ++ stale) in
  let rust := filter (λ p, owns_path p = true) candidates in
  let rest := filter (λ p, owns_path p = false) candidates in
  let '(changed, mtimes, errors) :=
    if bool_decide (rust = []) then ([], [], [])
    else classify_changed_rust_owned_file_batch (get_file_meta_for_files rust s) rust in
  let meta := get_file_meta_for_files rest s in
  let state p := content_state p (meta !! p) false in
  mkClassified removed
    (list_to_set (fst <$> changed) ∪ list_to_set (filter (λ p, state p = Changed) rest))
    (list_to_set (fst <$> changed)) mtimes (list_to_map (rev changed))
    (omap (λ p, match state p with MtimeOnly m => Some (p, m) | _ => None end) rest) errors.

(** Source: crates/dagayn-build/src/update.rs 225-241 [run_pipeline]. *)
Definition fate (c : Classified) (meta : gmap string (string * Z)) (path : string) : Fate :=
  if owns_path path then
    if bool_decide (path ∈ c_rust_changed c) then Forced
    else if mtime_matches path (meta !! path) then Skip else Checked
  else
    match content_state path (meta !! path) (negb (bool_decide (path ∈ c_changed c))) with
    | Unchanged => Skip
    | MtimeOnly m => Mtime m
    | Changed => Unowned
    end.

(** Source: crates/dagayn-build/src/update.rs 185-242 [run_pipeline]. *)
Definition make_plan (s : G) (c : Classified) (indexable : gset string) (extractor_files dependents : list string)
    : Plan * nat :=
  let all_files := c_changed c ∪ list_to_set (c_removed c) ∪ list_to_set dependents in
  let '(candidates, removed) :=
    if bool_decide (dependents = []) then (filter (.∈ indexable) (ascending (c_changed c)), c_removed c)
    else
      let '(candidates, extra) := filter_candidates all_files indexable in
      (candidates, firsts (c_removed c ++ indexed_only s extra)) in
  let full := filter (.∉ c_changed c) extractor_files in
  let candidates := if bool_decide (extractor_files = []) then candidates else filter (.∉ full) candidates in
  let meta := get_file_meta_for_files candidates s in
  let fates := (λ p, (p, fate c meta p)) <$> candidates in
  let those k := fst <$> filter (λ x : string * Fate, x.2 = k) fates in
  (mkPlan removed
     (c_mtime_only c ++ omap (λ '(p, f), match f with Mtime m => Some (p, m) | _ => None end) fates)
     (filter (λ p, owns_path p = true) full) (those Forced) (those Checked)
     (filter (λ p, owns_path p = false) full ++ those Unowned) (c_cached c),
   size (all_files ∪ list_to_set extractor_files)).

(** ** Running it *)

Context (repo_root timestamp branch sha : string) (vcs : Vcs.Vcs).

(** Source: crates/dagayn-build/src/update.rs 535-547 [store_vcs_metadata]. *)
Definition store_vcs_metadata (s : G) : G :=
  if negb (bool_decide (vcs = Vcs.Git)) then s
  else
    let s := if bool_decide (branch = "") then s else set_metadata "git_branch" branch s in
    if bool_decide (sha = "") then s else set_metadata "git_head_sha" sha s.

(** Source: crates/dagayn-build/src/update.rs 509-521 [diff_covers_graph_commit]. *)
Definition diff_covers_graph_commit (resolved : option string) (s : G) : bool :=
  match resolved with
  | None => false
  | Some resolved =>
      match get_metadata "git_head_sha" s with
      | Some stored => if bool_decide (stored = "") then true else bool_decide (stored = resolved)
      | None => true
      end
  end.

(** Source: crates/dagayn-build/src/update.rs 312-327 [store_batch]. *)
Definition store_batch (batch : list Item * nat * nat * Errors) (r : Report) : M G Report :=
  let '(items, nodes, edges, errs) := batch in
  (if bool_decide (items = []) then mret tt else store_file_batch items) ≫= λ _,
  mret (mkReport (files_updated r) (total_nodes r + nodes) (total_edges r + edges) (changed_files r)
          (dependent_files r) (errors r ++ errs)).

(** [slice::chunks]. *)
Fixpoint chunked (fuel n : nat) (l : list string) : list (list string) :=
  match fuel, l with
  | S fuel, _ :: _ => take n l :: chunked fuel n (drop n l)
  | _, _ => []
  end.

(** The forced and the checked files, against the hashes stored now; [cache]
    holds what is left of the bytes read.

    Source: crates/dagayn-build/src/update.rs 288-304 [parse_planned]. *)
Definition parse_changed (st : gmap string Cached * Report) (paths : list string) : M G (gmap string Cached * Report) :=
  let '(cache, r) := st in
  if bool_decide (paths = []) then mret st
  else
    gets (get_file_meta_for_files paths) ≫= λ meta : gmap string (string * Z),
    let '(batch, mtimes, nodes, edges, errs) :=
      collect_changed_rust_owned_file_batch meta (filter (λ p, p.1 ∈ paths) cache) paths in
    modify (update_file_mtimes mtimes) ≫= λ _,
    r ← store_batch (batch, nodes, edges, errs) r;
    mret (filter (λ p, p.1 ∉ paths) cache, r).

(** Source: crates/dagayn-build/src/update.rs 277-310 [parse_planned]. *)
Definition parse_planned (p : Plan) (r : Report) : M G Report :=
  r ← foldM (λ r chunk, store_batch (collect_rust_owned_file_batch chunk) r) r
        (chunked (length (rust_full p)) PARSE_BATCH_SIZE (rust_full p));
  st ← foldM parse_changed (cached p, r) [rust_forced p; rust_checked p];
  if bool_decide (unowned p = []) then mret st.2
  else store_batch (collect_unowned_file_batch (unowned p)) st.2.

(** Removals, parsing and the final metadata of a plan.

    Source: crates/dagayn-build/src/update.rs 244-275 [run_pipeline]. *)
Definition apply_plan (covers : bool) (p : Plan) (r : Report) : M G Report :=
  modify (remove_files_data (removed p)) ≫= λ _,
  modify (update_file_mtimes (mtime_only p)) ≫= λ _,
  if parse_count p =? 0 then
    modify (λ s : G, if covers then store_vcs_metadata s else s) ≫= λ _, mret r
  else
    let bulk := BULK_LOAD_FILE_THRESHOLD <=? parse_count p in
    when bulk (modify begin_bulk_load) ≫= λ _,
    (λ s : G, let '(s, parsed) := parse_planned p r s in (if bulk then finish_bulk_load s else s, parsed)) ≫= λ r,
    modify (λ s : G,
      let s := set_metadata "last_updated" timestamp s in
      let s := set_metadata "last_build_type" "incremental" s in
      let s := set_metadata "extractor_versions" extractor_versions_stamp s in
      if covers then store_vcs_metadata s else s) ≫= λ _,
    mret r.

(** Source: crates/dagayn-build/src/update.rs 114-275 [run_pipeline]. *)
Definition run_pipeline (resolved : option string) (changed : list string) : M G Report :=
  modify (set_metadata "repo_root" repo_root) ≫= λ _,
  gets (diff_covers_graph_commit resolved) ≫= λ covers : bool,
  gets indexable_scope ≫= λ '((indexable, stale) : gset string * list string),
  gets (λ s : G, extractor_reparse_scope s indexable) ≫= λ '((outdated, extractor_files) : list string * list string),
  when (negb (bool_decide (outdated = [])) && bool_decide (extractor_files = []))
    (modify (set_metadata "extractor_versions" extractor_versions_stamp)) ≫= λ _,
  if bool_decide (changed = []) && bool_decide (stale = []) && bool_decide (extractor_files = [])
  then modify (λ s : G, if covers then store_vcs_metadata s else s) ≫= λ _, mret no_report
  else
    let changed := expand_changed_submodules changed in
    gets (λ s : G, classify s (list_to_set changed) indexable stale) ≫= λ c : Classified,
    modify (update_file_mtimes (c_mtimes c)) ≫= λ _,
    gets (λ s : G, find_dependents s (list_to_set (c_removed c) ∪ c_changed c)) ≫= λ dependents : list string,
    gets (λ s : G, make_plan s c indexable extractor_files dependents) ≫= λ '((plan, updated) : Plan * nat),
    apply_plan covers plan (mkReport updated 0 0 changed dependents (c_errors c)).

(** ** The full build *)

Record BuildReport := mkBuildReport { files_parsed : nat; built : Report }.

(** Source: crates/dagayn-build/src/build.rs 40-46 [BuildError]. *)
Inductive BuildError := UnsupportedVcs (name : string) | Graph (e : GraphError).

(** Source: crates/dagayn-build/src/build.rs 113-134 [parse_and_store]. *)
Definition parse_and_store (files : list string) (r : Report) : M G Report :=
  let owned := filter (λ p, owns_path p = true) files in
  let rest := filter (λ p, owns_path p = false) files in
  r ← foldM (λ r chunk, store_batch (collect_rust_owned_file_batch chunk) r) r
        (chunked (length owned) PARSE_BATCH_SIZE owned);
  if bool_decide (rest = []) then mret r else store_batch (collect_unowned_file_batch rest) r.

(** The rows of a build.

    Source: crates/dagayn-build/src/build.rs 59-94 [full_build]. *)
Definition build_rows : M G BuildReport :=
  modify (set_metadata "repo_root" repo_root) ≫= λ _,
  gets (λ s : G, filter (.∉ parseable_files) (get_all_files s)) ≫= λ stale : list string,
  modify (remove_files_data stale) ≫= λ _,
  modify begin_bulk_load ≫= λ _,
  (λ s : G, let '(s, stored) := parse_and_store parseable_files no_report s in (finish_bulk_load s, stored)) ≫= λ r,
  modify (λ s : G,
    let s := set_metadata "last_updated" timestamp s in
    let s := set_metadata "last_build_type" "full" s in
    let s := store_vcs_metadata s in
    set_metadata "extractor_versions" extractor_versions_stamp s) ≫= λ _,
  mret (mkBuildReport (length parseable_files) r).

(** Without post-processing.

    Source: crates/dagayn-build/src/build.rs 48-94 [full_build]. *)
Definition full_build (s : G) : G * (BuildReport + BuildError) :=
  match vcs with
  | Vcs.Jj => (s, inr (UnsupportedVcs "jj"))
  | Vcs.Svn => (s, inr (UnsupportedVcs "svn"))
  | Vcs.Git | Vcs.NoVcs => match build_rows s with (s, inl r) => (s, inl r) | (s, inr e) => (s, inr (Graph e)) end
  end.

(** ** What is held *)

Context (item_ok : Item → Prop) {L : FileGraphLaws G item_ok}.
(** The bytes of a file and the item it is parsed to. *)
Definition source (path : string) : string := match read path with inl source => source | inr _ => "" end.
Definition item_of (root : bool) (path : string) : Item :=
  make_item root path (source path, sha256_hex (source path), mtime_or_zero path).
(** A file that can be read, whose source an extractor owns, as those of the
    files a listing gives do ([Discovery.indexed_files_owned]). *)
Definition readable (path : string) : Prop :=
  (∃ source, read path = inl source ∧ rust_parser_owns_source path source = true) ∧
  ∃ mtime, file_mtime_ns path = inl mtime.

(** What the parser makes of a readable file can be stored. *)
Hypothesis parse_storable : ∀ root path, readable path → item_ok (item_of root path).

(** A digest has digits. *)
Hypothesis hash_digits : ∀ source, sha256_hex source ≠ "".

(** What is to be held of a file: the hash of its bytes and the data parsed from them. *)
Definition current (path : string) : string * Data := (sha256_hex (source path), item_data (item_of (owns_path path) path)).

(** What is held, modification times aside. *)
Definition contents (files : gmap string (string * Z * Data)) : gmap string (string * Data) :=
  (λ x : string * Z * Data, (x.1.1, x.2)) <$> files.
Definition holds (s : G) (path : string) : option (string * Data) := contents (held s) !! path.
Definition fresh (s : G) (path : string) : Prop := holds s path = Some (current path).

(** [s'] is [s] but for some of the files [l], which are fresh. *)
Definition advances (s s' : G) (l : list string) : Prop :=
  valid s' ∧ ∀ q, holds s' q = holds s q ∨ (q ∈ l ∧ fresh s' q).

Lemma advances_refl s l : valid s → advances s s l.
Proof. split; [done|]. by left. Qed.

Lemma advances_trans s1 s2 s3 l k : advances s1 s2 l → advances s2 s3 k → advances s1 s3 (l ++ k).
Proof.
  intros [_ H1] [Hv H2]. split; [done|]. intros q. destruct (H2 q) as [Hq|[Hin Hq]].
  - destruct (H1 q) as [Hq'|[Hin Hq']]; [left; congruence|]. right. split; [apply elem_of_app; by left|].
    unfold fresh in *. congruence.
  - right. split; [apply elem_of_app; by right|done].
Qed.

Lemma advances_fresh s s' l q : advances s s' l → fresh s q → fresh s' q.
Proof. intros [_ Ha] Hq. destruct (Ha q) as [Hs|[_ ?]]; [|done]. unfold fresh in *. congruence. Qed.

Lemma advances_weaken s s' l k : (∀ q, q ∈ l → q ∈ k) → advances s s' l → advances s s' k.
Proof. intros Hlk [Hv Ha]. split; [done|]. intros q. destruct (Ha q) as [|[Hq ?]]; auto. Qed.

Lemma contents_put_mtimes us files : contents (foldl put_mtime files us) = contents files.
Proof.
  revert files. induction us as [|[p m] us IH]; intros files; [done|]. cbn [foldl]. rewrite IH.
  unfold put_mtime. cbn. destruct (files !! p) as [[[h m'] d]|] eqn:Hp; [|done].
  apply map_eq. intros q. unfold contents. rewrite !lookup_fmap.
  destruct (decide (q = p)) as [->|Hn]; [by rewrite lookup_insert_eq, Hp|by rewrite lookup_insert_ne].
Qed.

Lemma update_mtimes_advances us s : valid s → advances s (update_file_mtimes us s) [].
Proof using Type L.
  intros Hv. destruct (update_mtimes_held us s Hv) as [Hv' He]. split; [done|]. intros q. left.
  unfold holds. by rewrite He, contents_put_mtimes.
Qed.

Lemma same_held_advances s s' : valid s' → held s' = held s → advances s s' [].
Proof. intros Hv He. split; [done|]. intros q. left. unfold holds. by rewrite He. Qed.

Lemma set_metadata_advances k v s : valid s → advances s (set_metadata k v s) [].
Proof using Type L. intros Hv. by apply same_held_advances; apply set_metadata_held. Qed.

(** What is held of a file that was parsed. *)
Definition indexed (s : G) (p : string) : Prop :=
  match holds s p with Some (h, _) => h ≠ "" | None => False end.

#[local] Instance indexed_dec s p : Decision (indexed s p).
Proof. unfold indexed. destruct (holds s p) as [[]|]; apply _. Defined.

Lemma meta_lookup l s p : valid s → p ∈ l →
  get_file_meta_for_files l s !! p = x ← held s !! p; if decide (x.1.1 ≠ "") then Some x.1 else None.
Proof using Type L.
  intros Hv Hp. rewrite (file_meta_held l s p Hv), decide_True by done. unfold meta_of. rewrite map_lookup_filter, lookup_fmap.
  destruct (held s !! p) as [[[h m] d]|]; [|done]. cbn. by case_guard.
Qed.

Lemma meta_stands l s p source : valid s → p ∈ l →
  fst <$> get_file_meta_for_files l s !! p = Some (sha256_hex source) ↔ fst <$> holds s p = Some (sha256_hex source).
Proof using Type L hash_digits.
  intros Hv Hp. rewrite meta_lookup by done. unfold holds, contents. rewrite lookup_fmap. specialize (hash_digits source).
  destruct (held s !! p) as [[[h m] d]|]; cbn; [|done]. case_decide as Hh; cbn; [done|]. split; [done|].
  intros [= ->]. by destruct Hh.
Qed.

Lemma meta_indexed l s p : valid s → p ∈ l → is_Some (get_file_meta_for_files l s !! p) ↔ indexed s p.
Proof using Type L.
  intros Hv Hp. rewrite meta_lookup by done. unfold indexed, holds, contents. rewrite lookup_fmap.
  destruct (held s !! p) as [[[h m] d]|]; cbn; [|split; [by intros []|done]].
  case_decide as Hh; cbn; split; [done|by eexists|by intros []|done].
Qed.

(** Storing the current items of some files. *)
Lemma item_of_data root path mtime :
  item_data (make_item root path (source path, sha256_hex (source path), mtime)) = item_data (item_of root path).
Proof using Type L.
  unfold item_of, make_item. destruct (parse_file_in_repo root path (source path)) as [ns es].
  by apply item_data_content.
Qed.

Lemma contents_put_items root l files :
  (∀ p, p ∈ l → owns_path p = root) →
  ∀ q, contents (foldl put_item files (item_of root <$> l)) !! q =
    if decide (q ∈ l) then Some (current q) else contents files !! q.
Proof.
  revert files. induction l as [|p l IH]; intros files Hl q; [by rewrite decide_False by apply not_elem_of_nil|].
  cbn [fmap list_fmap foldl]. rewrite IH by (intros x Hx; apply Hl; by right).
  assert (Hput : put_item files (item_of root p) =
    <[p := (sha256_hex (source p), mtime_or_zero p, item_data (item_of root p))]> files).
  { unfold put_item. f_equal; unfold item_of, make_item; by destruct (parse_file_in_repo _ _ _). }
  rewrite Hput. unfold contents. destruct (decide (q ∈ l)) as [Hq|Hq].
  - by rewrite decide_True by by right.
  - rewrite lookup_fmap. destruct (decide (q = p)) as [->|Hn].
    + rewrite decide_True by left. rewrite lookup_insert_eq. cbn. unfold current. by rewrite (Hl p) by left.
    + rewrite decide_False by (intros [?|?]%elem_of_cons; done). by rewrite lookup_insert_ne, lookup_fmap.
Qed.

Lemma item_of_path root p : item_path _ _ (item_of root p) = p.
Proof. unfold item_of, make_item. by destruct (parse_file_in_repo _ _ _). Qed.

Lemma store_items root l n e r s :
  valid s → NoDup l → (∀ p, p ∈ l → readable p ∧ owns_path p = root) →
  ∃ s' r', store_batch (item_of root <$> l, n, e, []) r s = (s', inl r') ∧ errors r' = errors r ∧
    advances s s' l ∧ ∀ q, q ∈ l → fresh s' q.
Proof using Type L parse_storable.
  intros Hv Hnd Hl. unfold store_batch. case_bool_decide as Hnil.
  { apply fmap_nil_inv in Hnil as ->. cbn. exists s. eexists. split; [done|]. cbn. rewrite app_nil_r.
    split; [done|]. split; [by apply advances_refl|]. by intros q ?%not_elem_of_nil. }
  destruct (store_batch_held (item_of root <$> l) s Hv) as (s' & Hs & Hv' & He).
  { assert (Hp : item_path _ _ <$> (item_of root <$> l) = l).
    { rewrite <-list_fmap_compose. rewrite <-(list_fmap_id l) at 2. apply list_fmap_ext. intros i p _. apply item_of_path. }
    by rewrite Hp. }
  { apply Forall_forall. intros i (p & -> & Hp)%list_elem_of_fmap. apply parse_storable. by apply Hl. }
  unfold mbind, M_bind. rewrite Hs. eexists _, _. split; [reflexivity|]. cbn [errors]. rewrite app_nil_r. split; [done|].
  assert (Hq : ∀ q, holds s' q = if decide (q ∈ l) then Some (current q) else holds s q).
  { intros q. unfold holds. rewrite He. apply contents_put_items. intros p Hp. by apply Hl. }
  split.
  - split; [done|]. intros q. unfold fresh. rewrite Hq. case_decide; auto.
  - intros q Hin. unfold fresh. by rewrite Hq, decide_True.
Qed.

Lemma readable_read p : readable p → read p = inl (source p).
Proof. intros [(src & Hs & _) _]. unfold source. by rewrite Hs. Qed.

Lemma readable_mtime p : readable p → file_mtime_ns p = inl (mtime_or_zero p).
Proof. intros [_ (m & Hm)]. unfold mtime_or_zero. by rewrite Hm. Qed.

Lemma readable_owned p : readable p → owns_path p = true → rust_parser_owns_source p (source p) = true.
Proof. intros [(src & Hs & Ho) _] _. unfold source. rewrite Hs. exact Ho. Qed.

Lemma summarize_items its : ∃ n e, summarize_batch (inl <$> its) = (its, n, e, []).
Proof.
  unfold summarize_batch. assert (Hg : ∀ its b n e, ∃ n' e',
    foldl (λ '(batch, nodes, edges, errors) (result : Item + string * string),
      match result with
      | inl item => (batch ++ [item], nodes + length (item_nodes _ _ item), edges + length (item_edges _ _ item), errors)
      | inr error => (batch, nodes, edges, errors ++ [error])
      end) (b, n, e, []) (inl <$> its) = (b ++ its, n', e', [])); [|apply (Hg its [] 0 0)].
  clear its. induction its as [|i its IH]; intros b n e; [exists n, e; by rewrite app_nil_r|].
  cbn [fmap list_fmap foldl]. destruct (IH (b ++ [i]) (n + length (item_nodes _ _ i)) (e + length (item_edges _ _ i)))
    as (n' & e' & ->). exists n', e'. by rewrite <-app_assoc.
Qed.

Lemma collect_items (f : string → Item + string * string) root l :
  (∀ p, p ∈ l → f p = inl (item_of root p)) → ∃ n e, summarize_batch (f <$> l) = (item_of root <$> l, n, e, []).
Proof.
  intros Hf. assert (Heq : f <$> l = inl <$> (item_of root <$> l)).
  { rewrite <-list_fmap_compose. apply list_fmap_ext. intros i p Hp. apply Hf. by eapply list_elem_of_lookup_2. }
  rewrite Heq. apply summarize_items.
Qed.

Lemma collect_owned l :
  (∀ p, p ∈ l → readable p ∧ owns_path p = true) →
  ∃ n e, collect_rust_owned_file_batch l = (item_of true <$> l, n, e, []).
Proof.
  intros Hl. apply collect_items. intros p Hp. destruct (Hl p Hp) as [Hr Ho].
  by rewrite (readable_read p Hr), (readable_owned p Hr Ho).
Qed.

Lemma collect_rest l :
  (∀ p, p ∈ l → readable p) → ∃ n e, collect_unowned_file_batch l = (item_of false <$> l, n, e, []).
Proof. intros Hl. apply collect_items. intros p Hp. by rewrite (readable_read p (Hl p Hp)). Qed.

(** A run that only brings some files up to date. *)
Definition freshens (m : M G Report) (r : Report) (s : G) (l : list string) : Prop :=
  ∃ s' r', m s = (s', inl r') ∧ errors r' = errors r ∧ advances s s' l ∧ ∀ q, q ∈ l → fresh s' q.

Lemma store_chunks fuel l r s :
  valid s → NoDup l → (∀ p, p ∈ l → readable p ∧ owns_path p = true) → length l ≤ fuel →
  freshens (foldM (λ r chunk, store_batch (collect_rust_owned_file_batch chunk) r) r (chunked fuel PARSE_BATCH_SIZE l)) r s l.
Proof using Type L parse_storable.
  revert l r s. induction fuel as [|fuel IH]; intros l r s Hv Hnd Hl Hf.
  { destruct l; [|cbn in Hf; lia]. exists s, r. split; [done|]. split; [done|]. split; [by apply advances_refl|].
    by intros q ?%not_elem_of_nil. }
  destruct l as [|p l]; [exists s, r; split; [done|]; split; [done|]; split; [by apply advances_refl|by intros q ?%not_elem_of_nil]|].
  set (l0 := p :: l) in *. change (chunked (S fuel) PARSE_BATCH_SIZE l0) with (take PARSE_BATCH_SIZE l0 :: chunked fuel PARSE_BATCH_SIZE (drop PARSE_BATCH_SIZE l0)).
  cbn [foldM]. assert (Hsplit : take PARSE_BATCH_SIZE l0 ++ drop PARSE_BATCH_SIZE l0 = l0) by apply take_drop.
  assert (Hin : ∀ q, q ∈ l0 ↔ q ∈ take PARSE_BATCH_SIZE l0 ∨ q ∈ drop PARSE_BATCH_SIZE l0) by (intros q; by rewrite <-elem_of_app, Hsplit).
  rewrite <-Hsplit in Hnd. apply NoDup_app in Hnd as (Hnd1 & _ & Hnd2).
  destruct (collect_owned (take PARSE_BATCH_SIZE l0)) as (n & e & Hc); [intros q Hq; apply Hl, Hin; by left|].
  destruct (store_items true (take PARSE_BATCH_SIZE l0) n e r s Hv Hnd1) as (s1 & r1 & Hs & He & Ha & Hfr).
  { intros q Hq. apply Hl, Hin. by left. }
  destruct (IH (drop PARSE_BATCH_SIZE l0) r1 s1) as (s2 & r2 & Hs2 & He2 & Ha2 & Hfr2); [by apply Ha|done| | |].
  { intros q Hq. apply Hl, Hin. by right. }
  { rewrite length_drop. unfold l0, PARSE_BATCH_SIZE in *. cbn [length] in *. lia. }
  exists s2, r2. unfold mbind, M_bind. rewrite Hc, Hs. split; [done|]. split; [congruence|]. split.
  - eapply advances_weaken; [|by eapply advances_trans]. intros q [?|?]%elem_of_app; apply Hin; auto.
  - intros q [Hq|Hq]%Hin; [by eapply advances_fresh, Hfr|by apply Hfr2].
Qed.

Lemma store_rest l r s :
  valid s → NoDup l → (∀ p, p ∈ l → readable p ∧ owns_path p = false) →
  freshens (if bool_decide (l = []) then mret r else store_batch (collect_unowned_file_batch l) r) r s l.
Proof using Type L parse_storable.
  intros Hv Hnd Hl. case_bool_decide as Hnil.
  { subst l. exists s, r. split; [done|]. split; [done|]. split; [by apply advances_refl|]. by intros q ?%not_elem_of_nil. }
  destruct (collect_rest l) as (n & e & Hc); [intros p Hp; by apply Hl|]. unfold freshens. rewrite Hc.
  apply store_items; [done..|]. intros p Hp. by apply Hl.
Qed.

(** ** The full build *)

Lemma parse_and_store_spec files r s :
  valid s → NoDup files → (∀ p, p ∈ files → readable p) → freshens (parse_and_store files r) r s files.
Proof using Type L parse_storable.
  intros Hv Hnd Hr. unfold parse_and_store.
  set (owned := filter (λ p, owns_path p = true) files). set (rest := filter (λ p, owns_path p = false) files).
  destruct (store_chunks (length owned) owned r s Hv) as (s1 & r1 & Hs1 & He1 & Ha1 & Hf1); [by apply NoDup_filter| |done|].
  { intros p [Ho Hp]%list_elem_of_filter. auto. }
  destruct (store_rest rest r1 s1) as (s2 & r2 & Hs2 & He2 & Ha2 & Hf2); [by apply Ha1|by apply NoDup_filter| |].
  { intros p [Ho Hp]%list_elem_of_filter. auto. }
  exists s2, r2. unfold mbind, M_bind. rewrite Hs1, Hs2. split; [done|]. split; [congruence|]. split.
  - eapply advances_weaken; [|by eapply advances_trans].
    intros q [[_ ?]%list_elem_of_filter|[_ ?]%list_elem_of_filter]%elem_of_app; done.
  - intros q Hq. destruct (owns_path q) eqn:Ho.
    + eapply advances_fresh, Hf1; [done|]. by apply list_elem_of_filter.
    + apply Hf2. by apply list_elem_of_filter.
Qed.

Lemma remove_holds l s q :
  valid s → valid (remove_files_data l s) ∧ holds (remove_files_data l s) q = if decide (q ∈ l) then None else holds s q.
Proof using Type L.
  intros Hv. destruct (remove_held l s Hv) as [Hv' He]. split; [done|]. unfold holds, contents.
  rewrite He, !lookup_fmap. case_decide as Hq.
  - rewrite map_lookup_filter_None_2; [done|]. right. intros x _ Hx. by apply Hx.
  - destruct (held s !! q) as [x|] eqn:Hx; cbn.
    + by rewrite (map_lookup_filter_Some_2 _ _ _ x Hx).
    + by rewrite map_lookup_filter_None_2 by (by left).
Qed.

Lemma all_files_hold s p : valid s → p ∈ get_all_files s ↔ is_Some (holds s p).
Proof using Type L.
  intros Hv. rewrite (all_files_held s p Hv), elem_of_dom. unfold holds, contents. rewrite lookup_fmap.
  destruct (held s !! p); cbn; (split; intros [x Hx]; [|]); try done; by eexists.
Qed.

Lemma store_vcs_advances s : valid s → advances s (store_vcs_metadata s) [].
Proof using Type L.
  intros Hv. unfold store_vcs_metadata. destruct (negb _); [by apply advances_refl|].
  case_bool_decide; case_bool_decide; try by apply advances_refl; try by apply set_metadata_advances.
  - by apply set_metadata_advances.
  - by apply set_metadata_advances.
  - apply (advances_trans _ (set_metadata "git_branch" branch s) _ [] []); apply set_metadata_advances; [done|].
    by apply set_metadata_held.
Qed.

(** What does not touch the files leaves what is held. *)
Lemma advances_nil s s' q : advances s s' [] → holds s' q = holds s q.
Proof. intros [_ Ha]. destruct (Ha q) as [?|[[]%not_elem_of_nil _]]. done. Qed.

Lemma final_metadata kind s :
  valid s →
  advances s (set_metadata "extractor_versions" extractor_versions_stamp
    (set_metadata "last_build_type" kind (set_metadata "last_updated" timestamp s))) [].
Proof using Type L.
  intros Hv. pose proof (set_metadata_advances "last_updated" timestamp s Hv) as H1.
  pose proof (set_metadata_advances "last_build_type" kind _ (proj1 H1)) as H2.
  pose proof (set_metadata_advances "extractor_versions" extractor_versions_stamp _ (proj1 H2)) as H3.
  exact (advances_trans _ _ _ [] [] H1 (advances_trans _ _ _ [] [] H2 H3)).
Qed.

Lemma build_rows_current s :
  valid s → NoDup parseable_files → (∀ p, p ∈ parseable_files → readable p) →
  ∃ s' r, build_rows s = (s', inl r) ∧ valid s' ∧ errors (built r) = [] ∧
    ∀ p, holds s' p = if decide (p ∈ parseable_files) then Some (current p) else None.
Proof using Type L parse_storable.
  intros Hv Hnd Hr. unfold build_rows, mbind, M_bind, modify, gets.
  pose proof (set_metadata_advances "repo_root" repo_root s Hv) as H1. set (s1 := set_metadata "repo_root" repo_root s) in *.
  set (stale := filter (.∉ parseable_files) (get_all_files s1)).
  pose proof (λ q, remove_holds stale s1 q (proj1 H1)) as H2. set (s2 := remove_files_data stale s1) in *.
  destruct (begin_held s2 (proj1 (H2 ""))) as [Hv3 He3]. set (s3 := begin_bulk_load s2) in *.
  destruct (parse_and_store_spec parseable_files no_report s3 Hv3 Hnd Hr) as (s4 & r & Hs4 & He4 & Ha4 & Hf4).
  rewrite Hs4. destruct (finish_held s4 (proj1 Ha4)) as [Hv5 He5]. set (s5 := finish_bulk_load s4) in *.
  set (s6 := set_metadata "last_build_type" "full" (set_metadata "last_updated" timestamp s5)).
  assert (H6 : advances s5 s6 []).
  { pose proof (set_metadata_advances "last_updated" timestamp s5 Hv5) as Ha.
    exact (advances_trans _ _ _ [] [] Ha (set_metadata_advances "last_build_type" "full" _ (proj1 Ha))). }
  pose proof (store_vcs_advances s6 (proj1 H6)) as H7.
  pose proof (set_metadata_advances "extractor_versions" extractor_versions_stamp _ (proj1 H7)) as H8.
  eexists _, _. split; [reflexivity|]. split; [apply H8|]. split; [cbn [built]; by rewrite He4|].
  intros p. rewrite (advances_nil _ _ p H8), (advances_nil _ _ p H7), (advances_nil _ _ p H6).
  assert (H54 : holds s5 p = holds s4 p) by (unfold holds; by rewrite He5). rewrite H54.
  case_decide as Hp; [by apply Hf4|].
  destruct Ha4 as [_ Ha4]. destruct (Ha4 p) as [->|[? _]]; [|done].
  assert (H32 : holds s3 p = holds s2 p) by (unfold holds; by rewrite He3). rewrite H32.
  destruct (H2 p) as [_ ->]. case_decide as Hst; [done|]. destruct (holds s1 p) as [x|] eqn:Hx; [|done].
  exfalso. apply Hst. apply list_elem_of_filter. split; [done|]. apply (all_files_hold s1 p (proj1 H1)). by rewrite Hx.
Qed.

(** C6: A full build of readable files of a git checkout, or of a directory
    without version control, succeeds, and what the graph then holds is the files
    to parse, each with the hash of its bytes and the data its parser reads from
    them, whatever the graph held before, manifests without a hash included:
    files that are gone or out of scope are removed, in however many batches the
    rest is stored.  A jj or Subversion checkout is refused, and the graph stays
    as it was. *)
Theorem full_build_current s :
  valid s → NoDup parseable_files → (∀ p, p ∈ parseable_files → readable p) →
  match vcs with
  | Vcs.Jj => full_build s = (s, inr (UnsupportedVcs "jj"))
  | Vcs.Svn => full_build s = (s, inr (UnsupportedVcs "svn"))
  | Vcs.Git | Vcs.NoVcs =>
      ∃ s' r, full_build s = (s', inl r) ∧ valid s' ∧ errors (built r) = [] ∧
        ∀ p, holds s' p = if decide (p ∈ parseable_files) then Some (current p) else None
  end.
Proof using Type L parse_storable.
  intros Hv Hnd Hr. destruct (build_rows_current s Hv Hnd Hr) as (s' & r & Hs & Hrest). unfold full_build. rewrite Hs.
  destruct vcs; try done; by exists s', r.
Qed.

(** ** The update *)

(** Cached bytes that are the file's. *)
Definition cache_good (cache : gmap string Cached) : Prop :=
  ∀ p c, cache !! p = Some c → c = (source p, sha256_hex (source p), mtime_or_zero p).

Definition to_store (meta : gmap string (string * Z)) (cache : gmap string Cached) (p : string) : Prop :=
  is_Some (cache !! p) ∨ fst <$> meta !! p ≠ Some (sha256_hex (source p)).

#[local] Instance to_store_dec meta cache p : Decision (to_store meta cache p).
Proof. unfold to_store. apply _. Defined.

Lemma changed_item_spec meta cache p :
  readable p → owns_path p = true → cache_good cache →
  changed_item meta p (cache !! p) =
    if decide (to_store meta cache p) then (Some (item_of true p), [], []) else (None, [(p, mtime_or_zero p)], []).
Proof.
  intros Hr Ho Hc. unfold changed_item, changed_rust_owned_file_source.
  rewrite (readable_mtime p Hr), (readable_read p Hr).
  destruct (cache !! p) as [c|] eqn:Hp.
  - rewrite (Hc p c Hp). cbn [mbind option_bind snd]. rewrite Z.eqb_refl. cbn [fst].
    rewrite (readable_owned p Hr Ho), decide_True by (left; rewrite Hp; by eexists). done.
  - cbn [mbind option_bind]. case_bool_decide as Hh.
    + rewrite decide_False; [done|]. intros [Hs|?]; [|done]. rewrite Hp in Hs. by destruct Hs.
    + rewrite decide_True by by right. cbn [fst]. rewrite (readable_owned p Hr Ho). done.
Qed.

Lemma take_cached_spec cache paths : NoDup paths → take_cached cache paths = (λ p, (p, cache !! p)) <$> paths.
Proof.
  intros Hnd. revert cache. induction Hnd as [|p paths Hp _ IH]; intros cache; [done|].
  cbn [take_cached]. rewrite IH, fmap_cons. f_equal. apply list_fmap_ext. intros i q Hq. f_equal.
  apply lookup_delete_ne. intros ->. apply Hp. by eapply list_elem_of_lookup_2.
Qed.

Lemma collect_changed_spec meta cache paths :
  NoDup paths → (∀ p, p ∈ paths → readable p ∧ owns_path p = true) → cache_good cache →
  ∃ mtimes n e, collect_changed_rust_owned_file_batch meta cache paths =
    (item_of true <$> filter (to_store meta cache) paths, mtimes, n, e, []).
Proof.
  intros Hnd Hp Hc. unfold collect_changed_rust_owned_file_batch. rewrite (take_cached_spec cache paths Hnd). clear Hnd.
  assert (Hg : ∀ b m n e, ∃ m' n' e',
    foldl (λ '(batch, mtimes, nodes, edges, errors) '(path, entry),
      let '(item, mtime, error) := changed_item meta path entry in
      match item with
      | Some item => (batch ++ [item], mtimes ++ mtime, nodes + length (item_nodes _ _ item),
                      edges + length (item_edges _ _ item), errors ++ error)
      | None => (batch, mtimes ++ mtime, nodes, edges, errors ++ error)
      end) (b, m, n, e, []) ((λ p, (p, cache !! p)) <$> paths) =
    (b ++ (item_of true <$> filter (to_store meta cache) paths), m', n', e', [])); [|apply (Hg [] [] 0 0)].
  induction paths as [|p paths IH]; intros b m n e; [exists m, n, e; cbn; by rewrite app_nil_r|].
  rewrite fmap_cons. cbn [foldl]. destruct (Hp p) as [Hr Ho]; [left|].
  rewrite (changed_item_spec meta cache p Hr Ho Hc), filter_cons.
  assert (Hp' : ∀ q, q ∈ paths → readable q ∧ owns_path q = true) by (intros q Hq; apply Hp; by right).
  case_decide; cbn [app].
  - rewrite !app_nil_r. destruct (IH Hp' (b ++ [item_of true p]) m (n + length (item_nodes _ _ (item_of true p)))
      (e + length (item_edges _ _ (item_of true p)))) as (m' & n' & e' & ->).
    exists m', n', e'. by rewrite <-app_assoc.
  - destruct (IH Hp' b (m ++ [(p, mtime_or_zero p)]) n e) as (m' & n' & e' & ->). by exists m', n', e'.
Qed.

(** A forced or checked file ends up fresh, or its hash stood already. *)
Definition settled (s s' : G) (q : string) : Prop :=
  fresh s' q ∨ (holds s' q = holds s q ∧ fst <$> holds s q = Some (sha256_hex (source q))).

Lemma parse_changed_spec cache r paths s :
  valid s → NoDup paths → (∀ p, p ∈ paths → readable p ∧ owns_path p = true) → cache_good cache →
  ∃ s' r', parse_changed (cache, r) paths s = (s', inl (filter (λ p : string * Cached, p.1 ∉ paths) cache, r')) ∧
    errors r' = errors r ∧ advances s s' paths ∧ ∀ q, q ∈ paths → settled s s' q.
Proof using Type L parse_storable hash_digits.
  intros Hv Hnd Hp Hc. unfold parse_changed. case_bool_decide as Hnil.
  { subst paths. exists s, r. assert (Hid : filter (λ p : string * Cached, p.1 ∉ []) cache = cache).
    { apply map_filter_id. intros i x _. apply not_elem_of_nil. }
    rewrite Hid. split; [done|]. split; [done|]. split; [by apply advances_refl|]. by intros q ?%not_elem_of_nil. }
  unfold mbind, M_bind, gets, modify. set (meta := get_file_meta_for_files paths s).
  set (mine := filter (λ p : string * Cached, p.1 ∈ paths) cache).
  assert (Hc' : cache_good mine) by (intros p c [Hpc _]%map_lookup_filter_Some; by apply Hc).
  destruct (collect_changed_spec meta mine paths Hnd Hp Hc') as (mtimes & n & e & ->).
  cbv beta iota. pose proof (update_mtimes_advances mtimes s Hv) as Ha1.
  destruct (store_items true (filter (to_store meta mine) paths) n e r (update_file_mtimes mtimes s) (proj1 Ha1))
    as (s' & r' & Hs & He & Ha2 & Hf); [by apply NoDup_filter| |].
  { intros p [_ Hin]%list_elem_of_filter. by apply Hp. }
  exists s', r'. split; [by rewrite Hs|]. split; [done|]. pose proof (advances_trans _ _ _ _ _ Ha1 Ha2) as Ha.
  split; [eapply advances_weaken; [|exact Ha]; by intros q [_ ?]%list_elem_of_filter|].
  intros q Hq. destruct (decide (to_store meta mine q)) as [Hst|Hst].
  - left. apply Hf. by apply list_elem_of_filter.
  - destruct Ha as [_ Ha]. destruct (Ha q) as [Heq|[[? _]%list_elem_of_filter _]]; [|done].
    right. split; [done|]. apply (meta_stands paths s q (source q) Hv Hq). fold meta.
    destruct (decide (fst <$> meta !! q = Some (sha256_hex (source q)))) as [|Hn]; [done|]. destruct Hst. by right.
Qed.

(** The lists of a plan are of readable files, owned or not. *)
Record plan_good (p : Plan) : Prop := {
  pg_full : NoDup (rust_full p) ∧ ∀ q, q ∈ rust_full p → readable q ∧ owns_path q = true;
  pg_forced : NoDup (rust_forced p) ∧ ∀ q, q ∈ rust_forced p → readable q ∧ owns_path q = true;
  pg_checked : NoDup (rust_checked p) ∧ ∀ q, q ∈ rust_checked p → readable q ∧ owns_path q = true;
  pg_unowned : NoDup (unowned p) ∧ ∀ q, q ∈ unowned p → readable q ∧ owns_path q = false;
  pg_cached : cache_good (cached p)
}.

Definition planned (p : Plan) : list string := rust_full p ++ rust_forced p ++ rust_checked p ++ unowned p.

(** The hash held of a file tells whether its data are those of its bytes. *)
Definition honest (s : G) (q : string) : Prop := fst <$> holds s q = Some (sha256_hex (source q)) → fresh s q.

Lemma honest_advances s s' l q : advances s s' l → honest s q → honest s' q.
Proof.
  intros [_ Ha] Hh Hq. destruct (Ha q) as [Heq|[_ ?]]; [|done]. unfold honest, fresh in *. rewrite Heq in *. by apply Hh.
Qed.

Lemma settled_fresh s s' q : honest s q → settled s s' q → fresh s' q.
Proof. intros Hh [|[Heq Hq]]; [done|]. unfold fresh. rewrite Heq. by apply Hh. Qed.

Lemma parse_planned_spec p r s :
  valid s → plan_good p →
  ∃ s' r', parse_planned p r s = (s', inl r') ∧ errors r' = errors r ∧ advances s s' (planned p) ∧
    ∀ q, (q ∈ rust_full p ∨ q ∈ unowned p → fresh s' q) ∧
         (q ∈ rust_forced p ∨ q ∈ rust_checked p → honest s q → fresh s' q).
Proof using Type L parse_storable hash_digits.
  intros Hv [[Hn1 H1] [Hn2 H2] [Hn3 H3] [Hn4 H4] Hc]. unfold parse_planned.
  destruct (store_chunks (length (rust_full p)) (rust_full p) r s Hv Hn1 H1) as (s1 & r1 & Hs1 & He1 & Ha1 & Hf1); [done|].
  destruct (parse_changed_spec (cached p) r1 (rust_forced p) s1 (proj1 Ha1) Hn2 H2 Hc) as (s2 & r2 & Hs2 & He2 & Ha2 & Hf2).
  set (cache2 := filter _ (cached p)) in Hs2.
  assert (Hc2 : cache_good cache2) by (intros q c [Hq _]%map_lookup_filter_Some; by apply Hc).
  destruct (parse_changed_spec cache2 r2 (rust_checked p) s2 (proj1 Ha2) Hn3 H3 Hc2) as (s3 & r3 & Hs3 & He3 & Ha3 & Hf3).
  destruct (store_rest (unowned p) r3 s3 (proj1 Ha3) Hn4 H4) as (s4 & r4 & Hs4 & He4 & Ha4 & Hf4).
  exists s4, r4. unfold mbind, M_bind. rewrite Hs1. cbn [foldM]. unfold mbind, M_bind. rewrite Hs2, Hs3. cbn [mret M_ret snd].
  split; [exact Hs4|]. split; [congruence|].
  pose proof (advances_trans _ _ _ _ _ Ha3 Ha4) as Ha34. pose proof (advances_trans _ _ _ _ _ Ha2 Ha34) as Ha24.
  split; [exact (advances_trans _ _ _ _ _ Ha1 Ha24)|]. intros q. split.
  - intros [Hq|Hq]; [by eapply advances_fresh, Hf1|by apply Hf4].
  - intros [Hq|Hq] Hh.
    + eapply advances_fresh; [exact Ha34|]. eapply settled_fresh; [|by apply Hf2]. by eapply honest_advances.
    + eapply advances_fresh; [exact Ha4|]. eapply settled_fresh; [|by apply Hf3].
      eapply honest_advances; [exact Ha2|]. by eapply honest_advances.
Qed.

(** *** The classification *)

(** A path of the scope that is given to a parser, and one that a look at the
    changes takes out of the graph. *)
Definition parseable (indexable : gset string) (p : string) : Prop := p ∈ indexable ∧ candidate_kind p = Some true.
Definition unparseable (indexable : gset string) (p : string) : Prop := candidate_kind p = Some false ∨ p ∉ indexable.

Lemma filter_candidates_spec paths indexable :
  let '(candidates, removed) := filter_candidates paths indexable in
  NoDup candidates ∧
  (∀ p, p ∈ candidates ↔ p ∈ paths ∧ parseable indexable p) ∧
  (∀ p, p ∈ removed ↔ p ∈ paths ∧ unparseable indexable p).
Proof.
  unfold filter_candidates, filter_incremental_candidates. split_and!.
  - do 2 apply NoDup_filter. apply NoDup_ascending.
  - intros p. unfold parseable. rewrite !list_elem_of_filter, elem_of_ascending. clear. tauto.
  - intros p. unfold unparseable. rewrite elem_of_app, !list_elem_of_filter, elem_of_ascending. clear. tauto.
Qed.

Lemma elem_of_firsts x l : x ∈ firsts l ↔ x ∈ l.
Proof.
  clear. induction l as [|y l IH]; [done|]. cbn [firsts]. rewrite !elem_of_cons, list_elem_of_filter, IH.
  destruct (decide (x = y)); tauto.
Qed.

Lemma indexed_only_elem s l p : valid s → p ∈ indexed_only s l ↔ p ∈ l ∧ indexed s p.
Proof using Type L.
  intros Hv. unfold indexed_only. case_bool_decide as Hl.
  { subst l. split; [by intros ?%not_elem_of_nil|by intros [?%not_elem_of_nil _]]. }
  rewrite list_elem_of_filter. split; intros [H1 H2]; (split; [by first [exact H1|exact H2|apply (meta_indexed l s p Hv)]|]);
    by first [exact H1|apply (meta_indexed l s p Hv)].
Qed.

(** A changed path of the scope is parsed when its hash no longer stands. *)
Definition hash_stands (s : G) (p : string) : Prop := fst <$> holds s p = Some (sha256_hex (source p)).

#[local] Instance hash_stands_dec s p : Decision (hash_stands s p).
Proof. unfold hash_stands. apply _. Defined.

Definition bytes_of (p : string) : Cached := (source p, sha256_hex (source p), mtime_or_zero p).

Lemma classify_batch_spec s l k :
  valid s → (∀ p, p ∈ k → p ∈ l ∧ readable p ∧ owns_path p = true) →
  ∃ mtimes, classify_changed_rust_owned_file_batch (get_file_meta_for_files l s) k =
    ((λ p, (p, bytes_of p)) <$> filter (λ p, ¬ hash_stands s p) k, mtimes, []).
Proof using Type L hash_digits.
  intros Hv Hk. unfold classify_changed_rust_owned_file_batch.
  assert (Hg : ∀ c m, ∃ m',
    foldl (λ '(changed, mtimes, errors) path,
      let '(source, mtime, error) := changed_rust_owned_file_source (get_file_meta_for_files l s) path in
      match source with
      | Some c =>
          if negb (rust_parser_owns_source path c.1.1)
          then (changed, mtimes ++ mtime, errors ++ error ++ [(path, "unsupported Rust parser path")])
          else (changed ++ [(path, c)], mtimes ++ mtime, errors ++ error)
      | None => (changed, mtimes ++ mtime, errors ++ error)
      end) (c, m, []) k = (c ++ ((λ p, (p, bytes_of p)) <$> filter (λ p, ¬ hash_stands s p) k), m', []));
    [|apply (Hg [] [])].
  induction k as [|p k IH]; intros c m; [exists m; by rewrite app_nil_r|].
  destruct (Hk p) as (Hl & Hr & Ho); [left|]. assert (Hk' : ∀ q, q ∈ k → q ∈ l ∧ readable q ∧ owns_path q = true).
  { intros q Hq. apply Hk. by right. }
  cbn [foldl]. unfold changed_rust_owned_file_source at 2.
  rewrite (readable_mtime p Hr), (readable_read p Hr), (bool_decide_ext _ _ (meta_stands l s p (source p) Hv Hl)), filter_cons.
  case_bool_decide as Hh.
  - rewrite decide_False by (intros Hn; by apply Hn). cbn [app]. by apply IH.
  - rewrite decide_True by done. cbn [fst]. rewrite (readable_owned p Hr Ho). cbn [negb app fmap list_fmap].
    rewrite app_nil_r. destruct (IH Hk' (c ++ [(p, bytes_of p)]) m) as [m' Hm]. exists m'.
    rewrite <-app_assoc in Hm. exact Hm.
Qed.

Lemma content_state_changed s l p :
  valid s → p ∈ l → readable p →
  content_state p (get_file_meta_for_files l s !! p) false = Changed ↔ ¬ hash_stands s p.
Proof using Type L hash_digits.
  intros Hv Hl Hr. unfold content_state. rewrite (readable_mtime p Hr), (readable_read p Hr). cbn [andb].
  rewrite (bool_decide_ext _ _ (meta_stands l s p (source p) Hv Hl)). unfold hash_stands. by case_bool_decide.
Qed.

(** What the classification of a change makes of a scope whose parseable files
    can be read. *)
Record classified (s : G) (changed_set indexable : gset string) (stale : list string) (c : Classified) : Prop := {
  cl_errors : c_errors c = [];
  cl_cached : cache_good (c_cached c);
  cl_removed : ∀ p, p ∈ c_removed c ↔ (p ∈ changed_set ∧ unparseable indexable p ∧ indexed s p) ∨ p ∈ stale;
  cl_changed : ∀ p, p ∈ c_changed c ↔ p ∈ changed_set ∧ parseable indexable p ∧ ¬ hash_stands s p;
  cl_rust : ∀ p, p ∈ c_rust_changed c ↔ p ∈ c_changed c ∧ owns_path p = true
}.

Lemma fst_paired {A} (f : string → A) l : ((λ p, (p, f p)) <$> l).*1 = l.
Proof. clear. induction l as [|p l IH]; [done|]. rewrite !fmap_cons, IH. done. Qed.

Lemma classify_spec s changed_set indexable stale :
  valid s → (∀ p, parseable indexable p → readable p) →
  classified s changed_set indexable stale (classify s changed_set indexable stale).
Proof using Type L hash_digits.
  intros Hv Hread. unfold classify. pose proof (filter_candidates_spec changed_set indexable) as Hc.
  destruct (filter_candidates changed_set indexable) as [candidates removed]. destruct Hc as (Hnd & Hin & Hrem).
  set (rust := filter (λ p, owns_path p = true) candidates). set (rest := filter (λ p, owns_path p = false) candidates).
  assert (Hrust : ∃ mtimes, (if bool_decide (rust = []) then ([], [], [])
      else classify_changed_rust_owned_file_batch (get_file_meta_for_files rust s) rust) =
      ((λ p, (p, bytes_of p)) <$> filter (λ p, ¬ hash_stands s p) rust, mtimes, [])).
  { case_bool_decide as Hnil; [rewrite Hnil; by eexists|]. apply classify_batch_spec; [done|].
    intros p Hp. split; [done|]. apply list_elem_of_filter in Hp as [Ho [_ Hp]%Hin]. split; [|done]. by apply Hread. }
  destruct Hrust as [mtimes ->].
  assert (Hfst : ((λ p, (p, bytes_of p)) <$> filter (λ p, ¬ hash_stands s p) rust).*1 = filter (λ p, ¬ hash_stands s p) rust).
  { apply fst_paired. }
  rewrite Hfst. split; cbn [c_errors c_cached c_removed c_changed c_rust_changed].
  - done.
  - intros p c Hp. apply elem_of_list_to_map_2, list_elem_of_In, in_rev, list_elem_of_In in Hp.
    by apply list_elem_of_fmap in Hp as (q & [= -> ->] & _).
  - intros p. rewrite elem_of_firsts, elem_of_app, indexed_only_elem, Hrem by done. clear. tauto.
  - intros p. rewrite elem_of_union, !elem_of_list_to_set. unfold rust, rest. rewrite !list_elem_of_filter, Hin. split.
    + intros [(Hs & _ & H1 & H2)|(Hs & Ho & H1 & H2)]; [done|]. split; [done|]. split; [done|].
      apply (content_state_changed s rest p Hv); [|by apply Hread|done].
      apply list_elem_of_filter. split; [done|]. by apply Hin.
    + intros (H1 & H2 & Hs). destruct (owns_path p) eqn:Ho; [by left|right]. split; [|done].
      apply (content_state_changed s rest p Hv); [|by apply Hread|done].
      apply list_elem_of_filter. split; [done|]. by apply Hin.
  - intros p. rewrite elem_of_union, !elem_of_list_to_set. unfold rust, rest. rewrite !list_elem_of_filter. split.
    + intros (Hs & Ho & Hp). by split; [left|].
    + intros [[?|(_ & Ho' & _)] Ho]; [done|]. by rewrite Ho in Ho'.
Qed.

(** *** The plan *)

(** The paths of one fate. *)
Lemma those_filter (f : string → Fate) k (l : list string) :
  fst <$> filter (λ x : string * Fate, x.2 = k) ((λ p, (p, f p)) <$> l) = filter (λ p, f p = k) l.
Proof.
  clear. induction l as [|p l IH]; [done|]. rewrite fmap_cons, !filter_cons. cbn [snd].
  case_decide; [by rewrite fmap_cons, IH|done].
Qed.

Lemma NoDup_firsts l : NoDup (firsts l).
Proof.
  clear. induction l as [|x l IH]; [constructor|]. cbn [firsts]. constructor.
  - by intros [? _]%list_elem_of_filter.
  - by apply NoDup_filter.
Qed.

(** The files to look at again: changed ones and the dependents. *)
Definition looked_at (c : Classified) (indexable : gset string) (dependents : list string) : list string * list string :=
  let all_files := c_changed c ∪ list_to_set (c_removed c) ∪ list_to_set dependents in
  if bool_decide (dependents = []) then (filter (.∈ indexable) (ascending (c_changed c)), [])
  else filter_candidates all_files indexable.

Lemma looked_at_spec c indexable dependents :
  (∀ p, p ∈ c_changed c → parseable indexable p) →
  NoDup (looked_at c indexable dependents).1 ∧
  (∀ p, p ∈ (looked_at c indexable dependents).1 → parseable indexable p) ∧
  (∀ p, p ∈ c_changed c → p ∈ (looked_at c indexable dependents).1) ∧
  (∀ p, p ∈ (looked_at c indexable dependents).2 → unparseable indexable p).
Proof.
  intros Hch. unfold looked_at. case_bool_decide as Hd.
  - cbn [fst snd]. split_and!.
    + apply NoDup_filter, NoDup_ascending.
    + by intros p [_ Hp%elem_of_ascending%Hch]%list_elem_of_filter.
    + intros p Hp. apply list_elem_of_filter. split; [by apply Hch|]. by apply elem_of_ascending.
    + by intros p ?%not_elem_of_nil.
  - pose proof (filter_candidates_spec (c_changed c ∪ list_to_set (c_removed c) ∪ list_to_set dependents) indexable) as Hf.
    destruct (filter_candidates _ indexable) as [ps rs]. destruct Hf as (Hnd & Hps & Hrs). cbn [fst snd]. split_and!; [done| | |].
    + by intros p [_ ?]%Hps.
    + intros p Hp. apply Hps. split; [|by apply Hch]. apply elem_of_union. left. apply elem_of_union. by left.
    + by intros p [_ ?]%Hrs.
Qed.

Record plan_covers (s : G) (c : Classified) (indexable : gset string) (extractor_files : list string) (p : Plan) : Prop := {
  pc_good : plan_good p;
  pc_planned : ∀ q, q ∈ planned p → parseable indexable q ∨ q ∈ extractor_files;
  pc_removed : ∀ q, q ∈ removed p → q ∈ c_removed c ∨ (unparseable indexable q ∧ indexed s q);
  pc_gone : ∀ q, q ∈ c_removed c → q ∈ removed p;
  pc_changed : ∀ q, q ∈ c_changed c → q ∈ rust_forced p ∨ q ∈ unowned p;
  pc_extracted : ∀ q, q ∈ extractor_files → q ∉ c_changed c → q ∈ rust_full p ∨ q ∈ unowned p
}.

Lemma make_plan_removed s c indexable extractor_files dependents q :
  valid s →
  let p := (make_plan s c indexable extractor_files dependents).1 in
  (q ∈ removed p → q ∈ c_removed c ∨ (q ∈ (looked_at c indexable dependents).2 ∧ indexed s q)) ∧
  (q ∈ c_removed c → q ∈ removed p).
Proof using Type L.
  intros Hv. unfold make_plan, looked_at. case_bool_decide as Hd; [cbn [fst removed]; by split; [left|]|].
  destruct (filter_candidates _ indexable) as [ps rs]. cbn [fst snd removed]. rewrite elem_of_firsts, elem_of_app. split.
  - intros [?|Hq]; [by left|]. right. by apply indexed_only_elem in Hq.
  - by left.
Qed.

(** The lists of a plan, with their fates. *)
Lemma make_plan_lists s c indexable extractor_files dependents :
  let p := (make_plan s c indexable extractor_files dependents).1 in
  let full := filter (.∉ c_changed c) extractor_files in
  ∃ cands meta,
    meta = get_file_meta_for_files cands s ∧
    cands = (if bool_decide (extractor_files = []) then (looked_at c indexable dependents).1
             else filter (.∉ full) (looked_at c indexable dependents).1) ∧
    rust_full p = filter (λ q, owns_path q = true) full ∧
    rust_forced p = filter (λ q, fate c meta q = Forced) cands ∧
    rust_checked p = filter (λ q, fate c meta q = Checked) cands ∧
    unowned p = filter (λ q, owns_path q = false) full ++ filter (λ q, fate c meta q = Unowned) cands ∧
    cached p = c_cached c.
Proof.
  intros p full. subst p. unfold make_plan, looked_at. destruct (bool_decide (dependents = [])); [|destruct (filter_candidates _ indexable) as [ps rs]];
    cbn [fst snd rust_full rust_forced rust_checked unowned cached]; eexists _, _; rewrite <-!those_filter; split_and!; reflexivity.
Qed.

Lemma fate_owned c meta q :
  (fate c meta q = Forced ∨ fate c meta q = Checked → owns_path q = true) ∧ (fate c meta q = Unowned → owns_path q = false).
Proof.
  unfold fate. destruct (owns_path q); [split; [done|]|split; [|done]].
  - by case_bool_decide; [|destruct (mtime_matches _ _)].
  - destruct (content_state _ _ _); by intros [|].
Qed.

Lemma make_plan_spec s s0 changed_set indexable stale c extractor_files dependents :
  valid s → classified s0 changed_set indexable stale c → (∀ p, holds s p = holds s0 p) →
  (∀ p, parseable indexable p → readable p) → NoDup extractor_files → (∀ p, p ∈ extractor_files → readable p) →
  plan_covers s c indexable extractor_files (make_plan s c indexable extractor_files dependents).1.
Proof using Type L hash_digits.
  intros Hv [_ Hcache _ Hch Hru] Hh Hread Hnd Hex.
  destruct (looked_at_spec c indexable dependents) as (Hlnd & Hlin & Hlch & Hlrm); [by intros p (_ & ? & _)%Hch|].
  pose proof (λ q, make_plan_removed s c indexable extractor_files dependents q Hv) as Hrm.
  destruct (make_plan_lists s c indexable extractor_files dependents) as (cands & meta & Hmeta & Hc & E1 & E2 & E3 & E4 & E5).
  set (p := (make_plan s c indexable extractor_files dependents).1) in *. set (full := filter (.∉ c_changed c) extractor_files) in *.
  set (looked := (looked_at c indexable dependents).1) in *.
  assert (Hfull : NoDup full ∧ ∀ q, q ∈ full ↔ q ∉ c_changed c ∧ q ∈ extractor_files).
  { split; [by apply NoDup_filter|]. intros q. unfold full. by rewrite list_elem_of_filter. }
  assert (Hcands : NoDup cands ∧ ∀ q, q ∈ cands ↔ q ∈ looked ∧ q ∉ full).
  { rewrite Hc. case_bool_decide as He.
    - split; [done|]. intros q. destruct Hfull as [_ Hfull]. rewrite Hfull, He. split; [|by intros []].
      intros ?. split; [done|]. by intros [_ ?%not_elem_of_nil].
    - split; [by apply NoDup_filter|]. intros q. rewrite list_elem_of_filter. by split; intros []. }
  clear Hc. destruct Hfull as [Hfnd Hfull], Hcands as [Hcnd Hcands].
  assert (Hfin : ∀ q, q ∈ full → readable q ∧ q ∈ extractor_files).
  { intros q [_ Hq]%Hfull. split; [by apply Hex|done]. }
  assert (Hcin : ∀ q, q ∈ cands → readable q ∧ parseable indexable q).
  { intros q [Hq%Hlin _]%Hcands. split; [by apply Hread|done]. }
  split.
  - split; rewrite ?E1, ?E2, ?E3, ?E4, ?E5; [..|done]; (split; [|intros q Hq]).
    + by apply NoDup_filter.
    + apply list_elem_of_filter in Hq as [Ho Hq]. split; [apply (Hfin q Hq)|done].
    + by apply NoDup_filter.
    + apply list_elem_of_filter in Hq as [Ho Hq]. split; [apply (Hcin q Hq)|]. apply (fate_owned c meta). by left.
    + by apply NoDup_filter.
    + apply list_elem_of_filter in Hq as [Ho Hq]. split; [apply (Hcin q Hq)|]. apply (fate_owned c meta). by right.
    + apply NoDup_app. split_and!; [by apply NoDup_filter| |by apply NoDup_filter].
      intros q [_ Hq]%list_elem_of_filter [_ Hq']%list_elem_of_filter. by apply Hcands in Hq' as [_ ?].
    + apply elem_of_app in Hq as [[Ho Hq]%list_elem_of_filter|[Ho Hq]%list_elem_of_filter].
      * split; [apply (Hfin q Hq)|done].
      * split; [apply (Hcin q Hq)|]. by apply (fate_owned c meta).
  - intros q. unfold planned. rewrite E1, E2, E3, E4, !elem_of_app, !list_elem_of_filter.
    intros [[_ Hq]|[[_ Hq]|[[_ Hq]|[[_ Hq]|[_ Hq]]]]]; first [apply Hfin in Hq as []|apply Hcin in Hq as []]; auto.
  - intros q Hq. apply Hrm in Hq as [Hq|[Hq Hi]]; [by left|]. right. split; [by apply Hlrm|done].
  - intros q Hq. by apply Hrm.
  - intros q Hq. assert (Hin : q ∈ cands).
    { apply Hcands. split; [by apply Hlch|]. by intros [? _]%Hfull. }
    rewrite E2, E4, elem_of_app, !list_elem_of_filter. destruct (owns_path q) eqn:Ho; [left|right; right]; (split; [|done]); unfold fate; rewrite Ho.
    + rewrite bool_decide_eq_true_2; [done|]. by apply Hru.
    + rewrite bool_decide_eq_true_2 by done. apply Hch in Hq as (_ & Hq & Hs). cbn [negb].
      pose proof (content_state_changed s cands q Hv Hin (Hread q Hq)) as Hcs. rewrite <-Hmeta in Hcs.
      destruct Hcs as [_ Hcs]. rewrite Hcs; [done|]. unfold hash_stands. by rewrite Hh.
  - intros q Hq Hn. rewrite E1, E4, elem_of_app, !list_elem_of_filter, Hfull.
    destruct (owns_path q); [by left|]. right. by left.
Qed.

(** *** Applying it *)

Lemma covers_advances (covers : bool) s : valid s → advances s (if covers then store_vcs_metadata s else s) [].
Proof using Type L. intros Hv. destruct covers; [by apply store_vcs_advances|by apply advances_refl]. Qed.

(** What parsing a plan does to the files of a graph that holds them. *)
Definition plan_done (p : Plan) (s s' : G) : Prop :=
  advances s s' (planned p) ∧
  ∀ q, (q ∈ rust_full p ∨ q ∈ unowned p → fresh s' q) ∧
       (q ∈ rust_forced p ∨ q ∈ rust_checked p → honest s q → fresh s' q).

Lemma plan_done_surround p s0 s s' s1 :
  advances s0 s [] → advances s' s1 [] → plan_done p s s' → plan_done p s0 s1.
Proof.
  intros H0 H1 [Ha Hf]. pose proof (advances_trans _ _ _ _ _ H0 (advances_trans _ _ _ _ _ Ha H1)) as Hall.
  split; [eapply advances_weaken; [|exact Hall]; intros q; by rewrite app_nil_r|].
  intros q. destruct (Hf q) as [Hf1 Hf2]. split.
  - intros Hq. by eapply advances_fresh, Hf1.
  - intros Hq Hh. eapply advances_fresh; [exact H1|]. apply Hf2; [done|]. by eapply honest_advances.
Qed.

Lemma plan_done_nothing p s s' : parse_count p = 0 → advances s s' [] → plan_done p s s'.
Proof.
  unfold parse_count. intros Hp Ha. unfold plan_done, planned.
  destruct (rust_full p), (rust_forced p), (rust_checked p), (unowned p); cbn [length] in Hp; try lia.
  split; [done|]. intros q. split; intros [Hq|Hq]; by apply not_elem_of_nil in Hq.
Qed.

Lemma bulk_advances (bulk : bool) (f : G → G) s :
  (∀ s, valid s → valid (f s) ∧ held (f s) = held s) → valid s →
  ∃ s', when bulk (modify f) s = (s', inl tt) ∧ advances s s' [].
Proof.
  intros Hf Hv. destruct bulk.
  - exists (f s). split; [done|]. destruct (Hf s Hv). by apply same_held_advances.
  - exists s. split; [done|]. by apply advances_refl.
Qed.

Lemma apply_plan_spec covers p r s :
  valid s → plan_good p →
  ∃ s' r', apply_plan covers p r s = (s', inl r') ∧ errors r' = errors r ∧
    plan_done p (remove_files_data (removed p) s) s'.
Proof using Type L parse_storable hash_digits.
  intros Hv Hg. unfold apply_plan. unfold mbind, M_bind, modify at 1 2. cbv beta iota.
  set (s1 := remove_files_data (removed p) s). assert (Hv1 : valid s1) by apply (remove_held _ s Hv).
  pose proof (update_mtimes_advances (mtime_only p) s1 Hv1) as H2. set (s2 := update_file_mtimes (mtime_only p) s1) in *.
  destruct (parse_count p =? 0) eqn:Hn.
  { apply Nat.eqb_eq in Hn. eexists _, _. split; [reflexivity|]. split; [done|]. apply plan_done_nothing; [done|].
    exact (advances_trans _ _ _ [] [] H2 (covers_advances covers s2 (proj1 H2))). }
  set (bulk := BULK_LOAD_FILE_THRESHOLD <=? parse_count p).
  destruct (bulk_advances bulk begin_bulk_load s2) as (s3 & Hs3 & H3); [apply begin_held|apply H2|].
  rewrite Hs3. destruct (parse_planned_spec p r s3 (proj1 H3) Hg) as (s4 & r4 & Hs4 & He4 & Ha4 & Hf4). rewrite Hs4.
  set (s5 := if bulk then finish_bulk_load s4 else s4).
  assert (H5 : advances s4 s5 []).
  { unfold s5. destruct bulk; [|apply advances_refl, Ha4]. destruct (finish_held s4 (proj1 Ha4)). by apply same_held_advances. }
  pose proof (final_metadata "incremental" s5 (proj1 H5)) as H6. pose proof (covers_advances covers _ (proj1 H6)) as H7.
  eexists _, _. split; [reflexivity|]. split; [done|].
  eapply plan_done_surround; [exact (advances_trans _ _ _ [] [] H2 H3)| |by split].
  exact (advances_trans _ _ _ [] [] H5 (advances_trans _ _ _ [] [] H6 H7)).
Qed.

(** ** The update brings the graph up to date *)

Definition scope : gset string := list_to_set (default parseable_files vcs_scope).

(** The files of the scope an outdated extractor has parsed again. *)
Definition due (s : G) : list string := (extractor_reparse_scope (set_metadata "repo_root" repo_root s) scope).2.

(** What an update relies on: the files it hands to a parser can be read.  The
    scope of a git checkout also lists files no parser handles. *)
Record updatable (s : G) : Prop := {
  up_valid : valid s;
  up_parseable : ∀ p, parseable scope p → readable p;
  up_due : ∀ p, p ∈ due s → readable p
}.

(** What an update makes of the data of a path, given the paths it is told of. *)
Record updated_path (s : G) (changed : list string) (s' : G) (p : string) : Prop := {
  to_outside : p ∉ scope → holds s' p = None;
  to_due : p ∈ due s → fresh s' p;
  to_changed : parseable scope p → p ∈ changed → ¬ hash_stands s p → fresh s' p;
  to_parseable : parseable scope p → holds s' p = holds s p ∨ fresh s' p;
  to_unparsed : p ∈ scope → candidate_kind p ≠ Some true → p ∉ due s →
    holds s' p = holds s p ∨ (candidate_kind p = Some false ∧ indexed s p ∧ holds s' p = None);
  to_removed : p ∈ changed → candidate_kind p = Some false → indexed s p → p ∉ due s → holds s' p = None
}.

(** A graph that a change keeps up to date: a file a parser handles is due for a
    newer extractor, or untouched and fresh, or touched with a stored hash that
    tells the truth; another file of the scope is not due, and is among the
    changed paths, and out of the reach of a parser, when rows of it are held. *)
Definition kept_up (s : G) (changed : list string) : Prop :=
  ∀ p, p ∈ scope →
    (candidate_kind p = Some true →
       p ∈ due s ∨ (p ∉ changed ∧ fresh s p) ∨ (p ∈ changed ∧ honest s p)) ∧
    (candidate_kind p ≠ Some true →
       p ∉ due s ∧ (indexed s p → p ∈ changed ∧ candidate_kind p = Some false)).

(** A fresh row for each file of the scope a parser handles, and what is held
    without a hash of the others. *)
Definition up_to_date (s : G) (p : string) : option (string * Data) :=
  if decide (p ∈ scope) then
    if decide (candidate_kind p = Some true) then Some (current p) else if decide (indexed s p) then None else holds s p
  else None.

Lemma kept_up_path s changed s' p :
  kept_up s changed → updated_path s changed s' p → holds s' p = up_to_date s p.
Proof.
  intros Hk [Hout Hdue Hch Hpar Hun Hrm]. unfold up_to_date. case_decide as Hp; [|by apply Hout].
  destruct (Hk p Hp) as [Hk1 Hk2]. case_decide as Hc.
  - destruct (Hk1 Hc) as [?|[[_ Hf]|[Hin Hh]]]; [by apply Hdue| |].
    + destruct (Hpar (conj Hp Hc)) as [->|?]; done.
    + destruct (decide (hash_stands s p)) as [Hs|Hs]; [|by apply Hch].
      destruct (Hpar (conj Hp Hc)) as [->|?]; [by apply Hh|done].
  - destruct (Hk2 Hc) as [Hd Hi]. case_decide as Hx.
    + destruct (Hi Hx). by apply Hrm.
    + destruct (Hun Hp Hc Hd) as [?|(_ & ? & _)]; done.
Qed.

Lemma reparse_scope_spec s indexable :
  NoDup (extractor_reparse_scope s indexable).2 ∧ ∀ p, p ∈ (extractor_reparse_scope s indexable).2 → p ∈ indexable.
Proof.
  unfold extractor_reparse_scope. case_bool_decide; cbn [snd].
  - split; [constructor|]. by intros p ?%not_elem_of_nil.
  - split; [apply NoDup_ascending|]. by intros p [_ ?]%elem_of_ascending%elem_of_filter.
Qed.

Lemma stale_spec s p : valid s → (p ∈ (indexable_scope s).2 ↔ p ∉ scope ∧ is_Some (holds s p)).
Proof using Type L.
  intros Hv. unfold indexable_scope. cbn [snd]. by rewrite elem_of_sort_by, list_elem_of_filter, all_files_hold.
Qed.

(** The files of a plan, removed or parsed, against a scope. *)
Lemma plan_updates s s2 s' changed c stale ex p :
  valid s2 → (∀ q, holds s2 q = holds s q) → (∀ q, q ∈ stale ↔ q ∉ scope ∧ is_Some (holds s q)) → ex = due s →
  (∀ q, q ∈ due s → q ∈ scope) →
  classified s2 (list_to_set changed) scope stale c → plan_covers s2 c scope ex p →
  plan_done p (remove_files_data (removed p) s2) s' → ∀ q, updated_path s changed s' q.
Proof using Type L hash_digits.
  intros Hv2 Hh2 Hstale -> Hdue [_ _ Hcs Hcc _] [_ Hpl Hrm Hgone Hch Hext] [Ha' Hf'] q.
  destruct (remove_holds (removed p) s2 q Hv2) as [_ Hq3]. set (s3 := remove_files_data (removed p) s2) in *.
  assert (Hix : indexed s2 q ↔ indexed s q) by (unfold indexed; by rewrite Hh2).
  assert (Hout : q ∈ removed p → q ∉ scope ∨ (candidate_kind q = Some false ∧ indexed s q)).
  { intros [[(_ & [?|?] & ?%Hix)|[? _]%Hstale]%Hcs|[[?|?] ?%Hix]]%Hrm; auto. }
  assert (Hstays : parseable scope q → holds s3 q = holds s q).
  { intros [Hq Hk]. rewrite Hq3, decide_False; [apply Hh2|]. intros [?|[? _]]%Hout; congruence. }
  assert (Hfresh : q ∈ c_changed c → fresh s' q).
  { intros Hqc. destruct (proj1 (Hcc q) Hqc) as (_ & Hp & Hn). destruct (Hf' q) as [Hf1 Hf2].
    destruct (Hch q Hqc) as [?|?]; [|apply Hf1; by right]. apply Hf2; [by left|]. intros Hs. destruct Hn.
    unfold hash_stands. by rewrite Hh2, <-(Hstays Hp). }
  split.
  - intros Hq. destruct (proj2 Ha' q) as [->|[Hin _]]; [|by apply Hpl in Hin as [[? _]|?%Hdue]].
    rewrite Hq3. case_decide as Hr'; [done|]. rewrite Hh2. destruct (holds s q) as [x|] eqn:Hx; [|done].
    exfalso. apply Hr', Hgone, Hcs. right. apply Hstale. split; [done|by eexists].
  - intros Hq. destruct (decide (q ∈ c_changed c)) as [Hqc|Hqc]; [by apply Hfresh|]. apply (proj1 (Hf' q)). by apply Hext.
  - intros Hp Hin Hn. apply Hfresh, Hcc. split; [by apply elem_of_list_to_set|]. split; [done|]. unfold hash_stands. by rewrite Hh2.
  - intros Hp. destruct (proj2 Ha' q) as [Hq|[_ ?]]; [|by right]. left. by rewrite Hq, Hstays.
  - intros Hq Hk Hd. destruct (proj2 Ha' q) as [->|[Hin _]]; [|by apply Hpl in Hin as [[_ ?]|?]].
    rewrite Hq3. case_decide as Hr'; [|left; apply Hh2]. right. destruct (Hout Hr') as [?|[? ?]]; [done|by split_and!].
  - intros Hin Hk Hi Hd. destruct (proj2 Ha' q) as [->|[Hp _]]; [|apply Hpl in Hp as [[_ ?]|?]; [congruence|done]].
    rewrite Hq3, decide_True; [done|]. apply Hgone, Hcs. left. split; [by apply elem_of_list_to_set|].
    split; [by left|]. by apply Hix.
Qed.

(** The update from its classification on. *)
Lemma pipeline_tail s s1 s2 changed c stale covers dependents n reported :
  updatable s → valid s1 → (∀ p, holds s1 p = holds s p) → (∀ p, p ∈ stale ↔ p ∉ scope ∧ is_Some (holds s p)) →
  classified s1 (list_to_set changed) scope stale c → advances s1 s2 [] →
  ∃ s' r', apply_plan covers (make_plan s2 c scope (due s) dependents).1 (mkReport n 0 0 reported dependents (c_errors c)) s2 = (s', inl r') ∧
    valid s' ∧ errors r' = [] ∧ ∀ p, updated_path s changed s' p.
Proof using Type L parse_storable hash_digits.
  intros [Hv Hread Hdread] Hv1 Hh1 Hstale Hc H2.
  destruct (reparse_scope_spec (set_metadata "repo_root" repo_root s) scope) as [Hdnd Hdin]. fold (due s) in Hdnd, Hdin.
  assert (Hh2 : ∀ p, holds s2 p = holds s1 p) by (intros p; by apply advances_nil).
  pose proof (make_plan_spec s2 s1 _ scope stale c (due s) dependents (proj1 H2) Hc Hh2 Hread Hdnd Hdread) as Hpc.
  set (p := (make_plan s2 c scope (due s) dependents).1) in *.
  destruct (apply_plan_spec covers p (mkReport n 0 0 reported dependents (c_errors c)) s2 (proj1 H2) (pc_good _ _ _ _ _ Hpc))
    as (s' & r' & Hs' & He' & Hdone).
  exists s', r'. split; [done|]. split; [apply Hdone|]. split; [rewrite He'; apply Hc|].
  apply (plan_updates s s2 s' changed c stale (due s) p (proj1 H2)); [|done|done|done| |done..].
  - intros q. by rewrite Hh2.
  - destruct Hc as [H_1 H_2 H_3 H_4 H_5]. split; [done|done| | |done].
    + intros q. rewrite H_3. unfold indexed. by rewrite Hh2.
    + intros q. rewrite H_4. unfold hash_stands. by rewrite Hh2.
Qed.

(** An update that finds nothing to do. *)
Lemma nothing_updated s s' :
  (∀ p, holds s' p = holds s p) → (∀ p, p ∉ scope → holds s p = None) → due s = [] →
  ∀ p, updated_path s [] s' p.
Proof.
  intros Hh Hout Hd p. split; try (by intros ?%not_elem_of_nil).
  - intros Hp. by rewrite Hh, Hout.
  - rewrite Hd. by intros ?%not_elem_of_nil.
  - by intros _ ?%not_elem_of_nil.
  - by left.
  - by left.
Qed.

Lemma run_pipeline_updates s resolved changed :
  updatable s →
  ∃ s' r, run_pipeline resolved changed s = (s', inl r) ∧ valid s' ∧ errors r = [] ∧
    ∀ p, updated_path s (expand_changed_submodules changed) s' p.
Proof using Type L parse_storable hash_digits.
  intros Hup. pose proof (up_valid _ Hup) as Hv. unfold run_pipeline, mbind, M_bind, modify, gets. cbv beta iota.
  pose proof (set_metadata_advances "repo_root" repo_root s Hv) as H0. set (s0 := set_metadata "repo_root" repo_root s) in *.
  set (covers := diff_covers_graph_commit resolved s0). destruct (indexable_scope s0) as [indexable stale] eqn:Hsc.
  assert (Hi : indexable = scope) by (unfold indexable_scope in Hsc; by injection Hsc).
  pose proof (λ p, stale_spec s0 p (proj1 H0)) as Hst. rewrite Hsc in Hst. cbn [snd] in Hst. subst indexable.
  assert (Hh0 : ∀ p, holds s0 p = holds s p) by (intros p; by apply advances_nil).
  assert (Hstale : ∀ p, p ∈ stale ↔ p ∉ scope ∧ is_Some (holds s p)) by (intros p; by rewrite Hst, Hh0).
  destruct (extractor_reparse_scope s0 scope) as [outdated ex] eqn:Hex.
  assert (Hexs : ex = due s) by (unfold due; fold s0; by rewrite Hex).
  destruct (bulk_advances (negb (bool_decide (outdated = [])) && bool_decide (ex = []))
    (set_metadata "extractor_versions" extractor_versions_stamp) s0) as (s1 & Hs1 & H1); [intros; by apply set_metadata_held|apply H0|].
  unfold modify in Hs1. rewrite Hs1. assert (Hh1 : ∀ p, holds s1 p = holds s p) by (intros p; by rewrite (advances_nil _ _ p H1)).
  destruct (bool_decide (changed = []) && bool_decide (stale = []) && bool_decide (ex = [])) eqn:Hnone.
  - apply andb_true_iff in Hnone as [Hnone He%bool_decide_eq_true]. apply andb_true_iff in Hnone as [Hc%bool_decide_eq_true Hs%bool_decide_eq_true].
    pose proof (covers_advances covers s1 (proj1 H1)) as H2. eexists _, _. split; [reflexivity|]. split; [apply H2|]. split; [done|].
    subst changed stale. apply nothing_updated; [|  |congruence].
    + intros p. by rewrite (advances_nil _ _ p H2).
    + intros p Hp. destruct (holds s p) as [x|] eqn:Hx; [|done]. exfalso. apply (not_elem_of_nil p), Hstale. split; [done|by eexists].
  - set (c := classify s1 (list_to_set (expand_changed_submodules changed)) scope stale).
    pose proof (classify_spec s1 (list_to_set (expand_changed_submodules changed)) scope stale (proj1 H1) (up_parseable _ Hup)) as Hcl.
    pose proof (update_mtimes_advances (c_mtimes c) s1 (proj1 H1)) as H2. set (s2 := update_file_mtimes (c_mtimes c) s1) in *.
    set (dependents := find_dependents s2 (list_to_set (c_removed c) ∪ c_changed c)).
    destruct (make_plan s2 c scope ex dependents) as [plan updated] eqn:Hp. subst ex.
    destruct (pipeline_tail s s1 s2 (expand_changed_submodules changed) c stale covers dependents updated (expand_changed_submodules changed)
      Hup (proj1 H1) Hh1 Hstale Hcl H2) as (s' & r & Hs' & Hrest). rewrite Hp in Hs'. by exists s', r.
Qed.

(** C4: An update succeeds without errors, and settles every path, when the files
    it hands to a parser can be read - those of the scope that a parser handles,
    and those due for a newer extractor - for every mix of changed, removed and
    submodule paths, dependents and outdated extractors, cached bytes and batches.
    Nothing outside the scope is held any more.  A file due for a newer extractor
    is fresh, that is, held with the hash of its bytes and the data its parser
    reads from them, and so is a changed file that a parser handles and whose
    stored hash no longer stands; any other file a parser handles stays as it was
    or is fresh.  A file of the scope that no parser handles, as a git scope lists
    manifests and licences, keeps what is held of it, rows without a hash
    included, unless rows of a former parse are held and a look finds the file
    unparseable; when it is among the changed paths they always go.  On a graph
    that the change keeps up to date, every file of the scope that a parser handles
    is then fresh, and of the other files only rows without a hash remain. *)
Theorem run_pipeline_current s resolved changed :
  updatable s →
  ∃ s' r, run_pipeline resolved changed s = (s', inl r) ∧ valid s' ∧ errors r = [] ∧
    (∀ p, updated_path s (expand_changed_submodules changed) s' p) ∧
    (kept_up s (expand_changed_submodules changed) → ∀ p, holds s' p = up_to_date s p).
Proof using Type L parse_storable hash_digits.
  intros Hup. destruct (run_pipeline_updates s resolved changed Hup) as (s' & r & Hs & Hv & He & Hall).
  exists s', r. split_and!; [done..|]. intros Hk p. exact (kept_up_path s _ s' p Hk (Hall p)).
Qed.

End graph.
End batches.

(** ** The theorems at work *)

#[local] Existing Instance text_json.

(** A graph of two maps: the files with what is held of them, and the metadata. *)
Definition two_maps : Type :=
  gmap string (string * Z * (list NodeInput * list EdgeInput)) * gmap string string.

Definition two_maps_data (i : Item) : list NodeInput * list EdgeInput := (item_nodes _ _ i, item_edges _ _ i).

#[local] Instance two_maps_graph : FileGraph two_maps := {|
  Data := list NodeInput * list EdgeInput;
  item_data := two_maps_data;
  held s := s.1;
  valid _ := True;
  get_metadata k s := s.2 !! k;
  set_metadata k v s := (s.1, <[k := v]> s.2);
  get_all_files s := fst <$> map_to_list s.1;
  get_file_meta_for_files l s := filter (λ x, x.1 ∈ l ∧ x.2.1 ≠ "") (fst <$> s.1);
  get_direct_dependents _ _ := [];
  languages _ := [];
  update_file_mtimes us s := (foldl put_mtime s.1 us, s.2);
  remove_files_data l s := (filter (λ x, x.1 ∉ l) s.1, s.2);
  begin_bulk_load s := s;
  finish_bulk_load s := s;
  store_file_batch batch s :=
    ((foldl (λ files i, <[item_path _ _ i := (item_hash _ _ i, item_mtime _ _ i, two_maps_data i)]> files) s.1 batch, s.2), inl tt)
|}.

#[local] Instance two_maps_laws : FileGraphLaws two_maps (λ _, True).
Proof.
  split; cbn; try done.
  - by intros [] [] ? ? ?; cbn in *; subst.
  - intros s p _. rewrite list_elem_of_fmap, elem_of_dom. split.
    + intros ([q x] & -> & Hx%elem_of_map_to_list). by eexists.
    + intros [x Hx]. exists (p, x). split; [done|]. by apply elem_of_map_to_list.
  - intros l s p _. unfold meta_of. cbn. rewrite !map_lookup_filter. destruct ((fst <$> s.1) !! p) as [x|]; cbn; [|by case_decide].
    repeat case_guard; case_decide; cbn in *; tauto.
  - intros batch s _ _ _. by eexists.
Qed.

(** A git checkout of [a.py], which the Rust parser owns, [b.md] and a [LICENSE]
    no parser handles; a file parses to one node. *)
Definition demo_read (p : string) : string + string :=
  if bool_decide (p = "a.py") then inl "A2" else if bool_decide (p = "b.md") then inl "B" else inr "missing".
Definition demo_mtime (p : string) : Z + string := inl 5%Z.
Definition demo_hash (source : string) : string := "#" +:+ source.
Definition demo_parse (root : bool) (p source : string) : list NodeInput * list EdgeInput :=
  ([mkNodeInput "File" source p 1 1 "" None None None None false "null"], []).
Definition demo_owns (p : string) : bool := str_ends_with ".py" p.
Definition demo_source (p source : string) : bool := true.
Definition demo_language (p : string) : option string := if bool_decide (p = "LICENSE") then None else Some "x".
Definition demo_files : list string := ["a.py"; "b.md"].

Lemma demo_hash_digits source : demo_hash source ≠ "".
Proof. done. Qed.

(** A graph built before [a.py] changed and [c.py] went, with the row of a
    manifest that a dependency names. *)
Definition demo_stale : two_maps :=
  ({[ "a.py" := ("#A1", 4%Z, ([], [])); "c.py" := ("#C", 4%Z, ([], [])); "go.mod" := ("", 0%Z, ([], []));
      "LICENSE" := ("", 0%Z, ([], [])); "b.md" := ("#B", 4%Z, demo_parse false "b.md" "B") ]}, ∅).

Definition demo_readable : string → Prop :=
  readable demo_mtime demo_read demo_source.

Lemma demo_files_readable p : p ∈ demo_files → demo_readable p.
Proof.
  intros Hp. apply elem_of_cons in Hp as [->|Hp]; [|apply list_elem_of_singleton in Hp as ->].
  - split; [exists "A2"; by vm_compute|]. by exists 5%Z.
  - split; [exists "B"; by vm_compute|]. by exists 5%Z.
Defined.

Lemma full_build_current_witness :
  (∀ p, p ∈ demo_files → demo_readable p) ∧
  ∃ s' r,
    full_build demo_mtime demo_read demo_hash demo_parse demo_owns demo_source (λ _, true) demo_files []
      (λ _, "") "/repo" "now" "main" "f00" Vcs.Git demo_stale = (s', inl r) ∧ holds s' "c.py" = None.
Proof.
  split; [exact demo_files_readable|].
  destruct (full_build_current demo_mtime demo_read demo_hash demo_parse demo_owns demo_source (λ _, true) demo_files []
    (λ _, "") "/repo" "now" "main" "f00" Vcs.Git (λ _, True) (λ _ _ _, I) demo_stale) as (s' & r & Hr & _ & _ & Hh).
  - exact I.
  - apply NoDup_cons. split; [by intros ?%list_elem_of_singleton|apply NoDup_singleton].
  - exact demo_files_readable.
  - exists s', r. split; [exact Hr|]. clear Hr. rewrite (Hh "c.py"). reflexivity.
Defined.

(** [a.py] is parsed again, [c.py] and the manifest of no file go, and what the
    [LICENSE] of the scope is held with stays. *)
Lemma run_pipeline_current_witness :
  ∃ s' r,
    run_pipeline demo_mtime demo_read demo_hash demo_parse demo_owns demo_source (λ _, true) (λ _, false) (λ _, true)
      (λ _, false) (λ _, false) demo_language (λ _, None) (Some ("LICENSE" :: demo_files)) [] [] (λ _, false) (λ _, None) 2
      (λ _, None) (λ _, []) (λ _, "") "/repo" "now" "main" "f00" Vcs.Git None ["a.py"; "gone"] demo_stale = (s', inl r) ∧
    holds s' "c.py" = None ∧ (fst <$> holds s' "a.py") = Some "#A2" ∧ (fst <$> holds s' "LICENSE") = Some "".
Proof.
  assert (Hkind : ∀ p, p ∈ "LICENSE" :: demo_files → p = "LICENSE" ∨ p = "a.py" ∨ p = "b.md").
  { intros p Hp. unfold demo_files in Hp. rewrite !elem_of_cons, elem_of_nil in Hp. tauto. }
  destruct (run_pipeline_current demo_mtime demo_read demo_hash demo_parse demo_owns demo_source (λ _, true) (λ _, false)
    (λ _, true) (λ _, false) (λ _, false) demo_language (λ _, None) (Some ("LICENSE" :: demo_files)) [] [] (λ _, false) (λ _, None) 2
    (λ _, None) (λ _, []) (λ _, "") "/repo" "now" "main" "f00" Vcs.Git (λ _, True) (λ _ _ _, I) demo_hash_digits demo_stale None
    ["a.py"; "gone"]) as (s' & r & Hr & _ & _ & _ & Hh).
  - split; [done| |by intros p ?%not_elem_of_nil]. intros p [Hp%elem_of_list_to_set Hk]. apply demo_files_readable.
    apply elem_of_cons in Hp as [->|?]; [by vm_compute in Hk|done].
  - exists s', r. split; [exact Hr|]. clear Hr. assert (Hk : kept_up demo_mtime demo_read demo_hash demo_parse demo_owns demo_source
      (λ _, true) (λ _, false) (λ _, true) (λ _, false) (λ _, false) demo_language (λ _, None) (Some ("LICENSE" :: demo_files)) []
      [] (λ _, None) (λ _, []) "/repo" demo_stale (expand_changed_submodules (λ _, false) (λ _, None) ["a.py"; "gone"])).
    { intros p Hp%elem_of_list_to_set%Hkind. destruct Hp as [->|[->| ->]]; (split; intros Hk; [|try by destruct Hk]).
      - by vm_compute in Hk.
      - split; [by intros ?%not_elem_of_nil|]. intros Hi. by vm_compute in Hi.
      - right. right. split; [by left|]. intros Hs. by vm_compute in Hs.
      - right. left. split; [by vm_compute; intros Hin; repeat (apply elem_of_cons in Hin as [?|Hin]; [done|]); apply not_elem_of_nil in Hin|]. by vm_compute. }
    specialize (Hh Hk). split_and!; [rewrite (Hh "c.py")|rewrite (Hh "a.py")|rewrite (Hh "LICENSE")]; by vm_compute.
Defined.

End Update.
