(* ===== verification/StoreGraph.v ===== *)
(** * The store as the graph of a build

    The queries a build and an update put to the store (crates/dagayn-graph:
    write.rs, edge_queries.rs, schema.rs, impact_support.rs, analysis_stats.rs),
    and the proof that the store keeps the promises of [Update.FileGraph]: what
    it holds of a file is the hash, modification time, nodes and edges of its
    rows, and every operation does to them what the update relies on. *)
From S2P Require Import Prelude GraphData Store StoreSpec Impact ImpactSpec Update.
Import GraphData Store StoreSpec Impact ImpactSpec.

Module StoreGraph.

#[local] Set Default Proof Using "Type".

Section store_graph.
Context `{Json} {F : Type} (fts_values : option string → NodeRow → F).
Context (canonicalize : string → option string).
(** The clock as a batch and as the metadata read it; rows without [ORDER BY]. *)
Context (now : f64) (stamp : string) (unordered : ∀ A, list A → list A).

#[local] Abbreviation Graph := (GraphStore (F := F)).

(** ** Queries *)

(** Source: crates/dagayn-graph/src/write.rs 62-69 [get_all_files]. *)
Definition get_all_files (s : Graph) : list string :=
  unordered _ (remove_dups (file_path ∘ vals <$> filter (λ r, kind (vals r) = "File") (nodes s))).

Definition meta_row (r : NodeRow) : string * (string * Z) := (file_path (vals r), (file_hash (vals r), mtime_ns (vals r))).

Definition put_row {A} (out : gmap string A) (row : string * A) : gmap string A := <[row.1 := row.2]> out.

(** Source: crates/dagayn-graph/src/write.rs 71-95 [get_file_hashes]. *)
Definition get_file_hashes (paths : list string) (s : Graph) : gmap string string :=
  foldl (λ out chunk, foldl put_row out (unordered _
    ((λ r, (file_path (vals r), file_hash (vals r))) <$> filter (λ r, kind (vals r) = "File" ∧ in_files chunk r) (nodes s))))
    ∅ (chunks 900 paths).

(** Source: crates/dagayn-graph/src/write.rs 117-148 [get_file_meta_for_files]. *)
Definition get_file_meta_for_files (paths : list string) (s : Graph) : gmap string (string * Z) :=
  foldl (λ out chunk, foldl put_row out (unordered _
    (remove_dups (meta_row <$> filter (λ r, file_hash (vals r) ≠ "" ∧ in_files chunk r) (nodes s)))))
    ∅ (chunks 450 paths).

Definition with_mtime (m : Z) (r : NodeRow) : NodeRow :=
  let v := vals r in
  mkNodeRow (node_id r)
    (mkNodeVals (kind v) (name v) (qualified_name v) (file_path v) (line_start v) (line_end v) (language v) (parent_name v)
       (params v) (return_type v) (modifiers v) (is_test v) (file_hash v) m (extra v) (updated_at v))
    (signature r) (community_id r).

(** Source: crates/dagayn-graph/src/write.rs 150-156 [update_file_mtime]. *)
Definition update_file_mtime (s : Graph) (u : string * Z) : Graph :=
  set_nodes ((λ r, if bool_decide (file_path (vals r) = u.1) then with_mtime u.2 r else r) <$> nodes s) (node_seq s) s.

(** Source: crates/dagayn-graph/src/write.rs 158-171 [update_file_mtimes]. *)
Definition update_file_mtimes (updates : list (string * Z)) (s : Graph) : Graph := foldl update_file_mtime s updates.

(** Source: crates/dagayn-graph/src/schema.rs 83-92 [normalize_qualified_key]. *)
Definition normalize_qualified_key (s : Graph) (qn : string) : string :=
  match split_colons qn with
  | Some (path, rest) => normalize_file_path_key canonicalize s path +:+ "::" +:+ rest
  | None => normalize_file_path_key canonicalize s qn
  end.

(** Source: crates/dagayn-graph/src/schema.rs 72-79 [qualified_key_candidates]. *)
Definition qualified_key_candidates (s : Graph) (qn : string) : list string :=
  let normalized := normalize_qualified_key s qn in
  if bool_decide (normalized = qn) then [qn] else [qn; normalized].

(** The first of each key.

    Source: crates/dagayn-graph/src/impact_support.rs 28-39 [expand_file_keys]. *)
Definition expand_file_keys (s : Graph) (paths : list string) : list string :=
  Update.firsts (paths ≫= file_key_candidates canonicalize s).

(** The files of the edges that end in some names.

    Source: crates/dagayn-graph/src/edge_queries.rs 167-183 [get_direct_dependents]. *)
Definition files_reaching (s : Graph) (kinds : list string) (keys : list string) : gset string :=
  list_to_set (chunk ← chunks 450 keys;
    e_file_path ∘ e_vals <$> filter (λ e, target_qualified (e_vals e) ∈ chunk ∧ e_kind (e_vals e) ∈ kinds) (edges s)).

(** Source: crates/dagayn-graph/src/edge_queries.rs 117-191 [get_direct_dependents]. *)
Definition get_direct_dependents (paths : list string) (s : Graph) : list string :=
  if bool_decide (paths = []) then []
  else
    let fp_keys := Update.firsts (paths ≫= qualified_key_candidates s) in
    let importers := files_reaching s ["IMPORTS_FROM"] fp_keys in
    let node_qns := chunk ← chunks 450 (expand_file_keys s paths);
      unordered _ (qualified_name ∘ vals <$> filter (in_files chunk) (nodes s)) in
    let users := files_reaching s ["CALLS"; "IMPORTS_FROM"; "INHERITS"; "IMPLEMENTS"] node_qns in
    ascending ((importers ∪ users) ∖ list_to_set paths).

(** Source: crates/dagayn-graph/src/analysis_stats.rs 32-38 [get_stats]. *)
Definition languages (s : Graph) : list string :=
  unordered _ (remove_dups (filter (.≠ "") (language ∘ vals <$> nodes s))).

(** ** What the store holds of a file *)

(** The values of a row, but for the file's hash and modification time and the
    time of the write. *)
Definition bare (v : NodeVals) : NodeVals :=
  mkNodeVals (kind v) (name v) (qualified_name v) (file_path v) (line_start v) (line_end v) (language v) (parent_name v)
    (params v) (return_type v) (modifiers v) (is_test v) "" 0 (extra v) (SpecFloat.S754_zero false).

Definition bare_edge (v : EdgeVals) : EdgeVals :=
  mkEdgeVals (e_kind v) (source_qualified v) (target_qualified v) (target_name v) (e_file_path v) (e_line v) (e_extra v)
    (confidence v) (confidence_tier v) (SpecFloat.S754_zero false).

(** The nodes by name, the last for each, and the edges in order. *)
Definition FileData : Type := gmap string NodeVals * list EdgeVals.

Definition node_map (vs : list NodeVals) : gmap string NodeVals :=
  foldl (λ m v, <[qualified_name v := v]> m) ∅ (bare <$> vs).

Definition rows_of (p : string) (s : Graph) : list NodeRow := filter (λ r, file_path (vals r) = p) (nodes s).
Definition edges_of (p : string) (s : Graph) : list EdgeRow := filter (λ e, e_file_path (e_vals e) = p) (edges s).

Definition data_of (p : string) (s : Graph) : FileData :=
  (node_map (vals <$> rows_of p s), bare_edge ∘ e_vals <$> edges_of p s).

Definition item_data (i : Update.Item) : FileData :=
  (match try_map (node_vals now "" 0) (item_nodes _ _ i) with inl vs => node_map vs | inr _ => ∅ end,
   match try_map (edge_vals now) (first_edges edge_key ∅ (item_edges _ _ i)) with inl es => bare_edge <$> es | inr _ => [] end).

Definition file_meta (s : Graph) : gmap string (string * Z) := list_to_map (meta_row <$> nodes s).

Definition held (s : Graph) : gmap string (string * Z * FileData) :=
  map_imap (λ p m, Some (m.1, m.2, data_of p s)) (file_meta s).

(** A store that a build wrote: the rows of a file carry one hash and one time,
    and one of them is the file itself.  The hash is empty for the manifests that
    post-processing adds. *)
Record valid (s : Graph) : Prop := {
  valid_ok : store_ok s;
  valid_meta : ∀ r r', r ∈ nodes s → r' ∈ nodes s → file_path (vals r) = file_path (vals r') → meta_row r = meta_row r';
  valid_file : ∀ r, r ∈ nodes s → ∃ f, f ∈ nodes s ∧ kind (vals f) = "File" ∧ file_path (vals f) = file_path (vals r)
}.

(** What the store asks of an item: nodes and edges in its file, which has no
    colon and a node of its own, a hash, and JSON that can be written and read. *)
Definition json_kept (v : Value) : Prop := ∃ t, extra_json v = inl t ∧ is_Some (from_str t).

Record item_ok (i : Update.Item) : Prop := {
  item_in_file : ∀ n, n ∈ item_nodes _ _ i → ni_file_path n = item_path _ _ i ∧ has_colon (ni_file_path n) = false;
  item_edges_in : ∀ e, e ∈ item_edges _ _ i → ei_file_path e = item_path _ _ i;
  item_file : ∃ n, n ∈ item_nodes _ _ i ∧ ni_kind n = "File";
  item_hashed : item_hash _ _ i ≠ "";
  item_json : (∀ n, n ∈ item_nodes _ _ i → json_kept (ni_extra n)) ∧ ∀ e, e ∈ item_edges _ _ i → json_kept (ei_extra e)
}.

(** *** Lookups *)

Lemma foldl_put_row {A} (out : gmap string A) rows k :
  (∀ x y, (k, x) ∈ rows → (k, y) ∈ rows → x = y) →
  (∀ x, (k, x) ∈ rows → foldl put_row out rows !! k = Some x) ∧
  ((∀ x, (k, x) ∉ rows) → foldl put_row out rows !! k = out !! k).
Proof.
  clear. revert out. induction rows as [|[k' x'] rows IH] using rev_ind; intros out Hu.
  { split; [by intros x ?%not_elem_of_nil|done]. }
  rewrite foldl_snoc. unfold put_row at 1 3. cbn [fst snd].
  destruct (decide (k = k')) as [->|Hne].
  - rewrite lookup_insert_eq. split.
    + intros x Hx. f_equal. apply Hu; [|done]. apply elem_of_app. right. by apply list_elem_of_singleton.
    + intros Hn. destruct (Hn x'). apply elem_of_app. right. by apply list_elem_of_singleton.
  - rewrite lookup_insert_ne by done. destruct (IH out) as [H1 H2].
    { intros x y Hx Hy. apply Hu; apply elem_of_app; by left. }
    split.
    + intros x [Hx|Hx]%elem_of_app; [by apply H1|]. apply list_elem_of_singleton in Hx. congruence.
    + intros Hn. apply H2. intros x Hx. apply (Hn x). apply elem_of_app. by left.
Qed.

Lemma lookup_file_meta s p m :
  valid s → (file_meta s !! p = Some m ↔ ∃ r, r ∈ nodes s ∧ meta_row r = (p, m)).
Proof.
  intros Hv. unfold file_meta. split.
  - intros Hm%elem_of_list_to_map_2. apply list_elem_of_fmap in Hm as (r & Heq & Hr). by exists r.
  - intros (r & Hr & Hm). apply elem_of_list_to_map_1'.
    + intros y Hy. apply list_elem_of_fmap in Hy as (r' & Heq & Hr'). cut (meta_row r = meta_row r'); [congruence|].
      apply (valid_meta s Hv); [done|done|]. unfold meta_row in *. congruence.
    + apply list_elem_of_fmap. by exists r.
Qed.

Lemma lookup_held s p : held s !! p = (λ m, (m.1, m.2, data_of p s)) <$> file_meta s !! p.
Proof. unfold held. rewrite map_lookup_imap. by destruct (file_meta s !! p). Qed.

Lemma held_same s s' : nodes s' = nodes s → edges s' = edges s → held s' = held s.
Proof. intros Hn He. unfold held, file_meta, data_of, rows_of, edges_of. by rewrite Hn, He. Qed.

Lemma valid_same s s' : store_ok s' → nodes s' = nodes s → valid s → valid s'.
Proof. intros Hok Hn [_ H2 H3]. by split; [|rewrite Hn..]. Qed.

Lemma dom_held s p : valid s → (p ∈ dom (held s) ↔ ∃ r, r ∈ nodes s ∧ file_path (vals r) = p).
Proof.
  intros Hv. rewrite elem_of_dom, lookup_held, fmap_is_Some. split.
  - intros [m (r & Hr & Hm)%lookup_file_meta]; [|done]. exists r. split; [done|]. unfold meta_row in Hm. congruence.
  - intros (r & Hr & <-). eexists. apply lookup_file_meta; [done|]. by exists r.
Qed.

Lemma bare_name v : qualified_name (bare v) = qualified_name v.
Proof. done. Qed.

Lemma last_vals_bare q vs : last_vals q (bare <$> vs) = bare <$> last_vals q vs.
Proof.
  clear. induction vs as [|v vs IH] using rev_ind; [done|].
  rewrite fmap_app, list_fmap_singleton, !last_vals_snoc, bare_name. by destruct (bool_decide _).
Qed.

Lemma lookup_node_map q vs : node_map vs !! q = bare <$> last_vals q vs.
Proof.
  clear. rewrite <-last_vals_bare. unfold node_map. generalize (bare <$> vs). clear vs. intros vs.
  induction vs as [|v vs IH] using rev_ind; [done|]. rewrite foldl_snoc, last_vals_snoc.
  case_bool_decide as Hq; [subst q; by rewrite lookup_insert_eq|by rewrite lookup_insert_ne].
Qed.

Lemma last_vals_elem q vs v : last_vals q vs = Some v → v ∈ vs ∧ qualified_name v = q.
Proof. unfold last_vals. intros Hl%last_Some_elem_of. by apply list_elem_of_filter in Hl as [? ?]. Qed.

(** *** Removing and timing *)

Lemma removed_held files s : valid s → valid (removed files s) ∧ held (removed files s) = filter (λ x, x.1 ∉ files) (held s).
Proof.
  intros Hv. assert (Hv' : valid (removed files s)).
  { destruct Hv as [Hok H2 H3]. split; [by apply removed_ok|..].
    - intros r r' [Hr _]%removed_node [Hr' _]%removed_node. by apply H2.
    - intros r [Hr Hn]%removed_node. destruct (H3 r Hr) as (f & Hf & Hk & Hp). exists f. split; [|done].
      apply removed_node. split; [done|]. unfold in_files in *. by rewrite Hp. }
  split; [done|]. apply map_eq. intros p. destruct (decide (p ∈ files)) as [Hp|Hp].
  - rewrite map_lookup_filter_None_2 by (right; by intros x _ ?). apply not_elem_of_dom. rewrite dom_held by done.
    intros (r & [_ Hn]%removed_node & <-). done.
  - assert (Hmeta : file_meta (removed files s) !! p = file_meta s !! p).
    { apply option_eq. intros m. rewrite !lookup_file_meta by done. split.
      - intros (r & [Hr _]%removed_node & Hm). by exists r.
      - intros (r & Hr & Hm). exists r. split; [|done]. apply removed_node. split; [done|].
        unfold meta_row in Hm. unfold in_files. congruence. }
    assert (Hdata : data_of p (removed files s) = data_of p s).
    { assert (Hrows : rows_of p (removed files s) = rows_of p s).
      { unfold rows_of, removed. cbn [nodes]. rewrite list_filter_filter. apply list_filter_iff.
        intros r. unfold in_files. split; [by intros []|]. intros Hr. by rewrite Hr. }
      assert (Hedges : edges_of p (removed files s) = edges_of p s).
      { unfold edges_of, removed. cbn [edges]. rewrite list_filter_filter. apply list_filter_iff.
        intros e. split; [by intros []|]. intros He. by rewrite He. }
      unfold data_of. by rewrite Hrows, Hedges. }
    rewrite lookup_held, Hmeta, Hdata. rewrite <-lookup_held.
    destruct (held s !! p) as [x|] eqn:Hx.
    + symmetry. by apply map_lookup_filter_Some.
    + symmetry. apply map_lookup_filter_None. by left.
Qed.

Definition timed (u : string * Z) (r : NodeRow) : NodeRow :=
  if bool_decide (file_path (vals r) = u.1) then with_mtime u.2 r else r.

Lemma timed_same u r :
  node_id (timed u r) = node_id r ∧ qualified_name (vals (timed u r)) = qualified_name (vals r) ∧
  file_path (vals (timed u r)) = file_path (vals r) ∧ kind (vals (timed u r)) = kind (vals r) ∧
  file_hash (vals (timed u r)) = file_hash (vals r) ∧ bare (vals (timed u r)) = bare (vals r).
Proof. unfold timed. by case_bool_decide. Qed.

Lemma timed_fmap {A} (f : NodeRow → A) u (l : list NodeRow) :
  (∀ r, f (timed u r) = f r) → f <$> (timed u <$> l) = f <$> l.
Proof. intros Hf. rewrite <-list_fmap_compose. apply list_fmap_ext. intros i r _. apply Hf. Qed.

Lemma timed_rows u p (l : list NodeRow) :
  filter (λ r, file_path (vals r) = p) (timed u <$> l) = timed u <$> filter (λ r, file_path (vals r) = p) l.
Proof.
  clear. induction l as [|r l IH]; [done|]. rewrite fmap_cons, !filter_cons.
  destruct (timed_same u r) as (_ & _ & -> & _). rewrite IH. by case_decide.
Qed.

Lemma timed_ok u s : store_ok s → store_ok (update_file_mtime s u).
Proof.
  intros [(H1 & H2 & H3 & H4) Hp He Hf Hfl Hr Hi].
  assert (Hids : ids (timed u <$> nodes s) = ids (nodes s)) by (apply timed_fmap; intros r; apply timed_same).
  assert (Hnames : names (timed u <$> nodes s) = names (nodes s)) by (apply timed_fmap; intros r; apply timed_same).
  split; unfold update_file_mtime; fold (timed u); cbn [nodes node_seq edges edge_seq fts flow_memberships risk_index
    write_indexes bulk set_nodes]; unfold table_ok in *; cbn [fst snd] in *; rewrite ?Hids, ?Hnames; try done.
  rewrite Forall_fmap. eapply Forall_impl; [exact Hp|]. intros r. cbn. unfold belongs.
  destruct (timed_same u r) as (_ & -> & -> & _). done.
Qed.

Lemma timed_held u s : valid s → valid (update_file_mtime s u) ∧ held (update_file_mtime s u) = Update.put_mtime (held s) u.
Proof.
  intros Hv. assert (Hin : ∀ r, r ∈ nodes (update_file_mtime s u) ↔ ∃ r', r = timed u r' ∧ r' ∈ nodes s).
  { intros r. apply list_elem_of_fmap. }
  assert (Hmeta : ∀ r, meta_row (timed u r) = (file_path (vals r), (file_hash (vals r),
    if bool_decide (file_path (vals r) = u.1) then u.2 else mtime_ns (vals r)))).
  { intros r. unfold timed. by case_bool_decide. }
  assert (Hv' : valid (update_file_mtime s u)).
  { destruct Hv as [Hok H2 H3]. split; [by apply timed_ok|..].
    - intros r1 r2 (r1' & -> & Hr1)%Hin (r2' & -> & Hr2)%Hin.
      destruct (timed_same u r1') as (_ & _ & -> & _), (timed_same u r2') as (_ & _ & -> & _). intros Heq.
      specialize (H2 r1' r2' Hr1 Hr2 Heq). rewrite !Hmeta. unfold meta_row in H2. injection H2 as Hpath -> ->. by rewrite Hpath.
    - intros r (r' & -> & Hr)%Hin. destruct (H3 r' Hr) as (f & Hf & Hk & Hp). exists (timed u f).
      split; [apply Hin; by exists f|]. destruct (timed_same u f) as (_ & _ & -> & -> & _), (timed_same u r') as (_ & _ & -> & _).
      done. }
  split; [done|]. apply map_eq. intros p.
  assert (Hdata : data_of p (update_file_mtime s u) = data_of p s).
  { unfold data_of. f_equal. unfold rows_of, update_file_mtime. fold (timed u). cbn [nodes set_nodes].
    rewrite timed_rows. unfold node_map. f_equal. rewrite <-!list_fmap_compose. apply list_fmap_ext. intros i r _. apply timed_same. }
  rewrite lookup_held, Hdata.
  assert (Hm : file_meta (update_file_mtime s u) !! p = (λ m, if bool_decide (p = u.1) then (m.1, u.2) else m) <$> file_meta s !! p).
  { destruct (file_meta s !! p) as [m|] eqn:Em.
    - cbn [fmap option_fmap option_map]. apply lookup_file_meta in Em as (r & Hr & Em); [|done]. apply lookup_file_meta; [done|]. exists (timed u r).
      split; [apply Hin; by exists r|]. rewrite Hmeta. unfold meta_row in Em. injection Em as -> <-. cbn. by case_bool_decide.
    - cbn [fmap option_fmap option_map]. destruct (file_meta (update_file_mtime s u) !! p) as [m|] eqn:Em'; [|done]. exfalso.
      apply lookup_file_meta in Em' as (r & (r' & -> & Hr)%Hin & Em'); [|done]. rewrite Hmeta in Em'. injection Em' as Hpath _.
      destruct (file_meta s !! p) as [m'|] eqn:Em2; [done|]. assert (Hs : file_meta s !! p = Some (meta_row r').2).
      { apply lookup_file_meta; [done|]. exists r'. split; [done|]. unfold meta_row. cbn. by rewrite Hpath. }
      congruence. }
  rewrite Hm. unfold Update.put_mtime. rewrite (lookup_held s u.1).
  destruct (file_meta s !! u.1) as [[h m]|] eqn:Eu; cbn.
  - destruct (decide (p = u.1)) as [->|Hne].
    + rewrite lookup_insert_eq, Eu. cbn. by rewrite bool_decide_eq_true_2.
    + rewrite lookup_insert_ne, lookup_held by done. destruct (file_meta s !! p); cbn; [|done]. by rewrite bool_decide_eq_false_2.
  - rewrite lookup_held. destruct (file_meta s !! p) as [m|] eqn:Ep; cbn; [|done].
    destruct (decide (p = u.1)) as [->|Hne]; [congruence|]. by rewrite bool_decide_eq_false_2.
Qed.

Lemma mtimes_held us s :
  valid s → valid (update_file_mtimes us s) ∧ held (update_file_mtimes us s) = foldl Update.put_mtime (held s) us.
Proof.
  revert s. induction us as [|u us IH]; intros s Hv; [done|]. unfold update_file_mtimes in *. cbn [foldl].
  destruct (timed_held u s Hv) as [Hv1 H1]. destruct (IH _ Hv1) as [Hv2 H2]. split; [done|]. by rewrite H2, H1.
Qed.

(** *** A batch *)

Lemma filter_every {A} (P : A → Prop) `{!∀ x, Decision (P x)} l : Forall P l → filter P l = l.
Proof. clear. induction 1 as [|x l Hx _ IH]; [done|]. by rewrite filter_cons, decide_True, IH. Qed.

Lemma filter_no {A} (P : A → Prop) `{!∀ x, Decision (P x)} l : Forall (λ x, ¬ P x) l → filter P l = [].
Proof. clear. induction 1 as [|x l Hx _ IH]; [done|]. by rewrite filter_cons, decide_False, IH. Qed.

Lemma try_map_in {A B} (f : A → Result B) l bs a : try_map f l = inl bs → a ∈ l → ∃ b, b ∈ bs ∧ f a = inl b.
Proof.
  clear. revert bs. induction l as [|x l IH]; intros bs; [by intros _ ?%not_elem_of_nil|]. cbn [try_map].
  destruct (f x) as [b|] eqn:Hb; [|done]. cbn. destruct (try_map f l) as [bs'|]; [|done]. cbn.
  intros [= <-] [->|Ha]%elem_of_cons; [exists b; by split; [left|]|].
  destruct (IH bs' eq_refl Ha) as (b' & Hb' & Hf). exists b'. by split; [right|].
Qed.

Lemma try_map_cons_inl {A B} (f : A → Result B) a l bs :
  try_map f (a :: l) = inl bs → ∃ b bs', f a = inl b ∧ try_map f l = inl bs' ∧ bs = b :: bs'.
Proof.
  clear. cbn [try_map]. destruct (f a) as [b|]; [|done]. cbn. destruct (try_map f l) as [bs'|]; [|done]. cbn.
  intros [= <-]. by exists b, bs'.
Qed.

Lemma try_map_filter {A B} (f : A → Result B) (P : B → Prop) (Q : A → Prop) `{!∀ b, Decision (P b), !∀ a, Decision (Q a)} l bs :
  (∀ a b, f a = inl b → P b ↔ Q a) → try_map f l = inl bs → try_map f (filter Q l) = inl (filter P bs).
Proof.
  clear. intros Hpq. revert bs. induction l as [|a l IH]; intros bs Hbs; [cbn in Hbs; by injection Hbs as <-|].
  apply try_map_cons_inl in Hbs as (b & bs' & Hb & Hbs & ->). rewrite !filter_cons. specialize (Hpq a b Hb).
  destruct (decide (Q a)) as [Hq|Hq].
  - rewrite decide_True by by apply Hpq. cbn [try_map]. rewrite Hb. cbn. by rewrite (IH bs' Hbs).
  - rewrite decide_False by (intros Hp; by apply Hq, Hpq). by apply IH.
Qed.

Lemma first_edges_filter (p : string) seen1 seen2 (l : list EdgeInput) :
  (∀ e, ei_file_path e = p → edge_key e ∈ seen1 ↔ edge_key e ∈ seen2) →
  filter (λ e, ei_file_path e = p) (first_edges edge_key seen1 l) =
  first_edges edge_key seen2 (filter (λ e, ei_file_path e = p) l).
Proof.
  clear. revert seen1 seen2. induction l as [|e l IH]; intros seen1 seen2 Hs; [done|]. rewrite filter_cons. cbn [first_edges].
  destruct (decide (ei_file_path e = p)) as [Hp|Hp].
  - cbn [first_edges]. destruct (decide (edge_key e ∈ seen1)) as [Hin|Hin].
    + rewrite !bool_decide_eq_true_2; [by apply IH|by apply Hs|done].
    + rewrite !bool_decide_eq_false_2; [|by rewrite <-Hs|done]. rewrite filter_cons, decide_True by done. f_equal.
      apply IH. intros x Hx. rewrite !elem_of_union, !elem_of_singleton. by rewrite (Hs x Hx).
  - destruct (decide (edge_key e ∈ seen1)) as [Hin|Hin].
    + rewrite bool_decide_eq_true_2 by done. by apply IH.
    + rewrite bool_decide_eq_false_2 by done. rewrite filter_cons, decide_False by done.
      apply IH. intros x Hx. rewrite elem_of_union, elem_of_singleton, <-(Hs x Hx). split; [|by right].
      intros [Heq|?]; [|done]. exfalso. apply Hp. rewrite <-Hx. unfold edge_key in Heq. congruence.
Qed.

Lemma first_edges_elem seen (l : list EdgeInput) e : e ∈ first_edges edge_key seen l → e ∈ l.
Proof.
  clear. revert seen. induction l as [|x l IH]; intros seen; [done|]. cbn [first_edges].
  case_bool_decide; [intros He; right; by eapply IH|]. intros [->|He]%elem_of_cons; [by left|right; by eapply IH].
Qed.

Lemma node_vals_spec n h m v :
  node_vals now h m n = inl v →
  file_path v = ni_file_path n ∧ file_hash v = h ∧ mtime_ns v = m ∧ kind v = ni_kind n ∧
  qualified_name v = make_qualified_parts (ni_kind n) (ni_name n) (ni_file_path n) (ni_parent_name n).
Proof. unfold node_vals. destruct (extra_json (ni_extra n)) as [x|]; cbn; [|done]. by intros [= <-]. Qed.

Lemma edge_vals_path e v : edge_vals now e = inl v → e_file_path v = ei_file_path e.
Proof.
  unfold edge_vals. destruct (extra_json _); cbn [mbind result_bind rbind]; [|done]. intros <-%ok_inj.
  unfold edge_row, edge_key. by destruct (normalize_edge_confidence _ _ _ _).
Qed.

(** The values do not depend on the hash and time, but for those columns. *)
Lemma node_vals_bare ns h m vs :
  try_map (node_vals now h m) ns = inl vs →
  ∃ vs', try_map (node_vals now "" 0) ns = inl vs' ∧ bare <$> vs = bare <$> vs'.
Proof.
  revert vs. induction ns as [|n ns IH]; intros vs Hvs; [cbn in Hvs; injection Hvs as <-; by exists []|].
  apply try_map_cons_inl in Hvs as (v & vs1 & Hv & Hvs & ->). destruct (IH vs1 Hvs) as (vs2 & Hvs2 & Heq).
  assert (Hv' : ∃ v', node_vals now "" 0 n = inl v' ∧ bare v = bare v').
  { unfold node_vals in *. destruct (extra_json (ni_extra n)) as [x|]; cbn in *; [|done]. injection Hv as <-. by eexists. }
  destruct Hv' as (v' & Hv' & Hb). exists (v' :: vs2). rewrite !fmap_cons, Heq, Hb. split; [|done].
  cbn [try_map]. rewrite Hv'. cbn [mbind result_bind rbind]. by rewrite Hvs2.
Qed.

(** The rows of one file of a batch. *)
Lemma batch_rows_of batch rows i :
  NoDup (item_path _ _ <$> batch) → Forall item_ok batch → try_map (item_rows (node_vals now)) batch = inl rows →
  i ∈ batch → item_rows (node_vals now) i = inl (filter (λ v, file_path v = item_path _ _ i) (concat rows)).
Proof.
  assert (Hpath : ∀ j vs v, item_ok j → item_rows (node_vals now) j = inl vs → v ∈ vs → file_path v = item_path _ _ j).
  { intros j vs v Hj Hvs Hv. destruct (try_map_elem _ _ _ _ Hvs Hv) as (n & Hn & Hrow).
    destruct (node_vals_spec _ _ _ _ Hrow) as [-> _]. by apply (item_in_file j Hj). }
  assert (Hrest : ∀ b rs v, Forall item_ok b → try_map (item_rows (node_vals now)) b = inl rs → v ∈ concat rs →
    file_path v ∈ item_path _ _ <$> b).
  { intros b rs v Hok Hrs (vs & Hv & Hvs)%elem_of_concat. destruct (try_map_elem _ _ _ _ Hrs Hvs) as (j & Hj & Hrow).
    rewrite Forall_forall in Hok. rewrite (Hpath j vs v (Hok j Hj) Hrow Hv). by apply list_elem_of_fmap_2. }
  revert rows. induction batch as [|j batch IH]; intros rows Hnd Hok Hrows Hi; [by apply not_elem_of_nil in Hi|].
  apply try_map_cons_inl in Hrows as (vs & rows' & Hvs & Hrows & ->). rewrite fmap_cons in Hnd.
  apply NoDup_cons in Hnd as [Hnj Hnd]. apply Forall_cons in Hok as [Hokj Hok]. cbn [concat]. rewrite filter_app.
  apply elem_of_cons in Hi as [->|Hi].
  - rewrite filter_every, (filter_no _ (concat rows')), app_nil_r.
    + exact Hvs.
    + apply Forall_forall. intros v Hv Heq. apply Hnj. rewrite <-Heq. by eapply Hrest.
    + apply Forall_forall. intros v Hv. by eapply Hpath.
  - rewrite filter_no; [by apply IH|].
    apply Forall_forall. intros v Hv Heq. apply Hnj. rewrite <-(Hpath j vs v Hokj Hvs Hv), Heq. by apply list_elem_of_fmap_2.
Qed.

Lemma last_vals_filter p q l :
  (∀ v, v ∈ l → qualified_name v = q → file_path v = p) → last_vals q (filter (λ v, file_path v = p) l) = last_vals q l.
Proof.
  clear. intros Hl. unfold last_vals. f_equal. induction l as [|v l IH]; [done|]. rewrite !filter_cons.
  assert (Hl' : ∀ w, w ∈ l → qualified_name w = q → file_path w = p) by (intros w Hw; apply Hl; by right).
  destruct (decide (file_path v = p)) as [Hp|Hp]; rewrite ?filter_cons; destruct (decide (qualified_name v = q)) as [Hq|Hq];
    rewrite ?IH by done; try done. exfalso. apply Hp, Hl; [by left|done].
Qed.

Lemma last_vals_is_Some q l v : v ∈ l → qualified_name v = q → is_Some (last_vals q l).
Proof.
  clear. intros Hv Hq. unfold last_vals. destruct (last _) as [w|] eqn:Hl; [by eexists|]. apply last_None in Hl.
  exfalso. by apply (filter_nil_not_elem_of _ l v Hl).
Qed.

Lemma rows_node_map p (rows : list NodeRow) vs :
  Forall belongs vs → (∀ r, r ∈ rows → last_vals (qualified_name (vals r)) vs = Some (vals r)) →
  (∀ q, is_Some (last_vals q vs) → ∃ r, r ∈ rows ∧ qualified_name (vals r) = q) →
  node_map (vals <$> filter (λ r, file_path (vals r) = p) rows) = node_map (filter (λ v, file_path v = p) vs).
Proof.
  clear. intros Hb Hrows Hall. rewrite Forall_forall in Hb. apply map_eq. intros q. rewrite !lookup_node_map. f_equal.
  assert (Hname : ∀ v w, v ∈ vs → w ∈ vs → file_path v = p → qualified_name v = q → qualified_name w = q → file_path w = p).
  { intros v w Hv Hw <- <- Hq. symmetry. by apply belongs_file; [apply Hb|apply Hb|]. }
  destruct (last_vals q (vals <$> _)) as [v|] eqn:Hl.
  - apply last_vals_elem in Hl as [(r & -> & Hr)%list_elem_of_fmap Hq]. apply list_elem_of_filter in Hr as [Hp Hr].
    specialize (Hrows r Hr). rewrite Hq in Hrows. rewrite last_vals_filter; [by rewrite Hrows|].
    intros w Hw Hwq. apply last_vals_elem in Hrows as [Hin _]. by apply (Hname (vals r) w).
  - destruct (last_vals q (filter _ vs)) as [v|] eqn:Hl2; [|done]. exfalso.
    apply last_vals_elem in Hl2 as [[Hp Hin]%list_elem_of_filter Hq].
    destruct (Hall q) as (r & Hr & Hrq); [by eapply last_vals_is_Some|].
    specialize (Hrows r Hr). apply last_vals_elem in Hrows as [Hrin _].
    destruct (last_vals_is_Some q (vals <$> filter (λ r, file_path (vals r) = p) rows) (vals r)) as [x Hx]; [|done|congruence].
    apply list_elem_of_fmap_2, list_elem_of_filter. split; [|done]. by apply (Hname v (vals r)).
Qed.

(** Every item that can be stored is. *)
Lemma batch_runs batch (s : Graph) :
  valid s → NoDup (item_path _ _ <$> batch) → Forall item_ok batch →
  ∃ s' rows es, store_file_batch fts_values now stamp batch s = (s', inl tt) ∧ store_ok s' ∧
    try_map (item_rows (node_vals now)) batch = inl rows ∧ batch_edges edge_key (edge_vals now) batch = inl es ∧
    batch_stored s s' (item_path _ _ <$> batch) (concat rows) es.
Proof.
  intros Hv Hnd Hok. rewrite Forall_forall in Hok.
  assert (Hb : batch_ok batch). { split; [done|]. intros i n Hi Hn. by apply (item_in_file i (Hok i Hi)). }
  assert (Hnode : ∀ i n, i ∈ batch → n ∈ item_nodes _ _ i →
    ∃ v, node_vals now (item_hash _ _ i) (item_mtime _ _ i) n = inl v ∧ ¬ unread v).
  { intros i n Hi Hn. destruct (proj1 (item_json i (Hok i Hi)) n Hn) as (t & Ht & Hr). unfold node_vals, unread. rewrite Ht.
    eexists. split; [reflexivity|]. cbn. intros Hx. rewrite Hx in Hr. by destruct Hr. }
  destruct (try_map_total (item_rows (node_vals now)) batch) as [rows Hrows].
  { intros i Hi. apply try_map_total. intros n Hn. destruct (Hnode i n Hi Hn) as (v & Hv' & _). by exists v. }
  destruct (try_map_total (edge_vals now) (first_edges edge_key ∅ (batch ≫= item_edges _ _))) as [es Hes].
  { intros e He%first_edges_elem. apply list_elem_of_bind in He as (i & He & Hi).
    destruct (proj2 (item_json i (Hok i Hi)) e He) as (t & Ht & _). unfold edge_vals. rewrite Ht. by eexists. }
  pose proof (store_batch_spec fts_values (node_vals now) edge_key (edge_vals now) (node_vals_error now) (edge_vals_error now)
    stamp batch s (valid_ok s Hv) (batch_paths now batch Hb)) as Hspec.
  unfold store_file_batch, transact, store_file_batch_tx. destruct (store_batch _ _ _ _ _ _ _) as [s'|e].
  - destruct Hspec as (rows' & es' & Hrows' & Hes' & Hok' & Hst & _). exists s', rows', es'. by split_and!.
  - exfalso. destruct Hspec as (_ & [Hbad|[Hbad|(rows' & v & Hrows' & Hvin & Hun)]]); [congruence| |].
    + unfold batch_edges in Hbad. congruence.
    + apply elem_of_concat in Hvin as (vs & Hvin & Hvs). destruct (try_map_elem _ _ _ _ Hrows' Hvs) as (i & Hi & Hrow).
      destruct (try_map_elem _ _ _ _ Hrow Hvin) as (n & Hn & Hnv). destruct (Hnode i n Hi Hn) as (v' & Hv' & Hread). congruence.
Qed.

(** The rows of the files of a batch, and of the others. *)
Lemma stored_rows (s s' : Graph) files vs es p :
  batch_stored s s' files vs es → Forall (λ v, file_path v ∈ files ∧ belongs v) vs →
  Forall (λ v, e_file_path v ∈ files) es →
  (p ∉ files → rows_of p s' = rows_of p s ∧ edges_of p s' = edges_of p s) ∧
  (p ∈ files → node_map (vals <$> rows_of p s') = node_map (filter (λ v, file_path v = p) vs) ∧
               e_vals <$> edges_of p s' = filter (λ v, e_file_path v = p) es).
Proof.
  intros [(news & Hn & _ & Hq & Hv) (enews & He & Hes & _)] Hvs Hef. unfold rows_of, edges_of. rewrite Hn, He, !filter_app.
  rewrite Forall_forall in Hvs.
  assert (Hnew : ∀ r, r ∈ news → vals r ∈ vs). { intros r Hr. apply Hv in Hr. by apply last_vals_elem in Hr as [? _]. }
  assert (Hsub : e_vals <$> filter (λ e, e_file_path (e_vals e) = p) enews = filter (λ v, e_file_path v = p) es).
  { rewrite <-Hes. clear. induction enews as [|e enews IH]; [done|]. rewrite fmap_cons, !filter_cons.
    case_decide; [by rewrite fmap_cons, IH|done]. }
  split; intros Hp.
  - rewrite (filter_no _ news), app_nil_r.
    2:{ apply Forall_forall. intros r Hr Heq. apply Hp. rewrite <-Heq. by apply Hvs, Hnew. }
    split.
    + rewrite list_filter_filter. apply list_filter_iff. intros r. unfold in_files. split; [by intros []|]. intros Hr. by rewrite Hr.
    + assert (Hnil : filter (λ e, e_file_path (e_vals e) = p) enews = []).
      { apply filter_no, Forall_forall. intros e Hein Heq. apply Hp. rewrite <-Heq.
        rewrite Forall_forall in Hef. apply Hef. rewrite <-Hes. by apply list_elem_of_fmap_2. }
      rewrite Hnil, app_nil_r, list_filter_filter. apply list_filter_iff. intros e. split; [by intros []|]. intros Hr. by rewrite Hr.
  - rewrite (filter_no _ (filter _ (nodes s))), (filter_no _ (filter _ (edges s))).
    2:{ apply Forall_forall. intros e [Hn' _]%list_elem_of_filter Heq. by rewrite Heq in Hn'. }
    2:{ apply Forall_forall. intros r [Hn' _]%list_elem_of_filter Heq. unfold in_files in Hn'. by rewrite Heq in Hn'. }
    cbn [app]. split; [|done]. apply rows_node_map; [|done|].
    + apply Forall_forall. intros v Hvin. by apply Hvs.
    + intros q Hs. by apply Hq.
Qed.

Lemma batch_paths_in batch rows es :
  NoDup (item_path _ _ <$> batch) → Forall item_ok batch →
  try_map (item_rows (node_vals now)) batch = inl rows → batch_edges edge_key (edge_vals now) batch = inl es →
  Forall (λ v, file_path v ∈ item_path _ _ <$> batch ∧ belongs v) (concat rows) ∧
  Forall (λ v, e_file_path v ∈ item_path _ _ <$> batch) es.
Proof.
  intros Hnd Hok Hrows Hes. rewrite Forall_forall in Hok. split; apply Forall_forall.
  - intros v Hv. eapply (batch_rows_paths (node_vals now)); [|exact Hrows|done].
    apply batch_paths. split; [done|]. intros i n Hi Hn. by apply (item_in_file i (Hok i Hi)).
  - intros v Hv. destruct (try_map_elem _ _ _ _ Hes Hv) as (e & He%first_edges_elem & Hev).
    rewrite (edge_vals_path _ _ Hev). apply list_elem_of_bind in He as (i & He & Hi).
    rewrite (item_edges_in i (Hok i Hi) e He). by apply list_elem_of_fmap_2.
Qed.

(** The data of an item's file are the item's. *)
Lemma batch_data batch rows es (s s' : Graph) i :
  NoDup (item_path _ _ <$> batch) → Forall item_ok batch → i ∈ batch →
  try_map (item_rows (node_vals now)) batch = inl rows → batch_edges edge_key (edge_vals now) batch = inl es →
  batch_stored s s' (item_path _ _ <$> batch) (concat rows) es → data_of (item_path _ _ i) s' = item_data i.
Proof.
  intros Hnd Hok Hi Hrows Hes Hst. destruct (batch_paths_in batch rows es Hnd Hok Hrows Hes) as [Hp1 Hp2].
  destruct (stored_rows s s' _ _ _ (item_path _ _ i) Hst Hp1 Hp2) as [_ Hin].
  destruct Hin as [Hnm Hem]; [by apply list_elem_of_fmap_2|]. unfold data_of, item_data. f_equal.
  - rewrite Hnm. pose proof (batch_rows_of batch rows i Hnd Hok Hrows Hi) as Hr.
    destruct (node_vals_bare _ _ _ _ Hr) as (vs' & -> & Hb). unfold node_map. by rewrite Hb.
  - rewrite list_fmap_compose, Hem. unfold batch_edges in Hes.
    apply (try_map_filter _ (λ v, e_file_path v = item_path _ _ i) (λ e, ei_file_path e = item_path _ _ i)) in Hes.
    2:{ intros e v Hv. by rewrite (edge_vals_path _ _ Hv). }
    rewrite (first_edges_filter _ ∅ ∅) in Hes by done.
    assert (Hown : filter (λ e, ei_file_path e = item_path _ _ i) (batch ≫= item_edges _ _) = item_edges _ _ i).
    { clear -Hnd Hok Hi. induction batch as [|j batch IH]; [by apply not_elem_of_nil in Hi|].
      rewrite fmap_cons in Hnd. apply NoDup_cons in Hnd as [Hnj Hnd]. apply Forall_cons in Hok as [Hokj Hok].
      rewrite bind_cons, filter_app. apply elem_of_cons in Hi as [->|Hi].
      - rewrite filter_every, filter_no, app_nil_r; [done| |].
        + apply Forall_forall. intros e (k & He & Hk)%list_elem_of_bind Heq. rewrite Forall_forall in Hok.
          rewrite (item_edges_in k (Hok k Hk) e He) in Heq. apply Hnj. rewrite <-Heq. by apply list_elem_of_fmap_2.
        + apply Forall_forall. intros e He. by apply item_edges_in.
      - rewrite filter_no; [by apply IH|]. apply Forall_forall. intros e He Heq.
        rewrite (item_edges_in j Hokj e He) in Heq. apply Hnj. rewrite Heq. by apply list_elem_of_fmap_2. }
    rewrite Hown in Hes. by rewrite Hes.
Qed.

(** Its rows carry the item's hash and time, and one is its file. *)
Lemma batch_meta batch rows es (s s' : Graph) i r :
  NoDup (item_path _ _ <$> batch) → Forall item_ok batch → i ∈ batch →
  try_map (item_rows (node_vals now)) batch = inl rows →
  batch_stored s s' (item_path _ _ <$> batch) (concat rows) es →
  r ∈ nodes s' → file_path (vals r) = item_path _ _ i →
  meta_row r = (item_path _ _ i, (item_hash _ _ i, item_mtime _ _ i)).
Proof.
  intros Hnd Hok Hi Hrows Hst Hr Hp.
  assert (Hin : vals r ∈ concat rows).
  { eapply stored_node; [exact Hst|exact Hr|]. unfold in_files. rewrite Hp. by apply list_elem_of_fmap_2. }
  pose proof (batch_rows_of batch rows i Hnd Hok Hrows Hi) as Hri.
  destruct (try_map_elem _ _ _ (vals r) Hri) as (n & _ & Hn); [by apply list_elem_of_filter|].
  destruct (node_vals_spec _ _ _ _ Hn) as (_ & Hh & Hm & _). unfold meta_row. by rewrite Hp, Hh, Hm.
Qed.

Lemma colons_colon p rest : has_colon (p +:+ "::" +:+ rest) = true.
Proof.
  clear. induction p as [|c p IH]; [done|].
  change (bool_decide (c = colon) || has_colon (p +:+ "::" +:+ rest) = true). by rewrite IH, orb_true_r.
Qed.

(** Only a file's own node is named by its path alone. *)
Lemma file_name k n p parent : has_colon p = false → (make_qualified_parts k n p parent = p ↔ k = "File").
Proof.
  clear. intros Hp. unfold make_qualified_parts. case_bool_decide as Hk; [done|]. split; [|done]. intros Heq. exfalso.
  destruct parent; rewrite <-Heq, colons_colon in Hp; done.
Qed.

Lemma batch_file batch rows es (s s' : Graph) i :
  NoDup (item_path _ _ <$> batch) → Forall item_ok batch → i ∈ batch →
  try_map (item_rows (node_vals now)) batch = inl rows → batch_edges edge_key (edge_vals now) batch = inl es →
  batch_stored s s' (item_path _ _ <$> batch) (concat rows) es →
  ∃ r, r ∈ nodes s' ∧ kind (vals r) = "File" ∧ file_path (vals r) = item_path _ _ i.
Proof.
  intros Hnd Hok Hi Hrows Hes Hst. pose proof (batch_rows_of batch rows i Hnd Hok Hrows Hi) as Hri.
  destruct (batch_paths_in batch rows es Hnd Hok Hrows Hes) as [Hp _]. rewrite Forall_forall in Hok. rewrite Forall_forall in Hp.
  destruct (item_file i (Hok i Hi)) as (n & Hn & Hk). destruct (item_in_file i (Hok i Hi) n Hn) as [Hnp Hcol].
  destruct (try_map_in _ _ _ n Hri Hn) as (v & Hv & Hnv). apply list_elem_of_filter in Hv as [Hvp Hv].
  destruct (node_vals_spec _ _ _ _ Hnv) as (_ & _ & _ & _ & Hq). rewrite (proj2 (file_name _ _ _ _ Hcol) Hk), Hnp in Hq.
  destruct Hst as [(news & Hnodes & _ & Hnames & Hvals) _].
  destruct (proj2 (Hnames (item_path _ _ i))) as (r & Hr & Hrq); [by eapply last_vals_is_Some|].
  exists r. split; [rewrite Hnodes; apply elem_of_app; by right|].
  specialize (Hvals r Hr). apply last_vals_elem in Hvals as [Hin _].
  assert (Hrp : file_path (vals r) = item_path _ _ i).
  { rewrite <-Hvp. apply belongs_file; [apply (Hp (vals r) Hin)|apply (Hp v Hv)|]. by rewrite Hrq, Hq. }
  split; [|done].
  destruct (try_map_elem _ _ _ (vals r) Hri) as (m & Hm & Hmr); [by apply list_elem_of_filter|].
  destruct (node_vals_spec _ _ _ _ Hmr) as (Hmp & _ & _ & -> & Hmq). destruct (item_in_file i (Hok i Hi) m Hm) as [Hmi Hmc].
  apply (file_name _ (ni_name m) _ (ni_parent_name m) Hmc). by rewrite <-Hmq, Hrq, Hmi.
Qed.

(** *** The interface *)

#[export] Instance store_graph : Update.FileGraph Graph := {|
  Update.Data := FileData;
  Update.item_data := item_data;
  Update.held := held;
  Update.valid := valid;
  Update.get_metadata := get_metadata;
  Update.set_metadata := set_metadata;
  Update.get_all_files := get_all_files;
  Update.get_file_meta_for_files := get_file_meta_for_files;
  Update.get_direct_dependents := get_direct_dependents;
  Update.languages := languages;
  Update.update_file_mtimes := update_file_mtimes;
  Update.remove_files_data := remove_files_data stamp;
  Update.begin_bulk_load := begin_bulk_load;
  Update.finish_bulk_load := finish_bulk_load stamp;
  Update.store_file_batch := store_file_batch fts_values now stamp
|}.

Lemma foldl_put_item (files : gmap string (string * Z * FileData)) batch p :
  NoDup (item_path _ _ <$> batch) →
  (∀ i, i ∈ batch → item_path _ _ i = p →
    foldl Update.put_item files batch !! p = Some (item_hash _ _ i, item_mtime _ _ i, item_data i)) ∧
  (p ∉ item_path _ _ <$> batch → foldl Update.put_item files batch !! p = files !! p).
Proof.
  induction batch as [|j batch IH] using rev_ind; intros Hnd; [by split; [intros i ?%not_elem_of_nil|]|].
  rewrite fmap_app in Hnd. apply NoDup_app in Hnd as (Hnd & Hd & _). destruct (IH Hnd) as [H1 H2]. rewrite foldl_snoc.
  unfold Update.put_item at 1 3. cbn [Update.item_data store_graph]. split.
  - intros i [Hi|Hi]%elem_of_app Hp.
    + rewrite lookup_insert_ne; [by apply H1|]. intros Heq. apply (Hd p); [|apply list_elem_of_singleton; by rewrite Heq].
      rewrite <-Hp. by apply list_elem_of_fmap_2.
    + apply list_elem_of_singleton in Hi as ->. rewrite Hp. by rewrite lookup_insert_eq.
  - intros Hp. rewrite fmap_app, not_elem_of_app in Hp. destruct Hp as [Hp1 Hp2].
    rewrite lookup_insert_ne; [by apply H2|]. intros Heq. apply Hp2. apply list_elem_of_singleton. by rewrite Heq.
Qed.

Lemma batch_held batch (s : Graph) :
  valid s → NoDup (item_path _ _ <$> batch) → Forall item_ok batch →
  ∃ s', store_file_batch fts_values now stamp batch s = (s', inl tt) ∧ valid s' ∧
    held s' = foldl Update.put_item (held s) batch.
Proof.
  intros Hv Hnd Hok. destruct (batch_runs batch s Hv Hnd Hok) as (s' & rows & es & Hrun & Hsok & Hrows & Hes & Hst).
  exists s'. split; [done|]. destruct (batch_paths_in batch rows es Hnd Hok Hrows Hes) as [Hp1 Hp2].
  assert (Hother : ∀ r, r ∈ nodes s' → file_path (vals r) ∉ item_path _ _ <$> batch → r ∈ nodes s).
  { intros r Hr Hn. destruct (stored_rows s s' _ _ _ (file_path (vals r)) Hst Hp1 Hp2) as [Hsame _].
    destruct (Hsame Hn) as [Heq _]. assert (Hin : r ∈ rows_of (file_path (vals r)) s') by by apply list_elem_of_filter.
    rewrite Heq in Hin. by apply list_elem_of_filter in Hin as [_ ?]. }
  assert (Hkept : ∀ r, r ∈ nodes s → file_path (vals r) ∉ item_path _ _ <$> batch → r ∈ nodes s').
  { intros r Hr Hn. destruct (stored_rows s s' _ _ _ (file_path (vals r)) Hst Hp1 Hp2) as [Hsame _].
    destruct (Hsame Hn) as [Heq _]. assert (Hin : r ∈ rows_of (file_path (vals r)) s) by by apply list_elem_of_filter.
    rewrite <-Heq in Hin. by apply list_elem_of_filter in Hin as [_ ?]. }
  assert (Hmine : ∀ r p, r ∈ nodes s' → file_path (vals r) = p → p ∈ item_path _ _ <$> batch →
    ∃ i, i ∈ batch ∧ item_path _ _ i = p ∧ meta_row r = (p, (item_hash _ _ i, item_mtime _ _ i))).
  { intros r p Hr Hp (i & -> & Hi)%list_elem_of_fmap. exists i. split; [done|split; [done|]].
    by eapply batch_meta. }
  assert (Hv' : valid s').
  { split; [done|..].
    - intros r r' Hr Hr' Hp. destruct (decide (file_path (vals r) ∈ item_path _ _ <$> batch)) as [Hin|Hn].
      + pose proof Hin as (i & Hpi & Hi)%list_elem_of_fmap.
        rewrite (batch_meta batch rows es s s' i r), (batch_meta batch rows es s s' i r'); try done. by rewrite <-Hp.
      + apply (valid_meta s Hv); [by apply Hother|apply Hother; [done|by rewrite <-Hp]|done].
    - intros r Hr. destruct (decide (file_path (vals r) ∈ item_path _ _ <$> batch)) as [Hin|Hn].
      + apply list_elem_of_fmap in Hin as (i & -> & Hi). by eapply batch_file.
      + destruct (valid_file s Hv r) as (f & Hf & Hk & Hp); [by apply Hother|]. exists f. split; [|done].
        apply Hkept; [done|by rewrite Hp]. }
  split; [done|]. apply map_eq. intros p. destruct (foldl_put_item (held s) batch p Hnd) as [Hput Hnone].
  rewrite lookup_held. destruct (decide (p ∈ item_path _ _ <$> batch)) as [Hin|Hn].
  - apply list_elem_of_fmap in Hin as (i & -> & Hi). etrans; [|symmetry; exact (Hput i Hi eq_refl)].
    rewrite (batch_data batch rows es s s' i) by done.
    destruct (batch_file batch rows es s s' i) as (r & Hr & _ & Hrp); [done..|].
    assert (Hm : file_meta s' !! item_path _ _ i = Some (item_hash _ _ i, item_mtime _ _ i)).
    { apply lookup_file_meta; [done|]. exists r. split; [done|]. by eapply batch_meta. }
    by rewrite Hm.
  - etrans; [|symmetry; exact (Hnone Hn)]. rewrite lookup_held. destruct (stored_rows s s' _ _ _ p Hst Hp1 Hp2) as [Hsame _].
    destruct (Hsame Hn) as [Hr He]. unfold data_of. rewrite Hr, He. f_equal.
    apply option_eq. intros m. rewrite !lookup_file_meta by done. split; intros (r & Hrn & Hm); exists r; (split; [|done]).
    + apply Hother; [done|]. unfold meta_row in Hm. injection Hm as -> _. done.
    + apply Hkept; [done|]. unfold meta_row in Hm. injection Hm as -> _. done.
Qed.

(** *** The queries *)

Hypothesis unordered_perm : ∀ A (l : list A), unordered A l ≡ₚ l.

(** Chunked rows gather a map of one value for each path. *)
Lemma chunked_rows {A} (rows : list string → list (string * A)) (f : gmap string A) cs out p :
  (∀ c x, (p, x) ∈ rows c ↔ p ∈ c ∧ f !! p = Some x) →
  foldl (λ out c, foldl put_row out (unordered _ (rows c))) out cs !! p =
    if decide (p ∈ concat cs) then match f !! p with Some x => Some x | None => out !! p end else out !! p.
Proof using Type unordered_perm.
  intros Hrows. revert out. induction cs as [|c cs IH]; intros out; [done|].
  cbn [foldl concat]. rewrite IH.
  destruct (foldl_put_row out (unordered _ (rows c)) p) as [H1 H2].
  { intros x y. rewrite !unordered_perm, !Hrows. intros [_ Hx] [_ Hy]. congruence. }
  assert (Hc : foldl put_row out (unordered _ (rows c)) !! p =
    if decide (p ∈ c) then match f !! p with Some x => Some x | None => out !! p end else out !! p).
  { destruct (decide (p ∈ c)) as [Hp|Hp].
    - destruct (f !! p) as [x|] eqn:Hf.
      + apply H1. rewrite unordered_perm. by apply Hrows.
      + apply H2. intros x. rewrite unordered_perm, Hrows. by intros [_ ?].
    - apply H2. intros x. rewrite unordered_perm, Hrows. by intros [? _]. }
  rewrite Hc. destruct (decide (p ∈ concat cs)) as [H3|H3].
  - rewrite (decide_True (P := p ∈ c ++ concat cs)) by (apply elem_of_app; by right).
    destruct (f !! p); [done|]. by destruct (decide (p ∈ c)).
  - destruct (decide (p ∈ c)) as [H4|H4].
    + by rewrite (decide_True (P := p ∈ c ++ concat cs)) by (apply elem_of_app; by left).
    + by rewrite decide_False by (rewrite elem_of_app; by intros [|]).
Qed.

Lemma meta_for_files l s p :
  valid s → get_file_meta_for_files l s !! p =
    if decide (p ∈ l) then filter (λ x : string * (string * Z), x.2.1 ≠ "") (file_meta s) !! p else None.
Proof using Type unordered_perm.
  intros Hv. unfold get_file_meta_for_files. set (meta := filter _ (file_meta s)). rewrite (chunked_rows _ meta).
  - rewrite concat_chunks, lookup_empty by lia. case_decide; [|done]. by destruct (meta !! p).
  - intros c x. unfold meta. rewrite elem_of_remove_dups, list_elem_of_fmap, map_lookup_filter_Some, lookup_file_meta by done.
    split.
    + intros (r & Hm & [[Hh Hc] Hr]%list_elem_of_filter). unfold meta_row, in_files in *. injection Hm as -> ->.
      split; [done|]. split; [by exists r|done].
    + intros (Hp & (r & Hr & Hm) & Hh). exists r. split; [done|]. unfold meta_row, in_files in *. injection Hm as <- <-.
      by apply list_elem_of_filter.
Qed.

Lemma hashes_for_files l s p :
  valid s → get_file_hashes l s !! p = if decide (p ∈ l) then fst <$> file_meta s !! p else None.
Proof using Type unordered_perm.
  intros Hv. unfold get_file_hashes. rewrite (chunked_rows _ (fst <$> file_meta s)).
  - rewrite concat_chunks, lookup_empty by lia. rewrite lookup_fmap. case_decide; [|done]. by destruct (file_meta s !! p).
  - intros c x. rewrite list_elem_of_fmap, lookup_fmap. split.
    + intros (r & Hm & [[_ Hc] Hr]%list_elem_of_filter). injection Hm as -> ->. split; [done|].
      assert (Hf : file_meta s !! file_path (vals r) = Some (file_hash (vals r), mtime_ns (vals r))).
      { apply lookup_file_meta; [done|]. by exists r. }
      by rewrite Hf.
    + intros [Hp Hx]. destruct (file_meta s !! p) as [[h m]|] eqn:Hm; [|done]. apply lookup_file_meta in Hm as (r & Hr & Hm); [|done].
      unfold meta_row in Hm. destruct (valid_file s Hv r Hr) as (f & Hf & Hk & Hfp). exists f.
      pose proof (valid_meta s Hv f r Hf Hr Hfp) as Heq. unfold meta_row in Heq. split.
      * cbn in Hx. congruence.
      * apply list_elem_of_filter. split; [|done]. split; [done|]. unfold in_files. congruence.
Qed.

Lemma all_files_spec s p : valid s → (p ∈ get_all_files s ↔ p ∈ dom (held s)).
Proof using Type unordered_perm.
  intros Hv. unfold get_all_files. rewrite unordered_perm, elem_of_remove_dups, list_elem_of_fmap, dom_held by done. split.
  - intros (r & -> & [_ Hr]%list_elem_of_filter). by exists r.
  - intros (r & Hr & <-). destruct (valid_file s Hv r Hr) as (f & Hf & Hk & Hp). exists f. split; [done|].
    by apply list_elem_of_filter.
Qed.

Lemma metadata_ok k v (s : Graph) : valid s → valid (set_metadata k v s) ∧ held (set_metadata k v s) = held s.
Proof.
  intros Hv. split; [|by apply held_same]. apply (valid_same s); [|done|done]. destruct (valid_ok s Hv). by split.
Qed.

Lemma item_data_path (i j : Update.Item) :
  item_nodes _ _ i = item_nodes _ _ j → item_edges _ _ i = item_edges _ _ j → item_data i = item_data j.
Proof. unfold item_data. by intros -> ->. Qed.

Lemma bulk_ok (s : Graph) :
  valid s → (valid (begin_bulk_load s) ∧ held (begin_bulk_load s) = held s) ∧
            (valid (finish_bulk_load stamp s) ∧ held (finish_bulk_load stamp s) = held s).
Proof.
  intros Hv. split; (split; [|apply held_same]).
  - apply (valid_same s); [|unfold begin_bulk_load; by case_match|done]. unfold begin_bulk_load. pose proof (valid_ok s Hv) as Hok.
    case_match; [done|]. destruct Hok. by split.
  - unfold begin_bulk_load. by case_match.
  - unfold begin_bulk_load. by case_match.
  - apply (valid_same s); [|unfold finish_bulk_load; by case_match|done]. unfold finish_bulk_load. pose proof (valid_ok s Hv) as Hok.
    case_match; [done|]. destruct Hok. by split.
  - unfold finish_bulk_load. by case_match.
  - unfold finish_bulk_load. by case_match.
Qed.

(** C5: The graph store keeps every promise builds and updates are proved
    against: what it holds of a file is the hash, time, nodes and edges of its
    rows; a batch of items that can be stored succeeds and replaces exactly the
    data of its files; removals, times, metadata and bulk loads touch nothing
    else; and its queries answer from the same rows, however they are chunked
    and in whatever order they come. *)
Theorem store_is_file_graph : Update.FileGraphLaws Graph item_ok.
Proof using Type unordered_perm.
  split.
  - intros i j _. apply item_data_path.
  - apply all_files_spec.
  - intros l s p Hv. cbn. rewrite (meta_for_files l s p Hv). case_decide; [|done].
    unfold Update.meta_of. cbn. rewrite !map_lookup_filter, lookup_fmap, lookup_held.
    by destruct (file_meta s !! p) as [[]|].
  - apply metadata_ok.
  - apply mtimes_held.
  - intros l s Hv. cbn. rewrite remove_files_data_eq. destruct (removed_held l s Hv) as [Hv' He]. split.
    + apply (valid_same (removed l s)); [by apply watermark_ok, valid_ok|done|done].
    + rewrite <-He. by apply held_same.
  - intros s Hv. apply (bulk_ok s Hv).
  - intros s Hv. apply (bulk_ok s Hv).
  - intros batch s Hv Hnd Hok. by apply batch_held.
Qed.

(** In a store that a build wrote, the hash asked of a file alone is the hash
    of its metadata, for every list of paths, where that is not empty, and a path
    has one exactly when the store has a node in it. *)
Theorem file_hashes_agree l s p :
  valid s →
  fst <$> get_file_meta_for_files l s !! p = (h ← get_file_hashes l s !! p; if decide (h = "") then None else Some h) ∧
  (is_Some (get_file_hashes l s !! p) ↔ p ∈ l ∧ p ∈ get_all_files s).
Proof using Type unordered_perm.
  intros Hv. rewrite (hashes_for_files l s p Hv), (meta_for_files l s p Hv), (all_files_spec s p Hv), elem_of_dom, lookup_held.
  rewrite map_lookup_filter. destruct (decide (p ∈ l)) as [Hp|Hp]; [|split; [done|split; [by intros []|by intros []]]].
  destruct (file_meta s !! p) as [[h m]|]; cbn; [|split; [done|split; [by intros []|by intros [_ []]]]].
  split; [|split; [split; [done|by eexists]|by eexists]]. case_guard as Hg; cbn in *; by case_decide.
Qed.

End store_graph.

(** ** The theorems at work *)

#[local] Existing Instance text_json.

Lemma demo_item_ok : Forall item_ok demo_batch.
Proof.
  assert (Hj : ∀ v : Value, json_kept v).
  { intros v. unfold json_kept, extra_json. destruct (is_null v || is_empty_object v); [by eexists|].
    exists v. split; [done|by exists v]. }
  apply Forall_singleton. split; cbn.
  - intros n [->|Hn]%elem_of_cons; [done|]. by apply list_elem_of_singleton in Hn as ->.
  - intros e [->|He]%elem_of_cons; [done|]. by apply list_elem_of_singleton in He as ->.
  - eexists. split; [left|done].
  - done.
  - split; intros; apply Hj.
Defined.

Lemma demo_valid : valid demo_store.
Proof.
  destruct (batch_held no_text no_links one "now" (λ _ l, l) demo_batch (new_store true)) as (s' & Hs & Hv & _).
  - split; [apply new_store_ok|..]; [by intros r r' Hr%not_elem_of_nil|by intros r Hr%not_elem_of_nil].
  - apply demo_batch_ok.
  - apply demo_item_ok.
  - unfold demo_store. by rewrite Hs.
Qed.

Lemma store_is_file_graph_witness :
  (∀ A (l : list A), in_order A l ≡ₚ l) ∧
  Update.FileGraphLaws (FG := store_graph no_text no_links one "now" in_order) (GraphStore (F := unit)) item_ok.
Proof. split; [exact in_order_perm|]. exact (store_is_file_graph no_text no_links one "now" in_order in_order_perm). Defined.

Lemma file_hashes_agree_witness :
  valid demo_store ∧ get_file_hashes in_order ["b.py"; "a.py"] demo_store !! "a.py" = Some "h1" ∧
  "a.py" ∈ get_all_files in_order demo_store.
Proof.
  destruct (file_hashes_agree in_order in_order_perm ["b.py"; "a.py"] demo_store "a.py" demo_valid) as [_ Hin].
  assert (Hh : get_file_hashes in_order ["b.py"; "a.py"] demo_store !! "a.py" = Some "h1") by by vm_compute.
  split; [exact demo_valid|split; [exact Hh|]]. apply Hin. rewrite Hh. by eexists.
Defined.

End StoreGraph.
