(* ===== verification/EdgePass.v ===== *)
(** * Passes over the edges

    The post-processing passes of crates/dagayn-graph/src/postprocess/ read the
    edges they may change, then update them one by one by row id.  This file is
    what they share: the update of a target, the loop, and the theorem that the
    loop does to each edge what its own row asks for. *)
From S2P Require Import Prelude GraphData Store.
Import GraphData Store.

Module EdgePass.

#[local] Set Default Proof Using "Type".

(** A target with the confidence its evidence supports. *)
Abbreviation Resolution := (string * f64 * ConfidenceTier)%type (only parsing).

(** [UPDATE edges SET target_qualified, target_name, confidence,
    confidence_tier].

    Source: crates/dagayn-graph/src/postprocess/bare_names.rs 614-624 [set_call_target]. *)
Definition with_target (r : Resolution) (v : EdgeVals) : EdgeVals :=
  let '(qn, confidence, tier) := r in
  mkEdgeVals (e_kind v) (source_qualified v) qn (edge_target_name qn) (e_file_path v) (e_line v) (e_extra v) confidence
    (as_str tier) (e_updated_at v).

Lemma NoDup_fmap_elem {A B} (f : A → B) l x y : NoDup (f <$> l) → x ∈ l → y ∈ l → f x = f y → x = y.
Proof.
  induction l as [|z l IH]; [by intros _ ?%not_elem_of_nil|]. rewrite fmap_cons. intros [Hz Hnd]%NoDup_cons.
  intros [->|Hx]%elem_of_cons [->|Hy]%elem_of_cons Hf; [done| | |by apply IH].
  - destruct Hz. rewrite Hf. by apply list_elem_of_fmap_2.
  - destruct Hz. rewrite <-Hf. by apply list_elem_of_fmap_2.
Qed.

Lemma filter_ext_elem {A} (P Q : A → Prop) `{!∀ x, Decision (P x), !∀ x, Decision (Q x)} (l : list A) :
  (∀ x, x ∈ l → P x ↔ Q x) → filter P l = filter Q l.
Proof.
  induction l as [|x l IH]; intros HPQ; [done|]. rewrite !filter_cons, IH by (intros y Hy; apply HPQ; by right).
  assert (Hx : P x ↔ Q x) by (apply HPQ; left).
  destruct (decide (P x)); [by rewrite decide_True by tauto|by rewrite decide_False by tauto].
Qed.

Lemma filter_nothing {A} (P : A → Prop) `{!∀ x, Decision (P x)} (l : list A) : (∀ x, x ∈ l → ¬ P x) → filter P l = [].
Proof.
  intros Hl. induction l as [|x l IH]; [done|]. rewrite filter_cons, decide_False by (apply Hl; left).
  apply IH. intros y Hy. apply Hl. by right.
Qed.

Lemma filter_all {A} (P : A → Prop) `{!∀ x, Decision (P x)} (l : list A) : (∀ x, x ∈ l → P x) → filter P l = l.
Proof.
  intros Hl. induction l as [|x l IH]; [done|]. rewrite filter_cons, decide_True by (apply Hl; left).
  rewrite IH; [done|]. intros y Hy. apply Hl. by right.
Qed.

Lemma foldl_ext_elem {A B} (f g : A → B → A) a l : (∀ a x, x ∈ l → f a x = g a x) → foldl f a l = foldl g a l.
Proof.
  revert a. induction l as [|x l IH]; intros a Hfg; [done|]. cbn [foldl]. rewrite (Hfg a x) by left.
  apply IH. intros b y Hy. apply Hfg. by right.
Qed.

(** A change that leaves alone what a filter keeps. *)
Lemma filter_changed {A} (p : A → bool) (f : A → A) (l : list A) :
  (∀ x, f x = x ∨ (p x = false ∧ p (f x) = false)) → filter (λ x, p x = true) (f <$> l) = filter (λ x, p x = true) l.
Proof.
  intros Hf. induction l as [|x l IH]; [done|]. rewrite fmap_cons, !filter_cons, IH.
  destruct (Hf x) as [->|[-> ->]]; [done|]. by rewrite !decide_False by done.
Qed.

(** A fold that succeeds succeeds at each element. *)
Lemma try_fold_step {A B} (f : A → B → Result A) a l a' x :
  try_fold f a l = inl a' → x ∈ l → ∃ b b', f b x = inl b'.
Proof.
  revert a. induction l as [|y l IH]; intros a; [by intros _ ?%not_elem_of_nil|]. cbn [try_fold].
  destruct (f a y) as [a1|] eqn:Hy; cbn [mbind result_bind rbind]; [|done]. intros Hrun [->|Hx]%elem_of_cons; [by exists a, a1|].
  by apply (IH a1).
Qed.

Section pass.
Context {F : Type}.

#[local] Abbreviation Graph := (GraphStore (F := F)).

Lemma set_edges_id (f : EdgeRow → EdgeRow) (s : Graph) :
  (∀ e, e ∈ edges s → f e = e) → set_edges (f <$> edges s) (edge_seq s) s = s.
Proof.
  intros Hf. assert (Hid : f <$> edges s = edges s).
  { rewrite <-(list_fmap_id (edges s)) at 2. apply list_fmap_ext. intros i e Hi%list_elem_of_lookup_2. by apply Hf. }
  rewrite Hid. by destruct s.
Qed.

(** [UPDATE edges SET .. WHERE id = ?]. *)
Definition update_edge (id : Z) (f : EdgeVals → EdgeVals) (s : Graph) : Graph :=
  set_edges ((λ e, if bool_decide (edge_id e = id) then mkEdgeRow id (f (e_vals e)) else e) <$> edges s) (edge_seq s) s.

(** Source: crates/dagayn-graph/src/postprocess/bare_names.rs 607-626 [set_call_target]. *)
Definition set_call_target (id : Z) (r : Resolution) (s : Graph) : Graph := update_edge id (with_target r) s.

(** A pass: what it does to an edge, and whether it counts that. *)
Section change.
Context (change : EdgeRow → option (bool * (EdgeVals → EdgeVals))).

Definition pass_step (st : Graph * nat) (e : EdgeRow) : Graph * nat :=
  match change e with
  | Some (counted, f) => (update_edge (edge_id e) f st.1, (if counted then S st.2 else st.2))
  | None => st
  end.

Definition changed (e : EdgeRow) : EdgeRow :=
  match change e with Some (_, f) => mkEdgeRow (edge_id e) (f (e_vals e)) | None => e end.

Definition counts (e : EdgeRow) : bool := match change e with Some (b, _) => b | None => false end.

Lemma changed_ids (l : list EdgeRow) : edge_id <$> (changed <$> l) = edge_id <$> l.
Proof.
  rewrite <-list_fmap_compose. apply list_fmap_ext. intros i e _. unfold compose, changed. by destruct (change e) as [[? ?]|].
Qed.

(** The loop over some rows of the table, each read before the loop. *)
Lemma pass_steps (l : list EdgeRow) (s : Graph) n :
  NoDup (edge_id <$> l) →
  foldl pass_step (s, n) l =
    (set_edges ((λ e, match list_find (λ x, edge_id x = edge_id e) l with
                      | Some (_, x) => match change x with
                                       | Some (_, f) => mkEdgeRow (edge_id e) (f (e_vals e))
                                       | None => e
                                       end
                      | None => e
                      end) <$> edges s) (edge_seq s) s,
     n + length (filter (λ e, counts e = true) l)).
Proof.
  revert s n. induction l as [|x l IH]; intros s n Hnd.
  { cbn. rewrite list_fmap_id, Nat.add_0_r. by destruct s. }
  rewrite fmap_cons in Hnd. apply NoDup_cons in Hnd as [Hx Hnd]. cbn [foldl]. rewrite filter_cons.
  assert (Hnone : list_find (λ y, edge_id y = edge_id x) l = None).
  { apply list_find_None, Forall_forall. intros y Hy Heq. apply Hx. rewrite <-Heq. by apply list_elem_of_fmap_2. }
  assert (Hcx : counts x = match change x with Some (b, _) => b | None => false end) by done.
  unfold pass_step at 2. destruct (change x) as [[b f]|] eqn:Hc.
  - rewrite IH by done. cbn [fst snd]. f_equal.
    + unfold update_edge, set_edges. cbn [edges edge_seq nodes node_seq flow_memberships risk_index fts metadata write_indexes bulk].
      f_equal. rewrite <-list_fmap_compose. apply list_fmap_ext. intros i e _. unfold compose. cbn [list_find].
      destruct (decide (edge_id x = edge_id e)) as [He|He].
      * rewrite bool_decide_eq_true_2 by done. cbn [edge_id]. rewrite Hnone, Hc. by rewrite He.
      * rewrite bool_decide_eq_false_2 by congruence. by destruct (list_find (λ y, edge_id y = edge_id e) l) as [[? ?]|].
    + destruct b; [rewrite decide_True by done|rewrite decide_False by (by rewrite Hcx)]; cbn [length]; lia.
  - rewrite IH by done. rewrite decide_False by (by rewrite Hcx). f_equal. unfold set_edges. f_equal. apply list_fmap_ext. intros i e _. cbn [list_find].
    destruct (decide (edge_id x = edge_id e)) as [He|He];
      [|by destruct (list_find (λ y, edge_id y = edge_id e) l) as [[? ?]|]].
    rewrite He in Hnone. by rewrite Hnone, Hc.
Qed.

Lemma list_find_id (l : list EdgeRow) e :
  NoDup (edge_id <$> l) → e ∈ l → ∃ i, list_find (λ x, edge_id x = edge_id e) l = Some (i, e).
Proof.
  induction l as [|x l IH]; [by intros _ ?%not_elem_of_nil|]. rewrite fmap_cons. intros [Hx Hnd]%NoDup_cons He. cbn [list_find].
  apply elem_of_cons in He as [->|He].
  - rewrite decide_True by done. by exists 0.
  - rewrite decide_False; [|intros Heq; apply Hx; rewrite Heq; by apply list_elem_of_fmap_2].
    destruct (IH Hnd He) as [i ->]. by exists (S i).
Qed.

(** A pass over the rows that satisfy [P], in any order, does to every row what
    [change] says, when it says nothing about the others. *)
Lemma pass_spec (P : EdgeRow → Prop) `{!∀ e, Decision (P e)} (l : list EdgeRow) (s : Graph) :
  NoDup (edge_id <$> edges s) → l ≡ₚ filter P (edges s) → (∀ e, e ∈ edges s → ¬ P e → change e = None) →
  foldl pass_step (s, 0) l = (set_edges (changed <$> edges s) (edge_seq s) s, length (filter (λ e, counts e = true) (edges s))).
Proof.
  intros Hnd Hl HP.
  assert (Hndl : NoDup (edge_id <$> l)).
  { rewrite Hl. eapply sublist_NoDup; [exact Hnd|]. apply fmap_sublist, sublist_filter. }
  rewrite (pass_steps l s 0 Hndl). f_equal.
  - unfold set_edges. f_equal. apply list_fmap_ext. intros i e He. apply list_elem_of_lookup_2 in He.
    destruct (decide (P e)) as [Hp|Hp].
    + assert (Hel : e ∈ l) by (rewrite Hl; by apply list_elem_of_filter).
      destruct (list_find_id l e Hndl Hel) as [j ->]. done.
    + unfold changed. rewrite (HP e He Hp).
      destruct (list_find _ l) as [[j x]|] eqn:Hf; [|done]. apply list_find_Some in Hf as (Hx & Hid & _).
      apply list_elem_of_lookup_2 in Hx. rewrite Hl in Hx. apply list_elem_of_filter in Hx as [Hpx Hx].
      destruct Hp. by rewrite <-(NoDup_fmap_elem edge_id (edges s) x e Hnd Hx He Hid).
  - cbn [plus]. rewrite (Permutation_length (filter_Permutation (λ e, counts e = true) _ _ Hl)), list_filter_filter.
    f_equal. apply filter_ext_elem. intros e He. split; [by intros []|]. intros Hc. split; [done|].
    destruct (decide (P e)) as [|Hp]; [done|]. revert Hc. unfold counts. by rewrite (HP e He Hp).
Qed.

(** Nothing to change. *)
Lemma pass_nothing (l : list EdgeRow) (s : Graph) :
  (∀ e, e ∈ l → change e = None) → foldl pass_step (s, 0) l = (s, 0).
Proof.
  induction l as [|e l IH]; intros Hl; [done|]. cbn [foldl]. unfold pass_step at 2. rewrite (Hl e) by left.
  apply IH. intros x Hx. apply Hl. by right.
Qed.

End change.

(** The passes that only retarget. *)
Definition retarget (answer : EdgeRow → option Resolution) (e : EdgeRow) : option (bool * (EdgeVals → EdgeVals)) :=
  (λ r, (true, with_target r)) <$> answer e.

Lemma retarget_counts answer (l : list EdgeRow) : filter (λ e, counts (retarget answer) e = true) l = filter (λ e, is_Some (answer e)) l.
Proof.
  apply list_filter_iff. intros e. unfold counts, retarget. destruct (answer e) as [r|]; cbn.
  - split; [by eexists|done].
  - split; [done|by intros [? ?]].
Qed.

End pass.

End EdgePass.
