(* ===== verification/Visibility.v ===== *)
(** * Which files see which symbols

    Models the first half of crates/dagayn-graph/src/postprocess/bare_names.rs:
    language families, namespaces, and the files a file can name symbols from
    through its imports, what they re-export and what it glob-imports.  The
    fixpoint of [import_targets_conn] is shown to end and to be exactly the
    smallest such relation, in whatever order hash maps are walked.  SQLite's
    [json_extract] is a parameter. *)
From S2P Require Import Prelude GraphData Sqlite Store Impact.
Import GraphData Sqlite Store Impact.

Module Visibility.

#[local] Set Default Proof Using "Type".

(** ** Text *)

Definition dot : Ascii.ascii := Ascii.ascii_of_nat 46.
Definition slash : Ascii.ascii := Ascii.ascii_of_nat 47.
Definition backslash : Ascii.ascii := Ascii.ascii_of_nat 92.

(** [str::contains] of one character. *)
Fixpoint has_char (c : Ascii.ascii) (s : string) : bool :=
  match s with EmptyString => false | String d s => bool_decide (d = c) || has_char c s end.

(** [str::rsplit_once] at one character. *)
Fixpoint rsplit_once (c : Ascii.ascii) (s : string) : option (string * string) :=
  match s with
  | EmptyString => None
  | String d s =>
      match rsplit_once c s with
      | Some (before, after) => Some (String d before, after)
      | None => if bool_decide (d = c) then Some ("", s) else None
      end
  end.

(** [str::split] at one character. *)
Fixpoint split_char (c : Ascii.ascii) (s : string) : list string :=
  match s with
  | EmptyString => [""]
  | String d s =>
      if bool_decide (d = c) then "" :: split_char c s
      else match split_char c s with p :: ps => String d p :: ps | [] => [] end
  end.

(** [str::replace] of ["::"] by a dot. *)
Fixpoint colons_to_dot (s : string) : string :=
  match s with
  | String c (String d rest as s') =>
      if bool_decide (c = colon ∧ d = colon) then String dot (colons_to_dot rest) else String c (colons_to_dot s')
  | _ => s
  end.

(** A symbol below the top of its file: [file::a.b]. *)
Definition nested (qn : string) : bool :=
  match split_colons qn with Some (_, symbol) => has_char dot symbol | None => false end.

(** ** Names and languages *)

(** Source: crates/dagayn-graph/src/postprocess/bare_names.rs 15-19 [DIRECT_IMPORT_CONFIDENCE]. *)
Definition DIRECT_IMPORT_CONFIDENCE : f64 := SpecFloat.S754_finite false 8106479329266893 (-53).
Definition INFERRED_CONFIDENCE : f64 := SpecFloat.S754_finite false 5404319552844595 (-53).
Definition BARE_UNRESOLVED_CONFIDENCE : f64 := SpecFloat.S754_finite false 5404319552844595 (-54).

(** Source: crates/dagayn-graph/src/postprocess/bare_names.rs 21-62 [looks_like_file_target]. *)
Definition looks_like_file_target (target : string) : bool :=
  let path := match split_colons target with Some (file, _) => file | None => target end in
  has_char slash path || has_char backslash path ||
  existsb (λ suffix, str_ends_with suffix (to_ascii_lower path))
    [".md"; ".markdown"; ".py"; ".tf"; ".tfvars"; ".rs"; ".js"; ".mjs"; ".cjs"; ".ts"; ".mts"; ".cts"; ".tsx"; ".jsx";
     ".java"; ".go"; ".rb"; ".php"; ".cs"; ".cpp"; ".hpp"; ".c"; ".h"; ".swift"; ".kt"; ".scala"; ".dart"; ".ipynb"].

(** Source: crates/dagayn-graph/src/postprocess/bare_names.rs 64-69 [node_file_from_qualified]. *)
Definition node_file_from_qualified (qualified fallback : string) : string :=
  match split_colons qualified with Some (file, _) => file | None => fallback end.

(** Source: crates/dagayn-graph/src/postprocess/bare_names.rs 73-77 [NAMESPACE_FILE_SUFFIXES]. *)
Definition NAMESPACE_FILE_SUFFIXES : list string :=
  [".c"; ".cjs"; ".cpp"; ".cs"; ".cts"; ".dart"; ".go"; ".h"; ".hpp"; ".java"; ".jl"; ".js"; ".json"; ".jsx"; ".kt"; ".md";
   ".mjs"; ".mts"; ".php"; ".py"; ".rb"; ".rs"; ".scala"; ".swift"; ".tf"; ".ts"; ".tsx"].

(** Source: crates/dagayn-graph/src/postprocess/bare_names.rs 79-87 [normalize_namespace]. *)
Definition normalize_namespace (value : string) : string :=
  String.concat "." (filter (.≠ "") (split_char dot (colons_to_dot (replace_char backslash dot value)))).

(** Source: crates/dagayn-graph/src/postprocess/bare_names.rs 89-100 [is_namespace_candidate]. *)
Definition is_namespace_candidate (target : string) : bool :=
  if has_char slash target then false
  else match rsplit_once dot target with
       | Some (_, suffix) => negb (bool_decide (String dot (to_ascii_lower suffix) ∈ NAMESPACE_FILE_SUFFIXES))
       | None => true
       end.

(** Source: crates/dagayn-graph/src/postprocess/bare_names.rs 372-398 [language_family]. *)
Definition language_family (file_path : string) : option string :=
  '(_, ext) ← rsplit_once dot file_path;
  let ext := to_ascii_lower ext in
  let among l := bool_decide (ext ∈ l) in
  if among ["py"; "pyi"; "ipynb"] then Some "python"
  else if among ["rs"] then Some "rust"
  else if among ["c"; "h"; "cc"; "cpp"; "cxx"; "hh"; "hpp"; "hxx"; "m"; "mm"] then Some "c"
  else if among ["js"; "jsx"; "mjs"; "cjs"; "ts"; "tsx"; "mts"; "cts"; "vue"; "svelte"] then Some "javascript"
  else if among ["java"; "kt"; "kts"; "scala"; "sc"] then Some "jvm"
  else if among ["cs"] then Some "csharp"
  else if among ["go"] then Some "go"
  else if among ["rb"] then Some "ruby"
  else if among ["php"] then Some "php"
  else if among ["swift"] then Some "swift"
  else if among ["dart"] then Some "dart"
  else if among ["lua"] then Some "lua"
  else if among ["pl"; "pm"] then Some "perl"
  else if among ["r"] then Some "r"
  else if among ["jl"] then Some "julia"
  else if among ["ex"; "exs"] then Some "elixir"
  else if among ["zig"] then Some "zig"
  else if among ["gd"] then Some "gdscript"
  else if among ["sh"; "bash"; "zsh"] then Some "bash"
  else None.

(** Source: crates/dagayn-graph/src/postprocess/bare_names.rs 401-406 [same_language_family]. *)
Definition same_language_family (a b : option string) : bool :=
  match a, b with Some a, Some b => bool_decide (a = b) | _, _ => true end.

(** ** Which files see which *)

(** A multimap from files. *)
Abbreviation Sets := (gmap string (gset string)) (only parsing).
Definition sets_at (m : Sets) (k : string) : gset string := default ∅ (m !! k).
Definition add_to (m : Sets) (k x : string) : Sets := <[k := {[x]} ∪ sets_at m k]> m.

(** Source: crates/dagayn-graph/src/postprocess/bare_names.rs 112-119 [SymbolVisibility]. *)
Record SymbolVisibility := mkVisibility { declared : Sets; imported : Sets; class_files : Sets }.

(** Source: crates/dagayn-graph/src/postprocess/bare_names.rs 122-124 [has_namespaces]. *)
Definition has_namespaces (v : SymbolVisibility) : bool := negb (bool_decide (declared v = ∅)).

(** Source: crates/dagayn-graph/src/postprocess/bare_names.rs 129-137 [can_see]. *)
Definition can_see (v : SymbolVisibility) (source_file target_file : string) : bool :=
  match declared v !! target_file with
  | None => false
  | Some namespaces =>
      let shares (other : option (gset string)) :=
        match other with Some other => negb (bool_decide (namespaces ∩ other = ∅)) | None => false end in
      shares (declared v !! source_file) || shares (imported v !! source_file)
  end.

(** Source: crates/dagayn-graph/src/postprocess/bare_names.rs 144-148 [declaring_files]. *)
Definition declaring_files (v : SymbolVisibility) (target_qualified : string) : option (gset string) :=
  '(_, symbol) ← split_colons target_qualified;
  '(owner, _) ← rsplit_once dot symbol;
  class_files v !! owner.

Section store.
Context `{Json} {F : Type}.
(** SQLite's [json_extract] of a member, and its truth value of a value; the
    strings of an array member; rows without [ORDER BY]. *)
Context (json_extract : string → string → option Sql) (truth : Sql → bool).
Context (get_strings : Value → string → option (list string)) (unordered : ∀ A, list A → list A).

#[local] Abbreviation Graph := (GraphStore (F := F)).

(** Source: crates/dagayn-graph/src/postprocess/bare_names.rs 169-192 [symbol_visibility]. *)
Definition declared_namespaces (s : Graph) : Result Sets :=
  try_fold (λ m r,
    extra ← parse_json_column (Some (extra (vals r)));
    inl (foldl (λ m namespace,
      let key := normalize_namespace namespace in if bool_decide (key = "") then m else add_to m (file_path (vals r)) key)
      m (default [] (get_strings extra "namespaces"))))
    ∅ (unordered _ (filter (λ r, kind (vals r) = "File" ∧ str_contains "namespaces" (to_ascii_lower (extra (vals r))) = true)
                      (nodes s))).

(** Source: crates/dagayn-graph/src/postprocess/bare_names.rs 210-229 [symbol_visibility]. *)
Definition imported_namespaces (s : Graph) : Sets :=
  foldl (λ m '(file, target),
    if negb (is_namespace_candidate target) then m
    else
      let key := normalize_namespace target in
      if bool_decide (key = "") then m
      else add_to (match rsplit_once dot key with Some (parent, _) => add_to m file parent | None => m end) file key)
    ∅ (unordered _ (remove_dups ((λ e, (e_file_path (e_vals e), target_qualified (e_vals e))) <$>
         filter (λ e, e_kind (e_vals e) = "IMPORTS_FROM") (edges s)))).

(** Source: crates/dagayn-graph/src/postprocess/bare_names.rs 167-231 [symbol_visibility]. *)
Definition symbol_visibility (s : Graph) : Result SymbolVisibility :=
  declared ← declared_namespaces s;
  let class_files := foldl (λ m r, add_to m (name (vals r)) (file_path (vals r))) ∅
    (unordered _ (filter (λ r, kind (vals r) = "Class") (nodes s))) in
  let visibility := mkVisibility declared ∅ class_files in
  inl (if negb (has_namespaces visibility) then visibility
       else mkVisibility declared (imported_namespaces s) class_files).

(** An import as it is read: the two files, whether the target is re-exported,
    whether it is a glob. *)
Definition Import : Type := string * string * bool * bool.

(** Source: crates/dagayn-graph/src/postprocess/bare_names.rs 248-263 [import_targets_conn]. *)
Definition import_row (e : EdgeRow) : Result (string * string * bool * bool) :=
  let v := e_vals e in
  let re_export :=
    match json_extract (e_extra v) "re_export" with Some x => truth x | None => false end
    || like "%/__init__.py" (e_file_path v) || bool_decide (e_file_path v = "__init__.py") in
  glob ← read_flag (json_extract (e_extra v) "glob");
  inl (e_file_path v, target_qualified v, re_export, glob).

(** Source: crates/dagayn-graph/src/postprocess/bare_names.rs 247-266 [import_targets_conn]. *)
Definition import_rows (s : Graph) : Result (list Import) :=
  rows ← try_map import_row (unordered _ (filter (λ e,
    e_kind (e_vals e) = "IMPORTS_FROM" ∧ equals 0 (json_extract (e_extra (e_vals e)) "path_use") = true ∧
    equals 0 (json_extract (e_extra (e_vals e)) "package_import") = true) (edges s)));
  inl ((λ '(file, target, re_export, glob), (file, node_file_from_qualified target target, re_export, glob)) <$> remove_dups rows).

End store.

Section targets.
Context (unordered : ∀ A, list A → list A).

(** What the rows say of each file: its imports, re-exports and globs.

    Source: crates/dagayn-graph/src/postprocess/bare_names.rs 264-280 [import_targets_conn]. *)
Definition relations (rows : list Import) : Sets * Sets * Sets :=
  foldl (λ '(direct, re_exports, globs) '(file, target, re_export, glob),
    (add_to direct file target,
     if (re_export : bool) then add_to re_exports file target else re_exports,
     if (glob : bool) then add_to globs file target else globs)) (∅, ∅, ∅) rows.

Section sweeps.
Context (re_exports globs : Sets).

(** Take in what is not seen yet. *)
Definition push_new (st : gset string * list string) (x : string) : gset string * list string :=
  if bool_decide (x ∈ st.1) then st else ({[x]} ∪ st.1, x :: st.2).

(** The stack of modules whose re-exports are still to follow; each module is
    pushed once.

    Source: crates/dagayn-graph/src/postprocess/bare_names.rs 302-308 [import_targets_conn]. *)
Fixpoint drain (fuel : nat) (st : gset string * list string) : gset string :=
  match fuel, st.2 with
  | S fuel, module :: pending =>
      drain fuel (foldl push_new (st.1, pending) (unordered _ (elements (sets_at re_exports module))))
  | _, _ => st.1
  end.

Definition drain_fuel (st : gset string * list string) : nat :=
  length st.2 + size (map_fold (λ _ xs u, xs ∪ u) ∅ re_exports ∖ st.1 : gset string).

(** Source: crates/dagayn-graph/src/postprocess/bare_names.rs 291-313 [import_targets_conn]. *)
Definition sweep_file (targets : Sets) (file : string) : Sets * bool :=
  let seen := sets_at targets file in
  let st := foldl push_new (seen, unordered _ (elements seen))
    (module ← unordered _ (elements (sets_at globs file)); unordered _ (elements (sets_at targets module))) in
  let seen' := drain (drain_fuel st) st in
  if size seen' =? size seen then (targets, false) else (<[file := seen']> targets, true).

Definition sweep (targets : Sets) : Sets * bool :=
  foldl (λ '(targets, changed) file, let '(targets, c) := sweep_file targets file in (targets, changed || c))
    (targets, false) (unordered _ (elements (dom targets))).

(** Source: crates/dagayn-graph/src/postprocess/bare_names.rs 287-317 [import_targets_conn]. *)
Fixpoint sweeps (fuel : nat) (targets : Sets) : option Sets :=
  match fuel with
  | 0 => None
  | S fuel => let '(targets, changed) := sweep targets in if changed then sweeps fuel targets else Some targets
  end.

End sweeps.

(** Each sweep but the last adds a target to a file. *)
Definition sweeps_fuel (direct : Sets) : nat :=
  S (size (dom direct) * size (map_fold (λ _ xs u, xs ∪ u) ∅ direct : gset string)).

(** Source: crates/dagayn-graph/src/postprocess/bare_names.rs 243-319 [import_targets_conn]. *)
Definition import_targets (rows : list Import) : option Sets :=
  let '(direct, re_exports, globs) := relations rows in
  if bool_decide (re_exports = ∅) && bool_decide (globs = ∅) then Some direct
  else sweeps re_exports globs (sweeps_fuel direct) direct.

(** The whole query; its loop always has an answer ([import_targets_spec]).

    Source: crates/dagayn-graph/src/postprocess/bare_names.rs 321-323 [import_targets_tx]. *)
Definition import_targets_tx {F} (json_extract : string → string → option Sql) (truth : Sql → bool) (s : GraphStore (F := F))
    : Result Sets :=
  rows ← import_rows json_extract truth unordered s;
  inl (default ∅ (import_targets rows)).

(** ** What the fixpoint computes *)

Hypothesis unordered_perm : ∀ A (l : list A), unordered A l ≡ₚ l.

(** The smallest relation closed under what the code follows. *)
Inductive sees (rows : list Import) : string → string → Prop :=
  | sees_import f x re glob : (f, x, re, glob) ∈ rows → sees rows f x
  | sees_export f m x glob : sees rows f m → (m, x, true, glob) ∈ rows → sees rows f x
  | sees_glob f m x re : (f, m, re, true) ∈ rows → sees rows m x → sees rows f x.

Lemma add_to_spec m k x k' x' : x' ∈ sets_at (add_to m k x) k' ↔ (k' = k ∧ x' = x) ∨ x' ∈ sets_at m k'.
Proof.
  clear. unfold sets_at at 1, add_to. destruct (decide (k' = k)) as [->|Hn].
  - rewrite lookup_insert_eq. cbn. rewrite elem_of_union, elem_of_singleton. unfold sets_at. naive_solver.
  - rewrite lookup_insert_ne by done. fold (sets_at m k'). naive_solver.
Qed.

Lemma relations_spec rows :
  let '(direct, re_exports, globs) := relations rows in
  (∀ f x, x ∈ sets_at direct f ↔ ∃ re glob, (f, x, re, glob) ∈ rows) ∧
  (∀ f x, x ∈ sets_at re_exports f ↔ ∃ glob, (f, x, true, glob) ∈ rows) ∧
  (∀ f x, x ∈ sets_at globs f ↔ ∃ re, (f, x, re, true) ∈ rows).
Proof.
  clear. unfold relations. induction rows as [|[[[file target] re] glob] rows IH] using rev_ind.
  { cbn. split_and!; intros f x; unfold sets_at; rewrite lookup_empty; (split; [by intros ?%not_elem_of_empty|]).
    - by intros (? & ? & ?%not_elem_of_nil).
    - by intros (? & ?%not_elem_of_nil).
    - by intros (? & ?%not_elem_of_nil). }
  rewrite foldl_snoc. destruct (foldl _ _ rows) as [[direct re_exports] globs]. destruct IH as (H1 & H2 & H3).
  split_and!; intros f x.
  - rewrite add_to_spec, H1. setoid_rewrite elem_of_app. setoid_rewrite list_elem_of_singleton. naive_solver.
  - setoid_rewrite elem_of_app. setoid_rewrite list_elem_of_singleton.
    destruct re; [rewrite add_to_spec, H2|rewrite H2]; naive_solver.
  - setoid_rewrite elem_of_app. setoid_rewrite list_elem_of_singleton.
    destruct glob; [rewrite add_to_spec, H3|rewrite H3]; naive_solver.
Qed.

(** All there is to see. *)
Definition union_of (m : Sets) : gset string := map_fold (λ _ xs u, xs ∪ u) ∅ m.

Lemma elem_of_union_of m x : x ∈ union_of m ↔ ∃ k, x ∈ sets_at m k.
Proof.
  clear. unfold union_of, sets_at. revert m. apply (map_fold_weak_ind (λ u m, x ∈ u ↔ ∃ k, x ∈ default ∅ (m !! k))).
  - split; [by intros ?%not_elem_of_empty|]. intros [k Hk]. by rewrite lookup_empty in Hk.
  - intros k xs m u Hk IH. rewrite elem_of_union, IH. split.
    + intros [Hx|[k' Hx]]; [exists k; by rewrite lookup_insert_eq|]. exists k'.
      destruct (decide (k' = k)) as [->|Hn]; [by rewrite Hk in Hx|by rewrite lookup_insert_ne].
    + intros [k' Hx]. destruct (decide (k' = k)) as [->|Hn]; [left; by rewrite lookup_insert_eq in Hx|].
      right. exists k'. by rewrite lookup_insert_ne in Hx.
Qed.

(** *** The stack *)

Lemma push_all (st : gset string * list string) l (U : gset string) :
  (∀ x, x ∈ l → x ∈ U) →
  let st' := foldl push_new st l in
  (∀ x, x ∈ st'.1 ↔ x ∈ st.1 ∨ x ∈ l) ∧ (∀ x, x ∈ st'.2 ↔ x ∈ st.2 ∨ (x ∈ l ∧ x ∉ st.1)) ∧
  length st'.2 + size (U ∖ st'.1) = length st.2 + size (U ∖ st.1).
Proof.
  clear. revert st. induction l as [|y l IH]; intros [seen pending] HU.
  { cbn. split_and!; [intros x; rewrite elem_of_nil; tauto|intros x; rewrite elem_of_nil; tauto|done]. }
  cbn [foldl]. assert (HU' : ∀ x, x ∈ l → x ∈ U) by (intros x Hx; apply HU; by right).
  destruct (IH (push_new (seen, pending) y) HU') as (H1 & H2 & H3). unfold push_new in *. cbn [fst snd] in *.
  case_bool_decide as Hy; cbn [fst snd] in *.
  - split_and!; [intros x; rewrite H1, elem_of_cons; naive_solver|intros x; rewrite H2, elem_of_cons; naive_solver|done].
  - split_and!.
    + intros x. rewrite H1, elem_of_union, elem_of_singleton, elem_of_cons. naive_solver.
    + intros x. rewrite H2, !elem_of_cons, elem_of_union, elem_of_singleton.
      destruct (decide (x = y)); naive_solver.
    + rewrite H3. cbn [length]. assert (Hs : U ∖ seen = {[y]} ∪ (U ∖ ({[y]} ∪ seen))).
      { apply set_eq. intros x. specialize (HU y). rewrite elem_of_union, !elem_of_difference, elem_of_union, elem_of_singleton.
        destruct (decide (x = y)) as [->|]; [|naive_solver]. split; [by left|]. intros _. split; [apply HU; left|done]. }
      rewrite Hs. rewrite (size_union {[y]}).
      * rewrite size_singleton. lia.
      * intros x. rewrite elem_of_singleton, elem_of_difference, elem_of_union, elem_of_singleton. tauto.
Qed.

Lemma drain_spec re_exports fuel st (P : string → Prop) :
  (∀ m, m ∈ st.1 → m ∈ st.2 ∨ sets_at re_exports m ⊆ st.1) →
  length st.2 + size (union_of re_exports ∖ st.1) ≤ fuel →
  (∀ m x, P m → x ∈ sets_at re_exports m → P x) → (∀ x, x ∈ st.1 → P x) → (∀ x, x ∈ st.2 → x ∈ st.1) →
  let seen := drain re_exports fuel st in
  st.1 ⊆ seen ∧ (∀ m, m ∈ seen → sets_at re_exports m ⊆ seen) ∧ ∀ x, x ∈ seen → P x.
Proof using Type unordered_perm.
  intros Hinv Hf HP. revert st Hinv Hf. induction fuel as [|fuel IH]; intros [seen pending] Hinv Hf Hseen Hpend; cbn [fst snd] in *.
  { destruct pending; [|cbn in Hf; lia]. cbn. split; [done|]. split; [|done]. intros m Hm.
    destruct (Hinv m Hm) as [?%not_elem_of_nil|]; done. }
  destruct pending as [|m pending].
  { cbn. split; [done|]. split; [|done]. intros m Hm. destruct (Hinv m Hm) as [?%not_elem_of_nil|]; done. }
  change (drain re_exports (S fuel) (seen, m :: pending)) with
    (drain re_exports fuel (foldl push_new (seen, pending) (unordered _ (elements (sets_at re_exports m))))).
  set (l := unordered _ (elements (sets_at re_exports m))).
  assert (Hl : ∀ x, x ∈ l ↔ x ∈ sets_at re_exports m) by (intros x; unfold l; by rewrite unordered_perm, elem_of_elements).
  destruct (push_all (seen, pending) l (union_of re_exports)) as (H1 & H2 & H3).
  { intros x Hx%Hl. apply elem_of_union_of. by exists m. }
  set (st' := foldl push_new (seen, pending) l) in *. cbn [fst snd] in *.
  assert (Hm : m ∈ seen) by (apply Hpend; left).
  destruct (IH st') as (I1 & I2 & I3).
  - intros n [Hn|Hn]%H1.
    + destruct (Hinv n Hn) as [[->|Hin]%elem_of_cons|Hin].
      * right. intros x Hx. apply H1. right. by apply Hl.
      * left. apply H2. by left.
      * right. intros x Hx. apply H1. left. by apply Hin.
    + destruct (decide (n ∈ seen)) as [Hns|Hns].
      * destruct (Hinv n Hns) as [[->|Hin]%elem_of_cons|Hin].
        -- right. intros x Hx. apply H1. right. by apply Hl.
        -- left. apply H2. by left.
        -- right. intros x Hx. apply H1. left. by apply Hin.
      * left. apply H2. by right.
  - cbn [length] in Hf. lia.
  - intros x [Hx|Hx]%H1; [by apply Hseen|]. apply (HP m); [by apply Hseen|by apply Hl].
  - intros x [Hx|[Hx _]]%H2; apply H1; [left; apply Hpend; by right|by right].
  - split; [|done]. intros x Hx. apply I1, H1. by left.
Qed.

(** *** The sweeps *)

Section fixpoint.
Context (rows : list Import) (direct re_exports globs : Sets).
Hypothesis relations_eq : relations rows = (direct, re_exports, globs).

Lemma direct_spec f x : x ∈ sets_at direct f ↔ ∃ re glob, (f, x, re, glob) ∈ rows.
Proof using relations_eq. pose proof (relations_spec rows) as H1. rewrite relations_eq in H1. apply H1. Qed.

Lemma exports_spec f x : x ∈ sets_at re_exports f ↔ ∃ glob, (f, x, true, glob) ∈ rows.
Proof using relations_eq. pose proof (relations_spec rows) as H1. rewrite relations_eq in H1. apply H1. Qed.

Lemma globs_spec f x : x ∈ sets_at globs f ↔ ∃ re, (f, x, re, true) ∈ rows.
Proof using relations_eq. pose proof (relations_spec rows) as H1. rewrite relations_eq in H1. apply H1. Qed.

Lemma sets_at_dom m k x : x ∈ sets_at m k → k ∈ dom m.
Proof. clear. unfold sets_at. intros Hx. apply elem_of_dom. destruct (m !! k); [by eexists|by apply not_elem_of_empty in Hx]. Qed.

(** What holds between two files of a sweep. *)
Definition sound_targets (t : Sets) : Prop :=
  dom t = dom direct ∧ (∀ f, sets_at direct f ⊆ sets_at t f) ∧ ∀ f x, x ∈ sets_at t f → sees rows f x.

(** A file that takes nothing new in. *)
Definition settled (t : Sets) (f : string) : Prop :=
  (∀ m, m ∈ sets_at globs f → sets_at t m ⊆ sets_at t f) ∧ ∀ m, m ∈ sets_at t f → sets_at re_exports m ⊆ sets_at t f.

Definition total (t : Sets) : nat := sum_list_with (λ f, size (sets_at t f)) (elements (dom direct)).

Lemma sum_list_with_le {A} (g1 g2 : A → nat) l : (∀ x, x ∈ l → g1 x ≤ g2 x) → sum_list_with g1 l ≤ sum_list_with g2 l.
Proof.
  clear. induction l as [|x l IH]; intros Hg; [done|]. cbn [sum_list_with]. pose proof (Hg x ltac:(left)) as Hx.
  assert (Hl : sum_list_with g1 l ≤ sum_list_with g2 l) by (apply IH; intros y Hy; apply Hg; by right). lia.
Qed.

Lemma sum_list_with_lt {A} (g1 g2 : A → nat) l z :
  (∀ x, x ∈ l → g1 x ≤ g2 x) → z ∈ l → g1 z < g2 z → sum_list_with g1 l < sum_list_with g2 l.
Proof.
  clear. induction l as [|x l IH]; intros Hg Hz Hlt; [by apply not_elem_of_nil in Hz|]. cbn [sum_list_with].
  pose proof (Hg x ltac:(left)) as Hx. assert (Hg' : ∀ y, y ∈ l → g1 y ≤ g2 y) by (intros y Hy; apply Hg; by right).
  apply elem_of_cons in Hz as [<-|Hz].
  - pose proof (sum_list_with_le g1 g2 l Hg'). lia.
  - pose proof (IH Hg' Hz Hlt). lia.
Qed.

Lemma sweep_file_spec t f :
  sound_targets t → f ∈ dom t →
  let '(t', changed) := sweep_file re_exports globs t f in
  sound_targets t' ∧ (if changed then total t < total t' else t' = t ∧ settled t f).
Proof using unordered_perm relations_eq.
  intros (Hdom & Hdir & Hsees) Hf. unfold sweep_file.
  set (inherited := module ← unordered _ (elements (sets_at globs f)); unordered _ (elements (sets_at t module))).
  assert (Hinh : ∀ x, x ∈ inherited ↔ ∃ m, m ∈ sets_at globs f ∧ x ∈ sets_at t m).
  { intros x. unfold inherited. rewrite list_elem_of_bind. setoid_rewrite unordered_perm. setoid_rewrite elem_of_elements. naive_solver. }
  set (seen := sets_at t f) in *. set (start := (seen, unordered _ (elements seen))).
  destruct (push_all start inherited (list_to_set inherited)) as (H1 & H2 & _); [intros x; by rewrite elem_of_list_to_set|].
  set (st := foldl push_new start inherited) in *.
  assert (Hstart : ∀ x, x ∈ start.2 ↔ x ∈ seen) by (intros x; cbn; by rewrite unordered_perm, elem_of_elements).
  destruct (drain_spec re_exports (drain_fuel re_exports st) st (sees rows f)) as (Hsub & Hclosed & Hsound).
  { intros m [Hm|Hm]%H1; left; apply H2; [left; by apply Hstart|].
    destruct (decide (m ∈ seen)); [left; by apply Hstart|right; by split]. }
  { done. }
  { intros m x Hm [glob Hx]%exports_spec. by eapply sees_export. }
  { intros x [Hx|(m & [re Hm]%globs_spec & Hx)%Hinh]%H1; [by apply Hsees|]. eapply sees_glob; [exact Hm|by apply Hsees]. }
  { intros x [Hx%Hstart|[Hx _]]%H2; apply H1; [by left|by right]. }
  set (seen' := drain re_exports (drain_fuel re_exports st) st) in *.
  assert (Hgrow : seen ⊆ seen') by (intros x Hx; apply Hsub, H1; by left).
  destruct (size seen' =? size seen) eqn:Hsize.
  - apply Nat.eqb_eq in Hsize. split; [done|]. split; [done|].
    assert (Heq : seen' = seen) by (symmetry; apply leibniz_equiv, set_subseteq_size_equiv; [done|lia]).
    split; fold seen.
    + intros m Hm x Hx. rewrite <-Heq. apply Hsub, H1. right. apply Hinh. by exists m.
    + intros m Hm. rewrite <-Heq in Hm |- *. by apply Hclosed.
  - apply Nat.eqb_neq in Hsize. assert (Hlt : size seen < size seen').
    { assert (size seen ≤ size seen') by (by apply subseteq_size). lia. }
    assert (Hat : ∀ g, sets_at (<[f := seen']> t) g = if decide (g = f) then seen' else sets_at t g).
    { intros g. unfold sets_at. destruct (decide (g = f)) as [->|]; [by rewrite lookup_insert_eq|by rewrite lookup_insert_ne]. }
    split; [split_and!|].
    + rewrite dom_insert_L. rewrite <-Hdom. set_solver +Hf.
    + intros g. rewrite Hat. case_decide as Hg; [subst g|by apply Hdir]. etrans; [apply Hdir|exact Hgrow].
    + intros g x. rewrite Hat. case_decide as Hg; [subst g; by apply Hsound|by apply Hsees].
    + unfold total. apply (sum_list_with_lt _ _ _ f).
      * intros g _. rewrite Hat. case_decide as Hg; [subst g; fold seen; lia|done].
      * apply elem_of_elements. by rewrite <-Hdom.
      * rewrite Hat, decide_True by done. exact Hlt.
Qed.

Lemma sweep_files_spec files t c :
  sound_targets t → (∀ f, f ∈ files → f ∈ dom t) →
  let '(t', changed) := foldl (λ '(targets, changed) file,
    let '(targets, c) := sweep_file re_exports globs targets file in (targets, changed || c)) (t, c) files in
  sound_targets t' ∧ (if changed then (c = false → total t < total t') else c = false ∧ t' = t ∧ ∀ f, f ∈ files → settled t f) ∧
  total t ≤ total t'.
Proof using unordered_perm relations_eq.
  revert t c. induction files as [|f files IH]; intros t c Ht Hf.
  { cbn. split; [done|]. split; [|done]. destruct c; [done|]. split_and!; [done..|]. by intros g ?%not_elem_of_nil. }
  cbn [foldl]. pose proof (sweep_file_spec t f Ht (Hf f ltac:(left))) as H1.
  destruct (sweep_file re_exports globs t f) as [t1 c1]. destruct H1 as [Ht1 H1].
  assert (Hf1 : ∀ g, g ∈ files → g ∈ dom t1).
  { intros g Hg. destruct Ht1 as [-> _], Ht as [<- _]. apply Hf. by right. }
  specialize (IH t1 (c || c1) Ht1 Hf1). destruct (foldl _ (t1, c || c1) files) as [t2 c2]. destruct IH as (Ht2 & Hc2 & Hle).
  split; [done|]. destruct c1.
  - split; [|lia]. destruct c2; [intros _; lia|]. destruct Hc2 as [Hc2 _]. by rewrite orb_true_r in Hc2.
  - destruct H1 as [-> Hs]. rewrite orb_false_r in Hc2. split; [|done]. destruct c2; [done|].
    destruct Hc2 as (-> & -> & Hall). split_and!; [done..|]. intros g [->|Hg]%elem_of_cons; [done|by apply Hall].
Qed.

(** Nothing is seen but targets of imports. *)
Lemma sees_target f x : sees rows f x → x ∈ union_of direct.
Proof using relations_eq.
  intros Hs. apply elem_of_union_of. induction Hs as [f x re glob Hin|f m x glob _ _ Hin|f m x re _ _ IH]; [| |done].
  - exists f. apply direct_spec. by eexists _, _.
  - exists m. apply direct_spec. by eexists _, _.
Qed.

Lemma total_bound t : sound_targets t → total t ≤ size (dom direct) * size (union_of direct).
Proof using relations_eq.
  intros (_ & _ & Hs). unfold total. change (size (dom direct)) with (length (elements (dom direct))).
  generalize (elements (dom direct)). intros l. induction l as [|f l IH]; [cbn; lia|]. cbn [sum_list_with length].
  assert (size (sets_at t f) ≤ size (union_of direct)). { apply subseteq_size. intros x Hx. by eapply sees_target, Hs. }
  lia.
Qed.

Lemma sweeps_spec fuel t :
  sound_targets t → size (dom direct) * size (union_of direct) - total t < fuel →
  ∃ t', sweeps re_exports globs fuel t = Some t' ∧ sound_targets t' ∧ ∀ f, f ∈ dom t' → settled t' f.
Proof using unordered_perm relations_eq.
  revert t. induction fuel as [|fuel IH]; intros t Ht Hf; [lia|]. cbn [sweeps]. unfold sweep.
  pose proof (sweep_files_spec (unordered _ (elements (dom t))) t false Ht) as H1.
  destruct (foldl _ (t, false) _) as [t1 c1]. destruct H1 as (Ht1 & Hc & _).
  { intros f. by rewrite unordered_perm, elem_of_elements. }
  destruct c1.
  - apply IH; [done|]. specialize (Hc eq_refl). pose proof (total_bound t1 Ht1). lia.
  - destruct Hc as (_ & -> & Hall). exists t. split; [done|]. split; [done|]. intros f Hfd. apply Hall.
    by rewrite unordered_perm, elem_of_elements.
Qed.

Lemma settled_sees t f x :
  sound_targets t → (∀ f, f ∈ dom t → settled t f) → (x ∈ sets_at t f ↔ sees rows f x).
Proof using relations_eq.
  intros (Hdom & Hdir & Hs) Hset. split; [by apply Hs|]. intros Hx.
  induction Hx as [f x re glob Hin|f m x glob _ IH Hin|f m x re Hin _ IH].
  - apply Hdir, direct_spec. by eexists _, _.
  - assert (Hf : f ∈ dom t) by by eapply sets_at_dom. destruct (Hset f Hf) as [_ Hex]. apply (Hex m IH). apply exports_spec. by eexists.
  - assert (Hf : f ∈ dom t).
    { rewrite Hdom. apply (sets_at_dom _ _ m), direct_spec. by eexists _, _. }
    destruct (Hset f Hf) as [Hgl _]. apply (Hgl m); [|done]. apply globs_spec. by eexists.
Qed.

End fixpoint.

(** C13: The files a file can name symbols from are exactly those it imports, what
    those re-export in turn, and what the modules it glob-imports can name,
    and no more: the code's sweeps reach that smallest relation after finitely
    many rounds, whatever cycles the imports form and in whatever order the hash
    maps are walked. *)
Theorem import_targets_spec rows :
  ∃ targets, import_targets rows = Some targets ∧ ∀ f x, x ∈ sets_at targets f ↔ sees rows f x.
Proof using Type unordered_perm.
  unfold import_targets. destruct (relations rows) as [[direct re_exports] globs] eqn:Hr.
  assert (Hd : sound_targets rows direct direct).
  { split; [done|]. split; [done|]. intros f x (re & glob & Hin)%(direct_spec rows _ _ _ Hr). by eapply sees_import. }
  destruct (bool_decide (re_exports = ∅) && bool_decide (globs = ∅)) eqn:He.
  - apply andb_true_iff in He as [->%bool_decide_eq_true ->%bool_decide_eq_true]. exists direct. split; [done|].
    intros f x. apply (settled_sees rows _ _ _ Hr); [done|]. intros g _. unfold settled, sets_at. setoid_rewrite lookup_empty. set_solver +.
  - destruct (sweeps_spec rows _ _ _ Hr (sweeps_fuel direct) direct Hd) as (t & Ht & Hs & Hset).
    { unfold sweeps_fuel. fold (union_of direct). lia. }
    exists t. split; [done|]. intros f x. by apply (settled_sees rows _ _ _ Hr).
Qed.

End targets.

(** ** The theorem at work *)

Definition backwards (A : Type) (l : list A) : list A := rev l.

Lemma backwards_perm A (l : list A) : backwards A l ≡ₚ l.
Proof. symmetry. apply Permutation_rev. Qed.

(** Two modules that re-export each other, and one that glob-imports the first. *)
Definition demo_imports : list Import :=
  [("a.rs", "b.rs", true, false); ("b.rs", "a.rs", true, false); ("c.rs", "a.rs", false, true)].

Lemma import_targets_spec_witness :
  (∀ A (l : list A), backwards A l ≡ₚ l) ∧
  ∃ targets, import_targets backwards demo_imports = Some targets ∧ "b.rs" ∈ sets_at targets "c.rs".
Proof.
  split; [exact backwards_perm|].
  destruct (import_targets_spec backwards backwards_perm demo_imports) as (targets & Ht & Hs). exists targets. split; [exact Ht|].
  apply Hs. eapply sees_glob; [right; right; left|]. eapply sees_import. left.
Defined.

Example import_targets_cycle :
  (λ t, elements (sets_at t "a.rs")) <$> import_targets backwards demo_imports = Some ["a.rs"; "b.rs"] ∨
  (λ t, elements (sets_at t "a.rs")) <$> import_targets backwards demo_imports = Some ["b.rs"; "a.rs"].
Proof. vm_compute. by (left + right). Qed.

(** The pattern meant for [__init__.py] takes other files for package
    initialisers. *)
Example underscores_match_anything :
  import_row (λ _ _, None) (λ _, false)
    (mkEdgeRow 1 (mkEdgeVals "IMPORTS_FROM" "pkg/reinit01.py" "pkg/util.py" "pkg/util.py" "pkg/reinit01.py" 1 "{}" one "HIGH" one)) =
    inl ("pkg/reinit01.py", "pkg/util.py", true, false).
Proof. by vm_compute. Qed.

End Visibility.
