(* ===== verification/BareNames.v ===== *)
(** * Binding bare names

    Models the second half of
    crates/dagayn-graph/src/postprocess/bare_names.rs over [Visibility]: the one
    plausible candidate for a bare name, the calls and inheritance edges that name
    only a bare target, and the pass that points them at it.  The passes over
    returned values and external packages that run between the two calls of
    [bind_bare_call_targets] are not modelled. *)
From S2P Require Import Prelude GraphData Sqlite Store StoreSpec EdgePass Impact ImpactSpec Visibility.
Import GraphData Sqlite Store StoreSpec EdgePass Impact ImpactSpec Visibility.

Module BareNames.

#[local] Set Default Proof Using "Type".

(** ** One name *)

(** [let [only] = l else { return None }]. *)
Definition only {A} (l : list A) : option A := match l with [x] => Some x | _ => None end.

Section resolve.
Context (import_targets : Sets) (visibility : SymbolVisibility).

(** Source: crates/dagayn-graph/src/postprocess/bare_names.rs 408-419 [file_is_visible]. *)
Definition file_is_visible (source_file target_file : string) : bool :=
  bool_decide (source_file = target_file) || bool_decide (target_file ∈ sets_at import_targets source_file)
  || can_see visibility source_file target_file.

Definition directory (path : string) : string :=
  match rsplit_once slash path with Some (dir, _) => dir | None => "" end.

(** Source: crates/dagayn-graph/src/postprocess/bare_names.rs 325-365 [is_plausible_bare_edge]. *)
Definition is_plausible_bare_edge (source_file target_file target_qualified : string) : bool :=
  if bool_decide (source_file = "") || bool_decide (target_file = "") then false
  else
    let family := language_family target_file in
    if negb (same_language_family (language_family source_file) family) then false
    else if file_is_visible source_file target_file then true
    else
      let go := bool_decide (family = Some "go") in
      match declaring_files visibility target_qualified with
      | None => false
      | Some declaring =>
          existsb (λ file,
            same_language_family family (language_family file)
            && (negb go || bool_decide (directory file = directory target_file))
            && file_is_visible source_file file) (elements declaring)
      end.

(** Source: crates/dagayn-graph/src/postprocess/bare_names.rs 698-734 [resolve_via_imports]. *)
Definition resolve_via_imports (candidates : list string) (source_file : string) : option Resolution :=
  qn ← only (filter (λ qn, is_plausible_bare_edge source_file (node_file_from_qualified qn "") qn = true) candidates);
  let target_file := node_file_from_qualified qn "" in
  let direct := negb (nested qn) &&
    (bool_decide (source_file = target_file) || bool_decide (target_file ∈ sets_at import_targets source_file)) in
  Some (if direct then (qn, DIRECT_IMPORT_CONFIDENCE, High) else (qn, INFERRED_CONFIDENCE, Medium)).

(** Source: crates/dagayn-graph/src/postprocess/bare_names.rs 739-779 [resolve_in_module]. *)
Definition resolve_in_module (candidates : list string) (module_file : string) : option Resolution :=
  let top := filter (λ qn, nested qn = false) candidates in
  match only (filter (λ qn, node_file_from_qualified qn "" = module_file) top) with
  | Some qn => Some (qn, DIRECT_IMPORT_CONFIDENCE, High)
  | None =>
      qn ← only (filter (λ qn, node_file_from_qualified qn "" ∈ sets_at import_targets module_file) top);
      Some (qn, DIRECT_IMPORT_CONFIDENCE, High)
  end.

(** Source: crates/dagayn-graph/src/postprocess/bare_names.rs 797-802 [resolve_type_receiver]. *)
Definition names_type (receiver_type path : string) : bool :=
  bool_decide (path = receiver_type) || str_ends_with (String dot receiver_type) path.

(** Source: crates/dagayn-graph/src/postprocess/bare_names.rs 803-820 [resolve_type_receiver]. *)
Definition typed_candidate (target receiver_type : string) (family : option string) (qn : string) : bool :=
  match split_colons qn with
  | None => false
  | Some (file, symbol) =>
      if negb (same_language_family family (language_family file)) then false
      else
        match rsplit_once dot symbol with
        | Some (parent, _) => names_type receiver_type parent
        | None => false
        end || (bool_decide (target = receiver_type) && names_type receiver_type symbol)
  end.

(** Source: crates/dagayn-graph/src/postprocess/bare_names.rs 788-848 [resolve_type_receiver]. *)
Definition resolve_type_receiver (candidates : list string) (target receiver_type source_file : string)
    : option Resolution :=
  let typed := filter (λ qn, typed_candidate target receiver_type (language_family source_file) qn = true) candidates in
  let in_visible_file := filter (λ qn, file_is_visible source_file (node_file_from_qualified qn "") = true) typed in
  let typed := if bool_decide (in_visible_file = []) then typed else in_visible_file in
  match resolve_via_imports typed source_file with
  | Some resolved => Some resolved
  | None => qn ← only typed; Some (qn, INFERRED_CONFIDENCE, Medium)
  end.

(** Source: crates/dagayn-graph/src/postprocess/bare_names.rs 632-657 [go_package_member]. *)
Definition go_package_member (candidates : list string) (import_path : string) : option string :=
  let namespace := normalize_namespace import_path in
  only (filter (λ qn,
    match split_colons qn with
    | None => false
    | Some (file, symbol) =>
        negb (has_char dot symbol) && bool_decide (language_family file = Some "go")
        && negb (str_ends_with "_test.go" file) && bool_decide (namespace ∈ sets_at (declared visibility) file)
    end = true) candidates).

(** Source: crates/dagayn-graph/src/postprocess/returned/go.rs 63-68 [go_directory]. *)
Definition go_directory (qualified : string) : string :=
  directory (match split_colons qualified with Some (file, _) => file | None => qualified end).

(** ** One call *)

(** What the pass reads of an edge. *)
Record Call := mkCall {
  edge : Z;
  call_source : string;
  call_target : string;
  call_file : string;
  receiver_type : option string;
  module_file : option string;
  receiver_unknown : bool;
  named_receiver : bool;
  import_path : option string
}.

Context (COMMON_MEMBERS : list string) (index : gmap string (list string)) (on_returned_values : bool).

(** A member of a class or function around the caller.

    Source: crates/dagayn-graph/src/postprocess/bare_names.rs 534-541 [bind_bare_call_targets]. *)
Definition encloses_caller (source_qualified qn : string) : bool :=
  match split_colons qn with
  | None => false
  | Some (file, symbol) =>
      match rsplit_once dot symbol with
      | Some (owner, _) => starts_with (file +:+ "::" +:+ owner +:+ ".") source_qualified
      | None => false
      end
  end.

(** Source: crates/dagayn-graph/src/postprocess/bare_names.rs 527-553 [bind_bare_call_targets]. *)
Definition call_candidates (c : Call) (rust go : bool) : list string :=
  let candidates := default [] (index !! call_target c) in
  let candidates :=
    if receiver_unknown c then filter (λ qn, encloses_caller (call_source c) qn = false) candidates else candidates in
  if bool_decide (receiver_type c = None) && (rust || (go && negb (receiver_unknown c)))
  then filter (λ qn, nested qn = false) candidates else candidates.

(** Source: crates/dagayn-graph/src/postprocess/bare_names.rs 557-587 [bind_bare_call_targets]. *)
Definition resolve_candidates (c : Call) (src_file : string) (candidates : list string) : option Resolution :=
  match receiver_type c, module_file c with
  | Some type, module =>
      let in_module := match module with
                       | Some file => filter (λ qn, node_file_from_qualified qn "" = file) candidates
                       | None => []
                       end in
      resolve_type_receiver (if bool_decide (in_module = []) then candidates else in_module) (call_target c) type src_file
  | None, Some module => resolve_in_module candidates module
  | None, None => resolve_via_imports candidates src_file
  end.

(** Source: crates/dagayn-graph/src/postprocess/bare_names.rs 482-600 [bind_bare_call_targets]. *)
Definition bind_call (c : Call) : option Resolution :=
  if looks_like_file_target (call_target c) then None
  else
    let src_file := node_file_from_qualified (call_source c) (call_file c) in
    let family := language_family src_file in
    let rust := bool_decide (family = Some "rust") in
    let go := bool_decide (family = Some "go") in
    if (rust || go) && receiver_unknown c then None
    else if go && named_receiver c then
      path ← import_path c;
      names ← index !! call_target c;
      qn ← go_package_member names path;
      Some (qn, DIRECT_IMPORT_CONFIDENCE, High)
    else if receiver_unknown c && bool_decide (family = Some "javascript") && bool_decide (call_target c ∈ COMMON_MEMBERS)
    then None
    else
      let candidates := call_candidates c rust go in
      if bool_decide (candidates = []) then None
      else
        '(qn, confidence, tier) ← resolve_candidates c src_file candidates;
        Some (if go && negb on_returned_values && bool_decide (go_directory qn = go_directory src_file)
              then (qn, DIRECT_IMPORT_CONFIDENCE, High) else (qn, confidence, tier)).

(** ** What a resolution rests on *)

Lemma only_Some {A} (l : list A) x : only l = Some x → l = [x].
Proof. clear. destruct l as [|y [|z l]]; [done| |done]. by intros [= ->]. Qed.

Lemma only_filter {A} (P : A → Prop) `{!∀ x, Decision (P x)} l x :
  only (filter P l) = Some x → x ∈ l ∧ P x ∧ ∀ y, y ∈ l → P y → y = x.
Proof.
  clear. intros Ho%only_Some. assert (Hx : x ∈ filter P l) by (rewrite Ho; left). apply list_elem_of_filter in Hx as [Hp Hx].
  split; [done|split; [done|]]. intros y Hy Hpy. assert (Hin : y ∈ filter P l) by by apply list_elem_of_filter.
  rewrite Ho in Hin. by apply list_elem_of_singleton in Hin.
Qed.

Lemma plausible_family source_file target_file qn :
  is_plausible_bare_edge source_file target_file qn = true →
  same_language_family (language_family source_file) (language_family target_file) = true.
Proof.
  clear. unfold is_plausible_bare_edge. destruct (_ || _); [done|]. by destruct (same_language_family _ _).
Qed.

Lemma resolve_via_imports_only candidates source_file r :
  resolve_via_imports candidates source_file = Some r →
  r.1.1 ∈ candidates ∧ is_plausible_bare_edge source_file (node_file_from_qualified r.1.1 "") r.1.1 = true ∧
  ∀ qn, qn ∈ candidates → is_plausible_bare_edge source_file (node_file_from_qualified qn "") qn = true → qn = r.1.1.
Proof.
  clear. unfold resolve_via_imports. destruct (only _) as [qn|] eqn:Ho; [|done]. apply only_filter in Ho. cbn [mbind option_bind].
  intros [= <-]. by destruct (negb (nested qn) && _).
Qed.

Lemma resolve_in_module_candidate candidates module r :
  resolve_in_module candidates module = Some r → r.1.1 ∈ candidates ∧ nested r.1.1 = false.
Proof.
  clear. unfold resolve_in_module. destruct (only _) as [qn|] eqn:Ho.
  - intros [= <-]. apply only_filter in Ho as ([? ?]%list_elem_of_filter & _ & _). done.
  - clear Ho. destruct (only _) as [qn|] eqn:Ho2; [|done]. cbn [mbind option_bind]. intros [= <-].
    apply only_filter in Ho2 as ([? ?]%list_elem_of_filter & _ & _). done.
Qed.

Lemma typed_family target type source_file qn :
  typed_candidate target type (language_family source_file) qn = true →
  same_language_family (language_family source_file) (language_family (node_file_from_qualified qn "")) = true.
Proof.
  clear. unfold typed_candidate, node_file_from_qualified. destruct (split_colons qn) as [[file symbol]|]; [|done].
  by destruct (same_language_family _ _).
Qed.

Lemma resolve_type_receiver_typed candidates target type source_file r :
  resolve_type_receiver candidates target type source_file = Some r →
  r.1.1 ∈ candidates ∧ typed_candidate target type (language_family source_file) r.1.1 = true.
Proof.
  clear. unfold resolve_type_receiver. set (typed := filter _ candidates).
  assert (Ht : ∀ qn, qn ∈ typed → qn ∈ candidates ∧ typed_candidate target type (language_family source_file) qn = true).
  { by intros qn [? ?]%list_elem_of_filter. }
  set (chosen := if bool_decide _ then typed else _). assert (Hc : ∀ qn, qn ∈ chosen → qn ∈ typed).
  { unfold chosen. intros qn. case_bool_decide; [done|]. by intros [_ ?]%list_elem_of_filter. }
  destruct (resolve_via_imports chosen source_file) as [r'|] eqn:Hr.
  - intros [= <-]. apply resolve_via_imports_only in Hr as [Hin _]. by apply Ht, Hc.
  - destruct (only chosen) as [qn|] eqn:Ho; [|done]. cbn [mbind option_bind]. intros [= <-]. apply only_Some in Ho.
    apply Ht, Hc. rewrite Ho. left.
Qed.

(** Every target a call is bound to carries the name it calls, in the language of
    the caller unless a module path named its file. *)
Lemma bind_call_sound c r :
  bind_call c = Some r →
  r.1.1 ∈ default [] (index !! call_target c) ∧
  (module_file c = None →
   same_language_family (language_family (node_file_from_qualified (call_source c) (call_file c)))
     (language_family (node_file_from_qualified r.1.1 "")) = true).
Proof.
  clear. unfold bind_call. destruct (looks_like_file_target _); [done|].
  set (src := node_file_from_qualified (call_source c) (call_file c)).
  destruct ((_ || _) && _); [done|]. destruct (bool_decide (language_family src = Some "go") && named_receiver c) eqn:Hgo.
  { apply andb_true_iff in Hgo as [Hgo%bool_decide_eq_true _].
    destruct (import_path c) as [path|]; [|done]. cbn [mbind option_bind]. destruct (index !! call_target c) as [names|]; [|done].
    cbn [mbind option_bind]. destruct (go_package_member names path) as [qn|] eqn:Hm; [|done]. intros [= <-]. cbn [fst default].
    apply only_filter in Hm as (Hin & Hp & _). split; [done|]. intros _. rewrite Hgo. unfold node_file_from_qualified.
    destruct (split_colons qn) as [[file symbol]|]; [|done]. rewrite !andb_true_iff in Hp. destruct Hp as [[[_ Hf] _] _].
    apply bool_decide_eq_true in Hf. by rewrite Hf. }
  destruct (receiver_unknown c && _ && _); [done|].
  set (candidates := call_candidates c _ _). destruct (bool_decide (candidates = [])); [done|].
  assert (Hc : ∀ qn, qn ∈ candidates → qn ∈ default [] (index !! call_target c)).
  { intros qn. unfold candidates, call_candidates.
    destruct (receiver_unknown c), (bool_decide (receiver_type c = None) && _); rewrite ?list_elem_of_filter; tauto. }
  destruct (resolve_candidates c src candidates) as [[[qn conf] tier]|] eqn:Hr; [|done]. cbn [mbind option_bind].
  intros [= <-]. assert (Hfst : (if bool_decide (language_family src = Some "go") && negb on_returned_values &&
    bool_decide (go_directory qn = go_directory src) then (qn, DIRECT_IMPORT_CONFIDENCE, High) else (qn, conf, tier)).1.1 = qn)
    by by case_match. rewrite Hfst. clear Hfst.
  unfold resolve_candidates in Hr. destruct (receiver_type c) as [type|].
  - apply resolve_type_receiver_typed in Hr as [Hin Hfam%typed_family]. cbn [fst] in *. split; [|done]. apply Hc.
    revert Hin. destruct (module_file c) as [file|]; [|by rewrite bool_decide_eq_true_2].
    destruct (bool_decide (filter _ candidates = [])); [done|]. by intros [_ ?]%list_elem_of_filter.
  - destruct (module_file c) as [module|].
    + apply resolve_in_module_candidate in Hr as [Hin _]. split; [by apply Hc|done].
    + apply resolve_via_imports_only in Hr as (Hin & Hp%plausible_family & _). split; [by apply Hc|done].
Qed.

End resolve.

(** ** The pass *)

Section pass.
Context `{Json} {F : Type}.
Context (json_extract : string → string → option Sql) (unordered : ∀ A, list A → list A).
Context (COMMON_MEMBERS : list string).

#[local] Abbreviation Graph := (GraphStore (F := F)).

(** A member of the [extra] column of an edge. *)
Definition member (v : EdgeVals) (key : string) : option Sql := json_extract (e_extra v) key.

(** The calls and value references that name a bare target ([NOT LIKE '%::%']).

    Source: crates/dagayn-graph/src/postprocess/bare_names.rs 444-452 [bind_bare_call_targets]. *)
Definition selected (on_returned_values : bool) (e : EdgeRow) : bool :=
  let v := e_vals e in
  (bool_decide (e_kind v = "CALLS") || (bool_decide (e_kind v = "REFERENCES") && equals 1 (member v "value_reference")))
  && bool_decide (split_colons (target_qualified v) = None)
  && equals 0 (member v "external") && equals 0 (member v "callee_local")
  && match member v "receiver_package" with None => true | _ => false end
  && eqb (match member v "receiver_from" with None => true | _ => false end) (negb on_returned_values).

(** Source: crates/dagayn-graph/src/postprocess/bare_names.rs 438-467 [bind_bare_call_targets]. *)
Definition read_call (e : EdgeRow) : Result Call :=
  let v := e_vals e in
  receiver_type ← read_text (member v "receiver_type");
  module_file ← read_text (member v "module_file");
  receiver_unknown ← read_flag (member v "receiver_unknown");
  import_path ← read_text (member v "import_path");
  inl (mkCall (edge_id e) (source_qualified v) (target_qualified v) (e_file_path v) receiver_type module_file receiver_unknown
         (match member v "receiver" with Some _ => true | None => false end) import_path).

(** A member of a JavaScript object literal. *)
Definition in_object (s : Graph) (r : NodeRow) : bool :=
  match parent_name (vals r) with
  | None => false
  | Some parent =>
      existsb (λ p, bool_decide (qualified_name (vals p) = file_path (vals r) +:+ "::" +:+ parent)
                    && bool_decide (kind (vals p) = "Class")
                    && match json_extract (extra (vals p)) "type_role" with
                       | Some (Text role) => bool_decide (role = "object")
                       | _ => false
                       end) (nodes s)
  end.

Definition push_name (index : gmap string (list string)) (r : NodeRow) : gmap string (list string) :=
  <[name (vals r) := default [] (index !! name (vals r)) ++ [qualified_name (vals r)]]> index.

(** Source: crates/dagayn-graph/src/postprocess/bare_names.rs 659-691 [load_bare_name_index]. *)
Definition load_bare_name_index (kinds : list string) (s : Graph) : gmap string (list string) :=
  foldl push_name ∅ (unordered _ (filter (λ r, kind (vals r) ∈ kinds ∧ in_object s r = false) (nodes s))).

Section bind.
Context (index : gmap string (list string)) (import_targets : Sets) (visibility : SymbolVisibility) (on_returned_values : bool).

Definition bind_step (st : Graph * nat) (c : Call) : Graph * nat :=
  match bind_call import_targets visibility COMMON_MEMBERS index on_returned_values c with
  | Some r => (set_call_target (edge c) r st.1, S st.2)
  | None => st
  end.

(** Source: crates/dagayn-graph/src/postprocess/bare_names.rs 429-605 [bind_bare_call_targets]. *)
Definition bind_bare_call_targets (s : Graph) : Result (Graph * nat) :=
  calls ← try_map read_call (unordered _ (filter (λ e, selected on_returned_values e = true) (edges s)));
  inl (foldl bind_step (s, 0) calls).

(** ** What the pass does to each edge *)

Hypothesis unordered_perm : ∀ A (l : list A), unordered A l ≡ₚ l.

Definition binding (e : EdgeRow) : option Resolution :=
  if selected on_returned_values e then
    match read_call e with
    | inl c => bind_call import_targets visibility COMMON_MEMBERS index on_returned_values c
    | inr _ => None
    end
  else None.

Definition rebind : EdgeRow → EdgeRow := changed (retarget binding).

Definition bind (c : Call) : option Resolution := bind_call import_targets visibility COMMON_MEMBERS index on_returned_values c.

Lemma read_call_edge e c : read_call e = inl c → edge c = edge_id e.
Proof.
  unfold read_call. destruct (read_text (member _ "receiver_type")); cbn [mbind result_bind rbind]; [|done].
  destruct (read_text (member _ "module_file")); cbn [mbind result_bind rbind]; [|done].
  destruct (read_flag _); cbn [mbind result_bind rbind]; [|done].
  destruct (read_text _); cbn [mbind result_bind rbind]; [|done]. by intros [= <-].
Qed.

Lemma read_call_fields e c :
  read_call e = inl c →
  call_source c = source_qualified (e_vals e) ∧ call_target c = target_qualified (e_vals e) ∧ call_file c = e_file_path (e_vals e) ∧
  (member (e_vals e) "module_file" = None → module_file c = None).
Proof.
  unfold read_call. destruct (read_text (member _ "receiver_type")); cbn [mbind result_bind rbind]; [|done].
  destruct (member (e_vals e) "module_file") as [[]|] eqn:Em; cbn [read_text mbind result_bind rbind]; try done;
    (destruct (read_flag _); cbn [mbind result_bind rbind]; [|done]);
    (destruct (read_text _); cbn [mbind result_bind rbind]; [|done]); by intros [= <-].
Qed.

Lemma reads (s s' : Graph) n e :
  bind_bare_call_targets s = inl (s', n) →
  e ∈ unordered _ (filter (λ e, selected on_returned_values e = true) (edges s)) → ∃ c, read_call e = inl c.
Proof.
  unfold bind_bare_call_targets. generalize (unordered _ (filter (λ e, selected on_returned_values e = true) (edges s))). intros l.
  destruct (try_map read_call l) as [calls|] eqn:Hc; cbn [mbind result_bind rbind]; [|done]. intros _. revert calls Hc.
  induction l as [|x l IH]; intros calls Hc; [by intros ?%not_elem_of_nil|]. cbn [try_map] in Hc.
  destruct (read_call x) as [c|] eqn:Hx; cbn [mbind result_bind rbind] in Hc; [|done].
  destruct (try_map read_call l) as [cs|]; cbn [mbind result_bind rbind] in Hc; [|done].
  intros [->|He]%elem_of_cons; [by exists c|by apply (IH cs)].
Qed.

(** The loop over what the pass read is the loop over the rows. *)
Lemma bind_steps l calls (st : Graph * nat) :
  try_map read_call l = inl calls → (∀ e, e ∈ l → selected on_returned_values e = true) →
  foldl bind_step st calls = foldl (pass_step (retarget binding)) st l.
Proof.
  revert calls st. induction l as [|e l IH]; intros calls st; cbn [try_map]; [by intros [= <-]|].
  destruct (read_call e) as [c|] eqn:Hc; cbn [mbind result_bind rbind]; [|done].
  destruct (try_map read_call l) as [calls'|]; cbn [mbind result_bind rbind]; [|done]. intros [= <-] Hl. cbn [foldl].
  rewrite <-(IH calls' _ eq_refl) by (intros x Hx; apply Hl; by right). f_equal.
  unfold bind_step, pass_step, retarget, binding. rewrite (Hl e) by left. rewrite Hc, (read_call_edge e c Hc).
  destruct (bind_call _ _ _ _ _ c); done.
Qed.

Lemma bind_pass (s s' : Graph) n :
  NoDup (edge_id <$> edges s) →
  bind_bare_call_targets s = inl (s', n) →
  s' = set_edges (rebind <$> edges s) (edge_seq s) s ∧
  n = length (filter (λ e, is_Some (binding e)) (edges s)).
Proof using Type unordered_perm.
  intros Hnd. unfold bind_bare_call_targets. set (l := unordered _ (filter _ (edges s))).
  assert (Hl : l ≡ₚ filter (λ e, selected on_returned_values e = true) (edges s)) by apply unordered_perm.
  destruct (try_map read_call l) as [calls|] eqn:Hcalls; cbn [mbind result_bind rbind]; [|done].
  rewrite (bind_steps l calls _ Hcalls).
  2: { intros e He. rewrite Hl in He. by apply list_elem_of_filter in He as [? _]. }
  rewrite (pass_spec (retarget binding) _ l s Hnd Hl).
  - rewrite retarget_counts. by intros [= <- <-].
  - intros e _ He. unfold retarget, binding. by destruct (selected on_returned_values e).
Qed.

Lemma binding_sound e r :
  binding e = Some r →
  selected on_returned_values e = true ∧ r.1.1 ∈ default [] (index !! target_qualified (e_vals e)) ∧
  (member (e_vals e) "module_file" = None →
   same_language_family (language_family (node_file_from_qualified (source_qualified (e_vals e)) (e_file_path (e_vals e))))
     (language_family (node_file_from_qualified r.1.1 "")) = true).
Proof.
  intros Hb. unfold binding in Hb. destruct (selected on_returned_values e); [|done].
  destruct (read_call e) as [c|] eqn:Hc; [|done]. split; [done|]. apply bind_call_sound in Hb as [Hin Hfam].
  destruct (read_call_fields e c Hc) as (<- & <- & <- & Hmod). split; [done|]. intros Hm. by apply Hfam, Hmod.
Qed.

Lemma bind_again (s s' : Graph) n :
  NoDup (edge_id <$> edges s) → (∀ q qn, qn ∈ default [] (index !! q) → split_colons qn ≠ None) →
  bind_bare_call_targets s = inl (s', n) → bind_bare_call_targets s' = inl (s', 0).
Proof using Type unordered_perm.
  intros Hnd Hindex Hrun. destruct (bind_pass s s' n Hnd Hrun) as [Hs' _].
  assert (Hkept : ∀ e, e ∈ edges s' → selected on_returned_values e = true → e ∈ edges s ∧ binding e = None).
  { intros e He Hsel. rewrite Hs' in He. cbn [edges set_edges] in He. apply list_elem_of_fmap in He as (e0 & -> & He0).
    unfold rebind, changed, retarget in *. destruct (binding e0) as [[[qn conf] tier]|] eqn:Hb; [|done]. exfalso.
    unfold binding in Hb. destruct (selected on_returned_values e0); [|done]. destruct (read_call e0) as [c|]; [|done].
    apply bind_call_sound in Hb as [Hin _]. apply (Hindex _ _ Hin). unfold selected in Hsel. cbn [e_vals with_target] in Hsel.
    rewrite !andb_true_iff in Hsel. destruct Hsel as [[[[[_ Ht] _] _] _] _]. by apply bool_decide_eq_true in Ht. }
  assert (Hids : edge_id <$> edges s' = edge_id <$> edges s).
  { rewrite Hs'. cbn [edges set_edges]. apply changed_ids. }
  assert (Hreads : ∃ calls, try_map read_call (unordered _ (filter (λ e, selected on_returned_values e = true) (edges s'))) = inl calls).
  { apply try_map_total. intros e He. rewrite unordered_perm in He. apply list_elem_of_filter in He as [Hsel He].
    destruct (Hkept e He Hsel) as [He0 _]. apply (reads s s' n e Hrun). rewrite unordered_perm. by apply list_elem_of_filter. }
  destruct Hreads as [calls Hcalls].
  assert (Hrun' : ∃ s'' m, bind_bare_call_targets s' = inl (s'', m)).
  { unfold bind_bare_call_targets. rewrite Hcalls. cbn [mbind result_bind rbind].
    destruct (foldl bind_step (s', 0) calls) as [s'' m]. by exists s'', m. }
  destruct Hrun' as (s'' & m & Hrun'). destruct (bind_pass s' s'' m) as [Hs'' Hm]; [by rewrite Hids|done|].
  assert (Hnone : ∀ e, e ∈ edges s' → binding e = None).
  { intros e He. destruct (selected on_returned_values e) eqn:Hsel; [by apply Hkept|]. unfold binding. by rewrite Hsel. }
  rewrite Hrun'. f_equal. f_equal.
  - rewrite Hs''. apply set_edges_id. intros e He. unfold rebind, changed, retarget. by rewrite (Hnone e He).
  - rewrite Hm. apply length_zero_iff_nil. apply filter_nothing. intros e He [r Hr]. by rewrite (Hnone e He) in Hr.
Qed.

End bind.

(** ** The pass with the index of the store *)

Hypothesis unordered_perm : ∀ A (l : list A), unordered A l ≡ₚ l.

Lemma lookup_index kinds (s : Graph) q qn :
  qn ∈ default [] (load_bare_name_index kinds s !! q) ↔
  ∃ r, r ∈ nodes s ∧ kind (vals r) ∈ kinds ∧ in_object s r = false ∧ name (vals r) = q ∧ qualified_name (vals r) = qn.
Proof using Type unordered_perm.
  unfold load_bare_name_index. set (rows := unordered _ _).
  assert (Hrows : ∀ r, r ∈ rows ↔ (kind (vals r) ∈ kinds ∧ in_object s r = false) ∧ r ∈ nodes s).
  { intros r. unfold rows. by rewrite unordered_perm, list_elem_of_filter. }
  assert (Hf : qn ∈ default [] (foldl push_name ∅ rows !! q) ↔ ∃ r, r ∈ rows ∧ name (vals r) = q ∧ qualified_name (vals r) = qn).
  { clear Hrows. induction rows as [|r rows IH] using rev_ind.
    - cbn. rewrite lookup_empty. split; [by intros ?%not_elem_of_nil|by intros (? & ?%not_elem_of_nil & _)].
    - rewrite foldl_snoc. unfold push_name at 1. setoid_rewrite elem_of_app. setoid_rewrite list_elem_of_singleton.
      destruct (decide (name (vals r) = q)) as [Hq|Hq].
      + subst q. rewrite lookup_insert_eq. cbn [from_option id]. rewrite elem_of_app, list_elem_of_singleton, IH. naive_solver.
      + rewrite lookup_insert_ne, IH by done. naive_solver. }
  rewrite Hf. setoid_rewrite Hrows. naive_solver.
Qed.

(** Running the pass again on its own result, with the same imports, binds
    nothing and changes nothing: no call is bound twice, and one run finds all
    there is to find. *)
Lemma bind_bare_again kinds import_targets visibility late (s s' : Graph) n :
  NoDup (edge_id <$> edges s) →
  (∀ r, r ∈ nodes s → kind (vals r) ∈ kinds → split_colons (qualified_name (vals r)) ≠ None) →
  bind_bare_call_targets (load_bare_name_index kinds s) import_targets visibility late s = inl (s', n) →
  bind_bare_call_targets (load_bare_name_index kinds s') import_targets visibility late s' = inl (s', 0).
Proof using Type unordered_perm.
  intros Hnd Hnodes Hrun.
  assert (Hindex : load_bare_name_index kinds s' = load_bare_name_index kinds s).
  { destruct (bind_pass _ _ _ _ unordered_perm s s' n Hnd Hrun) as [-> _]. done. }
  rewrite Hindex. apply (bind_again _ _ _ _ unordered_perm s s' n Hnd); [|exact Hrun].
  intros q qn (r & Hr & Hk & _ & _ & <-)%lookup_index. by apply Hnodes.
Qed.

(** C14: The pass over bare calls changes nothing but edges: each edge that names a
    bare target and has a binding gets that binding's target, confidence and
    tier, every other edge is the row it was, and the count is the number of
    edges bound.  Each target is the qualified name of a node of the kinds asked
    for that carries the name the edge called, written in the caller's language
    family unless a module path gave its file.  Run again on its result the pass
    binds nothing: one run finds all there is to find. *)
Theorem bind_bare_call_targets_spec kinds import_targets visibility late (s s' : Graph) n :
  NoDup (edge_id <$> edges s) →
  bind_bare_call_targets (load_bare_name_index kinds s) import_targets visibility late s = inl (s', n) →
  let binding := binding (load_bare_name_index kinds s) import_targets visibility late in
  s' = set_edges (rebind (load_bare_name_index kinds s) import_targets visibility late <$> edges s) (edge_seq s) s ∧
  n = length (filter (λ e, is_Some (binding e)) (edges s)) ∧
  (∀ e r, binding e = Some r →
    selected late e = true ∧
    (∃ row, row ∈ nodes s ∧ kind (vals row) ∈ kinds ∧ name (vals row) = target_qualified (e_vals e) ∧
            qualified_name (vals row) = r.1.1) ∧
    (member (e_vals e) "module_file" = None →
     same_language_family (language_family (node_file_from_qualified (source_qualified (e_vals e)) (e_file_path (e_vals e))))
       (language_family (node_file_from_qualified r.1.1 "")) = true)) ∧
  ((∀ r, r ∈ nodes s → kind (vals r) ∈ kinds → split_colons (qualified_name (vals r)) ≠ None) →
   bind_bare_call_targets (load_bare_name_index kinds s') import_targets visibility late s' = inl (s', 0)).
Proof using Type unordered_perm.
  intros Hnd Hrun. destruct (bind_pass _ _ _ _ unordered_perm s s' n Hnd Hrun) as [Hs' Hn].
  split; [exact Hs'|split; [exact Hn|]]. split; [|intros Hnodes; by apply (bind_bare_again kinds import_targets visibility late s s' n)]. intros e r (Hsel & Hin & Hfam)%binding_sound. split; [done|split; [|done]].
  apply lookup_index in Hin as (row & Hrow & Hk & _ & Hname & Hqn). by exists row.
Qed.

(** ** Inheritance *)

Section inheritance.
(** [extra] with [bare_name_unresolved] set, when it is an object. *)
Context (insert_unresolved : Value → Value).
Context (index alias_index : gmap string (list string)) (import_targets : Sets) (visibility : SymbolVisibility).

(** Source: crates/dagayn-graph/src/postprocess/bare_names.rs 982-987 [resolve_bare_inheritance_targets]. *)
Definition inherits (e : EdgeRow) : bool :=
  bool_decide (e_kind (e_vals e) ∈ ["INHERITS"; "IMPLEMENTS"]) && bool_decide (split_colons (target_qualified (e_vals e)) = None).

(** A class first, then an alias of a type.

    Source: crates/dagayn-graph/src/postprocess/bare_names.rs 998-1006 [resolve_bare_inheritance_targets]. *)
Definition inherited (e : EdgeRow) : option Resolution :=
  let target := target_qualified (e_vals e) in
  let src_file := node_file_from_qualified (source_qualified (e_vals e)) (e_file_path (e_vals e)) in
  match resolve_via_imports import_targets visibility (default [] (index !! target)) src_file with
  | Some r => Some r
  | None => aliases ← alias_index !! target; resolve_via_imports import_targets visibility aliases src_file
  end.

(** Source: crates/dagayn-graph/src/postprocess/bare_names.rs 1033-1040 [resolve_bare_inheritance_targets]. *)
Definition unresolved (extra : string) (v : EdgeVals) : EdgeVals :=
  mkEdgeVals (e_kind v) (source_qualified v) (target_qualified v) (target_name v) (e_file_path v) (e_line v) extra
    BARE_UNRESOLVED_CONFIDENCE (as_str Low) (e_updated_at v).

(** Source: crates/dagayn-graph/src/postprocess/bare_names.rs 993-1041 [resolve_bare_inheritance_targets]. *)
Definition inherit_step (st : Graph * nat) (e : EdgeRow) : Result (Graph * nat) :=
  if looks_like_file_target (target_qualified (e_vals e)) then inl st
  else
    match inherited e with
    | Some r => inl (set_call_target (edge_id e) r st.1, S st.2)
    | None =>
        extra ← parse_json_column (Some (e_extra (e_vals e)));
        if default false (get_bool extra "bare_name_unresolved") then inl st
        else
          text ← extra_json (insert_unresolved extra);
          inl (update_edge (edge_id e) (unresolved text) st.1, st.2)
    end.

Definition inherit_pass (s : Graph) : Result (Graph * nat) :=
  try_fold inherit_step (s, 0) (unordered _ (filter (λ e, inherits e = true) (edges s))).

(** What the pass does to one edge. *)
Definition inherit_change (e : EdgeRow) : option (bool * (EdgeVals → EdgeVals)) :=
  if negb (inherits e) || looks_like_file_target (target_qualified (e_vals e)) then None
  else
    match inherited e with
    | Some r => Some (true, with_target r)
    | None =>
        match parse_json_column (Some (e_extra (e_vals e))) with
        | inl extra =>
            if default false (get_bool extra "bare_name_unresolved") then None
            else match extra_json (insert_unresolved extra) with inl text => Some (false, unresolved text) | inr _ => None end
        | inr _ => None
        end
    end.

Lemma inherit_cases e :
  inherits e = true → (∃ st st', inherit_step st e = inl st') →
  (∃ r, inherited e = Some r ∧ inherit_change e = Some (true, with_target r)) ∨
  (looks_like_file_target (target_qualified (e_vals e)) = true ∧ inherit_change e = None) ∨
  (∃ x, parse_json_column (Some (e_extra (e_vals e))) = inl x ∧
        (get_bool x "bare_name_unresolved" = Some true ∧ inherit_change e = None ∨
         ∃ text, extra_json (insert_unresolved x) = inl text ∧ inherit_change e = Some (false, unresolved text))).
Proof.
  intros Hi (st & st' & Hstep). unfold inherit_step in Hstep. unfold inherit_change. rewrite Hi. cbn [negb orb].
  destruct (looks_like_file_target _); [by right; left|]. destruct (inherited e) as [r|]; [by left; exists r|].
  right. right. destruct (parse_json_column _) as [x|]; cbn [mbind result_bind rbind] in Hstep; [|done]. exists x.
  split; [done|]. destruct (get_bool x "bare_name_unresolved") as [[]|]; cbn [default from_option id] in *; [by left| |];
    (right; destruct (extra_json _) as [text|]; cbn [mbind result_bind rbind] in Hstep; [by exists text|done]).
Qed.

Lemma inherit_steps l (st st' : Graph * nat) :
  (∀ e, e ∈ l → inherits e = true) →
  try_fold inherit_step st l = inl st' → foldl (pass_step inherit_change) st l = st'.
Proof.
  revert st. induction l as [|e l IH]; intros st Hl; cbn [try_fold]; [by intros [= <-]|].
  destruct (inherit_step st e) as [st1|] eqn:He; cbn [mbind result_bind rbind]; [|done]. intros Hrun. cbn [foldl].
  rewrite <-(IH st1) by first [done|intros x Hx; apply Hl; by right]. f_equal.
  unfold inherit_step in He. unfold pass_step, inherit_change. rewrite (Hl e) by left. cbn [negb orb].
  destruct (looks_like_file_target _); [by injection He|]. destruct (inherited e) as [r|]; [by injection He as <-|].
  destruct (parse_json_column _) as [extra|]; cbn [mbind result_bind rbind] in He; [|done].
  destruct (default false _); [by injection He|].
  destruct (extra_json _) as [text|]; cbn [mbind result_bind rbind] in He; [|done]. by injection He as <-.
Qed.

Lemma inherit_pass_spec (s s' : Graph) n :
  NoDup (edge_id <$> edges s) → inherit_pass s = inl (s', n) →
  s' = set_edges (changed inherit_change <$> edges s) (edge_seq s) s ∧
  n = length (filter (λ e, counts inherit_change e = true) (edges s)) ∧
  ∀ e, e ∈ edges s → inherits e = true → ∃ st st', inherit_step st e = inl st'.
Proof using Type unordered_perm.
  intros Hnd Hrun. unfold inherit_pass in Hrun.
  assert (Hl : unordered _ (filter (λ e, inherits e = true) (edges s)) ≡ₚ filter (λ e, inherits e = true) (edges s))
    by apply unordered_perm.
  assert (Hreads : ∀ e, e ∈ edges s → inherits e = true → ∃ st st', inherit_step st e = inl st').
  { intros e He Hi. apply (try_fold_step _ _ _ _ e Hrun). rewrite Hl. by apply list_elem_of_filter. }
  refine ((λ '(conj H1 H2), conj H1 (conj H2 Hreads)) _).
  apply inherit_steps in Hrun.
  - rewrite (pass_spec inherit_change _ _ s Hnd Hl) in Hrun; [by injection Hrun|].
    intros e _ He. unfold inherit_change. destruct (inherits e); [by destruct He|done].
  - intros e He. rewrite Hl in He. by apply list_elem_of_filter in He as [? _].
Qed.

Lemma inherited_sound e r :
  inherited e = Some r →
  (r.1.1 ∈ default [] (index !! target_qualified (e_vals e)) ∨ r.1.1 ∈ default [] (alias_index !! target_qualified (e_vals e))) ∧
  is_plausible_bare_edge import_targets visibility
    (node_file_from_qualified (source_qualified (e_vals e)) (e_file_path (e_vals e)))
    (node_file_from_qualified r.1.1 "") r.1.1 = true.
Proof.
  unfold inherited. destruct (resolve_via_imports import_targets visibility _ _) as [r'|] eqn:Hr.
  - intros [= <-]. apply resolve_via_imports_only in Hr as (? & ? & _). by split; [left|].
  - destruct (alias_index !! _) as [aliases|]; [|done]. cbn [mbind option_bind].
    intros (? & ? & _)%resolve_via_imports_only. by split; [right|].
Qed.

End inheritance.

(** Source: crates/dagayn-graph/src/postprocess/bare_names.rs 973-1044 [resolve_bare_inheritance_targets]. *)
Definition resolve_bare_inheritance_targets (truth : Sql → bool) (get_strings : Value → string → option (list string))
    (insert_unresolved : Value → Value) (s : Graph) : Result (Graph * nat) :=
  import_targets ← import_targets_tx unordered json_extract truth s;
  visibility ← symbol_visibility get_strings unordered s;
  inherit_pass insert_unresolved (load_bare_name_index ["Class"] s) (load_bare_name_index ["Type"] s) import_targets visibility s.

(** The pass over inheritance edges that name a bare parent leaves each of
    them in one of four states.  It is bound, with the confidence of the
    evidence, to a class or type alias of that name whose file the heir sees; or
    it names a file and is left alone; or it already was marked unresolved and is
    left alone; or it keeps its target and is marked unresolved at low
    confidence.  All other edges, and all nodes, are as they were, and the
    count is the number of edges bound. *)
Theorem inheritance_resolved truth get_strings insert_unresolved (s s' : Graph) n :
  NoDup (edge_id <$> edges s) →
  (∀ r, r ∈ nodes s → kind (vals r) ∈ ["Class"; "Type"] → split_colons (qualified_name (vals r)) ≠ None) →
  resolve_bare_inheritance_targets truth get_strings insert_unresolved s = inl (s', n) →
  ∃ import_targets visibility after,
    import_targets_tx unordered json_extract truth s = inl import_targets ∧
    symbol_visibility get_strings unordered s = inl visibility ∧
    s' = set_edges (after <$> edges s) (edge_seq s) s ∧
    n = length (filter (λ e, inherits e = true ∧ target_qualified (e_vals (after e)) ≠ target_qualified (e_vals e)) (edges s)) ∧
    ∀ e, e ∈ edges s → (inherits e = false → after e = e) ∧ (inherits e = true →
      (∃ r row, after e = mkEdgeRow (edge_id e) (with_target r (e_vals e)) ∧ row ∈ nodes s ∧ kind (vals row) ∈ ["Class"; "Type"] ∧
                name (vals row) = target_qualified (e_vals e) ∧ qualified_name (vals row) = r.1.1 ∧
                is_plausible_bare_edge import_targets visibility
                  (node_file_from_qualified (source_qualified (e_vals e)) (e_file_path (e_vals e)))
                  (node_file_from_qualified r.1.1 "") r.1.1 = true) ∨
      (looks_like_file_target (target_qualified (e_vals e)) = true ∧ after e = e) ∨
      (∃ x, parse_json_column (Some (e_extra (e_vals e))) = inl x ∧
            (get_bool x "bare_name_unresolved" = Some true ∧ after e = e ∨
             ∃ text, extra_json (insert_unresolved x) = inl text ∧ after e = mkEdgeRow (edge_id e) (unresolved text (e_vals e))))).
Proof using Type unordered_perm.
  intros Hnd Hnodes. unfold resolve_bare_inheritance_targets.
  destruct (import_targets_tx _ _ _ s) as [targets|]; cbn [mbind result_bind rbind]; [|done].
  destruct (symbol_visibility _ _ s) as [visibility|]; cbn [mbind result_bind rbind]; [|done]. intros Hrun.
  apply inherit_pass_spec in Hrun as (Hs' & Hn & Hreads); [|done]. do 3 eexists. split; [reflexivity|]. split; [reflexivity|].
  split; [exact Hs'|].
  set (change := inherit_change _ _ _ _ _) in *.
  assert (Hother : ∀ e, inherits e = false → change e = None).
  { intros e He. unfold change, inherit_change. by rewrite He. }
  assert (Hbound : ∀ e r, inherited (load_bare_name_index ["Class"] s) (load_bare_name_index ["Type"] s) targets visibility e = Some r →
    (∃ row, row ∈ nodes s ∧ kind (vals row) ∈ ["Class"; "Type"] ∧ name (vals row) = target_qualified (e_vals e) ∧
            qualified_name (vals row) = r.1.1) ∧
    is_plausible_bare_edge targets visibility
      (node_file_from_qualified (source_qualified (e_vals e)) (e_file_path (e_vals e)))
      (node_file_from_qualified r.1.1 "") r.1.1 = true).
  { intros e r [Hin Hp]%inherited_sound. split; [|done].
    destruct Hin as [(row & Hrow & Hk%list_elem_of_singleton & _ & Hname)%lookup_index
                    |(row & Hrow & Hk%list_elem_of_singleton & _ & Hname)%lookup_index];
      exists row; (split; [exact Hrow|split; [rewrite Hk; set_solver|exact Hname]]). }
  split.
  - rewrite Hn. f_equal. apply filter_ext_elem. intros e He. unfold counts, changed. destruct (inherits e) eqn:Hi.
    + destruct (inherit_cases _ _ _ _ _ e Hi (Hreads e He Hi)) as [(r & Hr & Hc)|[[_ Hc]|(x & _ & [[_ Hc]|(text & _ & Hc)])]];
        fold change in Hc; rewrite Hc; cbn; [|naive_solver..]. split; [|done]. intros _. split; [done|].
      destruct (Hbound e r Hr) as [(row & Hrow & Hk & _ & Hqn) _]. destruct r as [[qn conf] tier]. cbn in *.
      intros Heq. apply (Hnodes row Hrow Hk). rewrite Hqn, Heq. unfold inherits in Hi. apply andb_true_iff in Hi as [_ Hi].
      by apply bool_decide_eq_true in Hi.
    + rewrite (Hother e Hi). naive_solver.
  - intros e He. unfold changed. split; [intros Hi; by rewrite (Hother e Hi)|]. intros Hi.
    destruct (inherit_cases _ _ _ _ _ e Hi (Hreads e He Hi)) as [(r & Hr & Hc)|[[? Hc]|(x & Hx & [[? Hc]|(text & ? & Hc)])]];
      fold change in Hc; rewrite Hc; [left|right; left; done|right; right..].
    + destruct (Hbound e r Hr) as [(row & ? & ? & ? & ?) ?]. by exists r, row.
    + exists x. split; [done|]. by left.
    + exists x. split; [done|]. right. by exists text.
Qed.

End pass.

(** ** The theorems at work *)

#[local] Existing Instance text_json.

Definition rust_func (name path : string) : NodeInput :=
  mkNodeInput "Function" name path 1 2 "rust" None None None None false "null".

Definition rust_call (source target : string) : EdgeInput := mkEdgeInput "CALLS" source target "a.rs" 1 "null".

(** Two functions called [helper], one of them in the file [a.rs] imports, and a
    call on a name nothing declares. *)
Definition bare_store : GraphStore (F := unit) :=
  (store_file_batch no_text one "now"
     [mkItem _ _ "a.rs" [rust_func "main" "a.rs"] [rust_call "a.rs::main" "helper"; rust_call "a.rs::main" "println"] "a" 0;
      mkItem _ _ "b.rs" [rust_func "helper" "b.rs"] [] "b" 0;
      mkItem _ _ "c.rs" [rust_func "helper" "c.rs"] [] "c" 0] (new_store true)).1.

Definition bare_imports : Sets := {[ "a.rs" := {[ "b.rs" ]} ]}.
Definition nothing_visible : SymbolVisibility := mkVisibility ∅ ∅ ∅.
Definition no_members (extra path : string) : option Sql := None.

#[local] Abbreviation bound := (bind_bare_call_targets no_members in_order []
  (load_bare_name_index no_members in_order ["Function"] bare_store) bare_imports nothing_visible false bare_store).

Definition bare_bound : GraphStore (F := unit) := match bound with inl (s', _) => s' | inr _ => bare_store end.

(** The call reaches the function of the imported file, the other one stays. *)
Example bare_call_bound :
  (target_qualified ∘ e_vals) <$> edges bare_bound = ["b.rs::helper"; "println"] ∧ bound = inl (bare_bound, 1).
Proof. split; by vm_compute. Qed.

Lemma bind_bare_call_targets_spec_witness :
  NoDup (edge_id <$> edges bare_store) ∧ bound = inl (bare_bound, 1) ∧
  1 = length (filter (λ e, is_Some (binding no_members [] (load_bare_name_index no_members in_order ["Function"] bare_store)
                                      bare_imports nothing_visible false e)) (edges bare_store)).
Proof.
  assert (Hnd : NoDup (edge_id <$> edges bare_store)) by (apply (bool_decide_unpack _); by vm_compute).
  assert (Hrun : bound = inl (bare_bound, 1)) by by vm_compute.
  split; [exact Hnd|split; [exact Hrun|]].
  exact (proj1 (proj2 (bind_bare_call_targets_spec no_members in_order [] in_order_perm ["Function"] bare_imports
    nothing_visible false bare_store bare_bound 1 Hnd Hrun))).
Defined.

(** A class whose parents are a class it imports and one nothing declares. *)
Definition heir_store : GraphStore (F := unit) :=
  (store_file_batch no_text one "now"
     [mkItem _ _ "a.py" [mkNodeInput "Class" "A" "a.py" 1 2 "python" None None None None false "null"]
        [mkEdgeInput "IMPORTS_FROM" "a.py" "b.py" "a.py" 1 "null"; mkEdgeInput "INHERITS" "a.py::A" "Base" "a.py" 1 "null";
         mkEdgeInput "INHERITS" "a.py::A" "Other" "a.py" 1 "null"] "a" 0;
      mkItem _ _ "b.py" [mkNodeInput "Class" "Base" "b.py" 1 2 "python" None None None None false "null"] [] "b" 0]
     (new_store true)).1.

Definition no_truth (v : Sql) : bool := false.
Definition no_strings (v : Value) (key : string) : option (list string) := None.
Definition marked (v : Value) : Value := "{bare_name_unresolved:true}".

#[local] Abbreviation heirs := (resolve_bare_inheritance_targets no_members in_order no_truth no_strings marked heir_store).

Definition heir_bound : GraphStore (F := unit) := match heirs with inl (s', _) => s' | inr _ => heir_store end.

Example heirs_bound :
  (λ e, (target_qualified (e_vals e), confidence_tier (e_vals e))) <$> edges heir_bound =
    [("b.py", "EXTRACTED"); ("b.py::Base", "HIGH"); ("Other", "LOW")].
Proof. by vm_compute. Qed.

Lemma inheritance_resolved_witness :
  NoDup (edge_id <$> edges heir_store) ∧ heirs = inl (heir_bound, 1) ∧
  ∃ after : EdgeRow → EdgeRow, heir_bound = set_edges (after <$> edges heir_store) (edge_seq heir_store) heir_store.
Proof.
  assert (Hnd : NoDup (edge_id <$> edges heir_store)) by (apply (bool_decide_unpack _); by vm_compute).
  assert (Hrun : heirs = inl (heir_bound, 1)) by by vm_compute.
  split; [exact Hnd|split; [exact Hrun|]].
  destruct (inheritance_resolved no_members in_order in_order_perm no_truth no_strings marked heir_store heir_bound 1 Hnd)
    as (? & ? & after & _ & _ & Hs & _); [|exact Hrun|by exists after].
  assert (Hall : Forall (λ r, split_colons (qualified_name (vals r)) ≠ None) (nodes heir_store)).
  { apply (bool_decide_unpack _); by vm_compute. }
  intros r Hr _. exact (proj1 (Forall_forall _ _) Hall r Hr).
Defined.

End BareNames.
