(* ===== verification/Reexports.v ===== *)
(** * Names reached through a re-exporting module

    Models crates/dagayn-graph/src/postprocess/reexports.rs: what a module's
    imports bind, the walk from a name a file does not declare to the declaration
    its imports lead to, and the pass that moves such edges.  The reading of the
    [names] array is a parameter. *)
From S2P Require Import Prelude GraphData Sqlite Store StoreSpec EdgePass Impact ImpactSpec Visibility.
Import GraphData Sqlite Store StoreSpec EdgePass Impact ImpactSpec Visibility.

Module Reexports.

#[local] Set Default Proof Using "Type".

(** Source: crates/dagayn-graph/src/postprocess/reexports.rs 14-15 [MAX_HOPS]. *)
Definition MAX_HOPS : nat := 8.

(** Source: crates/dagayn-graph/src/postprocess/reexports.rs 17-24 [ModuleImports]. *)
Record ModuleImports := mkImports { names : gmap string (string * string); stars : list string }.

Definition no_imports : ModuleImports := mkImports ∅ [].

(** ** Following a name *)

Definition join_symbol (file symbol : string) : string := file +:+ "::" +:+ symbol.

(** [Iterator::find_map]. *)
Fixpoint first_some {A B} (f : A → option B) (l : list A) : option B :=
  match l with
  | [] => None
  | x :: l => match f x with Some y => Some y | None => first_some f l end
  end.

Lemma first_some_Some {A B} (f : A → option B) l y : first_some f l = Some y → ∃ x, x ∈ l ∧ f x = Some y.
Proof.
  induction l as [|x l IH]; cbn; [done|]. destruct (f x) as [z|] eqn:Hx.
  - intros [= <-]. exists x. by split; [left|].
  - intros (x' & ? & ?)%IH. exists x'. by split; [right|].
Qed.

Lemma first_some_is_Some {A B} (f : A → option B) l x y : x ∈ l → f x = Some y → is_Some (first_some f l).
Proof.
  induction l as [|z l IH]; [by intros ?%not_elem_of_nil|]. cbn. intros [->|Hx]%elem_of_cons Hf; [rewrite Hf; by eexists|].
  destruct (f z); [by eexists|by apply IH].
Qed.

(** [symbol.split_once('.')]. *)
Fixpoint split_dot (symbol : string) : string * option string :=
  match symbol with
  | EmptyString => ("", None)
  | String c s =>
      if bool_decide (c = dot) then ("", Some s)
      else let '(head, rest) := split_dot s in (String c head, rest)
  end.

(** [name], with what followed the first segment.

    Source: crates/dagayn-graph/src/postprocess/reexports.rs 94-97 [follow]. *)
Definition renamed (name : string) (rest : option string) : string :=
  match rest with Some rest => name +:+ "." +:+ rest | None => name end.

Section follow.
Context (imports : gmap string ModuleImports) (nodes : gset string).

Definition lazy_name (file symbol : string) : string := file +:+ "::__getattr__." +:+ symbol.

(** [hops] counts the modules that may still be entered; the code counts them
    up to [MAX_HOPS].

    Source: crates/dagayn-graph/src/postprocess/reexports.rs 70-113 [follow]. *)
Fixpoint follow (hops : nat) (file symbol : string) : option string :=
  match hops with
  | 0 => None
  | S hops =>
      if bool_decide (lazy_name file symbol ∈ nodes) then Some (lazy_name file symbol)
      else
        let enter origin symbol :=
          if bool_decide (join_symbol origin symbol ∈ nodes) then Some (join_symbol origin symbol)
          else follow hops origin symbol in
        match imports !! file with
        | None => None
        | Some module =>
            let '(head, rest) := split_dot symbol in
            match names module !! head with
            | Some (origin, name) => enter origin (renamed name rest)
            | None => first_some (λ origin, enter origin symbol) (stars module)
            end
        end
  end.

(** ** What it finds *)

(** One module entered: the first segment through the name that binds it, any
    name through a star import when nothing binds its first segment. *)
Inductive leads : string → string → string → string → Prop :=
  | leads_name file symbol module origin name :
      imports !! file = Some module → names module !! (split_dot symbol).1 = Some (origin, name) →
      leads file symbol origin (renamed name (split_dot symbol).2)
  | leads_star file symbol module origin :
      imports !! file = Some module → names module !! (split_dot symbol).1 = None → origin ∈ stars module →
      leads file symbol origin symbol.

(** A declaration within some modules: the name itself, or one a module
    [__getattr__] defines. *)
Inductive declares : nat → string → string → string → Prop :=
  | declares_lazy hops file symbol :
      lazy_name file symbol ∈ nodes → declares (S hops) file symbol (lazy_name file symbol)
  | declares_here hops file symbol origin symbol' :
      leads file symbol origin symbol' → join_symbol origin symbol' ∈ nodes →
      declares (S hops) file symbol (join_symbol origin symbol')
  | declares_there hops file symbol origin symbol' qualified :
      leads file symbol origin symbol' → declares hops origin symbol' qualified → declares (S hops) file symbol qualified.

Lemma declares_node hops file symbol qualified : declares hops file symbol qualified → qualified ∈ nodes.
Proof. by induction 1. Qed.

Lemma follow_sound hops file symbol qualified : follow hops file symbol = Some qualified → declares hops file symbol qualified.
Proof.
  revert file symbol. induction hops as [|hops IH]; intros file symbol; cbn [follow]; [done|].
  case_bool_decide as Hlazy; [intros [= <-]; by constructor|].
  assert (Henter : ∀ origin symbol', leads file symbol origin symbol' →
    (if bool_decide (join_symbol origin symbol' ∈ nodes) then Some (join_symbol origin symbol') else follow hops origin symbol')
      = Some qualified → declares (S hops) file symbol qualified).
  { intros origin symbol' Hl. case_bool_decide as Hn; [intros [= <-]; by eapply declares_here|].
    intros Hf%IH. by eapply declares_there. }
  destruct (imports !! file) as [module|] eqn:Hm; [|done].
  destruct (split_dot symbol) as [head rest] eqn:Hs.
  destruct (names module !! head) as [[origin name]|] eqn:Hn.
  - intros Hf. apply (Henter origin (renamed name rest)); [|done].
    pose proof (leads_name file symbol module origin name Hm) as Hl. rewrite Hs in Hl. by apply Hl.
  - intros (origin & Ho & Hf)%first_some_Some. apply (Henter origin symbol); [|done].
    apply (leads_star file symbol module); [done|by rewrite Hs|done].
Qed.

Lemma follow_complete hops file symbol qualified :
  declares hops file symbol qualified → is_Some (follow hops file symbol).
Proof.
  assert (Hstep : ∀ hops file symbol origin symbol', leads file symbol origin symbol' →
    is_Some (if bool_decide (join_symbol origin symbol' ∈ nodes) then Some (join_symbol origin symbol')
             else follow hops origin symbol') →
    is_Some (follow (S hops) file symbol)).
  { clear. intros hops file symbol origin symbol' Hl Hs. cbn [follow].
    destruct (bool_decide (lazy_name file symbol ∈ nodes)); [by eexists|].
    destruct Hl as [file symbol module origin name Hm Hn|file symbol module origin Hm Hn Ho];
      rewrite Hm; destruct (split_dot symbol) as [head rest]; cbn [fst snd] in *; rewrite Hn; [done|].
    destruct Hs as [q Hq]. by apply (first_some_is_Some _ _ origin q). }
  induction 1 as [hops file symbol Hl|hops file symbol origin symbol' Hl Hn|hops file symbol origin symbol' q Hl Hd IH].
  - cbn [follow]. rewrite bool_decide_eq_true_2 by done. by eexists.
  - apply (Hstep hops file symbol origin symbol' Hl). rewrite bool_decide_eq_true_2 by done. by eexists.
  - apply (Hstep hops file symbol origin symbol' Hl). case_bool_decide; [by eexists|done].
Qed.

End follow.

(** ** The pass *)

Section pass.
Context {F : Type}.
Context (json_extract : string → string → option Sql) (unordered : ∀ A, list A → list A).
(** [serde_json::from_str] of an array of pairs. *)
Context (read_pairs : string → option (list (string * string))).

#[local] Abbreviation Graph := (GraphStore (F := F)).

Definition import_member (e : EdgeRow) (key : string) : option Sql := json_extract (e_extra (e_vals e)) key.

(** Source: crates/dagayn-graph/src/postprocess/reexports.rs 30-35 [module_imports]. *)
Definition binds_names (e : EdgeRow) : bool :=
  bool_decide (e_kind (e_vals e) = "IMPORTS_FROM")
  && (match import_member e "names" with Some _ => true | None => false end || equals 1 (import_member e "glob")).

(** Source: crates/dagayn-graph/src/postprocess/reexports.rs 44-62 [module_imports]. *)
Definition add_module_import (files : gset string) (imports : gmap string ModuleImports) (e : EdgeRow)
    : Result (gmap string ModuleImports) :=
  raw ← read_text (import_member e "names");
  glob ← read_flag (import_member e "glob");
  let file := e_file_path (e_vals e) in
  let target := target_qualified (e_vals e) in
  if negb (bool_decide (target ∈ files)) then inl imports
  else
    let bound := default [] (raw ← raw; read_pairs raw) in
    let entry := default no_imports (imports !! file) in
    inl (<[file := if glob || bool_decide (bound = []) then mkImports (names entry) (stars entry ++ [target])
                   else mkImports (foldl (λ m '(name, alias), <[alias := (target, name)]> m) (names entry) bound) (stars entry)]>
           imports).

(** Source: crates/dagayn-graph/src/postprocess/reexports.rs 26-64 [module_imports]. *)
Definition module_imports (files : gset string) (s : Graph) : Result (gmap string ModuleImports) :=
  try_fold (add_module_import files) ∅ (unordered _ (filter (λ e, binds_names e = true) (edges s))).

Definition node_names (s : Graph) : gset string := list_to_set ((λ r, qualified_name (vals r)) <$> nodes s).

(** Source: crates/dagayn-graph/src/postprocess/reexports.rs 119-131 [resolve_reexported_targets]. *)
Definition file_names (s : Graph) : gset string :=
  list_to_set ((λ r, qualified_name (vals r)) <$> filter (λ r, kind (vals r) = "File") (nodes s)).

(** Source: crates/dagayn-graph/src/postprocess/reexports.rs 133-139 [resolve_reexported_targets]. *)
Definition dangling (s : Graph) (e : EdgeRow) : bool :=
  bool_decide (e_kind (e_vals e) ∈ ["CALLS"; "REFERENCES"; "INHERITS"; "IMPLEMENTS"])
  && match split_colons (target_qualified (e_vals e)) with Some _ => true | None => false end
  && negb (bool_decide (target_qualified (e_vals e) ∈ node_names s)).

(** Source: crates/dagayn-graph/src/postprocess/reexports.rs 144-152 [resolve_reexported_targets]. *)
Definition declaration (imports : gmap string ModuleImports) (s : Graph) (target : string) : option Resolution :=
  '(file, symbol) ← split_colons target;
  if negb (bool_decide (file ∈ file_names s)) then None
  else
    qualified ← follow imports (node_names s) MAX_HOPS file symbol;
    Some (qualified, DIRECT_IMPORT_CONFIDENCE, High).

Definition moves (imports : gmap string ModuleImports) (s : Graph) : EdgeRow → option (bool * (EdgeVals → EdgeVals)) :=
  retarget (λ e, declaration imports s (target_qualified (e_vals e))).

(** Source: crates/dagayn-graph/src/postprocess/reexports.rs 115-168 [resolve_reexported_targets]. *)
Definition resolve_reexported_targets (s : Graph) : Result (Graph * nat) :=
  imports ← module_imports (file_names s) s;
  inl (foldl (pass_step (moves imports s)) (s, 0) (unordered _ (filter (λ e, dangling s e = true) (edges s)))).

Hypothesis unordered_perm : ∀ A (l : list A), unordered A l ≡ₚ l.

(** What the pass asks of one row. *)
Definition reexported (imports : gmap string ModuleImports) (s : Graph) (e : EdgeRow) : option Resolution :=
  if dangling s e then declaration imports s (target_qualified (e_vals e)) else None.

Lemma declaration_spec imports (s : Graph) target r :
  declaration imports s target = Some r →
  ∃ file symbol, split_colons target = Some (file, symbol) ∧ file ∈ file_names s ∧
    declares imports (node_names s) MAX_HOPS file symbol r.1.1 ∧ r.1.2 = DIRECT_IMPORT_CONFIDENCE ∧ r.2 = High.
Proof.
  unfold declaration. destruct (split_colons target) as [[file symbol]|]; [|done]. cbn [mbind option_bind].
  case_bool_decide as Hf; [|done]. cbn [negb]. destruct (follow _ _ _ file symbol) as [q|] eqn:Hq; [|done]. cbn [mbind option_bind].
  intros [= <-]. apply follow_sound in Hq. by exists file, symbol.
Qed.

Lemma declaration_complete imports (s : Graph) target file symbol q :
  split_colons target = Some (file, symbol) → file ∈ file_names s →
  declares imports (node_names s) MAX_HOPS file symbol q → is_Some (declaration imports s target).
Proof.
  intros Ht Hf [q' Hq]%follow_complete. unfold declaration. rewrite Ht. cbn [mbind option_bind].
  rewrite bool_decide_eq_true_2 by done. cbn [negb]. rewrite Hq. by eexists.
Qed.

Lemma reexport_pass (s s' : Graph) n :
  NoDup (edge_id <$> edges s) → resolve_reexported_targets s = inl (s', n) →
  ∃ imports, module_imports (file_names s) s = inl imports ∧
    s' = set_edges (changed (retarget (reexported imports s)) <$> edges s) (edge_seq s) s ∧
    n = length (filter (λ e, is_Some (reexported imports s e)) (edges s)).
Proof using Type unordered_perm.
  intros Hnd. unfold resolve_reexported_targets.
  destruct (module_imports (file_names s) s) as [imports|]; cbn [mbind result_bind rbind]; [|done].
  set (l := unordered _ (filter _ (edges s))). intros Hrun. exists imports. split; [done|].
  assert (Hl : l ≡ₚ filter (λ e, dangling s e = true) (edges s)) by apply unordered_perm.
  assert (Hsame : foldl (pass_step (moves imports s)) (s, 0) l = foldl (pass_step (retarget (reexported imports s))) (s, 0) l).
  { apply foldl_ext_elem. intros st e He. rewrite Hl in He. apply list_elem_of_filter in He as [Hd _].
    unfold pass_step, moves, retarget, reexported. by rewrite Hd. }
  injection Hrun as Hrun. rewrite Hsame in Hrun.
  rewrite (pass_spec (retarget (reexported imports s)) _ l s Hnd Hl), retarget_counts in Hrun; [by injection Hrun|].
  intros e _ He. unfold retarget, reexported. by destruct (dangling s e).
Qed.

Lemma not_dangling imports (s : Graph) e r :
  reexported imports s e = Some r → r.1.1 ∈ node_names s ∧ target_qualified (e_vals e) ∉ node_names s ∧
  e_kind (e_vals e) ∈ ["CALLS"; "REFERENCES"; "INHERITS"; "IMPLEMENTS"].
Proof.
  unfold reexported. destruct (dangling s e) eqn:Hd; [|done]. intros (file & symbol & _ & _ & Hq%declares_node & _)%declaration_spec.
  split; [done|]. unfold dangling in Hd. bool_to_prop. done.
Qed.

(** The pass settles the graph in one run: run again on its result it moves
    nothing. *)
Lemma reexports_settled (s s' : Graph) n :
  NoDup (edge_id <$> edges s) → resolve_reexported_targets s = inl (s', n) → resolve_reexported_targets s' = inl (s', 0).
Proof using Type unordered_perm.
  intros Hnd Hrun. destruct (reexport_pass s s' n Hnd Hrun) as (imports & Hi & Hs' & _).
  set (after := changed (retarget (reexported imports s))) in *.
  assert (Hfilter : filter (λ e, binds_names e = true) (edges s') = filter (λ e, binds_names e = true) (edges s)).
  { rewrite Hs'. cbn [edges set_edges]. apply filter_changed. intros e. unfold after, changed, retarget.
    destruct (reexported imports s e) as [[[q conf] tier]|] eqn:Hr; cbn; [|by left]. right.
    apply not_dangling in Hr as (_ & _ & Hk). unfold binds_names, import_member. cbn [e_vals with_target e_kind].
    rewrite bool_decide_eq_false_2; [done|]. intros Heq. rewrite Heq in Hk. clear -Hk. set_solver. }
  assert (Hnodes : nodes s' = nodes s) by by rewrite Hs'.
  assert (Hnames : node_names s' = node_names s) by (unfold node_names; by rewrite Hnodes).
  assert (Hfiles : file_names s' = file_names s) by (unfold file_names; by rewrite Hnodes).
  unfold resolve_reexported_targets, module_imports. rewrite Hfilter, Hfiles. fold (module_imports (file_names s) s).
  rewrite Hi. cbn [mbind result_bind rbind]. f_equal. apply pass_nothing. intros e He.
  rewrite unordered_perm in He. apply list_elem_of_filter in He as [Hd He]. rewrite Hs' in He. cbn [edges set_edges] in He.
  assert (Hdd : ∀ e, dangling s' e = dangling s e) by (intros x; unfold dangling; by rewrite Hnames).
  assert (Hdec : ∀ t, declaration imports s' t = declaration imports s t).
  { intros t. unfold declaration. by rewrite Hfiles, Hnames. }
  apply list_elem_of_fmap in He as (e0 & -> & He0). rewrite Hdd in Hd. unfold moves, retarget. rewrite Hdec. revert Hd.
  unfold after, changed, retarget. destruct (reexported imports s e0) as [r|] eqn:Hr.
  - cbn. intros Hd. exfalso. apply not_dangling in Hr as (Hq & _). destruct r as [[q conf] tier]. unfold dangling in Hd.
    cbn [e_vals with_target target_qualified fst] in *. rewrite (bool_decide_eq_true_2 (q ∈ node_names s) Hq), andb_false_r in Hd. done.
  - cbn. intros Hd. unfold reexported in Hr. rewrite Hd in Hr. by rewrite Hr.
Qed.

(** C15: Every edge to a name its file only imports reaches the declaration.  An
    edge changes exactly when no node has its target's name, the file named is a
    node, and the file's imports lead to some node within [MAX_HOPS] modules; its
    new target is then such a node, at high confidence.  No other edge and no
    node changes, the count is the number of edges moved, and a second run moves
    nothing. *)
Theorem reexported_targets_found (s s' : Graph) n :
  NoDup (edge_id <$> edges s) → resolve_reexported_targets s = inl (s', n) →
  ∃ imports after, module_imports (file_names s) s = inl imports ∧
    s' = set_edges (after <$> edges s) (edge_seq s) s ∧
    n = length (filter (λ e, target_qualified (e_vals (after e)) ≠ target_qualified (e_vals e)) (edges s)) ∧
    (∀ e, after e ≠ e → dangling s e = true ∧ ∃ file symbol q,
        split_colons (target_qualified (e_vals e)) = Some (file, symbol) ∧ file ∈ file_names s ∧
        declares imports (node_names s) MAX_HOPS file symbol q ∧ q ∈ node_names s ∧
        after e = mkEdgeRow (edge_id e) (with_target (q, DIRECT_IMPORT_CONFIDENCE, High) (e_vals e))) ∧
    (∀ e file symbol q, dangling s e = true → split_colons (target_qualified (e_vals e)) = Some (file, symbol) →
      file ∈ file_names s → declares imports (node_names s) MAX_HOPS file symbol q → after e ≠ e) ∧
    resolve_reexported_targets s' = inl (s', 0).
Proof using Type unordered_perm.
  intros Hnd Hrun. destruct (reexport_pass s s' n Hnd Hrun) as (imports & Hi & Hs' & Hn).
  exists imports, (changed (retarget (reexported imports s))). split; [done|]. split; [done|].
  assert (Hmoved : ∀ e r, reexported imports s e = Some r →
    target_qualified (e_vals (changed (retarget (reexported imports s)) e)) ≠ target_qualified (e_vals e)).
  { intros e r Hr. unfold changed, retarget. rewrite Hr. destruct (not_dangling imports s e r Hr) as (Hq & Ht & _).
    destruct r as [[q conf] tier]. cbn in *. intros Heq. by rewrite <-Heq in Ht. }
  assert (Hkept : ∀ e, reexported imports s e = None → changed (retarget (reexported imports s)) e = e).
  { intros e He. unfold changed, retarget. by rewrite He. }
  split_and!.
  - rewrite Hn. f_equal. apply filter_ext_elem. intros e _. split; [intros [r Hr]; by eapply Hmoved|].
    intros Ht. destruct (reexported imports s e) as [r|] eqn:Hr; [by eexists|]. by rewrite (Hkept e Hr) in Ht.
  - intros e He. destruct (reexported imports s e) as [r|] eqn:Hr; [|by destruct (He (Hkept e Hr))].
    destruct (not_dangling imports s e r Hr) as (Hq & _ & _). unfold changed, retarget. rewrite Hr. unfold reexported in Hr.
    destruct (dangling s e); [|done]. split; [done|]. apply declaration_spec in Hr as (file & symbol & Hs & Hf & Hd & Hc & Ht).
    exists file, symbol, r.1.1. split_and!; try done. destruct r as [[q conf] tier]. cbn in *. by subst.
  - intros e file symbol q Hd Hs Hf Hq Heq. destruct (declaration_complete imports s _ file symbol q Hs Hf Hq) as [r Hr].
    unfold changed in Heq. assert (Hre : reexported imports s e = Some r) by (unfold reexported; by rewrite Hd).
    apply (Hmoved e r Hre). unfold changed. by rewrite Heq.
  - by apply (reexports_settled s s' n).
Qed.

End pass.

(** ** The theorems at work *)

#[local] Existing Instance text_json.

Definition py_file (path : string) : NodeInput := mkNodeInput "File" path path 1 2 "python" None None None None false "null".

(** A call of [pkg.run], which the package takes from [pkg/run.py] under
    another name. *)
Definition package_store : GraphStore (F := unit) :=
  (store_file_batch no_text one "now"
     [mkItem _ _ "pkg/__init__.py" [py_file "pkg/__init__.py"]
        [mkEdgeInput "IMPORTS_FROM" "pkg/__init__.py" "pkg/run.py" "pkg/__init__.py" 1 "start as run"] "p" 0;
      mkItem _ _ "pkg/run.py" [py_file "pkg/run.py"; func "start" "pkg/run.py"] [] "r" 0;
      mkItem _ _ "app.py" [func "main" "app.py"]
        [mkEdgeInput "CALLS" "app.py::main" "pkg/__init__.py::run" "app.py" 3 "null";
         mkEdgeInput "CALLS" "app.py::main" "pkg/__init__.py::stop" "app.py" 4 "null"] "a" 0] (new_store true)).1.

Definition aliases (extra key : string) : option Sql :=
  if bool_decide (extra = "start as run" ∧ key = "names") then Some (Text extra) else None.
Definition pairs (raw : string) : option (list (string * string)) := Some [("start", "run")].

#[local] Abbreviation resolved := (resolve_reexported_targets aliases in_order pairs package_store).

Definition package_resolved : GraphStore (F := unit) := match resolved with inl (s', _) => s' | inr _ => package_store end.

Example package_targets :
  (target_qualified ∘ e_vals) <$> edges package_resolved = ["pkg/run.py"; "pkg/run.py::start"; "pkg/__init__.py::stop"].
Proof. by vm_compute. Qed.

Lemma reexported_targets_found_witness :
  NoDup (edge_id <$> edges package_store) ∧ resolved = inl (package_resolved, 1) ∧
  ∃ after : EdgeRow → EdgeRow, package_resolved = set_edges (after <$> edges package_store) (edge_seq package_store) package_store.
Proof.
  assert (Hnd : NoDup (edge_id <$> edges package_store)) by (apply (bool_decide_unpack _); by vm_compute).
  assert (Hrun : resolved = inl (package_resolved, 1)) by by vm_compute.
  split; [exact Hnd|split; [exact Hrun|]].
  destruct (reexported_targets_found aliases in_order pairs in_order_perm package_store package_resolved 1 Hnd Hrun)
    as (? & after & _ & Hs & _). by exists after.
Defined.

End Reexports.
