(* ===== verification/TestedBy.v ===== *)
(** * TESTED_BY edges

    Models crates/dagayn-graph/src/postprocess/tested_by.rs: the edges a parser
    derived from a test's bare calls follow those calls to what they were bound
    to, then edges that say nothing of the repository go and the calls that have
    none get one. *)
From S2P Require Import Prelude GraphData Sqlite Store StoreSpec EdgePass Impact ImpactSpec Visibility.
Import GraphData Sqlite Store StoreSpec EdgePass Impact ImpactSpec Visibility.

Module TestedBy.

#[local] Set Default Proof Using "Type".

(** Source: crates/dagayn-graph/src/postprocess/tested_by.rs 4-9 [endpoint_leaf]. *)
Definition endpoint_leaf (endpoint : string) : string :=
  let path := edge_target_name endpoint in
  match rsplit_once dot path with Some (_, leaf) => leaf | None => path end.

Section tested_by.
Context {F : Type}.
Context (json_extract : string → string → option Sql) (unordered : ∀ A, list A → list A) (now : f64).

#[local] Abbreviation Graph := (GraphStore (F := F)).

(** What tells two [TESTED_BY] edges apart. *)
Definition tested_key (v : EdgeVals) : string * string * string * Z :=
  (source_qualified v, target_qualified v, e_file_path v, e_line v).

Definition is_tested_by (e : EdgeRow) : bool := bool_decide (e_kind (e_vals e) = "TESTED_BY").
Definition is_call (e : EdgeRow) : bool := bool_decide (e_kind (e_vals e) = "CALLS").

(** A call the test of [tb] makes on its line. *)
Definition on_line (tb c : EdgeRow) : bool :=
  is_call c
  && bool_decide ((source_qualified (e_vals c), e_file_path (e_vals c), e_line (e_vals c)) =
                  (target_qualified (e_vals tb), e_file_path (e_vals tb), e_line (e_vals tb))).

Definition bare (name : string) : bool := match split_colons name with None => true | Some _ => false end.

(** A bare edge whose bare call is gone.

    Source: crates/dagayn-graph/src/postprocess/tested_by.rs 33-39 [sync_tested_by_with_calls]. *)
Definition stale (s : Graph) (tb : EdgeRow) : bool :=
  is_tested_by tb && bare (source_qualified (e_vals tb))
  && negb (existsb (λ c, on_line tb c && bool_decide (target_qualified (e_vals c) = source_qualified (e_vals tb))) (edges s)).

(** Source: crates/dagayn-graph/src/postprocess/tested_by.rs 26-45 [sync_tested_by_with_calls]. *)
Definition stale_rows (s : Graph) : list (EdgeRow * EdgeRow) :=
  tb ← filter (λ tb, stale s tb = true) (edges s);
  (λ c, (tb, c)) <$> unordered _ (filter (λ c, on_line tb c && negb (bare (target_qualified (e_vals c))) = true) (edges s)).

Abbreviation Candidate := (string * f64 * string)%type (only parsing).

(** Source: crates/dagayn-graph/src/postprocess/tested_by.rs 46-49 [sync_tested_by_with_calls]. *)
Record Group := mkGroup {
  group_id : Z;
  group_test : string;
  group_file : string;
  group_line : Z;
  candidates : list Candidate
}.

(** The last group comes first.

    Source: crates/dagayn-graph/src/postprocess/tested_by.rs 50-62 [sync_tested_by_with_calls]. *)
Definition add_row (groups : list Group) (row : EdgeRow * EdgeRow) : list Group :=
  let '(tb, c) := row in
  let groups :=
    if match groups with [] => true | g :: _ => negb (bool_decide (group_id g = edge_id tb)) end
    then mkGroup (edge_id tb) (target_qualified (e_vals tb)) (e_file_path (e_vals tb)) (e_line (e_vals tb)) [] :: groups
    else groups in
  if negb (bool_decide (endpoint_leaf (target_qualified (e_vals c)) = endpoint_leaf (source_qualified (e_vals tb)))) then groups
  else
    match groups with
    | g :: rest =>
        if existsb (λ x, bool_decide (x.1.1 = target_qualified (e_vals c))) (candidates g) then groups
        else mkGroup (group_id g) (group_test g) (group_file g) (group_line g)
               (candidates g ++ [(target_qualified (e_vals c), confidence (e_vals c), confidence_tier (e_vals c))]) :: rest
    | [] => []
    end.

Definition with_source (x : Candidate) (v : EdgeVals) : EdgeVals :=
  mkEdgeVals (e_kind v) x.1.1 (target_qualified v) (target_name v) (e_file_path v) (e_line v) (e_extra v) x.1.2 x.2
    (e_updated_at v).

Definition has_tested_by (key : string * string * string * Z) (s : Graph) : bool :=
  existsb (λ e, is_tested_by e && bool_decide (tested_key (e_vals e) = key)) (edges s).

(** Source: crates/dagayn-graph/src/postprocess/tested_by.rs 64-89 [sync_tested_by_with_calls]. *)
Definition settle_group (st : Graph * nat) (g : Group) : Graph * nat :=
  match candidates g with
  | [x] =>
      (if has_tested_by (x.1.1, group_test g, group_file g, group_line g) st.1
       then set_edges (filter (λ e, edge_id e ≠ group_id g) (edges st.1)) (edge_seq st.1) st.1
       else update_edge (group_id g) (with_source x) st.1, S st.2)
  | _ => st
  end.

(** Source: crates/dagayn-graph/src/postprocess/tested_by.rs 24-92 [sync_tested_by_with_calls]. *)
Definition sync_tested_by_with_calls (s : Graph) : Graph * nat :=
  foldl settle_group (s, 0) (rev (foldl add_row [] (stale_rows s))).

(** ** Reconciling *)

Definition is_node (s : Graph) (name : string) : bool := existsb (λ r, bool_decide (qualified_name (vals r) = name)) (nodes s).

(** Source: crates/dagayn-graph/src/postprocess/tested_by.rs 103-108 [reconcile_tested_by_with_calls]. *)
Definition drop_unknown (s : Graph) : Graph * nat :=
  let keep := filter (λ e, negb (is_tested_by e) || is_node s (source_qualified (e_vals e)) = true) (edges s) in
  (set_edges keep (edge_seq s) s, length (edges s) - length keep).

(** A call that makes a [TESTED_BY] edge.

    Source: crates/dagayn-graph/src/postprocess/tested_by.rs 116-121 [reconcile_tested_by_with_calls]. *)
Definition tests (s : Graph) (c : EdgeRow) : bool :=
  is_call c
  && existsb (λ r, bool_decide (qualified_name (vals r) = source_qualified (e_vals c)) && is_test (vals r)) (nodes s)
  && is_node s (target_qualified (e_vals c))
  && equals 0 (json_extract (e_extra (e_vals c)) "external") && equals 0 (json_extract (e_extra (e_vals c)) "test_api").

(** The key of the edge a call makes. *)
Definition call_key (v : EdgeVals) : string * string * string * Z :=
  (target_qualified v, source_qualified v, e_file_path v, e_line v).

(** A row for each test node and target node of the names.

    Source: crates/dagayn-graph/src/postprocess/tested_by.rs 110-133 [reconcile_tested_by_with_calls]. *)
Definition missing (s : Graph) : list EdgeVals :=
  c ← filter (λ c, tests s c && negb (has_tested_by (call_key (e_vals c)) s) = true) (edges s);
  test ← filter (λ r, qualified_name (vals r) = source_qualified (e_vals c) ∧ is_test (vals r) = true) (nodes s);
  target ← filter (λ r, qualified_name (vals r) = target_qualified (e_vals c)) (nodes s);
  [e_vals c].

(** Source: crates/dagayn-graph/src/postprocess/tested_by.rs 141-153 [reconcile_tested_by_with_calls]. *)
Definition tested_by (v : EdgeVals) : EdgeVals :=
  mkEdgeVals "TESTED_BY" (target_qualified v) (source_qualified v) (edge_target_name (source_qualified v)) (e_file_path v) (e_line v)
    "{}" (confidence v) (confidence_tier v) now.

(** Source: crates/dagayn-graph/src/postprocess/tested_by.rs 137-155 [reconcile_tested_by_with_calls]. *)
Definition add_missing (st : Graph * list (string * string * string * Z) * nat) (v : EdgeVals)
    : Graph * list (string * string * string * Z) * nat :=
  let '(s, seen, added) := st in
  if bool_decide (call_key v ∈ seen) then st else (insert_edge_rows s [tested_by v], call_key v :: seen, S added).

(** Source: crates/dagayn-graph/src/postprocess/tested_by.rs 102-157 [reconcile_tested_by_with_calls]. *)
Definition reconcile_tested_by_with_calls (s : Graph) : Graph * (nat * nat) :=
  let '(s, dropped) := drop_unknown s in
  let '(s, _, added) := foldl add_missing (s, [], 0) (missing s) in
  (s, (dropped, added)).

(** ** What reconciling does *)

Definition tested_keys (s : Graph) : list (string * string * string * Z) :=
  (λ e, tested_key (e_vals e)) <$> filter (λ e, is_tested_by e = true) (edges s).

Lemma has_tested_by_spec key (s : Graph) : has_tested_by key s = true ↔ key ∈ tested_keys s.
Proof.
  unfold has_tested_by, tested_keys. rewrite existsb_exists, list_elem_of_fmap. setoid_rewrite list_elem_of_filter.
  setoid_rewrite andb_true_iff. setoid_rewrite bool_decide_eq_true. setoid_rewrite <-list_elem_of_In. naive_solver.
Qed.

Lemma insert_edge_rows_edges (s : Graph) vs :
  ∃ news, insert_edge_rows s vs = set_edges (edges s ++ news) (edge_seq s + Z.of_nat (length vs)) s ∧ e_vals <$> news = vs.
Proof.
  unfold insert_edge_rows. destruct (foldl_insert_row (edges s) (edge_seq s) vs) as (news & He & Hv & _). rewrite He. by exists news.
Qed.

Lemma add_missing_spec l (s s' : Graph) seen seen' n n' :
  foldl add_missing (s, seen, n) l = (s', seen', n') →
  ∃ vs news, edges s' = edges s ++ news ∧ nodes s' = nodes s ∧ e_vals <$> news = tested_by <$> vs ∧ n' = n + length vs ∧
    (∀ v, v ∈ vs → v ∈ l ∧ call_key v ∉ seen) ∧ NoDup (call_key <$> vs) ∧
    (∀ v, v ∈ l → call_key v ∈ seen ∨ call_key v ∈ call_key <$> vs).
Proof.
  revert s seen n. induction l as [|v l IH]; intros s seen n; cbn [foldl].
  { intros [= <- <- <-]. exists [], []. rewrite app_nil_r. split_and!; [done|done|done|cbn; lia|by intros v ?%not_elem_of_nil|constructor|by intros v ?%not_elem_of_nil]. }
  unfold add_missing at 2. case_bool_decide as Hseen.
  - intros (vs & news & H1 & H2 & H3 & H4 & H5 & H6 & H7)%IH. exists vs, news. split_and!; try done.
    + intros x Hx. destruct (H5 x Hx). split; [by right|done].
    + intros x [->|Hx]%elem_of_cons; [by left|by apply H7].
  - destruct (insert_edge_rows_edges s [tested_by v]) as (one_new & Hins & Hv). rewrite Hins.
    intros (vs & news & H1 & H2 & H3 & H4 & H5 & H6 & H7)%IH. cbn [edges nodes set_edges] in *.
    exists (v :: vs), (one_new ++ news). rewrite app_assoc. split_and!; try done.
    + by rewrite fmap_app, Hv, H3.
    + cbn [length]. lia.
    + intros x [->|Hx]%elem_of_cons; [split; [left|done]|]. destruct (H5 x Hx) as [? Hn]. split; [by right|].
      intros Hin. apply Hn. by right.
    + rewrite fmap_cons. constructor; [|done]. intros (x & Hk & Hx)%list_elem_of_fmap. destruct (H5 x Hx) as [_ Hn].
      apply Hn. rewrite <-Hk. left.
    + intros x [->|Hx]%elem_of_cons; [right; left|]. rewrite fmap_cons. destruct (H7 x Hx) as [[->|]%elem_of_cons|]; [right; left|by left|].
      right. by right.
Qed.

Lemma missing_spec (s : Graph) v :
  v ∈ missing s ↔ ∃ c, c ∈ edges s ∧ tests s c = true ∧ has_tested_by (call_key (e_vals c)) s = false ∧ v = e_vals c.
Proof.
  unfold missing. rewrite list_elem_of_bind. split.
  - intros (c & Hv & [Hc Hin]%list_elem_of_filter). apply andb_true_iff in Hc as [Ht Hn%negb_true_iff].
    apply list_elem_of_bind in Hv as (r & Hv & _). apply list_elem_of_bind in Hv as (t & Hv%list_elem_of_singleton & _).
    by exists c.
  - intros (c & Hin & Ht & Hn & ->). exists c. split; [|apply list_elem_of_filter; by rewrite Ht, Hn].
    unfold tests, is_node in Ht. rewrite !andb_true_iff, !existsb_exists in Ht. destruct Ht as ((((_ & r & Hr & Hrt) & t & Ht & Htn) & _) & _).
    apply andb_true_iff in Hrt as [Hrq%bool_decide_eq_true Hrt]. apply bool_decide_eq_true in Htn.
    apply list_elem_of_In in Hr, Ht. apply list_elem_of_bind. exists r. split; [|by apply list_elem_of_filter].
    apply list_elem_of_bind. exists t. split; [by apply list_elem_of_singleton|by apply list_elem_of_filter].
Qed.

Lemma drop_unknown_spec (s s1 : Graph) dropped :
  drop_unknown s = (s1, dropped) →
  nodes s1 = nodes s ∧
  (∀ e, e ∈ edges s1 ↔ e ∈ edges s ∧ (is_tested_by e = true → is_node s (source_qualified (e_vals e)) = true)) ∧
  filter (λ e, is_tested_by e = false) (edges s1) = filter (λ e, is_tested_by e = false) (edges s) ∧
  sublist (tested_keys s1) (tested_keys s) ∧ length (edges s) = length (edges s1) + dropped.
Proof.
  unfold drop_unknown. intros [= <- <-]. unfold tested_keys. cbn [edges nodes set_edges]. split; [done|]. split_and!.
  - intros e. rewrite list_elem_of_filter. destruct (is_tested_by e); cbn; naive_solver.
  - rewrite list_filter_filter. apply filter_ext_elem. intros e _. destruct (is_tested_by e); cbn; naive_solver.
  - apply fmap_sublist. rewrite list_filter_filter.
    rewrite (list_filter_iff _ (λ e, negb (is_tested_by e) || is_node s (source_qualified (e_vals e)) = true ∧ is_tested_by e = true))
      by tauto.
    rewrite <-list_filter_filter. apply sublist_filter.
  - pose proof (sublist_length _ _ (sublist_filter (λ e, negb (is_tested_by e) || is_node s (source_qualified (e_vals e)) = true) (edges s))).
    lia.
Qed.

Lemma tests_nodes (s1 s : Graph) c : nodes s1 = nodes s → tests s1 c = tests s c.
Proof. intros Hn. unfold tests, is_node. by rewrite Hn. Qed.

Lemma tests_node (s : Graph) c : tests s c = true → is_call c = true ∧ is_node s (target_qualified (e_vals c)) = true.
Proof. unfold tests. rewrite !andb_true_iff. tauto. Qed.

(** The edges added. *)
Record added_ok (s s' : Graph) (added : nat) : Prop := {
  ao_nodes : nodes s' = nodes s;
  ao_edges : ∃ news, edges s' = edges s ++ news ∧ length news = added ∧
    (∀ e, e ∈ news → ∃ c, c ∈ edges s ∧ tests s c = true ∧ has_tested_by (call_key (e_vals c)) s = false ∧
                          e_vals e = tested_by (e_vals c)) ∧
    NoDup ((λ e, tested_key (e_vals e)) <$> news);
  ao_done : ∀ c, c ∈ edges s → tests s c = true → has_tested_by (call_key (e_vals c)) s' = true
}.

Lemma tested_keys_app (s s' : Graph) news :
  edges s' = edges s ++ news → Forall (λ e, is_tested_by e = true) news →
  tested_keys s' = tested_keys s ++ ((λ e, tested_key (e_vals e)) <$> news).
Proof.
  intros He Hn. unfold tested_keys. rewrite He, filter_app, fmap_app. f_equal. f_equal.
  clear He. induction Hn as [|e l He' _ IH]; [done|]. rewrite filter_cons, decide_True by done. by rewrite IH.
Qed.

Lemma add_all (s s' : Graph) seen added :
  foldl add_missing (s, [], 0) (missing s) = (s', seen, added) → added_ok s s' added.
Proof.
  intros (vs & news & He & Hn & Hv & -> & H5 & H6 & H7)%add_missing_spec.
  assert (Hnews : ∀ e, e ∈ news → ∃ v, v ∈ vs ∧ e_vals e = tested_by v).
  { intros e Hin. apply (list_elem_of_fmap_2 e_vals) in Hin. rewrite Hv in Hin. apply list_elem_of_fmap in Hin as (v & -> & ?).
    by exists v. }
  assert (Hkeys : (λ e, tested_key (e_vals e)) <$> news = call_key <$> vs).
  { change (λ e, tested_key (e_vals e)) with (tested_key ∘ e_vals). rewrite list_fmap_compose, Hv, <-list_fmap_compose. done. }
  assert (Htb : Forall (λ e, is_tested_by e = true) news).
  { apply Forall_forall. intros e (v & _ & Hev)%Hnews. unfold is_tested_by. by rewrite Hev. }
  split; [done| |].
  - exists news. split; [done|]. split; [|split].
    + apply (f_equal length) in Hv. rewrite !length_fmap in Hv. lia.
    + intros e (v & Hin & Hev)%Hnews. destruct (H5 v Hin) as [(c & ? & ? & ? & ->)%missing_spec _]. by exists c.
    + by rewrite Hkeys.
  - intros c Hc Ht. apply has_tested_by_spec. rewrite (tested_keys_app s s' news He Htb), elem_of_app, Hkeys.
    destruct (has_tested_by (call_key (e_vals c)) s) eqn:Hh; [left; by apply has_tested_by_spec|].
    right. destruct (H7 (e_vals c)) as [?%not_elem_of_nil|]; [apply missing_spec; by exists c|done..].
Qed.

Lemma reconcile_settles (s s' : Graph) counts :
  reconcile_tested_by_with_calls s = (s', counts) →
  nodes s' = nodes s ∧
  (∀ e, e ∈ edges s' → is_tested_by e = true → is_node s (source_qualified (e_vals e)) = true) ∧
  (∀ c, c ∈ edges s ∨ c ∈ edges s' → tests s c = true → has_tested_by (call_key (e_vals c)) s' = true).
Proof.
  unfold reconcile_tested_by_with_calls. destruct (drop_unknown s) as [s1 dropped] eqn:Hd.
  destruct (foldl add_missing (s1, [], 0) (missing s1)) as [[s2 seen] added] eqn:Ha. intros [= <- <-].
  destruct (drop_unknown_spec s s1 dropped Hd) as (Hn1 & He1 & _ & _ & _).
  destruct (add_all s1 s2 seen added Ha) as [Hn2 (news & He2 & _ & Hnews & _) Hdone].
  split; [by rewrite Hn2|split].
  - intros e He Ht. rewrite He2 in He. apply elem_of_app in He as [[_ He]%He1|He]; [by apply He|].
    destruct (Hnews e He) as (c & _ & [_ Hc]%tests_node & _ & ->). unfold is_node in *. by rewrite <-Hn1.
  - intros c Hc Ht. assert (Hkind : is_tested_by c = true → False).
    { destruct (tests_node s c Ht) as [Hcall _]. unfold is_call, is_tested_by in *. intros Hk. bool_to_prop. congruence. }
    apply Hdone; [|by rewrite (tests_nodes s1 s)]. destruct Hc as [Hc|Hc]; [by apply He1; split; [|intros ?%Hkind]|].
    rewrite He2 in Hc. apply elem_of_app in Hc as [?|Hc]; [done|]. exfalso. apply Hkind.
    destruct (Hnews c Hc) as (c' & _ & _ & _ & Hev). unfold is_tested_by. by rewrite Hev.
Qed.

(** Reconciling again drops nothing and adds nothing. *)
Lemma reconcile_again (s : Graph) :
  let s' := (reconcile_tested_by_with_calls s).1 in reconcile_tested_by_with_calls s' = (s', (0, 0)).
Proof.
  destruct (reconcile_tested_by_with_calls s) as [s' counts] eqn:Hr. cbn [fst].
  destruct (reconcile_settles s s' counts Hr) as (Hn & Hsrc & Hdone).
  assert (Hkeep : drop_unknown s' = (s', 0)).
  { unfold drop_unknown. rewrite (filter_all _ (edges s')).
    - rewrite Nat.sub_diag. f_equal. by destruct s'.
    - intros e He. destruct (is_tested_by e) eqn:Ht; [|done]. cbn. unfold is_node. rewrite Hn. by apply Hsrc. }
  assert (Hnone : missing s' = []).
  { destruct (missing s') as [|v l] eqn:Hm; [done|]. assert (Hv : v ∈ missing s') by (rewrite Hm; left).
    apply missing_spec in Hv as (c & Hc & Ht & Hh & _). rewrite (tests_nodes s' s) in Ht by done.
    rewrite (Hdone c (or_intror Hc) Ht) in Hh. done. }
  unfold reconcile_tested_by_with_calls. by rewrite Hkeep, Hnone.
Qed.

(** Reconciling puts the [TESTED_BY] edges in step with the graph.  Afterwards
    every one of them starts at a node; every call that counts as a test has one;
    each is an old one or comes from such a call.  Every old one that starts at a
    node stays, the other edges and the nodes are untouched, and no two
    [TESTED_BY] edges say the same thing if none did before.  The two counts are
    the edges dropped and added, and a second run drops and adds none. *)
Theorem reconcile_tested_by_spec (s : Graph) :
  let '(s', (dropped, added)) := reconcile_tested_by_with_calls s in
  nodes s' = nodes s ∧
  filter (λ e, is_tested_by e = false) (edges s') = filter (λ e, is_tested_by e = false) (edges s) ∧
  (∀ e, e ∈ edges s' → is_tested_by e = true → is_node s (source_qualified (e_vals e)) = true) ∧
  (∀ c, c ∈ edges s → tests s c = true → has_tested_by (call_key (e_vals c)) s' = true) ∧
  (∀ e, e ∈ edges s' → e ∈ edges s ∨ ∃ c, c ∈ edges s ∧ tests s c = true ∧ e_vals e = tested_by (e_vals c)) ∧
  (∀ e, e ∈ edges s → is_node s (source_qualified (e_vals e)) = true → e ∈ edges s') ∧
  (NoDup (tested_keys s) → NoDup (tested_keys s')) ∧
  length (edges s') + dropped = length (edges s) + added ∧
  reconcile_tested_by_with_calls s' = (s', (0, 0)).
Proof.
  pose proof (reconcile_again s) as Hagain. cbn zeta in Hagain.
  destruct (reconcile_tested_by_with_calls s) as [s' [dropped added]] eqn:Hr. cbn [fst] in Hagain.
  pose proof Hr as Hrun. unfold reconcile_tested_by_with_calls in Hrun. destruct (drop_unknown s) as [s1 d] eqn:Hd.
  destruct (foldl add_missing (s1, [], 0) (missing s1)) as [[s2 seen] a] eqn:Ha. injection Hrun as -> -> ->.
  destruct (drop_unknown_spec s s1 dropped Hd) as (Hn1 & He1 & Hf1 & Hk1 & Hl1).
  destruct (add_all s1 s' seen added Ha) as [Hn2 (news & He2 & Hl2 & Hnews & Hnd2) Hdone].
  assert (Htb : Forall (λ e, is_tested_by e = true) news).
  { apply Forall_forall. intros e (c & _ & _ & _ & Hev)%Hnews. unfold is_tested_by. by rewrite Hev. }
  destruct (reconcile_settles s s' _ Hr) as (Hn & Hsrc & Hall).
  split_and!.
  - done.
  - rewrite He2, filter_app, (filter_nothing _ news), app_nil_r; [done|].
    intros e He. rewrite Forall_forall in Htb. by rewrite (Htb e He).
  - done.
  - intros c Hc. apply Hall. by left.
  - intros e He. rewrite He2 in He. apply elem_of_app in He as [[He _]%He1|He]; [by left|right].
    destruct (Hnews e He) as (c & [Hc _]%He1 & Ht & _ & Hev). exists c. by rewrite <-(tests_nodes s1 s).
  - intros e He Ht. rewrite He2. apply elem_of_app. left. by apply He1.
  - intros Hnd. rewrite (tested_keys_app s1 s' news He2 Htb). apply NoDup_app. split; [by eapply sublist_NoDup|].
    split; [|done]. intros k Hk (e & -> & He)%list_elem_of_fmap. destruct (Hnews e He) as (c & _ & _ & Hno & Hev).
    apply has_tested_by_spec in Hk. rewrite Hev in Hk. change (tested_key (tested_by (e_vals c))) with (call_key (e_vals c)) in Hk.
    by rewrite Hno in Hk.
  - rewrite He2, length_app, Hl1. lia.
  - exact Hagain.
Qed.

(** ** What syncing does *)

Hypothesis unordered_perm : ∀ A (l : list A), unordered A l ≡ₚ l.

(** The resolved calls of a test on its line. *)
Definition resolved_calls (s : Graph) (tb : EdgeRow) : list EdgeRow :=
  unordered _ (filter (λ c, on_line tb c && negb (bare (target_qualified (e_vals c))) = true) (edges s)).

Definition same_leaf (tb c : EdgeRow) : bool :=
  bool_decide (endpoint_leaf (target_qualified (e_vals c)) = endpoint_leaf (source_qualified (e_vals tb))).

Definition candidate_of (c : EdgeRow) : Candidate := (target_qualified (e_vals c), confidence (e_vals c), confidence_tier (e_vals c)).

Definition add_candidate (tb : EdgeRow) (l : list Candidate) (c : EdgeRow) : list Candidate :=
  if negb (same_leaf tb c) || existsb (λ x, bool_decide (x.1.1 = target_qualified (e_vals c))) l then l
  else l ++ [candidate_of c].

Definition group_of (s : Graph) (tb : EdgeRow) : Group :=
  mkGroup (edge_id tb) (target_qualified (e_vals tb)) (e_file_path (e_vals tb)) (e_line (e_vals tb))
    (foldl (add_candidate tb) [] (resolved_calls s tb)).

Lemma add_rows_same tb cs g rest :
  group_id g = edge_id tb →
  foldl add_row (g :: rest) (pair tb <$> cs) =
    mkGroup (group_id g) (group_test g) (group_file g) (group_line g) (foldl (add_candidate tb) (candidates g) cs) :: rest.
Proof.
  revert g. induction cs as [|c cs IH]; intros g Hg; [by destruct g|]. rewrite fmap_cons. cbn [foldl].
  unfold add_row at 2. rewrite (bool_decide_eq_true_2 _ Hg). cbn [negb]. unfold add_candidate at 2.
  fold (same_leaf tb c). destruct (same_leaf tb c); cbn [negb orb]; [|by apply IH].
  destruct (existsb (λ x, bool_decide (x.1.1 = target_qualified (e_vals c))) (candidates g)); [by apply IH|]. by rewrite IH.
Qed.

Lemma add_rows_new tb cs groups :
  (∀ g, head groups = Some g → group_id g ≠ edge_id tb) → cs ≠ [] →
  foldl add_row groups (pair tb <$> cs) =
    mkGroup (edge_id tb) (target_qualified (e_vals tb)) (e_file_path (e_vals tb)) (e_line (e_vals tb))
      (foldl (add_candidate tb) [] cs) :: groups.
Proof.
  intros Hg Hcs. set (g := mkGroup (edge_id tb) (target_qualified (e_vals tb)) (e_file_path (e_vals tb)) (e_line (e_vals tb)) []).
  assert (Hstart : foldl add_row groups (pair tb <$> cs) = foldl add_row (g :: groups) (pair tb <$> cs)).
  { destruct cs as [|c cs]; [done|]. rewrite fmap_cons. cbn [foldl]. f_equal. unfold add_row. fold g. cbn [group_id g].
    rewrite (bool_decide_eq_true_2 (edge_id tb = edge_id tb)) by done. cbn [negb].
    destruct groups as [|g' groups]; [done|]. by rewrite (bool_decide_eq_false_2 _ (Hg g' eq_refl)). }
  rewrite Hstart, add_rows_same; done.
Qed.

Lemma groups_spec (s : Graph) l groups :
  NoDup (edge_id <$> l) → (∀ g tb, head groups = Some g → tb ∈ l → group_id g ≠ edge_id tb) →
  foldl add_row groups (tb ← l; pair tb <$> resolved_calls s tb) =
    rev (group_of s <$> filter (λ tb, resolved_calls s tb ≠ []) l) ++ groups.
Proof.
  revert groups. induction l as [|tb l IH]; intros groups Hnd Hg; [done|].
  rewrite fmap_cons in Hnd. apply NoDup_cons in Hnd as [Htb Hnd]. rewrite bind_cons, foldl_app, filter_cons.
  destruct (decide (resolved_calls s tb ≠ [])) as [Hcs|Hcs].
  - rewrite add_rows_new, IH; [|done| |intros g Hh; apply (Hg g tb Hh); left|done].
    + rewrite fmap_cons. cbn [rev]. by rewrite <-app_assoc.
    + intros g x [= <-] Hx. cbn [group_id]. intros Heq. apply Htb. rewrite Heq. by apply list_elem_of_fmap_2.
  - apply dec_stable in Hcs. rewrite Hcs. cbn [fmap list_fmap foldl]. apply IH; [done|]. intros g x Hh Hx. apply (Hg g x Hh). by right.
Qed.

Lemma sync_groups (s : Graph) :
  NoDup (edge_id <$> edges s) →
  sync_tested_by_with_calls s =
    foldl settle_group (s, 0) (group_of s <$> filter (λ tb, resolved_calls s tb ≠ []) (filter (λ tb, stale s tb = true) (edges s))).
Proof.
  intros Hnd. unfold sync_tested_by_with_calls. f_equal.
  assert (Hl : NoDup (edge_id <$> filter (λ tb, stale s tb = true) (edges s))).
  { eapply sublist_NoDup; [exact Hnd|]. apply fmap_sublist, sublist_filter. }
  pose proof (groups_spec s _ [] Hl ltac:(by intros g tb [=])) as Hg. rewrite app_nil_r in Hg.
  rewrite <-(rev_involutive (group_of s <$> _)). f_equal. rewrite <-Hg. done.
Qed.

(** *** The candidates of one edge *)

(** A call that could be what the bare edge stands for. *)
Definition could_be (s : Graph) (tb c : EdgeRow) : Prop :=
  c ∈ edges s ∧ on_line tb c = true ∧ bare (target_qualified (e_vals c)) = false ∧ same_leaf tb c = true.

Lemma add_candidates_spec tb cs :
  let l := foldl (add_candidate tb) [] cs in
  (∀ x, x ∈ l → ∃ c, c ∈ cs ∧ same_leaf tb c = true ∧ x = candidate_of c) ∧
  (∀ c, c ∈ cs → same_leaf tb c = true → ∃ x, x ∈ l ∧ x.1.1 = target_qualified (e_vals c)) ∧
  NoDup ((λ x : Candidate, x.1.1) <$> l).
Proof.
  induction cs as [|c cs IH] using rev_ind.
  { cbn. split_and!; [by intros x ?%not_elem_of_nil|by intros c ?%not_elem_of_nil|constructor]. }
  rewrite foldl_snoc. cbn zeta in *. set (l := foldl _ [] cs) in *. destruct IH as (H1 & H2 & H3).
  setoid_rewrite elem_of_app. setoid_rewrite list_elem_of_singleton. unfold add_candidate.
  destruct (same_leaf tb c) eqn:Hs; cbn [negb orb].
  2: { split_and!; [naive_solver| |done]. intros c' [Hc'| ->] Hl; [by apply H2|by rewrite Hs in Hl]. }
  destruct (existsb (λ x, bool_decide (x.1.1 = target_qualified (e_vals c))) l) eqn:He.
  - apply existsb_exists in He as (x & Hx%list_elem_of_In & Heq%bool_decide_eq_true).
    split_and!; [naive_solver| |done]. intros c' [Hc'| ->] Hl; [by apply H2|by exists x].
  - split_and!.
    + intros x [Hx| ->%list_elem_of_singleton]%elem_of_app; [naive_solver|by exists c; split; [right|]].
    + intros c' [Hc'| ->] Hl; setoid_rewrite elem_of_app; [naive_solver|]. exists (candidate_of c).
      split; [right; by apply list_elem_of_singleton|done].
    + rewrite fmap_app. apply NoDup_app. split; [done|]. split; [|apply NoDup_singleton].
      intros t (x & -> & Hx)%list_elem_of_fmap Ht. apply list_elem_of_singleton in Ht. apply not_true_iff_false in He. apply He.
      apply existsb_exists. exists x. split; [by apply list_elem_of_In|]. by apply bool_decide_eq_true.
Qed.

(** What a stale edge is settled to: the one target of the calls it could stand
    for. *)
Definition settles (s : Graph) (tb : EdgeRow) : option Candidate :=
  match candidates (group_of s tb) with [x] => Some x | _ => None end.

Lemma settles_Some (s : Graph) tb x :
  settles s tb = Some x →
  (∃ c, could_be s tb c ∧ x = candidate_of c) ∧ ∀ c, could_be s tb c → target_qualified (e_vals c) = x.1.1.
Proof using Type unordered_perm.
  unfold settles, group_of. cbn [candidates]. destruct (add_candidates_spec tb (resolved_calls s tb)) as (H1 & H2 & _).
  destruct (foldl _ [] _) as [|y [|z l]]; [done| |done]. intros [= ->].
  assert (Hcalls : ∀ c, c ∈ resolved_calls s tb ↔
    c ∈ edges s ∧ on_line tb c = true ∧ bare (target_qualified (e_vals c)) = false).
  { intros c. unfold resolved_calls. rewrite unordered_perm, list_elem_of_filter, andb_true_iff, negb_true_iff. tauto. }
  unfold could_be. split.
  - destruct (H1 x) as (c & Hc%Hcalls & Hs & ->); [left|]. exists c. naive_solver.
  - intros c (Hc & Ho & Hb & Hs). destruct (H2 c) as (y & ->%list_elem_of_singleton & Hy); [by apply Hcalls|done|done].
Qed.

Lemma settles_None (s : Graph) tb c :
  settles s tb = None → could_be s tb c → ∃ c', could_be s tb c' ∧ target_qualified (e_vals c') ≠ target_qualified (e_vals c).
Proof using Type unordered_perm.
  unfold settles, group_of. cbn [candidates]. destruct (add_candidates_spec tb (resolved_calls s tb)) as (H1 & H2 & H3).
  assert (Hcalls : ∀ c, c ∈ resolved_calls s tb ↔
    c ∈ edges s ∧ on_line tb c = true ∧ bare (target_qualified (e_vals c)) = false).
  { intros c'. unfold resolved_calls. rewrite unordered_perm, list_elem_of_filter, andb_true_iff, negb_true_iff. tauto. }
  intros Hn (Hc & Ho & Hb & Hs). destruct (foldl _ [] _) as [|y [|z l]]; [|done|].
  - destruct (H2 c) as (y & ?%not_elem_of_nil & _); [by apply Hcalls|done|done].
  - rewrite !fmap_cons in H3. apply NoDup_cons in H3 as [Hyz _].
    assert (Hne : y.1.1 ≠ z.1.1) by (intros Heq; apply Hyz; rewrite Heq; left).
    destruct (H1 y) as (cy & (? & ? & ?)%Hcalls & ? & ->); [left|].
    destruct (H1 z) as (cz & (? & ? & ?)%Hcalls & ? & ->); [right; left|]. cbn in Hne.
    destruct (decide (target_qualified (e_vals cy) = target_qualified (e_vals c))) as [Hy|Hy].
    + exists cz. split; [done|]. by rewrite <-Hy.
    + by exists cy.
Qed.

(** *** Settling the edges *)

Definition settled_key (tb : EdgeRow) (x : Candidate) : string * string * string * Z :=
  (x.1.1, target_qualified (e_vals tb), e_file_path (e_vals tb), e_line (e_vals tb)).

Definition settled (tb : EdgeRow) (x : Candidate) : EdgeRow := mkEdgeRow (edge_id tb) (with_source x (e_vals tb)).

Lemma split_row (l : list EdgeRow) tb :
  NoDup (edge_id <$> l) → tb ∈ l →
  ∃ l1 l2, l = l1 ++ tb :: l2 ∧ (∀ e, e ∈ l1 ++ l2 → edge_id e ≠ edge_id tb).
Proof.
  intros Hnd (l1 & l2 & ->)%list_elem_of_split. exists l1, l2. split; [done|]. intros e He Heq.
  rewrite fmap_app, fmap_cons, <-Permutation_middle, <-fmap_app in Hnd. apply NoDup_cons in Hnd as [Hn _].
  apply Hn. rewrite <-Heq. by apply list_elem_of_fmap_2.
Qed.

Lemma update_split (s : Graph) l1 tb l2 f :
  edges s = l1 ++ tb :: l2 → (∀ e, e ∈ l1 ++ l2 → edge_id e ≠ edge_id tb) →
  edges (update_edge (edge_id tb) f s) = l1 ++ mkEdgeRow (edge_id tb) (f (e_vals tb)) :: l2.
Proof.
  intros He Hne. unfold update_edge. cbn [edges set_edges]. rewrite He, fmap_app, fmap_cons, bool_decide_eq_true_2 by done.
  assert (Hid : ∀ l : list EdgeRow, (∀ e, e ∈ l → e ∈ l1 ++ l2) →
    (λ e, if bool_decide (edge_id e = edge_id tb) then mkEdgeRow (edge_id tb) (f (e_vals e)) else e) <$> l = l).
  { intros l Hl. rewrite <-(list_fmap_id l) at 2. apply list_fmap_ext. intros i e Hi%list_elem_of_lookup_2.
    by rewrite bool_decide_eq_false_2 by by apply Hne, Hl. }
  rewrite !Hid; [done|intros e ?; apply elem_of_app; by right|intros e ?; apply elem_of_app; by left].
Qed.

Lemma delete_split (l1 : list EdgeRow) tb l2 :
  (∀ e, e ∈ l1 ++ l2 → edge_id e ≠ edge_id tb) → filter (λ e, edge_id e ≠ edge_id tb) (l1 ++ tb :: l2) = l1 ++ l2.
Proof.
  intros Hne. rewrite filter_app, filter_cons, decide_False by tauto. rewrite <-filter_app. by apply filter_all.
Qed.

(** One edge settled. *)
Record settled_step (s s1 : Graph) (tb : EdgeRow) (x : Candidate) : Prop := {
  ss_nodes : nodes s1 = nodes s;
  ss_edges : ∃ l1 l2, edges s = l1 ++ tb :: l2 ∧ (∀ e, e ∈ l1 ++ l2 → edge_id e ≠ edge_id tb) ∧
             (edges s1 = l1 ++ l2 ∨ edges s1 = l1 ++ settled tb x :: l2);
  ss_key : has_tested_by (settled_key tb x) s1 = true;
  ss_keys : NoDup (tested_keys s) → NoDup (tested_keys s1)
}.

Lemma tested_keys_split (s : Graph) l1 e l2 :
  edges s = l1 ++ e :: l2 → is_tested_by e = true →
  tested_keys s ≡ₚ tested_key (e_vals e) :: ((λ e, tested_key (e_vals e)) <$> filter (λ e, is_tested_by e = true) (l1 ++ l2)).
Proof.
  intros He Ht. unfold tested_keys. rewrite He, <-Permutation_middle, filter_cons, decide_True by done. done.
Qed.

Lemma settle_group_spec (s0 s : Graph) n tb x :
  NoDup (edge_id <$> edges s) → tb ∈ edges s → is_tested_by tb = true → bare (source_qualified (e_vals tb)) = true →
  bare x.1.1 = false → settles s0 tb = Some x →
  ∃ s1, settle_group (s, n) (group_of s0 tb) = (s1, S n) ∧ settled_step s s1 tb x.
Proof.
  intros Hnd Htb Ht Hbare Hx Hs. unfold settles in Hs. unfold settle_group.
  destruct (candidates (group_of s0 tb)) as [|y [|z l]]; [done| |done]. injection Hs as ->.
  destruct (split_row (edges s) tb Hnd Htb) as (l1 & l2 & He & Hne). cbn [fst snd group_test group_file group_line group_id group_of].
  fold (settled_key tb x). destruct (has_tested_by (settled_key tb x) s) eqn:Hh; eexists; (split; [reflexivity|]).
  - set (s1 := set_edges _ _ s). assert (He1 : edges s1 = l1 ++ l2) by (unfold s1; cbn [edges set_edges]; rewrite He; by apply delete_split).
    assert (Hk : tested_keys s ≡ₚ tested_key (e_vals tb) :: tested_keys s1).
    { rewrite (tested_keys_split s l1 tb l2 He Ht). unfold tested_keys. by rewrite He1. }
    split; [done|by exists l1, l2; split_and!; [| |left]| |].
    + apply has_tested_by_spec. apply has_tested_by_spec in Hh. rewrite Hk in Hh. apply elem_of_cons in Hh as [Heq|]; [|done].
      unfold settled_key, tested_key in Heq. injection Heq as Heq. by rewrite Heq, Hbare in Hx.
    + rewrite Hk. by intros [_ ?]%NoDup_cons.
  - set (s1 := update_edge _ _ s). assert (He1 : edges s1 = l1 ++ settled tb x :: l2) by by apply update_split.
    assert (Ht1 : is_tested_by (settled tb x) = true) by exact Ht.
    pose proof (tested_keys_split s l1 tb l2 He Ht) as Hk. pose proof (tested_keys_split s1 l1 _ l2 He1 Ht1) as Hk1.
    change (tested_key (e_vals (settled tb x))) with (settled_key tb x) in Hk1.
    split; [done|by exists l1, l2; split_and!; [| |right]| |].
    + apply has_tested_by_spec. rewrite Hk1. left.
    + rewrite Hk, Hk1. intros [_ Hnd']%NoDup_cons. apply NoDup_cons. split; [|done]. intros Hin.
      assert (Hin' : settled_key tb x ∈ tested_keys s) by (rewrite Hk; by right).
      apply has_tested_by_spec in Hin'. by rewrite Hin' in Hh.
Qed.

Lemma omap_keep (f : EdgeRow → option EdgeRow) (l : list EdgeRow) : (∀ e, e ∈ l → f e = Some e) → omap f l = l.
Proof.
  induction l as [|e l IH]; intros Hf; [done|]. cbn. rewrite (Hf e) by left. f_equal. apply IH. intros x Hx. apply Hf. by right.
Qed.

Lemma omap_omap {A B C} (f : A → option B) (g : B → option C) (l : list A) : omap g (omap f l) = omap (λ x, f x ≫= g) l.
Proof. induction l as [|x l IH]; [done|]. cbn. destruct (f x) as [y|]; cbn; [|done]. destruct (g y); by rewrite IH. Qed.

Lemma settled_step_fate (s s1 : Graph) tb x :
  settled_step s s1 tb x →
  ∃ fate, edges s1 = omap fate (edges s) ∧ (∀ e, e ∈ edges s → e ≠ tb → fate e = Some e) ∧
    (fate tb = None ∨ fate tb = Some (settled tb x)).
Proof.
  intros [_ (l1 & l2 & He & Hne & He1) _ _].
  assert (Hkeep : ∀ r (l : list EdgeRow), (∀ e, e ∈ l → e ∈ l1 ++ l2) →
    omap (λ e, if bool_decide (edge_id e = edge_id tb) then r else Some e) l = l).
  { intros r l Hl. apply omap_keep. intros e Hin. by rewrite (bool_decide_eq_false_2 _ (Hne e (Hl e Hin))). }
  assert (Hin1 : ∀ e, e ∈ l1 → e ∈ l1 ++ l2) by (intros; apply elem_of_app; by left).
  assert (Hin2 : ∀ e, e ∈ l2 → e ∈ l1 ++ l2) by (intros; apply elem_of_app; by right).
  destruct He1 as [He1|He1]; [set (r := @None EdgeRow)|set (r := Some (settled tb x))];
    exists (λ e, if bool_decide (edge_id e = edge_id tb) then r else Some e);
    (split; [rewrite He, He1, omap_app; cbn; rewrite bool_decide_eq_true_2 by done; cbn; by rewrite !Hkeep|]);
    (split; [|rewrite bool_decide_eq_true_2 by done; by (left + right)]);
    intros e Hin Hn; rewrite He in Hin; rewrite bool_decide_eq_false_2; [done| |done|];
    apply elem_of_app in Hin as [?|[?|?]%elem_of_cons]; try done; by apply Hne, elem_of_app; (left + right).
Qed.

Lemma settled_step_keeps (s s1 : Graph) tb x key :
  settled_step s s1 tb x → bare (source_qualified (e_vals tb)) = true → bare key.1.1.1 = false →
  has_tested_by key s = true → has_tested_by key s1 = true.
Proof.
  intros [_ (l1 & l2 & He & _ & He1) _ _] Hbare Hkey. unfold has_tested_by. rewrite !existsb_exists.
  intros (e & Hin%list_elem_of_In & Hp). exists e. split; [|done]. apply list_elem_of_In.
  apply andb_true_iff in Hp as [_ Hk%bool_decide_eq_true].
  assert (Hne : e ≠ tb) by (intros ->; subst key; cbn in Hkey; by rewrite Hkey in Hbare).
  rewrite He in Hin. apply elem_of_app in Hin as [Hin|[?|Hin]%elem_of_cons]; [|done|];
    destruct He1 as [->| ->]; apply elem_of_app; [by left|by left|by right|right; by right].
Qed.

Lemma settled_step_ids (s s1 : Graph) tb x :
  settled_step s s1 tb x → NoDup (edge_id <$> edges s) → NoDup (edge_id <$> edges s1).
Proof.
  intros [_ (l1 & l2 & He & _ & He1) _ _]. rewrite He.
  rewrite fmap_app, fmap_cons, <-Permutation_middle, <-fmap_app. intros Hnd.
  destruct He1 as [->| ->]; [by apply NoDup_cons in Hnd as [_ ?]|].
  by rewrite fmap_app, fmap_cons, <-Permutation_middle, <-fmap_app.
Qed.

(** All of them settled. *)
Record settled_all (s0 s s' : Graph) (l : list EdgeRow) : Prop := {
  sa_nodes : nodes s' = nodes s;
  sa_edges : ∃ fate, edges s' = omap fate (edges s) ∧
    (∀ e, e ∈ edges s → e ∉ l ∨ settles s0 e = None → fate e = Some e) ∧
    (∀ e x, e ∈ l → settles s0 e = Some x → fate e = None ∨ fate e = Some (settled e x));
  sa_kept : ∀ key, bare key.1.1.1 = false → has_tested_by key s = true → has_tested_by key s' = true;
  sa_settled : ∀ e x, e ∈ l → settles s0 e = Some x → has_tested_by (settled_key e x) s' = true;
  sa_keys : NoDup (tested_keys s) → NoDup (tested_keys s')
}.

Lemma settle_groups_spec (s0 : Graph) l (s : Graph) n :
  NoDup (edge_id <$> edges s) → NoDup (edge_id <$> l) →
  (∀ tb, tb ∈ l → tb ∈ edges s ∧ is_tested_by tb = true ∧ bare (source_qualified (e_vals tb)) = true) →
  ∃ s', foldl settle_group (s, n) (group_of s0 <$> l) = (s', n + length (filter (λ tb, is_Some (settles s0 tb)) l)) ∧
    settled_all s0 s s' l.
Proof using Type unordered_perm.
  revert s n. induction l as [|tb l IH]; intros s n Hnd Hndl Hl.
  { exists s. split; [cbn; by rewrite Nat.add_0_r|]. split; [done| |done|by intros ? ? ?%not_elem_of_nil|done].
    exists Some. split; [by rewrite omap_keep|split; [done|by intros ? ? ?%not_elem_of_nil]]. }
  rewrite fmap_cons in Hndl. apply NoDup_cons in Hndl as [Htbl Hndl]. rewrite fmap_cons. cbn [foldl]. rewrite filter_cons.
  assert (Hntb : ∀ e, e ∈ l → e ≠ tb) by (intros e He ->; apply Htbl; by apply list_elem_of_fmap_2).
  assert (Htail : ∀ e, e ∈ l → e ∈ edges s ∧ is_tested_by e = true ∧ bare (source_qualified (e_vals e)) = true).
  { intros e He. apply Hl. by right. }
  destruct (Hl tb) as (Htb & Ht & Hbare); [left|]. destruct (settles s0 tb) as [x|] eqn:Hs.
  - rewrite decide_True by by eexists.
    assert (Hx : bare x.1.1 = false) by by apply settles_Some in Hs as [(c & (_ & _ & ? & _) & ->) _].
    destruct (settle_group_spec s0 s n tb x Hnd Htb Ht Hbare Hx Hs) as (s1 & Hstep & Hss). rewrite Hstep.
    destruct (settled_step_fate s s1 tb x Hss) as (fate1 & He1 & Hk1 & Hf1).
    destruct (IH s1 (S n) (settled_step_ids s s1 tb x Hss Hnd) Hndl) as (s' & Hfold & Hsa).
    { intros e He. destruct (Htail e He) as (Hin & ? & ?). split; [|done]. rewrite He1. apply list_elem_of_omap.
      exists e. split; [done|]. apply Hk1; [done|by apply Hntb]. }
    exists s'. split; [rewrite Hfold; f_equal; cbn [length]; lia|]. destruct Hsa as [Hn2 (fate2 & He2 & Hk2 & Hf2) Hp2 Hd2 Hq2].
    destruct Hss as [Hn1 Hsplit Hkey1 Hq1].
    split; [by rewrite Hn2| | | |by intros Hq; apply Hq2, Hq1].
    + exists (λ e, fate1 e ≫= fate2). split; [by rewrite He2, He1, omap_omap|]. split.
      * intros e Hin Hor. assert (Hne : e ≠ tb).
        { intros ->. destruct Hor as [Hn|Hn]; [apply Hn; left|by rewrite Hs in Hn]. }
        rewrite (Hk1 e Hin Hne). cbn. apply Hk2.
        { rewrite He1. apply list_elem_of_omap. exists e. split; [done|by apply Hk1]. }
        destruct Hor as [Hn|Hn]; [left; intros ?; apply Hn; by right|by right].
      * intros e y [->|Hin]%elem_of_cons Hy.
        -- rewrite Hs in Hy. injection Hy as <-. destruct Hf1 as [->|Hf1]; [by left|right]. rewrite Hf1. cbn. apply Hk2.
           { rewrite He1. apply list_elem_of_omap. by exists tb. }
           left. intros Hin. apply Htbl. by apply (list_elem_of_fmap_2 edge_id) in Hin.
        -- rewrite (Hk1 e); [|by apply Htail|by apply Hntb]. cbn. by apply Hf2.
    + intros key Hkey Hh. apply Hp2; [done|]. by apply (settled_step_keeps s s1 tb x); [split| | |].
    + intros e y [->|Hin]%elem_of_cons Hy; [|by apply Hd2]. rewrite Hs in Hy. injection Hy as <-. by apply Hp2.
  - rewrite decide_False by by intros [? ?].
    assert (Hnop : settle_group (s, n) (group_of s0 tb) = (s, n)).
    { unfold settle_group. unfold settles in Hs. by destruct (candidates _) as [|? [|? ?]]. }
    rewrite Hnop. destruct (IH s n Hnd Hndl Htail) as (s' & Hfold & [Hn2 (fate & He2 & Hk2 & Hf2) Hp2 Hd2 Hq2]).
    exists s'. split; [done|]. split; [done| |done| |done].
    + exists fate. split; [done|]. split.
      * intros e Hin Hor. apply Hk2; [done|]. destruct Hor as [Hn|Hn]; [left; intros ?; apply Hn; by right|by right].
      * intros e y [->|Hin]%elem_of_cons Hy; [by rewrite Hs in Hy|by apply Hf2].
    + intros e y [->|Hin]%elem_of_cons Hy; [by rewrite Hs in Hy|by apply Hd2].
Qed.

(** C16: Once the calls of tests are bound, each bare [TESTED_BY] edge whose bare
    call is gone follows its call.  When the resolved calls its test makes on its
    line under its name all have one target, that target has a [TESTED_BY] edge
    afterwards: the bare edge itself, with the call's confidence, or another that
    already said so, and then the bare edge is dropped.  When they have
    several or there is none, it stays.  No other edge and no node changes, the
    count is the number of edges settled, and edges that said different things
    still do. *)
Theorem sync_tested_by_spec (s s' : Graph) n :
  NoDup (edge_id <$> edges s) → sync_tested_by_with_calls s = (s', n) →
  ∃ fate target_of, edges s' = omap fate (edges s) ∧ nodes s' = nodes s ∧
    n = length (filter (λ e, is_Some (target_of e)) (edges s)) ∧
    (NoDup (tested_keys s) → NoDup (tested_keys s')) ∧
    ∀ e, e ∈ edges s →
      match target_of e with
      | None => fate e = Some e ∧
          (stale s e = true → ∀ c, could_be s e c → ∃ c', could_be s e c' ∧ target_qualified (e_vals c') ≠ target_qualified (e_vals c))
      | Some x => stale s e = true ∧ (∃ c, could_be s e c ∧ x = candidate_of c) ∧
          (∀ c, could_be s e c → target_qualified (e_vals c) = x.1.1) ∧
          (fate e = None ∨ fate e = Some (settled e x)) ∧ has_tested_by (settled_key e x) s' = true
      end.
Proof using Type unordered_perm.
  intros Hnd. rewrite (sync_groups s Hnd).
  set (stales := filter (λ tb, stale s tb = true) (edges s)). set (l := filter (λ tb, resolved_calls s tb ≠ []) stales).
  assert (Hl : ∀ e, e ∈ l ↔ resolved_calls s e ≠ [] ∧ stale s e = true ∧ e ∈ edges s).
  { intros e. unfold l, stales. by rewrite !list_elem_of_filter. }
  assert (Hndl : NoDup (edge_id <$> l)).
  { eapply sublist_NoDup; [exact Hnd|]. apply fmap_sublist. by etrans; apply sublist_filter. }
  destruct (settle_groups_spec s l s 0 Hnd Hndl) as (s1 & Hfold & [Hnodes (fate & He & Hkeep & Hset) _ Hdone Hkeys]).
  { intros e (_ & Hst & Hin)%Hl. unfold stale in Hst. rewrite !andb_true_iff in Hst. tauto. }
  rewrite Hfold. intros [= <- <-]. set (target_of := λ e, if stale s e then settles s e else None).
  assert (Hnone : ∀ e, settles s e ≠ None → resolved_calls s e ≠ []).
  { intros e Hs Hr. apply Hs. unfold settles, group_of. by rewrite Hr. }
  exists fate, target_of. split; [done|]. split; [done|]. split; [|split; [done|]].
  - cbn [plus]. unfold l, stales. rewrite !list_filter_filter. f_equal. apply filter_ext_elem. intros e _. unfold target_of.
    destruct (stale s e); [|split; [by intros [_ ?]|by intros [? ?]]]. split; [by intros [[? _] _]|].
    intros Hs. split; [|done]. split; [done|]. apply Hnone. by destruct Hs as [? ->].
  - intros e Hin. unfold target_of. destruct (stale s e) eqn:Hst.
    + destruct (settles s e) as [x|] eqn:Hs.
      * assert (Hel : e ∈ l) by (apply Hl; split; [apply Hnone; by rewrite Hs|done]).
        destruct (settles_Some s e x Hs) as [Hc Hall]. split_and!; [done|done|done|by apply Hset|by apply Hdone].
      * split; [apply Hkeep; [done|by right]|]. intros _ c Hc. by apply settles_None.
    + split; [|done]. apply Hkeep; [done|]. left. intros (_ & Hst' & _)%Hl. by rewrite Hst in Hst'.
Qed.

End tested_by.

(** ** The theorems at work *)

#[local] Existing Instance text_json.

Definition test_node (name path : string) : NodeInput :=
  mkNodeInput "Test" name path 1 2 "python" None None None None true "null".

(** A test whose call of [helper] was bound, with the bare edge its parser made,
    and one whose call nothing bound. *)
Definition tested_store : GraphStore (F := unit) :=
  (store_file_batch no_text one "now"
     [mkItem _ _ "a.py" [func "helper" "a.py"] [] "a" 0;
      mkItem _ _ "test_a.py" [test_node "test_helper" "test_a.py"]
        [mkEdgeInput "CALLS" "test_a.py::test_helper" "a.py::helper" "test_a.py" 3 "null";
         mkEdgeInput "TESTED_BY" "helper" "test_a.py::test_helper" "test_a.py" 3 "null";
         mkEdgeInput "CALLS" "test_a.py::test_helper" "print" "test_a.py" 4 "null";
         mkEdgeInput "TESTED_BY" "print" "test_a.py::test_helper" "test_a.py" 4 "null"] "t" 0] (new_store true)).1.

Definition tested_synced : GraphStore (F := unit) := (sync_tested_by_with_calls in_order tested_store).1.

Example tested_sources :
  (source_qualified ∘ e_vals) <$> edges tested_synced =
    ["test_a.py::test_helper"; "a.py::helper"; "test_a.py::test_helper"; "print"] ∧
  (reconcile_tested_by_with_calls (λ _ _, None) one tested_synced).2 = (1, 0).
Proof. split; by vm_compute. Qed.

Lemma sync_tested_by_spec_witness :
  NoDup (edge_id <$> edges tested_store) ∧ sync_tested_by_with_calls in_order tested_store = (tested_synced, 1) ∧
  ∃ fate, edges tested_synced = omap fate (edges tested_store).
Proof.
  assert (Hnd : NoDup (edge_id <$> edges tested_store)) by (apply (bool_decide_unpack _); by vm_compute).
  assert (Hrun : sync_tested_by_with_calls in_order tested_store = (tested_synced, 1)) by by vm_compute.
  split; [exact Hnd|split; [exact Hrun|]].
  destruct (sync_tested_by_spec in_order in_order_perm tested_store tested_synced 1 Hnd Hrun) as (fate & _ & He & _).
  exists fate. exact He.
Defined.

End TestedBy.
