(* ===== verification/Endpoints.v ===== *)
(** * Edges to nothing

    Models crates/dagayn-graph/src/postprocess/endpoints.rs: the demotion of edges
    an end of which is no node. *)
From S2P Require Import Prelude GraphData Sqlite Store EdgePass Impact.
Import GraphData Sqlite Store EdgePass Impact.

Module Endpoints.

#[local] Set Default Proof Using "Type".

(** Source: crates/dagayn-graph/src/postprocess/endpoints.rs 4-11 [NODE_QUALIFIED_EDGE_KINDS]. *)
Definition NODE_QUALIFIED_EDGE_KINDS : list string :=
  ["CALLS"; "INHERITS"; "IMPLEMENTS"; "CONTAINS"; "REFERENCES"; "TESTED_BY"].

Section endpoints.
Context {F : Type} (json_extract : string → string → option Sql).

#[local] Abbreviation Graph := (GraphStore (F := F)).

Definition has_node (s : Graph) (name : string) : bool := existsb (λ r, bool_decide (qualified_name (vals r) = name)) (nodes s).

(** An edge of these kinds whose confidence depends on the graph.

    Source: crates/dagayn-graph/src/postprocess/endpoints.rs 28-31 [demote_unresolved_endpoint_edges]. *)
Definition rated (v : EdgeVals) : bool :=
  bool_decide (e_kind v ∈ NODE_QUALIFIED_EDGE_KINDS)
  && negb (bool_decide (to_ascii_uppercase (confidence_tier v) ∈ ["LOW"; "UNKNOWN"]))
  && negb (equals 1 (json_extract (e_extra v) "external")
           && match json_extract (e_extra v) "confidence_tier" with Some _ => true | None => false end).

(** Source: crates/dagayn-graph/src/postprocess/endpoints.rs 32-41 [demote_unresolved_endpoint_edges]. *)
Definition loose (s : Graph) (v : EdgeVals) : bool :=
  like "<unresolved:%" (target_qualified v) || like "<unresolved:%" (source_qualified v)
  || negb (has_node s (target_qualified v)) || negb (has_node s (source_qualified v)).

(** Source: crates/dagayn-graph/src/postprocess/endpoints.rs 26-27 [demote_unresolved_endpoint_edges]. *)
Definition demoted (v : EdgeVals) : EdgeVals :=
  mkEdgeVals (e_kind v) (source_qualified v) (target_qualified v) (target_name v) (e_file_path v) (e_line v) (e_extra v)
    (f64_min (confidence v) fifth) "LOW" (e_updated_at v).

Definition demotes (s : Graph) (e : EdgeRow) : bool := rated (e_vals e) && loose s (e_vals e).

(** Source: crates/dagayn-graph/src/postprocess/endpoints.rs 19-46 [demote_unresolved_endpoint_edges]. *)
Definition demote_unresolved_endpoint_edges (s : Graph) : Graph * nat :=
  (set_edges ((λ e, if demotes s e then mkEdgeRow (edge_id e) (demoted (e_vals e)) else e) <$> edges s) (edge_seq s) s,
   length (filter (λ e, demotes s e = true) (edges s))).

Lemma demoted_unrated v : rated (demoted v) = false.
Proof. unfold rated. cbn [confidence_tier demoted]. by rewrite andb_false_r. Qed.

(** After the demotion every edge of these kinds that is still rated above low
    has a node at both ends, placeholders excluded, unless it leads into a package
    with evidence of its own.  Exactly the edges that did not are changed, to low
    and at most a fifth; a second demotion changes nothing. *)
Theorem demoted_edges_have_ends (s : Graph) :
  let '(s', n) := demote_unresolved_endpoint_edges s in
  (∀ e, e ∈ edges s' → rated (e_vals e) = true →
     has_node s' (source_qualified (e_vals e)) = true ∧ has_node s' (target_qualified (e_vals e)) = true ∧
     like "<unresolved:%" (source_qualified (e_vals e)) = false ∧ like "<unresolved:%" (target_qualified (e_vals e)) = false) ∧
  (∀ i e, edges s !! i = Some e → demotes s e = false → edges s' !! i = Some e) ∧
  (∀ i e, edges s !! i = Some e → demotes s e = true → edges s' !! i = Some (mkEdgeRow (edge_id e) (demoted (e_vals e)))) ∧
  nodes s' = nodes s ∧ n = length (filter (λ e, demotes s e = true) (edges s)) ∧
  demote_unresolved_endpoint_edges s' = (s', 0).
Proof.
  unfold demote_unresolved_endpoint_edges at 1. set (f := λ e, if demotes s e then mkEdgeRow (edge_id e) (demoted (e_vals e)) else e).
  set (s' := set_edges (f <$> edges s) (edge_seq s) s).
  assert (Hnone : ∀ e, e ∈ edges s' → demotes s' e = false).
  { intros e (x & -> & _)%list_elem_of_fmap. change (demotes s' (f x)) with (demotes s (f x)). unfold f.
    destruct (demotes s x) eqn:Hx; [|done]. unfold demotes. cbn [e_vals]. by rewrite demoted_unrated. }
  split_and!; [| | |done|done|].
  - intros e He Hr. specialize (Hnone e He). unfold demotes, loose in Hnone. rewrite Hr in Hnone. cbn [andb] in Hnone.
    rewrite !orb_false_iff, !negb_false_iff in Hnone. tauto.
  - intros i e Hi Hd. unfold s'. cbn [edges set_edges]. rewrite list_lookup_fmap, Hi. cbn. unfold f. by rewrite Hd.
  - intros i e Hi Hd. unfold s'. cbn [edges set_edges]. rewrite list_lookup_fmap, Hi. cbn. unfold f. by rewrite Hd.
  - unfold demote_unresolved_endpoint_edges. rewrite (filter_nothing _ (edges s')) by (intros e He; by rewrite (Hnone e He)).
    f_equal. apply set_edges_id. intros e He. by rewrite (Hnone e He).
Qed.

End endpoints.

End Endpoints.
