(* ===== verification/CycleTool.v ===== *)
(** * The listing of import cycles

    Models crates/dagayn-tools/src/cycles.rs: the search for the simple cycles of
    the strongly connected groups of a graph of scopes, under limits, and the
    listing made of them.  When the search says it is complete, the listing holds
    every simple cycle of the imports, each once, from its smallest scope. *)
From S2P Require Import Prelude Graphs GraphData Impact CycleCut Scc ArchFindings.
Import Graphs GraphData Impact Scc.

Module CycleTool.

#[local] Set Default Proof Using "Type".

(** ** The search *)

(** Source: crates/dagayn-tools/src/cycles.rs 14 [MAX_CYCLES]. *)
Definition MAX_CYCLES : nat := 200.

(** Source: crates/dagayn-tools/src/cycles.rs 16 [MAX_STEPS]. *)
Definition MAX_STEPS : nat := N.to_nat 500000.

(** How the search of one group's scope ends: the cycles and the steps still
    allowed, or stopped by a limit. *)
Inductive outcome := Finished (cycles : list (list string)) (budget : nat) | Stopped (cycles : list (list string)).

Section search.
Context (max_cycles : nat) (adjacency : graph).

(** The neighbours a path from [start] may go to.  [adjacency[node]] panics where
    there is no such key, which the members of a group are.

    Source: crates/dagayn-tools/src/cycles.rs 226-232 [simple_cycles]. *)
Definition next_scopes (members : list string) (start node : string) : list string :=
  filter (λ other, other ∈ members ∧ String.leb start other = true) (ascending (default ∅ (adjacency !! node))).

(** The loop of one start.  [path] and [work] have their last element first;
    [budget] is [MAX_STEPS - steps], so that the test after the increment is
    [budget = 0] before it.

    Source: crates/dagayn-tools/src/cycles.rs 233-251 [simple_cycles]. *)
Fixpoint search (budget : nat) (members : list string) (start : string) (path : list string) (work : list (list string))
    (cycles : list (list string)) : outcome :=
  match work with
  | [] => Finished cycles budget
  | pending :: rest =>
      match budget with
      | 0 => Stopped cycles
      | S budget =>
          if max_cycles <? length cycles then Stopped cycles
          else
            match pending with
            | [] => search budget members start (tail path) rest cycles
            | child :: pending =>
                if bool_decide (child = start) then search budget members start path (pending :: rest) (cycles ++ [rev path])
                else if bool_decide (child ∈ path) then search budget members start path (pending :: rest) cycles
                else search budget members start (child :: path) (next_scopes members start child :: pending :: rest) cycles
            end
      end
  end.

(** Source: crates/dagayn-tools/src/cycles.rs 222-252 [simple_cycles]. *)
Fixpoint search_starts (budget : nat) (members starts : list string) (cycles : list (list string)) : outcome :=
  match starts with
  | [] => Finished cycles budget
  | start :: starts =>
      match search budget members start [start] [next_scopes members start start] cycles with
      | Stopped cycles => Stopped cycles
      | Finished cycles budget => search_starts budget members starts cycles
      end
  end.

(** Source: crates/dagayn-tools/src/cycles.rs 220-253 [simple_cycles]. *)
Fixpoint search_groups (budget : nat) (groups : list (list string)) (cycles : list (list string)) : outcome :=
  match groups with
  | [] => Finished cycles budget
  | group :: groups =>
      let members := ascending (list_to_set group) in
      match search_starts budget members members cycles with
      | Stopped cycles => Stopped cycles
      | Finished cycles budget => search_groups budget groups cycles
      end
  end.

(** Source: crates/dagayn-tools/src/cycles.rs 214-255 [simple_cycles]. *)
Definition simple_cycles (max_steps : nat) (groups : list (list string)) : list (list string) * bool :=
  match search_groups max_steps groups [] with
  | Finished cycles _ => (cycles, true)
  | Stopped cycles => (cycles, false)
  end.

(** ** What the search finds from one start *)

#[local] Abbreviation edge := (edge adjacency).

Section start.
Context (members : list string) (start : string).

(** The cycles looked for: through larger members only. *)
Definition wanted (c : list string) : Prop :=
  simple_cycle edge c ∧ head c = Some start ∧ ∀ x, x ∈ c → x ∈ members ∧ String.leb start x = true.

Lemma elem_of_next_scopes node x :
  x ∈ next_scopes members start node ↔ edge node x ∧ x ∈ members ∧ String.leb start x = true.
Proof.
  unfold next_scopes, Scc.edge. rewrite list_elem_of_filter, elem_of_ascending.
  destruct (adjacency !! node) as [s|]; cbn; [naive_solver|]. rewrite elem_of_empty. naive_solver.
Qed.

Lemma next_scopes_NoDup node : NoDup (next_scopes members start node).
Proof. unfold next_scopes. apply NoDup_filter, NoDup_ascending. Qed.

(** What holds of the path and the work list: a path from [start], each step
    taken from the neighbours of the one before and no longer among those still
    to take. *)
Fixpoint frames_ok (path : list string) (work : list (list string)) : Prop :=
  match path, work with
  | [], [] => True
  | n :: path, p :: work =>
      NoDup p ∧ (∀ x, x ∈ p → x ∈ next_scopes members start n) ∧ n ∉ path ∧ n ∈ members ∧ String.leb start n = true ∧
      match path, work with
      | [], [] => n = start
      | m :: _, q :: _ => n ∈ next_scopes members start m ∧ n ≠ start ∧ n ∉ q
      | _, _ => False
      end ∧ frames_ok path work
  | _, _ => False
  end.

(** A cycle that follows the path up to some point, and then a neighbour still to
    be taken. *)
Fixpoint ahead (c path : list string) (work : list (list string)) : Prop :=
  match path, work with
  | n :: path', p :: work' => (∃ rest, c = rev path ++ rest ∧ default start (head rest) ∈ p) ∨ ahead c path' work'
  | _, _ => False
  end.

Lemma frames_path path work :
  frames_ok path work → path ≠ [] →
  NoDup path ∧ chain edge (rev path) ∧ head (rev path) = Some start ∧ ∀ x, x ∈ path → x ∈ members ∧ String.leb start x = true.
Proof.
  revert work. induction path as [|n path IH]; intros work; [done|]. destruct work as [|p work]; [done|].
  intros (Hp & Hpn & Hn & Hm & Hle & Hlink & Hf) _. destruct path as [|m path].
  - destruct work; [|done]. subst n. cbn. split_and!; [apply NoDup_singleton|done|done|].
    by intros x ->%list_elem_of_singleton.
  - destruct work as [|q work]; [done|]. destruct Hlink as (Hnm & _ & _).
    destruct (IH _ Hf) as (Hnd & Hc & Hh & Hin); [done|]. split_and!.
    + by constructor.
    + cbn [rev] in *. rewrite <-app_assoc. cbn [app]. apply chain_snoc2. split; [done|]. by apply elem_of_next_scopes in Hnm as [? _].
    + cbn [rev] in *. destruct (rev path) as [|z l]; cbn in *; done.
    + intros x [->|Hx]%elem_of_cons; [done|by apply Hin].
Qed.

Lemma not_behind n path p work z : frames_ok (n :: path) (p :: work) → ¬ ahead (rev (n :: path) ++ z) path work.
Proof.
  revert n p work z. induction path as [|m path IH]; intros n p work z Hf; [by intros []|].
  destruct Hf as (_ & _ & _ & _ & _ & Hlink & Hf). destruct work as [|q work]; [done|]. destruct Hlink as (_ & _ & Hnq).
  assert (Hc : rev (n :: m :: path) ++ z = rev (m :: path) ++ n :: z) by (cbn [rev]; by rewrite <-!app_assoc).
  rewrite Hc. intros [(rest & Heq & Hin)|Hah]; [|by apply (IH m q work (n :: z))].
  apply app_inv_head in Heq. subst rest. cbn in Hin. done.
Qed.

(** The step a wanted cycle takes next. *)
Lemma wanted_next c l n rest :
  wanted c → c = l ++ n :: rest → default start (head rest) ∈ next_scopes members start n.
Proof.
  intros (Hs & Hh & Hin) ->. apply elem_of_next_scopes.
  assert (Hst : start ∈ members ∧ String.leb start start = true).
  { apply Hin. destruct (l ++ n :: rest) as [|x t]; [done|]. injection Hh as ->. left. }
  assert (Hchain : chain edge ((l ++ n :: rest) ++ [start])).
  { destruct (l ++ n :: rest) as [|x t] eqn:E; [done|]. cbn in Hh. injection Hh as ->. apply Hs. }
  rewrite <-app_assoc in Hchain. cbn [app] in Hchain. apply chain_app in Hchain as [_ Hchain].
  destruct rest as [|y rest]; cbn in *; [tauto|]. split; [tauto|]. apply Hin. apply elem_of_app. right. right. left.
Qed.

Lemma closes n path p work :
  frames_ok (n :: path) (p :: work) → edge n start → wanted (rev (n :: path)).
Proof.
  intros Hf He. destruct (frames_path _ _ Hf) as (Hnd & Hc & Hh & Hin); [done|]. split; [|split; [done|]].
  - assert (Hchain : chain edge (rev (n :: path) ++ [start])).
    { cbn [rev]. rewrite <-app_assoc. cbn [app]. by apply chain_snoc2. }
    assert (Hnd' : NoDup (rev (n :: path))) by (by rewrite <-(Permutation_rev (n :: path))).
    unfold simple_cycle. destruct (rev (n :: path)) as [|h t]; [done|]. cbn in Hh. injection Hh as ->. done.
  - intros x Hx. apply Hin. by rewrite <-elem_of_reverse, <-rev_alt in Hx || rewrite Permutation_rev.
Qed.

Lemma ahead_start c path p work :
  frames_ok path ((start :: p) :: work) → wanted c →
  ahead c path ((start :: p) :: work) ↔ c = rev path ∨ ahead c path (p :: work).
Proof.
  intros Hf Hw. destruct path as [|n path]; [done|]. cbn [ahead]. split.
  - intros [(rest & Hc & [Hs|Hin]%elem_of_cons)|Ha]; [|by right; left; exists rest|by right; right].
    left. destruct rest as [|y rest]; [by rewrite app_nil_r in Hc|]. cbn in Hs. subst y. exfalso.
    destruct Hw as (Hsc%simple_cycle_NoDup & _ & _). rewrite Hc in Hsc. apply NoDup_app in Hsc as (_ & Hd & _).
    apply (Hd start); [|left]. destruct (frames_path _ _ Hf) as (_ & _ & Hh & _); [done|].
    destruct (rev (n :: path)) as [|h t]; [done|]. injection Hh as ->. left.
  - intros [->|[(rest & Hc & Hin)|Ha]]; [left; exists []; rewrite app_nil_r; split; [done|left]| |by right].
    left. exists rest. split; [done|by right].
Qed.

Lemma ahead_skip c child path p work :
  child ∈ path → child ≠ start → wanted c → ahead c path ((child :: p) :: work) ↔ ahead c path (p :: work).
Proof.
  intros Hin Hne Hw. destruct path as [|n path]; [by apply not_elem_of_nil in Hin|]. cbn [ahead]. split.
  - intros [(rest & Hc & [Hs|Hr]%elem_of_cons)|Ha]; [|by left; exists rest|by right].
    destruct rest as [|y rest]; cbn in Hs; [congruence|]. subst y. exfalso.
    destruct Hw as (Hsc%simple_cycle_NoDup & _ & _). rewrite Hc in Hsc. apply NoDup_app in Hsc as (_ & Hd & _).
    apply (Hd child); [|left]. by rewrite <-(Permutation_rev (n :: path)).
  - intros [(rest & Hc & Hr)|Ha]; [left; exists rest; split; [done|by right]|by right].
Qed.

Lemma ahead_push c child path p work :
  child ≠ start → wanted c → path ≠ [] →
  ahead c path ((child :: p) :: work) ↔ ahead c (child :: path) (next_scopes members start child :: p :: work).
Proof.
  intros Hne Hw Hp. destruct path as [|n path]; [done|]. clear Hp. cbn [ahead]. split.
  - intros [(rest & Hc & [Hs|Hr]%elem_of_cons)|Ha]; [|by right; left; exists rest|by right; right].
    destruct rest as [|y rest]; cbn in Hs; [congruence|]. subst y. left. exists rest.
    split; [cbn [rev] in *; by rewrite <-(app_assoc (rev path ++ [n]))|]. by apply (wanted_next c (rev (n :: path))).
  - intros [(rest & Hc & _)|[(rest & Hc & Hr)|Ha]]; [left|left; exists rest; split; [done|by right]|by right].
    exists (child :: rest). split; [rewrite Hc; cbn [rev]; by rewrite <-!app_assoc|]. left.
Qed.

(** What a search adds: wanted cycles that were ahead, each once; all of them when
    it finishes. *)
Definition adds (path : list string) (work cycles : list (list string)) (o : outcome) : Prop :=
  let sound new := NoDup new ∧ ∀ c, c ∈ new → wanted c ∧ ahead c path work in
  match o with
  | Finished cycles' _ => ∃ new, cycles' = cycles ++ new ∧ sound new ∧ (∀ c, wanted c → ahead c path work → c ∈ new)
  | Stopped cycles' => ∃ new, cycles' = cycles ++ new ∧ sound new
  end.

Lemma adds_same path work path' work' cycles o :
  (∀ c, wanted c → ahead c path work ↔ ahead c path' work') → adds path' work' cycles o → adds path work cycles o.
Proof.
  intros Hiff. unfold adds.
  assert (Hsound : ∀ new : list (list string), (∀ c, c ∈ new → wanted c ∧ ahead c path' work') → ∀ c, c ∈ new → wanted c ∧ ahead c path work).
  { intros new Hs c Hin. destruct (Hs c Hin) as [Hw Ha]. split; [done|]. by apply Hiff. }
  destruct o as [cycles' b|cycles']; [intros (new & Hc & (Hnd & Hs) & Hall)|intros (new & Hc & Hnd & Hs)]; exists new.
  - split; [done|]. split; [split; [done|by apply Hsound]|]. intros c Hw Ha. apply Hall; [done|]. by apply Hiff.
  - split; [done|]. split; [done|by apply Hsound].
Qed.

Lemma adds_one path work path' work' cycles c0 o :
  wanted c0 → ahead c0 path work → ¬ ahead c0 path' work' →
  (∀ c, wanted c → ahead c path work ↔ c = c0 ∨ ahead c path' work') →
  adds path' work' (cycles ++ [c0]) o → adds path work cycles o.
Proof.
  intros Hw0 Ha0 Hn0 Hiff. unfold adds.
  assert (Hsound : ∀ new : list (list string), NoDup new → (∀ c, c ∈ new → wanted c ∧ ahead c path' work') →
    NoDup (c0 :: new) ∧ ∀ c, c ∈ c0 :: new → wanted c ∧ ahead c path work).
  { intros new Hnd Hs. split.
    - constructor; [|done]. intros Hin. by destruct (Hs c0 Hin).
    - intros c [->|Hin]%elem_of_cons; [done|]. destruct (Hs c Hin) as [Hw Ha]. split; [done|]. apply Hiff; [done|by right]. }
  destruct o as [cycles' b|cycles']; [intros (new & Hc & (Hnd & Hs) & Hall)|intros (new & Hc & Hnd & Hs)];
    exists (c0 :: new); (split; [by rewrite Hc, <-app_assoc|]).
  - split; [by apply Hsound|]. intros c Hw [->|Ha]%Hiff; [left|right; by apply Hall|done].
  - by apply Hsound.
Qed.

Lemma cycle_search_spec budget path work cycles :
  frames_ok path work → adds path work cycles (search budget members start path work cycles).
Proof.
  revert path work cycles. induction budget as [|budget IH]; intros path work cycles Hf; cbn [search].
  { destruct work as [|p work].
    - exists []. rewrite app_nil_r. split; [done|]. split; [split; [constructor|by intros c ?%not_elem_of_nil]|].
      by destruct path.
    - exists []. rewrite app_nil_r. split; [done|]. split; [constructor|by intros c ?%not_elem_of_nil]. }
  destruct work as [|pending work].
  { exists []. rewrite app_nil_r. split; [done|]. split; [split; [constructor|by intros c ?%not_elem_of_nil]|].
    by destruct path. }
  destruct (max_cycles <? length cycles).
  { exists []. rewrite app_nil_r. split; [done|]. split; [constructor|by intros c ?%not_elem_of_nil]. }
  destruct path as [|n path]; [done|]. destruct pending as [|child pending].
  - apply (adds_same _ _ path work); [|apply IH; apply Hf].
    intros c _. cbn [ahead]. split; [|by right]. intros [(rest & _ & ?%not_elem_of_nil)|Ha]; done.
  - pose proof Hf as Hf0. destruct Hf as ([Hcp Hnd]%NoDup_cons & Hpn & Hn & Hm & Hle & Hlink & Hf).
    assert (Hf' : frames_ok (n :: path) (pending :: work)).
    { split_and!; try done. intros x Hx. apply Hpn. by right. }
    assert (Hchild : edge n child ∧ child ∈ members ∧ String.leb start child = true) by (apply elem_of_next_scopes, Hpn; left).
    case_bool_decide as Hst.
    + subst child. assert (Hw : wanted (rev (n :: path))) by (apply (closes n path _ _ Hf0), Hchild).
      apply (adds_one _ _ (n :: path) (pending :: work) cycles (rev (n :: path))); [done| | | |by apply IH].
      * apply ahead_start; [done|done|by left].
      * intros [(rest & Heq & Hin)|Ha].
        -- rewrite <-(app_nil_r (rev (n :: path))) in Heq at 1. apply app_inv_head in Heq. subst rest. done.
        -- apply (not_behind n path pending work [] Hf'). by rewrite app_nil_r.
      * intros c Hwc. by apply ahead_start.
    + case_bool_decide as Hin.
      * apply (adds_same _ _ (n :: path) (pending :: work)); [|by apply IH]. intros c Hw. by apply ahead_skip.
      * apply (adds_same _ _ (child :: n :: path) (next_scopes members start child :: pending :: work)).
        { intros c Hw. by apply ahead_push. }
        apply IH. split; [apply next_scopes_NoDup|]. split; [done|]. split; [done|]. split; [apply Hchild|]. split; [apply Hchild|].
        split; [split; [apply Hpn; left|done]|done].
Qed.

Lemma search_start budget cycles :
  start ∈ members → adds [start] [next_scopes members start start] cycles
    (search budget members start [start] [next_scopes members start start] cycles).
Proof.
  intros Hin. apply cycle_search_spec. cbn. split_and!; try done; [apply next_scopes_NoDup|apply not_elem_of_nil|apply string_leb_refl].
Qed.

Lemma ahead_all c : wanted c → ahead c [start] [next_scopes members start start].
Proof.
  intros Hw. pose proof Hw as (_ & Hh & _). destruct c as [|x rest]; [done|]. injection Hh as ->.
  left. exists rest. split; [done|]. by apply (wanted_next _ [] start rest Hw).
Qed.

End start.

(** *** All starts, all groups *)

(** What a search over several starts adds, for the cycles [P] asks for. *)
Definition gathers (P : list string → Prop) (cycles : list (list string)) (o : outcome) : Prop :=
  let sound new := NoDup new ∧ ∀ c, c ∈ new → P c in
  match o with
  | Finished cycles' _ => ∃ new, cycles' = cycles ++ new ∧ sound new ∧ ∀ c, P c → c ∈ new
  | Stopped cycles' => ∃ new, cycles' = cycles ++ new ∧ sound new
  end.

Lemma gathers_app (P Q R : list string → Prop) cycles budget cycles' o :
  gathers P cycles (Finished cycles' budget) → gathers Q cycles' o →
  (∀ c, R c ↔ P c ∨ Q c) → (∀ c, P c → ¬ Q c) → gathers R cycles o.
Proof.
  intros (new1 & -> & [Hnd1 Hs1] & Hall1) H2 Hr Hd.
  assert (Hsound : ∀ new2 : list (list string), NoDup new2 → (∀ c, c ∈ new2 → Q c) →
    NoDup (new1 ++ new2) ∧ ∀ c, c ∈ new1 ++ new2 → R c).
  { intros new2 Hnd2 Hs2. split.
    - apply NoDup_app. split; [done|split; [|done]]. intros c Hc1 Hc2. by apply (Hd c); [apply Hs1|apply Hs2].
    - intros c [Hc|Hc]%elem_of_app; apply Hr; [left; by apply Hs1|right; by apply Hs2]. }
  destruct o as [cycles2 b|cycles2]; [destruct H2 as (new2 & -> & [Hnd2 Hs2] & Hall2)|destruct H2 as (new2 & -> & Hnd2 & Hs2)];
    exists (new1 ++ new2); (split; [by rewrite app_assoc|]); [|by apply Hsound].
  split; [by apply Hsound|]. intros c [Hc|Hc]%Hr; apply elem_of_app; [left; by apply Hall1|right; by apply Hall2].
Qed.

Lemma gathers_stop (P R : list string → Prop) cycles cycles' :
  gathers P cycles (Stopped cycles') → (∀ c, P c → R c) → gathers R cycles (Stopped cycles').
Proof. intros (new & Hc & Hnd & Hs) Hpr. exists new. split; [done|]. split; [done|]. intros c Hin. by apply Hpr, Hs. Qed.

Lemma gathers_none (P : list string → Prop) cycles budget : (∀ c, ¬ P c) → gathers P cycles (Finished cycles budget).
Proof.
  intros Hp. exists []. rewrite app_nil_r. split; [done|]. split; [split; [constructor|by intros c ?%not_elem_of_nil]|].
  intros c Hc. by apply Hp in Hc.
Qed.

Lemma search_gathers budget members start cycles :
  start ∈ members →
  gathers (wanted members start) cycles (search budget members start [start] [next_scopes members start start] cycles).
Proof.
  intros Hin. pose proof (search_start members start budget cycles Hin) as Ha. unfold adds in Ha. unfold gathers.
  destruct (search _ _ _ _ _ _); [destruct Ha as (new & Hc & [Hnd Hs] & Hall)|destruct Ha as (new & Hc & Hnd & Hs)]; exists new.
  - split; [done|]. split; [split; [done|intros c Hn; by apply Hs]|]. intros c Hw. apply Hall; [done|by apply ahead_all].
  - split; [done|]. split; [done|]. intros c Hn. by apply Hs.
Qed.

Lemma search_starts_gathers members starts budget cycles :
  NoDup starts → (∀ x, x ∈ starts → x ∈ members) →
  gathers (λ c, ∃ start, start ∈ starts ∧ wanted members start c) cycles (search_starts budget members starts cycles).
Proof.
  revert budget cycles. induction starts as [|start starts IH]; intros budget cycles Hnd Hin; cbn [search_starts].
  { apply gathers_none. by intros c (? & ?%not_elem_of_nil & _). }
  apply NoDup_cons in Hnd as [Hn Hnd]. pose proof (search_gathers budget members start cycles (Hin start ltac:(left))) as Hs.
  destruct (search budget members start _ _ cycles) as [cycles' budget'|cycles'].
  - apply (gathers_app _ _ _ _ _ _ _ Hs (IH budget' cycles' Hnd ltac:(intros x Hx; apply Hin; by right))).
    + intros c. setoid_rewrite elem_of_cons. naive_solver.
    + intros c (_ & Hh & _) (x & Hx & (_ & Hhx & _)). rewrite Hh in Hhx. injection Hhx as ->. done.
  - apply (gathers_stop _ _ _ _ Hs). intros c Hc. exists start. by split; [left|].
Qed.

(** The cycles within the groups, each from its smallest scope. *)
Definition within (groups : list (list string)) (c : list string) : Prop :=
  ∃ group start, group ∈ groups ∧ start ∈ group ∧ simple_cycle edge c ∧ head c = Some start ∧
    ∀ x, x ∈ c → x ∈ group ∧ String.leb start x = true.

Lemma search_groups_gathers groups budget cycles :
  NoDup (concat groups) → gathers (within groups) cycles (search_groups budget groups cycles).
Proof.
  revert budget cycles. induction groups as [|group groups IH]; intros budget cycles Hnd; cbn [search_groups].
  { apply gathers_none. by intros c (? & ? & ?%not_elem_of_nil & _). }
  cbn [concat] in Hnd. apply NoDup_app in Hnd as (_ & Hd & Hnd).
  set (members := ascending (list_to_set group)).
  assert (Hm : ∀ x, x ∈ members ↔ x ∈ group) by (intros x; unfold members; by rewrite elem_of_ascending, elem_of_list_to_set).
  pose proof (search_starts_gathers members members budget cycles ltac:(apply NoDup_ascending) ltac:(done)) as Hs.
  assert (Hw : ∀ c, (∃ start, start ∈ members ∧ wanted members start c) ↔ within [group] c).
  { intros c. unfold within, wanted. setoid_rewrite list_elem_of_singleton. setoid_rewrite Hm.
    split; [intros (st & ? & ? & ? & ?); by exists group, st|intros (g & st & -> & ? & ? & ? & ?); by exists st]. }
  destruct (search_starts budget members members cycles) as [cycles' budget'|cycles'].
  - apply (gathers_app _ _ _ _ _ _ _ Hs (IH budget' cycles' Hnd)).
    + intros c. rewrite Hw. unfold within. setoid_rewrite elem_of_cons. setoid_rewrite elem_of_nil. naive_solver.
    + intros c Hc%Hw. destruct Hc as (g1 & st1 & ->%list_elem_of_singleton & Hst & _ & Hh & _).
      intros (g2 & st2 & Hg2 & Hst2 & _ & Hh2 & _). rewrite Hh in Hh2. injection Hh2 as <-. apply (Hd st1 Hst).
      apply elem_of_concat. by exists g2.
  - apply (gathers_stop _ _ _ _ Hs). intros c (g & st & ->%list_elem_of_singleton & Hc)%Hw. exists group, st. by split; [left|].
Qed.

(** *** Limits *)

Definition found (o : outcome) : list (list string) := match o with Finished cycles _ | Stopped cycles => cycles end.

Lemma search_length budget members start path work cycles :
  length cycles ≤ S max_cycles → length (found (search budget members start path work cycles)) ≤ S max_cycles.
Proof.
  revert path work cycles. induction budget as [|budget IH]; intros path [|pending work] cycles Hl; cbn [search]; [done..|].
  destruct (max_cycles <? length cycles) eqn:Hc; [done|]. apply Nat.ltb_ge in Hc. destruct pending as [|child pending]; [by apply IH|].
  case_bool_decide; [|case_bool_decide; by apply IH]. apply IH. rewrite length_app. cbn. lia.
Qed.

Lemma search_starts_length budget members starts cycles :
  length cycles ≤ S max_cycles → length (found (search_starts budget members starts cycles)) ≤ S max_cycles.
Proof.
  revert budget cycles. induction starts as [|start starts IH]; intros budget cycles Hl; cbn [search_starts]; [done|].
  pose proof (search_length budget members start [start] [next_scopes members start start] cycles Hl) as Hs.
  destruct (search _ _ _ _ _ _); cbn in *; [by apply IH|done].
Qed.

Lemma search_groups_length budget groups cycles :
  length cycles ≤ S max_cycles → length (found (search_groups budget groups cycles)) ≤ S max_cycles.
Proof.
  revert budget cycles. induction groups as [|group groups IH]; intros budget cycles Hl; cbn [search_groups]; [done|].
  pose proof (search_starts_length budget (ascending (list_to_set group)) (ascending (list_to_set group)) cycles Hl) as Hs.
  destruct (search_starts _ _ _ _); cbn in *; [by apply IH|done].
Qed.

(** *** Cycles and components *)

(** A simple cycle lies in one component. *)
Lemma cycle_connected c x y : simple_cycle edge c → x ∈ c → y ∈ c → rtc edge x y.
Proof.
  intros Hc Hx Hy. destruct (rotation_to c x Hx) as (t & Hr). pose proof (rotation_simple_cycle edge _ _ Hr Hc) as [_ Hch].
  assert (Hy' : y ∈ (x :: t)) by (by rewrite <-(rotation_Permutation _ _ Hr)).
  apply list_elem_of_split in Hy' as (l1 & l2 & Heq). rewrite Heq, <-app_assoc in Hch. clear Hr Hx Hy Hc.
  assert (Hgen : ∀ l1 z, chain edge (z :: l1 ++ [y]) → rtc edge z y).
  { clear. induction l1 as [|w l1 IH]; intros z [He Hc]; [by eapply rtc_l|]. eapply rtc_l; [done|]. by apply IH. }
  destruct l1 as [|z l1]; [injection Heq as -> _; constructor|]. injection Heq as -> _. apply (Hgen l1 z).
  cbn [app] in Hch. apply (chain_app edge (z :: l1) y (l2 ++ [z])) in Hch as [Hch _]. done.
Qed.

(** The groups of more than one scope. *)
Definition groups_of (cs : list (list string)) : list (list string) := filter (λ group, 1 < length group) cs.

Lemma groups_NoDup cs : NoDup (concat cs) → NoDup (concat (groups_of cs)).
Proof.
  induction cs as [|c cs IH]; [done|]. cbn [concat]. intros (Hc & Hd & Hcs)%NoDup_app. unfold groups_of. rewrite filter_cons.
  destruct (decide _); [|by apply IH]. cbn [concat]. apply NoDup_app. split; [done|split; [|by apply IH]].
  intros x Hx (g & Hxg & Hg)%elem_of_concat. apply (Hd x Hx). apply elem_of_concat. exists g. split; [done|].
  by apply list_elem_of_filter in Hg as [_ Hg].
Qed.

(** *** The whole search *)

(** A cycle read from its smallest scope. *)
Definition smallest_first (c : list string) : Prop :=
  ∃ start, head c = Some start ∧ ∀ x, x ∈ c → String.leb start x = true.

Context (Hclosed : closed_graph adjacency) (Hloops : ∀ x, ¬ edge x x).
Context (cs : list (list string)) (Hcs : components_of adjacency cs).

(** Where no scope leads to itself, the cycles within the groups of more than one
    scope are all there are. *)
Lemma within_groups c : within (groups_of cs) c ↔ simple_cycle edge c ∧ smallest_first c.
Proof using Type*.
  destruct Hcs as (Hnd & Hall & Hsame & _). unfold within, smallest_first. split.
  - intros (g & st & _ & _ & Hc & Hh & Hx). split; [done|]. exists st. split; [done|]. intros x Hin. by apply Hx.
  - intros [Hc (st & Hh & Hle)]. assert (Hst : st ∈ c) by (destruct c; [done|injection Hh as ->; left]).
    assert (Hd : ∀ x, x ∈ c → x ∈ dom adjacency).
    { intros x Hx. destruct (simple_cycle_step _ _ _ Hc Hx) as (y & _ & s & Hs & _). by apply elem_of_dom_2 in Hs. }
    assert (Hboth : ∀ x, x ∈ c → ∃ g, g ∈ cs ∧ st ∈ g ∧ x ∈ g).
    { intros x Hx. apply Hsame; [by apply Hd..|]. split; by apply (cycle_connected c). }
    destruct (Hboth st Hst) as (g & Hg & Hstg & _).
    assert (Hin : ∀ x, x ∈ c → x ∈ g).
    { intros x Hx. destruct (Hboth x Hx) as (g' & Hg' & Hst' & Hx').
      by rewrite (ArchFindings.component_unique cs g g' st Hnd Hg Hg' Hstg Hst'). }
    exists g, st. split_and!; [|done|done|done|intros x Hx; split; [by apply Hin|by apply Hle]].
    apply list_elem_of_filter. split; [|done].
    destruct (simple_cycle_step _ _ _ Hc Hst) as (y & Hy & He). apply Hin in Hy.
    destruct g as [|u [|v g]]; [by apply not_elem_of_nil in Hstg| |cbn; lia].
    apply list_elem_of_singleton in Hstg, Hy. subst u y. by apply Hloops in He.
Qed.

(** What the search says of the components of a graph without loops. *)
Lemma simple_cycles_ok max_steps :
  let '(cycles, complete) := simple_cycles max_steps (groups_of cs) in
  NoDup cycles ∧ length cycles ≤ S max_cycles ∧ (∀ c, c ∈ cycles → simple_cycle edge c ∧ smallest_first c) ∧
  (complete = true → ∀ c, simple_cycle edge c → smallest_first c → c ∈ cycles).
Proof using Type*.
  pose proof (search_groups_gathers (groups_of cs) max_steps [] (groups_NoDup cs (proj1 Hcs))) as Hg.
  pose proof (search_groups_length max_steps (groups_of cs) [] ltac:(cbn; lia)) as Hl. unfold simple_cycles, gathers in *.
  assert (Hsound : ∀ new : list (list string), (∀ c, c ∈ new → within (groups_of cs) c) → ∀ c, c ∈ new → simple_cycle edge c ∧ smallest_first c).
  { intros new Hs c Hin. by apply within_groups, Hs. }
  destruct (search_groups _ _ _) as [cycles b|cycles]; cbn [found] in Hl.
  - destruct Hg as (new & -> & [Hnd Hs] & Hall). split_and!; [done..|by apply Hsound|].
    intros _ c Hc Hf. by apply Hall, within_groups.
  - destruct Hg as (new & -> & Hnd & Hs). split_and!; [done..|by apply Hsound|done].
Qed.

End search.

End CycleTool.
