(* ===== verification/Scopes.v ===== *)
(** * Scopes and the dependencies between them

    Models crates/dagayn-tools/src/architecture.rs: how a file maps to a scope,
    which scope a name stands for, the dependencies between scopes, the graph the
    stability measures are read from, and the counts of the abstractness measures.
    Ratios and their rounding are left out.  Both ways the code counts the
    dependencies of a scope give the same numbers. *)
From S2P Require Import Prelude GraphData Impact Visibility.
Import GraphData Impact Visibility.

Module Scopes.

#[local] Set Default Proof Using "Type".

(** ** Paths *)

(** [str::to_lowercase], as far as ASCII goes.  The one character beyond ASCII
    with an ASCII lower case is the Kelvin sign; the others stay as they are, and
    no lower case of theirs is a text of ASCII letters, which is what the result is
    compared with. *)
Fixpoint lowercase (s : string) : string :=
  match s with
  | EmptyString => EmptyString
  | String a s' =>
      let lowered := String (Ascii.ascii_of_N (to_ascii_lowercase (Ascii.N_of_ascii a))) (lowercase s') in
      match s' with
      | String b (String c rest) =>
          if bool_decide (Ascii.N_of_ascii a = 226%N ∧ Ascii.N_of_ascii b = 132%N ∧ Ascii.N_of_ascii c = 170%N)
          then String (Ascii.ascii_of_N 107) (lowercase rest) else lowered
      | _ => lowered
      end
  end.

(** Source: crates/dagayn-tools/src/architecture.rs 12 [DOC_SUFFIXES]. *)
Definition DOC_SUFFIXES : list string := [".md"; ".markdown"; ".mdown"; ".mkdn"].

(** Source: crates/dagayn-tools/src/architecture.rs 109-116 [posix_parts]. *)
Definition posix_parts (path : string) : bool * list string :=
  (starts_with "/" path, filter (λ part, part ≠ "" ∧ part ≠ ".") (split_slash path)).

(** Source: crates/dagayn-tools/src/architecture.rs 119-124 [suffix]. *)
Definition suffix (name : string) : string :=
  match rsplit_once dot name with
  | Some (before, after) => if bool_decide (before ≠ "" ∧ after ≠ "") then String dot after else ""
  | None => ""
  end.

(** Source: crates/dagayn-tools/src/architecture.rs 126-128 [file_name]. *)
Definition file_name (path : string) : string := default "" (last (posix_parts path).2).

(** Source: crates/dagayn-tools/src/architecture.rs 131-139 [file_to_package]. *)
Definition file_to_package (file_path : string) : string :=
  let '(absolute, parts) := posix_parts file_path in
  let parent := take (length parts - 1) parts in
  if (absolute : bool) then "/" +:+ join_slash parent
  else if bool_decide (parent = []) then "<root>" else join_slash parent.

(** Source: crates/dagayn-tools/src/architecture.rs 16-20 [Artifact]. *)
Inductive Artifact := Code | Docs | All.

(** Source: crates/dagayn-tools/src/architecture.rs 23-30 [Artifact::parse]. *)
Definition parse_artifact (text : string) : option Artifact :=
  if bool_decide (text = "code") then Some Code
  else if bool_decide (text = "docs") then Some Docs
  else if bool_decide (text = "all") then Some All
  else None.

(** Source: crates/dagayn-tools/src/architecture.rs 53-60 [View]. *)
Record View := mkView {
  file_scopes : bool;
  artifact : Artifact;
  units : option (gmap string string)
}.

(** Source: crates/dagayn-tools/src/architecture.rs 64-70 [View::review]. *)
Definition review : View := mkView false Code None.

(** Source: crates/dagayn-tools/src/architecture.rs 73-81 [View::scope_of]. *)
Definition scope_of (view : View) (file_path : string) : string :=
  if file_scopes view then file_path
  else match units ← units view; units !! file_path with
       | Some unit => unit
       | None => file_to_package file_path
       end.

(** ** Counting by key *)

(** A row of counts in first-seen order: one more for a key. *)
Fixpoint bump {K} `{EqDecision K} (k : K) (row : list (K * nat)) : list (K * nat) :=
  match row with
  | [] => [(k, 1)]
  | (k', n) :: row => if bool_decide (k' = k) then (k', S n) :: row else (k', n) :: bump k row
  end.

Section scopes.
Context `{Json}.

(** Source: crates/dagayn-tools/src/architecture.rs 147-150 [is_documentation_node]. *)
Definition is_documentation_node (node : GraphNode) : bool :=
  bool_decide (lowercase (n_language node) = "markdown")
  || bool_decide (lowercase (suffix (file_name (n_file_path node))) ∈ DOC_SUFFIXES).

(** Source: crates/dagayn-tools/src/architecture.rs 33-39 [Artifact::includes]. *)
Definition includes (a : Artifact) (node : GraphNode) : bool :=
  match a with
  | All => true
  | Docs => is_documentation_node node
  | Code => negb (is_documentation_node node)
  end.

(** Source: crates/dagayn-tools/src/architecture.rs 43-48 [is_dependency]. *)
Definition is_dependency (e : GraphEdge) : bool :=
  bool_decide (g_kind e ∈ ["IMPORTS_FROM"; "DEPENDS_ON"; "INHERITS"; "IMPLEMENTS"]).

(** ** Which scope a name stands for *)

(** Source: crates/dagayn-tools/src/architecture.rs 160-162 [ScopesByName]. *)
Abbreviation ScopesByName := (gmap string (list (option string * string))) (only parsing).

(** Source: crates/dagayn-tools/src/architecture.rs 165-171 [ScopesByName::insert]. *)
Definition insert_name (names : ScopesByName) (name file_path scope : string) : ScopesByName :=
  let entry := (language_family file_path, scope) in
  let scopes := default [] (names !! name) in
  <[name := if bool_decide (entry ∈ scopes) then scopes else scopes ++ [entry]]> names.

(** Source: crates/dagayn-tools/src/architecture.rs 175-186 [ScopesByName::get]. *)
Definition get_name (names : ScopesByName) (name source_file : string) : option string :=
  entries ← names !! name;
  '(_, first) ← head entries;
  if existsb (λ entry, negb (bool_decide (entry.2 = first))) entries then None
  else
    let family := language_family source_file in
    if existsb (λ entry, same_language_family family entry.1) entries then Some first else None.

(** Source: crates/dagayn-tools/src/architecture.rs 193-199 [ScopesByName::edge_target]. *)
Definition edge_target (names : ScopesByName) (e : GraphEdge) : option string :=
  if negb (bool_decide (g_kind e = "IMPORTS_FROM"))
     && negb (bool_decide (get_bool (g_extra e) "external" = Some true))
  then get_name names (g_target_qualified e) (g_file_path e) else None.

Section snapshot.
Context (all_nodes : list GraphNode) (edges : list GraphEdge) (view : View).

(** Source: crates/dagayn-tools/src/architecture.rs 225-232 [Snapshot::scope_maps]. *)
Definition add_node_scope (maps : gmap string string * ScopesByName) (node : GraphNode) : gmap string string * ScopesByName :=
  if negb (includes (artifact view) node) || bool_decide (n_file_path node = "") then maps
  else
    let scope := scope_of view (n_file_path node) in
    (<[n_qualified_name node := scope]> maps.1, insert_name maps.2 (n_name node) (n_file_path node) scope).

(** Source: crates/dagayn-tools/src/architecture.rs 222-234 [Snapshot::scope_maps]. *)
Definition scope_maps : gmap string string * ScopesByName := foldl add_node_scope (∅, ∅) all_nodes.

(** Source: crates/dagayn-tools/src/architecture.rs 248-262 [Snapshot::dependency_edges]. *)
Definition dependency_edge (maps : gmap string string * ScopesByName) (e : GraphEdge) : option (string * string * GraphEdge) :=
  if negb (is_dependency e) then None
  else
    source ← maps.1 !! g_source_qualified e;
    target ← match maps.1 !! g_target_qualified e with Some t => Some t | None => edge_target maps.2 e end;
    if bool_decide (target = source) then None else Some (source, target, e).

(** Source: crates/dagayn-tools/src/architecture.rs 245-264 [Snapshot::dependency_edges]. *)
Definition dependency_edges : list (string * string * GraphEdge) := omap (dependency_edge scope_maps) edges.

(** Source: crates/dagayn-tools/src/architecture.rs 237-242 [Snapshot::dependencies]. *)
Definition dependencies : list (string * string) := fst <$> dependency_edges.

End snapshot.

(** ** The graph of scopes *)

(** Source: crates/dagayn-tools/src/architecture.rs 268-274 [ScopeGraph]. *)
Record ScopeGraph := mkScopeGraph {
  nodes : list string;
  index : gmap string nat;
  successors : list (list (nat * nat));
  predecessors : list (gset nat)
}.

Definition empty_graph : ScopeGraph := mkScopeGraph [] ∅ [] [].

(** Source: crates/dagayn-tools/src/architecture.rs 299-309 [ScopeGraph::add_node]. *)
Definition add_node (g : ScopeGraph) (name : string) : ScopeGraph * nat :=
  match index g !! name with
  | Some i => (g, i)
  | None =>
      let i := length (nodes g) in
      (mkScopeGraph (nodes g ++ [name]) (<[name := i]> (index g)) (successors g ++ [[]]) (predecessors g ++ [∅]), i)
  end.

(** Source: crates/dagayn-tools/src/architecture.rs 286-294 [ScopeGraph::new]. *)
Definition add_dependency (g : ScopeGraph) (d : string * string) : ScopeGraph :=
  let '(g, from) := add_node g d.1 in
  let '(g, to) := add_node g d.2 in
  let row := default [] (successors g !! from) in
  mkScopeGraph (nodes g) (index g) (<[from := bump to row]> (successors g))
    (if bool_decide (to ∈ row.*1) then predecessors g
     else alter (λ s, {[from]} ∪ s) to (predecessors g)).

(** Source: crates/dagayn-tools/src/architecture.rs 278-297 [ScopeGraph::new]. *)
Definition new_graph (dependencies : list (string * string)) : ScopeGraph := foldl add_dependency empty_graph dependencies.

(** The scope's Ca and Ce, the integers of a row of [sdp_metrics].

    Source: crates/dagayn-tools/src/architecture.rs 311-313 [ScopeGraph::instability]. *)
Definition ca_ce (g : ScopeGraph) (node : nat) : nat * nat :=
  (size (default ∅ (predecessors g !! node)), length (default [] (successors g !! node))).

(** ** The counts of the abstractness measures *)

(** [extra.get(key).is_some_and(truthy)], of JSON that is not modelled. *)
Context (flag : Value → string → bool).

(** Source: crates/dagayn-tools/src/architecture.rs 401-413 [sap_metrics]. *)
Definition TYPE_ROLES : list string :=
  ["class"; "abstract_class"; "interface"; "protocol"; "trait"; "abstract_type"; "mixin"; "struct"; "enum"; "record";
   "typed_dict"; "union"; "error_set"].

(** Source: crates/dagayn-tools/src/architecture.rs 419-422 [sap_metrics]. *)
Definition ABSTRACT_ROLES : list string := ["abstract_class"; "interface"; "protocol"; "trait"; "abstract_type"].

Definition count_up (m : gmap string nat) (k : string) : gmap string nat := <[k := S (default 0 (m !! k))]> m.

Definition role (node : GraphNode) : string := default "class" (get_str (n_extra node) "type_role").

(** A node counted among the types of its scope.

    Source: crates/dagayn-tools/src/architecture.rs 393-414 [sap_metrics]. *)
Definition eligible (node : GraphNode) : bool :=
  bool_decide (n_kind node = "Class") && bool_decide (n_parent_name node = None) && bool_decide (role node ∈ TYPE_ROLES).

(** Source: crates/dagayn-tools/src/architecture.rs 416-423 [sap_metrics]. *)
Definition is_abstract (node : GraphNode) : bool :=
  flag (n_extra node) "is_abstract" || flag (n_extra node) "is_contract" || bool_decide (role node ∈ ABSTRACT_ROLES).

(** The maps [na], [nt] and [members].

    Source: crates/dagayn-tools/src/architecture.rs 388-428 [sap_metrics]. *)
Definition count_node (qualified : gmap string string) (counts : gmap string nat * gmap string nat * gmap string nat)
    (node : GraphNode) : gmap string nat * gmap string nat * gmap string nat :=
  let '(na, nt, members) := counts in
  match qualified !! n_qualified_name node with
  | None => counts
  | Some scope =>
      let members := count_up members scope in
      if eligible node
      then (if is_abstract node then count_up na scope else na, count_up nt scope, members)
      else (na, nt, members)
  end.

(** The sources in first-seen order, their rows, and the scopes.

    Source: crates/dagayn-tools/src/architecture.rs 433-457 [sap_metrics]. *)
Definition count_edge (maps : gmap string string * ScopesByName)
    (st : list string * gmap string (list (string * nat)) * gset string) (e : GraphEdge)
    : list string * gmap string (list (string * nat)) * gset string :=
  let '(sources, outgoing, scopes) := st in
  if negb (is_dependency e) then st
  else
    match maps.1 !! g_source_qualified e with
    | None => st
    | Some source =>
        match (match maps.1 !! g_target_qualified e with Some t => Some t | None => edge_target maps.2 e end) with
        | None => st
        | Some target =>
            if bool_decide (target = source) then st
            else
              (match outgoing !! source with Some _ => sources | None => sources ++ [source] end,
               <[source := bump target (default [] (outgoing !! source))]> outgoing,
               {[source; target]} ∪ scopes)
        end
    end.

(** Source: crates/dagayn-tools/src/architecture.rs 549-563 [sap_notes]. *)
Definition sap_notes (scope : string) : list string :=
  let parts := filter (.≠ "") (split_slash (replace_char backslash slash scope)) in
  (if bool_decide (default "" (head parts) ∈ ["tests"; "test"; "__tests__"]) then ["test-scope"] else [])
  ++ (if bool_decide ("fixtures" ∈ parts) then ["fixture-scope"] else []).

Inductive Reason := NoEligibleTypes | Isolated | Applicable.

(** The integer fields of an entry of [sap_metrics], and what decides whether the
    ratios apply. *)
Record Sap := mkSap {
  scope_key : string;
  na : nat;
  nt : nat;
  ca : nat;
  ce : nat;
  reason : Reason;
  member_count : nat;
  top_incoming : list (string * nat);
  top_outgoing : list (string * nat);
  notes : list string
}.

(** Source: crates/dagayn-tools/src/architecture.rs 508-516 [sap_metrics]. *)
Definition top (items : list (string * nat)) : list (string * nat) :=
  take 5 (sort_by (λ x y, y.2 <=? x.2) items).

(** The entry of [row] for a scope, with its source.

    Source: crates/dagayn-tools/src/architecture.rs 472-480 [sap_metrics]. *)
Definition incoming_of (sources : list string) (outgoing : gmap string (list (string * nat))) (scope : string)
    : list (string * nat) :=
  omap (λ source, '(_, t) ← list_find (λ t : string * nat, t.1 = scope) (default [] (outgoing !! source)); Some (source, t.2)) sources.

(** Source: crates/dagayn-tools/src/architecture.rs 469-536 [sap_metrics]. *)
Definition sap_entry (counts : gmap string nat * gmap string nat * gmap string nat) (sources : list string)
    (outgoing : gmap string (list (string * nat))) (scope : string) : Sap :=
  let '(na, nt, members) := counts in
  let nt_count := default 0 (nt !! scope) in
  let na_count := default 0 (na !! scope) in
  let out := default [] (outgoing !! scope) in
  let incoming := incoming_of sources outgoing scope in
  let ce := length out in
  let ca := length incoming in
  let reason := if nt_count =? 0 then NoEligibleTypes else if ca + ce =? 0 then Isolated else Applicable in
  mkSap scope na_count nt_count ca ce reason (default 0 (members !! scope)) (top incoming) (top out)
    (sap_notes scope ++ (if nt_count =? 0 then ["no-eligible-types"] else [])
     ++ (if ca + ce =? 0 then ["isolated"] else [])).

(** Whether a scope passes the filter; an empty one passes all.

    Source: crates/dagayn-tools/src/architecture.rs 462-468 [sap_metrics]. *)
Definition passes (unit_filter : option (list string)) (scope : string) : bool :=
  match unit_filter with
  | Some ((_ :: _) as prefixes) => existsb (λ prefix, starts_with prefix scope) prefixes
  | _ => true
  end.

(** The entries in the order of the scopes, before they are sorted by distance.

    Source: crates/dagayn-tools/src/architecture.rs 384-538 [sap_metrics]. *)
Definition sap_counts (all_nodes : list GraphNode) (edges : list GraphEdge) (view : View)
    (unit_filter : option (list string)) : list Sap :=
  let maps := scope_maps all_nodes view in
  let counts := foldl (count_node maps.1) (∅, ∅, ∅) all_nodes in
  let '(sources, outgoing, scopes) := foldl (count_edge maps) ([], ∅, dom counts.2) edges in
  sap_entry counts sources outgoing <$> filter (λ scope, passes unit_filter scope = true) (ascending scopes).

End scopes.

(** ** What the counts are *)

(** How often a key is counted. *)
Definition occurrences {K} `{EqDecision K} (k : K) (ks : list K) : nat := length (filter (.= k) ks).

(** A row that counts the keys of a list. *)
Definition counts {K} `{EqDecision K} (row : list (K * nat)) (ks : list K) : Prop :=
  NoDup row.*1 ∧ ∀ k n, (k, n) ∈ row ↔ n = occurrences k ks ∧ 0 < n.

Lemma occurrences_pos {K} `{EqDecision K} (k : K) ks : 0 < occurrences k ks ↔ k ∈ ks.
Proof.
  unfold occurrences. split.
  - destruct (filter _ ks) as [|k' l] eqn:E; [cbn; lia|]. intros _.
    assert (Hk : k' ∈ filter (.= k) ks) by (rewrite E; left). by apply list_elem_of_filter in Hk as [-> ?].
  - intros Hk. assert (Hf : k ∈ filter (.= k) ks) by by apply list_elem_of_filter.
    destruct (filter _ ks); [by apply not_elem_of_nil in Hf|cbn; lia].
Qed.

Lemma occurrences_snoc {K} `{EqDecision K} (k x : K) ks :
  occurrences k (ks ++ [x]) = occurrences k ks + (if bool_decide (x = k) then 1 else 0).
Proof. unfold occurrences. rewrite filter_app, length_app, filter_cons. case_bool_decide; destruct (decide _); by cbn. Qed.

Lemma occurrences_fmap {K L} `{EqDecision K, EqDecision L} (f : K → L) k ks :
  (∀ z, z ∈ ks → f z = f k → z = k) → occurrences (f k) (f <$> ks) = occurrences k ks.
Proof.
  unfold occurrences. induction ks as [|z ks IH]; intros Hf; [done|]. rewrite fmap_cons, !filter_cons.
  specialize (IH ltac:(intros w Hw; apply Hf; by right)).
  destruct (decide (f z = f k)) as [Hz|Hz], (decide (z = k)) as [Hk|Hk]; [by cbn; rewrite IH| | |done].
  - destruct Hk. apply Hf; [left|done].
  - by subst.
Qed.

Lemma counts_keys {K} `{EqDecision K} (row : list (K * nat)) ks k : counts row ks → k ∈ row.*1 ↔ k ∈ ks.
Proof.
  intros [_ Hc]. rewrite <-(occurrences_pos k ks), list_elem_of_fmap. split.
  - intros ([k' n] & -> & [-> ?]%Hc). done.
  - intros Hk. exists (k, occurrences k ks). split; [done|]. by apply Hc.
Qed.

Lemma bump_keys {K} `{EqDecision K} (k k' : K) row : k' ∈ (bump k row).*1 ↔ k' = k ∨ k' ∈ row.*1.
Proof.
  induction row as [|[k0 n] row IH]; cbn; [set_solver|].
  case_bool_decide; cbn; rewrite !elem_of_cons; [subst; tauto|]. rewrite IH. tauto.
Qed.

Lemma bump_NoDup {K} `{EqDecision K} (k : K) row : NoDup row.*1 → NoDup (bump k row).*1.
Proof.
  induction row as [|[k0 n] row IH]; cbn; intros Hnd; [apply NoDup_singleton|].
  apply NoDup_cons in Hnd as [Hk Hnd]. case_bool_decide; cbn; constructor; auto.
  rewrite bump_keys. naive_solver.
Qed.

Lemma elem_of_bump {K} `{EqDecision K} (k k' : K) n row :
  NoDup row.*1 →
  (k', n) ∈ bump k row ↔
    if bool_decide (k = k') then (∃ m, (k, m) ∈ row ∧ n = S m) ∨ (k ∉ row.*1 ∧ n = 1) else (k', n) ∈ row.
Proof.
  induction row as [|[k0 m] row IH]; cbn; intros Hnd.
  { rewrite list_elem_of_singleton. case_bool_decide; split; set_solver. }
  apply NoDup_cons in Hnd as [Hk Hnd].
  assert (Hno : ∀ m', (k0, m') ∉ row).
  { intros m' Hin. apply Hk, list_elem_of_fmap. by exists (k0, m'). }
  destruct (decide (k0 = k)) as [->|H0].
  - rewrite (bool_decide_eq_true_2 (k = k)) by done. rewrite elem_of_cons.
    case_bool_decide as H1; setoid_rewrite elem_of_cons; naive_solver.
  - rewrite (bool_decide_eq_false_2 (k0 = k)) by done. rewrite elem_of_cons, (IH Hnd).
    case_bool_decide as H1; setoid_rewrite elem_of_cons; naive_solver.
Qed.

Lemma bump_counts {K} `{EqDecision K} (row : list (K * nat)) ks k : counts row ks → counts (bump k row) (ks ++ [k]).
Proof.
  intros Hc. pose proof Hc as [Hnd Hr]. split; [by apply bump_NoDup|]. intros k' n.
  rewrite elem_of_bump, occurrences_snoc by done. case_bool_decide as Hk; [|rewrite Hr, Nat.add_0_r; tauto]. subst k'.
  rewrite (counts_keys row ks k Hc), <-(occurrences_pos k ks). setoid_rewrite Hr. split.
  - intros [(m & [-> ?] & ->)|[? ->]]; lia.
  - intros [-> _]. destruct (decide (0 < occurrences k ks)); [left; eexists; split; [done|lia]|right; lia].
Qed.

Lemma counts_nil {K} `{EqDecision K} : counts (K:=K) [] [].
Proof. split; [constructor|]. intros k n. rewrite elem_of_nil. unfold occurrences. cbn. lia. Qed.

(** Lists with the same elements, each once, are as long. *)
Lemma same_length {A} (l k : list A) : NoDup l → NoDup k → (∀ x, x ∈ l ↔ x ∈ k) → length l = length k.
Proof. intros Hl Hk Hx. apply Permutation_length. by apply NoDup_Permutation. Qed.

(** How many different texts a list holds. *)
Definition different (l : list string) : nat := size (list_to_set l : gset string).

Lemma different_remove_dups l : different l = length (remove_dups l).
Proof.
  unfold different. rewrite <-(size_list_to_set (C:=gset string)) by apply NoDup_remove_dups. f_equal.
  apply set_eq. intros x. by rewrite !elem_of_list_to_set, elem_of_remove_dups.
Qed.

(** The scopes a scope depends on, and those that depend on it, once for each
    dependency. *)
Definition targets_of (x : string) (deps : list (string * string)) : list string := snd <$> filter (λ d, d.1 = x) deps.
Definition sources_of (y : string) (deps : list (string * string)) : list string := fst <$> filter (λ d, d.2 = y) deps.

Lemma elem_of_targets x y deps : y ∈ targets_of x deps ↔ (x, y) ∈ deps.
Proof.
  unfold targets_of. rewrite list_elem_of_fmap. setoid_rewrite list_elem_of_filter. split; [|by exists (x, y)].
  intros ([a b] & -> & [<- ?]). done.
Qed.

Lemma elem_of_sources x y deps : x ∈ sources_of y deps ↔ (x, y) ∈ deps.
Proof.
  unfold sources_of. rewrite list_elem_of_fmap. setoid_rewrite list_elem_of_filter. split; [|by exists (x, y)].
  intros ([a b] & -> & [<- ?]). done.
Qed.

Lemma targets_snoc x deps a b :
  targets_of x (deps ++ [(a, b)]) = targets_of x deps ++ (if bool_decide (a = x) then [b] else []).
Proof. unfold targets_of. rewrite filter_app, fmap_app, filter_cons. case_bool_decide; destruct (decide _); by cbn. Qed.

Lemma occurrences_targets x y deps : occurrences y (targets_of x deps) = occurrences (x, y) deps.
Proof.
  induction deps as [|[a b] deps IH] using rev_ind; [done|]. rewrite targets_snoc, occurrences_snoc, <-IH.
  case_bool_decide as Ha.
  - rewrite occurrences_snoc. f_equal. repeat case_bool_decide; naive_solver.
  - rewrite app_nil_r. case_bool_decide; [congruence|lia].
Qed.

(** *** The graph of scopes *)

Definition idx (g : ScopeGraph) (x : string) : nat := default 0 (index g !! x).

(** What holds of a graph made from dependencies, with names added ahead of
    theirs. *)
Record good_graph (g : ScopeGraph) (ahead : list string) (deps : list (string * string)) : Prop := {
  gg_index : ∀ x i, index g !! x = Some i ↔ nodes g !! i = Some x;
  gg_nodes : ∀ x, x ∈ nodes g ↔ x ∈ ahead ∨ ∃ d, d ∈ deps ∧ (x = d.1 ∨ x = d.2);
  gg_successors : length (successors g) = length (nodes g);
  gg_predecessors : length (predecessors g) = length (nodes g);
  gg_rows : ∀ i x row, nodes g !! i = Some x → successors g !! i = Some row → counts row (idx g <$> targets_of x deps);
  gg_sources : ∀ j y s, nodes g !! j = Some y → predecessors g !! j = Some s →
    ∀ i, i ∈ s ↔ ∃ x, nodes g !! i = Some x ∧ (x, y) ∈ deps
}.

Lemma idx_node g ahead deps x i : good_graph g ahead deps → nodes g !! i = Some x → idx g x = i.
Proof. intros Hg Hi. apply (gg_index _ _ _ Hg) in Hi. unfold idx. by rewrite Hi. Qed.

Lemma mentioned_idx g ahead deps x :
  good_graph g ahead deps → (∃ d, d ∈ deps ∧ (x = d.1 ∨ x = d.2)) → index g !! x = Some (idx g x).
Proof.
  intros Hg Hx. assert (Hn : x ∈ nodes g) by (apply (gg_nodes _ _ _ Hg); by right).
  apply list_elem_of_lookup in Hn as [i Hi]. rewrite (idx_node _ _ _ _ _ Hg Hi). by apply (gg_index _ _ _ Hg).
Qed.

Lemma add_node_good g ahead deps x :
  good_graph g ahead deps →
  good_graph (add_node g x).1 (x :: ahead) deps ∧ nodes (add_node g x).1 !! (add_node g x).2 = Some x ∧
  ∀ i y, nodes g !! i = Some y → nodes (add_node g x).1 !! i = Some y.
Proof.
  intros Hg. unfold add_node. destruct (index g !! x) as [i|] eqn:Hx; cbn [fst snd].
  { assert (Hi : nodes g !! i = Some x) by by apply (gg_index _ _ _ Hg). split_and!; [|done..].
    destruct Hg as [G1 G2 G3 G4 G5 G6]. constructor; try done. intros y. rewrite G2, elem_of_cons.
    split; [tauto|]. intros [[->|?]|?]; [|tauto..]. apply G2. by eapply list_elem_of_lookup_2. }
  set (n := length (nodes g)). assert (Hnew : x ∉ nodes g).
  { intros [i Hi]%list_elem_of_lookup. apply (gg_index _ _ _ Hg) in Hi. congruence. }
  assert (Hlook : ∀ i y, (nodes g ++ [x]) !! i = Some y ↔ nodes g !! i = Some y ∨ (i = n ∧ y = x)).
  { intros i y. rewrite lookup_app. destruct (nodes g !! i) as [z|] eqn:Hz.
    - apply lookup_lt_Some in Hz. fold n in Hz. naive_solver lia.
    - apply lookup_ge_None in Hz. fold n in Hz. rewrite list_lookup_singleton_Some. fold n. naive_solver lia. }
  assert (Hidx : ∀ y, (∃ d, d ∈ deps ∧ (y = d.1 ∨ y = d.2)) → default 0 (<[x := n]> (index g) !! y) = idx g y).
  { intros y Hy. assert (Hyn : y ∈ nodes g) by (apply (gg_nodes _ _ _ Hg); by right).
    rewrite lookup_insert_ne by congruence. done. }
  assert (Hment : ∀ y z, (y, z) ∈ deps → y ∈ nodes g ∧ z ∈ nodes g).
  { intros y z Hd. split; apply (gg_nodes _ _ _ Hg); right; exists (y, z); cbn; tauto. }
  assert (Hlt : ∀ i y, nodes g !! i = Some y → i < n) by (intros i y Hi; by apply lookup_lt_Some in Hi).
  split_and!; cbn; [|apply Hlook; by right|intros i y Hi; apply Hlook; by left].
  constructor; cbn.
  - intros y i. rewrite Hlook. destruct (decide (y = x)) as [->|Hne].
    + rewrite lookup_insert_eq. split; [intros [= <-]; by right|].
      intros [Hi|[-> _]]; [exfalso; by apply Hnew; eapply list_elem_of_lookup_2|done].
    + rewrite lookup_insert_ne, (gg_index _ _ _ Hg) by done. naive_solver.
  - intros y. rewrite elem_of_app, (gg_nodes _ _ _ Hg), list_elem_of_singleton, elem_of_cons. tauto.
  - by rewrite !length_app, (gg_successors _ _ _ Hg).
  - by rewrite !length_app, (gg_predecessors _ _ _ Hg).
  - intros i y row Hi Hrow. unfold idx at 1. cbn.
    rewrite (list_fmap_ext _ (idx g) (targets_of y deps)); cycle 1.
    { intros k z Hz%list_elem_of_lookup_2%elem_of_targets. apply Hidx. exists (y, z). cbn. tauto. }
    apply Hlook in Hi as [Hi|[-> ->]].
    + rewrite lookup_app_l in Hrow by (rewrite (gg_successors _ _ _ Hg); by eapply Hlt). by apply (gg_rows _ _ _ Hg i y).
    + rewrite lookup_app_r in Hrow by (rewrite (gg_successors _ _ _ Hg); done).
      rewrite (gg_successors _ _ _ Hg), Nat.sub_diag in Hrow. injection Hrow as <-.
      replace (targets_of x deps) with (@nil string); [apply counts_nil|].
      destruct (targets_of x deps) as [|z l] eqn:E; [done|]. exfalso. apply Hnew, (Hment x z).
      apply elem_of_targets. rewrite E. left.
  - intros j y s Hj Hs i. setoid_rewrite Hlook.
    assert (Hi : (∃ z, (nodes g !! i = Some z ∨ i = n ∧ z = x) ∧ (z, y) ∈ deps) ↔ ∃ z, nodes g !! i = Some z ∧ (z, y) ∈ deps).
    { split; [|naive_solver]. intros (z & [Hz|[-> ->]] & Hd); [by exists z|]. by destruct (Hment _ _ Hd). }
    rewrite Hi. apply Hlook in Hj as [Hj|[-> ->]].
    + rewrite lookup_app_l in Hs by (rewrite (gg_predecessors _ _ _ Hg); by eapply Hlt). by apply (gg_sources _ _ _ Hg j y).
    + rewrite lookup_app_r in Hs by (rewrite (gg_predecessors _ _ _ Hg); done).
      rewrite (gg_predecessors _ _ _ Hg), Nat.sub_diag in Hs. injection Hs as <-. split; [set_solver|].
      intros (z & _ & Hd). by destruct (Hment _ _ Hd).
Qed.

Lemma add_dependency_good g deps d : good_graph g [] deps → good_graph (add_dependency g d) [] (deps ++ [d]).
Proof.
  intros Hg. destruct d as [a b]. unfold add_dependency. cbn [fst snd].
  destruct (add_node_good g [] deps a Hg) as (Hg1 & Ha & _). destruct (add_node g a) as [g1 from]. cbn [fst snd] in *.
  destruct (add_node_good g1 [a] deps b Hg1) as (Hg2 & Hb & Hkeep). destruct (add_node g1 b) as [g2 to]. cbn [fst snd] in *.
  apply Hkeep in Ha. clear Hg Hg1 Hkeep g g1. rename g2 into g, Hg2 into Hg.
  destruct (successors g !! from) as [row|] eqn:Hrow; cycle 1.
  { apply lookup_ge_None in Hrow. rewrite (gg_successors _ _ _ Hg) in Hrow. apply lookup_lt_Some in Ha. lia. }
  cbn [default]. pose proof (gg_rows _ _ _ Hg from a row Ha Hrow) as Hc.
  assert (Hto : ∀ y, idx g y = to ∧ y ∈ nodes g ↔ y = b).
  { intros y. split.
    - intros [Hi [j Hj]%list_elem_of_lookup]. rewrite (idx_node _ _ _ _ _ Hg Hj) in Hi. congruence.
    - intros ->. split; [by apply (idx_node _ _ _ _ _ Hg)|by eapply list_elem_of_lookup_2]. }
  assert (Hin : to ∈ row.*1 ↔ (a, b) ∈ deps).
  { rewrite (counts_keys row _ to Hc), list_elem_of_fmap, <-elem_of_targets. split.
    - intros (y & Hy & Hyt). replace b with y; [done|]. apply Hto. split; [done|].
      apply (gg_nodes _ _ _ Hg). right. exists (a, y). split; [by apply elem_of_targets|]. cbn. tauto.
    - intros Hab. exists b. split; [|done]. symmetry. by apply Hto. }
  destruct Hg as [G1 G2 G3 G4 G5 G6]. constructor; cbn.
  - done.
  - intros x. rewrite G2. setoid_rewrite elem_of_app. setoid_rewrite list_elem_of_singleton. set_solver.
  - by rewrite length_insert.
  - case_bool_decide; [done|by rewrite length_alter].
  - intros i x row' Hi Hrow'. rewrite targets_snoc.
    change (idx _ <$> ?l) with (idx g <$> l). rewrite fmap_app.
    destruct (decide (i = from)) as [->|Hne].
    + rewrite list_lookup_insert_eq in Hrow' by (by eapply lookup_lt_Some). injection Hrow' as <-.
      assert (x = a) as -> by congruence. rewrite bool_decide_eq_true_2 by done. cbn.
      replace (idx g b) with to by (symmetry; by apply Hto). by apply bump_counts.
    + rewrite list_lookup_insert_ne in Hrow' by done. rewrite bool_decide_eq_false_2; cycle 1.
      { intros ->. apply Hne. apply G1 in Hi, Ha. congruence. }
      cbn. rewrite app_nil_r. by apply (G5 i).
  - intros j y s Hj Hs i. setoid_rewrite elem_of_app. setoid_rewrite list_elem_of_singleton.
    assert (Hfrom : (∃ x, nodes g !! i = Some x ∧ ((x, y) ∈ deps ∨ (x, y) = (a, b))) ↔
      (∃ x, nodes g !! i = Some x ∧ (x, y) ∈ deps) ∨ (i = from ∧ y = b)).
    { split.
      - intros (x & Hx & [Hd|[= -> ->]]); [left; by exists x|right]. split; [|done]. apply G1 in Hx, Ha. congruence.
      - intros [(x & ? & ?)|[-> ->]]; [exists x; tauto|exists a; tauto]. }
    rewrite Hfrom. destruct (decide (j = to)) as [->|Hjt].
    + assert (y = b) as -> by congruence. case_bool_decide as Hd.
      * rewrite (G6 to b s Hj Hs). split; [tauto|]. intros [?|[-> _]]; [done|]. exists a. split; [done|by apply Hin].
      * rewrite list_lookup_alter_eq in Hs. destruct (predecessors g !! to) as [s0|] eqn:E; [|done].
        injection Hs as <-. rewrite elem_of_union, elem_of_singleton, (G6 to b s0 Hj E). tauto.
    + assert (Hs' : predecessors g !! j = Some s).
      { case_bool_decide; [done|]. by rewrite list_lookup_alter_ne in Hs. }
      rewrite (G6 j y s Hj Hs'). split; [tauto|]. intros [?|[-> ->]]; [done|]. exfalso. apply Hjt. apply G1 in Hj, Hb. congruence.
Qed.

Lemma new_graph_good deps : good_graph (new_graph deps) [] deps.
Proof.
  unfold new_graph. induction deps as [|d deps IH] using rev_ind.
  - constructor; cbn; try done; try (intros; set_solver).
  - rewrite foldl_snoc. by apply add_dependency_good.
Qed.

(** Ca and Ce of a node are the numbers of different scopes on either side. *)
Lemma ca_ce_different deps x i :
  index (new_graph deps) !! x = Some i →
  ca_ce (new_graph deps) i = (different (sources_of x deps), different (targets_of x deps)).
Proof.
  intros Hi. pose proof (new_graph_good deps) as Hg. set (g := new_graph deps) in *. apply (gg_index _ _ _ Hg) in Hi.
  assert (Hment : ∀ a b, (a, b) ∈ deps → index g !! a = Some (idx g a) ∧ index g !! b = Some (idx g b)).
  { intros a b Hd. split; apply (mentioned_idx _ _ _ _ Hg); exists (a, b); cbn; tauto. }
  assert (Hinj : ∀ a b, index g !! a = Some (idx g a) → index g !! b = Some (idx g b) → idx g a = idx g b → a = b).
  { intros a b Ha Hb He. rewrite He in Ha. apply (gg_index _ _ _ Hg) in Ha, Hb. congruence. }
  unfold ca_ce. rewrite !different_remove_dups. f_equal.
  - destruct (predecessors g !! i) as [s|] eqn:Hs; cycle 1.
    { apply lookup_ge_None in Hs. rewrite (gg_predecessors _ _ _ Hg) in Hs. apply lookup_lt_Some in Hi. lia. }
    cbn. rewrite <-(length_fmap (idx g) (remove_dups _)). apply same_length; [apply NoDup_elements| |].
    + apply NoDup_fmap_2_strong; [|apply NoDup_remove_dups].
      intros a b Ha%elem_of_remove_dups%elem_of_sources Hb%elem_of_remove_dups%elem_of_sources He.
      apply Hinj; [by apply (Hment a x)|by apply (Hment b x)|done].
    + intros j. rewrite elem_of_elements, (gg_sources _ _ _ Hg i x s Hi Hs), list_elem_of_fmap.
      setoid_rewrite elem_of_remove_dups. setoid_rewrite elem_of_sources. split.
      * intros (a & Ha & Hd). exists a. split; [|done]. symmetry. by apply (idx_node _ _ _ _ _ Hg).
      * intros (a & -> & Hd). exists a. split; [|done]. apply (gg_index _ _ _ Hg). by apply (Hment a x).
  - destruct (successors g !! i) as [row|] eqn:Hrow; cycle 1.
    { apply lookup_ge_None in Hrow. rewrite (gg_successors _ _ _ Hg) in Hrow. apply lookup_lt_Some in Hi. lia. }
    cbn. pose proof (gg_rows _ _ _ Hg i x row Hi Hrow) as Hc.
    rewrite <-(length_fmap fst row), <-(length_fmap (idx g) (remove_dups _)). apply same_length; [apply Hc| |].
    + apply NoDup_fmap_2_strong; [|apply NoDup_remove_dups].
      intros a b Ha%elem_of_remove_dups%elem_of_targets Hb%elem_of_remove_dups%elem_of_targets He.
      apply Hinj; [by apply (Hment x a)|by apply (Hment x b)|done].
    + intros j. rewrite (counts_keys row _ j Hc), !list_elem_of_fmap. by setoid_rewrite elem_of_remove_dups.
Qed.

(** *** The counts of the abstractness measures *)

(** What one dependency does to the rows. *)
Definition count_dependency (st : list string * gmap string (list (string * nat)) * gset string) (d : string * string)
    : list string * gmap string (list (string * nat)) * gset string :=
  let '(sources, outgoing, scopes) := st in
  (match outgoing !! d.1 with Some _ => sources | None => sources ++ [d.1] end,
   <[d.1 := bump d.2 (default [] (outgoing !! d.1))]> outgoing, {[d.1; d.2]} ∪ scopes).

(** What holds of the rows after some dependencies. *)
Record counted (initial : gset string) (st : list string * gmap string (list (string * nat)) * gset string)
    (deps : list (string * string)) : Prop := {
  ct_sources : NoDup st.1.1;
  ct_rows : ∀ x, match st.1.2 !! x with
                 | Some row => x ∈ st.1.1 ∧ counts row (targets_of x deps)
                 | None => x ∉ st.1.1 ∧ targets_of x deps = []
                 end;
  ct_scopes : ∀ x, x ∈ st.2 ↔ x ∈ initial ∨ ∃ d, d ∈ deps ∧ (x = d.1 ∨ x = d.2)
}.

Lemma count_dependencies initial deps : counted initial (foldl count_dependency ([], ∅, initial) deps) deps.
Proof.
  induction deps as [|[a b] deps IH] using rev_ind.
  { constructor; cbn; [constructor| |set_solver]. intros x. rewrite lookup_empty. split; [set_solver|done]. }
  rewrite foldl_snoc. destruct (foldl _ _ _) as [[sources outgoing] scopes]. destruct IH as [C1 C2 C3]. cbn in *.
  pose proof (C2 a) as Ha. constructor; cbn.
  - destruct (outgoing !! a); [done|]. destruct Ha as [Ha _]. apply NoDup_app. split; [done|]. split; [|apply NoDup_singleton].
    by intros x Hx ->%list_elem_of_singleton.
  - intros x. rewrite targets_snoc. destruct (decide (x = a)) as [->|Hne].
    + rewrite lookup_insert_eq, bool_decide_eq_true_2 by done. split.
      { destruct (outgoing !! a); [by destruct Ha|]. apply elem_of_app. right. by apply list_elem_of_singleton. }
      apply bump_counts. destruct (outgoing !! a); [apply Ha|]. destruct Ha as [_ ->]. apply counts_nil.
    + rewrite lookup_insert_ne, bool_decide_eq_false_2, app_nil_r by done. specialize (C2 x).
      destruct (outgoing !! a); [done|]. destruct (outgoing !! x); destruct C2 as [Hx Hrow]; (split; [|done]);
        rewrite elem_of_app, list_elem_of_singleton; [by left|]. by intros [?|?].
  - intros x. rewrite !elem_of_union, !elem_of_singleton, C3. setoid_rewrite elem_of_app.
    setoid_rewrite list_elem_of_singleton. set_solver.
Qed.

Lemma outgoing_length initial st deps x :
  counted initial st deps → length (default [] (st.1.2 !! x)) = different (targets_of x deps).
Proof.
  intros Hc. pose proof (ct_rows _ _ _ Hc x) as Hx. destruct (st.1.2 !! x) as [row|]; cbn; [|by destruct Hx as [_ ->]].
  destruct Hx as [_ Hrow]. rewrite different_remove_dups, <-(length_fmap fst row).
  apply same_length; [apply Hrow|apply NoDup_remove_dups|]. intros y. by rewrite (counts_keys row _ y Hrow), elem_of_remove_dups.
Qed.

Lemma elem_of_incoming initial st deps y x n :
  counted initial st deps → (x, n) ∈ incoming_of st.1.1 st.1.2 y ↔ n = occurrences (x, y) deps ∧ 0 < n.
Proof.
  intros Hc. unfold incoming_of. rewrite list_elem_of_omap. rewrite <-occurrences_targets. split.
  - intros (x' & Hx' & Hf). destruct (list_find _ _) as [[k [y' n']]|] eqn:E; [|done]. cbn in Hf. injection Hf as -> ->.
    apply list_find_Some in E as (Hl & Hy & _). cbn in Hy. subst y'. pose proof (ct_rows _ _ _ Hc x) as Hx.
    destruct (st.1.2 !! x) as [row|]; [|done]. destruct Hx as [_ [_ Hrow]]. apply Hrow. by eapply list_elem_of_lookup_2.
  - intros [Hn Hpos]. pose proof (ct_rows _ _ _ Hc x) as Hx. exists x.
    destruct (st.1.2 !! x) as [row|]; cycle 1.
    { destruct Hx as [_ Hx]. rewrite Hx in Hn. cbn in Hn. lia. }
    destruct Hx as [Hin [Hnd Hrow]]. split; [done|]. cbn.
    assert (Hyn : (y, n) ∈ row) by by apply Hrow.
    destruct (list_find (λ t : string * nat, t.1 = y) row) as [[k [y' n']]|] eqn:E.
    + apply list_find_Some in E as (Hl & Hy & _). cbn in *. subst y'. do 2 f_equal.
      apply list_elem_of_lookup_2, Hrow in Hl as [-> _]. done.
    + exfalso. apply list_find_None, Forall_forall with (x := (y, n)) in E; [|done]. done.
Qed.

Lemma incoming_length initial st deps y :
  counted initial st deps → length (incoming_of st.1.1 st.1.2 y) = different (sources_of y deps).
Proof.
  intros Hc. rewrite different_remove_dups, <-(length_fmap fst (incoming_of _ _ _)).
  apply same_length; [|apply NoDup_remove_dups|].
  - pose proof (ct_sources _ _ _ Hc) as Hnd. unfold incoming_of. revert Hnd. generalize st.1.1.
    induction l as [|x l IH]; cbn; [constructor|]. intros [Hx Hnd]%NoDup_cons.
    destruct (list_find _ _) as [[k [y' n']]|]; cbn; [|by apply IH]. constructor; [|by apply IH].
    intros ([x' n] & -> & (x2 & Hx2 & Hf)%list_elem_of_omap)%list_elem_of_fmap. apply Hx. cbn.
    destruct (list_find _ _) as [[? [? ?]]|]; [|done]. cbn in Hf. by injection Hf as -> _.
  - intros x. rewrite elem_of_remove_dups, elem_of_sources, list_elem_of_fmap, <-(occurrences_pos (x, y) deps). split.
    + intros ([x' n] & -> & [-> Hn]%(elem_of_incoming _ _ _ _ _ _ Hc)). done.
    + intros Hn. exists (x, occurrences (x, y) deps). split; [done|]. by apply (elem_of_incoming _ _ _ _ _ _ Hc).
Qed.

Section agreement.
Context `{Json} (flag : Value → string → bool).
Context (all_nodes : list GraphNode) (edges : list GraphEdge) (view : View).

#[local] Abbreviation maps := (scope_maps all_nodes view).
#[local] Abbreviation deps := (dependencies all_nodes edges view).

Lemma count_edges st : foldl (count_edge maps) st edges = foldl count_dependency st deps.
Proof.
  unfold dependencies, dependency_edges. revert st. induction edges as [|e es IH]; intros st; [done|]. cbn [foldl omap list_omap].
  rewrite IH. unfold count_edge, dependency_edge at 2. destruct st as [[sources outgoing] scopes].
  destruct (is_dependency e); [|done]. cbn [negb]. destruct (maps.1 !! g_source_qualified e) as [source|]; [|done].
  cbn [mbind option_bind]. destruct (match maps.1 !! g_target_qualified e with Some _ => _ | None => _ end) as [target|]; [|done].
  cbn [mbind option_bind]. by case_bool_decide.
Qed.

(** The scopes the nodes counted lie in. *)
Definition member_scope (x : string) : Prop := ∃ n, n ∈ all_nodes ∧ maps.1 !! n_qualified_name n = Some x.

Lemma members_dom x : x ∈ dom (foldl (count_node flag maps.1) (∅, ∅, ∅) all_nodes).2 ↔ member_scope x.
Proof.
  unfold member_scope. generalize maps.1 as q. intros q.
  enough (Hgen : ∀ l st, x ∈ dom (foldl (count_node flag q) st l).2 ↔ x ∈ dom st.2 ∨ ∃ n, n ∈ l ∧ q !! n_qualified_name n = Some x).
  { rewrite Hgen. cbn. set_solver. }
  induction l as [|n l IH]; intros [[na nt] members]; cbn [foldl]; [set_solver|]. rewrite IH.
  assert (Hn : dom (count_node flag q (na, nt, members) n).2 =
    match q !! n_qualified_name n with Some s => {[s]} ∪ dom members | None => dom members end).
  { unfold count_node. destruct (q !! _); [|done]. destruct (eligible n); cbn; unfold count_up; by rewrite dom_insert_L. }
  rewrite Hn. setoid_rewrite elem_of_cons. cbn. destruct (q !! n_qualified_name n) eqn:E; set_solver.
Qed.

(** An entry's Ca and Ce, whatever the filter. *)
Lemma sap_counts_spec unit_filter :
  let entries := sap_counts flag all_nodes edges view unit_filter in
  StronglySorted (λ x y, String.leb x y = true) (scope_key <$> entries) ∧ NoDup (scope_key <$> entries) ∧
  (∀ x, x ∈ scope_key <$> entries ↔
     passes unit_filter x = true ∧ (member_scope x ∨ ∃ d, d ∈ deps ∧ (x = d.1 ∨ x = d.2))) ∧
  ∀ e, e ∈ entries → ca e = different (sources_of (scope_key e) deps) ∧ ce e = different (targets_of (scope_key e) deps).
Proof.
  unfold sap_counts. rewrite count_edges.
  set (c0 := foldl (count_node flag maps.1) (∅, ∅, ∅) all_nodes).
  pose proof (count_dependencies (dom c0.2) deps) as Hc. destruct (foldl count_dependency _ _) as [[sources outgoing] scopes] eqn:E.
  destruct c0 as [[na nt] members] eqn:E0. cbn zeta.
  assert (Hkey : scope_key <$> (sap_entry (na, nt, members) sources outgoing <$> filter (λ scope, passes unit_filter scope = true) (ascending scopes))
    = filter (λ scope, passes unit_filter scope = true) (ascending scopes)).
  { rewrite <-list_fmap_compose. by apply list_fmap_id. }
  rewrite Hkey. split_and!.
  - apply filter_sorted. unfold ascending. apply sort_by_sorted; [apply string_leb_total|apply string_leb_trans].
  - apply NoDup_filter, NoDup_ascending.
  - intros x. rewrite list_elem_of_filter, elem_of_ascending, (ct_scopes _ _ _ Hc x). cbn.
    assert (Hm : x ∈ dom members ↔ member_scope x) by (rewrite <-members_dom; fold c0; by rewrite E0).
    cbn in Hm. rewrite Hm. tauto.
  - intros e (x & -> & _)%list_elem_of_fmap. cbn.
    split; [apply (incoming_length _ _ _ x Hc)|apply (outgoing_length _ _ _ x Hc)].
Qed.

(** C24: The abstractness measures and the stability measures count dependencies
    alike: for every scope listed, Ca and Ce are the numbers of different scopes
    with a dependency on it and of those it depends on, which are the counts the
    graph of scopes gives where it has the scope, and none where it has not.  The
    entries come once each, in order, for exactly the scopes of nodes and
    dependencies that pass the filter. *)
Theorem sap_agrees_with_graph unit_filter :
  let entries := sap_counts flag all_nodes edges view unit_filter in
  let g := new_graph deps in
  NoDup (scope_key <$> entries) ∧ StronglySorted (λ x y, String.leb x y = true) (scope_key <$> entries) ∧
  (∀ x, x ∈ scope_key <$> entries ↔ passes unit_filter x = true ∧ (member_scope x ∨ x ∈ nodes g)) ∧
  (∀ e, e ∈ entries →
     ca e = different (sources_of (scope_key e) deps) ∧ ce e = different (targets_of (scope_key e) deps) ∧
     (ca e, ce e) = match index g !! scope_key e with Some i => ca_ce g i | None => (0, 0) end) ∧
  ∀ i j x y row, nodes g !! i = Some x → nodes g !! j = Some y → successors g !! i = Some row →
    ∀ n, (j, n) ∈ row ↔ n = occurrences (x, y) deps ∧ 0 < n.
Proof.
  intros entries g. destruct (sap_counts_spec unit_filter) as (Hs & Hnd & Hin & Hcount). fold entries in Hs, Hnd, Hin, Hcount.
  pose proof (new_graph_good deps) as Hg. fold g in Hg. split_and!; [done|done| | |].
  - intros x. rewrite Hin, (gg_nodes _ _ _ Hg). set_solver.
  - intros e He. destruct (Hcount e He) as [Hca Hce]. split_and!; [done..|]. rewrite Hca, Hce.
    destruct (index g !! scope_key e) as [i|] eqn:Hi; [unfold g; by rewrite (ca_ce_different _ _ _ Hi)|].
    assert (Hno : ∀ d, d ∈ deps → scope_key e ≠ d.1 ∧ scope_key e ≠ d.2).
    { intros d Hd. split; intros Heq; (rewrite (mentioned_idx g [] deps) in Hi; [done..|]); exists d; rewrite <-Heq; tauto. }
    destruct (sources_of _ _) as [|x l] eqn:E1; [destruct (targets_of _ _) as [|x l] eqn:E2; [done|]|]; exfalso.
    + assert (Hd : (scope_key e, x) ∈ deps) by (apply elem_of_targets; rewrite E2; left). by apply Hno in Hd as [? _].
    + assert (Hd : (x, scope_key e) ∈ deps) by (apply elem_of_sources; rewrite E1; left). by apply Hno in Hd as [_ ?].
  - intros i j x y row Hi Hj Hrow n. destruct (gg_rows _ _ _ Hg i x row Hi Hrow) as [_ Hr].
    rewrite Hr, <-occurrences_targets.
    enough (Ho : occurrences j (idx g <$> targets_of x deps) = occurrences y (targets_of x deps)) by by rewrite Ho.
    rewrite <-(idx_node g [] deps y j Hg Hj). apply occurrences_fmap. intros z Hz%elem_of_targets He.
    assert (Hiz : index g !! z = Some (idx g z)) by (apply (mentioned_idx _ _ _ _ Hg); exists (x, z); cbn; tauto).
    rewrite He, (idx_node g [] deps y j Hg Hj) in Hiz. apply (gg_index _ _ _ Hg) in Hiz. congruence.
Qed.

End agreement.

End Scopes.
