(* ===== verification/ImportCycles.v ===== *)
(** * The import cycles of a repository

    Models [import_cycles] of crates/dagayn-tools/src/cycles.rs: the imports
    between scopes, the cycles they form as [CycleTool] lists them, and the import
    shown for each hop.  The answer before it is cut to the output budget.  An
    answer that is not truncated holds every simple cycle of the imports, each
    once, and every hop shown is an import that is there. *)
From S2P Require Import Prelude Graphs GraphData Impact Visibility Scc ArchFindings CycleTool Scopes.
Import Graphs GraphData Impact CycleTool Scopes.

Module ImportCycles.

#[local] Set Default Proof Using "Type".

(** ** The request and the answer *)

(** Source: crates/dagayn-tools/src/cycles.rs 19-27 [CycleRequest]. *)
Record CycleRequest := mkRequest {
  scope_kind : string;
  unit_filter : option (list string);
  import_kind : option string;
  r_artifact : Artifact;
  detail_level : string
}.

(** Source: crates/dagayn-tools/src/cycles.rs 31-36 [Example]. *)
Record Example_ := mkExample {
  ex_from : string;
  ex_to : string;
  ex_line : Z;
  ex_kind : option string
}.

(** What is shown of a hop.

    Source: crates/dagayn-tools/src/cycles.rs 134-143 [import_cycles]. *)
Record Hop := mkHop {
  hop_from : string;
  hop_to : string;
  hop_line : Z;
  hop_imports : nat;
  hop_kind : option string
}.

(** A cycle as listed has no hops where the answer is minimal. *)
Record Answer := mkAnswer {
  cycles : list (list string * list Hop);
  groups : list (list string);
  found : nat;
  truncated : bool
}.

(** [Ord] of vectors of texts. *)
Fixpoint scopes_le (x y : list string) : bool :=
  match x, y with
  | [], _ => true
  | _ :: _, [] => false
  | a :: x, b :: y => match String.compare a b with Lt => true | Eq => scopes_le x y | Gt => false end
  end.

(** Source: crates/dagayn-tools/src/cycles.rs 104 [import_cycles]. *)
Definition example_le (x y : Example_) : bool :=
  match String.compare (ex_from x) (ex_from y) with
  | Lt => true
  | Gt => false
  | Eq => match (ex_line x ?= ex_line y)%Z with
          | Lt => true
          | Gt => false
          | Eq => String.leb (ex_to x) (ex_to y)
          end
  end.

(** ** Orders *)

Lemma compare_refl a : String.compare a a = Eq.
Proof. pose proof (String.compare_antisym a a) as Ha. by destruct (String.compare a a). Qed.

Lemma compare_cases a b :
  (String.compare a b = Lt ∧ String.leb a b = true ∧ a ≠ b) ∨ (String.compare a b = Eq ∧ a = b) ∨
  (String.compare a b = Gt ∧ String.leb b a = true ∧ a ≠ b).
Proof.
  destruct (String.compare a b) eqn:E.
  - right. left. split; [done|]. by apply String.compare_eq_iff.
  - left. split_and!; [done|unfold String.leb; by rewrite E|]. intros ->. by rewrite compare_refl in E.
  - right. right. split_and!; [done| |].
    + destruct (string_leb_total a b) as [Hl|Hl]; [|done]. unfold String.leb in Hl. by rewrite E in Hl.
    + intros ->. by rewrite compare_refl in E.
Qed.

Ltac compare_split a b := destruct (compare_cases a b) as [(-> & ? & ?)|[(-> & ?)|(-> & ? & ?)]].

Lemma compare_lt_trans a b c : String.compare a b = Lt → String.compare b c = Lt → String.compare a c = Lt.
Proof.
  intros Hab Hbc. destruct (compare_cases a b) as [(_ & H1 & N1)|[(E & _)|(E & _)]]; [|congruence..].
  destruct (compare_cases b c) as [(_ & H2 & N2)|[(E & _)|(E & _)]]; [|congruence..].
  pose proof (string_leb_trans _ _ _ H1 H2) as H3. compare_split a c; [done| |]; exfalso.
  - subst. by apply N1, string_leb_antisym.
  - assert (a = c) as -> by by apply string_leb_antisym. done.
Qed.

Lemma scopes_le_total x y : scopes_le x y = true ∨ scopes_le y x = true.
Proof.
  revert y. induction x as [|a x IH]; intros [|b y]; cbn; auto.
  destruct (compare_cases a b) as [(-> & ? & ?)|[(E & ->)|(E & ? & ?)]]; [by left|rewrite compare_refl; apply IH|].
  right. compare_split b a; [done|congruence|]. exfalso. by apply (string_leb_antisym a b) in H1.
Qed.

Lemma scopes_le_trans x y z : scopes_le x y = true → scopes_le y z = true → scopes_le x z = true.
Proof.
  revert y z. induction x as [|a x IH]; intros [|b y] [|c z]; cbn; try done. intros H1 H2.
  destruct (String.compare a b) eqn:E1; [|destruct (String.compare b c) eqn:E2; [| |done]|done].
  - apply String.compare_eq_iff in E1 as ->. destruct (String.compare b c); [by eapply IH|done|done].
  - apply String.compare_eq_iff in E2 as ->. by rewrite E1.
  - by rewrite (compare_lt_trans a b c).
Qed.

Lemma least (c : list string) : c ≠ [] → ∃ m, m ∈ c ∧ ∀ x, x ∈ c → String.leb m x = true.
Proof.
  intros Hc. pose proof (sort_by_sorted String.leb string_leb_total string_leb_trans c) as Hs.
  pose proof (sort_by_Permutation String.leb c) as Hp. destruct (sort_by String.leb c) as [|m l] eqn:E.
  { apply Permutation_nil in Hp. done. }
  exists m. inversion Hs as [|? ? _ Hall]; subst. split; [rewrite <-Hp; left|].
  intros x Hx. rewrite <-Hp in Hx. apply elem_of_cons in Hx as [->|Hx]; [apply string_leb_refl|].
  by rewrite Forall_forall in Hall; apply Hall.
Qed.

(** The first of a list put in order by a key of three parts is at most any. *)
Lemma example_le_total x y : example_le x y = true ∨ example_le y x = true.
Proof.
  unfold example_le. destruct (compare_cases (ex_from x) (ex_from y)) as [(-> & ? & ?)|[(E & Hf)|(E & H1 & H2)]]; [by left| |].
  - rewrite Hf, compare_refl. destruct (ex_line x ?= ex_line y)%Z eqn:El; [|by left|].
    + apply Z.compare_eq in El as ->. rewrite Z.compare_refl. apply string_leb_total.
    + right. apply Z.compare_gt_iff in El. apply Z.compare_lt_iff in El. by rewrite El.
  - right. compare_split (ex_from y) (ex_from x); [done|congruence|]. exfalso. by apply H2, string_leb_antisym.
Qed.

Lemma example_le_trans x y z : example_le x y = true → example_le y z = true → example_le x z = true.
Proof.
  unfold example_le. intros H1 H2.
  destruct (String.compare (ex_from x) (ex_from y)) eqn:E1; [|destruct (String.compare (ex_from y) (ex_from z)) eqn:E2; [| |done]|done].
  - apply String.compare_eq_iff in E1 as ->. destruct (String.compare (ex_from y) (ex_from z)); [|done..].
    destruct (Z.compare_spec (ex_line x) (ex_line y)); [| |done];
      destruct (Z.compare_spec (ex_line y) (ex_line z)); try done;
      destruct (Z.compare_spec (ex_line x) (ex_line z)); try done; try lia. by eapply string_leb_trans.
  - apply String.compare_eq_iff in E2. by rewrite <-E2, E1.
  - by rewrite (compare_lt_trans _ (ex_from y) _).
Qed.

Section import_cycles.
Context `{Json}.

(** Source: crates/dagayn-tools/src/query/rows.rs 333-345 [edge_import_kind]. *)
Definition edge_import_kind (e : GraphEdge) : option string :=
  match get_str (g_extra e) "markdown_import_kind" with
  | Some kind => Some kind
  | None =>
      if bool_decide (get_bool (g_extra e) "path_use" = Some true) then Some "path"
      else if bool_decide (get_bool (g_extra e) "lazy_export" = Some true) then Some "lazy_export" else None
  end.

(** Source: crates/dagayn-tools/src/query/rows.rs 349-354 [import_kind_matches]. *)
Definition import_kind_matches (e : GraphEdge) (filter : option string) : bool :=
  match filter with
  | None => true
  | Some kind =>
      if bool_decide (kind = "statement") then bool_decide (edge_import_kind e = None)
      else bool_decide (edge_import_kind e = Some kind)
  end.

Context (request : CycleRequest) (unit_scopes : gmap string string).
Context (all_nodes : list GraphNode) (edges : list GraphEdge).

(** Source: crates/dagayn-tools/src/cycles.rs 38-42 [import_cycles]. *)
Definition view : View :=
  mkView (bool_decide (scope_kind request = "file")) (r_artifact request)
    (if bool_decide (scope_kind request = "package") then Some unit_scopes else None).

(** Source: crates/dagayn-tools/src/cycles.rs 43-48 [import_cycles]. *)
Definition files : gmap string GraphNode :=
  ArchFindings.collect ((λ n, (n_file_path n, n)) <$> filter (λ n, n_kind n = "File") all_nodes).

(** Source: crates/dagayn-tools/src/cycles.rs 49-53 [import_cycles]. *)
Definition file_of : gmap string string :=
  ArchFindings.collect ((λ n, (n_qualified_name n, n_file_path n)) <$> all_nodes).

(** Source: crates/dagayn-tools/src/cycles.rs 54-60 [import_cycles]. *)
Definition kept (scope : string) : bool :=
  match unit_filter request with
  | None => true
  | Some prefixes => existsb (λ prefix, starts_with prefix scope) prefixes
  end.

(** Source: crates/dagayn-tools/src/cycles.rs 61-65 [import_cycles]. *)
Definition in_artifact (file : string) : bool :=
  match files !! file with Some node => includes (r_artifact request) node | None => false end.

(** The file an import leads to.

    Source: crates/dagayn-tools/src/cycles.rs 75-79 [import_cycles]. *)
Definition target_file (target : string) : option string :=
  match file_of !! target with
  | Some file => Some file
  | None =>
      let file := match split_colons target with Some (file, _) => file | None => target end in
      if bool_decide (file ∈ dom files) then Some file else None
  end.

(** The hop an edge is behind, and what is shown of the edge.

    Source: crates/dagayn-tools/src/cycles.rs 69-101 [import_cycles]. *)
Definition hop_of_edge (e : GraphEdge) : option ((string * string) * Example_) :=
  if negb (bool_decide (g_kind e = "IMPORTS_FROM")) || negb (import_kind_matches e (import_kind request)) then None
  else
    let from := g_file_path e in
    to ← target_file (g_target_qualified e);
    if bool_decide (from = to) || negb (in_artifact from) || negb (in_artifact to) then None
    else if negb (file_scopes view) && ArchFindings.is_test_path from then None
    else
      let source := scope_of view from in
      let sink := scope_of view to in
      if bool_decide (source = sink) || negb (kept source) || negb (kept sink) then None
      else Some ((source, sink), mkExample from to (g_line e) (edge_import_kind e)).

(** Source: crates/dagayn-tools/src/cycles.rs 68-102 [import_cycles]. *)
Definition add_hop (hops : gmap (string * string) (list Example_)) (e : GraphEdge) : gmap (string * string) (list Example_) :=
  match hop_of_edge e with
  | Some (p, example) => <[p := default [] (hops !! p) ++ [example]]> hops
  | None => hops
  end.

(** Source: crates/dagayn-tools/src/cycles.rs 67-105 [import_cycles]. *)
Definition hops : gmap (string * string) (list Example_) := sort_by example_le <$> foldl add_hop ∅ edges.

(** Source: crates/dagayn-tools/src/cycles.rs 106-110 [import_cycles]. *)
Definition adjacency : Scc.graph :=
  foldl ArchFindings.add_neighbour ∅ (sort_by ArchFindings.pair_le (map_to_list hops).*1).

(** The hop between two scopes; [None] is the panic of an absent one.

    Source: crates/dagayn-tools/src/cycles.rs 131-144 [import_cycles]. *)
Definition shown_hop (p : string * string) : option Hop :=
  examples ← hops !! p;
  first ← head examples;
  Some (mkHop (ex_from first) (ex_to first) (ex_line first) (length examples) (ex_kind first)).

(** The hops of a cycle: each scope with the next, and the last with the first. *)
Definition cycle_hops (cycle : list string) : list (string * string) :=
  match cycle with [] => [] | first :: rest => zip cycle (rest ++ [first]) end.

(** Source: crates/dagayn-tools/src/cycles.rs 121-147 [import_cycles]. *)
Definition listed_cycle (cycle : list string) : option (list string * list Hop) :=
  if negb (bool_decide (detail_level request ≠ "minimal")) then Some (cycle, [])
  else hops ← mapM shown_hop (cycle_hops cycle); Some (cycle, hops).

(** Source: crates/dagayn-tools/src/cycles.rs 37-148 [import_cycles]. *)
Definition import_cycles : option Answer :=
  components ← Scc.strongly_connected adjacency;
  let groups := filter (λ group, 1 < length group) components in
  let '(cycles, complete) := simple_cycles MAX_CYCLES adjacency MAX_STEPS groups in
  let cycles := sort_by scopes_le cycles in
  let found := length cycles in
  let truncated := negb complete || (MAX_CYCLES <? found) in
  listed ← mapM listed_cycle (take MAX_CYCLES cycles);
  Some (mkAnswer listed groups found truncated).

(** ** What the answer says *)

(** The imports behind a hop, in the order of the edges. *)
Definition examples_of (p : string * string) : list Example_ :=
  omap (λ e, '(q, ex) ← hop_of_edge e; if bool_decide (q = p) then Some ex else None) edges.

Definition imports (x y : string) : Prop := examples_of (x, y) ≠ [].

Lemma hops_spec p :
  hops !! p = if bool_decide (examples_of p = []) then None else Some (sort_by example_le (examples_of p)).
Proof.
  unfold hops. rewrite lookup_fmap.
  enough (Hh : foldl add_hop ∅ edges !! p = if bool_decide (examples_of p = []) then None else Some (examples_of p)).
  { rewrite Hh. by case_bool_decide. }
  unfold examples_of. induction edges as [|e es IH] using rev_ind; [done|].
  rewrite foldl_snoc, omap_app. cbn [omap list_omap]. unfold add_hop at 1.
  destruct (hop_of_edge e) as [[q ex]|]; cbn [mbind option_bind]; [|by rewrite app_nil_r].
  destruct (decide (q = p)) as [->|Hq]; cycle 1.
  { rewrite (bool_decide_eq_false_2 (q = p)), lookup_insert_ne by done. by rewrite app_nil_r. }
  rewrite (bool_decide_eq_true_2 (p = p)) by done.
  rewrite lookup_insert_eq, IH, (bool_decide_eq_false_2 (_ ++ [ex] = [])).
  - case_bool_decide as Hn; [by rewrite Hn|done].
  - intros Hn%app_nil. by destruct Hn.
Qed.

Lemma import_adjacency_edge x y : Scc.edge adjacency x y ↔ imports x y.
Proof.
  unfold adjacency, imports. rewrite ArchFindings.adjacency_of_spec, elem_of_sort_by, list_elem_of_fmap. split.
  - intros [(s & ? & _)|([p l] & Hp & Hl)]; [done|]. cbn in Hp. subst p. apply elem_of_map_to_list in Hl.
    rewrite hops_spec in Hl. by case_bool_decide.
  - intros Hne. right. exists ((x, y), sort_by example_le (examples_of (x, y))). split; [done|].
    apply elem_of_map_to_list. rewrite hops_spec. by rewrite bool_decide_eq_false_2.
Qed.

Lemma import_adjacency_closed : Scc.closed_graph adjacency.
Proof. apply ArchFindings.add_neighbour_closed. by intros x y (s & ? & _). Qed.

Lemma elem_of_examples p ex : ex ∈ examples_of p ↔ ∃ e, e ∈ edges ∧ hop_of_edge e = Some (p, ex).
Proof.
  unfold examples_of. rewrite list_elem_of_omap. split; intros (e & He & Hx); exists e; (split; [done|]).
  - destruct (hop_of_edge e) as [[q ex']|]; [|done]. cbn in Hx. case_bool_decide; naive_solver.
  - rewrite Hx. cbn. by rewrite bool_decide_eq_true_2.
Qed.

Lemma no_loops x : ¬ Scc.edge adjacency x x.
Proof.
  intros Hx%import_adjacency_edge. unfold imports in Hx. destruct (examples_of (x, x)) as [|ex l] eqn:E; [done|].
  assert (Hin : ex ∈ examples_of (x, x)) by (rewrite E; left). apply elem_of_examples in Hin as (e & _ & He).
  unfold hop_of_edge in He. destruct (_ || _); [done|]. destruct (target_file _) as [to|]; [|done]. cbn [mbind option_bind] in He.
  destruct (bool_decide _ || _ || _); [done|]. destruct (_ && _); [done|].
  destruct (bool_decide (scope_of view (g_file_path e) = scope_of view to)) eqn:Eb; [done|]. apply bool_decide_eq_false in Eb.
  destruct (_ || _); [done|]. injection He as H1 H2 _. congruence.
Qed.

(** What a hop shows: the first of the imports behind it, and how many there are. *)
Definition shows (p : string * string) (h : Hop) : Prop :=
  ∃ ex, ex ∈ examples_of p ∧ (∀ ex', ex' ∈ examples_of p → example_le ex ex' = true) ∧
    h = mkHop (ex_from ex) (ex_to ex) (ex_line ex) (length (examples_of p)) (ex_kind ex).

Lemma shown_hop_spec x y : imports x y → ∃ h, shown_hop (x, y) = Some h ∧ shows (x, y) h.
Proof.
  unfold imports, shown_hop, shows. intros Hne. rewrite hops_spec, bool_decide_eq_false_2 by done. cbn [mbind option_bind].
  pose proof (sort_by_sorted example_le example_le_total example_le_trans (examples_of (x, y))) as Hs.
  pose proof (sort_by_Permutation example_le (examples_of (x, y))) as Hp.
  destruct (sort_by _ _) as [|ex l] eqn:E; [by apply Permutation_nil in Hp|]. cbn.
  eexists. split; [done|]. exists ex. split; [rewrite <-Hp; left|]. split; [|by rewrite <-Hp].
  intros ex' Hin. rewrite <-Hp in Hin. inversion Hs as [|? ? _ Hall]; subst.
  apply elem_of_cons in Hin as [->|Hin]; [by destruct (example_le_total ex ex)|]. rewrite Forall_forall in Hall. by apply Hall.
Qed.

Lemma cycle_hops_imports c : simple_cycle imports c → Forall (λ p, imports p.1 p.2) (cycle_hops c).
Proof.
  destruct c as [|h t]; [done|]. intros [_ Hc]. cbn [cycle_hops]. cbn [app] in Hc.
  assert (Hgen : ∀ t h l, chain imports (h :: t ++ [l]) → Forall (λ p, imports p.1 p.2) (zip (h :: t) (t ++ [l]))).
  { clear. induction t as [|x t IH]; intros h l [He Hc]; cbn; constructor; try done. by apply (IH x l). }
  by apply Hgen.
Qed.

Lemma listed_cycle_spec c :
  simple_cycle imports c →
  ∃ hs, listed_cycle c = Some (c, hs) ∧
    (if bool_decide (detail_level request = "minimal") then hs = [] else Forall2 shows (cycle_hops c) hs).
Proof.
  intros Hc. unfold listed_cycle. destruct (decide (detail_level request = "minimal")) as [Hd|Hd].
  { rewrite (bool_decide_eq_true_2 (_ = _)), (bool_decide_eq_false_2 (_ ≠ _)) by naive_solver. by exists []. }
  rewrite (bool_decide_eq_false_2 (_ = _)), (bool_decide_eq_true_2 (_ ≠ _)) by done. cbn [negb].
  assert (Hall : ∀ l, Forall (λ p, imports p.1 p.2) l → ∃ hs, mapM shown_hop l = Some hs ∧ Forall2 shows l hs).
  { induction 1 as [|[x y] l Hp _ (hs & Hm & Hf)]; [by exists []|].
    destruct (shown_hop_spec x y Hp) as (h & Hh & Hs). exists (h :: hs).
    cbn. rewrite Hh. cbn. rewrite Hm. split; [done|]. by constructor. }
  destruct (Hall _ (cycle_hops_imports c Hc)) as (hs & -> & Hf). by exists hs.
Qed.

Lemma listed_all cs :
  (∀ c, c ∈ cs → simple_cycle imports c) →
  ∃ l, mapM listed_cycle cs = Some l ∧ l.*1 = cs ∧
    ∀ c hs, (c, hs) ∈ l → if bool_decide (detail_level request = "minimal") then hs = [] else Forall2 shows (cycle_hops c) hs.
Proof.
  induction cs as [|c cs IH]; intros Hcs.
  { exists []. split; [done|]. split; [done|]. intros c hs. by rewrite elem_of_nil. }
  destruct (listed_cycle_spec c) as (hs & Hl & Hhs); [apply Hcs; left|].
  destruct IH as (l & Hm & Hfst & Hall); [intros c' Hc'; apply Hcs; by right|].
  exists ((c, hs) :: l). cbn. rewrite Hl. cbn. rewrite Hm. cbn. split; [done|]. split; [by rewrite Hfst|].
  intros c' hs' [[= -> ->]|Hin]%elem_of_cons; [done|by apply Hall].
Qed.

Lemma simple_cycle_mono (E F : relation string) c : (∀ x y, E x y → F x y) → simple_cycle E c → simple_cycle F c.
Proof.
  intros HEF. destruct c as [|h t]; [done|]. intros [Hn Hc]. split; [done|].
  apply (chain_mono E F); [|done]. intros x y _ _. apply HEF.
Qed.

(** C22: The import cycles listed are the cycles of the imports: the analysis never
    panics; at most two hundred cycles are listed, in order, each a simple cycle
    of imports between scopes read from its smallest scope, no two of them the
    same cycle; unless the answer is minimal, each of its hops shows the first of
    the imports behind it and their number; and when the answer is not truncated
    every simple cycle of imports is listed, and all that were found. *)
Theorem import_listing_spec :
  ∃ answer, import_cycles = Some answer ∧
    length (cycles answer) ≤ MAX_CYCLES ∧
    StronglySorted (λ x y, scopes_le x y = true) (cycles answer).*1 ∧
    (∀ c hs, (c, hs) ∈ cycles answer → simple_cycle imports c ∧ smallest_first c ∧
       if bool_decide (detail_level request = "minimal") then hs = [] else Forall2 shows (cycle_hops c) hs) ∧
    (∀ i j ci cj, (cycles answer).*1 !! i = Some ci → (cycles answer).*1 !! j = Some cj → rotation ci cj → i = j) ∧
    (truncated answer = false → found answer = length (cycles answer) ∧
       ∀ c, simple_cycle imports c → ∃ c' hs, rotation c c' ∧ (c', hs) ∈ cycles answer).
Proof.
  destruct (Scc.strongly_connected_ok adjacency import_adjacency_closed) as (cs & Hcs & Hok).
  unfold import_cycles. rewrite Hcs. cbn [mbind option_bind].
  pose proof (simple_cycles_ok MAX_CYCLES adjacency import_adjacency_closed no_loops cs Hok MAX_STEPS) as Hsc.
  unfold groups_of in Hsc. generalize dependent MAX_CYCLES. intros M Hsc.
  destruct (simple_cycles _ _ _ _) as [found complete]. destruct Hsc as (Hnd & Hlen & Hsound & Hall).
  assert (Hcyc : ∀ c, simple_cycle (Scc.edge adjacency) c ↔ simple_cycle imports c).
  { intros c. split; apply simple_cycle_mono; intros x y; apply import_adjacency_edge. }
  set (sorted := sort_by scopes_le found).
  assert (Hin : ∀ c, c ∈ take M sorted → c ∈ found).
  { intros c Hc. apply (elem_of_sort_by scopes_le). fold sorted. rewrite <-(take_drop M sorted). apply elem_of_app. by left. }
  destruct (listed_all (take M sorted)) as (l & Hm & Hfst & Hhs); [intros c Hc; by apply Hcyc, Hsound, Hin|].
  rewrite Hm. cbn [mbind option_bind]. eexists. split; [done|]. cbn [cycles ImportCycles.found truncated]. rewrite Hfst.
  assert (Hkeep : NoDup (take M sorted)).
  { apply (NoDup_app (take M sorted) (drop M sorted)). rewrite take_drop. unfold sorted. by rewrite sort_by_Permutation. }
  split_and!.
  - rewrite <-(length_fmap fst), Hfst, length_take. lia.
  - eapply (StronglySorted_app_1_l _ (take M sorted) (drop M sorted)). rewrite take_drop.
    apply sort_by_sorted; [apply scopes_le_total|apply scopes_le_trans].
  - intros c hs Hc. assert (Hc' : c ∈ take M sorted) by (rewrite <-Hfst; apply list_elem_of_fmap; by exists (c, hs)).
    destruct (Hsound c (Hin c Hc')) as [Hs Hf]. split_and!; [by apply Hcyc|done|by apply Hhs].
  - intros i j ci cj Hi Hj Hr. apply (NoDup_lookup _ _ _ _ Hkeep Hi). rewrite Hj. f_equal.
    destruct (Hsound ci (Hin ci ltac:(by eapply list_elem_of_lookup_2))) as [Hsi (mi & Hhi & Hli)].
    destruct (Hsound cj (Hin cj ltac:(by eapply list_elem_of_lookup_2))) as [_ (mj & Hhj & Hlj)].
    symmetry. apply (rotation_head_unique ci); [by eapply simple_cycle_NoDup|by exists [], ci; rewrite app_nil_r|done|].
    rewrite Hhi, Hhj. f_equal. pose proof (rotation_Permutation _ _ Hr) as Hp. apply string_leb_antisym.
    + apply Hli. rewrite Hp. destruct cj; [done|]. injection Hhj as ->. left.
    + apply Hlj. rewrite <-Hp. destruct ci; [done|]. injection Hhi as ->. left.
  - intros [Hcomp Hle]%orb_false_iff. apply negb_false_iff in Hcomp. apply Nat.ltb_ge in Hle.
    rewrite take_ge in Hfst by done. split; [by rewrite <-Hfst, length_fmap|].
    intros c Hc. destruct (least c) as (m & Hmin & Hleast); [by destruct c|].
    destruct (rotation_to c m Hmin) as (t & Hr). pose proof (rotation_Permutation _ _ Hr) as Hp.
    assert (Hin' : m :: t ∈ l.*1).
    { rewrite Hfst. apply elem_of_sort_by. apply Hall; [done|by apply Hcyc, (rotation_simple_cycle imports c)|].
      exists m. split; [done|]. intros x Hx. apply Hleast. by rewrite Hp. }
    apply list_elem_of_fmap in Hin' as ([c' hs] & Heq & Hl). cbn in Heq. subst c'. by exists (m :: t), hs.
Qed.

End import_cycles.

End ImportCycles.
