(* ===== verification/EntryPoints.v ===== *)
(** * Entry points

    Models crates/dagayn-tools/src/entry_points.rs and
    crates/dagayn-graph/src/flow_trace.rs: what makes a node an entry point, the
    backwards search for the entry points that reach some targets, and the listing
    of all of a repository.  The search knows the graph through the class
    [CallGraph] and its laws; the store is an instance.  Regular expressions are
    matched by a library and enter as a parameter. *)
From S2P Require Import Prelude Graphs GraphData Store StoreSpec Impact ArchFindings.
Import Graphs GraphData Impact.

Module EntryPoints.

#[local] Set Default Proof Using "Type".

(** ** What is an entry point *)

(** Source: crates/dagayn-tools/src/entry_points.rs 28 [MAX_VISITED]. *)
Definition MAX_VISITED : nat := N.to_nat 10000.

(** Source: crates/dagayn-tools/src/entry_points.rs 31-33 [NO_TOP_LEVEL_CODE]. *)
Definition NO_TOP_LEVEL_CODE : list string :=
  ["rust"; "go"; "java"; "kotlin"; "c"; "cpp"; "csharp"; "swift"; "scala"; "dart"; "zig"; "objc"].

(** Source: crates/dagayn-tools/src/entry_points.rs 379-387 [KIND_ORDER]. *)
Definition KIND_ORDER : list string :=
  ["main"; "framework_handler"; "ffi_export"; "named_entry"; "module_level"; "dispatched_method"; "uncalled"].

(** Source: crates/dagayn-graph/src/flow_trace.rs 134-140 [test_file_re]. *)
Definition test_file_re : string :=
  "([\\/]__tests__[\\/]|\.(spec|test|cy)\.[cm]?[jt]sx?$|[\\/]test_[^/\\]*\.py$)".

(** Source: crates/dagayn-graph/src/flow_trace.rs 142-178 [decorator_res]. *)
Definition decorator_res : list string :=
  ["(?i)app\.(get|post|put|delete|patch|route|websocket|on_event)";
   "(?i)router\.(get|post|put|delete|patch|route)";
   "(?i)blueprint\.(route|before_request|after_request)";
   "(?i)(before|after)_(request|response)";
   "(?i)click\.(command|group)";
   "(?i)\w+\.(command|group)\b";
   "(?i)(field|model)_(serializer|validator)";
   "(?i)(celery\.)?(task|shared_task|periodic_task)";
   "(?i)receiver";
   "(?i)api_view";
   "(?i)\baction\b";
   "pytest\.(fixture|mark)";
   "(?i)(override_settings|modify_settings)";
   "(?i)(event\.)?listens_for";
   "(?i)(Get|Post|Put|Delete|Patch|RequestMapping)Mapping";
   "(?i)(Scheduled|EventListener|Bean|Configuration)";
   "(?i)(Component|Injectable|Controller|Module|Guard|Pipe)";
   "(?i)(Subscribe|Mutation|Query|Resolver)";
   "^(Get|Post|Put|Delete|Patch|Options|Head|All)$";
   "^(MessagePattern|EventPattern|Cron|Interval|Timeout|OnEvent|Process|Processor|SubscribeMessage|WebSocketGateway|HostListener)$";
   "(app|router)\.(get|post|put|delete|patch|use|all)\b";
   "(?i)@(Override|OnLifecycleEvent|Composable)";
   "(?i)(HiltViewModel|AndroidEntryPoint|Inject)";
   "(?i)\w+\.(tool|tool_plain|prompt|resource|system_prompt|result_validator)\b";
   "^tool\b";
   "(?i)\w+\.(middleware|exception_handler|on_exception)\b";
   "(?i)\w+\.route\b"].

(** Source: crates/dagayn-graph/src/flow_trace.rs 180-211 [entry_name_res]. *)
Definition entry_name_res : list string :=
  ["^main$"; "^__main__$"; "^test_"; "^Test[A-Z]"; "^on_"; "^handle_"; "^handler$"; "^handle$"; "^lambda_handler$";
   "^upgrade$"; "^downgrade$"; "^lifespan$"; "^get_db$";
   "^on(Create|Start|Resume|Pause|Stop|Destroy|Bind|Receive)";
   "^do(Get|Post|Put|Delete)$";
   "^do_(GET|POST|PUT|DELETE|PATCH|HEAD|OPTIONS)$";
   "^log_message$";
   "^(middleware|errorHandler)$";
   "^ng(OnInit|OnChanges|OnDestroy|DoCheck|AfterContentInit|AfterContentChecked|AfterViewInit|AfterViewChecked)$";
   "^(transform|writeValue|registerOnChange|registerOnTouched|setDisabledState)$";
   "^(canActivate|canDeactivate|canActivateChild|canLoad|canMatch|resolve)$";
   "^(componentDidMount|componentDidUpdate|componentWillUnmount|shouldComponentUpdate|render)$"].

(** What the search asks of a graph: the calls, and nodes by name. *)
Class CallGraph `{Json} := {
  calls_out : gmap string (list string);
  find : list string → Result (gmap string GraphNode)
}.

(** Its promise: a node asked for by the name of a caller is the one of that name,
    if there is one. *)
Class CallGraphLaws `{CallGraph} := {
  node_of : string → option GraphNode;
  node_of_name : ∀ q n, node_of q = Some n → n_qualified_name n = q;
  find_ok : ∀ qns, (∀ q, q ∈ qns → q ∈ dom calls_out) →
    ∃ m, find qns = inl m ∧ ∀ q, m !! q = if bool_decide (q ∈ qns) then node_of q else None
}.

Section entry_points.
Context `{Json}.

(** [Regex::is_match] of a pattern and a text; the texts under a key of a JSON
    object that holds one or a list of them; whether a key holds a value that is
    not null. *)
Context (is_match : string → string → bool) (strings_at : Value → string → list string)
  (not_null : Value → string → bool).

(** Source: crates/dagayn-graph/src/flow_trace.rs 113-126 [has_framework_decorator]. *)
Definition has_framework_decorator (node : GraphNode) : bool :=
  existsb (λ value, existsb (λ pattern, is_match pattern value) decorator_res) (strings_at (n_extra node) "decorators").

(** Source: crates/dagayn-graph/src/flow_trace.rs 128-132 [matches_entry_name]. *)
Definition matches_entry_name (name : string) : bool := existsb (λ pattern, is_match pattern name) entry_name_res.

(** Source: crates/dagayn-graph/src/flow_trace.rs 96-98 [is_test_file]. *)
Definition is_test_file (file_path : string) : bool := is_match test_file_re file_path.

(** Source: crates/dagayn-graph/src/flow_trace.rs 101-103 [is_conventional_entry_point]. *)
Definition is_conventional_entry_point (node : GraphNode) : bool :=
  matches_entry_name (n_name node) || has_framework_decorator node.

(** Source: crates/dagayn-graph/src/flow_trace.rs 105-110 [is_entry_point]. *)
Definition is_entry_point (node : GraphNode) (is_called : bool) : bool :=
  if negb is_called then true else has_framework_decorator node || matches_entry_name (n_name node).

(** Source: crates/dagayn-tools/src/entry_points.rs 48-76 [entry_kind]. *)
Definition entry_kind (node : GraphNode) (has_callers : bool) : option string :=
  if bool_decide (n_kind node = "File") then
    let runs := negb (bool_decide (n_language node ∈ NO_TOP_LEVEL_CODE)) in
    if runs && negb has_callers then Some "module_level" else None
  else if bool_decide (n_name node ∈ ["main"; "__main__"]) then Some "main"
  else if has_framework_decorator node then Some "framework_handler"
  else if not_null (n_extra node) "ffi_export" then Some "ffi_export"
  else if has_callers then None
  else if is_conventional_entry_point node then Some "named_entry"
  else Some (match n_parent_name node with Some _ => "dispatched_method" | None => "uncalled" end).

(** ** The search *)

(** Source: crates/dagayn-tools/src/entry_points.rs 37-41 [Entry]. *)
Record Entry := mkEntry { e_node : GraphNode; e_kind : string; e_chain : list string }.

(** Source: crates/dagayn-tools/src/entry_points.rs 103-107 [Search]. *)
Record Search := mkSearch { entries : list Entry; reached : nat; truncated : bool }.

Section search.
Context `{!CallGraph} (max_visited : nat).

(** One callee of a source, in the lists of callers.

    Source: crates/dagayn-tools/src/entry_points.rs 115-120 [search]. *)
Definition add_caller (source : string) (callers : gmap string (list string)) (callee : string) : gmap string (list string) :=
  let list := default [] (callers !! callee) in
  <[callee := if bool_decide (source ∈ list) then list else list ++ [source]]> callers.

(** The calls of a map come in no order that matters: the lists are sorted.

    Source: crates/dagayn-tools/src/entry_points.rs 113-124 [search]. *)
Definition callers : gmap string (list string) :=
  sort_by String.leb <$>
    foldl (λ callers '(source, targets), foldl (add_caller source) callers targets) ∅ (map_to_list calls_out).

Definition callers_of (qn : string) : list string := default [] (callers !! qn).

(** Source: crates/dagayn-tools/src/entry_points.rs 143 [search]. *)
Definition has_callers (qn : string) : bool := negb (bool_decide (callers_of qn = [])).

(** Follow [next] from a name: at most [fuel] names.

    Source: crates/dagayn-tools/src/entry_points.rs 148-151 [search]. *)
Fixpoint chain_from (fuel : nat) (next : gmap string (option string)) (qn : string) : option (list string) :=
  match fuel with
  | 0 => None
  | S fuel =>
      match next !! qn with
      | Some (Some step) => chain ← chain_from fuel next step; Some (qn :: chain)
      | _ => Some [qn]
      end
  end.

(** Source: crates/dagayn-tools/src/entry_points.rs 146 [search]. *)
Definition kind_at (depth : nat) (node : GraphNode) : option string :=
  let has := has_callers (n_qualified_name node) in
  if (0 <? depth) || negb has then entry_kind node has else None.

(** Source: crates/dagayn-tools/src/entry_points.rs 163-167 [search]. *)
Definition want (next : gmap string (option string)) (wanted : list string) (caller : string) : list string :=
  if bool_decide (caller ∈ dom next) || bool_decide (caller ∈ wanted) then wanted else wanted ++ [caller].

(** One node of a level: its entry, and the callers wanted of it.

    Source: crates/dagayn-tools/src/entry_points.rs 141-168 [search]. *)
Definition visit (depth : nat) (next : gmap string (option string)) (st : list Entry * list string) (node : GraphNode)
    : option (list Entry * list string) :=
  let '(entries, wanted) := st in
  let qn := n_qualified_name node in
  let callers_wanted := foldl (want next) wanted (callers_of qn) in
  match kind_at depth node with
  | Some kind =>
      chain ← chain_from (S depth) next qn;
      let entries := entries ++ [mkEntry node kind chain] in
      Some (entries, if 0 <? depth then wanted else callers_wanted)
  | None => Some (entries, callers_wanted)
  end.

Record climb := mkClimb { nexts : gmap string (option string); upper : list GraphNode; cut : bool }.

(** The callers of one node of a level; [None] of the inner loop is its break.

    Source: crates/dagayn-tools/src/entry_points.rs 176-192 [search]. *)
Fixpoint climb_callers (nodes : gmap string GraphNode) (qn : string) (callers : list string) (c : climb) : climb :=
  match callers with
  | [] => c
  | caller :: callers =>
      if bool_decide (caller ∈ dom (nexts c)) then climb_callers nodes qn callers c
      else
        match nodes !! caller with
        | None => climb_callers nodes qn callers c
        | Some found =>
            if negb (ArchFindings.is_production_code found (n_file_path found)) then climb_callers nodes qn callers c
            else if max_visited <? size (nexts c) then mkClimb (nexts c) (upper c) true
            else climb_callers nodes qn callers (mkClimb (<[caller := Some qn]> (nexts c)) (upper c ++ [found]) (cut c))
        end
  end.

(** Source: crates/dagayn-tools/src/entry_points.rs 173-193 [search]. *)
Definition climb_level (nodes : gmap string GraphNode) (level : list GraphNode) (c : climb) : climb :=
  foldl (λ c node, climb_callers nodes (n_qualified_name node) (callers_of (n_qualified_name node)) c) c level.

(** A fold that stops at a failure. *)
Definition visit_level (depth : nat) (next : gmap string (option string)) (entries : list Entry) (level : list GraphNode)
    : option (list Entry * list string) :=
  foldl (λ st node, st ← st; visit depth next st node) (Some (entries, [])) level.

(** The loop over the levels; [None] also where the fuel runs out.

    Source: crates/dagayn-tools/src/entry_points.rs 138-196 [search]. *)
Fixpoint levels (fuel depth : nat) (level : list GraphNode) (next : gmap string (option string)) (entries : list Entry)
    (truncated : bool) : option (list Entry * gmap string (option string) * bool) :=
  match level with
  | [] => Some (entries, next, truncated)
  | _ :: _ =>
      match fuel with
      | 0 => None
      | S fuel =>
          '(entries, wanted) ← visit_level depth next entries level;
          match wanted with
          | [] => Some (entries, next, truncated)
          | _ :: _ =>
              match find wanted with
              | inr _ => None
              | inl nodes =>
                  let c := climb_level nodes level (mkClimb next [] truncated) in
                  levels fuel (S depth) (upper c) (nexts c) entries (cut c)
              end
          end
      end
  end.

(** Source: crates/dagayn-tools/src/entry_points.rs 127-133 [search]. *)
Definition start (targets : list GraphNode) : gmap string (option string) * list GraphNode :=
  foldl (λ st target,
    let qn := n_qualified_name target in
    (<[qn := None]> st.1, if bool_decide (qn ∈ dom st.1) then st.2 else st.2 ++ [target]))
    (∅, []) targets.

(** Source: crates/dagayn-tools/src/entry_points.rs 197-199 [search]. *)
Definition shorter (a b : Entry) : bool :=
  match length (e_chain a) ?= length (e_chain b) with
  | Lt => true
  | Gt => false
  | Eq => String.leb (n_qualified_name (e_node a)) (n_qualified_name (e_node b))
  end.

(** Enough rounds: each but the first and the last finds a caller. *)
Definition search_fuel : nat := size calls_out + 2.

(** Source: crates/dagayn-tools/src/entry_points.rs 111-205 [search]. *)
Definition search (targets : list GraphNode) : option Search :=
  let '(next, level) := start targets in
  '(entries, next', truncated) ← levels search_fuel 0 level next [] false;
  Some (mkSearch (sort_by shorter entries) (size next' - size next) truncated).

End search.
(** ** What the search finds *)

Section correctness.
Context `{!CallGraph, !CallGraphLaws} (max_visited : nat) (targets : list GraphNode).

(** Calls, as the search reads them backwards. *)
Definition calls (x y : string) : Prop := x ∈ callers_of y.

Definition is_target (x : string) : Prop := x ∈ n_qualified_name <$> targets.

(** The node of a name: the target of that name, or the graph's. *)
Definition node_at (x : string) : option GraphNode :=
  match list_find (λ n, n_qualified_name n = x) targets with Some (_, n) => Some n | None => node_of x end.

Definition production (x : string) : Prop :=
  ∃ n, node_of x = Some n ∧ ArchFindings.is_production_code n (n_file_path n) = true.

(** Why a node that is reached starts an execution, if it does: a target only
    where nothing calls it. *)
Definition kind_of (x : string) (n : GraphNode) : option string :=
  if bool_decide (is_target x) && has_callers x then None else entry_kind n (has_callers x).

Definition stops (x : string) : Prop := ¬ is_target x ∧ ∃ n kind, node_at x = Some n ∧ kind_of x n = Some kind.

(** The search steps from a name that does not stop it to a production caller. *)
Definition step (y x : string) : Prop := calls x y ∧ production x ∧ ¬ is_target x ∧ ¬ stops y.

#[local] Abbreviation dist := (distance step is_target).

Lemma callers_spec x y : calls x y ↔ ∃ ts, calls_out !! x = Some ts ∧ y ∈ ts.
Proof.
  clear is_match strings_at not_null max_visited targets. unfold calls, callers_of, callers. rewrite lookup_fmap.
  assert (Hadd : ∀ source ts m x y, x ∈ default [] (foldl (add_caller source) m ts !! y) ↔
    x ∈ default [] (m !! y) ∨ (x = source ∧ y ∈ ts)).
  { clear. intros source. induction ts as [|t ts IH]; intros m x y; cbn [foldl]; [set_solver|].
    rewrite IH, elem_of_cons. unfold add_caller. destruct (decide (y = t)) as [->|Hn].
    - rewrite lookup_insert_eq. cbn. case_bool_decide; [naive_solver|]. rewrite elem_of_app, list_elem_of_singleton. tauto.
    - rewrite lookup_insert_ne by done. tauto. }
  assert (Hall : ∀ l m x y, x ∈ default [] (foldl (λ m '(source, ts), foldl (add_caller source) m ts) m l !! y) ↔
    x ∈ default [] (m !! y) ∨ ∃ ts, (x, ts) ∈ l ∧ y ∈ ts).
  { clear -Hadd. induction l as [|[source ts] l IH]; intros m x y; cbn [foldl]; [set_solver|].
    rewrite IH, Hadd. setoid_rewrite elem_of_cons. naive_solver. }
  set (m := foldl _ _ _). assert (Hm : x ∈ default [] (sort_by String.leb <$> m !! y) ↔ x ∈ default [] (m !! y)).
  { destruct (m !! y); cbn; [by rewrite elem_of_sort_by|done]. }
  rewrite Hm. unfold m. rewrite Hall, lookup_empty. cbn. setoid_rewrite elem_of_map_to_list. set_solver.
Qed.

Lemma caller_in_graph x y : calls x y → x ∈ dom calls_out.
Proof. rewrite callers_spec. intros (ts & Hts & _). by apply elem_of_dom_2 in Hts. Qed.

Lemma dist_0 x : dist x 0 ↔ is_target x.
Proof.
  split; [intros [(s & Hs & Hn) _]; inversion Hn; by subst|]. intros Ht. split; [|lia]. exists x. split; [done|constructor].
Qed.

Lemma dist_S_target x k : dist x (S k) → ¬ is_target x.
Proof. intros Hd Ht. apply dist_0 in Ht. by pose proof (distance_unique _ _ _ _ _ Hd Ht). Qed.

Lemma kind_at_of depth n : dist (n_qualified_name n) depth → kind_at depth n = kind_of (n_qualified_name n) n.
Proof.
  intros Hd. unfold kind_at, kind_of. destruct depth as [|depth]; cbn.
  - rewrite bool_decide_eq_true_2 by by apply dist_0. cbn. by destruct (has_callers _).
  - rewrite bool_decide_eq_false_2 by (by apply dist_S_target in Hd). done.
Qed.

(** What holds of the names seen when a level is about to be visited. *)
Record walked (depth : nat) (level : list GraphNode) (next : gmap string (option string)) (truncated : bool) : Prop := {
  w_dist : ∀ x, x ∈ dom next → ∃ k, k ≤ depth ∧ dist x k;
  w_all : truncated = false → ∀ x k, dist x k → k ≤ depth → x ∈ dom next;
  w_target : ∀ x, is_target x ↔ next !! x = Some None;
  w_step : ∀ x y, next !! x = Some (Some y) → calls x y ∧ y ∈ dom next ∧ ∃ k, dist y k ∧ dist x (S k);
  w_nodup : NoDup (n_qualified_name <$> level);
  w_level : ∀ n, n ∈ level → node_at (n_qualified_name n) = Some n ∧ n_qualified_name n ∈ dom next ∧ dist (n_qualified_name n) depth;
  w_whole : ∀ x, x ∈ dom next → dist x depth → x ∈ n_qualified_name <$> level;
  w_cut : truncated = true → max_visited < size next
}.

(** A chain of calls from an entry point to a target. *)
Definition chain_of (x : string) (k : nat) (l : list string) : Prop :=
  head l = Some x ∧ chain calls l ∧ length l = S k ∧ ∃ t, last l = Some t ∧ is_target t.

Lemma chain_from_spec depth level next truncated x k :
  walked depth level next truncated → x ∈ dom next → dist x k →
  ∃ l, chain_from (S k) next x = Some l ∧ chain_of x k l.
Proof.
  intros Hw. revert x. induction k as [|k IH]; intros x Hx Hd; cbn [chain_from].
  - apply dist_0 in Hd. rewrite (proj1 (w_target _ _ _ _ Hw x) Hd). exists [x]. split; [done|]. split_and!; try done. by exists x.
  - apply elem_of_dom in Hx as [[y|] Hy]; cycle 1.
    { apply (w_target _ _ _ _ Hw) in Hy. by apply dist_S_target in Hd. }
    rewrite Hy. destruct (w_step _ _ _ _ Hw x y Hy) as (Hc & Hyd & j & Hyj & Hxj).
    pose proof (distance_unique _ _ _ _ _ Hd Hxj) as [= <-]. destruct (IH y Hyd Hyj) as (l & Hl & Hh & Hch & Hlen & t & Ht & Htt).
    unfold chain_from in Hl. fold chain_from in Hl. rewrite Hl. cbn [mbind option_bind]. exists (x :: l). split; [done|].
    destruct l as [|y' l]; [done|]. injection Hh as ->. split_and!; [done|by split|cbn in *; lia|]. by exists t.
Qed.

Lemma elem_of_want next w cs x : x ∈ foldl (want next) w cs ↔ x ∈ w ∨ (x ∉ dom next ∧ x ∈ cs).
Proof.
  clear is_match strings_at not_null max_visited targets. revert w. induction cs as [|c cs IH]; intros w; cbn [foldl]; [set_solver|].
  rewrite IH, elem_of_cons. unfold want. destruct (decide (c ∈ dom next)) as [Hd|Hd].
  { rewrite bool_decide_eq_true_2 by done. cbn. naive_solver. }
  rewrite (bool_decide_eq_false_2 (c ∈ dom next)) by done. cbn. case_bool_decide; [naive_solver|].
  rewrite elem_of_app, list_elem_of_singleton. naive_solver.
Qed.

(** The entries a node gives. *)
Definition entries_of (depth : nat) (n : GraphNode) (new : list Entry) : Prop :=
  match kind_of (n_qualified_name n) n with
  | None => new = []
  | Some kind => ∃ l, chain_of (n_qualified_name n) depth l ∧ new = [mkEntry n kind l]
  end.

Lemma stops_level depth level next truncated n :
  walked depth level next truncated → n ∈ level →
  stops (n_qualified_name n) ↔ 0 < depth ∧ ∃ kind, kind_of (n_qualified_name n) n = Some kind.
Proof.
  intros Hw Hn. destruct (w_level _ _ _ _ Hw n Hn) as (Hat & _ & Hd). unfold stops. rewrite Hat.
  assert (Ht : ¬ is_target (n_qualified_name n) ↔ 0 < depth).
  { destruct depth; [rewrite <-dist_0|]; [split; [done|lia]|]. split; [lia|]. intros _. by apply dist_S_target in Hd. }
  rewrite Ht. naive_solver.
Qed.

Lemma visit_spec depth level next truncated n entries w :
  walked depth level next truncated → n ∈ level →
  ∃ new w', visit depth next (entries, w) n = Some (entries ++ new, w') ∧ entries_of depth n new ∧
    ∀ x, x ∈ w' ↔ x ∈ w ∨ (x ∉ dom next ∧ ¬ stops (n_qualified_name n) ∧ calls x (n_qualified_name n)).
Proof.
  intros Hw Hn. pose proof (stops_level _ _ _ _ _ Hw Hn) as Hst. destruct (w_level _ _ _ _ Hw n Hn) as (Hat & Hin & Hd).
  unfold visit, entries_of. rewrite (kind_at_of depth n Hd). destruct (kind_of _ n) as [kind|] eqn:Hk; cycle 1.
  { exists [], (foldl (want next) w (callers_of (n_qualified_name n))). split; [by rewrite app_nil_r|]. split; [done|].
    intros x. rewrite elem_of_want, Hst. unfold calls. naive_solver. }
  destruct (chain_from_spec _ _ _ _ _ _ Hw Hin Hd) as (l & Hl & Hlo).
  rewrite Hl. cbn [mbind option_bind]. eexists _, _. split; [done|]. split; [by exists l|]. intros x.
  destruct depth as [|depth]; cbn [Nat.ltb Nat.leb].
  - rewrite elem_of_want, Hst. apply dist_0 in Hd. unfold kind_of in Hk. rewrite bool_decide_eq_true_2 in Hk by done.
    cbn in Hk. destruct (has_callers _) eqn:Hc; [done|]. unfold has_callers in Hc. apply negb_false_iff, bool_decide_eq_true in Hc.
    unfold calls. rewrite Hc. set_solver by lia.
  - assert (Hs : stops (n_qualified_name n)) by (apply Hst; split; [lia|by exists kind]). tauto.
Qed.

Lemma visit_level_spec depth level next truncated l w :
  walked depth level next truncated → (∀ n, n ∈ l → n ∈ level) →
  ∃ news w', (∀ entries, foldl (λ st node, st ← st; visit depth next st node) (Some (entries, w)) l
      = Some (entries ++ concat news, w')) ∧ Forall2 (entries_of depth) l news ∧
    ∀ x, x ∈ w' ↔ x ∈ w ∨ (x ∉ dom next ∧ ∃ n, n ∈ l ∧ ¬ stops (n_qualified_name n) ∧ calls x (n_qualified_name n)).
Proof.
  intros Hw. revert w. induction l as [|n l IH]; intros w Hl.
  { exists [], w. split; [intros entries; cbn; by rewrite app_nil_r|]. split; [done|]. intros x. setoid_rewrite elem_of_nil. naive_solver. }
  assert (Hn : n ∈ level) by (apply Hl; left).
  destruct (visit_spec depth level next truncated n [] w Hw Hn) as (new & w1 & Hv & He & Hw1).
  destruct (IH w1) as (news & w' & Hf & Hnews & Hw'); [intros m Hm; apply Hl; by right|].
  exists (new :: news), w'. split; [|split].
  - intros entries. cbn [foldl concat mbind option_bind].
    destruct (visit_spec depth level next truncated n entries w Hw Hn) as (new2 & w2 & Hv2 & He2 & _).
    assert (Heq : visit depth next (entries, w) n = Some (entries ++ new, w1)).
    { unfold visit in Hv |- *. destruct (kind_at depth n); [|by injection Hv as <- <-; rewrite app_nil_r].
      destruct (chain_from _ _ _); cbn [mbind option_bind] in *; [|done]. injection Hv as <- <-. done. }
    rewrite Heq, Hf. by rewrite app_assoc.
  - by constructor.
  - intros x. rewrite Hw', Hw1. setoid_rewrite elem_of_cons. naive_solver.
Qed.

(** *** Climbing to the next level *)

Section climbing.
Context (depth : nat) (level : list GraphNode) (next : gmap string (option string)) (truncated : bool).
Context (wanted : list string) (nodes : gmap string GraphNode).
Context (Hw : walked depth level next truncated).
Context (Hwanted : ∀ x, x ∈ wanted ↔ x ∉ dom next ∧ ∃ n, n ∈ level ∧ ¬ stops (n_qualified_name n) ∧ calls x (n_qualified_name n)).
Context (Hnodes : ∀ q, nodes !! q = if bool_decide (q ∈ wanted) then node_of q else None).

(** What holds while the callers of a level are taken. *)
Record climbed (c : climb) : Prop := {
  c_keep : next ⊆ nexts c;
  c_new : ∀ x v, nexts c !! x = Some v → next !! x = Some v ∨
    (x ∉ dom next ∧ x ∈ wanted ∧ production x ∧ truncated = false ∧
     ∃ n, n ∈ level ∧ v = Some (n_qualified_name n) ∧ calls x (n_qualified_name n));
  c_nodup : NoDup (n_qualified_name <$> upper c);
  c_upper : ∀ n, n ∈ upper c → node_of (n_qualified_name n) = Some n ∧ n_qualified_name n ∈ dom (nexts c) ∧ n_qualified_name n ∉ dom next;
  c_whole : ∀ x, x ∈ dom (nexts c) → x ∉ dom next → x ∈ n_qualified_name <$> upper c;
  c_cut : cut c = true → max_visited < size (nexts c);
  c_cut_before : truncated = true → cut c = true
}.

Lemma climb_start : climbed (mkClimb next [] truncated).
Proof using Hw.
  constructor; cbn; [done|by left|constructor| | |apply (w_cut _ _ _ _ Hw)|done].
  - by intros n ?%not_elem_of_nil.
  - intros x ? ?. done.
Qed.

Lemma climb_insert c caller found n :
  climbed c → n ∈ level → calls caller (n_qualified_name n) → caller ∉ dom (nexts c) → nodes !! caller = Some found →
  ArchFindings.is_production_code found (n_file_path found) = true → size (nexts c) ≤ max_visited →
  climbed (mkClimb (<[caller := Some (n_qualified_name n)]> (nexts c)) (upper c ++ [found]) (cut c)).
Proof using Type*.
  intros [C1 C2 C3 C4 C5 C6 C7] Hn Hcall Hout Hfound Hprod Hsize.
  rewrite Hnodes in Hfound. destruct (decide (caller ∈ wanted)) as [Hwant|?]; cycle 1.
  { by rewrite bool_decide_eq_false_2 in Hfound. }
  rewrite bool_decide_eq_true_2 in Hfound by done. pose proof (node_of_name _ _ Hfound) as Hname.
  assert (Hnot : caller ∉ dom next) by (by apply Hwanted in Hwant as [? _]).
  assert (Htr : truncated = false).
  { destruct truncated; [|done]. specialize (C6 (C7 eq_refl)). lia. }
  constructor; cbn.
  - etrans; [exact C1|]. apply insert_subseteq. by apply not_elem_of_dom.
  - intros x v. destruct (decide (x = caller)) as [->|Hne].
    + rewrite lookup_insert_eq. intros [= <-]. right. split_and!; try done; [by exists found|by exists n].
    + rewrite lookup_insert_ne by done. apply C2.
  - rewrite fmap_app. apply NoDup_app. split; [done|]. split; [|apply NoDup_singleton]. cbn.
    intros x (m & -> & Hm)%list_elem_of_fmap Hx%list_elem_of_singleton. apply C4 in Hm as (_ & Hm & _). congruence.
  - intros m [Hm| ->%list_elem_of_singleton]%elem_of_app.
    + apply C4 in Hm as (? & ? & ?). split_and!; [done|rewrite dom_insert; by apply elem_of_union_r|done].
    + rewrite Hname. split_and!; [done| |done]. rewrite dom_insert. by apply elem_of_union_l, elem_of_singleton.
  - intros x. rewrite dom_insert, elem_of_union, elem_of_singleton, fmap_app, elem_of_app. cbn. rewrite list_elem_of_singleton, Hname.
    intros [->|Hx] Hnx; [by right|left; by apply C5].
  - intros Hc. specialize (C6 Hc). lia.
  - intros ?. by apply C7.
Qed.

Lemma climb_callers_spec n cs c :
  n ∈ level → (∀ x, x ∈ cs → calls x (n_qualified_name n)) → climbed c →
  let c' := climb_callers max_visited nodes (n_qualified_name n) cs c in
  climbed c' ∧ dom (nexts c) ⊆ dom (nexts c') ∧ (cut c = true → cut c' = true) ∧
  (cut c' = false → ∀ x, x ∈ cs → x ∈ wanted → production x → x ∈ dom (nexts c')).
Proof using Type*.
  intros Hn. revert c. induction cs as [|caller cs IH]; intros c Hcs Hc; cbn zeta; cbn [climb_callers].
  { split_and!; [done..|]. intros _ x Hx. by apply not_elem_of_nil in Hx. }
  assert (Hcs' : ∀ x, x ∈ cs → calls x (n_qualified_name n)) by (intros x Hx; apply Hcs; by right).
  case_bool_decide as Hin.
  { destruct (IH c Hcs' Hc) as (G1 & G2 & G3 & G4). split_and!; [done..|].
    intros Hcut x [->|Hx]%elem_of_cons Hwx Hpx; [by apply G2|by apply G4]. }
  assert (Hskip : ¬ (caller ∈ wanted ∧ production caller) → let c' := climb_callers max_visited nodes (n_qualified_name n) cs c in
    climbed c' ∧ dom (nexts c) ⊆ dom (nexts c') ∧ (cut c = true → cut c' = true) ∧
    (cut c' = false → ∀ x, x ∈ caller :: cs → x ∈ wanted → production x → x ∈ dom (nexts c'))).
  { intros Hno. destruct (IH c Hcs' Hc) as (G1 & G2 & G3 & G4). cbn zeta. split_and!; [done..|].
    intros Hcut x [->|Hx]%elem_of_cons Hwx Hpx; [by destruct Hno|by apply G4]. }
  destruct (nodes !! caller) as [found|] eqn:Hf; cycle 1.
  { apply Hskip. intros [Hwx (m & Hm & _)]. rewrite Hnodes, bool_decide_eq_true_2 in Hf by done. congruence. }
  destruct (ArchFindings.is_production_code found (n_file_path found)) eqn:Hp; cbn [negb]; cycle 1.
  { apply Hskip. intros [Hwx (m & Hm & Hmp)]. rewrite Hnodes, bool_decide_eq_true_2 in Hf by done. congruence. }
  destruct (max_visited <? size (nexts c)) eqn:Hs.
  { apply Nat.ltb_lt in Hs. destruct Hc as [C1 C2 C3 C4 C5 C6 C7]. cbn. split_and!; [|done..]. by constructor. }
  apply Nat.ltb_ge in Hs. pose proof (climb_insert c caller found n Hc Hn (Hcs caller ltac:(left)) Hin Hf Hp Hs) as Hc1.
  destruct (IH _ Hcs' Hc1) as (G1 & G2 & G3 & G4). cbn [nexts cut] in G2, G3. rewrite dom_insert in G2.
  split_and!; [done|set_solver|done|].
  intros Hcut x [->|Hx]%elem_of_cons Hwx Hpx; [apply G2; set_solver|by apply G4].
Qed.

Lemma climb_level_spec l c :
  (∀ n, n ∈ l → n ∈ level) → climbed c →
  let c' := climb_level max_visited nodes l c in
  climbed c' ∧ dom (nexts c) ⊆ dom (nexts c') ∧ (cut c = true → cut c' = true) ∧
  (cut c' = false → ∀ n x, n ∈ l → calls x (n_qualified_name n) → x ∈ wanted → production x → x ∈ dom (nexts c')).
Proof using Type*.
  revert c. induction l as [|n l IH]; intros c Hl Hc; cbn zeta.
  { cbn. split_and!; [done..|]. by intros _ n x ?%not_elem_of_nil. }
  unfold climb_level in *. cbn [foldl].
  destruct (climb_callers_spec n (callers_of (n_qualified_name n)) c (Hl n ltac:(left)) ltac:(done) Hc) as (G1 & G2 & G3 & G4).
  set (c1 := climb_callers _ _ _ _ c) in *.
  destruct (IH c1 ltac:(intros m Hm; apply Hl; by right) G1) as (K1 & K2 & K3 & K4).
  split_and!; [done|by etrans|auto|].
  intros Hcut m x [->|Hm]%elem_of_cons Hcall Hwx Hpx; [|by apply (K4 Hcut m)].
  apply K2, G4; [|done..]. destruct (cut c1); [|done]. by rewrite K3 in Hcut.
Qed.

(** The next level holds the names one step farther. *)
Lemma climbed_walked :
  let c := climb_level max_visited nodes level (mkClimb next [] truncated) in
  walked (S depth) (upper c) (nexts c) (cut c).
Proof using Type*.
  cbn zeta. destruct (climb_level_spec level _ ltac:(done) climb_start) as (Hc & _ & _ & Hall).
  set (c := climb_level _ _ _ _) in *. pose proof Hc as [C1 C2 C3 C4 C5 C6 C7].
  assert (Hnew : ∀ x, x ∈ dom (nexts c) → x ∉ dom next → dist x (S depth)).
  { intros x Hx Hnx. apply elem_of_dom in Hx as [v Hv]. destruct (C2 x v Hv) as [Hv'|(_ & Hwx & Hpx & Htr & _)].
    { by apply elem_of_dom_2 in Hv'. }
    apply Hwanted in Hwx as [_ (n & Hn & Hst & Hcall)]. destruct (w_level _ _ _ _ Hw n Hn) as (_ & _ & Hd).
    assert (Hnt : ¬ is_target x).
    { intros Ht. apply (w_target _ _ _ _ Hw) in Ht. by apply elem_of_dom_2 in Ht. }
    assert (Hno : ∀ m, m ≤ depth → ¬ dist x m) by (intros m Hm Hdm; by apply Hnx, (w_all _ _ _ _ Hw Htr x m)).
    split; [apply reached_S; exists (n_qualified_name n); split; [apply Hd|done]|].
    intros m Hm. induction (lt_wf m) as [m _ IH]. intros Hr. apply (Hno m); [lia|]. split; [done|]. intros k Hk. apply IH; lia. }
  constructor.
  - intros x Hx. destruct (decide (x ∈ dom next)) as [Hd|Hd]; [|exists (S depth); split; [done|by apply Hnew]].
    destruct (w_dist _ _ _ _ Hw x Hd) as (k & Hk & Hdk). exists k. split; [lia|done].
  - intros Hcut x k Hd Hk. assert (Htr : truncated = false).
    { destruct truncated; [|done]. by rewrite C7 in Hcut. }
    destruct (decide (k ≤ depth)) as [Hle|Hgt].
    { eapply subseteq_dom; [exact C1|]. by apply (w_all _ _ _ _ Hw Htr x k). }
    assert (k = S depth) as -> by lia. destruct (decide (x ∈ dom next)) as [Hx|Hx].
    { eapply subseteq_dom; [exact C1|done]. }
    apply distance_S in Hd as (y & Hy & Hcall & Hp & Ht & Hst).
    assert (Hyn : y ∈ n_qualified_name <$> level) by (apply (w_whole _ _ _ _ Hw); [by apply (w_all _ _ _ _ Hw Htr y depth)|done]).
    apply list_elem_of_fmap in Hyn as (n & -> & Hn). apply (Hall Hcut n x Hn Hcall); [|done]. apply Hwanted. split; [done|]. by exists n.
  - intros x. rewrite (w_target _ _ _ _ Hw). split; [intros Hx; by eapply lookup_weaken|].
    intros Hx. destruct (C2 x _ Hx) as [?|(_ & _ & _ & _ & n & _ & ? & _)]; done.
  - intros x y Hxy. destruct (C2 x _ Hxy) as [Hn|(Hnx & _ & _ & _ & n & Hn & [= ->] & Hcall)].
    + destruct (w_step _ _ _ _ Hw x y Hn) as (? & Hy & ?). split_and!; [done| |done]. eapply subseteq_dom; [exact C1|done].
    + destruct (w_level _ _ _ _ Hw n Hn) as (_ & Hin & Hd). split_and!; [done|eapply subseteq_dom; [exact C1|done]|].
      exists depth. split; [done|]. apply Hnew; [by apply elem_of_dom_2 in Hxy|done].
  - done.
  - intros n Hn. destruct (C4 n Hn) as (Hat & Hin & Hnin). pose proof (Hnew _ Hin Hnin) as Hd. split_and!; [|done..].
    unfold node_at. destruct (list_find _ targets) as [[i t]|] eqn:E; [|done]. exfalso.
    apply list_find_Some in E as (Ht & Hname & _). apply (dist_S_target _ _ Hd). unfold is_target. rewrite <-Hname.
    apply list_elem_of_fmap_2. by eapply list_elem_of_lookup_2.
  - intros x Hx Hd. apply C5; [done|]. intros Hxn. destruct (w_dist _ _ _ _ Hw x Hxn) as (k & Hk & Hdk).
    pose proof (distance_unique _ _ _ _ _ Hd Hdk). lia.
  - done.
Qed.

Lemma climb_grows :
  let c := climb_level max_visited nodes level (mkClimb next [] truncated) in
  upper c ≠ [] → size (dom calls_out ∖ dom (nexts c)) < size (dom calls_out ∖ dom next).
Proof using Type*.
  cbn zeta. destruct (climb_level_spec level _ ltac:(done) climb_start) as (Hc & Hdom & _).
  set (c := climb_level _ _ _ _) in *. intros Hu. destruct (upper c) as [|n l] eqn:E; [done|].
  destruct (c_upper c Hc n) as (_ & Hin & Hnin); [rewrite E; left|]. cbn in Hdom.
  apply subset_size, strict_spec_alt. split; [set_solver|]. intros Heq.
  assert (Hcall : n_qualified_name n ∈ dom calls_out).
  { apply elem_of_dom in Hin as [v Hv]. destruct (c_new c Hc _ _ Hv) as [Hv'|(_ & _ & _ & _ & m & _ & _ & Hcm)].
    - by apply elem_of_dom_2 in Hv'.
    - by apply caller_in_graph in Hcm. }
  assert (Hx : n_qualified_name n ∈ dom calls_out ∖ dom next) by set_solver. rewrite <-Heq in Hx. set_solver.
Qed.

End climbing.

(** *** The whole search *)

#[local] Abbreviation name := (λ e, n_qualified_name (e_node e)).

(** What holds of an entry at some distance. *)
Definition entry_ok (k : nat) (e : Entry) : Prop :=
  dist (name e) k ∧ node_at (name e) = Some (e_node e) ∧ kind_of (name e) (e_node e) = Some (e_kind e) ∧
  chain_of (name e) k (e_chain e).

(** What holds of the entries of the levels before a depth. *)
Record gathered (depth : nat) (found : list Entry) (next : gmap string (option string)) : Prop := {
  g_sound : ∀ e, e ∈ found → ∃ k, k < depth ∧ entry_ok k e;
  g_nodup : NoDup (name <$> found);
  g_all : ∀ x n kind k, x ∈ dom next → dist x k → k < depth → node_at x = Some n → kind_of x n = Some kind → x ∈ name <$> found
}.

Lemma visited_entries depth level next truncated news :
  walked depth level next truncated → Forall2 (entries_of depth) level news →
  (∀ e, e ∈ concat news → e_node e ∈ level ∧ entry_ok depth e) ∧ NoDup (name <$> concat news) ∧
  (∀ n kind, n ∈ level → kind_of (n_qualified_name n) n = Some kind → n_qualified_name n ∈ name <$> concat news).
Proof.
  intros Hw. pose proof (w_level _ _ _ _ Hw) as Hl. pose proof (w_nodup _ _ _ _ Hw) as Hnd. clear Hw. revert news Hl Hnd.
  induction level as [|n l IH]; intros news Hl Hnd Hf; inversion Hf as [|? new ? news' Hn Hf']; subst; cbn [concat].
  { split_and!; [by intros e ?%not_elem_of_nil|constructor|by intros n kind ?%not_elem_of_nil]. }
  rewrite fmap_cons in Hnd. apply NoDup_cons in Hnd as [Hnew Hnd].
  destruct (IH news' ltac:(intros m Hm; apply Hl; by right) Hnd Hf') as (I1 & I2 & I3).
  destruct (Hl n ltac:(left)) as (Hat & _ & Hd). unfold entries_of in Hn.
  destruct (kind_of (n_qualified_name n) n) as [kind|] eqn:Hk; [destruct Hn as (chain & Hc & ->)|subst new]; cbn [app].
  - split_and!.
    + intros e [->|He]%elem_of_cons; [split; [left|done]|]. destruct (I1 e He) as [? ?]. split; [by right|done].
    + rewrite fmap_cons. apply NoDup_cons. split; [|done]. intros (e & Heq & He)%list_elem_of_fmap. cbn in Heq.
      apply Hnew. rewrite Heq. apply list_elem_of_fmap_2 with (f := n_qualified_name). by apply I1.
    + intros m kind' [->|Hm]%elem_of_cons Hk'; rewrite fmap_cons; [left|right; by eapply I3].
  - split_and!; [|done|].
    + intros e He. destruct (I1 e He) as [? ?]. split; [by right|done].
    + intros m kind' [->|Hm]%elem_of_cons Hk'; [congruence|by eapply I3].
Qed.

Lemma gathered_step depth level next truncated found news :
  walked depth level next truncated → gathered depth found next → Forall2 (entries_of depth) level news →
  gathered (S depth) (found ++ concat news) next.
Proof.
  intros Hw [Q1 Q2 Q3] Hf. destruct (visited_entries _ _ _ _ _ Hw Hf) as (I1 & I2 & I3). constructor.
  - intros e [He|He]%elem_of_app; [destruct (Q1 e He) as (k & Hk & Hok); exists k; split; [lia|done]|].
    exists depth. split; [lia|by apply I1].
  - rewrite fmap_app. apply NoDup_app. split; [done|]. split; [|done].
    intros x (e & -> & He)%list_elem_of_fmap (e' & Heq & He')%list_elem_of_fmap.
    destruct (Q1 e He) as (k & Hk & Hd & _). destruct (I1 e' He') as [_ (Hd' & _)]. rewrite <-Heq in Hd'.
    pose proof (distance_unique _ _ _ _ _ Hd Hd'). lia.
  - intros x n kind k Hx Hd Hk Hat Hkind. rewrite fmap_app. apply elem_of_app.
    destruct (decide (k = depth)) as [->|Hne]; [right|left; eapply Q3; eauto; lia].
    pose proof (w_whole _ _ _ _ Hw x Hx Hd) as (m & -> & Hm)%list_elem_of_fmap.
    destruct (w_level _ _ _ _ Hw m Hm) as (Hatm & _). rewrite Hatm in Hat. injection Hat as <-. by eapply I3.
Qed.

(** The answer of the loop over the levels. *)
Definition answers (found : list Entry) (next : gmap string (option string)) (truncated : bool) : Prop :=
  (∃ depth, gathered depth found next ∧ ∀ x, x ∈ dom next → ∃ k, k < depth ∧ dist x k) ∧
  (truncated = false → ∀ x k, dist x k → x ∈ dom next) ∧ (truncated = true → max_visited < size next).

Lemma answers_end depth level next truncated found :
  walked depth level next truncated → gathered (S depth) found next →
  (truncated = false → ∀ x, ¬ dist x (S depth)) → answers found next truncated.
Proof.
  intros Hw Hg Hend. split; [|split].
  - exists (S depth). split; [done|]. intros x Hx. destruct (w_dist _ _ _ _ Hw x Hx) as (k & Hk & Hd). exists k. split; [lia|done].
  - intros Htr x k Hd. destruct (decide (k ≤ depth)) as [Hle|Hgt]; [by apply (w_all _ _ _ _ Hw Htr x k)|].
    destruct (distance_below _ _ x k (S depth) Hd ltac:(lia)) as [y Hy]. by destruct (Hend Htr y).
  - apply (w_cut _ _ _ _ Hw).
Qed.

Lemma levels_spec fuel depth level next found truncated :
  walked depth level next truncated → gathered depth found next →
  (level ≠ [] → size (dom calls_out ∖ dom next) < fuel) →
  ∃ found' next' truncated', levels max_visited fuel depth level next found truncated = Some (found', next', truncated') ∧
    next ⊆ next' ∧ answers found' next' truncated'.
Proof.
  revert depth level next found truncated. induction fuel as [|fuel IH]; intros depth level next found truncated Hw Hg Hfuel.
  all: destruct level as [|n0 level0]; cbn [levels].
  1, 3: exists found, next, truncated; split; [done|]; split; [done|]; apply (answers_end depth [] next truncated found Hw).
  1, 3: pose proof (gathered_step _ _ _ _ _ [] Hw Hg ltac:(constructor)) as Hg'; cbn in Hg'; by rewrite app_nil_r in Hg'.
  1, 2: intros Htr x (y & Hy & _)%distance_S; pose proof (w_all _ _ _ _ Hw Htr y depth Hy ltac:(done)) as Hyd;
    by pose proof (w_whole _ _ _ _ Hw y Hyd Hy) as ?%not_elem_of_nil.
  { specialize (Hfuel ltac:(done)). lia. }
  remember (n0 :: level0) as level eqn:Hlevel.
  destruct (visit_level_spec depth level next truncated level [] Hw ltac:(done)) as (news & wanted & Hv & Hnews & Hwant).
  unfold visit_level. rewrite Hv. cbn [mbind option_bind].
  pose proof (gathered_step _ _ _ _ _ _ Hw Hg Hnews) as Hg'.
  assert (Hwant' : ∀ x, x ∈ wanted ↔ x ∉ dom next ∧ ∃ n, n ∈ level ∧ ¬ stops (n_qualified_name n) ∧ calls x (n_qualified_name n)).
  { intros x. rewrite Hwant. rewrite elem_of_nil. tauto. }
  destruct wanted as [|w0 wanted0] eqn:Hwd.
  { exists (found ++ concat news), next, truncated. split; [done|]. split; [done|]. apply (answers_end depth level next truncated _ Hw Hg').
    intros Htr x Hd. pose proof Hd as (y & Hy & Hcall & _ & _ & Hst)%distance_S.
    pose proof (w_whole _ _ _ _ Hw y (w_all _ _ _ _ Hw Htr y depth Hy ltac:(done)) Hy) as (n & -> & Hn)%list_elem_of_fmap.
    apply (not_elem_of_nil x), Hwant'. split; [|by exists n]. intros Hx. destruct (w_dist _ _ _ _ Hw x Hx) as (k & Hk & Hdk).
    pose proof (distance_unique _ _ _ _ _ Hd Hdk). lia. }
  rewrite <-Hwd in *. destruct (find_ok wanted) as (nodes & Hfind & Hnodes).
  { intros q (_ & n & _ & _ & Hc)%Hwant'. by apply caller_in_graph in Hc. }
  rewrite Hfind. pose proof (climbed_walked _ _ _ _ _ _ Hw Hwant' Hnodes) as Hw'.
  pose proof (climb_grows _ _ _ _ _ _ Hw Hwant' Hnodes) as Hgrow. cbn zeta in Hw', Hgrow.
  destruct (climb_level_spec _ _ _ _ _ _ Hw Hwant' Hnodes level _ ltac:(done) (climb_start _ _ _ _ _ Hw)) as (Hc & _). cbn zeta in Hc.
  set (c := climb_level _ _ _ _) in *.
  destruct (IH (S depth) (upper c) (nexts c) (found ++ concat news) (cut c) Hw') as (f' & n' & t' & Hl & Hsub & Ha).
  - destruct Hg' as [Q1 Q2 Q3]. constructor; [done..|]. intros x n kind k Hx Hd Hk. apply (Q3 x n kind k); [|done..].
    destruct (decide (x ∈ dom next)) as [|Hnx]; [done|]. pose proof (c_whole _ _ _ _ _ Hc x Hx Hnx) as (m & -> & Hm)%list_elem_of_fmap.
    destruct (w_level _ _ _ _ Hw' m Hm) as (_ & _ & Hd'). pose proof (distance_unique _ _ _ _ _ Hd Hd'). lia.
  - intros Hu. specialize (Hgrow Hu). specialize (Hfuel ltac:(by rewrite Hlevel)). lia.
  - exists f', n', t'. split; [done|]. split; [|done]. etrans; [apply (c_keep _ _ _ _ _ Hc)|done].
Qed.

Lemma start_level_spec :
  let st := start targets in
  (∀ x, x ∈ dom st.1 ↔ is_target x) ∧ (∀ x v, st.1 !! x = Some v → v = None) ∧ NoDup (n_qualified_name <$> st.2) ∧
  (∀ n, n ∈ st.2 → node_at (n_qualified_name n) = Some n) ∧ (∀ x, x ∈ n_qualified_name <$> st.2 ↔ is_target x).
Proof.
  unfold start, node_at, is_target. clear max_visited is_match strings_at not_null.
  induction targets as [|t ts IH] using rev_ind.
  { cbn. split_and!; [set_solver|done|constructor|by intros n ?%not_elem_of_nil|done]. }
  rewrite foldl_snoc. set (st := foldl _ _ _) in *. destruct IH as (I1 & I2 & I3 & I4 & I5). cbn [fst snd].
  assert (Hfind : ∀ x, list_find (λ n, n_qualified_name n = x) (ts ++ [t]) =
    match list_find (λ n, n_qualified_name n = x) ts with Some r => Some r
    | None => if bool_decide (n_qualified_name t = x) then Some (length ts, t) else None end).
  { intros x. destruct (list_find _ ts) as [[i n]|] eqn:E; [by apply list_find_app_l|].
    rewrite list_find_app_r by done. cbn. case_decide; [rewrite bool_decide_eq_true_2 by done|rewrite bool_decide_eq_false_2 by done]; done. }
  assert (Hnone : ∀ x, ¬ x ∈ n_qualified_name <$> ts → list_find (λ n, n_qualified_name n = x) ts = None).
  { intros x Hx. apply list_find_None, Forall_forall. intros n Hn Heq. apply Hx. rewrite <-Heq. by apply list_elem_of_fmap_2. }
  split_and!.
  - intros x. rewrite dom_insert, elem_of_union, elem_of_singleton, I1, fmap_app, elem_of_app. cbn. rewrite list_elem_of_singleton. tauto.
  - intros x v. destruct (decide (x = n_qualified_name t)) as [->|Hn]; [rewrite lookup_insert_eq; by intros [= <-]|].
    rewrite lookup_insert_ne by done. apply I2.
  - case_bool_decide as Hd; [done|]. rewrite fmap_app. apply NoDup_app. split; [done|]. split; [|apply NoDup_singleton].
    intros x Hx%I5 ->%list_elem_of_singleton. by apply Hd, I1.
  - intros n. case_bool_decide as Hd; rewrite ?elem_of_app, ?list_elem_of_singleton.
    + intros Hn. specialize (I4 n Hn). rewrite Hfind. destruct (list_find _ ts) as [[i m]|] eqn:E; [done|]. exfalso.
      apply list_find_None in E. assert (Hin : n_qualified_name n ∈ n_qualified_name <$> ts) by (apply I5; by apply list_elem_of_fmap_2).
      apply list_elem_of_fmap in Hin as (m & Heq & Hm). rewrite Forall_forall in E. by apply (E m Hm).
    + intros [Hn| ->].
      * specialize (I4 n Hn). rewrite Hfind. destruct (list_find _ ts) as [[i m]|] eqn:E; [done|]. exfalso.
        apply list_find_None in E. assert (Hin : n_qualified_name n ∈ n_qualified_name <$> ts) by (apply I5; by apply list_elem_of_fmap_2).
        apply list_elem_of_fmap in Hin as (m & Heq & Hm). rewrite Forall_forall in E. by apply (E m Hm).
      * rewrite Hfind, Hnone by (rewrite <-I1; done). by rewrite bool_decide_eq_true_2.
  - intros x. case_bool_decide as Hd; rewrite fmap_app, elem_of_app; cbn; rewrite list_elem_of_singleton.
    + rewrite I5. split; [tauto|]. intros [?| ->]; [done|]. by apply I1.
    + rewrite fmap_app, elem_of_app, I5. cbn. by rewrite list_elem_of_singleton.
Qed.

Lemma start_walked : walked 0 (start targets).2 (start targets).1 false.
Proof.
  destruct start_level_spec as (S1 & S2 & S3 & S4 & S5).
  assert (Hnone : ∀ x, x ∈ dom (start targets).1 ↔ (start targets).1 !! x = Some None).
  { intros x. split; [intros [v Hv]%elem_of_dom; by rewrite Hv, (S2 _ _ Hv)|apply elem_of_dom_2]. }
  constructor; try done.
  - intros x Hx%S1. exists 0. split; [done|by apply dist_0].
  - intros _ x k Hd Hk. assert (k = 0) as -> by lia. by apply S1, dist_0.
  - intros x. by rewrite <-S1, Hnone.
  - intros x y Hxy. by apply S2 in Hxy.
  - intros n Hn. assert (Ht : is_target (n_qualified_name n)) by (apply S5; by apply list_elem_of_fmap_2).
    split_and!; [by apply S4|by apply S1|by apply dist_0].
  - intros x Hx _. by apply S5, S1.
Qed.

(** A name the search reaches: a target, or a production caller of one reached
    that does not stop the search. *)
Definition reaches (x : string) : Prop := ∃ k, dist x k.

Lemma shorter_total a b : shorter a b = true ∨ shorter b a = true.
Proof.
  unfold shorter. rewrite (Nat.compare_antisym (length (e_chain a)) (length (e_chain b))).
  destruct (_ ?= _); cbn; [apply string_leb_total|by left|by right].
Qed.

Lemma shorter_trans a b c : shorter a b = true → shorter b c = true → shorter a c = true.
Proof.
  unfold shorter. destruct (Nat.compare_spec (length (e_chain a)) (length (e_chain b))); try done;
    destruct (Nat.compare_spec (length (e_chain b)) (length (e_chain c))); try done;
    destruct (Nat.compare_spec (length (e_chain a)) (length (e_chain c))); try done; try lia. apply string_leb_trans.
Qed.

Lemma search_ok :
  ∃ r, search max_visited targets = Some r ∧
    (∀ e, e ∈ entries r → ∃ k, entry_ok k e) ∧ NoDup (name <$> entries r) ∧
    StronglySorted (λ a b, shorter a b = true) (entries r) ∧
    (truncated r = false →
       (∀ x n kind, reaches x → node_at x = Some n → kind_of x n = Some kind → x ∈ name <$> entries r) ∧
       ∃ walked, NoDup walked ∧ length walked = reached r ∧ ∀ x, x ∈ walked ↔ reaches x ∧ ¬ is_target x) ∧
    (truncated r = true → max_visited < reached r + length (remove_dups (n_qualified_name <$> targets))).
Proof.
  destruct start_level_spec as (S1 & _). pose proof start_walked as Hw. unfold search.
  destruct (start targets) as [next level]. cbn [fst snd] in *.
  destruct (levels_spec (search_fuel) 0 level next [] false Hw) as (found & next' & tr & Hl & Hsub & (depth & [Q1 Q2 Q3] & Hd) & Hall & Hcut).
  { constructor; [by intros e ?%not_elem_of_nil|constructor|lia]. }
  { intros _. unfold search_fuel. rewrite <-size_dom. pose proof (subseteq_size (dom calls_out ∖ dom next) (dom calls_out) ltac:(set_solver)). lia. }
  rewrite Hl. cbn [mbind option_bind]. eexists. split; [done|]. cbn [entries reached truncated].
  assert (Hdom : dom next ⊆ dom next') by by apply subseteq_dom.
  assert (Hsize : size next' = size (dom next' ∖ dom next) + size next).
  { rewrite <-!size_dom. rewrite size_difference by done. pose proof (subseteq_size _ _ Hdom). lia. }
  assert (Hreach : tr = false → ∀ x, x ∈ dom next' ↔ reaches x).
  { intros Htr x. split; [intros Hx; destruct (Hd x Hx) as (k & _ & Hk); by exists k|intros [k Hk]; by eapply Hall]. }
  split_and!.
  - intros e He%elem_of_sort_by. destruct (Q1 e He) as (k & _ & Hok). by exists k.
  - by rewrite sort_by_Permutation.
  - apply sort_by_sorted; [apply shorter_total|apply shorter_trans].
  - intros Htr. split.
    + intros x n kind Hx%(Hreach Htr) Hat Hk. rewrite sort_by_Permutation. destruct (Hd x Hx) as (k & Hlt & Hdk). by eapply Q3.
    + exists (elements (dom next' ∖ dom next)). split; [apply NoDup_elements|]. split; [unfold size, set_size in *; cbn in *; lia|].
      intros x. rewrite elem_of_elements, elem_of_difference, S1, (Hreach Htr). done.
  - intros Htr. specialize (Hcut Htr). assert (Hn : size next = length (remove_dups (n_qualified_name <$> targets))); [|lia].
    rewrite <-size_dom, <-(size_list_to_set (C:=gset string)) by apply NoDup_remove_dups. f_equal. apply set_eq. intros x.
    by rewrite S1, elem_of_list_to_set, elem_of_remove_dups.
Qed.

(** C23: The search for entry points answers: each entry is a node that starts an
    execution, listed once, by length and name, with a chain of calls that runs
    from it to a target and is as long as the shortest way to it that leads
    through no other entry point; a search that is not truncated lists every entry
    point that reaches a target through production code and no other entry point,
    and counts the callers it walked; one that is truncated walked more than the
    limit. *)
Theorem search_spec :
  ∃ r, search max_visited targets = Some r ∧
    (∀ e, e ∈ entries r → ∃ k, entry_ok k e) ∧ NoDup (name <$> entries r) ∧
    StronglySorted (λ a b, shorter a b = true) (entries r) ∧
    (truncated r = false →
       (∀ x n kind, reaches x → node_at x = Some n → kind_of x n = Some kind → x ∈ name <$> entries r) ∧
       ∃ walked, NoDup walked ∧ length walked = reached r ∧ ∀ x, x ∈ walked ↔ reaches x ∧ ¬ is_target x) ∧
    (truncated r = true → max_visited < reached r + length (remove_dups (n_qualified_name <$> targets))).
Proof. apply search_ok. Qed.

End correctness.
End entry_points.

End EntryPoints.
