(* ===== verification/FlowGraph.v ===== *)
(** * Entry points of the store

    The graph [EntryPoints] searches, read from the store: nodes by qualified name
    (crates/dagayn-graph/src/query.rs, schema.rs) and the calls of
    [Impact.get_flow_edge_data]; with the proof that it keeps the promise of
    [EntryPoints.CallGraphLaws] where the rows can be read and callers go by the
    names stored.  And the two listings of all entry points, of
    crates/dagayn-tools/src/entry_points.rs and crates/dagayn-graph/src/flow_trace.rs. *)
From S2P Require Import Prelude Graphs GraphData Store StoreSpec Impact ImpactSpec ArchFindings EntryPoints EdgePass.
Import Graphs GraphData Store StoreSpec Impact EntryPoints.

Module FlowGraph.

#[local] Set Default Proof Using "Type".

Section flow_graph.
Context `{Json} {F : Type}.
Context (unordered : ∀ A, list A → list A) (canonicalize : string → option string).
Context (s : GraphStore (F := F)).

(** Source: crates/dagayn-graph/src/schema.rs 83-92 [normalize_qualified_key]. *)
Definition normalize_qualified_key (qualified_name : string) : string :=
  match split_colons qualified_name with
  | Some (file_path, rest) => normalize_file_path_key canonicalize s file_path +:+ "::" +:+ rest
  | None => normalize_file_path_key canonicalize s qualified_name
  end.

(** The names asked for and their normal forms, in no particular order.

    Source: crates/dagayn-graph/src/query.rs 30-41 [get_nodes_by_qualified_names]. *)
Definition keys_of (qualified_names : list string) : list string :=
  unordered _ (elements (foldl (λ keys q, {[q; normalize_qualified_key q]} ∪ keys) (∅ : gset string) qualified_names)).

(** The first row of a name counts.

    Source: crates/dagayn-graph/src/query.rs 50-55 [get_nodes_by_qualified_names]. *)
Definition keep_row (rows : gmap string GraphNode) (r : NodeRow) : Result (gmap string GraphNode) :=
  n ← node_from_row r;
  inl (match rows !! n_qualified_name n with Some _ => rows | None => <[n_qualified_name n := n]> rows end).

(** Source: crates/dagayn-graph/src/query.rs 59-69 [get_nodes_by_qualified_names]. *)
Definition answer (rows : gmap string GraphNode) (out : gmap string GraphNode) (original : string) : gmap string GraphNode :=
  match rows !! original with
  | Some n => <[original := n]> out
  | None => match rows !! normalize_qualified_key original with Some n => <[original := n]> out | None => out end
  end.

(** Source: crates/dagayn-graph/src/query.rs 22-71 [get_nodes_by_qualified_names]. *)
Definition get_nodes_by_qualified_names (qualified_names : list string) : Result (gmap string GraphNode) :=
  match qualified_names with
  | [] => inl ∅
  | _ :: _ =>
      rows ← try_fold (λ rows chunk,
               try_fold keep_row rows (unordered _ (filter (λ r, qualified_name (vals r) ∈ chunk) (nodes s))))
               ∅ (chunks 450 (keys_of qualified_names));
      inl (foldl (answer rows) ∅ qualified_names)
  end.

(** Source: crates/dagayn-tools/src/entry_points.rs 112 [search]. *)
#[export] Instance store_calls : CallGraph := {|
  calls_out := (get_flow_edge_data s).1;
  find := get_nodes_by_qualified_names
|}.

(** Source: crates/dagayn-graph/src/query.rs 236-241 [get_all_nodes]. *)
Definition get_all_nodes : Result (list GraphNode) := try_map node_from_row (unordered _ (nodes s)).

(** ** The promise kept *)

Hypothesis unordered_perm : ∀ A (l : list A), unordered A l ≡ₚ l.
(** The rows of nodes can be read, their names are unique, and callers go by names
    that are normal. *)
Hypothesis readable : ∀ r, r ∈ nodes s → ∃ n, node_from_row r = inl n.
Hypothesis names_unique : NoDup (qualified_name ∘ vals <$> nodes s).
Hypothesis callers_normal : ∀ q, q ∈ dom (get_flow_edge_data s).1 → normalize_qualified_key q = q.

Definition stored_node (q : string) : option GraphNode :=
  '(_, r) ← list_find (λ r, qualified_name (vals r) = q) (nodes s);
  match node_from_row r with inl n => Some n | inr _ => None end.

Lemma stored_node_spec q n :
  stored_node q = Some n ↔ ∃ r, r ∈ nodes s ∧ qualified_name (vals r) = q ∧ node_from_row r = inl n.
Proof using readable names_unique.
  unfold stored_node. split.
  - destruct (list_find _ _) as [[i r]|] eqn:E; cbn [mbind option_bind]; [|done]. apply list_find_Some in E as (Hr & Hq & _).
    destruct (node_from_row r) as [n'|] eqn:Hn; [|done]. intros [= ->]. exists r. split; [by eapply list_elem_of_lookup_2|done].
  - intros (r & Hr & Hq & Hn). destruct (list_find _ _) as [[i r']|] eqn:E; cbn [mbind option_bind].
    + apply list_find_Some in E as (Hr' & Hq' & _).
      assert (r' = r) as ->; [|by rewrite Hn]. apply list_elem_of_lookup_2 in Hr'.
      apply (EdgePass.NoDup_fmap_elem _ _ _ _ names_unique Hr' Hr). cbn. by rewrite Hq, Hq'.
    + apply list_find_None in E. rewrite Forall_forall in E. by destruct (E r Hr Hq).
Qed.

Lemma stored_node_name q n : stored_node q = Some n → n_qualified_name n = q.
Proof using readable names_unique.
  intros (r & _ & <- & Hn)%stored_node_spec. by apply ImpactSpec.node_from_row_vals in Hn as (_ & ? & _).
Qed.

(** What the rows kept are after reading some. *)
Definition kept (names : list string) (rows : gmap string GraphNode) : Prop :=
  ∀ q, rows !! q = if bool_decide (q ∈ names) then stored_node q else None.

Lemma keep_rows names l rows :
  (∀ r, r ∈ l → r ∈ nodes s) → kept names rows →
  ∃ rows', try_fold keep_row rows l = inl rows' ∧ ∀ q, rows' !! q =
    if bool_decide (q ∈ names ∨ q ∈ qualified_name ∘ vals <$> l) then stored_node q else None.
Proof using readable names_unique.
  clear callers_normal unordered_perm canonicalize unordered.
  revert names rows. induction l as [|r l IH]; intros names rows Hl Hk; cbn [try_fold].
  { exists rows. split; [done|]. intros q. rewrite Hk. apply (f_equal (λ b : bool, if b then _ else _)), bool_decide_ext. set_solver. }
  destruct (readable r (Hl r ltac:(left))) as [n Hn].
  assert (Hs : stored_node (qualified_name (vals r)) = Some n) by (apply stored_node_spec; exists r; split; [apply Hl; left|done]).
  pose proof (stored_node_name _ _ Hs) as Hname.
  assert (Hk' : ∃ rows', keep_row rows r = inl rows' ∧ kept (qualified_name (vals r) :: names) rows').
  { unfold keep_row. rewrite Hn. cbn [mbind result_bind rbind]. eexists. split; [done|]. intros q. rewrite Hname.
    destruct (decide (q = qualified_name (vals r))) as [->|Hne].
    - rewrite bool_decide_eq_true_2 by left. rewrite (Hk (qualified_name (vals r))).
      destruct (decide (qualified_name (vals r) ∈ names)) as [Hin|Hin].
      + rewrite bool_decide_eq_true_2, Hs by done. by rewrite Hk, bool_decide_eq_true_2.
      + rewrite bool_decide_eq_false_2 by done. by rewrite lookup_insert_eq.
    - transitivity (rows !! q); [destruct (rows !! qualified_name _); [done|by rewrite lookup_insert_ne]|].
      rewrite Hk. apply (f_equal (λ b : bool, if b then _ else _)), bool_decide_ext. rewrite elem_of_cons. naive_solver. }
  destruct Hk' as (rows1 & -> & Hk1). cbn [mbind result_bind rbind].
  destruct (IH _ rows1 ltac:(intros x Hx; apply Hl; by right) Hk1) as (rows' & Hr & Hspec). exists rows'. split; [done|].
  intros q. rewrite Hspec. apply (f_equal (λ b : bool, if b then _ else _)), bool_decide_ext.
  rewrite fmap_cons, !elem_of_cons. cbn. tauto.
Qed.

Lemma keep_chunks cs names rows :
  kept names rows →
  ∃ rows', try_fold (λ rows chunk, try_fold keep_row rows (unordered _ (filter (λ r, qualified_name (vals r) ∈ chunk) (nodes s)))) rows cs
    = inl rows' ∧ kept (names ++ concat cs) rows'.
Proof using readable names_unique unordered_perm.
  revert names rows. induction cs as [|c cs IH]; intros names rows Hk; cbn [try_fold concat].
  { exists rows. by rewrite app_nil_r. }
  set (l := unordered _ _). destruct (keep_rows names l rows) as (rows1 & -> & Hspec); [|done|].
  { intros r Hr. unfold l in Hr. rewrite unordered_perm in Hr. by apply list_elem_of_filter in Hr as [_ ?]. }
  cbn [mbind result_bind rbind]. destruct (IH (names ++ c) rows1) as (rows' & Hr & Hk').
  { intros q. rewrite Hspec. destruct (stored_node q) as [n|] eqn:Hq; [|by repeat case_bool_decide].
    apply (f_equal (λ b : bool, if b then _ else _)), bool_decide_ext. rewrite elem_of_app, list_elem_of_fmap.
    apply stored_node_spec in Hq as (r & Hr & Hname & _). split; [|intros [?|Hc]; [by left|right]].
    - intros [?|(r' & -> & Hr')]; [by left|right]. unfold l in Hr'. rewrite unordered_perm in Hr'. by apply list_elem_of_filter in Hr' as [? _].
    - exists r. split; [by rewrite <-Hname|]. unfold l. rewrite unordered_perm. apply list_elem_of_filter. by rewrite Hname. }
  exists rows'. split; [done|]. by rewrite app_assoc.
Qed.

Lemma elem_of_wanted_keys qns q : q ∈ keys_of qns ↔ ∃ q', q' ∈ qns ∧ (q = q' ∨ q = normalize_qualified_key q').
Proof using unordered_perm.
  unfold keys_of. rewrite unordered_perm, elem_of_elements.
  enough (Hgen : ∀ ks : gset string, q ∈ foldl (λ keys q, {[q; normalize_qualified_key q]} ∪ keys) ks qns ↔
    q ∈ ks ∨ ∃ q', q' ∈ qns ∧ (q = q' ∨ q = normalize_qualified_key q')) by (rewrite Hgen, elem_of_empty; tauto).
  induction qns as [|q0 qns IH]; intros ks; cbn [foldl].
  - setoid_rewrite elem_of_nil. naive_solver.
  - rewrite IH, !elem_of_union, !elem_of_singleton. setoid_rewrite elem_of_cons. naive_solver.
Qed.

(** The nodes of the names of callers are found. *)
Lemma find_callers qns :
  (∀ q, q ∈ qns → q ∈ dom (get_flow_edge_data s).1) →
  ∃ m, get_nodes_by_qualified_names qns = inl m ∧ ∀ q, m !! q = if bool_decide (q ∈ qns) then stored_node q else None.
Proof using readable names_unique unordered_perm callers_normal.
  intros Hdom. unfold get_nodes_by_qualified_names.
  destruct (keep_chunks (chunks 450 (keys_of qns)) [] ∅) as (rows & Hrows & Hk).
  { intros q. by rewrite lookup_empty, bool_decide_eq_false_2 by apply not_elem_of_nil. }
  rewrite concat_chunks in Hk by lia. cbn [app] in Hk. destruct qns as [|q0 qns0] eqn:Hq.
  { exists ∅. split; [done|]. intros q. by rewrite lookup_empty, bool_decide_eq_false_2 by apply not_elem_of_nil. }
  rewrite <-Hq in *. clear Hq q0 qns0. rewrite Hrows. cbn [mbind result_bind rbind]. eexists. split; [done|].
  assert (Hans : ∀ q out, q ∈ qns → answer rows out q = match stored_node q with Some n => <[q := n]> out | None => out end).
  { intros q out Hin. unfold answer. rewrite (callers_normal q (Hdom q Hin)).
    assert (Hr : rows !! q = stored_node q) by (rewrite Hk, bool_decide_eq_true_2; [done|apply elem_of_wanted_keys; exists q; tauto]).
    rewrite Hr. by destruct (stored_node q). }
  rewrite (EdgePass.foldl_ext_elem _ (λ out q, match stored_node q with Some n => <[q := n]> out | None => out end))
    by (intros out q Hq; by apply Hans).
  clear. intros q.
  enough (Hgen : ∀ (l : list string) (m : gmap string GraphNode), foldl (λ out q, match stored_node q with Some n => <[q := n]> out | None => out end) m l !! q =
    if bool_decide (q ∈ l ∧ is_Some (stored_node q)) then stored_node q else m !! q).
  { rewrite Hgen, lookup_empty. destruct (stored_node q); repeat case_bool_decide; naive_solver. }
  induction l as [|q0 l IH]; intros m; cbn [foldl].
  - rewrite bool_decide_eq_false_2; [done|]. by intros [?%not_elem_of_nil _].
  - rewrite IH. destruct (decide (q ∈ l ∧ is_Some (stored_node q))) as [Hin|Hin].
    + rewrite !bool_decide_eq_true_2; [done| |done]. split; [right; apply Hin|apply Hin].
    + rewrite (bool_decide_eq_false_2 (q ∈ l ∧ _)) by done. destruct (decide (q = q0)) as [->|Hne].
      * destruct (stored_node q0) as [n|] eqn:Hs; [|by rewrite bool_decide_eq_false_2 by (by intros [_ []])].
        rewrite lookup_insert_eq, bool_decide_eq_true_2; [done|]. split; [left|done].
      * rewrite bool_decide_eq_false_2; [|rewrite elem_of_cons; naive_solver].
        destruct (stored_node q0); [by rewrite lookup_insert_ne|done].
Qed.

#[export] Instance store_laws : CallGraphLaws (H0 := store_calls) := {|
  node_of := stored_node;
  node_of_name := stored_node_name;
  find_ok := find_callers
|}.

End flow_graph.

Section listings.
Context `{Json} {F : Type}.
Context (unordered : ∀ A, list A → list A) (canonicalize : string → option string).
Context (s : GraphStore (F := F)).

#[local] Abbreviation calls := (get_flow_edge_data s).1.

(** ** The listings *)

Context (is_match : string → string → bool) (strings_at : Value → string → list string)
  (not_null : Value → string → bool).

(** Source: crates/dagayn-tools/src/entry_points.rs 420-428 [all_entry_points]. *)
Definition rank (kind : string) : nat :=
  match list_find (.= kind) KIND_ORDER with Some (i, _) => i | None => length KIND_ORDER end.
Definition by_rank (a b : GraphNode * string) : bool :=
  match rank a.2 ?= rank b.2 with
  | Lt => true
  | Gt => false
  | Eq => String.leb (n_qualified_name a.1) (n_qualified_name b.1)
  end.

(** A name some call leads to. *)
Definition is_called (qn : string) : bool :=
  existsb (λ p : string * list string, bool_decide (qn ∈ p.2)) (map_to_list calls).

(** Source: crates/dagayn-tools/src/entry_points.rs 401-419 [all_entry_points]. *)
Definition listed_entry (known : list string) (node : GraphNode) : option (GraphNode * string) :=
  let calls_known := existsb (λ callee, bool_decide (callee ∈ known)) (default [] (calls !! n_qualified_name node)) in
  let eligible :=
    if bool_decide (n_kind node = "Function") then true
    else if bool_decide (n_kind node = "File") then calls_known else false in
  if negb eligible || negb (ArchFindings.is_production_code node (n_file_path node)) then None
  else kind ← entry_kind is_match strings_at not_null node (is_called (n_qualified_name node)); Some (node, kind).

(** Source: crates/dagayn-tools/src/entry_points.rs 395-430 [all_entry_points]. *)
Definition all_entry_points : option (list (GraphNode * string)) :=
  match get_all_nodes unordered s with
  | inr _ => None
  | inl nodes => Some (sort_by by_rank (omap (listed_entry (n_qualified_name <$> nodes)) nodes))
  end.

(** Source: crates/dagayn-graph/src/flow_trace.rs 92-94 [is_entry_kind]. *)
Definition is_entry_kind (node : GraphNode) : bool := bool_decide (n_kind node = "Function") || bool_decide (n_kind node = "Test").

(** The nodes come from a map by name, each once.

    Source: crates/dagayn-graph/src/flow_trace.rs 66-90 [detect_entries]. *)
Definition detect_entries (nodes_by_qn : gmap string GraphNode) (include_tests : bool) : list GraphNode :=
  sort_by (λ a b, String.leb (n_qualified_name a) (n_qualified_name b))
    (filter (λ node,
       is_entry_kind node
       && negb (negb include_tests && (n_is_test node || is_test_file is_match (n_file_path node)))
       && is_entry_point is_match strings_at node (is_called (n_qualified_name node)) = true)
      (map_to_list nodes_by_qn).*2).

(** Source: crates/dagayn-graph/src/flow_trace.rs 46-57 [detect_entry_points]. *)
Definition detect_entry_points (include_tests : bool) : Result (list GraphNode) :=
  nodes ← get_all_nodes unordered s;
  inl (detect_entries (list_to_map ((λ n, (n_qualified_name n, n)) <$> rev nodes)) include_tests).

(** ** The search and the listing agree *)

Hypothesis unordered_perm : ∀ A (l : list A), unordered A l ≡ₚ l.
Hypothesis readable : ∀ r, r ∈ nodes s → ∃ n, node_from_row r = inl n.
Hypothesis names_unique : NoDup (qualified_name ∘ vals <$> nodes s).
Hypothesis callers_normal : ∀ q, q ∈ dom calls → normalize_qualified_key canonicalize s q = q.

#[local] Instance graph : CallGraph := store_calls unordered canonicalize s.
#[local] Instance graph_laws : CallGraphLaws := store_laws unordered canonicalize s unordered_perm readable names_unique callers_normal.

Lemma is_called_callers qn : is_called qn = has_callers qn.
Proof using Type.
  unfold has_callers. apply eq_true_iff_eq. unfold is_called. rewrite existsb_exists, negb_true_iff, bool_decide_eq_false.
  split.
  - intros ([x ts] & Hin & Hq%bool_decide_eq_true). apply list_elem_of_In, elem_of_map_to_list in Hin. intros Hnil.
    assert (Hc : EntryPoints.calls x qn) by (apply callers_spec; by exists ts). unfold EntryPoints.calls in Hc. rewrite Hnil in Hc.
    by apply not_elem_of_nil in Hc.
  - destruct (callers_of qn) as [|x l] eqn:E; [done|]. intros _. assert (Hc : EntryPoints.calls x qn) by (unfold EntryPoints.calls; rewrite E; left).
    apply callers_spec in Hc as (ts & Hts & Hq). exists (x, ts). split; [by apply list_elem_of_In, elem_of_map_to_list|by apply bool_decide_eq_true].
Qed.

Lemma all_nodes_read : ∃ ns, get_all_nodes unordered s = inl ns ∧ ∀ n, n ∈ ns ↔ stored_node s (n_qualified_name n) = Some n.
Proof using All.
  unfold get_all_nodes.
  assert (Hmap : ∀ l, (∀ r, r ∈ l → r ∈ nodes s) → ∃ ns, try_map node_from_row l = inl ns).
  { induction l as [|r l IH]; intros Hl; [by exists []|]. cbn [try_map]. destruct (readable r) as [n ->]; [apply Hl; left|].
    cbn [mbind result_bind rbind]. destruct IH as [ns ->]; [intros x Hx; apply Hl; by right|]. by exists (n :: ns). }
  destruct (Hmap (unordered _ (nodes s))) as [ns Hns]; [intros r; by rewrite unordered_perm|]. exists ns. split; [done|].
  pose proof (ImpactSpec.try_map_Permutation _ _ _ Hns) as Hf. intros n. rewrite stored_node_spec by done. split.
  - intros Hn. destruct (ImpactSpec.Forall2_elem_of_r _ _ _ _ Hf Hn) as (r & Hr & Hrn). rewrite unordered_perm in Hr.
    exists r. split_and!; [done| |done]. by apply ImpactSpec.node_from_row_vals in Hrn as (_ & -> & _).
  - intros (r & Hr & _ & Hrn). assert (Hr' : r ∈ unordered _ (nodes s)) by by rewrite unordered_perm.
    destruct (ImpactSpec.Forall2_elem_of_l _ _ _ _ Hf Hr') as (n' & Hn' & Hrn'). rewrite Hrn in Hrn'. by injection Hrn' as ->.
Qed.

(** The two answers about entry points agree: an entry point that is a function
    or a file, found at least one call away from targets the store holds, is in
    the list of all entry points of the repository, as the same kind. *)
Theorem found_entries_listed max_visited targets e :
  (∀ t, t ∈ targets → stored_node s (n_qualified_name t) = Some t) →
  (∃ r, search is_match strings_at not_null max_visited targets = Some r ∧ e ∈ entries r) →
  1 < length (e_chain e) → n_kind (e_node e) ∈ ["Function"; "File"] →
  ∃ l, all_entry_points = Some l ∧ (e_node e, e_kind e) ∈ l.
Proof using All.
  intros Htargets (r & Hr & He) Hlen Hkind.
  destruct (search_ok is_match strings_at not_null max_visited targets) as (r' & Hr' & Hok & _). rewrite Hr in Hr'. injection Hr' as <-.
  destruct (Hok e He) as (k & Hd & Hat & Hk & _ & _ & Hl & _). destruct k as [|k]; [lia|].
  pose proof (dist_S_target _ _ _ _ _ _ Hd) as Hnt. pose proof Hd as (y & Hy & Hcall & (n & Hn & Hprod) & _)%distance_S.
  assert (Hnode : stored_node s (n_qualified_name (e_node e)) = Some (e_node e)).
  { unfold node_at in Hat. destruct (list_find _ targets) as [[i t]|] eqn:E; [|exact Hat].
    apply list_find_Some in E as (Ht & Hname & _). exfalso. apply Hnt. unfold is_target. rewrite <-Hname.
    apply list_elem_of_fmap_2. by eapply list_elem_of_lookup_2. }
  cbn in Hn. rewrite Hnode in Hn. injection Hn as <-.
  destruct all_nodes_read as (ns & Hns & Hin). unfold all_entry_points. rewrite Hns. eexists. split; [done|].
  apply elem_of_sort_by, list_elem_of_omap. exists (e_node e). split; [by apply Hin|]. unfold listed_entry.
  assert (Hknown : y ∈ n_qualified_name <$> ns).
  { destruct k as [|k].
    - apply dist_0 in Hy. apply list_elem_of_fmap in Hy as (t & -> & Ht). apply list_elem_of_fmap_2, Hin. by apply Htargets.
    - pose proof Hy as (z & _ & _ & (n & Hn & _) & _)%distance_S. cbn in Hn.
      pose proof (stored_node_name s readable names_unique _ _ Hn) as Hname. rewrite <-Hname. apply list_elem_of_fmap_2, Hin. by rewrite Hname. }
  assert (Hcalls : existsb (λ callee, bool_decide (callee ∈ n_qualified_name <$> ns)) (default [] (calls !! n_qualified_name (e_node e))) = true).
  { apply callers_spec in Hcall as (ts & Hts & Hyt). cbn in Hts. rewrite Hts. apply existsb_exists. exists y.
    split; [by apply list_elem_of_In|by apply bool_decide_eq_true]. }
  rewrite Hcalls, Hprod, is_called_callers. unfold kind_of in Hk. rewrite bool_decide_eq_false_2 in Hk by done. cbn [andb] in Hk. rewrite Hk.
  assert (Hel : (if bool_decide (n_kind (e_node e) = "Function") then true else if bool_decide (n_kind (e_node e) = "File") then true else false) = true).
  { apply elem_of_cons in Hkind as [->|Hf]; [done|]. apply list_elem_of_singleton in Hf as ->. done. }
  rewrite Hel. done.
Qed.

End listings.

(** ** At work *)

#[local] Existing Instance text_json.

Definition flow_func (name path : string) : NodeInput :=
  mkNodeInput "Function" name path 1 2 "rust" None None None None false "null".
Definition flow_call (source target path : string) : EdgeInput := mkEdgeInput "CALLS" source target path 1 "null".

(** [go] calls [main] and [step], which both call [goal]. *)
Definition flow_store : GraphStore (F := unit) :=
  (store_file_batch (λ _ _, tt) one "now"
     [mkItem _ _ "a.rs" [flow_func "main" "a.rs"] [flow_call "a.rs::main" "c.rs::goal" "a.rs"] "a" 0;
      mkItem _ _ "b.rs" [flow_func "step" "b.rs"] [flow_call "b.rs::step" "c.rs::goal" "b.rs"] "b" 0;
      mkItem _ _ "c.rs" [flow_func "goal" "c.rs"] [] "c" 0;
      mkItem _ _ "d.rs" [flow_func "go" "d.rs"] [flow_call "d.rs::go" "a.rs::main" "d.rs"; flow_call "d.rs::go" "b.rs::step" "d.rs"] "d" 0]
     (new_store true)).1.

Definition listed (A : Type) (l : list A) : list A := l.
Definition nowhere (path : string) : option string := None.
Definition no_match (pattern text : string) : bool := false.
Definition no_strings (v : Value) (key : string) : list string := [].
Definition absent (v : Value) (key : string) : bool := false.

Definition flow_target : list GraphNode :=
  [mkGraphNode 3 "Function" "goal" "c.rs::goal" "c.rs" 1 2 "rust" None None None false (Some "c") "{}" None].

#[local] Abbreviation flow_search :=
  (search (H0 := store_calls listed nowhere flow_store) no_match no_strings absent MAX_VISITED flow_target).

(** The search goes on to [go] by way of [step], which is no entry point, but the
    chain it shows for [go] runs through [main], which is one. *)
Example chain_through_entry_point :
  (λ r, (λ e, (e_kind e, e_chain e)) <$> entries r) <$> flow_search =
    Some [("main", ["a.rs::main"; "c.rs::goal"]); ("uncalled", ["d.rs::go"; "a.rs::main"; "c.rs::goal"])].
Proof. by vm_compute. Qed.

Definition flow_entry : Entry :=
  match flow_search with Some r => match entries r with e :: _ => e | [] => mkEntry (mkGraphNode 0 "" "" "" "" 0 0 "" None None None false None "" None) "" [] end
  | None => mkEntry (mkGraphNode 0 "" "" "" "" 0 0 "" None None None false None "" None) "" [] end.

Lemma found_entries_listed_witness :
  e_kind flow_entry = "main" ∧
  ∃ l, all_entry_points listed flow_store no_match no_strings absent = Some l ∧ (e_node flow_entry, e_kind flow_entry) ∈ l.
Proof.
  assert (Hread : Forall (λ r, match node_from_row r with inl _ => true | inr _ => false end = true) (nodes flow_store)).
  { apply (bool_decide_unpack _). by vm_compute. }
  assert (Hnorm : Forall (λ q, normalize_qualified_key nowhere flow_store q = q) (elements (dom (get_flow_edge_data flow_store).1))).
  { apply (bool_decide_unpack _). by vm_compute. }
  assert (Hreadable : ∀ r, r ∈ nodes flow_store → ∃ n, node_from_row r = inl n).
  { intros r Hr. rewrite Forall_forall in Hread. specialize (Hread r Hr). destruct (node_from_row r) as [n|]; [by exists n|done]. }
  assert (Hunique : NoDup (qualified_name ∘ vals <$> nodes flow_store)) by (apply (bool_decide_unpack _); by vm_compute).
  split; [by vm_compute|].
  apply (found_entries_listed listed nowhere flow_store no_match no_strings absent ltac:(done) Hreadable Hunique)
    with (max_visited := MAX_VISITED) (targets := flow_target).
  - intros q Hq. rewrite Forall_forall in Hnorm. by apply Hnorm, elem_of_elements.
  - intros t ->%list_elem_of_singleton. vm_compute. reflexivity.
  - destruct flow_search as [r|] eqn:E; [|by vm_compute in E]. exists r. split; [exact E|].
    unfold flow_entry. rewrite E. destruct (entries r) as [|e l] eqn:El; [|left].
    assert (Hlen : (length ∘ entries <$> flow_search) = Some 2) by by vm_compute. rewrite E in Hlen. cbn in Hlen. by rewrite El in Hlen.
  - apply Nat.ltb_lt. by vm_compute.
  - assert (Hk : n_kind (e_node flow_entry) = "Function") by by vm_compute. rewrite Hk. left.
Defined.

End FlowGraph.
