(* ===== verification/DiffRanges.v ===== *)
(** * The changed lines of a unified diff

    Models the reading of diffs in crates/dagayn-tools/src/changes.rs and the
    lines of crates/dagayn-tools/src/coverage.rs: which lines of the new side of
    each file the hunks name, and how the names git quotes are read back.  Texts
    are lists of code points; a quoted name is decoded to bytes and these to code
    points as [String::from_utf8_lossy] does. *)
From S2P Require Import Prelude ManifestText.

Module DiffRanges.

#[local] Set Default Proof Using "Type".

(** ** Text *)

(** [char::encode_utf8]. *)
Definition utf8 (c : N) : list N :=
  if (c <? 128)%N then [c]
  else if (c <? 2048)%N then [192 + c / 64; 128 + c mod 64]%N
  else if (c <? 65536)%N then [224 + c / 4096; 128 + c / 64 mod 64; 128 + c mod 64]%N
  else [240 + c / 262144; 128 + c / 4096 mod 64; 128 + c / 64 mod 64; 128 + c mod 64]%N.

Definition is_cont (b : N) : bool := (128 <=? b)%N && (b <=? 191)%N.
Definition within (lo hi b : N) : bool := (lo <=? b)%N && (b <=? hi)%N.

(** What may follow the first byte of a sequence of three and of four. *)
Definition second_of_3 (b0 b1 : N) : bool :=
  if (b0 =? 224)%N then within 160 191 b1 else if (b0 =? 237)%N then within 128 159 b1 else is_cont b1.
Definition second_of_4 (b0 b1 : N) : bool :=
  if (b0 =? 240)%N then within 144 191 b1 else if (b0 =? 244)%N then within 128 143 b1 else is_cont b1.

Definition replacement : N := 65533.

(** [String::from_utf8_lossy]: a replacement character for each longest part of a
    sequence that breaks off. *)
Fixpoint lossy (l : list N) : list N :=
  match l with
  | [] => []
  | b0 :: l1 =>
      if (b0 <? 128)%N then b0 :: lossy l1
      else if within 194 223 b0 then
        match l1 with
        | b1 :: l2 => if is_cont b1 then ((b0 - 192) * 64 + (b1 - 128))%N :: lossy l2 else replacement :: lossy l1
        | [] => [replacement]
        end
      else if within 224 239 b0 then
        match l1 with
        | b1 :: l2 =>
            if second_of_3 b0 b1 then
              match l2 with
              | b2 :: l3 =>
                  if is_cont b2 then ((b0 - 224) * 4096 + (b1 - 128) * 64 + (b2 - 128))%N :: lossy l3
                  else replacement :: lossy l2
              | [] => [replacement]
              end
            else replacement :: lossy l1
        | [] => [replacement]
        end
      else if within 240 244 b0 then
        match l1 with
        | b1 :: l2 =>
            if second_of_4 b0 b1 then
              match l2 with
              | b2 :: l3 =>
                  if is_cont b2 then
                    match l3 with
                    | b3 :: l4 =>
                        if is_cont b3
                        then ((b0 - 240) * 262144 + (b1 - 128) * 4096 + (b2 - 128) * 64 + (b3 - 128))%N :: lossy l4
                        else replacement :: lossy l3
                    | [] => [replacement]
                    end
                  else replacement :: lossy l2
              | [] => [replacement]
              end
            else replacement :: lossy l1
        | [] => [replacement]
        end
      else replacement :: lossy l1
  end.

(** [str::strip_prefix]. *)
Fixpoint strip_prefix (p t : list N) : option (list N) :=
  match p, t with
  | [], _ => Some t
  | c :: p, d :: t => if bool_decide (c = d) then strip_prefix p t else None
  | _ :: _, [] => None
  end.

Definition starts_with (p t : list N) : bool := match strip_prefix p t with Some _ => true | None => false end.

(** Source: crates/dagayn-tools/src/coverage.rs 157-168 [splitlines]. *)
Definition breaks (c : N) : bool :=
  (c =? 10)%N || (c =? 13)%N || (c =? 11)%N || (c =? 12)%N || (c =? 28)%N || (c =? 29)%N || (c =? 30)%N
  || (c =? 133)%N || (c =? 8232)%N || (c =? 8233)%N.

(** [line] is the text from [start] on.

    Source: crates/dagayn-tools/src/coverage.rs 156-181 [splitlines]. *)
Fixpoint lines_from (line t : list N) : list (list N) :=
  match t with
  | [] => match line with [] => [] | _ => [line] end
  | c :: t =>
      if negb (breaks c) then lines_from (line ++ [c]) t
      else
        match t with
        | d :: t' => if (c =? 13)%N && (d =? 10)%N then line :: lines_from [] t' else line :: lines_from [] t
        | [] => line :: lines_from [] t
        end
  end.

(** Source: crates/dagayn-tools/src/coverage.rs 152-182 [splitlines]. *)
Definition splitlines (t : list N) : list (list N) := lines_from [] t.

(** ** Hunks *)

Fixpoint digits (t : list N) : list N :=
  match t with c :: t => if is_ascii_digit c then c :: digits t else [] | [] => [] end.

Definition number (ds : list N) : Z := foldl (λ n d, n * 10 + (Z.of_N d - 48))%Z 0%Z ds.

(** [str::parse] of digits as an [i64]. *)
Definition parse_i64 (ds : list N) : option Z :=
  if (number ds <? 2 ^ 63)%Z then Some (number ds) else None.

(** An [i64] sum without overflow checks. *)
Definition wrap (n : Z) : Z := ((n + 2 ^ 63) mod 2 ^ 64 - 2 ^ 63)%Z.

(** Source: crates/dagayn-tools/src/changes.rs 117-134 [new_range_at]. *)
Definition new_range_at (t : list N) : option (Z * Z) :=
  let ds := digits t in
  if bool_decide (ds = []) then None
  else
    start ← parse_i64 ds;
    let rest := drop (length ds) t in
    '(count, rest) ←
      match strip_prefix [44%N] rest with
      | Some after =>
          let cs := digits after in
          if bool_decide (cs = []) then Some (1%Z, rest)
          else count ← parse_i64 cs; Some (count, drop (length cs) after)
      | None => Some (1%Z, rest)
      end;
    if starts_with (chars " @@") rest then Some (start, count) else None.

(** The places of [" +"], from the first on.

    Source: crates/dagayn-tools/src/changes.rs 107-114 [hunk_new_range]. *)
Fixpoint hunk_from (t : list N) : option (Z * Z) :=
  match t with
  | [] => None
  | c :: t =>
      match (if bool_decide (c = 32%N) then strip_prefix [43%N] t else None) with
      | Some after => match new_range_at after with Some found => Some found | None => hunk_from t end
      | None => hunk_from t
      end
  end.

(** Source: crates/dagayn-tools/src/changes.rs 102-115 [hunk_new_range]. *)
Definition hunk_new_range (line : list N) : option (Z * Z) :=
  rest ← strip_prefix (chars "@@ ") line;
  match rest with [] => None | _ :: rest => hunk_from rest end.

(** ** Names *)

Definition quote : N := 34.
Definition backslash : N := 92.
Definition is_octal (c : N) : bool := within 48 55 c.

(** [u8::from_str_radix] of octal digits, 0 where it does not fit. *)
Definition octal (ds : list N) : N :=
  let n := foldl (λ n d, n * 8 + (d - 48))%N 0%N ds in if (n <? 256)%N then n else 0%N.

(** Source: crates/dagayn-tools/src/changes.rs 156-203 [decode_git_quoted_path]. *)
Fixpoint decode_from (t : list N) : list N :=
  match t with
  | [] => []
  | c :: t =>
      if negb (c =? backslash)%N then utf8 c ++ decode_from t
      else
        match t with
        | [] => []
        | e :: t1 =>
            if is_octal e then
              match t1 with
              | d1 :: t2 =>
                  if is_octal d1 then
                    match t2 with
                    | d2 :: t3 => if is_octal d2 then octal [e; d1; d2] :: decode_from t3 else octal [e; d1] :: decode_from t2
                    | [] => [octal [e; d1]]
                    end
                  else octal [e] :: decode_from t1
              | [] => [octal [e]]
              end
            else if (e =? 110)%N then 10%N :: decode_from t1
            else if (e =? 116)%N then 9%N :: decode_from t1
            else if (e =? 114)%N then 13%N :: decode_from t1
            else utf8 e ++ decode_from t1
        end
  end.

(** Source: crates/dagayn-tools/src/changes.rs 151-205 [decode_git_quoted_path]. *)
Definition decode_git_quoted_path (t : list N) : list N :=
  if (2 <=? length t) && bool_decide (head t = Some quote) && bool_decide (last t = Some quote)
  then lossy (decode_from (removelast (tail t))) else t.

(** What is before the first tab. *)
Fixpoint before_tab (t : list N) : list N :=
  match t with c :: t => if (c =? 9)%N then [] else c :: before_tab t | [] => [] end.

(** Source: crates/dagayn-tools/src/changes.rs 137-148 [plus_plus_path]. *)
Definition plus_plus_path (line : list N) : option (list N) :=
  let raw := ManifestText.trim (drop 4 line) in
  if bool_decide (raw = []) || bool_decide (raw = chars "/dev/null") then None
  else strip_prefix (chars "b/") (before_tab (decode_git_quoted_path raw)).

(** ** The diff *)

Abbreviation Ranges := (gmap (list N) (list (Z * Z))) (only parsing).

(** Source: crates/dagayn-tools/src/changes.rs 94-95 [parse_unified_diff]. *)
Definition range_of (found : Z * Z) : Z * Z :=
  let '(start, count) := found in (start, if (count =? 0)%Z then start else wrap (wrap (start + count) - 1)).

(** Source: crates/dagayn-tools/src/changes.rs 88-97 [parse_unified_diff]. *)
Definition diff_step (st : Ranges * option (list N)) (line : list N) : Ranges * option (list N) :=
  let '(ranges, current) := st in
  if starts_with (chars "+++") line then (ranges, plus_plus_path line)
  else
    match hunk_new_range line, current with
    | Some found, Some file => (<[file := default [] (ranges !! file) ++ [range_of found]]> ranges, current)
    | _, _ => st
    end.

(** Source: crates/dagayn-tools/src/changes.rs 85-99 [parse_unified_diff]. *)
Definition parse_unified_diff (t : list N) : Ranges := (foldl diff_step (∅, None) (splitlines t)).1.

(** ** Names as git prints them *)

(** A byte in the quotes of git's C style. *)
Definition quote_byte (b : N) : list N :=
  if (b =? 7)%N then [backslash; 97]%N
  else if (b =? 8)%N then [backslash; 98]%N
  else if (b =? 9)%N then [backslash; 116]%N
  else if (b =? 10)%N then [backslash; 110]%N
  else if (b =? 11)%N then [backslash; 118]%N
  else if (b =? 12)%N then [backslash; 102]%N
  else if (b =? 13)%N then [backslash; 114]%N
  else if (b =? quote)%N || (b =? backslash)%N then [backslash; b]
  else if (b <? 32)%N || (126 <? b)%N then [backslash; 48 + b / 64; 48 + b / 8 mod 8; 48 + b mod 8]%N
  else [b].

Definition needs_quotes (b : N) : bool := (b <? 32)%N || (126 <? b)%N || (b =? quote)%N || (b =? backslash)%N.

(** The name of a file after [+++]: quoted where a byte asks for it, and with a
    tab at its end where it has a space. *)
Definition git_name (t : list N) : list N :=
  let bytes := t ≫= utf8 in
  (if existsb needs_quotes bytes then quote :: (bytes ≫= quote_byte) ++ [quote] else t)
  ++ (if bool_decide (32%N ∈ t) then [9%N] else []).

(** *** Bytes and characters *)

(** Quotients and remainders by constants, for [lia]. *)
#[local] Ltac Zify.zify_post_hook ::= Z.to_euclidean_division_equations.

Lemma is_scalar_bound c : is_scalar c = true → (c < 55296 ∨ 57344 <= c <= 1114111)%N.
Proof. unfold is_scalar. rewrite orb_true_iff, andb_true_iff, N.ltb_lt, !N.leb_le. lia. Qed.

Lemma is_cont_true n : (n < 64)%N → is_cont (128 + n) = true.
Proof. intros Hn. unfold is_cont. apply andb_true_iff. rewrite !N.leb_le. lia. Qed.

Lemma within_true lo hi b : (lo <= b <= hi)%N → within lo hi b = true.
Proof. intros Hb. unfold within. apply andb_true_iff. rewrite !N.leb_le. lia. Qed.

Lemma within_false lo hi b : (b < lo ∨ hi < b)%N → within lo hi b = false.
Proof. intros Hb. unfold within. apply andb_false_iff. rewrite !N.leb_gt. lia. Qed.

Lemma second_of_3_true c :
  (2048 <= c < 55296 ∨ 57344 <= c < 65536)%N → second_of_3 (224 + c / 4096) (128 + c / 64 mod 64) = true.
Proof.
  intros Hc. unfold second_of_3.
  destruct (224 + c / 4096 =? 224)%N eqn:E1; [apply N.eqb_eq in E1; apply within_true; lia|apply N.eqb_neq in E1].
  destruct (224 + c / 4096 =? 237)%N eqn:E2; [apply N.eqb_eq in E2; apply within_true; lia|apply is_cont_true; lia].
Qed.

Lemma second_of_4_true c :
  (65536 <= c <= 1114111)%N → second_of_4 (240 + c / 262144) (128 + c / 4096 mod 64) = true.
Proof.
  intros Hc. unfold second_of_4.
  destruct (240 + c / 262144 =? 240)%N eqn:E1; [apply N.eqb_eq in E1; apply within_true; lia|apply N.eqb_neq in E1].
  destruct (240 + c / 262144 =? 244)%N eqn:E2; [apply N.eqb_eq in E2; apply within_true; lia|apply is_cont_true; lia].
Qed.

Lemma lossy_utf8 c rest : is_scalar c = true → lossy (utf8 c ++ rest) = c :: lossy rest.
Proof.
  intros Hc%is_scalar_bound. unfold utf8. destruct (N.ltb_spec c 128) as [H1|H1].
  { cbn [app lossy]. by rewrite (proj2 (N.ltb_lt _ _)). }
  destruct (N.ltb_spec c 2048) as [H2|H2]; [|destruct (N.ltb_spec c 65536) as [H3|H3]]; cbn [app lossy].
  - rewrite (proj2 (N.ltb_ge _ _)), within_true, is_cont_true by lia. f_equal. lia.
  - rewrite (proj2 (N.ltb_ge _ _)), (within_false 194 223), (within_true 224 239), second_of_3_true, is_cont_true by lia.
    f_equal. lia.
  - rewrite (proj2 (N.ltb_ge _ _)), (within_false 194 223), (within_false 224 239), (within_true 240 244), second_of_4_true by lia.
    rewrite !is_cont_true by lia. f_equal. lia.
Qed.

Lemma lossy_encoded t : Forall (λ c, is_scalar c = true) t → lossy (t ≫= utf8) = t.
Proof. induction 1 as [|c t Hc _ IH]; [done|]. rewrite bind_cons, lossy_utf8, IH by done. done. Qed.

Lemma utf8_bytes c : is_scalar c = true → Forall (λ b, (b < 256)%N) (utf8 c).
Proof.
  intros Hc%is_scalar_bound. unfold utf8.
  destruct (N.ltb_spec c 128); [|destruct (N.ltb_spec c 2048); [|destruct (N.ltb_spec c 65536)]]; repeat constructor; lia.
Qed.

(** A byte below 128 is a character of its own. *)
Lemma utf8_ascii c b : b ∈ utf8 c → (b < 128)%N → b = c ∧ utf8 c = [c].
Proof.
  unfold utf8. destruct (N.ltb_spec c 128); [by intros ->%list_elem_of_singleton|].
  destruct (N.ltb_spec c 2048); [|destruct (N.ltb_spec c 65536)]; rewrite !elem_of_cons, elem_of_nil; lia.
Qed.

(** *** Names read back *)

Lemma octal_digits b :
  (b < 256)%N →
  is_octal (48 + b / 64) = true ∧ is_octal (48 + b / 8 mod 8) = true ∧ is_octal (48 + b mod 8) = true ∧
  octal [48 + b / 64; 48 + b / 8 mod 8; 48 + b mod 8]%N = b.
Proof.
  intros Hb. unfold is_octal. rewrite !within_true by lia. split_and!; [done..|]. unfold octal. cbn [foldl].
  rewrite (proj2 (N.ltb_lt _ _)) by lia. lia.
Qed.

(** The bytes git quotes in a way the reader knows. *)
Definition known (b : N) : Prop := (b < 256 ∧ b ≠ 7 ∧ b ≠ 8 ∧ b ≠ 11 ∧ b ≠ 12)%N.

Lemma decode_quote_byte b rest : known b → decode_from (quote_byte b ++ rest) = b :: decode_from rest.
Proof.
  intros (Hb & H7 & H8 & H11 & H12). unfold quote_byte.
  rewrite (proj2 (N.eqb_neq b 7)), (proj2 (N.eqb_neq b 8)), (proj2 (N.eqb_neq b 11)), (proj2 (N.eqb_neq b 12)) by done.
  destruct (N.eqb_spec b 9) as [->|]; [done|]. destruct (N.eqb_spec b 10) as [->|]; [done|]. destruct (N.eqb_spec b 13) as [->|]; [done|].
  destruct (N.eqb_spec b quote) as [->|Hq]; [done|]. destruct (N.eqb_spec b backslash) as [->|Hs]; [done|]. cbn [orb].
  destruct ((b <? 32)%N || (126 <? b)%N) eqn:E.
  - destruct (octal_digits b Hb) as (O1 & O2 & O3 & O4).
    cbn [app decode_from]. replace (backslash =? backslash)%N with true by done. cbn [negb]. by rewrite O1, O2, O3, O4.
  - apply orb_false_iff in E as [E1%N.ltb_ge E2%N.ltb_ge]. cbn [app decode_from].
    rewrite (proj2 (N.eqb_neq b backslash)) by done. cbn [negb]. unfold utf8. by rewrite (proj2 (N.ltb_lt b 128)) by lia.
Qed.

Lemma decode_quoted bytes : Forall known bytes → decode_from (bytes ≫= quote_byte) = bytes.
Proof. induction 1 as [|b bytes Hb _ IH]; [done|]. by rewrite bind_cons, decode_quote_byte, IH. Qed.

Lemma decode_git_quotes body : decode_git_quoted_path (quote :: body ++ [quote]) = lossy (decode_from body).
Proof.
  unfold decode_git_quoted_path. rewrite (bool_decide_eq_true_2 (head _ = _)) by done.
  rewrite app_comm_cons, last_snoc, (bool_decide_eq_true_2 (Some quote = Some quote)) by done.
  rewrite length_app. cbn [length Nat.add]. replace (2 <=? S (length body + 1)) with true by (symmetry; apply Nat.leb_le; lia).
  cbn [andb app tail]. by rewrite removelast_last.
Qed.

Lemma trim_start_keep c t : is_whitespace c = false → ManifestText.trim_start_matches is_whitespace (c :: t) = c :: t.
Proof. intros Hc. cbn. by rewrite Hc. Qed.

(** White space after a text without any at its ends is trimmed. *)
Lemma trim_keep c t d :
  is_whitespace c = false → is_whitespace d = false → last (c :: t) = Some d →
  ManifestText.trim (c :: t) = c :: t ∧ ManifestText.trim ((c :: t) ++ [9%N]) = c :: t.
Proof.
  intros Hc Hd Hl. apply last_Some in Hl as [l Hl]. unfold ManifestText.trim, ManifestText.trim_end_matches.
  cbn [app]. rewrite !trim_start_keep by done. rewrite !app_comm_cons. rewrite Hl, !reverse_snoc. cbn [ManifestText.trim_start_matches].
  change (is_whitespace 9%N) with true. cbn iota. rewrite Hd. by rewrite reverse_cons, reverse_involutive.
Qed.

Lemma before_tab_none t : 9%N ∉ t → before_tab t = t.
Proof.
  induction t as [|c t IH]; [done|]. intros [Hc Ht]%not_elem_of_cons. cbn. rewrite (proj2 (N.eqb_neq c 9)) by done. by rewrite IH.
Qed.

(** The names read back: no control characters git has letters for that the reader
    does not know, no tab, and no space at the end of a name git does not quote. *)
Definition name_ok (t : list N) : Prop :=
  Forall (λ c, is_scalar c = true ∧ c ≠ 7 ∧ c ≠ 8 ∧ c ≠ 9 ∧ c ≠ 11 ∧ c ≠ 12)%N t ∧
  (last t = Some 32%N → existsb needs_quotes (t ≫= utf8) = true).

Lemma known_bytes t : Forall (λ c, is_scalar c = true ∧ c ≠ 7 ∧ c ≠ 8 ∧ c ≠ 9 ∧ c ≠ 11 ∧ c ≠ 12)%N t → Forall known (t ≫= utf8).
Proof.
  rewrite !Forall_forall. intros Ht b (c & Hb & Hc)%list_elem_of_bind. destruct (Ht c Hc) as (Hs & ? & ? & ? & ? & ?).
  assert (Hlt : (b < 256)%N) by (pose proof (utf8_bytes c Hs) as Hf; rewrite Forall_forall in Hf; by apply Hf).
  unfold known. destruct (N.ltb_spec b 128); [destruct (utf8_ascii c b Hb) as [-> _]; [done|]; done|]. lia.
Qed.

Lemma plain_bytes t : existsb needs_quotes (t ≫= utf8) = false → Forall (λ c, needs_quotes c = false) t.
Proof.
  intros Hn. apply Forall_forall. intros c Hc. destruct (needs_quotes c) eqn:E; [|done]. exfalso.
  assert (Hb : ∃ b, b ∈ utf8 c ∧ needs_quotes b = true).
  { unfold utf8. destruct (N.ltb_spec c 128); [exists c; split; [left|done]|].
    destruct (N.ltb_spec c 2048); [|destruct (N.ltb_spec c 65536)]; eexists; (split; [left|]); unfold needs_quotes;
      rewrite (proj2 (N.ltb_lt 126 _)) by lia; by rewrite orb_true_r. }
  destruct Hb as (b & Hb & Hq). assert (Hex : existsb needs_quotes (t ≫= utf8) = true); [|congruence].
  apply existsb_exists. exists b. split; [|done]. apply list_elem_of_In, list_elem_of_bind. by exists c.
Qed.

Lemma printable c : needs_quotes c = false → (32 <= c <= 126 ∧ c ≠ quote ∧ c ≠ backslash)%N.
Proof. unfold needs_quotes. rewrite !orb_false_iff, !N.ltb_ge, !N.eqb_neq. lia. Qed.

Lemma whitespace_false c : (32 < c <= 126)%N → is_whitespace c = false.
Proof. intros Hc. unfold is_whitespace. rewrite !orb_false_iff, !andb_false_iff, !N.leb_gt, !N.eqb_neq. lia. Qed.

Lemma git_name_trim t :
  head t = Some 98%N → (last t = Some 32%N → existsb needs_quotes (t ≫= utf8) = true) →
  ManifestText.trim (git_name t) = if existsb needs_quotes (t ≫= utf8) then quote :: ((t ≫= utf8) ≫= quote_byte) ++ [quote] else t.
Proof.
  intros Hh Hl. unfold git_name. destruct (existsb _ _) eqn:E.
  - destruct (trim_keep quote (((t ≫= utf8) ≫= quote_byte) ++ [quote]) quote) as [H1 H2]; [done..| |].
    { by rewrite app_comm_cons, last_snoc. }
    case_bool_decide; [exact H2|rewrite app_nil_r; exact H1].
  - assert (Hl' : last t ≠ Some 32%N) by (intros Hs%Hl; congruence). clear Hl. rename Hl' into Hl.
    apply plain_bytes in E. destruct t as [|c t]; [done|]. injection Hh as ->.
    destruct (last (98%N :: t)) as [d|] eqn:Hd; [|by apply last_None in Hd].
    assert (Hdw : is_whitespace d = false).
    { pose proof (proj1 (Forall_forall _ _) E d) as Hp. apply last_Some in Hd as [l Hd]. rewrite Hd in Hp.
      apply whitespace_false. pose proof (printable d (Hp ltac:(apply elem_of_app; right; left))). assert (d ≠ 32%N) by congruence. lia. }
    destruct (trim_keep 98%N t d eq_refl Hdw Hd) as [H1 H2].
    case_bool_decide; [exact H2|rewrite app_nil_r; exact H1].
Qed.

Lemma git_name_read t :
  name_ok t → plus_plus_path (chars "+++ " ++ git_name (chars "b/" ++ t)) = Some t.
Proof.
  intros [Ht Hl]. unfold plus_plus_path. rewrite drop_app_length' by done. set (full := chars "b/" ++ t).
  assert (Hfull : Forall (λ c, is_scalar c = true ∧ c ≠ 7 ∧ c ≠ 8 ∧ c ≠ 9 ∧ c ≠ 11 ∧ c ≠ 12)%N full).
  { apply Forall_app. split; [|done]. by repeat constructor. }
  assert (Hlast : last full = Some 32%N → existsb needs_quotes (full ≫= utf8) = true).
  { unfold full. rewrite last_app. destruct (last t) as [c|] eqn:Hc; [|done]. intros Hs. rewrite bind_app, existsb_app.
    rewrite Hl by done. by rewrite orb_true_r. }
  rewrite git_name_trim by done.
  assert (Htab : before_tab full = full).
  { apply before_tab_none. rewrite Forall_forall in Hfull. intros Hin. by destruct (Hfull _ Hin) as (_ & _ & _ & ? & _). }
  destruct (existsb needs_quotes (full ≫= utf8)) eqn:E.
  - rewrite (bool_decide_eq_false_2 (_ = [])), (bool_decide_eq_false_2 (_ = chars "/dev/null")) by done. cbn [orb].
    rewrite decode_git_quotes, decode_quoted, lossy_encoded, Htab; [done| |by apply known_bytes].
    eapply Forall_impl; [exact Hfull|]. by intros c [? _].
  - rewrite (bool_decide_eq_false_2 (_ = [])), (bool_decide_eq_false_2 (_ = chars "/dev/null")) by done. cbn [orb].
    unfold decode_git_quoted_path. rewrite (bool_decide_eq_false_2 (head full = Some quote)) by done. rewrite andb_false_r. cbn [andb].
    by rewrite Htab.
Qed.

Lemma quote_byte_printable b c : (b < 256)%N → c ∈ quote_byte b → (32 <= c <= 126)%N.
Proof.
  intros Hb. unfold quote_byte, backslash, quote.
  repeat match goal with |- context [N.eqb ?x ?y] => destruct (N.eqb_spec x y); cbn [orb] end;
    rewrite ?elem_of_cons, ?elem_of_nil; try lia.
  destruct (N.ltb_spec b 32), (N.ltb_spec 126 b); cbn [orb]; rewrite !elem_of_cons, elem_of_nil; lia.
Qed.

Lemma git_name_breaks t : Forall (λ c, is_scalar c = true) t → Forall (λ c, breaks c = false) (git_name t).
Proof.
  intros Ht. assert (Hp : ∀ c, (c = 9 ∨ 32 <= c <= 126)%N → breaks c = false).
  { intros c Hc. unfold breaks. rewrite !orb_false_iff, !N.eqb_neq. lia. }
  unfold git_name. apply Forall_app. split; [|case_bool_decide; repeat constructor].
  destruct (existsb _ _) eqn:E; [|eapply Forall_impl; [by apply plain_bytes|]; intros c Hc%printable; apply Hp; lia].
  constructor; [done|]. apply Forall_app. split; [|by repeat constructor]. apply Forall_forall.
  intros c (b & Hc & (d & Hb & Hd)%list_elem_of_bind)%list_elem_of_bind. apply Hp. right. apply (quote_byte_printable b); [|done].
  rewrite Forall_forall in Ht. pose proof (utf8_bytes d (Ht d Hd)) as Hf. rewrite Forall_forall in Hf. by apply Hf.
Qed.

(** ** A diff without context, as git prints it *)

Record Hunk := mkHunk {
  h_old : list N;
  h_start : list N;
  h_count : option (list N);
  h_tail : list N;
  h_body : list (list N)
}.

(** The path is [None] for a file that was deleted. *)
Record FileDiff := mkFileDiff { f_head : list (list N); f_path : option (list N); f_hunks : list Hunk }.

Definition hunk_place (h : Hunk) : list N :=
  chars "@@ " ++ h_old h ++ chars " +" ++ h_start h ++ match h_count h with Some c => 44%N :: c | None => [] end
  ++ chars " @@".

Definition hunk_header (h : Hunk) : list N := hunk_place h ++ h_tail h.

(** A file without hunks, such as one whose mode changed, has no name line. *)
Definition name_line (f : FileDiff) : list N :=
  chars "+++ " ++ match f_path f with Some t => git_name (chars "b/" ++ t) | None => chars "/dev/null" end.

Definition file_lines (f : FileDiff) : list (list N) :=
  f_head f ++ (if bool_decide (f_hunks f = []) then [] else [name_line f])
  ++ (f_hunks f ≫= λ h, hunk_header h :: h_body h).

Definition unlines (lines : list (list N)) : list N := lines ≫= λ l, l ++ [10%N].

(** The parts of a line, which [splitlines] cuts at other characters too, and
    joins a carriage return at its end to the line feed. *)
Definition pieces (line : list N) : list (list N) := splitlines (line ++ [10%N]).

(** A part that is neither a name nor a hunk. *)
Definition quiet (piece : list N) : Prop := starts_with (chars "+++") piece = false ∧ hunk_new_range piece = None.

(** A line without such a part: the changed lines of a file among them, so long
    as none is an added line that begins with two pluses. *)
Definition plain (line : list N) : Prop := Forall quiet (pieces line).

Definition is_number (ds : list N) : Prop := ds ≠ [] ∧ Forall (λ c, is_ascii_digit c = true) ds ∧ (number ds < 2 ^ 63)%Z.

Definition count_of (h : Hunk) : Z := match h_count h with Some c => number c | None => 1 end.

Definition hunk_ok (h : Hunk) : Prop :=
  h_old h ≠ [] ∧ 32%N ∉ h_old h ∧ Forall (λ c, breaks c = false) (h_old h) ∧ Forall quiet (tail (pieces (h_tail h))) ∧
  is_number (h_start h) ∧ (∀ c, h_count h = Some c → is_number c) ∧ (number (h_start h) + count_of h < 2 ^ 63)%Z ∧
  Forall plain (h_body h).

Definition file_ok (f : FileDiff) : Prop :=
  Forall plain (f_head f) ∧ (∀ t, f_path f = Some t → name_ok t) ∧ Forall hunk_ok (f_hunks f).

(** The lines a hunk names: one where it adds none. *)
Definition hunk_range (h : Hunk) : Z * Z :=
  let start := number (h_start h) in
  (start, if (count_of h =? 0)%Z then start else start + count_of h - 1)%Z.

(** The ranges of a path, over all its hunks. *)
Definition ranges_in (fs : list FileDiff) (p : list N) : list (Z * Z) :=
  fs ≫= λ f, if bool_decide (f_path f = Some p) then hunk_range <$> f_hunks f else [].

(** *** Lines *)

Lemma lines_from_app line l rest :
  lines_from line (l ++ 10%N :: rest) = lines_from line (l ++ [10%N]) ++ lines_from [] rest.
Proof.
  revert line. induction l as [l IH] using (induction_ltof1 _ length); intros line. destruct l as [|c l].
  { cbn [app lines_from]. change (breaks 10%N) with true. cbn [negb]. by destruct rest. }
  cbn [app lines_from]. destruct (negb (breaks c)); [apply IH; unfold ltof; cbn; lia|].
  destruct l as [|d l]; cbn [app].
  - destruct (c =? 13)%N; cbn [andb]; [done|].
    change (10%N :: rest) with ([] ++ 10%N :: rest). rewrite (IH [] ltac:(unfold ltof; cbn; lia) []). done.
  - destruct ((c =? 13)%N && (d =? 10)%N).
    + by rewrite (IH l ltac:(unfold ltof; cbn; lia) []).
    + change (d :: l ++ 10%N :: rest) with ((d :: l) ++ 10%N :: rest). by rewrite (IH (d :: l) ltac:(unfold ltof; cbn; lia) []).
Qed.

Lemma splitlines_unlines lines : splitlines (unlines lines) = lines ≫= pieces.
Proof.
  unfold splitlines, unlines. induction lines as [|l lines IH]; [done|].
  rewrite !bind_cons, <-app_assoc. cbn [app]. by rewrite lines_from_app, IH.
Qed.

(** What waits is put before the first line of what follows. *)
Lemma lines_from_first line l :
  lines_from line (l ++ [10%N]) = (line ++ hd [] (lines_from [] (l ++ [10%N]))) :: tail (lines_from [] (l ++ [10%N])).
Proof.
  assert (Hgen : ∀ l line line', ∃ first rest, lines_from line (l ++ [10%N]) = (line ++ first) :: rest ∧
    lines_from line' (l ++ [10%N]) = (line' ++ first) :: rest).
  { clear line l. induction l as [|c l IH]; intros line line'.
    { exists [], []. cbn. by rewrite !app_nil_r. }
    cbn [app lines_from]. destruct (negb (breaks c)).
    - destruct (IH (line ++ [c]) (line' ++ [c])) as (first & rest & -> & ->). exists (c :: first), rest. by rewrite <-!app_assoc.
    - destruct (l ++ [10%N]) as [|d l'] eqn:E; [by destruct l|].
      destruct ((c =? 13)%N && (d =? 10)%N); eexists [], _; rewrite !app_nil_r; done. }
  destruct (Hgen l line []) as (first & rest & -> & ->). done.
Qed.

Lemma lines_from_keep line l t :
  Forall (λ c, breaks c = false) l → lines_from line (l ++ t) = lines_from (line ++ l) t.
Proof.
  intros Hl. revert line. induction Hl as [|c l Hc _ IH]; intros line; [by rewrite app_nil_r|].
  cbn [app lines_from]. rewrite Hc. cbn [negb]. by rewrite IH, <-app_assoc.
Qed.

(** A line with a text before any break. *)
Lemma pieces_after l t :
  Forall (λ c, breaks c = false) l → pieces (l ++ t) = (l ++ hd [] (pieces t)) :: tail (pieces t).
Proof. intros Hl. unfold pieces, splitlines. by rewrite <-app_assoc, lines_from_keep, lines_from_first. Qed.

Lemma pieces_whole l : Forall (λ c, breaks c = false) l → pieces l = [l].
Proof. intros Hl. rewrite <-(app_nil_r l) at 1. rewrite pieces_after by done. cbn. by rewrite app_nil_r. Qed.

(** *** Hunk headers *)

Lemma strip_prefix_app p t : strip_prefix p (p ++ t) = Some t.
Proof. induction p as [|c p IH]; [done|]. cbn. by rewrite bool_decide_eq_true_2. Qed.

Lemma digits_app ds rest :
  Forall (λ c, is_ascii_digit c = true) ds → (∀ c, head rest = Some c → is_ascii_digit c = false) → digits (ds ++ rest) = ds.
Proof.
  intros Hds Hr. induction Hds as [|c ds Hc _ IH]; cbn.
  - destruct rest as [|c rest]; [done|]. cbn. by rewrite (Hr c eq_refl).
  - by rewrite Hc, IH.
Qed.

Lemma hunk_from_skip old rest : 32%N ∉ old → hunk_from (old ++ rest) = hunk_from rest.
Proof.
  induction old as [|c old IH]; [done|]. intros [Hc Ho]%not_elem_of_cons. cbn [app hunk_from].
  rewrite bool_decide_eq_false_2 by congruence. by apply IH.
Qed.

Lemma hunk_from_at after found : new_range_at after = Some found → hunk_from (chars " +" ++ after) = Some found.
Proof.
  intros Hn. change (chars " +" ++ after) with (32%N :: 43%N :: after). cbn [hunk_from].
  rewrite bool_decide_eq_true_2 by done. cbn [strip_prefix]. rewrite bool_decide_eq_true_2 by done. by rewrite Hn.
Qed.

Lemma hunk_header_read h t : hunk_ok h → hunk_new_range (hunk_place h ++ t) = Some (number (h_start h), count_of h).
Proof.
  intros (Ho & Hs & _ & _ & (Hn & Hd & Hlt) & Hcount & _). unfold hunk_new_range, hunk_place. rewrite <-!app_assoc, strip_prefix_app. cbn [mbind option_bind].
  destruct (h_old h) as [|c old]; [done|]. apply not_elem_of_cons in Hs as [_ Hs]. cbn [app].
  rewrite hunk_from_skip by done. apply hunk_from_at.
  set (tail := chars " @@" ++ t).
  assert (Hend : starts_with (chars " @@") tail = true) by (unfold starts_with, tail; by rewrite strip_prefix_app).
  unfold new_range_at, count_of. rewrite digits_app; [|done|]; cycle 1.
  { intros d. destruct (h_count h); cbn; by intros [= <-]. }
  rewrite bool_decide_eq_false_2 by done. unfold parse_i64. rewrite (proj2 (Z.ltb_lt _ _)) by done. cbn [mbind option_bind].
  rewrite drop_app_length. destruct (h_count h) as [cs|]; cbn [app].
  - destruct (Hcount cs eq_refl) as (Cn & Cd & Clt). cbn [strip_prefix]. rewrite (bool_decide_eq_true_2 (44%N = 44%N)) by done.
    rewrite digits_app by (first [done|by intros d [= <-]]). rewrite bool_decide_eq_false_2 by done.
    rewrite (proj2 (Z.ltb_lt _ _)) by done. cbn [mbind option_bind]. rewrite drop_app_length. by rewrite Hend.
  - replace (strip_prefix [44%N] tail) with (@None (list N)) by done. cbn [mbind option_bind]. by rewrite Hend.
Qed.

Lemma number_nonneg ds : Forall (λ c, is_ascii_digit c = true) ds → (0 <= number ds)%Z.
Proof.
  unfold number. assert (Hgen : ∀ n, (0 <= n)%Z → Forall (λ c, is_ascii_digit c = true) ds → (0 <= foldl (λ n d, n * 10 + (Z.of_N d - 48)) n ds)%Z); [|by apply Hgen].
  induction ds as [|d ds IH]; intros n Hn Hds; [done|]. inversion Hds as [|? ? Hd Hds']; subst. cbn [foldl]. apply IH; [|done].
  unfold is_ascii_digit in Hd. apply andb_true_iff in Hd as [Hd%N.leb_le _]. lia.
Qed.

Lemma range_of_hunk h : hunk_ok h → range_of (number (h_start h), count_of h) = hunk_range h.
Proof.
  intros (_ & _ & _ & _ & (_ & Hd & _) & Hcount & Hlt & _). unfold range_of, hunk_range.
  assert (Hc : (0 <= count_of h)%Z).
  { unfold count_of. destruct (h_count h) as [c|]; [|lia]. destruct (Hcount c eq_refl) as (_ & ? & _). by apply number_nonneg. }
  pose proof (number_nonneg _ Hd). destruct (Z.eqb_spec (count_of h) 0); [done|]. f_equal. unfold wrap.
  rewrite !(Z.mod_small _ (2 ^ 64)); lia.
Qed.

(** *** The fold over the lines *)

Lemma quiet_skip st parts : Forall quiet parts → foldl diff_step st parts = st.
Proof.
  induction 1 as [|part parts (Hp & Hh) _ IH]; [done|]. cbn [foldl]. rewrite <-IH at 2. f_equal.
  unfold diff_step. destruct st as [ranges current]. by rewrite Hp, Hh.
Qed.

Lemma plain_skip st lines : Forall plain lines → foldl diff_step st (lines ≫= pieces) = st.
Proof.
  induction 1 as [|line lines Hl _ IH]; [done|]. by rewrite bind_cons, foldl_app, (quiet_skip st), IH.
Qed.

Lemma digits_break ds : Forall (λ c, is_ascii_digit c = true) ds → Forall (λ c, breaks c = false) ds.
Proof.
  intros Hds. eapply Forall_impl; [exact Hds|]. intros c Hc. unfold is_ascii_digit in Hc.
  apply andb_true_iff in Hc as [Hc%N.leb_le Hc'%N.leb_le]. unfold breaks. rewrite !orb_false_iff, !N.eqb_neq. lia.
Qed.

Lemma hunk_place_breaks h : hunk_ok h → Forall (λ c, breaks c = false) (hunk_place h).
Proof.
  intros (_ & _ & Hb & _ & (_ & Hd & _) & Hcount & _). unfold hunk_place.
  repeat (apply Forall_app; split); try done; try (by repeat constructor); [by apply digits_break|].
  destruct (h_count h) as [c|]; [|done]. constructor; [done|]. apply digits_break. by destruct (Hcount c eq_refl) as (_ & ? & _).
Qed.

Lemma step_hunk ranges current h :
  hunk_ok h →
  foldl diff_step (ranges, current) (pieces (hunk_header h)) =
    (match current with Some file => <[file := default [] (ranges !! file) ++ [hunk_range h]]> ranges | None => ranges end, current).
Proof.
  intros Hh. unfold hunk_header. rewrite pieces_after by by apply hunk_place_breaks. cbn [foldl].
  pose proof Hh as (_ & _ & _ & Ht & _). rewrite (quiet_skip _ (tail _)) by done. unfold diff_step at 1.
  replace (starts_with (chars "+++") (hunk_place h ++ hd [] (pieces (h_tail h)))) with false by done.
  rewrite hunk_header_read by done. destruct current; [|done]. by rewrite range_of_hunk.
Qed.

Lemma name_line_breaks f : file_ok f → Forall (λ c, breaks c = false) (name_line f).
Proof.
  intros (_ & Hname & _). unfold name_line. apply Forall_app. split; [by repeat constructor|].
  destruct (f_path f) as [t|]; [|by repeat constructor].
  apply git_name_breaks, Forall_app. split; [by repeat constructor|]. destruct (Hname t eq_refl) as [Ht _].
  eapply Forall_impl; [exact Ht|]. by intros c [? _].
Qed.

Lemma step_name ranges current f :
  file_ok f → diff_step (ranges, current) (name_line f) = (ranges, f_path f).
Proof.
  intros (_ & Hname & _). unfold diff_step, name_line. replace (starts_with _ _) with true by done. f_equal.
  destruct (f_path f) as [t|]; [by apply git_name_read, Hname|done].
Qed.

Lemma hunks_fold ranges current hs :
  Forall hunk_ok hs →
  foldl diff_step (ranges, current) ((hs ≫= λ h, hunk_header h :: h_body h) ≫= pieces) =
    (match current with
     | Some file => if bool_decide (hs = []) then ranges else <[file := default [] (ranges !! file) ++ (hunk_range <$> hs)]> ranges
     | None => ranges
     end, current).
Proof.
  intros Hhs. revert ranges. induction Hhs as [|h hs Hh Hhs IH]; intros ranges; [by destruct current|].
  rewrite bind_cons, bind_app, foldl_app, bind_cons, foldl_app, step_hunk by done.
  pose proof Hh as (_ & _ & _ & _ & _ & _ & _ & Hb). rewrite (plain_skip _ (h_body h)) by done. destruct current as [file|]; [|by rewrite IH].
  rewrite IH. f_equal. rewrite (bool_decide_eq_false_2 (h :: hs = [])) by done.
  rewrite lookup_insert_eq. cbn [default fmap list_fmap]. case_bool_decide as Hn; [by subst hs|].
  unfold id. by rewrite insert_insert_eq, <-app_assoc.
Qed.

Lemma file_fold ranges current f :
  file_ok f →
  (foldl diff_step (ranges, current) (file_lines f ≫= pieces)).1 =
    match f_path f with
    | Some p => if bool_decide (f_hunks f = []) then ranges else <[p := default [] (ranges !! p) ++ (hunk_range <$> f_hunks f)]> ranges
    | None => ranges
    end.
Proof.
  intros Hf. pose proof Hf as (Hhead & _ & Hhunks). unfold file_lines. rewrite !bind_app, !foldl_app, (plain_skip _ (f_head f)) by done.
  destruct (decide (f_hunks f = [])) as [Hn|Hn].
  { rewrite Hn. cbn. by destruct (f_path f). }
  rewrite (bool_decide_eq_false_2 _ Hn). rewrite bind_cons, pieces_whole by by apply name_line_breaks. cbn [app mbind list_bind foldl].
  rewrite step_name, hunks_fold by done. cbn [fst]. destruct (f_path f); [|done]. by rewrite (bool_decide_eq_false_2 _ Hn).
Qed.

Lemma bind_one {A B} (g : A → list B) x : [x] ≫= g = g x.
Proof. cbn. apply app_nil_r. Qed.

(** C25: A diff without context is read back: for every list of files with their
    hunks, printed as git prints them with its default quoting of names, the ranges
    of a path are those of its hunks in order, a hunk that adds nothing standing
    for the one line it is at; paths without hunks and deleted files have none.
    The lines of the files, and what follows the second [@@] of a hunk, may end in
    a carriage return and hold anything, so long as no part between two of the
    characters [splitlines] cuts at begins with three pluses or reads as the header
    of a hunk.  A name may hold any character but bell, backspace, tab, vertical
    tab and form feed, and ends in a space only when git quotes it for another of
    its characters.  The old side of a hunk has no space, and the numbers of the
    new side are digits that, added, fit an [i64]. *)
Theorem parse_unified_diff_spec fs p :
  Forall file_ok fs →
  parse_unified_diff (unlines (fs ≫= file_lines)) !! p =
    if bool_decide (ranges_in fs p = []) then None else Some (ranges_in fs p).
Proof.
  intros Hfs. unfold parse_unified_diff. rewrite splitlines_unlines.
  induction fs as [|f fs IH] using rev_ind; [done|]. apply Forall_app in Hfs as [Hfs Hf]. inversion Hf as [|? ? Hfok _]; subst.
  specialize (IH Hfs). unfold ranges_in in *. rewrite !bind_app, foldl_app, !bind_one.
  destruct (foldl diff_step (∅, None) ((fs ≫= file_lines) ≫= pieces)) as [ranges current]. cbn [fst] in IH. rewrite file_fold by done.
  set (before := fs ≫= _) in *. destruct (f_path f) as [q|]; cycle 1.
  { rewrite (bool_decide_eq_false_2 (None = Some p)), app_nil_r by done. done. }
  destruct (decide (q = p)) as [->|Hne]; cycle 1.
  { rewrite (bool_decide_eq_false_2 (Some q = Some p)), app_nil_r by congruence. destruct (bool_decide (f_hunks f = [])); [done|by rewrite lookup_insert_ne]. }
  rewrite (bool_decide_eq_true_2 (Some p = Some p)) by done. destruct (decide (f_hunks f = [])) as [Hn|Hn].
  { rewrite (bool_decide_eq_true_2 (f_hunks f = [])) by done. rewrite Hn. cbn. by rewrite app_nil_r. }
  rewrite (bool_decide_eq_false_2 (f_hunks f = [])) by done. rewrite lookup_insert_eq, IH.
  rewrite (bool_decide_eq_false_2 (before ++ _ = [])); cycle 1.
  { intros [_ H0]%app_nil. by apply fmap_nil_inv in H0. }
  f_equal. by case_bool_decide as Hb; [rewrite Hb|].
Qed.

(** ** At work *)

Definition demo_diff : list FileDiff :=
  [mkFileDiff [chars "diff --git a/a b.py b/a b.py"; chars "--- a/a b.py"] (Some (chars "a b.py"))
     [mkHunk (chars "-1,2") (chars "1") None (chars " def f():" ++ [13%N]) [chars "-x"; chars "-y"; chars "+z" ++ [13%N]];
      mkHunk (chars "-9") (chars "8") (Some (chars "0")) [] [chars "-w"]];
   mkFileDiff [chars "deleted file mode 100644"] None [mkHunk (chars "-1") (chars "0") (Some (chars "0")) [] [chars "-x"]];
   mkFileDiff [] (Some [233%N; 10%N]) [mkHunk (chars "-3,0") (chars "4") (Some (chars "2")) [] [chars "+a"; chars "+b"]]].

#[export] Instance quiet_dec piece : Decision (quiet piece).
Proof. unfold quiet. apply _. Defined.
#[export] Instance plain_dec line : Decision (plain line).
Proof. unfold plain. apply _. Defined.
#[export] Instance is_number_dec ds : Decision (is_number ds).
Proof. unfold is_number. apply _. Defined.
#[export] Instance some_dec {A} (P : A → Prop) `{!∀ x, Decision (P x)} (o : option A) : Decision (∀ x, o = Some x → P x).
Proof. refine (match o with Some x => cast_if (decide (P x)) | None => left _ end); naive_solver. Defined.
#[export] Instance name_ok_dec t : Decision (name_ok t).
Proof. unfold name_ok. apply _. Defined.
#[export] Instance hunk_ok_dec h : Decision (hunk_ok h).
Proof. unfold hunk_ok. apply _. Defined.
#[export] Instance file_ok_dec f : Decision (file_ok f).
Proof. unfold file_ok. apply _. Defined.

Lemma demo_diff_ok : Forall file_ok demo_diff.
Proof. apply (bool_decide_unpack _). by vm_compute. Qed.

Lemma parse_unified_diff_spec_witness :
  Forall file_ok demo_diff ∧ ranges_in demo_diff (chars "a b.py") = [(1, 1); (8, 8)]%Z ∧
  parse_unified_diff (unlines (demo_diff ≫= file_lines)) !! chars "a b.py" =
    if bool_decide (ranges_in demo_diff (chars "a b.py") = []) then None else Some (ranges_in demo_diff (chars "a b.py")).
Proof.
  split; [apply demo_diff_ok|]. split; [by vm_compute|]. apply (parse_unified_diff_spec demo_diff (chars "a b.py")), demo_diff_ok.
Defined.

(** An added line that begins with two pluses is taken for the name of a file: the
    hunks after it are lost, though the diff has one at line 9. *)
Example added_pluses_lose_hunks :
  parse_unified_diff (unlines (chars <$>
    ["--- a/m.c"; "+++ b/m.c"; "@@ -1 +1 @@"; "-i++;"; "+++i;"; "@@ -9 +9 @@"; "-x();"; "+y();"])) !! chars "m.c" = Some [(1, 1)]%Z.
Proof. by vm_compute. Qed.

(** An added line with a form feed, at which [splitlines] cuts, adds a range the
    diff does not have. *)
Example form_feed_adds_range :
  parse_unified_diff (unlines [chars "+++ b/m.c"; chars "@@ -1 +1 @@"; chars "-x"; chars "+x" ++ [12%N] ++ chars "@@ -1 +77 @@"])
    !! chars "m.c" = Some [(1, 1); (77, 77)]%Z.
Proof. by vm_compute. Qed.

(** A name that ends in a space loses it. *)
Example space_trimmed : plus_plus_path (chars "+++ " ++ git_name (chars "b/a ")) = Some (chars "a").
Proof. by vm_compute. Qed.

(** A name with a tab, which git quotes, is cut at it. *)
Example tab_cuts_name : plus_plus_path (chars "+++ " ++ git_name (chars "b/a" ++ [9%N] ++ chars "b.py")) = Some (chars "a").
Proof. by vm_compute. Qed.

End DiffRanges.
