(* ===== verification/CommunityStore.v ===== *)
(** * Communities in the store

    Models crates/dagayn-graph/src/communities.rs and the queries over
    communities of relationships.rs and query.rs: the table of communities and
    the column of nodes that refers to it, storing and replacing what detection
    found, the region a change touches, and what stays true of both whatever is
    written.  The order of rows a query leaves unordered, and of a HashSet, is a
    parameter. *)
From S2P Require Import Prelude GraphData Store StoreSpec Impact EdgePass.
Import GraphData Store StoreSpec Impact.

Module CommunityStore.

#[local] Set Default Proof Using "Type".

(** ** Data *)

(** Source: crates/dagayn-graph/src/lib.rs 381-394 [CommunityInput]. *)
Record CommunityInput := mkInput {
  ci_name : string;
  ci_level : Z;
  ci_cohesion : f64;
  ci_size : Z;
  ci_dominant_language : string;
  ci_description : string;
  ci_members : list string
}.

(** The columns the code writes and reads; [parent_id] and [created_at] keep
    their defaults.

    Source: crates/dagayn-graph/src/schema_migrations.rs 45-55 [migrate_v4]. *)
Record CommunityRow := mkCommunity {
  c_id : Z;
  c_name : string;
  c_level : Z;
  c_cohesion : f64;
  c_size : Z;
  c_dominant_language : string;
  c_description : string
}.

(** Source: crates/dagayn-graph/src/lib.rs 435-439 [CommunitySortBy]. *)
Inductive CommunitySortBy := Size | Cohesion | Name.

(** Source: crates/dagayn-graph/src/lib.rs 442-448 [CommunitySortBy::from_raw]. *)
Definition sort_by_from_raw (value : string) : CommunitySortBy :=
  if bool_decide (value = "cohesion") then Cohesion
  else if bool_decide (value = "name") then Name
  else Size.

(** [ORDER BY] the column, descending but for names.

    Source: crates/dagayn-graph/src/lib.rs 450-463 [CommunitySortBy]. *)
Definition sort_order (by_ : CommunitySortBy) (x y : CommunityRow) : bool :=
  match by_ with
  | Size => (c_size y <=? c_size x)%Z
  | Cohesion => SpecFloat.SFleb (c_cohesion y) (c_cohesion x)
  | Name => String.leb (c_name x) (c_name y)
  end.

Section community_store.
Context `{Json} {F : Type}.
Context (unordered : ∀ A, list A → list A).

(** The graph, and the table of communities with its last id. *)
Record CommunityDb := mkDb {
  graph : GraphStore (F := F);
  communities : list CommunityRow;
  community_seq : Z
}.

Definition with_community (c : option Z) (r : NodeRow) : NodeRow :=
  mkNodeRow (node_id r) (vals r) (signature r) c.

Definition set_node_rows (rows : list NodeRow) (db : CommunityDb) : CommunityDb :=
  mkDb (set_nodes rows (node_seq (graph db)) (graph db)) (communities db) (community_seq db).

(** The name of a node's row. *)
Definition row_name (r : NodeRow) : string := qualified_name (vals r).

(** ** Writing *)

(** Source: crates/dagayn-graph/src/communities.rs 25-39 [store_communities_json]. *)
Definition assign_members (id : Z) (names : list string) (db : CommunityDb) : CommunityDb :=
  foldl (λ db chunk,
    set_node_rows ((λ r, if bool_decide (row_name r ∈ chunk) then with_community (Some id) r else r)
                     <$> nodes (graph db)) db)
    db (chunks 450 names).

(** Source: crates/dagayn-graph/src/communities.rs 16-40 [store_communities_json]. *)
Definition insert_community (db : CommunityDb) (c : CommunityInput) : CommunityDb :=
  let id := (community_seq db + 1)%Z in
  assign_members id (ci_members c)
    (mkDb (graph db)
       (communities db ++ [mkCommunity id (ci_name c) (ci_level c) (ci_cohesion c) (ci_size c)
                             (ci_dominant_language c) (ci_description c)]) id).

(** The transaction of [store_communities_json].

    Source: crates/dagayn-graph/src/communities.rs 7-43 [store_communities_json]. *)
Definition store_communities (cs : list CommunityInput) (db : CommunityDb) : CommunityDb * Z :=
  let cleared := set_node_rows (with_community None <$> nodes (graph db)) (mkDb (graph db) [] (community_seq db)) in
  (foldl insert_community cleared cs, Z.of_nat (length cs)).

(** [from_str] reads the communities.

    Source: crates/dagayn-graph/src/communities.rs 5-44 [store_communities_json]. *)
Definition store_communities_json (from_str : string → option (list CommunityInput)) (communities_json : string)
    (db : CommunityDb) : CommunityDb * Result Z :=
  match from_str communities_json with
  | None => (db, inr JsonError)
  | Some cs => let '(db, n) := store_communities cs db in (db, inl n)
  end.

Definition in_ids (ids : list Z) (c : option Z) : bool :=
  match c with Some i => bool_decide (i ∈ ids) | None => false end.

(** Source: crates/dagayn-graph/src/communities.rs 256-267 [replace_communities]. *)
Definition clear_communities (ids : list Z) (db : CommunityDb) : CommunityDb :=
  let db := set_node_rows ((λ r, if in_ids ids (community_id r) then with_community None r else r)
                             <$> nodes (graph db)) db in
  mkDb (graph db) (filter (λ c, c_id c ∉ ids) (communities db)) (community_seq db).

(** Source: crates/dagayn-graph/src/communities.rs 250-305 [replace_communities]. *)
Definition replace_communities (replace_ids : list Z) (cs : list CommunityInput) (db : CommunityDb) : CommunityDb * Z :=
  let db := foldl (λ db chunk, clear_communities chunk db) db (chunks 450 replace_ids) in
  (foldl insert_community db cs, Z.of_nat (length cs)).

(** Source: crates/dagayn-graph/src/communities.rs 142-153 [update_community_stats]. *)
Definition update_community_stats (id size : Z) (cohesion : f64) (db : CommunityDb) : CommunityDb :=
  mkDb (graph db)
    ((λ c, if bool_decide (c_id c = id)
           then mkCommunity (c_id c) (c_name c) (c_level c) cohesion size (c_dominant_language c) (c_description c)
           else c) <$> communities db) (community_seq db).

(** Source: crates/dagayn-graph/src/communities.rs 156-160 [delete_community]. *)
Definition delete_community (id : Z) (db : CommunityDb) : CommunityDb :=
  mkDb (graph db) (filter (λ c, c_id c ≠ id) (communities db)) (community_seq db).

(** Source: crates/dagayn-graph/src/communities.rs 163-170 [delete_orphan_communities]. *)
Definition delete_orphan_communities (db : CommunityDb) : CommunityDb * Z :=
  let kept := filter (λ c, Exists (λ r, community_id r = Some (c_id c)) (nodes (graph db))) (communities db) in
  (mkDb (graph db) kept (community_seq db), Z.of_nat (length (communities db) - length kept)).

(** ** Reading *)

(** [out.entry(key).or_insert_with(Vec::new).push(value)]. *)
Definition push_at (m : gmap Z (list string)) (p : Z * string) : gmap Z (list string) :=
  <[p.1 := default [] (m !! p.1) ++ [p.2]]> m.

(** [SELECT community_id, qualified_name FROM nodes WHERE .. ORDER BY community_id]. *)
Definition member_rows (wanted : option Z → bool) (db : CommunityDb) : list (Z * string) :=
  sort_by (λ x y, (x.1 <=? y.1)%Z)
    (unordered _ (omap (λ r, if wanted (community_id r) then i ← community_id r; Some (i, row_name r) else None)
                    (nodes (graph db)))).

(** Source: crates/dagayn-graph/src/communities.rs 84-112 [get_community_member_qns_by_ids]. *)
Definition get_community_member_qns_by_ids (ids : list Z) (db : CommunityDb) : gmap Z (list string) :=
  foldl (λ out chunk, foldl push_at out (member_rows (in_ids chunk) db)) ∅ (chunks 450 ids).

(** Source: crates/dagayn-graph/src/communities.rs 126-140 [get_all_community_member_qns]. *)
Definition get_all_community_member_qns (db : CommunityDb) : gmap Z (list string) :=
  foldl push_at ∅ (member_rows (λ c, bool_decide (is_Some c)) db).

(** What is answered about each community, but for its JSON; [sanitize_name]
    is the caller's.

    Source: crates/dagayn-graph/src/communities.rs 46-82 [get_communities_json]. *)
Definition get_communities (sanitize_name : string → string) (sort_by_ : string) (min_size : Z) (db : CommunityDb)
    : list (CommunityRow * nat * list string) :=
  let rows := sort_by (sort_order (sort_by_from_raw sort_by_))
                (unordered _ (filter (λ c, (min_size <= c_size c)%Z) (communities db))) in
  let members_by_community := get_community_member_qns_by_ids (c_id <$> rows) db in
  (λ c, let members := default [] (members_by_community !! c_id c) in
        (c, length members, sanitize_name <$> members)) <$> rows.

(** Source: crates/dagayn-graph/src/communities.rs 117-124 [get_communities_list]. *)
Definition get_communities_list (db : CommunityDb) : list (Z * string) :=
  unordered _ ((λ c, (c_id c, c_name c)) <$> communities db).

(** Source: crates/dagayn-graph/src/relationships.rs 24-31 [get_all_community_ids]. *)
Definition get_all_community_ids (db : CommunityDb) : gmap string (option Z) :=
  foldl (λ m r, <[row_name r := community_id r]> m) ∅ (unordered _ (nodes (graph db))).

(** The communities of the nodes of some files.

    Source: crates/dagayn-graph/src/communities.rs 172-194 [affected_community_id_set]. *)
Definition affected_community_id_set (file_paths : list string) (db : CommunityDb) : gset Z :=
  foldl (λ ids chunk,
    list_to_set (omap (λ r, if bool_decide (file_path (vals r) ∈ chunk) then community_id r else None) (nodes (graph db))) ∪ ids)
    ∅ (chunks 450 file_paths).

(** The nodes named by the two ends of an edge.

    Source: crates/dagayn-graph/src/communities.rs 206-213 [expand_neighbor_community_ids]. *)
Definition joined (db : CommunityDb) : list (EdgeRow * NodeRow * NodeRow) :=
  e ← edges (graph db);
  s ← filter (λ r, row_name r = source_qualified (e_vals e)) (nodes (graph db));
  t ← filter (λ r, row_name r = target_qualified (e_vals e)) (nodes (graph db));
  [(e, s, t)].

(** Source: crates/dagayn-graph/src/communities.rs 196-233 [expand_neighbor_community_ids]. *)
Definition expand_neighbor_community_ids (ids : gset Z) (db : CommunityDb) : gset Z :=
  foldl (λ expanded chunk,
    list_to_set (omap (λ j, if in_ids chunk (community_id j.1.2) then community_id j.2 else None) (joined db))
    ∪ list_to_set (omap (λ j, if in_ids chunk (community_id j.2) then community_id j.1.2 else None) (joined db))
    ∪ expanded)
    ids (chunks 450 (unordered _ (elements ids))).

(** Source: crates/dagayn-graph/src/query.rs 279-287 [count_non_file_nodes]. *)
Definition count_non_file_nodes (db : CommunityDb) : Z :=
  Z.of_nat (length (filter (λ r, kind (vals r) ≠ "File") (nodes (graph db)))).

Definition is_member_of (ids : list Z) (r : NodeRow) : Prop := kind (vals r) ≠ "File" ∧ in_ids ids (community_id r) = true.

#[export] Instance is_member_of_dec ids r : Decision (is_member_of ids r).
Proof. unfold is_member_of. apply _. Defined.

(** Source: crates/dagayn-graph/src/query.rs 289-310 [count_nodes_in_community_ids]. *)
Definition count_nodes_in_community_ids (ids : list Z) (db : CommunityDb) : Z :=
  foldl (λ total chunk, (total + Z.of_nat (length (filter (is_member_of chunk) (nodes (graph db)))))%Z) 0%Z (chunks 450 ids).

(** [n as f64]. *)
Definition f64_of (n : Z) : f64 := SpecFloat.binary_normalize 53 1024 n 0 false.

Definition half : f64 := SpecFloat.S754_finite false 4503599627370496 (-53).

(** Source: crates/dagayn-graph/src/communities.rs 235-248 [community_region_ids]. *)
Definition community_region_ids (changed_files : list string) (db : CommunityDb) : option (list Z) :=
  let ids := affected_community_id_set changed_files db in
  if bool_decide (ids = ∅) then None
  else
    let id_vec := unordered _ (elements (expand_neighbor_community_ids ids db)) in
    let region_count := count_nodes_in_community_ids id_vec db in
    let total := count_non_file_nodes db in
    if bool_decide (region_count = 0%Z) || bool_decide (total = 0%Z)
       || SpecFloat.SFltb half (SpecFloat.SFdiv 53 1024 (f64_of region_count) (f64_of total))
    then None else Some id_vec.

(** Source: crates/dagayn-graph/src/query.rs 255-277 [get_nodes_by_community_ids]. *)
Definition get_nodes_by_community_ids (ids : list Z) (db : CommunityDb) : Result (list GraphNode) :=
  try_fold (λ out chunk,
    rows ← try_map node_from_row (unordered _ (filter (is_member_of chunk) (nodes (graph db))));
    inl (out ++ rows)) [] (chunks 450 ids).

(** Source: crates/dagayn-graph/src/query.rs 313-344 [get_edges_within_community_ids]. *)
Definition get_edges_within_community_ids (ids : list Z) (db : CommunityDb) : Result (list GraphEdge) :=
  by_id ← try_fold (λ by_id chunk,
            try_fold (λ (by_id : gmap Z GraphEdge) e, g ← edge_from_row e; inl (<[g_id g := g]> by_id)) by_id
              (unordered _ ((λ j, j.1.1) <$> filter (λ j, is_member_of chunk j.1.2 ∧ is_member_of chunk j.2) (joined db))))
            ∅ (chunks 450 ids);
  inl (unordered _ (map_to_list by_id).*2).

(** Source: crates/dagayn-graph/src/relationships.rs 33-85 [count_affected_communities]. *)
Definition count_affected_communities (file_paths : list string) (db : CommunityDb) : Z :=
  let ids := affected_community_id_set file_paths db in
  if negb (bool_decide (ids = ∅)) then Z.of_nat (size ids)
  else if bool_decide (communities db = []) then 0%Z
  else if existsb (λ chunk, bool_decide (Exists (λ r, community_id r = None ∧ kind (vals r) ≠ "File"
                                                       ∧ file_path (vals r) ∈ chunk) (nodes (graph db))))
            (chunks 450 file_paths)
  then 1%Z else 0%Z.

(** ** Assigning members *)

Lemma set_node_rows_twice rows rows' (db : CommunityDb) : set_node_rows rows (set_node_rows rows' db) = set_node_rows rows db.
Proof. done. Qed.

Lemma set_node_rows_same (db : CommunityDb) : set_node_rows (nodes (graph db)) db = db.
Proof. destruct db as [g cs seq]. unfold set_node_rows, set_nodes. cbn. by rewrite store_eta. Qed.

Definition named (id : Z) (names : list string) (r : NodeRow) : NodeRow :=
  if bool_decide (row_name r ∈ names) then with_community (Some id) r else r.

Lemma assign_members_spec i names (db : CommunityDb) :
  assign_members i names db = set_node_rows (named i names <$> nodes (graph db)) db.
Proof.
  unfold assign_members. rewrite <-(concat_chunks 450 names) at 2 by lia. generalize (chunks 450 names) as cs. intros cs.
  revert db. induction cs as [|c cs IH]; intros db; cbn [foldl concat].
  - rewrite (list_fmap_ext _ (λ r, r) (nodes (graph db))); [by rewrite list_fmap_id, set_node_rows_same|].
    intros _ r _. unfold named. by rewrite bool_decide_eq_false_2 by apply not_elem_of_nil.
  - rewrite IH. rewrite set_node_rows_twice. f_equal. cbn. rewrite <-list_fmap_compose. apply list_fmap_ext.
    intros _ r _. cbn. unfold named, row_name. rewrite (bool_decide_ext (_ ∈ c ++ concat cs) _ (elem_of_app _ _ _)).
    destruct (decide (qualified_name (vals r) ∈ c)) as [Hc|Hc].
    + rewrite (bool_decide_eq_true_2 (_ ∈ c)) by done. rewrite (bool_decide_eq_true_2 (_ ∨ _)) by auto. cbn. by case_bool_decide.
    + rewrite (bool_decide_eq_false_2 (_ ∈ c)) by done. cbn.
      by rewrite (bool_decide_ext (_ ∨ _) (qualified_name (vals r) ∈ concat cs)) by tauto.
Qed.

(** The community a node is given when some are inserted after an id: the last
    that lists it. *)
Fixpoint home (start : Z) (cs : list CommunityInput) (q : string) : option Z :=
  match cs with
  | [] => None
  | c :: cs =>
      match home (start + 1) cs q with
      | Some i => Some i
      | None => if bool_decide (q ∈ ci_members c) then Some (start + 1)%Z else None
      end
  end.

Definition settle (start : Z) (cs : list CommunityInput) (r : NodeRow) : NodeRow :=
  match home start cs (row_name r) with Some i => with_community (Some i) r | None => r end.

(** The rows of communities inserted after an id. *)
Fixpoint rows_after (start : Z) (cs : list CommunityInput) : list CommunityRow :=
  match cs with
  | [] => []
  | c :: cs =>
      mkCommunity (start + 1) (ci_name c) (ci_level c) (ci_cohesion c) (ci_size c) (ci_dominant_language c) (ci_description c)
      :: rows_after (start + 1) cs
  end.

Lemma insert_communities_spec cs (db : CommunityDb) :
  foldl insert_community db cs =
  set_node_rows (settle (community_seq db) cs <$> nodes (graph db))
    (mkDb (graph db) (communities db ++ rows_after (community_seq db) cs) (community_seq db + Z.of_nat (length cs))).
Proof.
  revert db. induction cs as [|c cs IH]; intros db; cbn [foldl rows_after length].
  - rewrite (list_fmap_ext _ (λ r, r) (nodes (graph db))) by done. rewrite list_fmap_id, app_nil_r, Z.add_0_r.
    destruct db. by rewrite set_node_rows_same.
  - rewrite IH. unfold insert_community. rewrite assign_members_spec. unfold set_node_rows, set_nodes. cbn.
    rewrite <-list_fmap_compose, <-app_assoc. cbn [app]. f_equal; [f_equal|lia].
    apply list_fmap_ext. intros _ r _. cbn. unfold settle, named. cbn [home].
    destruct (decide (row_name r ∈ ci_members c)) as [Hc|Hc].
    + rewrite !bool_decide_eq_true_2 by done. change (row_name (with_community (Some (community_seq db + 1)%Z) r)) with (row_name r).
      by destruct (home _ cs (row_name r)).
    + rewrite !bool_decide_eq_false_2 by done. by destruct (home _ cs (row_name r)).
Qed.

Lemma ids_after start cs : c_id <$> rows_after start cs = (λ k, start + Z.of_nat k)%Z <$> seq 1 (length cs).
Proof.
  revert start. induction cs as [|c cs IH]; intros start; [done|]. cbn [rows_after length seq]. rewrite !fmap_cons, IH.
  f_equal. rewrite <-(fmap_S_seq 1), <-list_fmap_compose. apply list_fmap_ext. intros _ k _. cbn. lia.
Qed.

Lemma elem_of_ids_after start cs i : i ∈ c_id <$> rows_after start cs ↔ (start < i ≤ start + Z.of_nat (length cs))%Z.
Proof.
  rewrite ids_after, list_elem_of_fmap. split.
  - intros (k & -> & Hk%elem_of_seq). lia.
  - intros Hi. exists (Z.to_nat (i - start)). rewrite elem_of_seq. lia.
Qed.

Lemma home_bounds start cs q i : home start cs q = Some i → (start < i ≤ start + Z.of_nat (length cs))%Z.
Proof.
  revert start. induction cs as [|c cs IH]; intros start; cbn [home length]; [done|].
  destruct (home _ cs q) as [j|] eqn:Hj; [intros [= <-]; apply IH in Hj; lia|]. case_bool_decide; [intros [= <-]; lia|done].
Qed.

Definition clear (ids : list Z) (r : NodeRow) : NodeRow :=
  if in_ids ids (community_id r) then with_community None r else r.

Lemma clear_chunks ids (db : CommunityDb) :
  foldl (λ db chunk, clear_communities chunk db) db (chunks 450 ids) = clear_communities ids db.
Proof.
  rewrite <-(concat_chunks 450 ids) at 2 by lia. generalize (chunks 450 ids) as cs. intros cs.
  revert db. induction cs as [|c cs IH]; intros db; cbn [foldl concat].
  - unfold clear_communities. rewrite (list_fmap_ext _ (λ r, r) (nodes (graph db))).
    + rewrite list_fmap_id, set_node_rows_same, EdgePass.filter_all; [by destruct db|]. intros x _. apply not_elem_of_nil.
    + intros _ r _. unfold in_ids. destruct (community_id r); [|done]. by rewrite bool_decide_eq_false_2 by apply not_elem_of_nil.
  - rewrite IH. unfold clear_communities, set_node_rows, set_nodes. cbn. f_equal.
    + rewrite <-list_fmap_compose. f_equal. apply list_fmap_ext. intros _ r _. cbn. unfold in_ids.
      destruct (community_id r) as [i|] eqn:Hi; [|by rewrite Hi].
      rewrite (bool_decide_ext (i ∈ c ++ concat cs) _ (elem_of_app _ _ _)).
      destruct (decide (i ∈ c)) as [Hc|Hc].
      * by rewrite (bool_decide_eq_true_2 (i ∈ c)), (bool_decide_eq_true_2 (_ ∨ _)) by auto.
      * rewrite (bool_decide_eq_false_2 (i ∈ c)), Hi by done.
        by rewrite (bool_decide_ext (_ ∨ _) (i ∈ concat cs)) by tauto.
    + rewrite list_filter_filter. apply list_filter_iff. intros x. rewrite elem_of_app. tauto.
Qed.

(** ** What stays true *)

(** The ids are distinct and used, and the community of a node has a row. *)
Record linked (db : CommunityDb) : Prop := {
  ids_distinct : NoDup (c_id <$> communities db);
  ids_used : ∀ i, i ∈ c_id <$> communities db → (i ≤ community_seq db)%Z;
  members_linked : ∀ r i, r ∈ nodes (graph db) → community_id r = Some i → i ∈ c_id <$> communities db
}.

Lemma linked_insert cs (db : CommunityDb) : linked db → linked (foldl insert_community db cs).
Proof.
  intros [Hd Hu Hm]. rewrite insert_communities_spec. constructor; cbn.
  - rewrite fmap_app. apply NoDup_app. split; [done|]. split.
    + intros i Hi%Hu. rewrite elem_of_ids_after. lia.
    + rewrite ids_after. apply NoDup_fmap_2; [|apply NoDup_seq]. intros x y. lia.
  - intros i. rewrite fmap_app, elem_of_app, elem_of_ids_after. intros [Hi%Hu|Hi]; lia.
  - intros r i (r0 & -> & Hr0)%list_elem_of_fmap. rewrite fmap_app, elem_of_app. unfold settle.
    destruct (home _ cs (row_name r0)) as [j|] eqn:Hj; cbn.
    + intros [= ->]. right. apply elem_of_ids_after. by eapply home_bounds.
    + intros Hi. left. by apply (Hm r0).
Qed.

Lemma linked_cleared (db : CommunityDb) :
  linked (set_node_rows (with_community None <$> nodes (graph db)) (mkDb (graph db) [] (community_seq db))).
Proof.
  constructor; cbn; [constructor|by intros i ?%not_elem_of_nil|]. by intros r i (r0 & -> & _)%list_elem_of_fmap.
Qed.

Lemma linked_clear ids (db : CommunityDb) : linked db → linked (clear_communities ids db).
Proof.
  intros [Hd Hu Hm]. unfold clear_communities. constructor; cbn.
  - eapply sublist_NoDup; [exact Hd|]. apply fmap_sublist, sublist_filter.
  - intros i (c & -> & [_ Hc]%list_elem_of_filter)%list_elem_of_fmap. by apply Hu, list_elem_of_fmap_2.
  - intros r i (r0 & -> & Hr0)%list_elem_of_fmap. destruct (in_ids ids (community_id r0)) eqn:Hin; [done|].
    intros Hi. pose proof (Hm r0 i Hr0 Hi) as (c & -> & Hc)%list_elem_of_fmap. apply list_elem_of_fmap_2, list_elem_of_filter.
    split; [|done]. rewrite Hi in Hin. cbn in Hin. by apply bool_decide_eq_false in Hin.
Qed.

Lemma stats_ids i size cohesion (db : CommunityDb) :
  c_id <$> communities (update_community_stats i size cohesion db) = c_id <$> communities db.
Proof. cbn. rewrite <-list_fmap_compose. apply list_fmap_ext. intros _ c _. cbn. by case_bool_decide. Qed.

Lemma linked_stats i size cohesion (db : CommunityDb) : linked db → linked (update_community_stats i size cohesion db).
Proof. intros [Hd Hu Hm]. constructor; rewrite stats_ids; [done|done|exact Hm]. Qed.

Lemma linked_kept (P : CommunityRow → Prop) `{!∀ c, Decision (P c)} (db : CommunityDb) :
  (∀ c r, c ∈ communities db → r ∈ nodes (graph db) → community_id r = Some (c_id c) → P c) →
  linked db → linked (mkDb (graph db) (filter P (communities db)) (community_seq db)).
Proof.
  intros HP [Hd Hu Hm]. constructor; cbn.
  - eapply sublist_NoDup; [exact Hd|]. apply fmap_sublist, sublist_filter.
  - intros i (c & -> & [_ Hc]%list_elem_of_filter)%list_elem_of_fmap. by apply Hu, list_elem_of_fmap_2.
  - intros r i Hr Hi. pose proof (Hm r i Hr Hi) as (c & -> & Hc)%list_elem_of_fmap.
    apply list_elem_of_fmap_2, list_elem_of_filter. split; [by eapply HP|done].
Qed.

(** Every community of some rows is one of others. *)
Definition no_new (rows rows' : list NodeRow) : Prop :=
  ∀ r i, r ∈ rows' → community_id r = Some i → ∃ r0, r0 ∈ rows ∧ community_id r0 = Some i.

Lemma no_new_refl rows : no_new rows rows.
Proof. intros r i Hr Hi. by exists r. Qed.

Lemma no_new_trans rows1 rows2 rows3 : no_new rows1 rows2 → no_new rows2 rows3 → no_new rows1 rows3.
Proof. intros H1 H2 r i Hr Hi. destruct (H2 r i Hr Hi) as (r2 & Hr2 & Hi2). by apply (H1 r2). Qed.

Lemma no_new_filter (P : NodeRow → Prop) `{!∀ r, Decision (P r)} rows : no_new rows (filter P rows).
Proof. intros r i [_ Hr]%list_elem_of_filter Hi. by exists r. Qed.

Lemma no_new_upsert t v : no_new t.1 (upsert_row t v).1.
Proof.
  destruct t as [rows seq]. intros r i. cbn. case_bool_decide.
  - intros (r0 & -> & Hr0)%list_elem_of_fmap. case_bool_decide; cbn; by exists r0.
  - intros [Hr| ->%list_elem_of_singleton]%elem_of_app Hi; [by exists r|done].
Qed.

Lemma no_new_upserts vs t : no_new t.1 (foldl upsert_row t vs).1.
Proof.
  revert t. induction vs as [|v vs IH]; intros t; cbn [foldl]; [apply no_new_refl|].
  eapply no_new_trans; [apply no_new_upsert|apply IH].
Qed.

Lemma no_new_insert (s : GraphStore (F := F)) vs : no_new (nodes s) (nodes (insert_node_rows s vs)).
Proof.
  unfold insert_node_rows. pose proof (no_new_upserts vs (nodes s, node_seq s)) as Hn.
  by destruct (foldl upsert_row _ vs) as [rows seq].
Qed.

Lemma insert_edge_rows_nodes (s : GraphStore (F := F)) vs : nodes (insert_edge_rows s vs) = nodes s.
Proof. unfold insert_edge_rows. by destruct (foldl insert_row _ vs). Qed.

Lemma upsert_edge_nodes now e (s : GraphStore (F := F)) : nodes (upsert_edge now e s).1 = nodes s.
Proof.
  unfold upsert_edge. match goal with |- context [match ?x with inl _ => _ | inr _ => _ end] => destruct x as [v|] end; [|done].
  unfold upsert_edge_row. destruct (list_find _ _) as [[? ?]|]; [done|]. done.
Qed.

Section write_nodes.
Context {N E : Type} (node_row : string → Z → N → Result NodeVals) (key : E → EdgeKey) (row_of : E → Result EdgeVals).

Lemma no_new_push_node (l : loader (F := F)) v : no_new (nodes (store l)) (nodes (store (push_node l v))).
Proof. unfold push_node. case_match; [apply no_new_insert|apply no_new_refl]. Qed.

Lemma push_edge_nodes (l : loader (F := F)) v : nodes (store (push_edge l v)) = nodes (store l).
Proof. unfold push_edge. case_match; cbn [store]; [by rewrite insert_edge_rows_nodes|done]. Qed.

Lemma no_new_load_nodes hash mtime ns (l l' : loader (F := F)) :
  try_fold (load_node node_row hash mtime) l ns = inl l' → no_new (nodes (store l)) (nodes (store l')).
Proof.
  revert l. induction ns as [|n ns IH]; intros l; cbn [try_fold]; [intros [= ->]; apply no_new_refl|].
  destruct (load_node node_row hash mtime l n) as [l1|] eqn:Hn; cbn [mbind result_bind rbind]; [|done]. intros Hl.
  eapply no_new_trans; [|by apply IH, Hl]. unfold load_node in Hn.
  destruct (node_row hash mtime n) as [v|]; cbn [mbind result_bind rbind] in Hn; [|done].
  injection Hn as <-. apply no_new_push_node.
Qed.

Lemma load_edges_nodes es (l l' : loader (F := F)) :
  try_fold (load_edge key row_of) l es = inl l' → nodes (store l') = nodes (store l).
Proof.
  revert l. induction es as [|e es IH]; intros l; cbn [try_fold]; [by intros [= ->]|].
  destruct (load_edge key row_of l e) as [l1|] eqn:Hn; cbn [mbind result_bind rbind]; [|done]. intros ->%IH.
  unfold load_edge in Hn. case_bool_decide; [by injection Hn as <-|].
  destruct (row_of e) as [v|]; cbn [mbind result_bind rbind] in Hn; [|done].
  injection Hn as <-. by rewrite push_edge_nodes.
Qed.

Lemma no_new_load_batch batch (l l' : loader (F := F)) :
  try_fold (load_item node_row key row_of) l batch = inl l' → no_new (nodes (store l)) (nodes (store l')).
Proof.
  revert l. induction batch as [|i batch IH]; intros l; cbn [try_fold]; [intros [= ->]; apply no_new_refl|].
  destruct (load_item node_row key row_of l i) as [l2|] eqn:Hn; cbn [mbind result_bind rbind]; [|done]. intros Hl.
  eapply no_new_trans; [|by apply IH, Hl]. unfold load_item in Hn.
  destruct (try_fold (load_node _ _ _) l _) as [l1|] eqn:H1; cbn [mbind result_bind rbind] in Hn; [|done].
  rewrite (load_edges_nodes _ _ _ Hn). by eapply no_new_load_nodes.
Qed.

Lemma no_new_flush (l : loader (F := F)) : no_new (nodes (store l)) (nodes (flush l)).
Proof.
  unfold flush. destruct (edge_wait l); destruct (node_wait l); rewrite ?insert_edge_rows_nodes;
    first [apply no_new_refl|apply no_new_insert].
Qed.

Context (fts_values : option string → NodeRow → F).

Lemma sync_nodes stamp files defer (s s' : GraphStore (F := F)) :
  sync_fts_after_file_batch fts_values stamp files defer s = inl s' → nodes s' = nodes s.
Proof.
  unfold sync_fts_after_file_batch, insert_fts_for_file_paths. destruct files as [|f files]; cbn [mbind result_bind rbind].
  { intros [= <-]. by destruct defer. }
  destruct (try_fold _ _ _) as [m|]; cbn [mbind result_bind rbind]; [|done]. intros [= <-]. by destruct defer.
Qed.

Lemma no_new_batch stamp batch (s s' : GraphStore (F := F)) :
  store_batch fts_values node_row key row_of stamp batch s = inl s' → no_new (nodes s) (nodes s').
Proof.
  unfold store_batch. set (s0 := if _ && _ then _ else s).
  assert (Hs0 : nodes s0 = nodes s) by (unfold s0; by case_match).
  destruct (try_fold _ _ batch) as [l|] eqn:Hl; cbn [mbind result_bind rbind]; [|done]. intros Hsync.
  apply sync_nodes in Hsync. rewrite Hsync. apply no_new_load_batch in Hl. cbn [store] in Hl.
  rewrite remove_files_rows_spec in Hl.
  assert (Hf : ∀ b : bool, nodes (if b then create_graph_write_indexes (flush l) else flush l) = nodes (flush l)) by by intros [].
  rewrite Hf. eapply no_new_trans; [|apply no_new_flush]. eapply no_new_trans; [|exact Hl]. rewrite <-Hs0. apply no_new_filter.
Qed.

End write_nodes.

Section reachable.
Context (fts_values : option string → NodeRow → F).

(** No write of the graph gives a node a community. *)
Lemma write_no_new (s s' : GraphStore (F := F)) : write fts_values s s' → no_new (nodes s) (nodes s').
Proof.
  intros Hw. destruct Hw as [now stamp batch s Hb|now stamp [batch|] s Hb|stamp files s|stamp file s
    |now stamp n hash mtime s Hc|now e s|s|stamp s|stamp root s s' Hr|k v s|now s|s]; try apply no_new_refl.
  - unfold store_file_batch, transact, store_file_batch_tx. destruct (store_batch _ _ _ _ _ _ s) eqn:E; [|apply no_new_refl].
    by eapply no_new_batch.
  - unfold store_file_batch_json, transact, json, store_raw_compact_file_batch_tx. cbn [mbind result_bind rbind].
    destruct (store_batch _ _ _ _ _ _ s) eqn:E; [|apply no_new_refl]. by eapply no_new_batch.
  - rewrite remove_files_data_eq. apply no_new_filter.
  - rewrite remove_file_data_eq, remove_files_data_eq. apply no_new_filter.
  - unfold upsert_node. destruct (upsert_node_vals now n hash mtime) as [v|]; cbn [mbind result_bind rbind]; [|apply no_new_refl].
    unfold upsert_fts_for_node_ids. destruct (try_fold _ _ _) as [m|]; cbn [mbind result_bind rbind]; [|apply no_new_refl].
    apply no_new_insert.
  - rewrite upsert_edge_nodes. apply no_new_refl.
  - unfold begin_bulk_load. case_match; apply no_new_refl.
  - unfold finish_bulk_load. case_match; apply no_new_refl.
  - revert Hr. unfold rebuild_fts_index. destruct (try_fold _ _ _); cbn [mbind result_bind rbind]; [|done].
    intros [= <-]. apply no_new_refl.
Qed.

(** One step of the graph and its communities: a write of the graph, or an
    operation of the communities.  The code deletes a community only when it
    found no node in it. *)
Inductive step : CommunityDb → CommunityDb → Prop :=
  | step_write g (db : CommunityDb) : write fts_values (graph db) g → step db (mkDb g (communities db) (community_seq db))
  | step_store cs (db : CommunityDb) : step db (store_communities cs db).1
  | step_replace ids cs (db : CommunityDb) : step db (replace_communities ids cs db).1
  | step_stats i size cohesion (db : CommunityDb) : step db (update_community_stats i size cohesion db)
  | step_delete i (db : CommunityDb) :
      (∀ r, r ∈ nodes (graph db) → community_id r ≠ Some i) → step db (delete_community i db)
  | step_orphans (db : CommunityDb) : step db (delete_orphan_communities db).1.

Lemma step_linked (db db' : CommunityDb) : step db db' → linked db → linked db'.
Proof.
  intros Hs Hl. destruct Hs as [g db Hw|cs db|ids cs db|i size cohesion db|i db Hi|db].
  - destruct Hl as [Hd Hu Hm]. constructor; cbn; [done|done|]. intros r i Hr Hi.
    destruct (write_no_new _ _ Hw r i Hr Hi) as (r0 & Hr0 & Hi0). by apply (Hm r0).
  - apply linked_insert, linked_cleared.
  - unfold replace_communities. rewrite clear_chunks. by apply linked_insert, linked_clear.
  - by apply linked_stats.
  - apply linked_kept; [|done]. intros c r _ Hr Hc Heq. apply (Hi r Hr). by rewrite Hc, Heq.
  - apply linked_kept; [|done]. intros c r _ Hr Hc. apply Exists_exists. by exists r.
Qed.

(** A new database. *)
Definition new_db (index : bool) : CommunityDb := mkDb (new_store index) [] 0.

(** C21: a node's community is one of the table.  Whatever is written - file
    batches, removals, single nodes and edges, index rebuilds, risk rows,
    communities stored or replaced, statistics and orphans pruned - the ids of communities are
    distinct and within the sequence, so an id is never given twice, and a node
    refers to no community that is gone. *)
Theorem reachable_linked (index : bool) (db : CommunityDb) : rtc step (new_db index) db → linked db.
Proof.
  intros Hr. remember (new_db index) as db0 eqn:H0. assert (Hl : linked db0).
  { subst. constructor; cbn; [constructor|by intros i ?%not_elem_of_nil|by intros r i ?%not_elem_of_nil]. }
  clear H0. induction Hr as [|db1 db2 db3 Hs _ IH]; [done|]. by apply IH, (step_linked db1).
Qed.

End reachable.

(** ** Reading back *)

Definition values_at (i : Z) (l : list (Z * string)) : list string := snd <$> filter (λ p, p.1 = i) l.

Lemma pushes_lookup l m i :
  foldl push_at m l !! i =
  match m !! i, values_at i l with None, [] => None | x, vs => Some (default [] x ++ vs) end.
Proof.
  revert m. induction l as [|[j v] l IH]; intros m; cbn [foldl].
  - cbn. destruct (m !! i); cbn; by rewrite ?app_nil_r.
  - rewrite IH. unfold push_at, values_at. cbn [fst snd]. rewrite filter_cons. cbn [fst snd]. destruct (decide (j = i)) as [->|Hne].
    + rewrite lookup_insert_eq. cbn. destruct (m !! i); cbn; by rewrite <-?app_assoc.
    + by rewrite lookup_insert_ne.
Qed.

Hypothesis unordered_perm : ∀ A (l : list A), unordered A l ≡ₚ l.

(** The names of a community's nodes. *)
Definition member_names (i : Z) (db : CommunityDb) : list string :=
  row_name <$> filter (λ r, community_id r = Some i) (nodes (graph db)).

Lemma values_members (wanted : option Z → bool) (db : CommunityDb) i :
  values_at i (member_rows wanted db) ≡ₚ if wanted (Some i) then member_names i db else [].
Proof using unordered_perm.
  unfold values_at, member_rows, member_names. rewrite sort_by_Permutation, unordered_perm.
  generalize (nodes (graph db)) as rows. intros rows. induction rows as [|r rows IH]; [by destruct (wanted (Some i))|].
  cbn [omap list_omap]. rewrite (filter_cons (λ r, community_id r = Some i)).
  destruct (community_id r) as [j|] eqn:Hj.
  - destruct (decide (j = i)) as [->|Hne].
    + rewrite decide_True by done. destruct (wanted (Some i)); cbn [mbind option_bind].
      * rewrite filter_cons, decide_True by done. rewrite !fmap_cons. by rewrite IH.
      * exact IH.
    + rewrite decide_False by congruence. destruct (wanted (Some j)); cbn [mbind option_bind]; [|exact IH].
      rewrite filter_cons, decide_False by done. exact IH.
  - rewrite decide_False by done. destruct (wanted None); cbn [mbind option_bind]; exact IH.
Qed.

Lemma get_all_spec (db : CommunityDb) i :
  default [] (get_all_community_member_qns db !! i) ≡ₚ member_names i db ∧
  (is_Some (get_all_community_member_qns db !! i) ↔ member_names i db ≠ []).
Proof using unordered_perm.
  unfold get_all_community_member_qns. rewrite pushes_lookup, lookup_empty.
  pose proof (values_members (λ c, bool_decide (is_Some c)) db i) as Hv. cbn beta in Hv. rewrite bool_decide_eq_true_2 in Hv by done.
  destruct (values_at _ _) as [|v vs].
  - apply Permutation_nil_l in Hv. rewrite <-Hv. split; [done|]. by split; [intros []|].
  - split; [exact Hv|]. split; [|by eexists]. intros _ Hn. rewrite Hn in Hv. by apply Permutation_nil_r in Hv.
Qed.

(** Communities that share no member, each naming nodes once. *)
Definition apart (cs : list CommunityInput) : Prop := NoDup (concat (ci_members <$> cs)).

Lemma home_found start cs q i :
  home start cs q = Some i → ∃ k c, cs !! k = Some c ∧ i = (start + 1 + Z.of_nat k)%Z ∧ q ∈ ci_members c.
Proof.
  revert start. induction cs as [|c cs IH]; intros start; cbn [home]; [done|].
  destruct (home _ cs q) as [j|] eqn:Hj.
  - intros [= <-]. apply IH in Hj as (k & c' & Hk & -> & Hq). exists (S k), c'. split; [done|]. split; [lia|done].
  - case_bool_decide as Hq; [|done]. intros [= <-]. exists 0, c. split; [done|]. split; [lia|done].
Qed.

Lemma home_placed start cs q k c :
  apart cs → cs !! k = Some c → q ∈ ci_members c → home start cs q = Some (start + 1 + Z.of_nat k)%Z.
Proof.
  unfold apart. revert start k. induction cs as [|c0 cs IH]; intros start k; cbn [home fmap list_fmap concat]; [done|].
  intros (_ & Hd & Hcs)%NoDup_app Hk Hq. destruct k as [|k]; cbn in Hk.
  - injection Hk as ->. destruct (home _ cs q) as [j|] eqn:Hj; [|rewrite bool_decide_eq_true_2 by done; f_equal; lia].
    apply home_found in Hj as (k & c' & Hk & _ & Hq'). destruct (Hd q Hq). apply elem_of_concat. exists (ci_members c').
    split; [done|]. apply list_elem_of_fmap_2. by eapply list_elem_of_lookup_2.
  - rewrite (IH _ k) by done. f_equal. lia.
Qed.

(** The members of a community among rows settled by the communities inserted. *)
Lemma settled_members (db : CommunityDb) cs i :
  linked db →
  member_names i (foldl insert_community db cs) =
  if bool_decide (i ≤ community_seq db)%Z
  then row_name <$> filter (λ r, community_id r = Some i ∧ home (community_seq db) cs (row_name r) = None) (nodes (graph db))
  else row_name <$> filter (λ r, home (community_seq db) cs (row_name r) = Some i) (nodes (graph db)).
Proof.
  intros [_ Hu Hm]. rewrite insert_communities_spec. unfold member_names. cbn.
  assert (Hr : ∀ r, r ∈ nodes (graph db) → community_id r = Some i → (i ≤ community_seq db)%Z) by eauto.
  revert Hr. generalize (nodes (graph db)) as rows. intros rows Hr. induction rows as [|r rows IH]; [by case_bool_decide|].
  rewrite fmap_cons, !filter_cons.
  specialize (IH ltac:(intros r' Hr'; apply Hr; by right)).
  assert (Hset : community_id (settle (community_seq db) cs r) =
    match home (community_seq db) cs (row_name r) with Some j => Some j | None => community_id r end).
  { unfold settle. by destruct (home _ cs (row_name r)). }
  assert (Hname : row_name (settle (community_seq db) cs r) = row_name r) by (unfold settle; by destruct (home _ cs (row_name r))).
  rewrite Hset. specialize (Hr r ltac:(left)).
  destruct (decide (i ≤ community_seq db)%Z) as [Hi|Hi].
  - rewrite bool_decide_eq_true_2 in IH |- * by done. destruct (home _ cs (row_name r)) as [j|] eqn:Hj.
    + apply home_bounds in Hj. rewrite decide_False by (intros [= ->]; lia). by rewrite decide_False by naive_solver.
    + destruct (decide (community_id r = Some i)) as [Hc|Hc].
      * rewrite decide_True by done. rewrite !fmap_cons, Hname. by f_equal.
      * by rewrite decide_False by naive_solver.
  - rewrite bool_decide_eq_false_2 in IH |- * by done. destruct (home _ cs (row_name r)) as [j|] eqn:Hj.
    + destruct (decide (Some j = Some i)) as [Hc|Hc]; [|done]. rewrite !fmap_cons, Hname. by f_equal.
    + rewrite decide_False by tauto. done.
Qed.

Lemma NoDup_concat_elem {A} (ls : list (list A)) l : NoDup (concat ls) → l ∈ ls → NoDup l.
Proof.
  induction ls as [|l' ls IH]; cbn [concat]; [by intros _ ?%not_elem_of_nil|].
  intros (Hl & _ & Hls)%NoDup_app [->|Hin]%elem_of_cons; [done|by apply IH].
Qed.

Lemma inserted_members (db : CommunityDb) cs k c :
  linked db → NoDup (row_name <$> nodes (graph db)) → apart cs → cs !! k = Some c →
  (∀ q, q ∈ ci_members c → q ∈ row_name <$> nodes (graph db)) →
  member_names (community_seq db + 1 + Z.of_nat k) (foldl insert_community db cs) ≡ₚ ci_members c.
Proof.
  intros Hl Hn Ha Hk Hin. rewrite settled_members, bool_decide_eq_false_2 by (done || lia). apply NoDup_Permutation.
  - eapply sublist_NoDup; [exact Hn|]. apply fmap_sublist, sublist_filter.
  - eapply NoDup_concat_elem; [exact Ha|]. apply list_elem_of_fmap_2. by eapply list_elem_of_lookup_2.
  - intros q. rewrite list_elem_of_fmap. setoid_rewrite list_elem_of_filter. split.
    + intros (r & -> & Hh & Hr). apply home_found in Hh as (j & c1 & Hj & Heq & Hq). assert (j = k) as -> by lia. congruence.
    + intros Hq. pose proof (Hin q Hq) as (r & -> & Hr)%list_elem_of_fmap. exists r. split; [done|]. split; [|done].
      by apply home_placed with c.
Qed.

Lemma not_inserted (db : CommunityDb) cs i :
  linked db → (community_seq db + Z.of_nat (length cs) < i)%Z → member_names i (foldl insert_community db cs) = [].
Proof.
  intros Hl Hi. rewrite settled_members, bool_decide_eq_false_2 by (done || lia). rewrite EdgePass.filter_nothing; [done|].
  intros r _ Hh%home_bounds. lia.
Qed.

(** Replacing the communities of a region.  The communities of the region
    are gone, each found community has a row of its own whose nodes are just its
    members, every other community keeps its row and its nodes, and nothing of
    the graph changes but the column that refers to communities. *)
Theorem replace_communities_spec (ids : list Z) (cs : list CommunityInput) (db : CommunityDb) :
  linked db → NoDup (row_name <$> nodes (graph db)) → apart cs →
  (∀ c q, c ∈ cs → q ∈ ci_members c → ∃ r, r ∈ nodes (graph db) ∧ row_name r = q ∧ in_ids ids (community_id r) = true) →
  let db' := (replace_communities ids cs db).1 in
  let found := get_all_community_member_qns db' in
  communities db' = filter (λ c, c_id c ∉ ids) (communities db) ++ rows_after (community_seq db) cs ∧
  (∀ k c, cs !! k = Some c → default [] (found !! (community_seq db + 1 + Z.of_nat k)%Z) ≡ₚ ci_members c) ∧
  (∀ i, i ∈ c_id <$> communities db → i ∈ ids → found !! i = None) ∧
  (∀ i, i ∈ c_id <$> communities db → i ∉ ids →
     default [] (found !! i) ≡ₚ default [] (get_all_community_member_qns db !! i)) ∧
  graph db' = set_nodes (nodes (graph db')) (node_seq (graph db)) (graph db) ∧
  with_community None <$> nodes (graph db') = with_community None <$> nodes (graph db).
Proof using unordered_perm.
  intros Hl Hn Ha Hin db' found. unfold found, db', replace_communities. cbn [fst]. rewrite clear_chunks.
  pose proof (linked_clear ids db Hl) as Hlc. set (cl := clear_communities ids db) in *.
  assert (Hseq : community_seq cl = community_seq db) by done.
  assert (Hrows : nodes (graph cl) = clear ids <$> nodes (graph db)) by done.
  assert (Hnames : row_name <$> nodes (graph cl) = row_name <$> nodes (graph db)).
  { rewrite Hrows, <-list_fmap_compose. apply list_fmap_ext. intros _ r _. cbn. unfold clear. by destruct (in_ids ids _). }
  assert (Hsome : ∀ i, default [] (get_all_community_member_qns (foldl insert_community cl cs) !! i)
                         ≡ₚ member_names i (foldl insert_community cl cs)) by (intros i; apply get_all_spec).
  split_and!.
  - by rewrite insert_communities_spec.
  - intros k c Hk. rewrite Hsome, <-Hseq. apply inserted_members; try done; [by rewrite Hnames|].
    intros q Hq. rewrite Hnames. destruct (Hin c q) as (r & Hr & <- & _); [by eapply list_elem_of_lookup_2|done|].
    by apply list_elem_of_fmap_2.
  - intros i Hi Hids. destruct (get_all_spec (foldl insert_community cl cs) i) as [_ Hs].
    destruct (get_all_community_member_qns _ !! i) as [l|]; [|done]. exfalso. apply Hs; [by eexists|].
    rewrite settled_members by done. rewrite bool_decide_eq_true_2 by (rewrite Hseq; by apply (ids_used db Hl)).
    rewrite EdgePass.filter_nothing; [done|]. intros r Hr [Hc _]. rewrite Hrows in Hr. apply list_elem_of_fmap in Hr as (r0 & -> & Hr0).
    revert Hc. unfold clear. destruct (in_ids ids (community_id r0)) eqn:Hb; [done|]. intros Hc. rewrite Hc in Hb.
    cbn in Hb. by apply bool_decide_eq_false in Hb.
  - intros i Hi Hids. rewrite Hsome, settled_members by done. rewrite bool_decide_eq_true_2 by (rewrite Hseq; by apply (ids_used db Hl)).
    destruct (get_all_spec db i) as [-> _]. rewrite Hrows. unfold member_names.
    assert (Hh : ∀ r, r ∈ nodes (graph db) → community_id r = Some i → home (community_seq db) cs (row_name r) = None).
    { intros r Hr Hc. destruct (home _ _ _) as [j|] eqn:Hj; [|done]. apply home_found in Hj as (k & c & Hk & _ & Hq).
      destruct (Hin c (row_name r)) as (r' & Hr' & Hname & Hb); [by eapply list_elem_of_lookup_2|done|].
      assert (r' = r) as -> by by apply (EdgePass.NoDup_fmap_elem row_name _ _ _ Hn Hr' Hr).
      rewrite Hc in Hb. cbn in Hb. by apply bool_decide_eq_true in Hb. }
    revert Hh. generalize (nodes (graph db)) as rows. intros rows Hh. induction rows as [|r rows IH]; [done|].
    rewrite fmap_cons, !filter_cons. specialize (IH ltac:(intros r' Hr'; apply Hh; by right)).
    destruct (in_ids ids (community_id r)) eqn:Hb.
    + rewrite decide_False, (decide_False (P := community_id r = _)); [exact IH| |].
      * intros Hc. rewrite Hc in Hb. cbn in Hb. by apply bool_decide_eq_true in Hb.
      * unfold clear. rewrite Hb. by intros [? _].
    + assert (clear ids r = r) as -> by (unfold clear; by rewrite Hb). destruct (decide (community_id r = Some i)) as [Hc|Hc].
      * rewrite decide_True by (split; [done|apply Hh; [left|done]]). rewrite !fmap_cons. by rewrite IH.
      * rewrite decide_False by tauto. exact IH.
  - by rewrite insert_communities_spec.
  - rewrite insert_communities_spec. cbn. rewrite <-!list_fmap_compose. apply list_fmap_ext. intros _ r _. cbn.
    unfold settle. destruct (home _ _ _); unfold with_community; cbn; by destruct (in_ids ids _).
Qed.

(** ** Regions *)

Lemma elem_of_joined e r t (db : CommunityDb) :
  (e, r, t) ∈ joined db ↔
  e ∈ edges (graph db) ∧ (r ∈ nodes (graph db) ∧ row_name r = source_qualified (e_vals e))
  ∧ t ∈ nodes (graph db) ∧ row_name t = target_qualified (e_vals e).
Proof.
  unfold joined. rewrite list_elem_of_bind. setoid_rewrite list_elem_of_bind. setoid_rewrite list_elem_of_bind.
  setoid_rewrite list_elem_of_filter. setoid_rewrite list_elem_of_singleton. naive_solver.
Qed.

Lemma affected_spec files (db : CommunityDb) i :
  i ∈ affected_community_id_set files db ↔
  ∃ r, r ∈ nodes (graph db) ∧ file_path (vals r) ∈ files ∧ community_id r = Some i.
Proof.
  clear unordered_perm unordered. unfold affected_community_id_set. pose proof (concat_chunks 450 files ltac:(lia)) as Hc. revert Hc.
  generalize (chunks 450 files) as cs. intros cs <-.
  assert (Hg : ∀ acc : gset Z, i ∈ foldl (λ ids chunk,
     list_to_set (omap (λ r, if bool_decide (file_path (vals r) ∈ chunk) then community_id r else None) (nodes (graph db))) ∪ ids) acc cs
     ↔ i ∈ acc ∨ ∃ r, r ∈ nodes (graph db) ∧ file_path (vals r) ∈ concat cs ∧ community_id r = Some i).
  2: { rewrite Hg. set_solver. }
  induction cs as [|c cs IH]; intros acc; cbn [foldl concat].
  { split; [by left|]. intros [?|(r & _ & ?%not_elem_of_nil & _)]; done. }
  rewrite IH, elem_of_union, elem_of_list_to_set, list_elem_of_omap. setoid_rewrite elem_of_app. split.
  - intros [[(r & Hr & Hi)|Hi]|(r & Hr & Hc & Hi)]; [|by left|right; exists r; tauto].
    case_bool_decide; [|done]. right. exists r. tauto.
  - intros [Hi|(r & Hr & [Hc|Hc] & Hi)]; [by left; right| |right; by exists r].
    left. left. exists r. split; [done|]. by rewrite bool_decide_eq_true_2.
Qed.

(** A community is in the expanded set when it is in the set or an edge joins a
    node of it with a node of one in the set. *)
Lemma expand_names_spec ids (db : CommunityDb) i :
  i ∈ expand_neighbor_community_ids ids db ↔
  i ∈ ids ∨ ∃ j e s t, j ∈ ids ∧ (e, s, t) ∈ joined db ∧
    (community_id s = Some j ∧ community_id t = Some i ∨ community_id t = Some j ∧ community_id s = Some i).
Proof using unordered_perm.
  unfold expand_neighbor_community_ids.
  assert (Hids : ∀ j, j ∈ concat (chunks 450 (unordered _ (elements ids))) ↔ j ∈ ids).
  { intros j. rewrite concat_chunks by lia. rewrite unordered_perm. apply elem_of_elements. }
  revert Hids. generalize (chunks 450 (unordered _ (elements ids))) as cs. intros cs Hids.
  assert (Hjoin : ∀ (chunk : list Z) (f g : EdgeRow * NodeRow * NodeRow → option Z),
    i ∈ (list_to_set (omap (λ j, if in_ids chunk (f j) then g j else None) (joined db)) : gset Z) ↔
    ∃ k j, k ∈ chunk ∧ j ∈ joined db ∧ f j = Some k ∧ g j = Some i).
  { intros chunk f g. rewrite elem_of_list_to_set, list_elem_of_omap. split.
    - intros (j & Hj & Hi). unfold in_ids in Hi. destruct (f j) as [k|] eqn:Hs; [|done]. case_bool_decide; [|done]. by exists k, j.
    - intros (k & j & Hk & Hin & Hs & Ht). exists j. split; [done|]. unfold in_ids. by rewrite Hs, bool_decide_eq_true_2. }
  pose (src := λ j : EdgeRow * NodeRow * NodeRow, community_id j.1.2).
  pose (tgt := λ j : EdgeRow * NodeRow * NodeRow, community_id j.2).
  assert (Hg : ∀ acc : gset Z, i ∈ foldl (λ expanded chunk,
      list_to_set (omap (λ j, if in_ids chunk (src j) then tgt j else None) (joined db))
      ∪ list_to_set (omap (λ j, if in_ids chunk (tgt j) then src j else None) (joined db)) ∪ expanded) acc cs ↔
    i ∈ acc ∨ ∃ k j, k ∈ concat cs ∧ j ∈ joined db ∧ (src j = Some k ∧ tgt j = Some i ∨ tgt j = Some k ∧ src j = Some i)).
  { clear Hids. induction cs as [|c cs IH]; intros acc; cbn [foldl concat].
    { split; [by left|]. intros [?|(k & j & ?%not_elem_of_nil & _)]; done. }
    rewrite IH, !elem_of_union, (Hjoin c src tgt), (Hjoin c tgt src). setoid_rewrite elem_of_app. clear. naive_solver. }
  unfold src, tgt in Hg. etransitivity; [apply Hg|]. setoid_rewrite Hids. split.
  - intros [Hi|(k & [[e s] t] & Hk & Hj & Hc)]; [by left|]. right. by exists k, e, s, t.
  - intros [Hi|(k & e & s & t & Hk & Hj & Hc)]; [by left|]. right. by exists k, (e, s, t).
Qed.

End community_store.

(** ** Boundaries *)

(** An edge between two nodes of a region of 451 communities, when they fall in
    different chunks of 450, is not among the edges within the region. *)
Example region_edges_lost :
  let node i q c := mkNodeRow i (mkNodeVals "Function" q q "a.py" 1 2 "python" None None None None false "" 0 "{}" one) None (Some c) in
  let edge := mkEdgeRow 1 (mkEdgeVals "CALLS" "f" "g" "g" "a.py" 1 "" one "EXTRACTED" one) in
  let g : GraphStore (F := unit) := mkStore [node 1%Z "f" 1%Z; node 2%Z "g" 451%Z] 2 [edge] 1 [] [] None ∅ true false in
  let within ids :=
    match get_edges_within_community_ids (H := text_json) (λ _ l, l) ids (mkDb g [] 451) with inl l => Some (g_id <$> l) | inr _ => None end in
  within (Z.of_nat <$> seq 1 451) = Some [] ∧ within [1%Z; 451%Z] = Some [1%Z].
Proof. by vm_compute. Qed.

(** ** Witnesses *)

#[local] Existing Instance text_json.

Definition demo_node (i : Z) (q : string) (c : Z) : NodeRow :=
  mkNodeRow i (mkNodeVals "Function" q q "a.py" 1 2 "python" None None None None false "" 0 "{}" one) None (Some c).

Definition demo_input (names : list string) : CommunityInput :=
  mkInput "c" 0 one (Z.of_nat (length names)) "python" "" names.

Definition demo_db : CommunityDb (F := unit) :=
  mkDb (mkStore [demo_node 1 "f" 1; demo_node 2 "g" 2; demo_node 3 "h" 1] 3 [] 0 [] [] None ∅ true false)
    (rows_after 0 [demo_input ["f"; "h"]; demo_input ["g"]]) 2.

Lemma demo_linked : linked demo_db.
Proof.
  constructor.
  - apply (bool_decide_unpack _). by vm_compute.
  - intros i Hi. change (c_id <$> communities demo_db) with [1; 2]%Z in Hi. cbn. set_solver by lia.
  - intros r i Hr. cbn in Hr. rewrite !elem_of_cons, elem_of_nil in Hr.
    change (c_id <$> communities demo_db) with [1; 2]%Z.
    destruct Hr as [->|[->|[->|[]]]]; cbn; intros [= <-]; set_solver.
Qed.

(** Two nodes stored, one put into a community and then into the one that takes
    its place. *)
Lemma reachable_linked_witness :
  let db1 := mkDb StoreSpec.demo_store [] 0 in
  let db2 := (store_communities [demo_input ["a.py::f"]] db1).1 in
  let db3 := (replace_communities [1%Z] [demo_input ["a.py::f"]] db2).1 in
  (community_id <$> nodes (graph db2)) = [None; Some 1%Z] ∧ (community_id <$> nodes (graph db3)) = [None; Some 2%Z] ∧
  linked db3.
Proof.
  intros db1 db2 db3. split; [by vm_compute|]. split; [by vm_compute|].
  apply (reachable_linked StoreSpec.no_text true). eapply rtc_l; [|eapply rtc_l; [|eapply rtc_once]].
  - apply (step_write _ StoreSpec.demo_store), (StoreSpec.write_batch _ one "now" StoreSpec.demo_batch), StoreSpec.demo_batch_ok.
  - apply step_store.
  - apply step_replace.
Defined.

Lemma replace_communities_spec_witness :
  let db' := (replace_communities [1%Z] [demo_input ["h"]; demo_input ["f"]] demo_db).1 in
  get_all_community_member_qns (λ _ l, l) db' !! 4%Z = Some ["f"] ∧
  communities db' = filter (λ c, c_id c ∉ [1%Z]) (communities demo_db) ++ rows_after 2 [demo_input ["h"]; demo_input ["f"]].
Proof.
  split; [by vm_compute|]. apply (replace_communities_spec (λ _ l, l)); [done|apply demo_linked| | |].
  - apply (bool_decide_unpack _). by vm_compute.
  - apply (bool_decide_unpack _). by vm_compute.
  - intros c q. rewrite !elem_of_cons, elem_of_nil. intros [->|[->|[]]]; cbn; rewrite list_elem_of_singleton; intros ->.
    + exists (demo_node 3 "h" 1). split; [cbn; set_solver|]. split; by vm_compute.
    + exists (demo_node 1 "f" 1). split; [cbn; set_solver|]. split; by vm_compute.
Defined.

End CommunityStore.
