(* ===== verification/CommunityNames.v ===== *)
(** * Names of communities

    Models crates/dagayn-postproc/src/communities/naming.rs: the name and the
    language of some nodes, from the directories, classes and words most of them
    share; with the proof that they do not depend on the order of a HashMap.  The
    three regular expressions and Unicode's lower case are parameters. *)
From S2P Require Import Prelude GraphData Store Impact Sqlite Scopes.
Import GraphData Impact Sqlite.

Module CommunityNames.

#[local] Set Default Proof Using "Type".

(** Source: crates/dagayn-postproc/src/communities/naming.rs 6-10 [COMMON_WORDS]. *)
Definition COMMON_WORDS : list string :=
  ["get"; "set"; "self"; "init"; "new"; "create"; "update"; "delete"; "add"; "remove"; "make";
   "build"; "from"; "to"; "for"; "with"; "the"; "and"; "test"; "main"; "run"; "do"; "is"; "has";
   "on"; "of"; "in"; "at"; "by"; "my"; "this"; "that"; "all"; "none"].

(** [str::rsplit_once] of a character. *)
Fixpoint rsplit_once (sep : Ascii.ascii) (s : string) : option (string * string) :=
  match s with
  | EmptyString => None
  | String c s =>
      match rsplit_once sep s with
      | Some (l, r) => Some (String c l, r)
      | None => if bool_decide (c = sep) then Some (EmptyString, s) else None
      end
  end.

Definition backslash : Ascii.ascii := Ascii.ascii_of_nat 92.
Definition slash : Ascii.ascii := Ascii.ascii_of_nat 47.
Definition dot : Ascii.ascii := Ascii.ascii_of_nat 46.
Definition dash : Ascii.ascii := Ascii.ascii_of_nat 45.

(** [str::trim_matches] of a character. *)
Fixpoint trim_start (c : Ascii.ascii) (s : string) : string :=
  match s with
  | String d s' => if bool_decide (d = c) then trim_start c s' else s
  | EmptyString => EmptyString
  end.

Fixpoint trim_end (c : Ascii.ascii) (s : string) : string :=
  match s with
  | EmptyString => EmptyString
  | String d s =>
      match trim_end c s with
      | EmptyString => if bool_decide (d = c) then EmptyString else String d EmptyString
      | s => String d s
      end
  end.

Definition trim_matches (c : Ascii.ascii) (s : string) : string := trim_end c (trim_start c s).

Section names.
Context `{Json}.
Context (unordered : ∀ A, list A → list A).
(** [Regex::new("([a-z])([A-Z])").replace_all(name, "$1_$2")], [split] at runs of
    underscores, dashes, dots and spaces, [replace_all] of runs of characters but
    [a-z0-9] by a dash, and [str::to_lowercase]. *)
Context (camel : string → string) (split_words : string → list string) (slug : string → string)
  (to_lowercase : string → string).

(** The one of two counts [max_by] keeps: the higher, and of equal ones that of
    the smaller key; of equal keys the later.

    Source: crates/dagayn-postproc/src/communities/naming.rs 98-102 [most_common]. *)
Definition more_common (left right : string * nat) : string * nat :=
  match Nat.compare left.2 right.2 with
  | Gt => left
  | Lt => right
  | Eq => match String.compare right.1 left.1 with Gt => left | _ => right end
  end.

(** Source: crates/dagayn-postproc/src/communities/naming.rs 98-102 [most_common]. *)
Definition most_common (counts : gmap string nat) : option (string * nat) :=
  match unordered _ (map_to_list counts) with
  | [] => None
  | x :: l => Some (foldl more_common x l)
  end.

Definition count_all (keys : list string) : gmap string nat := foldl Scopes.count_up ∅ keys.

(** Source: crates/dagayn-postproc/src/communities/naming.rs 134-142 [to_slug]. *)
Definition to_slug (value : string) : string :=
  String.concat "" (take 30 (characters (trim_matches dash (slug (to_lowercase value))))).

(** Source: crates/dagayn-postproc/src/communities/naming.rs 59-71 [extract_file_prefix]. *)
Definition file_part (fp : string) : string :=
  let segments := split_slash (replace_char backslash slash fp) in
  if 2 <=? length segments then default "" (segments !! (length segments - 2))
  else match last segments ≫= rsplit_once dot with Some (stem, _) => stem | None => "" end.

(** Source: crates/dagayn-postproc/src/communities/naming.rs 54-81 [extract_file_prefix]. *)
Definition extract_file_prefix (file_paths : list string) : string :=
  match file_paths with
  | [] => ""
  | _ => match most_common (count_all (file_part <$> file_paths)) with Some (part, _) => to_slug part | None => "" end
  end.

(** Source: crates/dagayn-postproc/src/communities/naming.rs 84-94 [dominant_language]. *)
Definition dominant_language (members : list GraphNode) : string :=
  match most_common (count_all (filter (λ l, l ≠ "") (n_language <$> members))) with
  | Some (language, _) => language
  | None => ""
  end.

(** Source: crates/dagayn-postproc/src/communities/naming.rs 122-132 [split_name]. *)
Definition split_name (name : string) : list string := filter (λ part, part ≠ "") (split_words (camel name)).

(** The words of a name that count.

    Source: crates/dagayn-postproc/src/communities/naming.rs 106-115 [extract_keywords]. *)
Definition keywords_of (node : GraphNode) : list string :=
  if bool_decide (n_kind node ∈ ["Function"; "Class"; "Test"; "Type"])
  then filter (λ lower, lower ∉ COMMON_WORDS ∧ 1 < length (characters lower)) (to_lowercase <$> split_name (n_name node))
  else [].

(** [right.1.cmp(&left.1).then_with(|| left.0.cmp(&right.0))]. *)
Definition ranked_before (x y : string * nat) : bool :=
  match Nat.compare y.2 x.2 with Lt => true | Gt => false | Eq => String.leb x.1 y.1 end.

(** Source: crates/dagayn-postproc/src/communities/naming.rs 104-120 [extract_keywords]. *)
Definition extract_keywords (members : list GraphNode) : list string :=
  take 5 (sort_by ranked_before (unordered _ (map_to_list (count_all (members ≫= keywords_of))))).*1.

(** Source: crates/dagayn-postproc/src/communities/naming.rs 20-38 [generate_community_name]. *)
Definition class_name (members : list GraphNode) (prefix : string) : option string :=
  let class_names := n_name <$> filter (λ n, n_kind n = "Class") members in
  match class_names with
  | [] => None
  | _ =>
      match most_common (count_all class_names) with
      | Some (top_class, top_count) =>
          if length members * 40 `div` 100 <? top_count
          then Some (if bool_decide (prefix = "") then to_slug top_class else prefix +:+ "-" +:+ to_slug top_class)
          else None
      | None => None
      end
  end.

(** Source: crates/dagayn-postproc/src/communities/naming.rs 12-52 [generate_community_name]. *)
Definition generate_community_name (members : list GraphNode) : string :=
  match members with
  | [] => "empty"
  | _ =>
      let prefix := extract_file_prefix (n_file_path <$> members) in
      match class_name members prefix with
      | Some name => name
      | None =>
          let keyword := default "" (head (extract_keywords members)) in
          if negb (bool_decide (prefix = "")) && negb (bool_decide (keyword = "")) then prefix +:+ "-" +:+ keyword
          else if negb (bool_decide (prefix = "")) then prefix
          else if negb (bool_decide (keyword = "")) then keyword
          else "cluster"
      end
  end.

(** ** The order of a HashMap does not matter *)

(** [max_by]'s order. *)
Definition below (x y : string * nat) : Prop := x.2 < y.2 ∨ x.2 = y.2 ∧ String.leb y.1 x.1 = true.

Lemma leb_compare x y : String.compare x y = Gt ↔ String.leb x y = false.
Proof. unfold String.leb. by destruct (String.compare x y). Qed.

Lemma more_common_below x y : below x (more_common x y) ∧ below y (more_common x y) ∧ (more_common x y = x ∨ more_common x y = y).
Proof.
  unfold more_common, below. destruct (Nat.compare_spec x.2 y.2) as [Hc|Hc|Hc].
  - destruct (String.compare y.1 x.1) eqn:E.
    1,2: (split_and!; [right; split; [done|unfold String.leb; by rewrite E]|right; split; [done|apply string_leb_refl]|by right]).
    split_and!; [right; split; [done|apply string_leb_refl]|right; split; [done|]|by left].
    apply leb_compare in E. by destruct (string_leb_total y.1 x.1) as [?|?]; congruence.
  - split_and!; [by left|right; split; [done|apply string_leb_refl]|by right].
  - split_and!; [right; split; [done|apply string_leb_refl]|by left|by left].
Qed.

Lemma below_trans x y z : below x y → below y z → below x z.
Proof.
  unfold below. intros [H1|[H1 H1']] [H2|[H2 H2']]; [left; lia..|]. right. split; [lia|]. by eapply string_leb_trans.
Qed.

Lemma below_antisym x y : below x y → below y x → x = y.
Proof.
  unfold below. destruct x as [k n], y as [k' n']. cbn. intros [H1|[H1 H1']] [H2|[H2 H2']]; try lia.
  f_equal; [by apply string_leb_antisym|done].
Qed.

Lemma foldl_more_common x l :
  foldl more_common x l ∈ x :: l ∧ ∀ y, y ∈ x :: l → below y (foldl more_common x l).
Proof.
  revert x. induction l as [|z l IH]; intros x; cbn [foldl].
  { split; [left|]. intros y ->%list_elem_of_singleton. right. split; [done|apply string_leb_refl]. }
  destruct (more_common_below x z) as (Hx & Hz & Hor). destruct (IH (more_common x z)) as [Hin Hall]. split.
  - apply elem_of_cons in Hin as [->|Hin]; [|by do 2 right]. destruct Hor as [->| ->]; set_solver.
  - intros y. rewrite !elem_of_cons. intros [->|[->|Hy]].
    + eapply below_trans; [exact Hx|]. apply Hall. left.
    + eapply below_trans; [exact Hz|]. apply Hall. left.
    + apply Hall. by right.
Qed.

Lemma foldl_more_common_perm x l y k : x :: l ≡ₚ y :: k → foldl more_common x l = foldl more_common y k.
Proof.
  intros Hp. destruct (foldl_more_common x l) as [Hx Hbx], (foldl_more_common y k) as [Hy Hby].
  apply below_antisym; [apply Hby; by rewrite <-Hp|apply Hbx; by rewrite Hp].
Qed.

Lemma ranked_total x y : ranked_before x y = true ∨ ranked_before y x = true.
Proof.
  unfold ranked_before. rewrite (Nat.compare_antisym y.2 x.2). destruct (Nat.compare y.2 x.2); cbn; auto using string_leb_total.
Qed.

Lemma ranked_trans x y z : ranked_before x y = true → ranked_before y z = true → ranked_before x z = true.
Proof.
  unfold ranked_before. destruct (Nat.compare_spec y.2 x.2), (Nat.compare_spec z.2 y.2); try done; intros Ha Hb;
    destruct (Nat.compare_spec z.2 x.2); try done; try lia. by eapply string_leb_trans.
Qed.

Lemma ranked_antisym x y : ranked_before x y = true → ranked_before y x = true → x = y.
Proof.
  unfold ranked_before. rewrite (Nat.compare_antisym y.2 x.2). destruct (Nat.compare_spec y.2 x.2) as [Hc|Hc|Hc]; cbn; try done.
  intros H1 H2. destruct x, y. cbn in *. f_equal; [by apply string_leb_antisym|done].
Qed.

End names.

(** Two orders give one name. *)
Section stable.
Context `{Json}.
Context (unordered1 unordered2 : ∀ A, list A → list A).
Hypothesis perm1 : ∀ A (l : list A), unordered1 A l ≡ₚ l.
Hypothesis perm2 : ∀ A (l : list A), unordered2 A l ≡ₚ l.
Context (camel : string → string) (split_words : string → list string) (slug to_lowercase : string → string).

Lemma most_common_stable counts : most_common unordered1 counts = most_common unordered2 counts.
Proof using perm1 perm2.
  unfold most_common. assert (Hp : unordered1 _ (map_to_list counts) ≡ₚ unordered2 _ (map_to_list counts)) by by rewrite perm1, perm2.
  destruct (unordered1 _ _) as [|x l], (unordered2 _ _) as [|y k]; [done|by apply Permutation_nil_l in Hp|by apply Permutation_nil_r in Hp|].
  f_equal. by apply foldl_more_common_perm.
Qed.

Lemma dominant_language_stable members : dominant_language unordered1 members = dominant_language unordered2 members.
Proof using perm1 perm2. unfold dominant_language. by rewrite most_common_stable. Qed.

Lemma generate_community_name_stable members :
  generate_community_name unordered1 camel split_words slug to_lowercase members =
  generate_community_name unordered2 camel split_words slug to_lowercase members.
Proof using perm1 perm2.
  unfold generate_community_name. destruct members as [|m members]; [done|]. set (ms := m :: members).
  assert (Hp : extract_file_prefix unordered1 slug to_lowercase (n_file_path <$> ms) =
               extract_file_prefix unordered2 slug to_lowercase (n_file_path <$> ms)).
  { unfold extract_file_prefix. by rewrite most_common_stable. }
  rewrite Hp. assert (Hc : ∀ prefix, class_name unordered1 slug to_lowercase ms prefix = class_name unordered2 slug to_lowercase ms prefix).
  { intros prefix. unfold class_name. by rewrite most_common_stable. }
  rewrite Hc. assert (Hk : extract_keywords unordered1 camel split_words to_lowercase ms = extract_keywords unordered2 camel split_words to_lowercase ms).
  { unfold extract_keywords. do 2 f_equal. apply sort_by_unique; [apply ranked_total|apply ranked_trans|apply ranked_antisym|].
    by rewrite perm1, perm2. }
  by rewrite Hk.
Qed.

End stable.
End CommunityNames.
