(* ===== verification/Communities.v ===== *)
(** * Detecting communities

    Models crates/dagayn-postproc/src/communities/: cohesion.rs, file_based.rs,
    leiden.rs and mod.rs: the graph given to the Leiden algorithm, the clusters
    read back, the fallback on directories, splitting what is too large, the order
    of the result, and detection around a change.  The Leiden library, the C
    library's logarithm and the order of a HashMap or HashSet are parameters. *)
From S2P Require Import Prelude GraphData Store StoreSpec Impact CommunityStore CommunityNames.
Import GraphData Store Impact CommunityStore CommunityNames.

Module Communities.

#[local] Set Default Proof Using "Type".

(** ** Floats *)

Definition f64_max (x y : f64) : f64 := match SpecFloat.SFcompare x y with Some Lt => y | Some _ => x | None =>
  match x with SpecFloat.S754_nan => y | _ => x end end.
Definition f64_mul : f64 → f64 → f64 := SpecFloat.SFmul 53 1024.
Definition f64_div : f64 → f64 → f64 := SpecFloat.SFdiv 53 1024.
Definition ten : f64 := SpecFloat.S754_finite false 5629499534213120 (-49).
Definition ten_thousand : f64 := SpecFloat.S754_finite false 5497558138880000 (-39).
Definition twentieth : f64 := SpecFloat.S754_finite false 7205759403792794 (-57).
Definition quarter : f64 := SpecFloat.S754_finite false 4503599627370496 (-54).
Definition zero : f64 := SpecFloat.S754_zero false.

(** [f64::round]: to the nearest integer, halves away from zero. *)
Definition f64_round (x : f64) : f64 :=
  match x with
  | SpecFloat.S754_finite s m e =>
      if (0 <=? e)%Z then x
      else
        let d := Z.shiftl 1 (- e) in
        let n := ((Z.pos m + Z.shiftl 1 (- e - 1)) / d)%Z in
        SpecFloat.binary_normalize 53 1024 (if s then - n else n) 0 s
  | _ => x
  end.

(** [x as i64]: towards zero, within the range. *)
Definition f64_as_i64 (x : f64) : Z :=
  match x with
  | SpecFloat.S754_finite s m e =>
      let n := (if (0 <=? e)%Z then Z.shiftl (Z.pos m) e else Z.shiftr (Z.pos m) (- e))%Z in
      Z.max (- 2 ^ 63) (Z.min (2 ^ 63 - 1) (if s then - n else n))
  | SpecFloat.S754_infinity s => if s then (- 2 ^ 63)%Z else (2 ^ 63 - 1)%Z
  | _ => 0%Z
  end.

(** ** Data *)

(** Source: crates/dagayn-postproc/src/communities/mod.rs 14-23 [DetectedCommunity]. *)
Record DetectedCommunity := mkDetected {
  d_name : string;
  d_level : Z;
  d_size : Z;
  d_cohesion : f64;
  d_dominant_language : string;
  d_description : string;
  d_members : list string
}.

Definition with_cohesion (x : f64) (c : DetectedCommunity) : DetectedCommunity :=
  mkDetected (d_name c) (d_level c) (d_size c) x (d_dominant_language c) (d_description c) (d_members c).
Definition with_members (l : list string) (c : DetectedCommunity) : DetectedCommunity :=
  mkDetected (d_name c) (d_level c) (d_size c) (d_cohesion c) (d_dominant_language c) (d_description c) l.

(** What the code asks of the Leiden library.

    Source: crates/dagayn-postproc/src/communities/leiden.rs 87-93 [detect_leiden]. *)
Record LeidenConfig := mkConfig { max_iterations : option nat; resolution : f64; seed : Z }.

(** Source: crates/dagayn-postproc/src/communities/leiden.rs 13 [LEIDEN_RANDOM_SEED]. *)
Definition LEIDEN_RANDOM_SEED : Z := 20260813.

(** Source: crates/dagayn-postproc/src/communities/leiden.rs 20-29 [EDGE_WEIGHTS]. *)
Definition EDGE_WEIGHTS : list (string * f64) :=
  [("CALLS", one); ("IMPORTS_FROM", half); ("INHERITS", SpecFloat.S754_finite false 7205759403792794 (-53));
   ("IMPLEMENTS", SpecFloat.S754_finite false 6305039478318694 (-53));
   ("CONTAINS", SpecFloat.S754_finite false 5404319552844595 (-54));
   ("TESTED_BY", SpecFloat.S754_finite false 7205759403792794 (-54));
   ("DEPENDS_ON", SpecFloat.S754_finite false 5404319552844595 (-53));
   ("CROSS_ARTIFACT", SpecFloat.S754_finite false 5404319552844595 (-53))].

(** Source: crates/dagayn-postproc/src/communities/leiden.rs 68-71 [detect_leiden]. *)
Definition edge_weight (kind : string) : f64 :=
  match list_find (λ w, w.1 = kind) EDGE_WEIGHTS with Some (_, (_, w)) => w | None => half end.

Section communities.
Context `{Json} {F : Type}.
Context (unordered : ∀ A, list A → list A).
Context (camel : string → string) (split_words : string → list string) (slug to_lowercase : string → string).
(** [from_petgraph] and [Leiden::run] on so many nodes and weighted edges: the
    community of each node, or an error; and [f64::log10]. *)
Context (leiden : LeidenConfig → nat → list (nat * nat * f64) → option (nat → nat)) (log10 : f64 → f64).

#[local] Abbreviation community_name := (generate_community_name unordered camel split_words slug to_lowercase).
#[local] Abbreviation language_of := (CommunityNames.dominant_language unordered).

(** ** Cohesion *)

(** The community of each member.

    Source: crates/dagayn-postproc/src/communities/cohesion.rs 9-14 [compute_cohesion_batch]. *)
Definition member_index (communities : list (list string)) : gmap string nat :=
  foldl (λ m '(idx, members), foldl (λ m q, <[q := idx]> m) m members) ∅ (imap pair communities).

(** Inner and outer edges of each community.

    Source: crates/dagayn-postproc/src/communities/cohesion.rs 20-39 [compute_cohesion_batch]. *)
Definition count_ends (qn_to_idx : gmap string nat) (counts : list nat * list nat) (e : GraphEdge) : list nat * list nat :=
  let '(internal, external) := counts in
  let sc := qn_to_idx !! g_source_qualified e in
  let tc := qn_to_idx !! g_target_qualified e in
  match sc, tc with
  | None, None => counts
  | _, _ =>
      if bool_decide (g_kind e = "CALLS") && negb (str_contains "::" (g_target_qualified e)) then counts
      else
        match sc, tc with
        | Some l, Some r =>
            if bool_decide (l = r) then (alter S l internal, external)
            else (internal, alter S r (alter S l external))
        | Some l, None => (internal, alter S l external)
        | None, Some r => (internal, alter S r external)
        | None, None => counts
        end
  end.

(** Source: crates/dagayn-postproc/src/communities/cohesion.rs 41-50 [compute_cohesion_batch]. *)
Definition ratio (internal external : nat) : f64 :=
  let total := internal + external in
  if 0 <? total then f64_div (f64_of (Z.of_nat internal)) (f64_of (Z.of_nat total)) else zero.

(** The members of each community come from a HashSet.

    Source: crates/dagayn-postproc/src/communities/cohesion.rs 5-51 [compute_cohesion_batch]. *)
Definition compute_cohesion_batch (communities : list (gset string)) (edges : list GraphEdge) : list f64 :=
  let qn_to_idx := member_index ((λ c, unordered _ (elements c)) <$> communities) in
  let zeros := replicate (length communities) 0 in
  let '(internal, external) := foldl (count_ends qn_to_idx) (zeros, zeros) edges in
  zip_with ratio internal external.

(** Source: crates/dagayn-postproc/src/communities/cohesion.rs 53-55 [round_cohesion]. *)
Definition round_cohesion (value : f64) : f64 := f64_div (f64_round (f64_mul value ten_thousand)) ten_thousand.

(** Communities of some groups of nodes with the cohesions computed for all.

    Source: crates/dagayn-postproc/src/communities/leiden.rs 126-149 [detect_leiden]. *)
Definition with_cohesions (pending : list (list GraphNode * string)) (edges : list GraphEdge) : list DetectedCommunity :=
  let qns : list (gset string) := (λ p, list_to_set (n_qualified_name <$> p.1)) <$> pending in
  zip_with (λ '(members, description, qns) cohesion,
      mkDetected (community_name members) 0 (Z.of_nat (length members)) (round_cohesion cohesion)
        (language_of members) description (unordered _ (elements (qns : gset string))))
    (zip pending qns) (compute_cohesion_batch qns edges).

(** ** Directories *)

(** Source: crates/dagayn-postproc/src/communities/file_based.rs 17-30 [detect_file_based]. *)
Definition dir_parts_of (node : GraphNode) : list string :=
  let parts := filter (λ p, p ≠ "") (split_slash (replace_char backslash slash (n_file_path node))) in
  take (length parts - 1) parts.

(** Source: crates/dagayn-postproc/src/communities/file_based.rs 36-43 [detect_file_based]. *)
Fixpoint common_prefix (all_dir_parts : list (list string)) (first : list string) (shortest i : nat) : nat :=
  match shortest with
  | 0 => i
  | S shortest =>
      if forallb (λ parts, bool_decide (parts !! i = first !! i)) all_dir_parts
      then common_prefix all_dir_parts first shortest (S i) else i
  end.

(** Source: crates/dagayn-postproc/src/communities/file_based.rs 33-44 [detect_file_based]. *)
Definition prefix_len (all_dir_parts : list (list string)) : nat :=
  match all_dir_parts with
  | [] => 0
  | first :: rest => common_prefix all_dir_parts first (foldr Nat.min (length first) (length <$> rest)) 0
  end.

(** Source: crates/dagayn-postproc/src/communities/file_based.rs 49-69 [detect_file_based]. *)
Definition group_key (prefix depth : nat) (node : GraphNode) : string :=
  match drop prefix (dir_parts_of node) with
  | [] =>
      match last (split_slash (replace_char backslash slash (n_file_path node))) ≫= rsplit_once dot with
      | Some (stem, _) => stem
      | None => "root"
      end
  | remainder => String.concat "/" (take depth remainder)
  end.

Definition push_group {K V} `{Countable K} (m : gmap K (list V)) (kv : K * V) : gmap K (list V) :=
  <[kv.1 := default [] (m !! kv.1) ++ [kv.2]]> m.

(** Source: crates/dagayn-postproc/src/communities/file_based.rs 46-73 [detect_file_based]. *)
Definition group_at_depth (nodes : list GraphNode) (prefix depth : nat) : gmap string (list GraphNode) :=
  foldl push_group ∅ ((λ n, (group_key prefix depth n, n)) <$> nodes).

(** Source: crates/dagayn-postproc/src/communities/file_based.rs 81-91 [detect_file_based]. *)
Fixpoint best_groups (nodes : list GraphNode) (min_size prefix : nat) (best : gmap string (list GraphNode)) (depths : list nat)
    : gmap string (list GraphNode) :=
  match depths with
  | [] => best
  | depth :: depths =>
      let groups := group_at_depth nodes prefix depth in
      let qualifying := length (filter (λ g, min_size <= length g.2) (map_to_list groups)) in
      if 10 <=? qualifying then groups else best_groups nodes min_size prefix groups depths
  end.

(** Source: crates/dagayn-postproc/src/communities/file_based.rs 9-126 [detect_file_based]. *)
Definition detect_file_based (nodes : list GraphNode) (edges : list GraphEdge) (min_size : nat) : list DetectedCommunity :=
  let all_dir_parts := dir_parts_of <$> nodes in
  let prefix := prefix_len all_dir_parts in
  let max_depth := foldr Nat.max 0 ((λ parts, length parts - prefix) <$> all_dir_parts) in
  let groups := best_groups nodes min_size prefix (group_at_depth nodes prefix 1) (seq 1 (Nat.max max_depth 1)) in
  let pending := filter (λ g, min_size <= length g.2) (unordered _ (map_to_list groups)) in
  with_cohesions ((λ '(dir_path, members), (members, "Directory-based community: " +:+ dir_path)) <$> pending) edges.

(** ** The Leiden algorithm *)

(** Source: crates/dagayn-postproc/src/communities/leiden.rs 15-18 [leiden_resolution]. *)
Definition leiden_resolution (node_count : nat) : f64 :=
  let n_nodes := f64_of (Z.of_nat (Nat.max node_count 1)) in
  f64_max (f64_div one (log10 (f64_max n_nodes ten))) twentieth.

(** Source: crates/dagayn-postproc/src/communities/leiden.rs 40-43 [detect_leiden]. *)
Definition index_nodes (nodes : list GraphNode) : gmap string nat :=
  foldl (λ m '(idx, n), <[n_qualified_name n := idx]> m) ∅ (imap pair nodes).

(** The indices of the two ends of an edge, when they are two nodes.

    Source: crates/dagayn-postproc/src/communities/leiden.rs 53-61 [detect_leiden]. *)
Definition edge_ends (qn_to_idx : gmap string nat) (e : GraphEdge) : option (nat * nat) :=
  i ← qn_to_idx !! g_source_qualified e;
  j ← qn_to_idx !! g_target_qualified e;
  if bool_decide (i = j) then None else Some (i, j).

(** Source: crates/dagayn-postproc/src/communities/leiden.rs 51-75 [detect_leiden]. *)
Definition add_edge (qn_to_idx : gmap string nat) (acc : gset (nat * nat) * list (nat * nat * f64)) (e : GraphEdge)
    : gset (nat * nat) * list (nat * nat * f64) :=
  match edge_ends qn_to_idx e with
  | None => acc
  | Some (i, j) =>
      let pair := (Nat.min i j, Nat.max i j) in
      if bool_decide (pair ∈ acc.1) then acc
      else ({[pair]} ∪ acc.1, acc.2 ++ [(pair.1, pair.2, edge_weight (g_kind e))])
  end.

(** The clusters in the order of their ids, each in the order of the nodes.

    Source: crates/dagayn-postproc/src/communities/leiden.rs 100-105 [detect_leiden]. *)
Definition clusters (community_of : nat → nat) (n : nat) : list (list nat) :=
  (sort_by (λ x y, x.1 <=? y.1) (map_to_list (foldl push_group (∅ : gmap nat (list nat)) ((λ i, (community_of i, i)) <$> seq 0 n)))).*2.

(** Source: crates/dagayn-postproc/src/communities/leiden.rs 31-150 [detect_leiden]. *)
Definition detect_leiden (nodes : list GraphNode) (edges : list GraphEdge) (min_size : nat) : list DetectedCommunity :=
  match nodes with
  | [] => []
  | _ =>
      let graph := (foldl (add_edge (index_nodes nodes)) (∅, []) edges).2 in
      match graph with
      | [] => detect_file_based nodes edges min_size
      | _ =>
          match leiden (mkConfig (Some 2) (leiden_resolution (length nodes)) LEIDEN_RANDOM_SEED) (length nodes) graph with
          | None => detect_file_based nodes edges min_size
          | Some community_of =>
              let members := (λ ids, omap (λ i, nodes !! i) ids) <$>
                               filter (λ ids, min_size <= length ids) (clusters community_of (length nodes)) in
              with_cohesions
                ((λ ms, (ms, "Community of " +:+ decimal (length ms) +:+ " nodes")) <$> filter (λ ms, min_size <= length ms) members)
                edges
          end
      end
  end.

(** ** Splitting *)

(** Source: crates/dagayn-postproc/src/communities/leiden.rs 244-335 [detect_leiden_subgraph]. *)
Definition detect_leiden_subgraph (nodes : list GraphNode) (edges : list GraphEdge) (resolution : f64) : list DetectedCommunity :=
  match nodes with
  | [] => []
  | _ =>
      let qn_to_idx := index_nodes nodes in
      let graph := omap (λ e, '(i, j) ← edge_ends qn_to_idx e; Some (i, j, edge_weight (g_kind e))) edges in
      match graph with
      | [] => []
      | _ =>
          match leiden (mkConfig None resolution LEIDEN_RANDOM_SEED) (length nodes) graph with
          | None => []
          | Some community_of =>
              omap (λ ids,
                match omap (λ i, nodes !! i) ids with
                | [] => None
                | ms => Some (mkDetected (community_name ms) 0 (Z.of_nat (length ms)) zero (language_of ms)
                                ("Split from " +:+ community_name ms) (n_qualified_name <$> ms))
                end) (clusters community_of (length nodes))
          end
      end
  end.

(** Source: crates/dagayn-postproc/src/communities/leiden.rs 337-348 [backfill_split_cohesion]. *)
Definition backfill_split_cohesion (communities : list DetectedCommunity) (edges : list GraphEdge) : list DetectedCommunity :=
  zip_with (λ c cohesion, if SpecFloat.SFeqb (d_cohesion c) zero then with_cohesion (round_cohesion cohesion) c else c)
    communities (compute_cohesion_batch ((λ c, list_to_set (d_members c)) <$> communities) edges).

(** The community that is too large each member is in.

    Source: crates/dagayn-postproc/src/communities/leiden.rs 174-181 [split_oversized]. *)
Definition oversized_index (communities : list DetectedCommunity) (threshold : Z) : gmap string nat :=
  foldl (λ m '(idx, c), if (threshold <? d_size c)%Z then foldl (λ m q, <[q := idx]> m) m (d_members c) else m)
    ∅ (imap pair communities).

(** Source: crates/dagayn-postproc/src/communities/leiden.rs 182-195 [split_oversized]. *)
Definition edges_by_community (qn_to_oversized : gmap string nat) (edges : list GraphEdge) : gmap nat (list GraphEdge) :=
  foldl (λ m e,
    match qn_to_oversized !! g_source_qualified e, qn_to_oversized !! g_target_qualified e with
    | Some i, Some j => if bool_decide (i = j) then push_group m (i, e) else m
    | _, _ => m
    end) ∅ edges.

(** The first of each value. *)
Fixpoint firsts (seen : gset string) (l : list string) : list string :=
  match l with
  | [] => []
  | x :: l => if bool_decide (x ∈ seen) then firsts seen l else x :: firsts ({[x]} ∪ seen) l
  end.

(** The parts of a community and the next number, when it is split.

    Source: crates/dagayn-postproc/src/communities/leiden.rs 197-238 [split_oversized]. *)
Definition split_one (nodes_by_qn : gmap string GraphNode) (member_edges : nat → list GraphEdge) (threshold min_split_size : Z)
    (acc : list DetectedCommunity * Z) (ic : nat * DetectedCommunity) : list DetectedCommunity * Z :=
  let '(result, next_id) := acc in
  let '(idx, community) := ic in
  if (d_size community <=? threshold)%Z then (result ++ [community], next_id)
  else
    let member_nodes := omap (λ q, nodes_by_qn !! q) (firsts ∅ (d_members community)) in
    if (Z.of_nat (length member_nodes) <? min_split_size)%Z then (result ++ [community], next_id)
    else
      let sub_communities := detect_leiden_subgraph member_nodes (member_edges idx) half in
      if length sub_communities <=? 1 then (result ++ [community], next_id)
      else
        foldl (λ '(result, next_id) sub,
          (result ++ [mkDetected (d_name community +:+ "-sub" +:+ pretty (next_id : Z)) (d_level community + 1) (d_size sub) (d_cohesion sub)
                        (d_dominant_language sub) (d_description sub) (d_members sub)], (next_id + 1)%Z))
          (result, next_id) sub_communities.

(** Source: crates/dagayn-postproc/src/communities/leiden.rs 152-242 [split_oversized]. *)
Definition split_oversized (communities : list DetectedCommunity) (nodes : list GraphNode) (edges : list GraphEdge)
    (threshold_pct : f64) (min_split_size : Z) : list DetectedCommunity :=
  let total := foldr (λ c n, (d_size c + n)%Z) 0%Z communities in
  if (total =? 0)%Z then communities
  else
    let threshold := Z.max (f64_as_i64 (f64_mul (f64_of total) threshold_pct)) min_split_size in
    let nodes_by_qn := foldl (λ m n, <[n_qualified_name n := n]> m) ∅ nodes in
    let by_community := edges_by_community (oversized_index communities threshold) edges in
    let result := (foldl (split_one nodes_by_qn (λ idx, default [] (by_community !! idx)) threshold min_split_size)
                     ([], 1%Z) (imap pair communities)).1 in
    backfill_split_cohesion result edges.

(** ** Detection *)

(** [Option]'s order on the first members. *)
Definition first_member_le (x y : DetectedCommunity) : bool :=
  match head (d_members x), head (d_members y) with
  | None, _ => true
  | Some _, None => false
  | Some a, Some b => String.leb a b
  end.

(** Source: crates/dagayn-postproc/src/communities/mod.rs 54-59 [sort_communities]. *)
Definition sort_communities (communities : list DetectedCommunity) : list DetectedCommunity :=
  sort_by first_member_le ((λ c, with_members (sort_by String.leb (d_members c)) c) <$> communities).

(** Source: crates/dagayn-postproc/src/communities/mod.rs 31-50 [detect_communities_from]. *)
Definition detect_communities_from (nodes : list GraphNode) (edges : list GraphEdge) (min_size : Z) : list DetectedCommunity :=
  let min_size := Z.to_nat (Z.max min_size 1) in
  let results := detect_leiden nodes edges min_size in
  let results := match results with [] => detect_file_based nodes edges min_size | _ => results end in
  sort_communities (split_oversized (sort_communities results) nodes edges quarter 10).

End communities.
End Communities.
