(* ===== verification/CommunitySpec.v ===== *)
(** * What detection promises

    The communities of Communities.v share no node, each is sorted and counts its
    members, splitting loses none, their cohesion is the share of the edges at
    them that stay inside, and the result does not depend on the order of a
    HashMap. *)
From S2P Require Import Prelude GraphData Store Impact EdgePass CommunityStore CommunityNames Communities.
Import GraphData Store Impact CommunityStore CommunityNames Communities.

Module CommunitySpec.

#[local] Set Default Proof Using "Type".

(** ** Lists of disjoint groups *)

Lemma concat_filter_NoDup {A} (P : list A → Prop) `{!∀ l, Decision (P l)} (ls : list (list A)) :
  NoDup (concat ls) → NoDup (concat (filter P ls)).
Proof.
  induction ls as [|l ls IH]; [done|]. cbn [concat]. intros (Hl & Hd & Hls)%NoDup_app. rewrite filter_cons.
  case_decide; [|by apply IH]. cbn [concat]. apply NoDup_app. split; [done|]. split; [|by apply IH].
  intros x Hx (k & Hk & [_ Hin]%list_elem_of_filter)%elem_of_concat. apply (Hd x Hx), elem_of_concat. by exists k.
Qed.

Lemma concat_Permutation {A} (ls ks : list (list A)) : Forall2 (≡ₚ) ls ks → concat ls ≡ₚ concat ks.
Proof. induction 1; [done|]. cbn [concat]. by f_equiv. Qed.

Lemma concat_fmap {A B} (f : A → B) (ls : list (list A)) : concat ((λ l : list A, f <$> l) <$> ls) = f <$> concat ls.
Proof. induction ls as [|l ls IH]; [done|]. cbn. by rewrite fmap_app, <-IH. Qed.

#[export] Instance concat_Permutation_Proper {A} : Proper ((≡ₚ) ==> (≡ₚ)) (@concat A).
Proof.
  induction 1 as [|l ls ks _ IH|l k ls|ls ks ms _ IH1 _ IH2]; cbn [concat]; [done|by rewrite IH| |by rewrite IH1].
  rewrite !(assoc_L (++)). by rewrite (comm (++) k l).
Qed.

(** A member of two of the groups is a member of one. *)
Lemma disjoint_index {A} (ls : list (list A)) i j l k x :
  NoDup (concat ls) → ls !! i = Some l → ls !! j = Some k → x ∈ l → x ∈ k → i = j.
Proof.
  revert i j. induction ls as [|l0 ls IH]; intros i j; [done|]. cbn [concat]. intros (_ & Hd & Hls)%NoDup_app.
  assert (Hin : ∀ n (m : list A), ls !! n = Some m → x ∈ m → x ∈ concat ls).
  { intros n m Hn Hx. apply elem_of_concat. exists m. split; [done|]. by eapply list_elem_of_lookup_2. }
  destruct i as [|i], j as [|j]; cbn; intros Hi Hj Hxl Hxk; [done| | |f_equal; by apply IH].
  - injection Hi as ->. by destruct (Hd x Hxl); eapply Hin.
  - injection Hj as ->. by destruct (Hd x Hxk); eapply Hin.
Qed.

Section groups.
Context {K V : Type} `{Countable K}.

Lemma push_group_perm (m : gmap K (list V)) kv :
  concat (map_to_list (push_group m kv)).*2 ≡ₚ kv.2 :: concat (map_to_list m).*2.
Proof.
  destruct kv as [k v]. unfold push_group. cbn [fst snd]. destruct (m !! k) as [l|] eqn:Hk; cbn.
  - rewrite <-(insert_delete_id m k l Hk) at 2. rewrite <-(insert_delete_eq m).
    rewrite !map_to_list_insert by apply lookup_delete_eq. cbn. rewrite <-app_assoc. cbn. by rewrite Permutation_middle.
  - rewrite map_to_list_insert by done. done.
Qed.

Lemma push_groups_perm l (m : gmap K (list V)) :
  concat (map_to_list (foldl push_group m l)).*2 ≡ₚ l.*2 ++ concat (map_to_list m).*2.
Proof.
  revert m. induction l as [|kv l IH]; intros m; [done|]. cbn [foldl fmap list_fmap app].
  rewrite IH, push_group_perm. by rewrite Permutation_middle.
Qed.

Lemma push_groups_nonempty l (m : gmap K (list V)) :
  (∀ k vs, m !! k = Some vs → vs ≠ []) → ∀ k vs, foldl push_group m l !! k = Some vs → vs ≠ [].
Proof.
  revert m. induction l as [|[k v] l IH]; intros m Hm; [done|]. cbn [foldl]. apply IH. intros k' vs. unfold push_group. cbn.
  destruct (decide (k = k')) as [->|Hne]; [|rewrite lookup_insert_ne by done; apply Hm].
  rewrite lookup_insert_eq. intros [= <-]. by destruct (default [] _).
Qed.

End groups.

(** ** Cohesion *)

Section cohesion.
Context `{Json}.

(** An edge that counts: a call of a bare name does not. *)
Definition counted (e : GraphEdge) : bool :=
  negb (bool_decide (g_kind e = "CALLS") && negb (str_contains "::" (g_target_qualified e))).

Definition inner (c : list string) (e : GraphEdge) : bool :=
  counted e && bool_decide (g_source_qualified e ∈ c) && bool_decide (g_target_qualified e ∈ c).
Definition outer (c : list string) (e : GraphEdge) : bool :=
  counted e && xorb (bool_decide (g_source_qualified e ∈ c)) (bool_decide (g_target_qualified e ∈ c)).

Definition count (p : GraphEdge → bool) (edges : list GraphEdge) : nat := length (filter (λ e, p e = true) edges).

(** The share of the edges at a community that stay inside. *)
Definition cohesion_of (edges : list GraphEdge) (c : list string) : f64 := ratio (count (inner c) edges) (count (outer c) edges).

Lemma count_cons p e edges : count p (e :: edges) = (if p e then 1 else 0) + count p edges.
Proof. unfold count. rewrite filter_cons. destruct (p e); [by rewrite decide_True|by rewrite decide_False]. Qed.

Lemma insert_all_lookup (i : nat) l (m : gmap string nat) q :
  foldl (λ m q, <[q := i]> m) m l !! q = if bool_decide (q ∈ l) then Some i else m !! q.
Proof.
  revert m. induction l as [|x l IH]; intros m; [done|]. cbn [foldl]. rewrite IH.
  destruct (decide (q ∈ l)) as [Hq|Hq].
  { by rewrite !bool_decide_eq_true_2 by set_solver. }
  rewrite (bool_decide_eq_false_2 (q ∈ l)) by done. destruct (decide (q = x)) as [->|Hne].
  - rewrite lookup_insert_eq, bool_decide_eq_true_2 by set_solver. done.
  - rewrite lookup_insert_ne, bool_decide_eq_false_2 by set_solver. done.
Qed.

Lemma member_index_spec (cs : list (list string)) q i :
  NoDup (concat cs) → member_index cs !! q = Some i ↔ ∃ c, cs !! i = Some c ∧ q ∈ c.
Proof.
  intros Hnd. unfold member_index.
  assert (Hg : ∀ k (m : gmap string nat), (∀ j, m !! q = Some j → j < k) →
    foldl (λ m '(idx, members), foldl (λ m q, <[q := idx]> m) m members) m (imap (λ i c, (k + i, c)) cs) !! q = Some i ↔
    (m !! q = Some i ∧ q ∉ concat cs) ∨ ∃ c j, cs !! j = Some c ∧ q ∈ c ∧ i = k + j).
  { revert Hnd. induction cs as [|c cs IH]; intros Hnd k m Hm; cbn [imap foldl concat].
    { split; [intros Hi; left; split; [done|apply not_elem_of_nil]|]. intros [[? _]|(c & j & Hj & _)]; done. }
    cbn [concat] in Hnd. apply NoDup_app in Hnd as (_ & Hd & Hcs).
    rewrite (imap_ext _ (λ i c, (S k + i, c))) by (intros j c' _; cbn; f_equal; lia).
    rewrite (IH Hcs (S k)).
    2:{ intros j. rewrite insert_all_lookup. case_bool_decide; [intros [= <-]; lia|]. intros Hj%Hm. lia. }
    rewrite insert_all_lookup, elem_of_app. replace (k + 0) with k by lia. destruct (decide (q ∈ c)) as [Hq|Hq].
    - rewrite bool_decide_eq_true_2 by done. split.
      + intros [[[= <-] Hn]|(c' & j & Hj & Hq' & ->)]; right; [exists c, 0; split_and!; [done|done|lia]|].
        destruct (Hd q Hq). apply elem_of_concat. exists c'. split; [done|]. by eapply list_elem_of_lookup_2.
      + intros [[_ Hn]|(c' & [|j] & Hj & Hq' & ->)]; [tauto| |].
        * left. replace (k + 0) with k by lia. split; [done|by apply Hd].
        * right. exists c', j. split_and!; [done|done|lia].
    - rewrite bool_decide_eq_false_2 by done. split.
      + intros [[Hi Hn]|(c' & j & Hj & Hq' & ->)]; [left; tauto|right]. exists c', (S j). split_and!; [done|done|lia].
      + intros [[Hi Hn]|(c' & [|j] & Hj & Hq' & ->)]; [left; tauto|injection Hj as ->; done|].
        right. exists c', j. split_and!; [done|done|lia]. }
  specialize (Hg 0 ∅ ltac:(intros j; by rewrite lookup_empty)). cbn in Hg. change (imap (λ i c, (i, c)) cs) with (imap pair cs) in Hg. rewrite Hg, lookup_empty.
  split; [intros [[? _]|(c & j & Hj & Hq & ->)]; [done|by exists c]|]. intros (c & Hc & Hq). right. by exists c, i.
Qed.

Definition bump (b : bool) (n : nat) : nat := if b then S n else n.

Lemma alter_bump (i j : nat) (l : list nat) : alter S j l !! i = bump (bool_decide (j = i)) <$> l !! i.
Proof.
  destruct (decide (j = i)) as [->|Hne].
  - rewrite bool_decide_eq_true_2 by done. apply list_lookup_alter_eq.
  - rewrite bool_decide_eq_false_2, list_lookup_alter_ne by done. unfold bump. by destruct (l !! i).
Qed.

Lemma bump_false (o : option nat) : o = bump false <$> o.
Proof. by destruct o. Qed.

Lemma bump_bump a b (o : option nat) : a && b = false → bump a <$> (bump b <$> o) = bump (a || b) <$> o.
Proof. destruct o, a, b; done. Qed.

Lemma count_ends_step (m : gmap string nat) (ls : list (list string)) (I E : list nat) e i c :
  (∀ q i, m !! q = Some i ↔ ∃ c, ls !! i = Some c ∧ q ∈ c) → ls !! i = Some c →
  let r := count_ends m (I, E) e in
  length r.1 = length I ∧ length r.2 = length E ∧
  r.1 !! i = bump (inner c e) <$> I !! i ∧ r.2 !! i = bump (outer c e) <$> E !! i.
Proof.
  intros Hm Hc.
  assert (Hin : ∀ q, bool_decide (q ∈ c) = bool_decide (m !! q = Some i)).
  { intros q. apply bool_decide_ext. rewrite Hm. split; [by exists c|]. intros (c' & Hc' & Hq). congruence. }
  unfold inner, outer, counted. rewrite !Hin. cbn. clear Hin Hm Hc.
  destruct (m !! g_source_qualified e) as [s|], (m !! g_target_qualified e) as [t|];
    destruct (bool_decide (g_kind e = "CALLS") && negb (str_contains "::" (g_target_qualified e))); cbn;
    rewrite ?andb_false_r; try (split_and!; [done|done|apply bump_false|apply bump_false]).
  - destruct (decide (s = t)) as [->|Hne].
    + rewrite !bool_decide_eq_true_2 by done. cbn. rewrite length_alter, alter_bump.
      rewrite (bool_decide_ext (Some t = Some i) (t = i)) by (split; congruence). rewrite andb_diag, xorb_nilpotent.
      split_and!; [done|done|done|apply bump_false].
    + rewrite bool_decide_eq_false_2 by done. cbn. rewrite !length_alter, !alter_bump.
      rewrite (bool_decide_ext (Some s = Some i) (s = i)), (bool_decide_ext (Some t = Some i) (t = i)) by (split; congruence).
      assert (Hst : bool_decide (s = i) && bool_decide (t = i) = false) by (apply andb_false_iff; rewrite !bool_decide_eq_false; lia).
      rewrite Hst. split_and!; [done|done|apply bump_false|]. rewrite bump_bump by by rewrite andb_comm.
      do 2 f_equal. by destruct (bool_decide (s = i)), (bool_decide (t = i)).
  - rewrite length_alter, alter_bump. rewrite (bool_decide_ext (Some s = Some i) (s = i)) by (split; congruence).
    rewrite xorb_false_r. split_and!; [done|done|apply bump_false|done].
  - rewrite length_alter, alter_bump. rewrite (bool_decide_ext (Some t = Some i) (t = i)) by (split; congruence).
    rewrite xorb_false_l. split_and!; [done|done|apply bump_false|done].
Qed.

Lemma counts_spec (m : gmap string nat) (ls : list (list string)) edges (I E : list nat) i c :
  (∀ q i, m !! q = Some i ↔ ∃ c, ls !! i = Some c ∧ q ∈ c) → ls !! i = Some c →
  let r := foldl (count_ends m) (I, E) edges in
  length r.1 = length I ∧ length r.2 = length E ∧
  r.1 !! i = Nat.add (count (inner c) edges) <$> I !! i ∧ r.2 !! i = Nat.add (count (outer c) edges) <$> E !! i.
Proof.
  intros Hm Hc. revert I E. induction edges as [|e edges IH]; intros I E.
  { cbn. split_and!; [done|done|by destruct (I !! i)|by destruct (E !! i)]. }
  cbn [foldl]. destruct (count_ends_step m ls I E e i c Hm Hc) as (H1 & H2 & H3 & H4).
  destruct (count_ends m (I, E) e) as [I1 E1]. cbn in H1, H2, H3, H4. destruct (IH I1 E1) as (G1 & G2 & G3 & G4).
  rewrite H1 in G1. rewrite H2 in G2. rewrite H3 in G3. rewrite H4 in G4. cbn zeta. rewrite !count_cons. split_and!; [done|done| |].
  - cbn in G3. rewrite G3. unfold bump. destruct (I !! i), (inner c e); cbn; f_equal; lia.
  - cbn in G4. rewrite G4. unfold bump. destruct (E !! i), (outer c e); cbn; f_equal; lia.
Qed.

Lemma counts_length (m : gmap string nat) edges (I E : list nat) :
  let r := foldl (count_ends m) (I, E) edges in length r.1 = length I ∧ length r.2 = length E.
Proof.
  revert I E. induction edges as [|e edges IH]; intros I E; [done|]. cbn [foldl].
  assert (Hs : length (count_ends m (I, E) e).1 = length I ∧ length (count_ends m (I, E) e).2 = length E).
  { unfold count_ends. repeat case_match; cbn; rewrite ?length_alter; done. }
  destruct (count_ends m (I, E) e) as [I1 E1]. destruct Hs as [<- <-]. apply IH.
Qed.

Lemma cohesion_of_ext edges c c' : (∀ q, q ∈ c ↔ q ∈ c') → cohesion_of edges c = cohesion_of edges c'.
Proof.
  intros Hc. unfold cohesion_of. assert (Hi : ∀ e, inner c e = inner c' e ∧ outer c e = outer c' e).
  { intros e. unfold inner, outer. by rewrite !(bool_decide_ext _ _ (Hc _)). }
  f_equal; unfold count; f_equal; apply list_filter_iff; intros e; destruct (Hi e) as [Hin Hout]; [by rewrite Hin|by rewrite Hout].
Qed.

Context (unordered : ∀ A, list A → list A).
Hypothesis unordered_perm : ∀ A (l : list A), unordered A l ≡ₚ l.

(** The cohesion of a community is the share of the edges at it that stay
    inside, whatever the other communities. *)
Lemma compute_cohesion_spec (cs : list (gset string)) edges :
  NoDup (concat (elements <$> cs)) →
  compute_cohesion_batch unordered cs edges = (λ c, cohesion_of edges (elements c)) <$> cs.
Proof using unordered_perm.
  intros Hnd. unfold compute_cohesion_batch. set (ls := (λ c, unordered _ (elements c)) <$> cs).
  assert (Hls : NoDup (concat ls)).
  { assert (concat ls ≡ₚ concat (elements <$> cs)) as ->; [|done]. apply concat_Permutation. unfold ls.
    clear -unordered_perm. induction cs as [|c cs IH]; [constructor|]. constructor; [apply unordered_perm|exact IH]. }
  pose proof (λ q i, member_index_spec ls q i Hls) as Hm. set (m := member_index ls) in *.
  set (zeros := replicate (length cs) 0).
  destruct (counts_length m edges zeros zeros) as [HI HE].
  assert (Hat : ∀ i c, cs !! i = Some c →
    (foldl (count_ends m) (zeros, zeros) edges).1 !! i = Some (count (inner (elements c)) edges) ∧
    (foldl (count_ends m) (zeros, zeros) edges).2 !! i = Some (count (outer (elements c)) edges)).
  { intros i c Hc. assert (Hz : zeros !! i = Some 0) by (apply lookup_replicate; split; [done|by eapply lookup_lt_Some]).
    destruct (counts_spec m ls edges zeros zeros i (unordered _ (elements c)) Hm) as (_ & _ & -> & ->).
    { unfold ls. by rewrite list_lookup_fmap, Hc. }
    rewrite Hz. cbn. rewrite !Nat.add_0_r.
    assert (Hq : ∀ q, q ∈ unordered _ (elements c) ↔ q ∈ elements c) by (intros q; by rewrite unordered_perm).
    unfold count. split; do 2 f_equal; apply list_filter_iff; intros e; unfold inner, outer; by rewrite !(bool_decide_ext _ _ (Hq _)). }
  destruct (foldl _ _ edges) as [I E]. cbn in HI, HE, Hat. apply list_eq. intros i. rewrite list_lookup_fmap.
  destruct (cs !! i) as [c|] eqn:Hc; cbn.
  - destruct (Hat i c Hc) as [Hi He]. rewrite lookup_zip_with, Hi. cbn. by rewrite He.
  - apply lookup_ge_None_2. rewrite length_zip_with, HI, HE. unfold zeros. rewrite length_replicate. apply lookup_ge_None in Hc. lia.
Qed.

End cohesion.
(** ** Groups of nodes *)

Section groups_of_nodes.
Context `{Json}.

(** The names in some groups of nodes. *)
Definition group_names (gs : list (list GraphNode)) : list string := n_qualified_name <$> concat gs.

(** Groups that share no name, of nodes given, each large enough. *)
Record groups_ok (nodes : list GraphNode) (min_size : nat) (gs : list (list GraphNode)) : Prop := {
  groups_apart : NoDup (group_names gs);
  groups_named : ∀ n, n ∈ concat gs → n ∈ nodes;
  groups_large : ∀ g, g ∈ gs → min_size <= length g
}.

#[export] Instance groups_ok_perm nodes min_size : Proper ((≡ₚ) ==> iff) (groups_ok nodes min_size).
Proof.
  intros gs gs' Hp. assert (Hn : group_names gs ≡ₚ group_names gs') by (unfold group_names; by rewrite Hp).
  split; intros [H1 H2 H3]; constructor; [by rewrite <-Hn| | |by rewrite Hn| |]; setoid_rewrite Hp || setoid_rewrite <-Hp; done.
Qed.

Lemma groups_filter nodes min_size gs :
  NoDup (n_qualified_name <$> nodes) → concat gs ≡ₚ nodes →
  groups_ok nodes min_size (filter (λ g, min_size <= length g) gs).
Proof.
  intros Hnd Hp. assert (Hsub : ∀ (P : list GraphNode → Prop) `{!∀ g, Decision (P g)} n, n ∈ concat (filter P gs) → n ∈ concat gs).
  { intros P HP n. rewrite !elem_of_concat. setoid_rewrite list_elem_of_filter. naive_solver. }
  constructor.
  - unfold group_names. rewrite <-concat_fmap.
    assert (Hf : (λ l : list GraphNode, n_qualified_name <$> l) <$> filter (λ g, min_size <= length g) gs =
                 filter (λ l, min_size <= length l) ((λ l : list GraphNode, n_qualified_name <$> l) <$> gs)).
    { clear. induction gs as [|g gs IH]; [done|]. rewrite fmap_cons, !filter_cons, length_fmap. by case_decide; rewrite ?fmap_cons, IH. }
    rewrite Hf. apply concat_filter_NoDup. rewrite concat_fmap. by rewrite Hp.
  - intros n Hn%Hsub. by rewrite <-Hp.
  - intros g [Hg _]%list_elem_of_filter. exact Hg.
Qed.

Lemma best_groups_depth nodes min_size prefix best depths :
  best_groups nodes min_size prefix best depths = best ∨
  ∃ d, best_groups nodes min_size prefix best depths = group_at_depth nodes prefix d.
Proof.
  revert best. induction depths as [|d depths IH]; intros best; cbn [best_groups]; [by left|]. right.
  case_match; [by exists d|]. destruct (IH (group_at_depth nodes prefix d)) as [->|[d' ->]]; [by exists d|by exists d'].
Qed.

Lemma group_at_depth_perm nodes prefix d : concat (map_to_list (group_at_depth nodes prefix d)).*2 ≡ₚ nodes.
Proof.
  unfold group_at_depth. rewrite push_groups_perm. cbn. rewrite app_nil_r, <-list_fmap_compose.
  rewrite (list_fmap_ext _ (λ n, n) nodes) by done. by rewrite list_fmap_id.
Qed.

Lemma clusters_perm f n : concat (clusters f n) ≡ₚ seq 0 n.
Proof.
  unfold clusters. rewrite sort_by_Permutation, push_groups_perm. cbn. rewrite app_nil_r, <-list_fmap_compose.
  rewrite (list_fmap_ext _ (λ n, n) (seq 0 n)) by done. by rewrite list_fmap_id.
Qed.

Lemma clusters_nonempty f n ids : ids ∈ clusters f n → ids ≠ [].
Proof.
  unfold clusters. intros ([k l] & -> & Hl)%list_elem_of_fmap. rewrite elem_of_sort_by, elem_of_map_to_list in Hl.
  revert Hl. apply push_groups_nonempty. intros k' vs. by rewrite lookup_empty.
Qed.

Lemma omap_concat {A B} (f : A → option B) (ls : list (list A)) : concat ((λ l : list A, omap f l) <$> ls) = omap f (concat ls).
Proof. induction ls as [|l ls IH]; [done|]. cbn. by rewrite omap_app, <-IH. Qed.

Lemma omap_lookup_seq {A} (l : list A) : omap (λ i, l !! i) (seq 0 (length l)) = l.
Proof.
  induction l as [|x l IH]; [done|]. cbn [length seq]. rewrite <-fmap_S_seq. cbn. f_equal.
  etransitivity; [apply omap_of_fmap|exact IH].
Qed.

Lemma omap_total {A} (l : list A) ids : (∀ i, i ∈ ids → i < length l) → length (omap (λ i, l !! i) ids) = length ids.
Proof.
  induction ids as [|i ids IH]; intros Hl; [done|]. cbn. destruct (lookup_lt_is_Some_2 l i ltac:(apply Hl; left)) as [x ->].
  cbn. by rewrite IH by (intros j Hj; apply Hl; by right).
Qed.

(** The groups the clusters of a partition stand for. *)
Definition cluster_groups (f : nat → nat) (nodes : list GraphNode) : list (list GraphNode) :=
  (λ ids : list nat, omap (λ i, nodes !! i) ids) <$> clusters f (length nodes).

Lemma cluster_groups_perm f (nodes : list GraphNode) : concat (cluster_groups f nodes) ≡ₚ nodes.
Proof. unfold cluster_groups. rewrite omap_concat, clusters_perm. by rewrite omap_lookup_seq. Qed.

Lemma cluster_group_length f (nodes : list GraphNode) ids :
  ids ∈ clusters f (length nodes) → length (omap (λ i, nodes !! i) ids) = length ids.
Proof.
  intros Hids. apply omap_total. intros i Hi. assert (Hin : i ∈ concat (clusters f (length nodes))) by (apply elem_of_concat; by exists ids).
  rewrite clusters_perm, elem_of_seq in Hin. lia.
Qed.

(** The two filters of the code are one. *)
Lemma clusters_filter f (nodes : list GraphNode) min_size :
  filter (λ ms, min_size <= length ms)
    ((λ ids : list nat, omap (λ i, nodes !! i) ids) <$> filter (λ ids, min_size <= length ids) (clusters f (length nodes))) =
  filter (λ ms, min_size <= length ms) (cluster_groups f nodes).
Proof.
  unfold cluster_groups. pose proof (cluster_group_length f nodes) as Hl. revert Hl. generalize (clusters f (length nodes)) as ls. intros ls Hl.
  induction ls as [|ids ls IH]; [done|]. specialize (IH ltac:(intros k Hk; apply Hl; by right)).
  rewrite fmap_cons, !filter_cons, <-IH, (Hl ids) by left. case_decide; [|done].
  rewrite fmap_cons, filter_cons, (Hl ids) by left. by rewrite decide_True.
Qed.

(** ** Nodes by name *)

Lemma firsts_NoDup seen l : NoDup l → (∀ x, x ∈ l → x ∉ seen) → firsts seen l = l.
Proof.
  revert seen. induction l as [|x l IH]; intros seen; [done|]. intros [Hx Hl]%NoDup_cons Hs. cbn [firsts].
  rewrite bool_decide_eq_false_2 by (apply Hs; left). f_equal. apply IH; [done|]. intros y Hy. rewrite elem_of_union, elem_of_singleton.
  intros [->|Hin]; [done|]. by apply (Hs y); [right|].
Qed.

Lemma nodes_by_name_spec (nodes : list GraphNode) q :
  (∃ n, foldl (λ m n, <[n_qualified_name n := n]> m) (∅ : gmap string GraphNode) nodes !! q = Some n ∧ n_qualified_name n = q)
  ↔ q ∈ n_qualified_name <$> nodes.
Proof.
  assert (Hg : ∀ m : gmap string GraphNode, (∀ q n, m !! q = Some n → n_qualified_name n = q) →
    (∀ n, foldl (λ m n, <[n_qualified_name n := n]> m) m nodes !! q = Some n → n_qualified_name n = q) ∧
    (is_Some (foldl (λ m n, <[n_qualified_name n := n]> m) m nodes !! q) ↔ is_Some (m !! q) ∨ q ∈ n_qualified_name <$> nodes)).
  { induction nodes as [|n nodes IH]; intros m Hm; cbn [foldl].
    { split; [apply Hm|]. cbn. rewrite elem_of_nil. tauto. }
    destruct (IH (<[n_qualified_name n := n]> m)) as [H1 H2].
    { intros q' n'. destruct (decide (q' = n_qualified_name n)) as [->|Hne]; [rewrite lookup_insert_eq; by intros [= <-]|].
      rewrite lookup_insert_ne by done. apply Hm. }
    split; [exact H1|]. rewrite H2, fmap_cons, elem_of_cons. destruct (decide (q = n_qualified_name n)) as [->|Hne].
    - rewrite lookup_insert_eq. split; [by right; left|]. left. by eexists.
    - rewrite lookup_insert_ne by done. tauto. }
  destruct (Hg ∅ ltac:(intros ? ?; by rewrite lookup_empty)) as [H1 H2]. split.
  - intros (n & Hn & _). destruct H2 as [H2 _]. destruct H2 as [[? ?]|Hq]; [by eexists|by rewrite lookup_empty in *|done].
  - intros Hq. destruct H2 as [_ H2]. destruct H2 as [n Hn]; [by right|]. exists n. split; [done|]. by apply H1.
Qed.

Lemma lookup_names (m : gmap string GraphNode) (l : list string) :
  (∀ q, q ∈ l → ∃ n, m !! q = Some n ∧ n_qualified_name n = q) → n_qualified_name <$> omap (λ q, m !! q) l = l.
Proof.
  induction l as [|q l IH]; intros Hl; [done|]. cbn. destruct (Hl q ltac:(left)) as (n & -> & Hq). cbn. rewrite Hq. f_equal.
  apply IH. intros q' Hq'. apply Hl. by right.
Qed.

End groups_of_nodes.
(** ** The communities found *)

Section found.
Context `{Json}.
Context (unordered : ∀ A, list A → list A).
Hypothesis unordered_perm : ∀ A (l : list A), unordered A l ≡ₚ l.
Context (camel : string → string) (split_words : string → list string) (slug to_lowercase : string → string).
Context (leiden : LeidenConfig → nat → list (nat * nat * f64) → option (nat → nat)) (log10 : f64 → f64).

#[local] Abbreviation community_name := (generate_community_name unordered camel split_words slug to_lowercase).
#[local] Abbreviation language_of := (CommunityNames.dominant_language unordered).
#[local] Abbreviation detect_file_based := (detect_file_based unordered camel split_words slug to_lowercase).
#[local] Abbreviation detect_leiden := (detect_leiden unordered camel split_words slug to_lowercase leiden log10).
#[local] Abbreviation detect_leiden_subgraph := (detect_leiden_subgraph unordered camel split_words slug to_lowercase leiden).
#[local] Abbreviation split_one := (split_one unordered camel split_words slug to_lowercase leiden).
#[local] Abbreviation split_oversized := (split_oversized unordered camel split_words slug to_lowercase leiden).

(** The community of a group of nodes. *)
Definition form (edges : list GraphEdge) (p : list GraphNode * string) : DetectedCommunity :=
  mkDetected (community_name p.1) 0 (Z.of_nat (length p.1))
    (round_cohesion (cohesion_of edges (n_qualified_name <$> p.1))) (language_of p.1) p.2
    (unordered _ (elements (list_to_set (n_qualified_name <$> p.1) : gset string))).

Lemma group_NoDup (gs : list (list GraphNode)) g : NoDup (group_names gs) → g ∈ gs → NoDup (n_qualified_name <$> g).
Proof.
  unfold group_names. rewrite <-concat_fmap. intros Hnd Hg. eapply NoDup_concat_elem; [exact Hnd|].
  by apply (list_elem_of_fmap_2 (λ l : list GraphNode, n_qualified_name <$> l)).
Qed.

Lemma with_cohesions_form pending edges :
  NoDup (group_names pending.*1) →
  with_cohesions unordered camel split_words slug to_lowercase pending edges = form edges <$> pending.
Proof using unordered_perm.
  intros Hnd. unfold with_cohesions. rewrite (compute_cohesion_spec unordered unordered_perm).
  - clear Hnd. induction pending as [|[g d] pending IH]; [done|]. cbn. f_equal; [|exact IH].
    unfold form. cbn. f_equal. f_equal. apply cohesion_of_ext. intros q. rewrite elem_of_elements. apply elem_of_list_to_set.
  - rewrite <-list_fmap_compose. assert (Hp : concat (elements ∘ (λ p : list GraphNode * string, list_to_set (n_qualified_name <$> p.1) : gset string) <$> pending)
       ≡ₚ group_names pending.*1); [|by rewrite Hp].
    unfold group_names. rewrite <-concat_fmap, <-list_fmap_compose. apply concat_Permutation.
    pose proof (λ g, group_NoDup pending.*1 g Hnd) as Hg. clear Hnd.
    induction pending as [|[g d] pending IH]; [constructor|]. constructor.
    + cbn. apply elements_list_to_set, Hg. left.
    + apply IH. intros g' Hg'. apply Hg. by right.
Qed.

(** The groups the code forms communities of: those of the directories, in some
    order. *)
Definition file_pending (nodes : list GraphNode) (min_size : nat) : list (list GraphNode * string) :=
  let prefix := prefix_len (dir_parts_of <$> nodes) in
  let max_depth := foldr Nat.max 0 ((λ parts, length parts - prefix) <$> (dir_parts_of <$> nodes)) in
  let groups := best_groups nodes min_size prefix (group_at_depth nodes prefix 1) (seq 1 (Nat.max max_depth 1)) in
  (λ '(dir_path, members), (members, "Directory-based community: " +:+ dir_path)) <$>
    filter (λ g, min_size <= length g.2) (unordered _ (map_to_list groups)).

Lemma file_pending_ok nodes min_size :
  NoDup (n_qualified_name <$> nodes) → groups_ok nodes min_size (file_pending nodes min_size).*1.
Proof using unordered_perm.
  intros Hnd. unfold file_pending. set (groups := best_groups _ _ _ _ _).
  assert (Hg : concat (map_to_list groups).*2 ≡ₚ nodes).
  { unfold groups. destruct (best_groups_depth nodes min_size (prefix_len (dir_parts_of <$> nodes))
      (group_at_depth nodes (prefix_len (dir_parts_of <$> nodes)) 1)
      (seq 1 (Nat.max (foldr Nat.max 0 ((λ parts, length parts - prefix_len (dir_parts_of <$> nodes)) <$> (dir_parts_of <$> nodes))) 1)))
      as [->|[d ->]]; apply group_at_depth_perm. }
  assert (Hf : ((λ '(dir_path, members), (members, "Directory-based community: " +:+ dir_path)) <$>
    filter (λ g : string * list GraphNode, min_size <= length g.2) (unordered _ (map_to_list groups))).*1 =
    filter (λ g, min_size <= length g) (unordered _ (map_to_list groups)).*2).
  { clear. induction (unordered _ (map_to_list groups)) as [|[k g] l IH]; [done|]. rewrite fmap_cons, !filter_cons. cbn [snd].
    case_decide; [|exact IH]. rewrite !fmap_cons. cbn. by f_equal. }
  rewrite Hf. apply groups_filter; [done|]. by rewrite unordered_perm.
Qed.

Lemma detect_file_based_form nodes edges min_size :
  NoDup (n_qualified_name <$> nodes) →
  detect_file_based nodes edges min_size = form edges <$> file_pending nodes min_size.
Proof using unordered_perm. intros Hnd. apply with_cohesions_form, (groups_apart nodes min_size), file_pending_ok, Hnd. Qed.

(** The groups of the Leiden algorithm, or of the directories where it gives none. *)
Definition leiden_groups (nodes : list GraphNode) (edges : list GraphEdge) : option (list (list GraphNode)) :=
  match (foldl (add_edge (index_nodes nodes)) (∅, []) edges).2 with
  | [] => None
  | graph =>
      match leiden (mkConfig (Some 2) (leiden_resolution log10 (length nodes)) LEIDEN_RANDOM_SEED) (length nodes) graph with
      | None => None
      | Some f => Some (cluster_groups f nodes)
      end
  end.

Definition leiden_pending (nodes : list GraphNode) (edges : list GraphEdge) (min_size : nat) : list (list GraphNode * string) :=
  match nodes with
  | [] => []
  | _ =>
      match leiden_groups nodes edges with
      | None => file_pending nodes min_size
      | Some gs => (λ ms, (ms, "Community of " +:+ decimal (length ms) +:+ " nodes")) <$> filter (λ ms, min_size <= length ms) gs
      end
  end.

Lemma leiden_pending_ok nodes edges min_size :
  NoDup (n_qualified_name <$> nodes) → groups_ok nodes min_size (leiden_pending nodes edges min_size).*1.
Proof using unordered_perm.
  intros Hnd. unfold leiden_pending. destruct nodes as [|n ns]; [by constructor; cbn; [constructor|intros ? ?%not_elem_of_nil..]|].
  set (nodes := n :: ns) in *. unfold leiden_groups. destruct (foldl _ _ edges).2 as [|x graph]; [by apply file_pending_ok|].
  destruct (leiden _ _ _) as [f|]; [|by apply file_pending_ok].
  rewrite <-list_fmap_compose, (list_fmap_ext _ (λ g, g)), list_fmap_id by done. apply groups_filter; [done|]. apply cluster_groups_perm.
Qed.

Lemma detect_leiden_form nodes edges min_size :
  NoDup (n_qualified_name <$> nodes) →
  detect_leiden nodes edges min_size = form edges <$> leiden_pending nodes edges min_size.
Proof using unordered_perm.
  intros Hnd. pose proof (groups_apart _ _ _ (leiden_pending_ok nodes edges min_size Hnd)) as Hok. revert Hok.
  unfold Communities.detect_leiden, leiden_pending. destruct nodes as [|n ns]; [done|]. set (nodes := n :: ns) in *.
  unfold leiden_groups. destruct (foldl _ _ edges).2 as [|x graph]; [intros _; by apply detect_file_based_form|].
  destruct (leiden _ _ _) as [f|]; [|intros _; by apply detect_file_based_form].
  intros Hok. rewrite clusters_filter. by apply with_cohesions_form.
Qed.

(** ** What the communities keep *)

(** Communities that share no member, of names given, each with its size and some
    member; small ones only below the first level. *)
Record sound (names : list string) (min_size : nat) (cs : list DetectedCommunity) : Prop := {
  members_apart : NoDup (concat (d_members <$> cs));
  members_named : ∀ q, q ∈ concat (d_members <$> cs) → q ∈ names;
  sizes_right : ∀ c, c ∈ cs → d_size c = Z.of_nat (length (d_members c)) ∧ d_members c ≠ [];
  sizes_large : ∀ c, c ∈ cs → (d_level c = 0 ∧ Z.of_nat min_size ≤ d_size c ∨ 1 ≤ d_level c)%Z
}.

Lemma sound_perm names min_size cs cs' :
  concat (d_members <$> cs) ≡ₚ concat (d_members <$> cs') →
  (∀ c, c ∈ cs' → ∃ c0, c0 ∈ cs ∧ d_members c0 ≡ₚ d_members c ∧ d_size c0 = d_size c ∧ d_level c0 = d_level c) →
  sound names min_size cs → sound names min_size cs'.
Proof.
  intros Hp Hin [H1 H2 H3 H4]. constructor.
  - by rewrite <-Hp.
  - intros q. rewrite <-Hp. apply H2.
  - intros c (c0 & Hc0 & Hm & <- & _)%Hin. destruct (H3 c0 Hc0) as [-> Hne]. split; [by rewrite Hm|].
    intros Hn. rewrite Hn in Hm. by apply Permutation_nil_r in Hm.
  - intros c (c0 & Hc0 & _ & <- & <-)%Hin. by apply H4.
Qed.

Lemma form_members edges p :
  NoDup (n_qualified_name <$> p.1) → d_members (form edges p) ≡ₚ n_qualified_name <$> p.1.
Proof using unordered_perm. intros Hnd. cbn. rewrite unordered_perm. by apply elements_list_to_set. Qed.

Lemma forms_sound nodes edges min_size pending :
  1 <= min_size → groups_ok nodes min_size pending.*1 →
  sound (n_qualified_name <$> nodes) min_size (form edges <$> pending).
Proof using unordered_perm.
  intros Hmin [Hnd Hin Hl]. pose proof (λ g, group_NoDup pending.*1 g Hnd) as Hg.
  assert (Hp : concat (d_members <$> (form edges <$> pending)) ≡ₚ group_names pending.*1).
  { unfold group_names. rewrite <-concat_fmap, <-!list_fmap_compose. apply concat_Permutation. clear Hnd Hin Hl.
    induction pending as [|p pending IH]; [constructor|]. constructor.
    - apply form_members, Hg. left.
    - apply IH. intros g Hg'. apply Hg. by right. }
  assert (Hone : ∀ p, p ∈ pending → d_members (form edges p) ≡ₚ n_qualified_name <$> p.1 ∧ min_size <= length p.1).
  { intros p Hp'. split; [apply form_members, Hg|apply Hl]; by apply list_elem_of_fmap_2. }
  constructor.
  - by rewrite Hp.
  - intros q. rewrite Hp. unfold group_names. intros (n & -> & Hn)%list_elem_of_fmap. apply list_elem_of_fmap_2. by apply Hin.
  - intros c (p & -> & Hp')%list_elem_of_fmap. destruct (Hone p Hp') as [Hm Hs]. split.
    + rewrite Hm, length_fmap. done.
    + intros Hn. rewrite Hn in Hm. apply Permutation_nil_l in Hm. apply (f_equal length) in Hm. rewrite length_fmap in Hm. cbn in Hm. lia.
  - intros c (p & -> & Hp')%list_elem_of_fmap. destruct (Hone p Hp') as [_ Hs]. left. cbn. lia.
Qed.

Lemma sort_communities_perm cs : concat (d_members <$> sort_communities cs) ≡ₚ concat (d_members <$> cs).
Proof.
  unfold sort_communities. rewrite sort_by_Permutation, <-list_fmap_compose. apply concat_Permutation.
  induction cs as [|c cs IH]; constructor; [apply sort_by_Permutation|exact IH].
Qed.

Lemma elem_of_sort_communities c cs :
  c ∈ sort_communities cs ↔ ∃ c0, c0 ∈ cs ∧ c = with_members (sort_by String.leb (d_members c0)) c0.
Proof. unfold sort_communities. rewrite elem_of_sort_by, list_elem_of_fmap. naive_solver. Qed.

Lemma sort_sound names min_size cs : sound names min_size cs → sound names min_size (sort_communities cs).
Proof.
  apply sound_perm; [by rewrite sort_communities_perm|]. intros c (c0 & Hc0 & ->)%elem_of_sort_communities. exists c0.
  split; [done|]. cbn. by rewrite sort_by_Permutation.
Qed.

(** ** Splitting loses no member *)

(** The parts of a community hold its nodes. *)
Lemma subgraph_members nodes edges r :
  detect_leiden_subgraph nodes edges r = [] ∨
  concat (d_members <$> detect_leiden_subgraph nodes edges r) ≡ₚ n_qualified_name <$> nodes.
Proof.
  unfold Communities.detect_leiden_subgraph. destruct nodes as [|n ns]; [by left|]. set (nodes := n :: ns).
  destruct (omap _ edges) as [|x graph]; [by left|]. destruct (leiden _ _ _) as [f|]; [|by left]. right.
  rewrite <-(cluster_groups_perm f nodes) at 2. unfold cluster_groups.
  pose proof (cluster_group_length f nodes) as Hl. pose proof (clusters_nonempty f (length nodes)) as Hne. revert Hl Hne.
  generalize (clusters f (length nodes)) as ls. intros ls Hl Hne. induction ls as [|ids ls IH]; [done|].
  cbn [omap list_omap]. rewrite fmap_cons. cbn [concat]. rewrite fmap_app. destruct (omap (λ i, nodes !! i) ids) as [|m ms] eqn:E.
  - exfalso. apply (Hne ids); [left|]. apply length_zero_iff_nil. rewrite <-(Hl ids) by left. by rewrite E.
  - cbn [fmap list_fmap concat d_members]. f_equiv. apply IH; intros k Hk; [apply Hl|apply Hne]; by right.
Qed.

Lemma subgraph_sizes nodes edges r c :
  c ∈ detect_leiden_subgraph nodes edges r → d_size c = Z.of_nat (length (d_members c)) ∧ d_members c ≠ [] ∧ d_level c = 0%Z.
Proof.
  unfold Communities.detect_leiden_subgraph. destruct nodes as [|n ns]; [by intros ?%not_elem_of_nil|].
  destruct (omap _ edges) as [|x graph]; [by intros ?%not_elem_of_nil|]. destruct (leiden _ _ _) as [f|]; [|by intros ?%not_elem_of_nil].
  rewrite list_elem_of_omap. intros (ids & _ & Hc). destruct (omap _ ids) as [|m ms]; [done|]. injection Hc as <-. cbn. by rewrite length_fmap.
Qed.

(** What may stand for a community after splitting. *)
Definition parts_of (c : DetectedCommunity) (parts : list DetectedCommunity) : Prop :=
  concat (d_members <$> parts) ≡ₚ d_members c ∧
  ∀ p, p ∈ parts → p = c ∨
    d_size p = Z.of_nat (length (d_members p)) ∧ d_members p ≠ [] ∧ d_level p = (d_level c + 1)%Z.

Lemma parts_self c : parts_of c [c].
Proof. split; [cbn; by rewrite app_nil_r|]. intros p ->%list_elem_of_singleton. by left. Qed.

(** A part renamed and numbered. *)
Definition part (c : DetectedCommunity) (next_id : Z) (sub : DetectedCommunity) : DetectedCommunity :=
  mkDetected (d_name c +:+ "-sub" +:+ pretty next_id) (d_level c + 1) (d_size sub) (d_cohesion sub)
    (d_dominant_language sub) (d_description sub) (d_members sub).

Lemma number_parts c subs result next_id :
  foldl (λ '(result, next_id) sub, (result ++ [part c next_id sub], (next_id + 1)%Z)) (result, next_id) subs =
  (result ++ imap (λ i sub, part c (next_id + Z.of_nat i) sub) subs, (next_id + Z.of_nat (length subs))%Z).
Proof.
  revert result next_id. induction subs as [|sub subs IH]; intros result next_id; cbn [foldl imap length].
  { by rewrite app_nil_r, Z.add_0_r. }
  rewrite IH, <-app_assoc. cbn [app]. rewrite Z.add_0_r. f_equal; [|lia]. do 2 f_equal. apply imap_ext. intros i x _. cbn.
  by replace (next_id + 1 + Z.of_nat i)%Z with (next_id + Z.of_nat (S i))%Z by lia.
Qed.

Lemma split_one_spec nodes medges threshold min_split acc ic :
  NoDup (d_members ic.2) → (∀ q, q ∈ d_members ic.2 → q ∈ n_qualified_name <$> nodes) →
  ∃ parts next_id, parts_of ic.2 parts ∧
    split_one (foldl (λ m n, <[n_qualified_name n := n]> m) ∅ nodes) medges threshold min_split acc ic = (acc.1 ++ parts, next_id).
Proof.
  destruct acc as [result next_id], ic as [idx c]. cbn [fst snd]. intros Hnd Hin. unfold Communities.split_one.
  assert (Hself : ∀ n : Z, ∃ parts (next_id : Z), parts_of c parts ∧ (result ++ [c], n) = (result ++ parts, next_id)).
  { intros n. exists [c], n. split; [apply parts_self|done]. }
  case_match; [apply Hself|]. set (ms := omap _ _). case_match; [apply Hself|].
  set (subs := Communities.detect_leiden_subgraph _ _ _ _ _ _ _ _ _). destruct (length subs <=? 1) eqn:Hlen; [apply Hself|].
  pose proof (number_parts c subs result next_id) as Hnum. unfold part at 1 in Hnum. rewrite Hnum. clear Hnum.
  eexists _, _. split; [|done].
  assert (Hm : n_qualified_name <$> ms = d_members c).
  { unfold ms. rewrite firsts_NoDup by (done || (intros x _; apply not_elem_of_empty)). apply lookup_names.
    intros q Hq. by apply nodes_by_name_spec, Hin. }
  assert (Hsub : concat (d_members <$> subs) ≡ₚ d_members c).
  { rewrite <-Hm. destruct (subgraph_members ms (medges idx) half) as [Hn|Hn]; [|exact Hn].
    exfalso. fold subs in Hn. rewrite Hn in Hlen. done. }
  split.
  - rewrite <-Hsub. apply (reflexive_eq (R := (≡ₚ))). f_equal. apply list_eq. intros i. rewrite !list_lookup_fmap, list_lookup_imap. by destruct (subs !! i).
  - intros p (i & sub & -> & Hi)%elem_of_lookup_imap_1. right. cbn.
    destruct (subgraph_sizes ms (medges idx) half sub) as (Hs & Hne & _); [by eapply list_elem_of_lookup_2|done].
Qed.

(** The result of splitting before its cohesions are filled in. *)
Lemma split_all_spec nodes medges threshold min_split cs k acc :
  NoDup (concat (d_members <$> cs)) → (∀ q, q ∈ concat (d_members <$> cs) → q ∈ n_qualified_name <$> nodes) →
  ∃ partss, Forall2 parts_of cs partss ∧
    (foldl (split_one (foldl (λ m n, <[n_qualified_name n := n]> m) ∅ nodes) medges threshold min_split) acc
       (imap (λ i c, (k + i, c)) cs)).1 = acc.1 ++ concat partss.
Proof.
  revert k acc. induction cs as [|c cs IH]; intros k acc; cbn [imap foldl fmap list_fmap concat].
  { intros _ _. exists []. split; [constructor|]. cbn. by rewrite app_nil_r. }
  intros (Hc & _ & Hcs)%NoDup_app Hin.
  destruct (split_one_spec nodes medges threshold min_split acc (k + 0, c)) as (parts & next_id & Hparts & ->);
    [done|intros q Hq; apply Hin, elem_of_app; by left|].
  rewrite (imap_ext _ (λ i c, (S k + i, c))) by (intros i x _; cbn; f_equal; lia).
  destruct (IH (S k) (acc.1 ++ parts, next_id) Hcs) as (partss & Hall & Hrun); [intros q Hq; apply Hin, elem_of_app; by right|].
  exists (parts :: partss). split; [by constructor|]. cbn [fold_left concat]. etransitivity; [exact Hrun|]. cbn [fst]. by rewrite app_assoc.
Qed.

Lemma parts_sound names min_size cs partss :
  sound names min_size cs → (∀ c, c ∈ cs → (0 <= d_level c)%Z) → Forall2 parts_of cs partss →
  concat (d_members <$> concat partss) ≡ₚ concat (d_members <$> cs) ∧ sound names min_size (concat partss).
Proof.
  intros [H1 H2 H3 H4] Hlev Hall.
  assert (Hp : concat (d_members <$> concat partss) ≡ₚ concat (d_members <$> cs)).
  { clear -Hall. induction Hall as [|c parts cs partss [Hc _] _ IH]; [done|]. cbn. rewrite fmap_app, concat_app. by f_equiv. }
  split; [exact Hp|].
  assert (Hin : ∀ p, p ∈ concat partss → ∃ c, c ∈ cs ∧ (p = c ∨
    d_size p = Z.of_nat (length (d_members p)) ∧ d_members p ≠ [] ∧ d_level p = (d_level c + 1)%Z)).
  { clear -Hall. induction Hall as [|c parts cs partss [_ Hc] _ IH]; [by intros p ?%not_elem_of_nil|]. intros p. cbn [concat].
    intros [Hp|Hp]%elem_of_app; [exists c; split; [left|by apply Hc]|]. destruct (IH p Hp) as (c' & Hc' & Hor). exists c'. split; [by right|done]. }
  constructor.
  - by rewrite Hp.
  - intros q. rewrite Hp. apply H2.
  - intros p (c & Hc & [->|(Hs & Hne & _)])%Hin; [by apply H3|done].
  - intros p (c & Hc & [->|(_ & _ & Hl)])%Hin; [by apply H4|]. right. specialize (Hlev c Hc). lia.
Qed.

(** A community with its cohesion filled in. *)
Definition filled (edges : list GraphEdge) (c : DetectedCommunity) : DetectedCommunity :=
  if SpecFloat.SFeqb (d_cohesion c) zero then with_cohesion (round_cohesion (cohesion_of edges (d_members c))) c else c.

Lemma backfill_filled cs edges :
  NoDup (concat (d_members <$> cs)) → backfill_split_cohesion unordered cs edges = filled edges <$> cs.
Proof using unordered_perm.
  intros Hnd. unfold backfill_split_cohesion. rewrite (compute_cohesion_spec unordered unordered_perm).
  - clear Hnd. induction cs as [|c cs IH]; [done|]. cbn. f_equal; [|exact IH]. unfold filled. case_match; [|done].
    f_equal. f_equal. apply cohesion_of_ext. intros q. rewrite elem_of_elements. apply elem_of_list_to_set.
  - assert (Hp : concat (elements <$> ((λ c, list_to_set (d_members c) : gset string) <$> cs)) ≡ₚ concat (d_members <$> cs)); [|by rewrite Hp].
    induction cs as [|c cs IH]; [done|]. cbn [fmap list_fmap concat] in Hnd |- *. apply NoDup_app in Hnd as (Hc & _ & Hcs).
    f_equiv; [by apply elements_list_to_set|by apply IH].
Qed.

Lemma filled_members edges c :
  d_members (filled edges c) = d_members c ∧ d_size (filled edges c) = d_size c ∧ d_level (filled edges c) = d_level c.
Proof. unfold filled. by case_match. Qed.

Lemma split_sound nodes edges threshold_pct min_split min_size cs :
  sound (n_qualified_name <$> nodes) min_size cs → (∀ c, c ∈ cs → (0 <= d_level c)%Z) →
  concat (d_members <$> split_oversized cs nodes edges threshold_pct min_split) ≡ₚ concat (d_members <$> cs) ∧
  sound (n_qualified_name <$> nodes) min_size (split_oversized cs nodes edges threshold_pct min_split).
Proof using unordered_perm.
  intros Hs Hlev. unfold Communities.split_oversized. case_match; [by split|]. cbv zeta. set (medges := λ idx, default [] _). set (thr := Z.max _ _).
  destruct (split_all_spec nodes medges thr min_split cs 0 ([], 1%Z)) as (partss & Hall & Hrun);
    [apply Hs|apply Hs|]. cbn in Hrun. change (imap (λ i c, (i, c)) cs) with (imap pair cs) in Hrun.
  destruct (parts_sound _ min_size cs partss Hs Hlev Hall) as [Hp Hparts].
  rewrite Hrun, backfill_filled by apply Hparts.
  assert (Hm : d_members <$> (filled edges <$> concat partss) = d_members <$> concat partss).
  { rewrite <-list_fmap_compose. apply list_fmap_ext. intros _ c _. apply filled_members. }
  rewrite Hm. split; [exact Hp|]. eapply sound_perm; [|intros c (c0 & -> & Hc0)%list_elem_of_fmap; exists c0|exact Hparts].
  - by rewrite Hm.
  - destruct (filled_members edges c0) as (-> & -> & ->). by split.
Qed.

(** The groups of the communities before splitting: those of the algorithm, or,
    when it leaves none, those of the directories. *)
Definition pending_of (nodes : list GraphNode) (edges : list GraphEdge) (min_size : nat) : list (list GraphNode * string) :=
  match leiden_pending nodes edges min_size with
  | [] => file_pending nodes min_size
  | pending => pending
  end.

Lemma pending_ok nodes edges min_size :
  NoDup (n_qualified_name <$> nodes) → groups_ok nodes min_size (pending_of nodes edges min_size).*1.
Proof using unordered_perm.
  intros Hnd. unfold pending_of. pose proof (leiden_pending_ok nodes edges min_size Hnd) as Hl.
  destruct (leiden_pending nodes edges min_size); [by apply file_pending_ok|exact Hl].
Qed.

#[local] Abbreviation detect_communities_from :=
  (detect_communities_from unordered camel split_words slug to_lowercase leiden log10).

Lemma detect_communities_eq nodes edges min_size :
  NoDup (n_qualified_name <$> nodes) →
  detect_communities_from nodes edges min_size =
  sort_communities (split_oversized (sort_communities (form edges <$> pending_of nodes edges (Z.to_nat (Z.max min_size 1)))) nodes edges quarter 10).
Proof using unordered_perm.
  intros Hnd. unfold Communities.detect_communities_from. cbv zeta. rewrite detect_leiden_form, detect_file_based_form by done.
  unfold pending_of. by destruct (leiden_pending _ _ _).
Qed.

Lemma detected_sound nodes edges min_size :
  NoDup (n_qualified_name <$> nodes) →
  sound (n_qualified_name <$> nodes) (Z.to_nat (Z.max min_size 1)) (detect_communities_from nodes edges min_size).
Proof using unordered_perm.
  intros Hnd. rewrite detect_communities_eq by done. apply sort_sound, split_sound.
  - apply sort_sound, forms_sound; [lia|by apply pending_ok].
  - intros c (c0 & (p & -> & _)%list_elem_of_fmap & ->)%elem_of_sort_communities. done.
Qed.

(** Strictly before by the first member. *)
Definition first_lt (x y : DetectedCommunity) : Prop :=
  ∃ a b, head (d_members x) = Some a ∧ head (d_members y) = Some b ∧ String.leb a b = true ∧ a ≠ b.

Lemma first_member_total x y : first_member_le x y = true ∨ first_member_le y x = true.
Proof. unfold first_member_le. destruct (head (d_members x)), (head (d_members y)); auto using string_leb_total. Qed.

Lemma first_member_trans x y z : first_member_le x y = true → first_member_le y z = true → first_member_le x z = true.
Proof.
  unfold first_member_le. destruct (head (d_members x)), (head (d_members y)), (head (d_members z)); try done. by apply string_leb_trans.
Qed.

Lemma sorted_members c cs : c ∈ sort_communities cs → StronglySorted (λ x y, String.leb x y = true) (d_members c).
Proof.
  intros (c0 & _ & ->)%elem_of_sort_communities. cbn. apply sort_by_sorted; [apply string_leb_total|apply string_leb_trans].
Qed.

(** C19: what detection finds.  Of nodes with distinct names, whatever partition
    the Leiden library gives or whether it fails: every community names nodes, has
    the size it says and some member, keeps its members in order, and has the
    least size asked for unless it is a part of a larger one; no two communities
    share a member; and they come in the order of their first members. *)
Theorem detect_communities_spec (nodes : list GraphNode) (edges : list GraphEdge) (min_size : Z) :
  NoDup (n_qualified_name <$> nodes) →
  let cs := detect_communities_from nodes edges min_size in
  (∀ c, c ∈ cs →
     (∀ q, q ∈ d_members c → ∃ n, n ∈ nodes ∧ n_qualified_name n = q) ∧
     d_size c = Z.of_nat (length (d_members c)) ∧ d_members c ≠ [] ∧
     StronglySorted (λ x y, String.leb x y = true) (d_members c) ∧
     (d_level c = 0 ∧ min_size ≤ d_size c ∨ 1 ≤ d_level c)%Z) ∧
  NoDup (concat (d_members <$> cs)) ∧
  StronglySorted first_lt cs.
Proof using unordered_perm.
  intros Hnd cs. pose proof (detected_sound nodes edges min_size Hnd) as [H1 H2 H3 H4]. fold cs in H1, H2, H3, H4.
  split; [|split; [done|]].
  - intros c Hc. destruct (H3 c Hc) as [Hs Hne]. split_and!; [|done|done| |].
    + intros q Hq. assert (Hqn : q ∈ n_qualified_name <$> nodes); [apply H2, elem_of_concat|by apply list_elem_of_fmap in Hqn as (n & -> & Hn); exists n]. exists (d_members c).
      split; [done|by apply list_elem_of_fmap_2].
    + unfold cs in Hc. rewrite detect_communities_eq in Hc by done. by apply sorted_members in Hc.
    + destruct (H4 c Hc) as [[Hl Hm]|Hl]; [left; split; [done|lia]|by right].
  - assert (Hsort : StronglySorted (λ x y, first_member_le x y = true) cs).
    { unfold cs. rewrite detect_communities_eq by done. apply sort_by_sorted; [apply first_member_total|apply first_member_trans]. }
    clear H2 H4. induction Hsort as [|c l Hl IH Hc]; [constructor|]. cbn [fmap list_fmap concat] in H1. apply NoDup_app in H1 as (_ & Hd & Hnl).
    constructor; [apply IH; [done|intros c' Hc'; apply H3; by right]|]. apply Forall_forall. intros c' Hc'.
    rewrite Forall_forall in Hc. specialize (Hc c' Hc'). unfold first_member_le in Hc. destruct (H3 c ltac:(left)) as [_ Hne].
    destruct (H3 c' ltac:(by right)) as [_ Hne']. unfold first_lt. destruct (d_members c) as [|a ms] eqn:Ec; [done|].
    destruct (d_members c') as [|b ms'] eqn:Ec'; [done|]. exists a, b. split_and!; [done..|]. intros ->.
    apply (Hd b); [left|]. apply elem_of_concat. exists (d_members c'). split; [rewrite Ec'; left|by apply list_elem_of_fmap_2].
Qed.

End found.
(** ** The order of a HashMap does not matter *)

Lemma sort_by_unique_in {A} (le : A → A → bool) (l1 l2 : list A) :
  (∀ x y, le x y = true ∨ le y x = true) → (∀ x y z, le x y = true → le y z = true → le x z = true) →
  (∀ x y, x ∈ l1 → y ∈ l1 → le x y = true → le y x = true → x = y) → l1 ≡ₚ l2 → sort_by le l1 = sort_by le l2.
Proof.
  intros Ht Htr Ha Hp. apply (StronglySorted_unique_strong (λ x y, le x y = true)).
  - intros x y. rewrite !elem_of_sort_by, <-Hp. apply Ha.
  - by apply sort_by_sorted.
  - by apply sort_by_sorted.
  - by rewrite !sort_by_Permutation.
Qed.

Section two_orders.
Context `{Json}.
Context (u1 u2 : ∀ A, list A → list A).
Hypothesis perm1 : ∀ A (l : list A), u1 A l ≡ₚ l.
Hypothesis perm2 : ∀ A (l : list A), u2 A l ≡ₚ l.
Context (camel : string → string) (split_words : string → list string) (slug to_lowercase : string → string).
Context (leiden : LeidenConfig → nat → list (nat * nat * f64) → option (nat → nat)) (log10 : f64 → f64).

#[local] Abbreviation name_by u := (generate_community_name u camel split_words slug to_lowercase).

Lemma names_same ms : name_by u1 ms = name_by u2 ms.
Proof using perm1 perm2. by apply generate_community_name_stable. Qed.

Lemma languages_same ms : CommunityNames.dominant_language u1 ms = CommunityNames.dominant_language u2 ms.
Proof using perm1 perm2. by apply dominant_language_stable. Qed.

Lemma subgraph_same nodes edges r :
  detect_leiden_subgraph u1 camel split_words slug to_lowercase leiden nodes edges r =
  detect_leiden_subgraph u2 camel split_words slug to_lowercase leiden nodes edges r.
Proof using perm1 perm2.
  unfold detect_leiden_subgraph. destruct nodes as [|n nodes]; [done|]. destruct (omap _ edges); [done|].
  destruct (leiden _ _ _); [|done]. apply list_omap_ext, Forall_Forall2_diag, Forall_forall. intros ids _.
  destruct (omap _ ids); [done|]. by rewrite names_same, languages_same.
Qed.

Lemma split_same nodes edges threshold_pct min_split min_size cs :
  sound (n_qualified_name <$> nodes) min_size cs → (∀ c, c ∈ cs → (0 <= d_level c)%Z) →
  split_oversized u1 camel split_words slug to_lowercase leiden cs nodes edges threshold_pct min_split =
  split_oversized u2 camel split_words slug to_lowercase leiden cs nodes edges threshold_pct min_split.
Proof using perm1 perm2.
  intros Hs Hlev. unfold split_oversized. case_match; [done|]. cbv zeta. set (medges := λ idx, default [] _). set (thr := Z.max _ _).
  destruct (split_all_spec u1 camel split_words slug to_lowercase leiden nodes medges thr min_split cs 0 ([], 1%Z))
    as (partss & Hall & Hrun); [apply Hs|apply Hs|]. cbn in Hrun.
  change (imap (λ i c, (i, c)) cs) with (imap pair cs) in Hrun.
  destruct (parts_sound _ min_size cs partss Hs Hlev Hall) as [_ Hparts].
  assert (Hsame : (foldl (split_one u2 camel split_words slug to_lowercase leiden
      (foldl (λ m n, <[n_qualified_name n := n]> m) ∅ nodes) medges thr min_split) ([], 1%Z) (imap pair cs)).1 = concat partss).
  { rewrite <-Hrun. f_equal. apply EdgePass.foldl_ext_elem. intros [result next_id] [idx c] _. unfold split_one. by rewrite subgraph_same. }
  rewrite Hrun, Hsame. rewrite (backfill_filled u1 perm1), (backfill_filled u2 perm2) by apply Hparts. done.
Qed.

Lemma file_pending_perm nodes min_size : file_pending u1 nodes min_size ≡ₚ file_pending u2 nodes min_size.
Proof using perm1 perm2. unfold file_pending. by rewrite perm1, perm2. Qed.

Lemma pending_perm nodes edges min_size :
  pending_of u1 leiden log10 nodes edges min_size ≡ₚ pending_of u2 leiden log10 nodes edges min_size.
Proof using perm1 perm2.
  assert (Hl : leiden_pending u1 leiden log10 nodes edges min_size ≡ₚ leiden_pending u2 leiden log10 nodes edges min_size).
  { unfold leiden_pending. destruct nodes as [|n nodes]; [done|]. destruct (leiden_groups _ _ _ _); [done|]. apply file_pending_perm. }
  unfold pending_of. destruct (leiden_pending u1 _ _ _ _ _) as [|x l], (leiden_pending u2 _ _ _ _ _) as [|y k].
  - apply file_pending_perm.
  - by apply Permutation_nil_l in Hl.
  - by apply Permutation_nil_r in Hl.
  - exact Hl.
Qed.

(** The communities of the same groups, sorted. *)
Lemma forms_same nodes edges min_size p1 p2 :
  1 <= min_size → groups_ok nodes min_size p1.*1 → p1 ≡ₚ p2 →
  sort_communities (form u1 camel split_words slug to_lowercase edges <$> p1) =
  sort_communities (form u2 camel split_words slug to_lowercase edges <$> p2).
Proof using perm1 perm2.
  intros Hmin Hok Hp. pose proof (forms_sound u1 perm1 camel split_words slug to_lowercase nodes edges min_size p1 Hmin Hok) as Hs.
  assert (Hform : ∀ p : list GraphNode * string,
    with_members (sort_by String.leb (d_members (form u1 camel split_words slug to_lowercase edges p))) (form u1 camel split_words slug to_lowercase edges p) =
    with_members (sort_by String.leb (d_members (form u2 camel split_words slug to_lowercase edges p))) (form u2 camel split_words slug to_lowercase edges p)).
  { intros p. unfold form, with_members. cbn. rewrite names_same, languages_same. f_equal.
    apply sort_by_unique; [apply string_leb_total|apply string_leb_trans|apply string_leb_antisym|]. by rewrite perm1, perm2. }
  unfold sort_communities. rewrite <-!list_fmap_compose.
  rewrite (list_fmap_ext _ ((λ c, with_members (sort_by String.leb (d_members c)) c) ∘ form u2 camel split_words slug to_lowercase edges) p1)
    by (intros _ p _; apply Hform).
  apply sort_by_unique_in; [apply first_member_total|apply first_member_trans| |by rewrite Hp].
  assert (Hs2 : sound (n_qualified_name <$> nodes) min_size (sort_communities (form u1 camel split_words slug to_lowercase edges <$> p1))) by by apply sort_sound.
  assert (Hmem : ∀ x, x ∈ (λ c, with_members (sort_by String.leb (d_members c)) c) ∘ form u2 camel split_words slug to_lowercase edges <$> p1 →
    x ∈ sort_communities (form u1 camel split_words slug to_lowercase edges <$> p1)).
  { intros x (p & -> & Hin)%list_elem_of_fmap. apply elem_of_sort_communities.
    exists (form u1 camel split_words slug to_lowercase edges p). split; [by apply list_elem_of_fmap_2|]. symmetry. apply Hform. }
  intros x y Hx%Hmem Hy%Hmem. revert Hx Hy Hs2. generalize (sort_communities (form u1 camel split_words slug to_lowercase edges <$> p1)) as cs.
  clear. intros cs [i Hi]%list_elem_of_lookup_1 [j Hj]%list_elem_of_lookup_1 [H1 _ H3 _]. unfold first_member_le.
  destruct (H3 x) as [_ Hnx]; [by eapply list_elem_of_lookup_2|]. destruct (H3 y) as [_ Hny]; [by eapply list_elem_of_lookup_2|].
  destruct (d_members x) as [|a mx] eqn:Ex; [done|]. destruct (d_members y) as [|b my] eqn:Ey; [done|]. cbn. intros Hab Hba.
  pose proof (string_leb_antisym a b Hab Hba) as ->.
  assert (i = j) as ->; [|congruence]. eapply (disjoint_index (d_members <$> cs) i j _ _ b H1).
  - by rewrite list_lookup_fmap, Hi.
  - by rewrite list_lookup_fmap, Hj.
  - rewrite Ex. left.
  - rewrite Ey. left.
Qed.

(** The same graph gets the same communities in the same order, so
    the same ids when stored: nothing depends on the order in which a HashMap or
    HashSet gives its entries. *)
Theorem detect_communities_stable (nodes : list GraphNode) (edges : list GraphEdge) (min_size : Z) :
  NoDup (n_qualified_name <$> nodes) →
  detect_communities_from u1 camel split_words slug to_lowercase leiden log10 nodes edges min_size =
  detect_communities_from u2 camel split_words slug to_lowercase leiden log10 nodes edges min_size.
Proof using perm1 perm2.
  intros Hnd. rewrite (detect_communities_eq u1 perm1), (detect_communities_eq u2 perm2) by done.
  set (m := Z.to_nat (Z.max min_size 1)). assert (Hm : 1 <= m) by lia.
  pose proof (pending_ok u1 perm1 leiden log10 nodes edges m Hnd) as Hok.
  rewrite <-(forms_same nodes edges m _ _ Hm Hok (pending_perm nodes edges m)). f_equal. apply (split_same _ _ _ _ m).
  - by apply sort_sound, forms_sound.
  - intros c (c0 & (p & -> & _)%list_elem_of_fmap & ->)%elem_of_sort_communities. done.
Qed.

End two_orders.
(** ** Witnesses *)

#[local] Existing Instance text_json.

Definition demo_node (i : Z) (q file : string) : GraphNode :=
  mkGraphNode i "Function" q q file 1 2 "python" None None None false (Some "") "{}" None.
Definition demo_edge (i : Z) (a b : string) : GraphEdge := mkGraphEdge i "CALLS" a b "a.py" 1 "{}" one Extracted.

Definition demo_nodes : list GraphNode :=
  [demo_node 1 "a.py::f" "a.py"; demo_node 2 "a.py::g" "a.py"; demo_node 3 "b.py::h" "b.py"; demo_node 4 "b.py::k" "b.py"].
Definition demo_edges : list GraphEdge := [demo_edge 1 "a.py::f" "b.py::k"; demo_edge 2 "a.py::g" "b.py::h"; demo_edge 3 "a.py::f" "b.py::h"].

(** A partition of the nodes by the parity of their index. *)
Definition demo_leiden (_ : LeidenConfig) (_ : nat) (_ : list (nat * nat * f64)) : option (nat → nat) := Some (λ i, i `mod` 2).

Lemma demo_names : NoDup (n_qualified_name <$> demo_nodes).
Proof. apply (bool_decide_unpack _). by vm_compute. Qed.

Lemma detect_communities_spec_witness :
  d_members <$> detect_communities_from (λ _ l, l) (λ s, s) (λ s, [s]) (λ s, s) (λ s, s) demo_leiden (λ x, x) demo_nodes demo_edges 2
  = [["a.py::f"; "b.py::h"]; ["a.py::g"; "b.py::k"]] ∧
  NoDup (concat (d_members <$>
    detect_communities_from (λ _ l, l) (λ s, s) (λ s, [s]) (λ s, s) (λ s, s) demo_leiden (λ x, x) demo_nodes demo_edges 2)).
Proof.
  split; [by vm_compute|]. apply (detect_communities_spec (λ _ l, l)); [done|]. apply demo_names.
Defined.

Lemma detect_communities_stable_witness :
  detect_communities_from (λ _ l, l) (λ s, s) (λ s, [s]) (λ s, s) (λ s, s) demo_leiden (λ x, x) demo_nodes demo_edges 2 =
  detect_communities_from (λ _ l, reverse l) (λ s, s) (λ s, [s]) (λ s, s) (λ s, s) demo_leiden (λ x, x) demo_nodes demo_edges 2.
Proof.
  apply detect_communities_stable; [done|intros A l; apply reverse_Permutation|apply demo_names].
Defined.

End CommunitySpec.
