(* ===== verification/CommunityFlow.v ===== *)
(** * Communities from detection to the store

    Models the rest of crates/dagayn-postproc/src/communities/mod.rs: detection
    over what the store holds, storing what it finds, detection around changed
    files, and the sweep that brings sizes and cohesions up to date; with the
    proofs that what is stored is what was found.  Writing and reading
    communities as JSON is a parameter. *)
From S2P Require Import Prelude GraphData Store StoreSpec Impact ImpactSpec EdgePass CommunityStore CommunityNames Communities CommunitySpec.
Import GraphData Store StoreSpec Impact CommunityStore Communities CommunitySpec.

Module CommunityFlow.

#[local] Set Default Proof Using "Type".

Section flow.
Context `{Json} {F : Type}.
Context (unordered : ∀ A, list A → list A).
Context (camel : string → string) (split_words : string → list string) (slug to_lowercase : string → string).
Context (leiden : LeidenConfig → nat → list (nat * nat * f64) → option (nat → nat)) (log10 : f64 → f64).
(** [serde_json::to_string] of what was detected, and [from_str] of it. *)
Context (to_json : list DetectedCommunity → option string) (from_json : string → option (list CommunityInput)).

#[local] Abbreviation Db := (CommunityDb (F := F)).
#[local] Abbreviation detect_communities_from :=
  (detect_communities_from unordered camel split_words slug to_lowercase leiden log10).

(** Source: crates/dagayn-graph/src/query.rs 243-253 [get_all_nodes_filtered]. *)
Definition get_all_nodes_filtered (db : Db) : Result (list GraphNode) :=
  try_map node_from_row (unordered _ (filter (λ r, kind (vals r) ≠ "File") (nodes (graph db)))).

(** Source: crates/dagayn-graph/src/query.rs 346-351 [get_all_edges]. *)
Definition get_all_edges (db : Db) : Result (list GraphEdge) :=
  try_map edge_from_row (unordered _ (edges (graph db))).

(** Source: crates/dagayn-postproc/src/communities/mod.rs 25-29 [detect_communities]. *)
Definition detect_communities (min_size : Z) (db : Db) : Result (list DetectedCommunity) :=
  unique_nodes ← get_all_nodes_filtered db;
  all_edges ← get_all_edges db;
  inl (detect_communities_from unique_nodes all_edges min_size).

(** Source: crates/dagayn-postproc/src/communities/mod.rs 61-64 [detect_communities_json]. *)
Definition detect_communities_json (min_size : Z) (db : Db) : Result string :=
  communities ← detect_communities min_size db;
  json (to_json communities).

(** Detection of all communities, and storing them.

    Source: crates/dagayn-postproc/src/communities/mod.rs 86-90 [incremental_detect_communities]. *)
Definition detect_and_store (min_size : Z) (db : Db) : Db * Result Z :=
  match detect_communities_json min_size db with
  | inl payload => store_communities_json from_json payload db
  | inr e => (db, inr e)
  end.

(** Source: crates/dagayn-postproc/src/communities/mod.rs 98-110 [incremental_detect_communities]. *)
Definition to_input (c : DetectedCommunity) : CommunityInput :=
  mkInput (d_name c) (d_level c) (d_cohesion c) (d_size c) (d_dominant_language c) (d_description c) (d_members c).

(** Source: crates/dagayn-postproc/src/communities/mod.rs 66-112 [incremental_detect_communities]. *)
Definition incremental_detect_communities (changed_files : list string) (min_size : Z) (pre_affected_count : option Z) (db : Db)
    : Db * Result Z :=
  match changed_files with
  | [] => (db, inl 0%Z)
  | _ =>
      let affected_count :=
        match pre_affected_count with Some count => count | None => count_affected_communities changed_files db end in
      if (affected_count =? 0)%Z then (db, inl 0%Z)
      else
        match community_region_ids unordered changed_files db with
        | None => detect_and_store min_size db
        | Some region =>
            match get_nodes_by_community_ids unordered region db with
            | inr e => (db, inr e)
            | inl [] => detect_and_store min_size db
            | inl region_nodes =>
                match get_edges_within_community_ids unordered region db with
                | inr e => (db, inr e)
                | inl region_edges =>
                    let detected := detect_communities_from region_nodes region_edges min_size in
                    let '(db, n) := replace_communities region (to_input <$> detected) db in (db, inl n)
                end
            end
        end
  end.

(** One community of the sweep.

    Source: crates/dagayn-postproc/src/communities/mod.rs 135-146 [refresh_community_stats_json]. *)
Definition refresh_one (acc : Db * Z * Z) (x : Z * gset string * f64) : Db * Z * Z :=
  let '(db, updated, deleted) := acc in
  let '(id, member_qns, cohesion) := x in
  let size := Z.of_nat (size member_qns) in
  if (size =? 0)%Z then (delete_community id db, updated, (deleted + 1)%Z)
  else (update_community_stats id size (round_cohesion cohesion) db, (updated + 1)%Z, deleted).

(** Source: crates/dagayn-postproc/src/communities/mod.rs 114-152 [refresh_community_stats_json]. *)
Definition refresh_community_stats (db : Db) : Db * Result (Z * Z) :=
  let members_by_id := get_all_community_member_qns unordered db in
  match get_all_edges db with
  | inr e => (db, inr e)
  | inl all_edges =>
      let community_ids := unordered _ (elements (dom members_by_id)) in
      let member_sets : list (gset string) := (λ i, list_to_set (default [] (members_by_id !! i))) <$> community_ids in
      let cohesions := compute_cohesion_batch unordered member_sets all_edges in
      let '(db, updated, deleted) := foldl refresh_one (db, 0%Z, 0%Z) (zip (zip community_ids member_sets) cohesions) in
      let '(db, orphans) := delete_orphan_communities db in
      (db, inl (updated, (deleted + orphans)%Z))
  end.

(** ** The sweep *)

Hypothesis unordered_perm : ∀ A (l : list A), unordered A l ≡ₚ l.

(** A community with the size and cohesion of its nodes. *)
Definition refreshed (all_edges : list GraphEdge) (db : Db) (c : CommunityRow) : CommunityRow :=
  mkCommunity (c_id c) (c_name c) (c_level c) (round_cohesion (cohesion_of all_edges (member_names (c_id c) db)))
    (Z.of_nat (length (member_names (c_id c) db))) (c_dominant_language c) (c_description c).

Definition row_with (x : Z * gset string * f64) (c : CommunityRow) : CommunityRow :=
  let '(id, member_qns, cohesion) := x in
  if bool_decide (c_id c = id)
  then mkCommunity (c_id c) (c_name c) (c_level c) (round_cohesion cohesion) (Z.of_nat (size member_qns)) (c_dominant_language c) (c_description c)
  else c.

Lemma refresh_all xs (db : Db) n m :
  (∀ x, x ∈ xs → x.1.2 ≠ ∅) →
  foldl refresh_one (db, n, m) xs =
  (mkDb (graph db) (foldl (λ cs x, row_with x <$> cs) (communities db) xs) (community_seq db), (n + Z.of_nat (length xs))%Z, m).
Proof.
  revert db n. induction xs as [|[[i s] x] xs IH]; intros db n Hne; cbn [foldl length].
  { rewrite Z.add_0_r. by destruct db. }
  unfold refresh_one at 2. cbv zeta. assert (Hs : s ≠ ∅) by (apply (Hne (i, s, x)); left).
  rewrite (proj2 (Z.eqb_neq _ _)) by (unfold_leibniz; apply size_non_empty_iff in Hs; lia).
  rewrite IH by (intros y Hy; apply Hne; by right). cbn. do 2 f_equal. lia.
Qed.

(** Updates of some communities, row by row. *)
Lemma rows_with (S : Z → gset string) (C : Z → f64) (ids : list Z) (cs : list CommunityRow) :
  foldl (λ cs x, row_with x <$> cs) cs ((λ i, (i, S i, C i)) <$> ids) =
  (λ c, if bool_decide (c_id c ∈ ids) then row_with (c_id c, S (c_id c), C (c_id c)) c else c) <$> cs.
Proof.
  revert cs. induction ids as [|i ids IH]; intros cs; cbn [foldl fmap list_fmap].
  { rewrite (list_fmap_ext _ (λ c, c) cs); [by rewrite list_fmap_id|]. intros _ c _. by rewrite bool_decide_eq_false_2 by apply not_elem_of_nil. }
  rewrite IH, <-list_fmap_compose. apply list_fmap_ext. intros _ c _. cbn [compose].
  assert (Hid : c_id (row_with (i, S i, C i) c) = c_id c) by (cbn; by case_bool_decide). rewrite Hid.
  destruct (decide (c_id c = i)) as [<-|Hne].
  - rewrite (bool_decide_eq_true_2 (c_id c ∈ c_id c :: ids)) by left. cbn.
    repeat (rewrite (bool_decide_eq_true_2 (c_id c = c_id c)) by done; cbn). by case_bool_decide.
  - assert (Hr : row_with (i, S i, C i) c = c) by (cbn; by rewrite bool_decide_eq_false_2). rewrite Hr.
    by rewrite (bool_decide_ext (c_id c ∈ i :: ids) (c_id c ∈ ids)) by (rewrite elem_of_cons; tauto).
Qed.

Lemma members_disjoint (db : Db) ids :
  NoDup (row_name <$> nodes (graph db)) → NoDup ids → NoDup (concat ((λ i, member_names i db) <$> ids)).
Proof.
  intros Hn. induction ids as [|i ids IH]; [constructor|]. intros [Hi Hnd]%NoDup_cons. cbn [fmap list_fmap concat]. apply NoDup_app.
  split; [|split; [|by apply IH]].
  - unfold member_names. eapply sublist_NoDup; [exact Hn|]. apply fmap_sublist, sublist_filter.
  - intros q (r & -> & [Hri Hr]%list_elem_of_filter)%list_elem_of_fmap (l & Hl & (j & -> & Hj)%list_elem_of_fmap)%elem_of_concat.
    apply list_elem_of_fmap in Hl as (r' & Hname & [Hrj Hr']%list_elem_of_filter).
    pose proof (EdgePass.NoDup_fmap_elem _ _ _ _ Hn Hr Hr' Hname) as <-. congruence.
Qed.

Lemma filter_fmap_iff {A B} (f : A → B) (P : B → Prop) (Q : A → Prop) `{!∀ x, Decision (P x), !∀ x, Decision (Q x)} (l : list A) :
  (∀ x, P (f x) ↔ Q x) → filter P (f <$> l) = f <$> filter Q l.
Proof.
  intros HPQ. induction l as [|x l IH]; [done|]. rewrite fmap_cons, !filter_cons, IH. specialize (HPQ x).
  destruct (decide (Q x)); [by rewrite decide_True by tauto|by rewrite decide_False by tauto].
Qed.

Lemma elem_of_member_names q i (db : Db) : q ∈ member_names i db ↔ ∃ r, r ∈ nodes (graph db) ∧ row_name r = q ∧ community_id r = Some i.
Proof. clear. unfold member_names. rewrite list_elem_of_fmap. setoid_rewrite list_elem_of_filter. naive_solver. Qed.

(** The sweep.  Afterwards the communities left are those with a node, in
    the same order; each has as its size the number of its nodes and as its
    cohesion the rounded share of edges that stay inside; and nodes and edges are
    as before. *)
Theorem refresh_spec (db : Db) (all_edges : list GraphEdge) :
  linked db → NoDup (row_name <$> nodes (graph db)) → get_all_edges db = inl all_edges →
  (refresh_community_stats db).1 =
  mkDb (graph db) (refreshed all_edges db <$> filter (λ c, member_names (c_id c) db ≠ []) (communities db)) (community_seq db).
Proof using unordered_perm.
  intros Hl Hn He. unfold refresh_community_stats. rewrite He. set (m := get_all_community_member_qns unordered db).
  set (ids := unordered _ (elements (dom m))). set (sets := (λ i, list_to_set (default [] (m !! i)) : gset string) <$> ids).
  assert (Hm : ∀ i, default [] (m !! i) ≡ₚ member_names i db) by (intros i; by apply get_all_spec).
  assert (Hids : ∀ i, i ∈ ids ↔ member_names i db ≠ []).
  { intros i. unfold ids. rewrite unordered_perm, elem_of_elements, elem_of_dom. by apply get_all_spec. }
  assert (Hnd : NoDup ids) by (unfold ids; rewrite unordered_perm; apply NoDup_elements).
  assert (Hsets : concat (elements <$> sets) ≡ₚ concat ((λ i, member_names i db) <$> ids)).
  { unfold sets. rewrite <-list_fmap_compose. apply concat_Permutation. clear -Hm Hn. induction ids as [|i ids IH]; [constructor|].
    constructor; [|exact IH]. cbn. rewrite <-Hm. apply elements_list_to_set. rewrite Hm.
    unfold member_names. eapply sublist_NoDup; [exact Hn|]. apply fmap_sublist, sublist_filter. }
  rewrite (compute_cohesion_spec unordered unordered_perm) by (rewrite Hsets; by apply members_disjoint).
  pose (S i := list_to_set (default [] (m !! i)) : gset string). pose (C i := cohesion_of all_edges (elements (S i))).
  assert (Hxs : zip (zip ids sets) ((λ c, cohesion_of all_edges (elements c)) <$> sets) = (λ i, (i, S i, C i)) <$> ids).
  { unfold sets, C, S. clear. induction ids as [|i ids IH]; [done|]. cbn. by f_equal. }
  rewrite Hxs, refresh_all.
  2:{ intros x (i & -> & Hi)%list_elem_of_fmap. cbn. intros Hs. apply Hids in Hi. apply Hi.
      specialize (Hm i). unfold S in Hs. destruct (default [] (m !! i)) as [|q l].
      - by apply Permutation_nil_l in Hm.
      - exfalso. apply (not_elem_of_empty (C := gset string) q). rewrite <-Hs. apply elem_of_list_to_set. left. }
  cbn [fst]. rewrite rows_with. unfold delete_orphan_communities. cbn [fst graph communities community_seq]. f_equal.
  rewrite (filter_fmap_iff _ _ (λ c, member_names (c_id c) db ≠ [])).
  - apply list_fmap_ext. intros k c [Hc _]%list_elem_of_lookup_2%list_elem_of_filter.
    rewrite bool_decide_eq_true_2 by by apply Hids. unfold refreshed. cbn. rewrite bool_decide_eq_true_2 by done.
    assert (HS : elements (S (c_id c)) ≡ₚ member_names (c_id c) db).
    { unfold S. rewrite <-Hm. apply elements_list_to_set. rewrite Hm.
      unfold member_names. eapply sublist_NoDup; [exact Hn|]. apply fmap_sublist, sublist_filter. }
    f_equal.
    + f_equal. apply cohesion_of_ext. intros q. by rewrite HS.
    + unfold size, set_size. cbn. by rewrite HS.
  - intros c. rewrite Exists_exists.
    assert (Hid : c_id (if bool_decide (c_id c ∈ ids) then row_with (c_id c, S (c_id c), C (c_id c)) c else c) = c_id c).
    { case_bool_decide; [|done]. cbn. by case_bool_decide. }
    rewrite Hid. split.
    + intros (r & Hr & Hc) Hnil. assert (Hq : row_name r ∈ member_names (c_id c) db) by (apply elem_of_member_names; by exists r).
      rewrite Hnil in Hq. by apply not_elem_of_nil in Hq.
    + intros Hne. destruct (member_names (c_id c) db) as [|q l] eqn:E; [done|].
      assert (Hq : q ∈ member_names (c_id c) db) by (rewrite E; left). apply elem_of_member_names in Hq as (r & Hr & _ & Hc). by exists r.
Qed.

(** ** Detection over the store *)

Lemma names_read rows ns :
  Forall2 (λ r n, node_from_row r = inl n) rows ns → n_qualified_name <$> ns = row_name <$> rows.
Proof.
  clear. induction 1 as [|r n rows ns Hr _ IH]; [done|]. cbn. f_equal; [|exact IH].
  by apply ImpactSpec.node_from_row_vals in Hr as (_ & -> & _).
Qed.

Lemma all_nodes_names (db : Db) ns :
  get_all_nodes_filtered db = inl ns → NoDup (row_name <$> nodes (graph db)) →
  NoDup (n_qualified_name <$> ns) ∧ ∀ q, q ∈ n_qualified_name <$> ns → q ∈ row_name <$> nodes (graph db).
Proof using unordered_perm.
  intros Hns%ImpactSpec.try_map_Permutation Hnd. rewrite (names_read _ _ Hns). split.
  - rewrite unordered_perm. eapply sublist_NoDup; [exact Hnd|]. apply fmap_sublist, sublist_filter.
  - intros q. rewrite unordered_perm. intros (r & -> & [_ Hr]%list_elem_of_filter)%list_elem_of_fmap. by apply list_elem_of_fmap_2.
Qed.

(** The nodes of the rows of a region, chunk by chunk. *)
Lemma chunk_rows cs (db : Db) out ns :
  try_fold (λ out chunk, rows ← try_map node_from_row (unordered _ (filter (is_member_of chunk) (nodes (graph db))));
                         inl (out ++ rows)) out cs = inl ns →
  NoDup (concat cs) →
  ∃ found, ns = out ++ found ∧
    n_qualified_name <$> found ≡ₚ row_name <$> filter (is_member_of (concat cs)) (nodes (graph db)).
Proof using unordered_perm.
  revert out. induction cs as [|c cs IH]; intros out; cbn [try_fold concat].
  { intros [= <-] _. exists []. rewrite app_nil_r. split; [done|]. rewrite EdgePass.filter_nothing; [done|].
    intros r _ [_ Hr]. unfold in_ids in Hr. destruct (community_id r); [|done]. by apply bool_decide_eq_true, not_elem_of_nil in Hr. }
  destruct (try_map node_from_row _) as [rows|] eqn:Hrows; cbn [mbind result_bind rbind]; [|done].
  intros Hrun (Hc & Hd & Hcs)%NoDup_app. destruct (IH _ Hrun Hcs) as (found & -> & Hf). exists (rows ++ found).
  split; [by rewrite app_assoc|]. apply ImpactSpec.try_map_Permutation in Hrows. rewrite fmap_app, Hf, (names_read _ _ Hrows), unordered_perm.
  clear -Hd. rewrite <-fmap_app. f_equiv. induction (nodes (graph db)) as [|r l IH]; [done|]. rewrite !filter_cons.
  assert (Hsplit : is_member_of (c ++ concat cs) r ↔ is_member_of c r ∨ is_member_of (concat cs) r).
  { unfold is_member_of, in_ids. destruct (community_id r) as [i|]; [|naive_solver]. rewrite !bool_decide_eq_true, elem_of_app. tauto. }
  assert (Hnot : is_member_of c r → ¬ is_member_of (concat cs) r).
  { unfold is_member_of, in_ids. destruct (community_id r) as [i|]; [|naive_solver]. rewrite !bool_decide_eq_true. intros [_ Hi] [_ Hj]. by apply (Hd i). }
  destruct (decide (is_member_of c r)) as [Hm|Hm].
  - rewrite decide_False by auto. rewrite decide_True by tauto. cbn. by rewrite IH.
  - destruct (decide (is_member_of (concat cs) r)) as [Hm'|Hm'].
    + rewrite decide_True by tauto. rewrite <-IH. by rewrite Permutation_middle.
    + rewrite decide_False by tauto. exact IH.
Qed.

Lemma region_names region (db : Db) ns :
  get_nodes_by_community_ids unordered region db = inl ns → NoDup region → NoDup (row_name <$> nodes (graph db)) →
  NoDup (n_qualified_name <$> ns) ∧
  ∀ q, q ∈ n_qualified_name <$> ns → ∃ r, r ∈ nodes (graph db) ∧ row_name r = q ∧ in_ids region (community_id r) = true.
Proof using unordered_perm.
  unfold get_nodes_by_community_ids. intros Hrun Hreg Hnd. apply chunk_rows in Hrun as (found & -> & Hf); [|by rewrite concat_chunks by lia].
  rewrite concat_chunks in Hf by lia. cbn [app]. split.
  - rewrite Hf. eapply sublist_NoDup; [exact Hnd|]. apply fmap_sublist, sublist_filter.
  - intros q. rewrite Hf. intros (r & -> & [[_ Hi] Hr]%list_elem_of_filter)%list_elem_of_fmap. by exists r.
Qed.

Lemma inputs_members cs : concat (ci_members <$> (to_input <$> cs)) = concat (d_members <$> cs).
Proof. by rewrite <-list_fmap_compose. Qed.

Lemma region_NoDup files (db : Db) region : community_region_ids unordered files db = Some region → NoDup region.
Proof using unordered_perm.
  unfold community_region_ids. case_bool_decide; [done|]. cbv zeta. case_match; [done|]. intros [= <-]. rewrite unordered_perm. apply NoDup_elements.
Qed.

Lemma rows_after_lookup start cs k c :
  cs !! k = Some c →
  rows_after start cs !! k = Some (mkCommunity (start + 1 + Z.of_nat k) (ci_name c) (ci_level c) (ci_cohesion c) (ci_size c)
                                    (ci_dominant_language c) (ci_description c)).
Proof.
  revert start k. induction cs as [|c0 cs IH]; intros start k; [done|]. destruct k as [|k]; cbn.
  - intros [= ->]. by rewrite Z.add_0_r.
  - intros Hk. rewrite (IH _ _ Hk). by replace (start + 1 + 1 + Z.of_nat k)%Z with (start + 1 + Z.of_nat (S k))%Z by lia.
Qed.

(** C20: detection around a change.  When the changed files touch a region, the
    communities found in it replace its communities: each found has a row of its
    own, whose nodes are its members and whose size is their number; communities
    outside the region keep their rows and their nodes; and every node still
    refers to a community of the table. *)
Theorem incremental_detect_spec changed_files min_size pre (db : Db) region ns es :
  linked db → NoDup (row_name <$> nodes (graph db)) →
  changed_files ≠ [] → default (count_affected_communities changed_files db) pre ≠ 0%Z →
  community_region_ids unordered changed_files db = Some region →
  get_nodes_by_community_ids unordered region db = inl ns → ns ≠ [] →
  get_edges_within_community_ids unordered region db = inl es →
  let cs := detect_communities_from ns es min_size in
  let db' := (incremental_detect_communities changed_files min_size pre db).1 in
  let found := get_all_community_member_qns unordered db' in
  (incremental_detect_communities changed_files min_size pre db).2 = inl (Z.of_nat (length cs)) ∧ linked db' ∧
  (∀ k c, cs !! k = Some c →
     (∃ row, communities db' !! (length (filter (λ c, c_id c ∉ region) (communities db)) + k) = Some row ∧
        c_id row = (community_seq db + 1 + Z.of_nat k)%Z ∧ c_name row = d_name c ∧
        c_size row = Z.of_nat (length (d_members c))) ∧
     default [] (found !! (community_seq db + 1 + Z.of_nat k)%Z) ≡ₚ d_members c) ∧
  (∀ row, row ∈ communities db → c_id row ∉ region →
     row ∈ communities db' ∧
     default [] (found !! c_id row) ≡ₚ default [] (get_all_community_member_qns unordered db !! c_id row)).
Proof using unordered_perm.
  intros Hl Hnd Hch Hpre Hreg Hns Hne Hes cs. unfold incremental_detect_communities. destruct changed_files as [|f files]; [done|].
  set (ch := f :: files) in *.
  assert (Hc : (match pre with Some count => count | None => count_affected_communities ch db end =? 0)%Z = false).
  { apply Z.eqb_neq. by destruct pre. }
  cbv zeta. rewrite Hc, Hreg, Hns. destruct ns as [|n ns]; [done|]. rewrite Hes. fold cs. clear Hc.
  destruct (region_names region db (n :: ns) Hns) as [Hnn Hin]; [by eapply region_NoDup|done|].
  pose proof (detected_sound unordered unordered_perm camel split_words slug to_lowercase leiden log10 (n :: ns) es min_size Hnn) as [H1 H2 H3 _].
  fold cs in H1, H2, H3.
  destruct (replace_communities_spec unordered unordered_perm region (to_input <$> cs) db Hl Hnd) as (Hrows & Hnew & _ & Hold & _).
  { unfold apart. by rewrite inputs_members. }
  { intros c q Hc Hq. apply Hin, H2. rewrite <-inputs_members. apply elem_of_concat. exists (ci_members c). split; [done|by apply list_elem_of_fmap_2]. }
  destruct (replace_communities region (to_input <$> cs) db) as [db' m] eqn:E.
  assert (Hm : m = Z.of_nat (length cs)).
  { unfold replace_communities in E. injection E as _ <-. by rewrite length_fmap. }
  assert (Hl' : linked db').
  { replace db' with (replace_communities region (to_input <$> cs) db).1 by by rewrite E. unfold replace_communities.
    rewrite clear_chunks. by apply linked_insert, linked_clear. }
  cbn [fst snd] in Hrows, Hnew, Hold |- *. split_and!; [by rewrite Hm|done| |].
  - intros k c Hk. assert (Hk' : (to_input <$> cs) !! k = Some (to_input c)) by by rewrite list_lookup_fmap, Hk. split.
    + rewrite Hrows, lookup_app_r by lia. replace (_ + k - _) with k by lia. rewrite (rows_after_lookup _ _ _ _ Hk').
      eexists. split; [done|]. cbn. split_and!; [done|done|]. apply H3. by eapply list_elem_of_lookup_2.
    + by apply (Hnew k (to_input c)).
  - intros row Hrow Hout. split.
    + rewrite Hrows. apply elem_of_app. left. by apply list_elem_of_filter.
    + apply Hold; [by apply list_elem_of_fmap_2|done].
Qed.

(** What is written as JSON is read back, but for the floats. *)
Definition kept_by_json : Prop :=
  ∀ cs text, to_json cs = Some text → ∃ inputs, from_json text = Some inputs ∧
    Forall2 (λ c i, ci_name i = d_name c ∧ ci_level i = d_level c ∧ ci_size i = d_size c ∧
                    ci_dominant_language i = d_dominant_language c ∧ ci_description i = d_description c ∧ ci_members i = d_members c) cs inputs.

(** Full detection.  The table holds just the communities found, in their
    order and with fresh ids; the nodes that refer to one are its members, and
    its size is their number; no other node refers to any. *)
Theorem detect_and_store_spec min_size (db : Db) ns es text :
  kept_by_json → NoDup (row_name <$> nodes (graph db)) →
  get_all_nodes_filtered db = inl ns → get_all_edges db = inl es →
  let cs := detect_communities_from ns es min_size in
  to_json cs = Some text →
  let db' := (detect_and_store min_size db).1 in
  let found := get_all_community_member_qns unordered db' in
  (detect_and_store min_size db).2 = inl (Z.of_nat (length cs)) ∧ linked db' ∧ length (communities db') = length cs ∧
  (∀ k c, cs !! k = Some c →
     (∃ row, communities db' !! k = Some row ∧ c_id row = (community_seq db + 1 + Z.of_nat k)%Z ∧ c_name row = d_name c ∧
        c_size row = Z.of_nat (length (d_members c))) ∧
     default [] (found !! (community_seq db + 1 + Z.of_nat k)%Z) ≡ₚ d_members c) ∧
  (∀ i, i ∉ c_id <$> communities db' → found !! i = None).
Proof using unordered_perm.
  intros Hjson Hnd Hns Hes cs Htext. destruct (Hjson cs text Htext) as (inputs & Hin & Hsame).
  assert (Hrun : detect_communities_json min_size db = inl text).
  { unfold detect_communities_json, detect_communities. rewrite Hns. cbn [mbind result_bind rbind]. rewrite Hes. cbn [mbind result_bind rbind].
    fold cs. by rewrite Htext. }
  unfold detect_and_store, store_communities_json. rewrite Hrun, Hin. unfold store_communities.
  pose proof (linked_cleared db) as Hl. set (cleared := set_node_rows _ _) in *. cbn [fst snd]. cbv zeta.
  assert (Hnames : row_name <$> nodes (graph cleared) = row_name <$> nodes (graph db)).
  { unfold cleared. cbn. by rewrite <-list_fmap_compose. }
  destruct (all_nodes_names db ns Hns Hnd) as [Hnn Hq].
  pose proof (detected_sound unordered unordered_perm camel split_words slug to_lowercase leiden log10 ns es min_size Hnn) as [H1 H2 H3 _].
  fold cs in H1, H2, H3.
  assert (Hmem : ci_members <$> inputs = d_members <$> cs).
  { clear -Hsame. induction Hsame as [|c i cs inputs (_ & _ & _ & _ & _ & Hm) _ IH]; [done|]. cbn. by rewrite Hm, IH. }
  assert (Hlen : length inputs = length cs) by (symmetry; by eapply Forall2_length).
  assert (Hap : apart inputs) by (unfold apart; by rewrite Hmem).
  assert (Hl' : linked (foldl insert_community cleared inputs)) by by apply linked_insert.
  assert (Hcomm : communities (foldl insert_community cleared inputs) = rows_after (community_seq db) inputs) by by rewrite insert_communities_spec.
  split_and!; [by rewrite Hlen|done| | |].
  - rewrite Hcomm. apply (f_equal length) in Hmem. rewrite !length_fmap in Hmem. rewrite <-Hlen. clear. generalize (community_seq db) as k.
    induction inputs as [|i inputs IH]; intros k; [done|]. cbn. by rewrite IH.
  - intros k c Hk. destruct (Forall2_lookup_l _ _ _ _ _ Hsame Hk) as (i & Hi & Hname & _ & Hsize & _ & _ & Hm). split.
    + rewrite Hcomm, (rows_after_lookup _ _ _ _ Hi). eexists. split; [done|]. cbn. split_and!; [done|done|].
      rewrite Hsize. apply H3. by eapply list_elem_of_lookup_2.
    + rewrite <-Hm. etransitivity; [apply get_all_spec, unordered_perm|]. apply (inserted_members cleared inputs k i Hl); [by rewrite Hnames|done|done|].
      intros q Hqi. rewrite Hnames. apply Hq, H2, elem_of_concat. exists (d_members c). rewrite <-Hm. split; [done|].
      rewrite Hm. apply list_elem_of_fmap_2. by eapply list_elem_of_lookup_2.
  - intros i Hi. destruct (get_all_spec unordered unordered_perm (foldl insert_community cleared inputs) i) as [_ Hs].
    destruct (get_all_community_member_qns _ _ !! i); [|done]. destruct Hs as [Hs _]. exfalso. apply Hi.
    destruct (member_names i (foldl insert_community cleared inputs)) as [|q qs] eqn:Em; [by destruct (Hs ltac:(by eexists))|].
    assert (Hqm : q ∈ member_names i (foldl insert_community cleared inputs)) by (rewrite Em; left).
    apply elem_of_member_names in Hqm as (r & Hr & _ & Hc). by apply (members_linked _ Hl' r).
Qed.

End flow.
(** ** Witnesses *)

#[local] Existing Instance text_json.

#[local] Abbreviation demo_detect :=
  (detect_communities_from (λ _ l, l) (λ s, s) (λ s, [s]) (λ s, s) (λ s, s) demo_leiden (λ x, x)).

(** A region of four nodes in two communities, and five nodes in a third. *)
Definition demo_row (i : Z) (q file : string) (c : Z) : NodeRow :=
  mkNodeRow i (mkNodeVals "Function" q q file 1 2 "python" None None None None false "" 0 "{}" one) None (Some c).
Definition demo_edge_row (i : Z) (a b : string) : EdgeRow :=
  mkEdgeRow i (mkEdgeVals "CALLS" a b b "a.py" 1 "{}" one "EXTRACTED" one).

Definition demo_db : CommunityDb (F := unit) :=
  mkDb (mkStore ([demo_row 1 "a.py::f" "a.py" 1; demo_row 2 "a.py::g" "a.py" 1; demo_row 3 "b.py::h" "b.py" 2; demo_row 4 "b.py::k" "b.py" 2]
                 ++ ((λ i, demo_row (Z.of_nat i) ("c.py::" +:+ decimal i) "c.py" 3) <$> seq 5 5))
          9 [demo_edge_row 1 "a.py::f" "b.py::k"; demo_edge_row 2 "a.py::g" "b.py::h"; demo_edge_row 3 "a.py::f" "b.py::h"] 3
          [] [] None ∅ true false)
    (rows_after 0 [mkInput "x" 0 one 2 "python" "" []; mkInput "y" 0 one 2 "python" "" []; mkInput "z" 0 one 9 "python" "" []]) 3.

Lemma flow_demo_linked : linked demo_db.
Proof.
  constructor.
  - apply (bool_decide_unpack _). by vm_compute.
  - apply Forall_forall, (bool_decide_unpack _). by vm_compute.
  - assert (Hall : Forall (λ r, default true ((λ i, bool_decide (i ∈ c_id <$> communities demo_db)) <$> community_id r) = true) (nodes (graph demo_db))).
    { apply (bool_decide_unpack _). by vm_compute. }
    rewrite Forall_forall in Hall. intros r i Hr Hi. specialize (Hall r Hr). rewrite Hi in Hall. by apply bool_decide_eq_true in Hall.
Qed.

Lemma flow_demo_names : NoDup (row_name <$> nodes (graph demo_db)).
Proof. apply (bool_decide_unpack _). by vm_compute. Qed.

Lemma refresh_spec_witness :
  (c_size <$> communities (refresh_community_stats (λ _ l, l) demo_db).1) = [2; 2; 5]%Z ∧
  (refresh_community_stats (λ _ l, l) demo_db).1 =
  mkDb (graph demo_db) (refreshed demo_edges demo_db <$> filter (λ c, member_names (c_id c) demo_db ≠ []) (communities demo_db)) 3.
Proof.
  split; [by vm_compute|]. apply (refresh_spec (λ _ l, l) ltac:(done) demo_db demo_edges flow_demo_linked flow_demo_names). by vm_compute.
Defined.

(** The region of a change to a.py. *)
Definition demo_region : list Z := elements ({[1%Z; 2%Z]} : gset Z).

Definition demo_run : CommunityDb (F := unit) * Result Z :=
  incremental_detect_communities (λ _ l, l) (λ s, s) (λ s, [s]) (λ s, s) (λ s, s) demo_leiden (λ x, x) (λ _, None) (λ _, None)
    ["a.py"] 2%Z None demo_db.

Lemma incremental_detect_spec_witness :
  demo_run.2 = inl (Z.of_nat (length (demo_detect demo_nodes (reverse demo_edges) 2))) ∧
  get_all_community_member_qns (λ _ l, l) demo_run.1 !! 5%Z = Some ["a.py::g"; "b.py::k"].
Proof.
  split; [|by vm_compute]. eapply (incremental_detect_spec (λ _ l, l)).
  - done.
  - apply flow_demo_linked.
  - apply flow_demo_names.
  - done.
  - by vm_compute.
  - instantiate (1 := demo_region). by vm_compute.
  - by vm_compute.
  - done.
  - by vm_compute.
Defined.

(** The fields JSON keeps; a format for just what is detected in [demo_db]
    stands for it. *)
Definition fields (c : DetectedCommunity) : string * Z * Z * string * string * list string :=
  (d_name c, d_level c, d_size c, d_dominant_language c, d_description c, d_members c).
Definition of_fields (f : string * Z * Z * string * string * list string) : CommunityInput :=
  let '(name, level, size, language, description, members) := f in mkInput name level one size language description members.

Definition demo_read : list GraphNode := match get_all_nodes_filtered (λ _ l, l) demo_db with inl ns => ns | inr _ => [] end.
Definition demo_fields : list (string * Z * Z * string * string * list string) := fields <$> demo_detect demo_read demo_edges 2.
Definition demo_to_json (cs : list DetectedCommunity) : option string :=
  if bool_decide (fields <$> cs = demo_fields) then Some "demo" else None.
Definition demo_from_json (text : string) : option (list CommunityInput) :=
  if bool_decide (text = "demo") then Some (of_fields <$> demo_fields) else None.

Lemma demo_kept : kept_by_json demo_to_json demo_from_json.
Proof.
  intros cs text. unfold demo_to_json. case_bool_decide as Hf; [|done]. intros [= <-]. unfold demo_from_json.
  rewrite bool_decide_eq_true_2 by done. eexists. split; [done|]. rewrite <-Hf. clear Hf.
  induction cs as [|c cs IH]; [constructor|]. constructor; [done|exact IH].
Qed.

Lemma detect_and_store_spec_witness :
  let run := detect_and_store (λ _ l, l) (λ s, s) (λ s, [s]) (λ s, s) (λ s, s) demo_leiden (λ x, x) demo_to_json demo_from_json 2%Z demo_db in
  run.2 = inl (Z.of_nat (length (demo_detect demo_read demo_edges 2))) ∧ length demo_fields = 2.
Proof.
  split; [|by vm_compute]. eapply (detect_and_store_spec (λ _ l, l)).
  - done.
  - apply demo_kept.
  - apply flow_demo_names.
  - by vm_compute.
  - by vm_compute.
  - unfold demo_to_json. by rewrite bool_decide_eq_true_2 by done.
Defined.

End CommunityFlow.
