(* ===== verification/Text.v ===== *)
(** * Text

    The methods of [str] on prefixes, suffixes and separators of more than one
    character, and the text helpers of crates/dagayn-parser/src/util.rs that the
    extractors share. *)
From S2P Require Import Prelude GraphData Visibility Impact ArchFindings.
Import GraphData Visibility.

Module Text.

#[local] Set Default Proof Using "Type".

(** [str::trim]. *)
Abbreviation trim := Impact.trim (only parsing).

Definition newline : Ascii.ascii := Ascii.ascii_of_nat 10.
Definition carriage_return : Ascii.ascii := Ascii.ascii_of_nat 13.
Definition quote : Ascii.ascii := Ascii.ascii_of_nat 39.
Definition double_quote : Ascii.ascii := Ascii.ascii_of_nat 34.

(** [str::strip_prefix]. *)
Fixpoint strip_prefix (p s : string) : option string :=
  match p, s with
  | EmptyString, _ => Some s
  | String c p, String d s => if bool_decide (c = d) then strip_prefix p s else None
  | _, _ => None
  end.

(** [str::strip_suffix]. *)
Definition strip_suffix (suffix s : string) : option string :=
  if str_ends_with suffix s then Some (String.substring 0 (String.length s - String.length suffix) s) else None.

(** [str::split_once] and [str::rsplit_once] at a string. *)
Fixpoint split_once (sep s : string) : option (string * string) :=
  match strip_prefix sep s with
  | Some rest => Some ("", rest)
  | None => match s with
            | String c s => '(before, rest) ← split_once sep s; Some (String c before, rest)
            | EmptyString => None
            end
  end.

Fixpoint rsplit_once_at (sep s : string) : option (string * string) :=
  match match s with String _ s => rsplit_once_at sep s | EmptyString => None end with
  | Some (before, rest) => match s with String c _ => Some (String c before, rest) | EmptyString => None end
  | None => rest ← strip_prefix sep s; Some ("", rest)
  end.

(** The last of the parts [str::rsplit] gives first. *)
Definition last_part (sep : Ascii.ascii) (s : string) : string :=
  match rsplit_once sep s with Some (_, part) => part | None => s end.

(** Source: crates/dagayn-parser/src/util.rs 7-13 [ends_with_ascii_ignore_case]. *)
Definition ends_with_ascii_ignore_case (value suffix : string) : bool :=
  let n := String.length value - String.length suffix in
  bool_decide (to_ascii_lower (String.substring n (String.length value - n) value) = to_ascii_lower suffix).

(** Source: crates/dagayn-parser/src/util.rs 15-20 [starts_with_ascii_ignore_case]. *)
Definition starts_with_ascii_ignore_case (value prefix : string) : bool :=
  bool_decide (to_ascii_lower (String.substring 0 (String.length prefix) value) = to_ascii_lower prefix).

(** Source: crates/dagayn-parser/src/util.rs 22-29 [contains_ascii_ignore_case]. *)
Definition contains_ascii_ignore_case (value needle : string) : bool :=
  negb (bool_decide (needle = "")) && str_contains (to_ascii_lower needle) (to_ascii_lower value).

Fixpoint newlines (s : string) : nat :=
  match s with EmptyString => 0 | String c s => if bool_decide (c = newline) then S (newlines s) else newlines s end.

(** Source: crates/dagayn-parser/src/util.rs 116-118 [line_count]. *)
Definition line_count (source : string) : Z := Z.of_nat (newlines source) + 1.

Fixpoint last_char (s : string) : option Ascii.ascii :=
  match s with EmptyString => None | String c EmptyString => Some c | String _ s => last_char s end.

(** Source: crates/dagayn-parser/src/util.rs 305-315 [strip_matching_quotes]. *)
Definition strip_matching_quotes (value : string) : string :=
  match value with
  | String c (String _ _) =>
      if (bool_decide (c = quote) || bool_decide (c = double_quote)) && bool_decide (last_char value = Some c)
      then String.substring 1 (String.length value - 2) value else value
  | _ => value
  end.

Definition has_lowercase (name : string) : bool := existsb is_ascii_lowercase (chars name).

(** Source: crates/dagayn-parser/src/util.rs 436-452 [should_skip_value_reference]. *)
Definition should_skip_value_reference (name : string) : bool :=
  bool_decide (name ∈ ["true"; "false"; "null"; "undefined"; "None"; "True"; "False"; "self"; "this"; "cls"; "super"])
  || (String.length name <=? 1) || negb (has_lowercase name).

(** Source: crates/dagayn-parser/src/util.rs 162-178 [is_test_file]. *)
Definition is_test_file (file_path : string) : bool :=
  contains_ascii_ignore_case file_path "/test/" || contains_ascii_ignore_case file_path "/tests/"
  || starts_with_ascii_ignore_case file_path "test/" || starts_with_ascii_ignore_case file_path "tests/"
  || match ArchFindings.go_test_file file_path with
     | Some is_test => is_test
     | None =>
         starts_with_ascii_ignore_case file_path "test_"
         || existsb (ends_with_ascii_ignore_case file_path)
              ["_test.md"; ".test.md"; "_test.py"; ".test.py"; ".spec.py"]
     end.

(** [str::split_whitespace]: the words between runs of white space. *)
Fixpoint words_from (fuel : nat) (word l : list N) : list (list N) :=
  let close := match word with [] => [] | _ => [reverse word] end in
  match fuel, l with
  | S fuel, c :: rest =>
      match list_find (λ w, take (length w) l = w) Impact.whitespace_bytes with
      | Some (_, w) => close ++ words_from fuel [] (drop (length w) l)
      | None => words_from fuel (c :: word) rest
      end
  | _, _ => close
  end.
Definition split_whitespace (s : string) : list string :=
  Impact.bytes_of <$> words_from (String.length s) [] (chars s).

(** ** Paths as text *)

(** The components that are not [.]: the root, [..] and names. *)
Definition path_components (path : string) : list string :=
  (if Impact.is_absolute path then ["/"] else []) ++ filter (λ p, p ≠ "" ∧ p ≠ ".") (split_slash path).

(** Source: crates/dagayn-parser/src/util.rs 128-145 [normalize_relative_path]. *)
Definition normalize_relative_path (path : string) : string :=
  String.concat "/" (foldl (λ parts p, if bool_decide (p = "..") then removelast parts else parts ++ [p]) [] (path_components path)).

(** [Path::parent] of a file's path, as text; the parent of one name is the
    empty path. *)
Definition path_parent (path : string) : option string :=
  match Impact.drop_skipped_end (split_slash path) with
  | [] => None
  | parts =>
      let parent := Impact.join_slash (Impact.drop_skipped_end (removelast parts)) in
      Some (if Impact.is_absolute path && bool_decide (parent = "") then "/" else parent)
  end.

(** [Path::join] as text. *)
Definition path_join (base path : string) : string :=
  if Impact.is_absolute path || bool_decide (base = "") then path
  else if bool_decide (last_char base = Some slash) then base +:+ path else base +:+ "/" +:+ path.

(** ** Lemmas *)

Lemma app_cons c a b : String c a +:+ b = String c (a +:+ b).
Proof. done. Qed.

Lemma string_app_assoc (a b c : string) : (a +:+ b) +:+ c = a +:+ b +:+ c.
Proof. induction a as [|x a IH]; [done|]. rewrite !app_cons. by rewrite IH. Qed.

Lemma length_str_app a b : String.length (a +:+ b) = String.length a + String.length b.
Proof. induction a as [|x a IH]; [done|]. rewrite app_cons. cbn [String.length]. by rewrite IH. Qed.

Lemma str_app_eq a b c d : String.length a = String.length c → a +:+ b = c +:+ d → a = c ∧ b = d.
Proof.
  revert c. induction a as [|x a IH]; intros [|y c]; cbn [String.length]; intros Hl; try lia; [done|].
  rewrite !app_cons. intros [= -> Heq]. destruct (IH c) as [-> ->]; [lia|done|done].
Qed.

Lemma substring_all s : String.substring 0 (String.length s) s = s.
Proof. induction s as [|c s IH]; [done|]. cbn. by rewrite IH. Qed.

Lemma substring_app a b : String.substring (String.length a) (String.length b) (a +:+ b) = b.
Proof. induction a as [|c a IH]; [apply substring_all|exact IH]. Qed.

Lemma substring_front a b : String.substring 0 (String.length a) (a +:+ b) = a.
Proof. induction a as [|c a IH]; [by destruct b|]. rewrite app_cons. cbn. by rewrite IH. Qed.

Lemma split_at n s : n <= String.length s → ∃ a b, s = a +:+ b ∧ String.length a = n.
Proof.
  revert s. induction n as [|n IH]; intros s Hn; [by exists "", s|]. destruct s as [|c s]; cbn in Hn; [lia|].
  destruct (IH s) as (a & b & -> & <-); [lia|]. by exists (String c a), b.
Qed.

Lemma lower_app a b : to_ascii_lower (a +:+ b) = to_ascii_lower a +:+ to_ascii_lower b.
Proof. induction a as [|c a IH]; [done|]. rewrite app_cons. cbn [to_ascii_lower]. by rewrite IH. Qed.

Lemma lower_length s : String.length (to_ascii_lower s) = String.length s.
Proof. induction s as [|c s IH]; [done|]. cbn. by rewrite IH. Qed.

Lemma lower_lower s : to_ascii_lower (to_ascii_lower s) = to_ascii_lower s.
Proof. induction s as [|c s IH]; [done|]. cbn [to_ascii_lower]. rewrite IH. f_equal. by destruct c as [[] [] [] [] [] [] [] []]. Qed.

Lemma ends_with_spec v x :
  ends_with_ascii_ignore_case v x = true ↔ ∃ pre, to_ascii_lower v = pre +:+ to_ascii_lower x.
Proof.
  unfold ends_with_ascii_ignore_case. rewrite bool_decide_eq_true.
  destruct (split_at (String.length v - String.length x) v) as (a & b & -> & Ha); [lia|].
  rewrite <-Ha. replace (String.length (a +:+ b) - String.length a) with (String.length b) by (rewrite length_str_app; lia).
  rewrite substring_app, lower_app. split; [intros ->; by eexists|]. intros [pre Hpre].
  apply str_app_eq in Hpre as [_ ?]; [done|]. apply (f_equal String.length) in Hpre.
  rewrite !length_str_app, !lower_length in Hpre. rewrite lower_length. rewrite length_str_app in Ha. lia.
Qed.

Lemma str_ends_with_spec x v : str_ends_with x v = true ↔ ∃ pre, v = pre +:+ x.
Proof.
  induction v as [|c v IH]; cbn [str_ends_with]; rewrite orb_true_iff, bool_decide_eq_true.
  - split; [intros [<-|[=]]; by exists ""|]. intros [[|d pre] Hp]; [by left|done].
  - rewrite IH. split; [intros [<-|[pre ->]]; [by exists ""|by exists (String c pre)]|].
    intros [[|d pre] Hp]; [by left|]. rewrite app_cons in Hp. injection Hp as -> ->. right. by exists pre.
Qed.

(** Two suffixes of one text: the shorter ends the longer. *)
Lemma suffixes_nest a b x y : a +:+ x = b +:+ y → (∃ c, x = c +:+ y) ∨ (∃ c, y = c +:+ x).
Proof.
  revert b. induction a as [|d a IH]; intros [|e b]; intros Heq.
  - left. by exists "".
  - left. by exists (String e b).
  - right. by exists (String d a).
  - rewrite !app_cons in Heq. injection Heq as _ Heq. by apply IH in Heq.
Qed.

Lemma strip_prefix_spec p s rest : strip_prefix p s = Some rest ↔ s = p +:+ rest.
Proof.
  revert s. induction p as [|c p IH]; intros s; [split; by intros [= ->]|].
  destruct s as [|d s]; [done|]. cbn [strip_prefix]. rewrite app_cons. case_bool_decide as Hc; [|split; [done|by intros [= -> _]]].
  subst. rewrite IH. split; [by intros ->|by intros [= ->]].
Qed.

Lemma strip_suffix_spec x s rest : strip_suffix x s = Some rest ↔ s = rest +:+ x.
Proof.
  unfold strip_suffix. destruct (str_ends_with x s) eqn:He.
  - apply str_ends_with_spec in He as [pre ->]. replace (String.length (pre +:+ x) - String.length x) with (String.length pre) by (rewrite length_str_app; lia).
    rewrite substring_front. split; [by intros [= ->]|]. intros Heq. f_equal.
    apply (str_app_eq pre x rest x); [|done]. apply (f_equal String.length) in Heq. rewrite !length_str_app in Heq. lia.
  - split; [done|]. intros ->. assert (Ht : str_ends_with x (rest +:+ x) = true) by (apply str_ends_with_spec; by exists rest). congruence.
Qed.

Lemma rsplit_once_spec c s a b : rsplit_once c s = Some (a, b) → s = a +:+ String c b.
Proof.
  revert a. induction s as [|d s IH]; intros a; [done|]. cbn [rsplit_once]. destruct (rsplit_once c s) as [[a' b']|].
  - intros [= <- <-]. rewrite app_cons. f_equal. by apply IH.
  - case_bool_decide; [|done]. intros [= <- <-]. by subst.
Qed.

End Text.
