(* ===== verification/Syntax.v ===== *)
(** * Syntax trees

    The trees a tree-sitter grammar gives, as the data the extractors of
    crates/dagayn-parser read: a node has a kind, the field it stands in, whether
    it is named, the bytes and rows it spans, and its children in order.  How a
    grammar makes one from a file's bytes is a parameter of each extractor. *)
From S2P Require Import Prelude Text.
Import Text.

Module Syntax.

#[local] Set Default Proof Using "Type".

Inductive Tree := Node {
  t_kind : string;
  t_field : option string;
  is_named : bool;
  start_byte : nat;
  end_byte : nat;
  start_row : Z;
  end_row : Z;
  t_children : list Tree
}.

(** Induction with the hypothesis for each child. *)
Section tree_ind.
Context (P : Tree → Prop).
Context (HNode : ∀ kind field named b1 b2 r1 r2 children, Forall P children → P (Node kind field named b1 b2 r1 r2 children)).

Fixpoint Tree_children_ind (t : Tree) : P t :=
  match t with
  | Node kind field named b1 b2 r1 r2 children =>
      HNode kind field named b1 b2 r1 r2 children
        ((fix go (l : list Tree) : Forall P l :=
            match l with [] => Forall_nil_2 P | t :: l => Forall_cons_2 P t l (Tree_children_ind t) (go l) end) children)
  end.
End tree_ind.

(** How many nodes a tree has; the fuel of the walks that do not descend to a
    child each time. *)
Fixpoint tree_size (t : Tree) : nat :=
  match t with Node _ _ _ _ _ _ _ children => S (foldr (λ t n, tree_size t + n) 0 children) end.

(** Below a node, at any depth. *)
Inductive below (t : Tree) : Tree → Prop :=
  | below_child c : c ∈ t_children t → below t c
  | below_below c d : c ∈ t_children t → below c d → below t d.

Definition sum_sizes (l : list Tree) : nat := foldr (λ t n, tree_size t + n) 0 l.

Lemma tree_size_eq t : tree_size t = S (sum_sizes (t_children t)).
Proof. by destruct t. Qed.

Lemma child_size t l : t ∈ l → tree_size t <= sum_sizes l.
Proof.
  induction l as [|c l IH]; [by intros ?%not_elem_of_nil|]. cbn. intros [->|Hin]%elem_of_cons; [lia|]. apply IH in Hin. unfold sum_sizes in Hin. lia.
Qed.

Lemma below_size t c : below t c → tree_size c < tree_size t.
Proof.
  induction 1 as [t c Hc|t c d Hc _ IH]; rewrite (tree_size_eq t); apply child_size in Hc; lia.
Qed.


(** [child_by_field_name] and [named_child(0)]. *)
Definition child_by_field_name (t : Tree) (field : string) : option Tree :=
  snd <$> list_find (λ c, t_field c = Some field) (t_children t).
Definition named_children (t : Tree) : list Tree := filter (λ c, is_named c = true) (t_children t).
Definition first_named_child (t : Tree) : option Tree := head (named_children t).

(** Source: crates/dagayn-parser/src/util.rs 318-320 [line_of]. *)
Definition line_of (t : Tree) : Z := start_row t + 1.
Definition last_line_of (t : Tree) : Z := end_row t + 1.

Section text.
(** [String::from_utf8_lossy]; the bytes of a file. *)
Context (from_utf8_lossy : string → string) (source : string).

(** Source: crates/dagayn-parser/src/util.rs 76-81 [node_text_bytes]. *)
Definition node_text_bytes (t : Tree) : string := String.substring (start_byte t) (end_byte t - start_byte t) source.

(** Source: crates/dagayn-parser/src/util.rs 41-47 [node_text]. *)
Definition node_text (t : Tree) : string := from_utf8_lossy (node_text_bytes t).

(** Source: crates/dagayn-parser/src/util.rs 83-85 [node_text_is]. *)
Definition node_text_is (t : Tree) (expected : string) : bool := bool_decide (node_text_bytes t = expected).

(** Source: crates/dagayn-parser/src/util.rs 323-330 [direct_child]. *)
Definition direct_child (t : Tree) (kinds : list string) : option Tree :=
  snd <$> list_find (λ c, t_kind c ∈ kinds) (t_children t).

(** Source: crates/dagayn-parser/src/util.rs 333-339 [direct_child_text]. *)
Definition direct_child_text (t : Tree) (kinds : list string) : option string := node_text <$> direct_child t kinds.

(** Source: crates/dagayn-parser/src/util.rs 342-355 [last_direct_child_text]. *)
Definition last_direct_child_text (t : Tree) (kinds : list string) : option string :=
  foldl (λ found c, if bool_decide (t_kind c ∈ kinds) then Some (node_text c) else found) None (t_children t).

(** Source: crates/dagayn-parser/src/util.rs 358-371 [direct_child_texts]. *)
Definition direct_child_texts (t : Tree) (kinds : list string) : list string :=
  node_text <$> filter (λ c, t_kind c ∈ kinds) (t_children t).

(** Source: crates/dagayn-parser/src/util.rs 374-388 [first_descendant]. *)
Fixpoint first_descendant (t : Tree) (kinds : list string) : option Tree :=
  match t with
  | Node _ _ _ _ _ _ _ children =>
      (fix go (l : list Tree) : option Tree :=
         match l with
         | [] => None
         | c :: l => if bool_decide (t_kind c ∈ kinds) then Some c
                     else match first_descendant c kinds with Some found => Some found | None => go l end
         end) children
  end.

(** Source: crates/dagayn-parser/src/util.rs 391-397 [first_descendant_text]. *)
Definition first_descendant_text (t : Tree) (kinds : list string) : option string := node_text <$> first_descendant t kinds.

(** Source: crates/dagayn-parser/src/util.rs 400-422 [last_descendant_text]. *)
Fixpoint collect_last (kinds : list string) (t : Tree) (found : option string) : option string :=
  match t with
  | Node _ _ _ _ _ _ _ children =>
      (fix go (l : list Tree) (found : option string) : option string :=
         match l with
         | [] => found
         | c :: l => go l (collect_last kinds c (if bool_decide (t_kind c ∈ kinds) then Some (node_text c) else found))
         end) children found
  end.
Definition last_descendant_text (t : Tree) (kinds : list string) : option string := collect_last kinds t None.

(** Source: crates/dagayn-parser/src/util.rs 425-433 [string_content_text]. *)
Definition string_content_text (t : Tree) : string :=
  match direct_child t ["string_content"] with
  | Some c => node_text c
  | None => strip_matching_quotes (trim (node_text t))
  end.

End text.

Lemma direct_child_below t kinds c : direct_child t kinds = Some c → below t c ∧ t_kind c ∈ kinds.
Proof.
  unfold direct_child. destruct (list_find _ _) as [[i c']|] eqn:Hf; [|done]. intros [= ->]. apply list_find_Some in Hf as (Hl & Hk & _).
  split; [|done]. apply below_child. by eapply list_elem_of_lookup_2.
Qed.

Lemma first_descendant_below t kinds c : first_descendant t kinds = Some c → below t c ∧ t_kind c ∈ kinds.
Proof.
  revert c. induction t as [k f nm b1 b2 r1 r2 children IH] using Tree_children_ind. intros c. cbn [first_descendant].
  assert (Hgo : ∀ l, (∀ d, d ∈ l → d ∈ children) →
    (fix go (l : list Tree) : option Tree :=
         match l with
         | [] => None
         | c :: l => if bool_decide (t_kind c ∈ kinds) then Some c
                     else match first_descendant c kinds with Some found => Some found | None => go l end
         end) l = Some c → below (Node k f nm b1 b2 r1 r2 children) c ∧ t_kind c ∈ kinds).
  { induction l as [|d l IHl]; intros Hin; [done|]. case_bool_decide as Hk.
    - intros [= ->]. split; [|done]. apply below_child, Hin. by left.
    - destruct (first_descendant d kinds) as [e|] eqn:He.
      + intros [= ->]. rewrite Forall_forall in IH. assert (Hd : d ∈ children) by (apply Hin; left).
        destruct (IH d Hd c He) as [Hb Hkc]. split; [|done]. by eapply below_below.
      + apply IHl. intros e Hel. apply Hin. by right. }
  by apply Hgo.
Qed.

End Syntax.
