(* ===== verification/Discovery.v ===== *)
(** * Which files are indexed, and by which extractor

    Models crates/dagayn-parser/src/ownership.rs and discovery.rs: the language of
    a path, the ignore patterns, the listing of a repository's files, and the
    extractor a file goes to.  The glob matcher, git and the file system are
    parameters. *)
From S2P Require Import Prelude GraphData Visibility Text Update.
Import GraphData Visibility Text.

Module Discovery.

#[local] Set Default Proof Using "Type".

(** ** Extractors *)

(** Source: crates/dagayn-parser/src/ownership.rs 7-40 [RustOwnedPathKind]. *)
Inductive RustOwnedPathKind :=
  | Markdown | Terraform | Rust | Python | Notebook | JavaScript | TypeScript | Tsx | Bash | Go | Java | Ruby
  | CSharp | Php | Kotlin | Scala | Dart | Lua | C | Cpp | ObjC | Elixir | Gdscript | R | Julia | Perl | Vue
  | Svelte | Zig | PowerShell | Swift | Unsupported.

#[global] Instance RustOwnedPathKind_eq_dec : EqDecision RustOwnedPathKind.
Proof. solve_decision. Defined.

(** Source: crates/dagayn-parser/src/ownership.rs 84-119 [file_language]. *)
Definition file_language (kind : RustOwnedPathKind) : string :=
  match kind with
  | Markdown => "markdown" | Terraform => "terraform" | Rust => "rust" | Python => "python" | Notebook => "notebook"
  | JavaScript => "javascript" | TypeScript => "typescript" | Tsx => "tsx" | Bash => "bash" | Go => "go" | Java => "java"
  | Ruby => "ruby" | CSharp => "csharp" | Php => "php" | Kotlin => "kotlin" | Scala => "scala" | Dart => "dart"
  | Lua => "lua" | C => "c" | Cpp => "cpp" | ObjC => "objc" | Elixir => "elixir" | Gdscript => "gdscript" | R => "r"
  | Julia => "julia" | Perl => "perl" | Vue => "vue" | Svelte => "svelte" | Zig => "zig" | PowerShell => "powershell"
  | Swift => "swift" | Unsupported => ""
  end.

(** The extensions of each extractor, in the order they are tried. *)
Definition owned_extensions : list (RustOwnedPathKind * list string) :=
  [(Markdown, [".md"; ".markdown"]);
   (Terraform, [".tf"; ".tfvars"; ".tftest.hcl"; ".tfcomponent.hcl"; ".tfdeploy.hcl"; ".tfquery.hcl"; ".tf.json"; ".tfvars.json"]);
   (Rust, [".rs"]); (Python, [".py"]); (Notebook, [".ipynb"]); (JavaScript, [".js"; ".jsx"; ".mjs"; ".cjs"]);
   (TypeScript, [".ts"; ".mts"; ".cts"; ".astro"]); (Tsx, [".tsx"]); (Bash, [".sh"; ".bash"; ".zsh"; ".ksh"]); (Go, [".go"]);
   (Java, [".java"]); (Ruby, [".rb"]); (CSharp, [".cs"]); (Php, [".php"]); (Kotlin, [".kt"; ".kts"]); (Scala, [".scala"]);
   (Dart, [".dart"]); (Lua, [".lua"]); (C, [".c"; ".h"; ".xs"]); (Cpp, [".cpp"; ".cc"; ".cxx"; ".hpp"]); (ObjC, [".m"; ".mm"]);
   (Elixir, [".ex"; ".exs"]); (Gdscript, [".gd"]); (R, [".r"]); (Julia, [".jl"]); (Perl, [".pl"; ".pm"; ".t"]); (Vue, [".vue"]);
   (Svelte, [".svelte"]); (Zig, [".zig"]); (PowerShell, [".ps1"; ".psm1"; ".psd1"]); (Swift, [".swift"])].

(** Source: crates/dagayn-parser/src/ownership.rs 122-231 [rust_owned_path_kind]. *)
Definition rust_owned_path_kind (file_path : string) : RustOwnedPathKind :=
  match list_find (λ row, existsb (ends_with_ascii_ignore_case file_path) row.2 = true) owned_extensions with
  | Some (_, row) => row.1
  | None => Unsupported
  end.

(** Source: crates/dagayn-parser/src/ownership.rs 243-255 [rust_owned_path_kind_for_language]. *)
Definition rust_owned_path_kind_for_language (language : string) : option RustOwnedPathKind :=
  if bool_decide (language = "bash") then Some Bash
  else if bool_decide (language = "python") then Some Python
  else if bool_decide (language = "javascript") then Some JavaScript
  else if bool_decide (language = "ruby") then Some Ruby
  else if bool_decide (language = "perl") then Some Perl
  else if bool_decide (language = "lua") then Some Lua
  else if bool_decide (language = "r") then Some R
  else if bool_decide (language = "php") then Some Php
  else None.

(** ** Languages *)

(** Source: crates/dagayn-parser/src/discovery.rs 9-66 [EXTENSION_TO_LANGUAGE]. *)
Definition EXTENSION_TO_LANGUAGE : list (string * string) :=
  [(".py", "python"); (".js", "javascript"); (".jsx", "javascript"); (".ts", "typescript"); (".tsx", "tsx"); (".go", "go");
   (".rs", "rust"); (".java", "java"); (".cs", "csharp"); (".rb", "ruby"); (".cpp", "cpp"); (".cc", "cpp"); (".cxx", "cpp");
   (".c", "c"); (".h", "c"); (".hpp", "cpp"); (".kt", "kotlin"); (".kts", "kotlin"); (".swift", "swift"); (".php", "php");
   (".scala", "scala"); (".vue", "vue"); (".dart", "dart"); (".r", "r"); (".mjs", "javascript"); (".cjs", "javascript");
   (".mts", "typescript"); (".cts", "typescript"); (".astro", "typescript"); (".pl", "perl"); (".pm", "perl"); (".t", "perl");
   (".xs", "c"); (".lua", "lua"); (".m", "objc"); (".mm", "objc"); (".sh", "bash"); (".bash", "bash"); (".zsh", "bash");
   (".ksh", "bash"); (".ex", "elixir"); (".exs", "elixir"); (".ipynb", "notebook"); (".zig", "zig"); (".ps1", "powershell");
   (".psm1", "powershell"); (".psd1", "powershell"); (".svelte", "svelte"); (".jl", "julia"); (".gd", "gdscript");
   (".tf", "terraform"); (".tfvars", "terraform"); (".md", "markdown"); (".markdown", "markdown")].

(** Source: crates/dagayn-parser/src/discovery.rs 67-88 [SHEBANG_TO_LANGUAGE]. *)
Definition SHEBANG_TO_LANGUAGE : list (string * string) :=
  [("bash", "bash"); ("sh", "bash"); ("zsh", "bash"); ("ksh", "bash"); ("dash", "bash"); ("ash", "bash"); ("python", "python");
   ("python2", "python"); ("python3", "python"); ("pypy", "python"); ("pypy3", "python"); ("node", "javascript");
   ("nodejs", "javascript"); ("ruby", "ruby"); ("perl", "perl"); ("lua", "lua"); ("Rscript", "r"); ("php", "php")].

(** Source: crates/dagayn-parser/src/discovery.rs 237-244 [COMPOUND_EXTENSIONS]. *)
Definition COMPOUND_EXTENSIONS : list (string * string) :=
  [(".tftest.hcl", "terraform"); (".tfcomponent.hcl", "terraform"); (".tfdeploy.hcl", "terraform"); (".tfquery.hcl", "terraform");
   (".tf.json", "terraform"); (".tfvars.json", "terraform")].

Definition lookup_in (table : list (string * string)) (key : string) : option string :=
  snd ∘ snd <$> list_find (λ row, row.1 = key) table.

(** [Path::file_name] and [Path::extension] of a file's path. *)
Definition file_name (path : string) : string := last_part slash path.
Definition extension (path : string) : option string :=
  match rsplit_once dot (file_name path) with
  | Some (before, ext) => if bool_decide (before = "") then None else Some ext
  | None => None
  end.

Section bytes.
(** Whether bytes are UTF-8. *)
Context (is_utf8 : string → bool).

Fixpoint before_byte (c : Ascii.ascii) (s : string) : string :=
  match s with EmptyString => EmptyString | String d s => if bool_decide (d = c) then EmptyString else String d (before_byte c s) end.

Definition nul : Ascii.ascii := Ascii.ascii_of_nat 0.

(** Source: crates/dagayn-parser/src/discovery.rs 446-469 [detect_language_from_shebang_bytes]. *)
Definition detect_language_from_shebang_bytes (head : string) : option string :=
  first_line ← strip_prefix "#!" (before_byte nul (before_byte newline head));
  if negb (is_utf8 first_line) then None
  else
    let line := trim first_line in
    if bool_decide (line = "") then None
    else
      match split_whitespace line with
      | [] => None
      | first :: rest =>
          interpreter ← (if str_ends_with "/env" first || bool_decide (first = "env")
                         then last_part slash <$> List.find (λ token, negb (starts_with "-" token)) rest
                         else Some (last_part slash first));
          lookup_in SHEBANG_TO_LANGUAGE interpreter
      end.

(** Source: crates/dagayn-parser/src/ownership.rs 233-241 [rust_owned_path_kind_for_source]. *)
Definition rust_owned_path_kind_for_source (file_path source : string) : RustOwnedPathKind :=
  let kind := rust_owned_path_kind file_path in
  if negb (bool_decide (kind = Unsupported)) || bool_decide (is_Some (extension file_path)) then kind
  else default Unsupported (detect_language_from_shebang_bytes source ≫= rust_owned_path_kind_for_language).

(** Source: crates/dagayn-parser/src/core.rs 1252-1254 [rust_parser_owns_path]. *)
Definition rust_parser_owns_path (file_path : string) : bool := negb (bool_decide (rust_owned_path_kind file_path = Unsupported)).

(** Source: crates/dagayn-parser/src/core.rs 1256-1258 [rust_parser_owns_source]. *)
Definition rust_parser_owns_source (file_path source : string) : bool :=
  negb (bool_decide (rust_owned_path_kind_for_source file_path source = Unsupported)).

(** *** Reading a repository *)

(** The bytes of a file under the root, when it can be opened; whether a path is
    a file, a symbolic link; the entries of a directory; the patterns a glob
    matcher finds in a path. *)
Context (read : string → option string) (is_file is_symlink : string → bool) (read_dir : string → option (list string)).
Context (glob_match : list string → string → bool).

(** Source: crates/dagayn-parser/src/discovery.rs 439-444 [detect_language_from_shebang]. *)
Definition detect_language_from_shebang (path : string) : option string :=
  bytes ← read path; detect_language_from_shebang_bytes (String.substring 0 256 bytes).

(** Source: crates/dagayn-parser/src/discovery.rs 246-270 [detect_language]. *)
Definition detect_language (path : string) : option string :=
  match list_find (λ row, str_ends_with row.1 (to_ascii_lower (file_name path)) = true) COMPOUND_EXTENSIONS with
  | Some (_, row) => Some row.2
  | None =>
      match ext ← extension path; lookup_in EXTENSION_TO_LANGUAGE ("." +:+ to_ascii_lower ext) with
      | Some language => Some language
      | None => if bool_decide (extension path = None) then detect_language_from_shebang path else None
      end
  end.

(** Source: crates/dagayn-parser/src/discovery.rs 427-437 [is_binary]. *)
Definition is_binary (path : string) : bool :=
  match read path with Some bytes => has_char nul (String.substring 0 8192 bytes) | None => true end.

(** Source: crates/dagayn-parser/src/discovery.rs 404-425 [should_ignore]. *)
Definition should_ignore (patterns : list string) (path : string) : bool :=
  glob_match patterns path ||
  existsb (λ pattern,
    match strip_suffix "/**" pattern with
    | Some prefix => negb (bool_decide (prefix = "") || has_char slash prefix) && bool_decide (prefix ∈ split_slash path)
    | None => false
    end) patterns.

(** Source: crates/dagayn-parser/src/discovery.rs 89-113 [filter_parseable_files]. *)
Definition filter_parseable_files (ignore_patterns candidates : list string) : list string :=
  filter (λ p, should_ignore ignore_patterns p = false ∧ is_file p = true ∧ is_symlink p = false ∧
               is_Some (detect_language p) ∧ is_binary p = false) candidates.

(** Source: crates/dagayn-parser/src/discovery.rs 116-123 [filter_ignored_paths]. *)
Definition filter_ignored_paths (ignore_patterns candidates : list string) : list string :=
  filter (λ p, should_ignore ignore_patterns p = false) candidates.

(** Source: crates/dagayn-parser/src/discovery.rs 177-205 [on_disk_spelling]. *)
Definition on_disk_spelling (rel_path : string) : option string :=
  let '(parent_rel, name) := match rsplit_once slash rel_path with Some (parent, name) => (parent, name) | None => ("", rel_path) end in
  entries ← read_dir parent_rel;
  if bool_decide (name ∈ entries) then None
  else
    actual ← last (filter (λ entry, to_ascii_lower entry = to_ascii_lower name) entries);
    Some (if bool_decide (parent_rel = "") then actual else parent_rel +:+ "/" +:+ actual).

(** The test of each incremental candidate of [Update], with these functions. *)
Definition candidate_kind (ignore_patterns : list string) : string → option bool :=
  Update.candidate_kind (should_ignore ignore_patterns) is_file is_symlink is_binary detect_language on_disk_spelling.

(** Source: crates/dagayn-parser/src/discovery.rs 471-520 [default_ignore_patterns]. *)
Definition default_ignore_patterns : list string :=
  [".dagayn/**"; "node_modules/**"; ".worktrees/**"; ".claude/worktrees/**"; ".git/**"; ".svn/**"; "__pycache__/**"; "*.pyc";
   ".venv/**"; "venv/**"; "dist/**"; "build/**"; ".next/**"; "target/**"; "dagayn/_vendor_grammars/**";
   ".hatch-vendor-grammars/**"; "vendor/**"; "bootstrap/cache/**"; "public/build/**"; ".bundle/**"; ".gradle/**"; "*.jar";
   ".dart_tool/**"; ".pub-cache/**"; "coverage/**"; ".cache/**"; "*.min.js"; "*.min.css"; "*.map"; "*.lock"; "package-lock.json";
   "yarn.lock"; "*.db"; "*.sqlite"; "*.db-journal"; "*.db-wal"].

Definition lines (s : string) : list string :=
  match rev (split_char newline s) with
  | "" :: rest => rev rest
  | _ => split_char newline s
  end.

(** Source: crates/dagayn-parser/src/discovery.rs 306-321 [load_ignore_patterns]. *)
Definition load_ignore_patterns : list string :=
  default_ignore_patterns ++
  match read ".dagaynignore" with
  | Some raw =>
      if is_utf8 raw then filter (λ line, line ≠ "" ∧ starts_with "#" line = false) (trim <$> lines raw) else []
  | None => []
  end.

(** *** Listing *)

(** Whether the root has a [.git]; what [git ls-files -z] prints, when it runs. *)
Context (has_git : bool) (git_ls_files : list string → option string).

(** Source: crates/dagayn-parser/src/discovery.rs 323-341 [git_ls_files]. *)
Definition ls_files (extra_args : list string) : option (list string) :=
  stdout ← git_ls_files extra_args; Some (filter (.≠ "") (split_char nul stdout)).

(** Source: crates/dagayn-parser/src/discovery.rs 343-364 [get_git_indexable_files]. *)
Definition get_git_indexable_files (recurse_submodules : option bool) : option (list string) :=
  if negb has_git then None
  else
    cached ← ls_files (["--cached"] ++ if default false recurse_submodules then ["--recurse-submodules"] else []);
    let others := default [] (ls_files ["--others"; "--exclude-standard"]) in
    Some (Update.firsts (cached ++ others)).

(** A repository's files when git has none, found by walking its directories. *)
Context (walked : list string → list string).

(** Source: crates/dagayn-parser/src/discovery.rs 207-214 [collect_parseable_files]. *)
Definition collect_parseable_files (recurse_submodules : option bool) : list string :=
  let ignore_patterns := load_ignore_patterns in
  let candidates := match get_git_indexable_files recurse_submodules with
                    | Some ((_ :: _) as files) => files
                    | _ => walked ignore_patterns
                    end in
  filter_parseable_files ignore_patterns candidates.

(** Source: crates/dagayn-parser/src/discovery.rs 219-232 [collect_vcs_scope]. *)
Definition collect_vcs_scope (recurse_submodules : option bool) : option (list string) :=
  match get_git_indexable_files recurse_submodules with
  | Some ((_ :: _) as candidates) => Some (filter (λ p, should_ignore load_ignore_patterns p = false) candidates)
  | _ => None
  end.

(** ** The listing and the extractors agree *)

Definition all_extensions : list string := owned_extensions ≫= snd.

(** Two extensions no path has both. *)
Definition apart (x y : string) : bool := bool_decide (x = y) || negb (str_ends_with x y) && negb (str_ends_with y x).

Lemma extensions_apart x y : x ∈ all_extensions → y ∈ all_extensions → apart x y = true ∧ to_ascii_lower x = x.
Proof.
  intros Hx Hy. assert (Hall : forallb (λ x, forallb (apart x) all_extensions && bool_decide (to_ascii_lower x = x)) all_extensions = true) by by vm_compute.
  rewrite forallb_forall in Hall. apply list_elem_of_In in Hx, Hy. apply Hall in Hx.
  apply andb_true_iff in Hx as [Hx Hl%bool_decide_eq_true]. rewrite forallb_forall in Hx. by split; [apply Hx|].
Qed.

Lemma ends_with_one path x y : x ∈ all_extensions → y ∈ all_extensions →
  ends_with_ascii_ignore_case path x = true → ends_with_ascii_ignore_case path y = true → x = y.
Proof.
  intros Hx Hy (a & Ha)%ends_with_spec (b & Hb)%ends_with_spec. destruct (extensions_apart x y Hx Hy) as [Hap Hlx].
  destruct (extensions_apart y x Hy Hx) as [_ Hly]. rewrite Hlx in Ha. rewrite Hly in Hb. rewrite Ha in Hb.
  unfold apart in Hap. apply orb_true_iff in Hap as [Heq%bool_decide_eq_true|[Hxy%negb_true_iff Hyx%negb_true_iff]%andb_true_iff]; [done|].
  destruct (suffixes_nest _ _ _ _ Hb) as [[c Hc]|[c Hc]].
  - rewrite (proj2 (str_ends_with_spec y x)) in Hyx; [done|by exists c].
  - rewrite (proj2 (str_ends_with_spec x y)) in Hxy; [done|by exists c].
Qed.

Lemma list_find_same {A} (P Q : A → Prop) `{!∀ x, Decision (P x), !∀ x, Decision (Q x)} (l : list A) :
  (∀ x, x ∈ l → P x ↔ Q x) → list_find P l = list_find Q l.
Proof.
  induction l as [|x l IH]; intros Hl; [done|]. cbn. rewrite IH by (intros y Hy; apply Hl; by right).
  assert (Hx : P x ↔ Q x) by (apply Hl; left). destruct (decide (P x)); [by rewrite decide_True by tauto|by rewrite decide_False by tauto].
Qed.

(** The extractor of an extension. *)
Definition kind_of_extension (x : string) : RustOwnedPathKind :=
  match list_find (λ row, x ∈ row.2) owned_extensions with Some (_, row) => row.1 | None => Unsupported end.

Lemma kind_of_path path x : x ∈ all_extensions → ends_with_ascii_ignore_case path x = true →
  rust_owned_path_kind path = kind_of_extension x.
Proof.
  intros Hx He. unfold rust_owned_path_kind, kind_of_extension.
  rewrite (list_find_same (λ row, existsb (ends_with_ascii_ignore_case path) row.2 = true) (λ row, x ∈ row.2)); [done|].
  intros row Hrow. rewrite existsb_exists. split.
  - intros (y & Hy & Hey). apply list_elem_of_In in Hy. assert (Hya : y ∈ all_extensions).
    { unfold all_extensions. apply list_elem_of_bind. by exists row. }
    by rewrite (ends_with_one path x y Hx Hya He Hey).
  - intros Hin. exists x. by split; [apply list_elem_of_In|].
Qed.

(** What the tables say of each extension. *)
Lemma tables_agree : ∀ row, row ∈ COMPOUND_EXTENSIONS ++ EXTENSION_TO_LANGUAGE →
  row.1 ∈ all_extensions ∧ file_language (kind_of_extension row.1) = row.2 ∧ row.2 ≠ "".
Proof.
  intros row Hr. assert (Hall : forallb (λ row, bool_decide (row.1 ∈ all_extensions) && bool_decide (file_language (kind_of_extension row.1) = row.2)
    && negb (bool_decide (row.2 = ""))) (COMPOUND_EXTENSIONS ++ EXTENSION_TO_LANGUAGE) = true) by by vm_compute.
  rewrite forallb_forall in Hall. apply list_elem_of_In, Hall in Hr. apply andb_true_iff in Hr as [[H1%bool_decide_eq_true H2%bool_decide_eq_true]%andb_true_iff H3%negb_true_iff%bool_decide_eq_false].
  done.
Qed.

Lemma shebang_languages row : row ∈ SHEBANG_TO_LANGUAGE →
  ∃ kind, rust_owned_path_kind_for_language row.2 = Some kind ∧ kind ≠ Unsupported ∧ file_language kind = row.2.
Proof.
  intros Hr. assert (Hall : forallb (λ row, match rust_owned_path_kind_for_language row.2 with
    Some kind => negb (bool_decide (kind = Unsupported)) && bool_decide (file_language kind = row.2) | None => false end) SHEBANG_TO_LANGUAGE = true) by by vm_compute.
  rewrite forallb_forall in Hall. apply list_elem_of_In, Hall in Hr. destruct (rust_owned_path_kind_for_language row.2) as [kind|]; [|done].
  apply andb_true_iff in Hr as [H1%negb_true_iff%bool_decide_eq_false H2%bool_decide_eq_true]. by exists kind.
Qed.

Lemma lookup_in_spec table key v : lookup_in table key = Some v → (key, v) ∈ table.
Proof.
  unfold lookup_in. destruct (list_find _ table) as [[i [k v']]|] eqn:Hf; [|done]. cbn. intros [= ->].
  apply list_find_Some in Hf as (Hl & Hk & _). cbn in Hk. subst. by eapply list_elem_of_lookup_2.
Qed.

Lemma before_byte_front c n s : String.length (before_byte c s) < n → before_byte c (String.substring 0 n s) = before_byte c s.
Proof.
  revert n. induction s as [|d s IH]; intros n Hn; [by destruct n|]. destruct n as [|n]; [lia|]. cbn in Hn |- *.
  case_bool_decide; [done|]. cbn in Hn. by rewrite IH by lia.
Qed.

Lemma ends_with_file_name path x : has_char slash x = false →
  ends_with_ascii_ignore_case (file_name path) x = true → ends_with_ascii_ignore_case path x = true.
Proof.
  clear. intros _. rewrite !ends_with_spec. intros [pre Hpre]. unfold file_name, last_part in Hpre.
  destruct (rsplit_once slash path) as [[a b]|] eqn:Hr; [|by exists pre]. apply rsplit_once_spec in Hr as ->.
  exists (to_ascii_lower (a +:+ String slash "") +:+ pre). rewrite string_app_assoc, <-Hpre, <-lower_app. f_equal.
  by rewrite string_app_assoc.
Qed.

Lemma extension_ends path ext : extension path = Some ext → ends_with_ascii_ignore_case path ("." +:+ ext) = true.
Proof.
  unfold extension. destruct (rsplit_once dot (file_name path)) as [[before e]|] eqn:Hr; [|done]. case_bool_decide; [done|].
  intros [= ->]. apply rsplit_once_spec in Hr. rewrite ends_with_spec. unfold file_name, last_part in Hr.
  destruct (rsplit_once slash path) as [[a b]|] eqn:Hs.
  - apply rsplit_once_spec in Hs as ->. rewrite Hr. exists (to_ascii_lower (a +:+ String slash before)). rewrite <-lower_app. f_equal.
    rewrite string_app_assoc. done.
  - exists (to_ascii_lower before). rewrite Hr. by rewrite <-lower_app.
Qed.

Lemma ends_with_lower path x y : to_ascii_lower y = to_ascii_lower x →
  ends_with_ascii_ignore_case path x = true → ends_with_ascii_ignore_case path y = true.
Proof. clear. rewrite !ends_with_spec. by intros ->. Qed.

(** A path with one of the extensions goes to that extension's extractor. *)
Lemma owned_by_extension path bytes x l :
  (x, l) ∈ COMPOUND_EXTENSIONS ++ EXTENSION_TO_LANGUAGE → ends_with_ascii_ignore_case path x = true →
  rust_parser_owns_source path bytes = true ∧ file_language (rust_owned_path_kind_for_source path bytes) = l.
Proof.
  intros (Hx & Hlang & Hne)%tables_agree He. cbn in Hx, Hlang, Hne. pose proof (kind_of_path path x Hx He) as Hk.
  assert (Hu : kind_of_extension x ≠ Unsupported) by (intros Hu; rewrite Hu in Hlang; by subst l).
  assert (Hs : rust_owned_path_kind_for_source path bytes = kind_of_extension x).
  { unfold rust_owned_path_kind_for_source. rewrite Hk. by rewrite bool_decide_eq_false_2. }
  unfold rust_parser_owns_source. rewrite Hs. by rewrite bool_decide_eq_false_2.
Qed.

Lemma detected_owned path bytes l :
  read path = Some bytes → String.length (before_byte newline bytes) < 256 → detect_language path = Some l →
  rust_parser_owns_source path bytes = true ∧
  (is_Some (extension path) ∨ rust_owned_path_kind path = Unsupported → file_language (rust_owned_path_kind_for_source path bytes) = l).
Proof.
  intros Hread Hshort. unfold detect_language. destruct (list_find _ COMPOUND_EXTENSIONS) as [[i row]|] eqn:Hc.
  { intros [= <-]. apply list_find_Some in Hc as (Hl & (pre & Hpre)%str_ends_with_spec & _). apply list_elem_of_lookup_2 in Hl.
    assert (Hrow : row ∈ COMPOUND_EXTENSIONS ++ EXTENSION_TO_LANGUAGE) by (apply elem_of_app; by left).
    destruct (tables_agree row Hrow) as (Hx & _ & _). destruct (extensions_apart _ _ Hx Hx) as [_ Hlow].
    destruct (owned_by_extension path bytes row.1 row.2) as [H1 H2]; [by destruct row| |by split].
    assert (Hsl : has_char slash row.1 = false).
    { apply not_true_is_false. intros Hs. assert (Hall : forallb (λ row, negb (has_char slash row.1)) COMPOUND_EXTENSIONS = true) by by vm_compute.
      rewrite forallb_forall in Hall. apply list_elem_of_In, Hall in Hl. by rewrite Hs in Hl. }
    apply ends_with_file_name; [done|]. apply ends_with_spec. exists pre. by rewrite Hlow. }
  clear Hc. destruct (extension path) as [ext|] eqn:He; cbn [mbind option_bind].
  - destruct (lookup_in _ _) as [l'|] eqn:Hl; [|by rewrite bool_decide_eq_false_2]. intros [= ->]. apply lookup_in_spec in Hl.
    destruct (owned_by_extension path bytes ("." +:+ to_ascii_lower ext) l) as [H1 H2]; [apply elem_of_app; by right| |by split].
    eapply ends_with_lower, extension_ends, He. by rewrite !lower_app, lower_lower.
  - rewrite bool_decide_eq_true_2 by done. unfold detect_language_from_shebang. rewrite Hread. cbn [mbind option_bind].
    replace (detect_language_from_shebang_bytes (String.substring 0 256 bytes)) with (detect_language_from_shebang_bytes bytes).
    2:{ unfold detect_language_from_shebang_bytes. by rewrite before_byte_front. }
    intros Hd. assert (Hrow : ∃ row, row ∈ SHEBANG_TO_LANGUAGE ∧ row.2 = l).
    { revert Hd. clear. unfold detect_language_from_shebang_bytes. destruct (strip_prefix _ _); [|done]. cbn [mbind option_bind].
      destruct (negb _); [done|]. case_bool_decide; [done|]. destruct (split_whitespace _); [done|].
      match goal with |- (m ← ?x; _) = _ → _ => destruct x; [|done] end. cbn [mbind option_bind]. intros Hl%lookup_in_spec. by eexists (_, l). }
    destruct Hrow as (row & Hrow & <-). destruct (shebang_languages row Hrow) as (kind & Hk & Hu & Hl).
    unfold rust_parser_owns_source, rust_owned_path_kind_for_source. rewrite He.
    rewrite (bool_decide_eq_false_2 (is_Some None)) by by intros [? ?]. rewrite orb_false_r.
    destruct (decide (rust_owned_path_kind path = Unsupported)) as [Hp|Hp].
    + rewrite Hp, (bool_decide_eq_true_2 (Unsupported = Unsupported)), Hd by done. cbn [negb mbind option_bind default]. rewrite Hk.
      cbn [default]. rewrite bool_decide_eq_false_2 by done. by split.
    + rewrite (bool_decide_eq_false_2 (rust_owned_path_kind path = Unsupported)) by done. cbn [negb]. rewrite bool_decide_eq_false_2 by done.
      split; [done|]. intros [[? ?]|?]; done.
Qed.


End bytes.

(** ** Witnesses *)

(** A repository of a script without an extension and a text. *)
Definition demo_read (path : string) : option string :=
  if bool_decide (path = "bin/run") then Some "#!/usr/bin/env bash" else if bool_decide (path = "notes.txt") then Some "text" else None.
Definition demo_files (args : list string) : option string :=
  if bool_decide (args = ["--cached"]) then Some ("bin/run" +:+ String nul ("notes.txt" +:+ String nul "")) else None.


Example demo_listing :
  collect_parseable_files (λ _, true) demo_read (λ _, true) (λ _, false) (λ _ _, false) true demo_files (λ _, []) None = ["bin/run"].
Proof. by vm_compute. Qed.


(** A file whose whole name is an extension goes by it, whatever its first line
    says. *)
Example dotfile_goes_by_name :
  detect_language (λ _, true) (λ _, Some "#!/usr/bin/python") ".bash" = Some "python" ∧
  rust_owned_path_kind_for_source (λ _, true) ".bash" "#!/usr/bin/python" = Bash.
Proof. by vm_compute. Qed.

End Discovery.
