(* ===== verification/ParsedFile.v ===== *)
(** * What a parsed file holds

    Models crates/dagayn-parser/src/types.rs, the passes of core.rs over an
    extractor's nodes and edges, and the marks of stdlib/mod.rs.  An extractor
    reads one file; whatever it found, malformed names go, the definitions of one
    name become one node, and members hang on a node of the file. *)
From S2P Require Import Prelude GraphData Visibility Text.
Import GraphData Visibility Text.

Module ParsedFile.

#[local] Set Default Proof Using "Type".

(** ** Nodes and edges *)

(** Source: crates/dagayn-parser/src/types.rs 117-125 [NodeKind]. *)
Inductive NodeKind := KFile | KFunction | KClass | KType | KTest | KDocSection | KDocBody.

#[global] Instance NodeKind_eq_dec : EqDecision NodeKind.
Proof. solve_decision. Defined.

(** Source: crates/dagayn-parser/src/types.rs 128-138 [as_str]. *)
Definition node_kind_str (k : NodeKind) : string :=
  match k with
  | KFile => "File" | KFunction => "Function" | KClass => "Class" | KType => "Type" | KTest => "Test"
  | KDocSection => "DocSection" | KDocBody => "DocBody"
  end.

(** Source: crates/dagayn-parser/src/types.rs 162-172 [EdgeKind]. *)
Inductive EdgeKind := Calls | Contains | ImportsFrom | TestedBy | CrossArtifact | References | Inherits | Implements | DependsOn.

#[global] Instance EdgeKind_eq_dec : EqDecision EdgeKind.
Proof. solve_decision. Defined.

(** Source: crates/dagayn-parser/src/types.rs 175-187 [as_str]. *)
Definition edge_kind_str (k : EdgeKind) : string :=
  match k with
  | Calls => "CALLS" | Contains => "CONTAINS" | ImportsFrom => "IMPORTS_FROM" | TestedBy => "TESTED_BY"
  | CrossArtifact => "CROSS_ARTIFACT" | References => "REFERENCES" | Inherits => "INHERITS" | Implements => "IMPLEMENTS"
  | DependsOn => "DEPENDS_ON"
  end.

(** Building and reading the JSON of extras. *)
Class JsonObjects `{Json} := {
  of_bool : bool → Value;
  of_string : string → Value;
  of_nat : nat → Value;
  of_f64 : f64 → Value;
  of_strings : list string → Value;
  is_object : Value → bool;
  (** [as_object_mut().insert(..)], [value[key] = ..]. *)
  set_member : Value → string → Value → Value;
  (** [value.get(key).and_then(Value::as_u64)]. *)
  get_u64 : Value → string → option nat
}.

(** serde_json's objects: what is set is what is read. *)
Class JsonObjectLaws `{JsonObjects} := {
  object_empty : is_object empty_object = true;
  object_set v key x : is_object v = true → is_object (set_member v key x) = true;
  bool_set_same v key b : is_object v = true → get_bool (set_member v key (of_bool b)) key = Some b;
  bool_set_other v key key' x : is_object v = true → key ≠ key' → get_bool (set_member v key x) key' = get_bool v key';
  bool_empty key : get_bool empty_object key = None;
  key_empty key : has_key empty_object key = false
}.

Section parsed.
Context `{JsonObjects}.

(** Source: crates/dagayn-parser/src/types.rs 209-222 [ParsedNode]. *)
Record ParsedNode := mkParsedNode {
  p_kind : NodeKind;
  p_name : string;
  p_file_path : string;
  p_line_start : Z;
  p_line_end : Z;
  p_language : string;
  p_parent_name : option string;
  p_params : option string;
  p_return_type : option string;
  p_modifiers : option string;
  p_is_test : bool;
  p_extra : Value
}.

(** Source: crates/dagayn-parser/src/types.rs 226-241 [file]. *)
Definition file_node (file_path : string) (line_end : Z) (language : string) : ParsedNode :=
  mkParsedNode KFile file_path file_path 1 line_end language None None None None (is_test_file file_path) empty_object.

(** Source: crates/dagayn-parser/src/types.rs 245-252 [ParsedEdge]. *)
Record ParsedEdge := mkParsedEdge {
  pe_kind : EdgeKind;
  pe_source : string;
  pe_target : string;
  pe_file_path : string;
  pe_line : Z;
  pe_extra : Value
}.

(** Source: crates/dagayn-parser/src/types.rs 256-271 [new]. *)
Definition new_edge (kind : EdgeKind) (source target file_path : string) (line : Z) : ParsedEdge :=
  mkParsedEdge kind source target file_path line empty_object.

Definition with_target (target : string) (extra : Value) (e : ParsedEdge) : ParsedEdge :=
  mkParsedEdge (pe_kind e) (pe_source e) target (pe_file_path e) (pe_line e) extra.
Definition with_source (source : string) (e : ParsedEdge) : ParsedEdge :=
  mkParsedEdge (pe_kind e) source (pe_target e) (pe_file_path e) (pe_line e) (pe_extra e).

(** Source: crates/dagayn-build/src/parse_batch.rs 301-316 [parsed_node_to_input]. *)
Definition parsed_node_to_input (n : ParsedNode) : NodeInput :=
  mkNodeInput (node_kind_str (p_kind n)) (p_name n) (p_file_path n) (p_line_start n) (p_line_end n) (p_language n)
    (p_parent_name n) (p_params n) (p_return_type n) (p_modifiers n) (p_is_test n) (p_extra n).

(** Source: crates/dagayn-build/src/parse_batch.rs 318-327 [parsed_edge_to_input]. *)
Definition parsed_edge_to_input (e : ParsedEdge) : EdgeInput :=
  mkEdgeInput (edge_kind_str (pe_kind e)) (pe_source e) (pe_target e) (pe_file_path e) (pe_line e) (pe_extra e).

(** ** Names *)

(** Source: crates/dagayn-parser/src/core.rs 1078-1083 [qualify]. *)
Definition qualify (file_path name : string) (parent_name : option string) : string :=
  match parent_name with
  | Some parent => if bool_decide (parent = "") then file_path +:+ "::" +:+ name
                   else file_path +:+ "::" +:+ parent +:+ "." +:+ name
  | None => file_path +:+ "::" +:+ name
  end.

(** Source: crates/dagayn-parser/src/core.rs 497-503 [qualified_name_of]. *)
Definition qualified_name_of (n : ParsedNode) : string :=
  match p_kind n, p_parent_name n with
  | KFile, _ => p_file_path n
  | _, Some parent => p_file_path n +:+ "::" +:+ parent +:+ "." +:+ p_name n
  | _, None => p_file_path n +:+ "::" +:+ p_name n
  end.

(** ** The passes after an extractor *)

Definition malformed (name : string) : bool :=
  bool_decide (trim name = "") || has_char newline name || has_char carriage_return name.

Definition well_named (n : ParsedNode) : bool :=
  bool_decide (p_kind n ∈ [KFile; KDocSection; KDocBody]) || negb (malformed (p_name n)).

(** Source: crates/dagayn-parser/src/core.rs 477-495 [drop_malformed_names]. *)
Definition drop_malformed_names (nodes : list ParsedNode) (edges : list ParsedEdge) : list ParsedNode * list ParsedEdge :=
  let dropped := list_to_set (qualified_name_of <$> filter (λ n, well_named n = false) nodes) : gset string in
  (filter (λ n, well_named n = true) nodes,
   filter (λ e, malformed (pe_target e) = false ∧ pe_source e ∉ dropped ∧ pe_target e ∉ dropped) edges).

(** The node each one is merged into: the first of its name, for the others. *)
Definition merge_step (acc : gmap string nat * list (option nat)) (q : string) : gmap string nat * list (option nat) :=
  let '(first, merged) := acc in
  match first !! q with
  | Some primary => (first, merged ++ [Some primary])
  | None => (<[q := length merged]> first, merged ++ [None])
  end.
Definition merge_targets (nodes : list ParsedNode) : list (option nat) :=
  (foldl merge_step (∅, []) (qualified_name_of <$> nodes)).2.

Definition absorb (n target : ParsedNode) : ParsedNode :=
  mkParsedNode (p_kind target) (p_name target) (p_file_path target) (Z.min (p_line_start target) (p_line_start n))
    (Z.max (p_line_end target) (p_line_end n)) (p_language target) (p_parent_name target) (p_params target)
    (p_return_type target) (p_modifiers target) (p_is_test target || p_is_test n) (p_extra target).

(** Source: crates/dagayn-parser/src/core.rs 528-543 [collapse_duplicate_nodes]. *)
Definition absorb_at (merged : list (option nat)) (acc : list ParsedNode * list nat) (index : nat) : list ParsedNode * list nat :=
  let '(nodes, counts) := acc in
  match merged !! index, nodes !! index with
  | Some (Some primary), Some n => (alter (absorb n) primary nodes, alter S primary counts)
  | _, _ => acc
  end.

(** Source: crates/dagayn-parser/src/core.rs 544-557 [collapse_duplicate_nodes]. *)
Definition count_declarations (n : ParsedNode) (count : nat) : ParsedNode :=
  if (1 <? count) && is_object (p_extra n) then
    let previous := default 1 (get_u64 (p_extra n) "merged_declarations") in
    mkParsedNode (p_kind n) (p_name n) (p_file_path n) (p_line_start n) (p_line_end n) (p_language n) (p_parent_name n)
      (p_params n) (p_return_type n) (p_modifiers n) (p_is_test n)
      (set_member (p_extra n) "merged_declarations" (of_nat (previous + count - 1)))
  else n.

(** The edges with a new pair of ends, or of another kind.

    Source: crates/dagayn-parser/src/core.rs 564-568 [collapse_duplicate_nodes]. *)
Fixpoint first_contains (seen : gset (string * string)) (edges : list ParsedEdge) : list ParsedEdge :=
  match edges with
  | [] => []
  | e :: edges =>
      if bool_decide (pe_kind e = Contains) then
        if bool_decide ((pe_source e, pe_target e) ∈ seen) then first_contains seen edges
        else e :: first_contains ({[(pe_source e, pe_target e)]} ∪ seen) edges
      else e :: first_contains seen edges
  end.

(** Source: crates/dagayn-parser/src/core.rs 513-569 [collapse_duplicate_nodes]. *)
Definition collapse_duplicate_nodes (nodes : list ParsedNode) (edges : list ParsedEdge) : list ParsedNode * list ParsedEdge :=
  let merged := merge_targets nodes in
  if bool_decide (Forall (λ m, m = None) merged) then (nodes, edges)
  else
    let '(nodes, counts) := foldl (absorb_at merged) (nodes, replicate (length nodes) 1) (seq 0 (length nodes)) in
    let nodes := zip_with count_declarations nodes counts in
    ((zip nodes merged) ≫= (λ nm, match nm.2 with None => [nm.1] | Some _ => [] end), first_contains ∅ edges).

(** Source: crates/dagayn-parser/src/core.rs 579-589 [contain_in_file]. *)
Definition contain_in_file (file_path : string) (nodes : list ParsedNode) (edges : list ParsedEdge) : list ParsedEdge :=
  let declared := list_to_set (qualified_name_of <$> nodes) : gset string in
  (λ e, if bool_decide (pe_kind e = Contains) && negb (bool_decide (pe_source e = file_path)) && negb (bool_decide (pe_source e ∈ declared))
        then with_source file_path e else e) <$> edges.

(** What [parse_file_in_repo] does with what an extractor found.

    Source: crates/dagayn-parser/src/core.rs 222-233 [parse_file_in_repo]. *)
Definition settle (file_path : string) (found : list ParsedNode * list ParsedEdge) : list ParsedNode * list ParsedEdge :=
  let '(nodes, edges) := drop_malformed_names found.1 found.2 in
  let '(nodes, edges) := collapse_duplicate_nodes nodes edges in
  (nodes, contain_in_file file_path nodes edges).

(** ** Marks on edges *)

(** Source: crates/dagayn-parser/src/stdlib/mod.rs 38-48 [StdlibEvidence]. *)
Inductive StdlibEvidence := Certain | Likely.

(** 0.9 and 0.6. *)
Definition nine_tenths : f64 := SpecFloat.S754_finite false 8106479329266893 (-53).
Definition six_tenths : f64 := SpecFloat.S754_finite false 5404319552844595 (-53).

(** Source: crates/dagayn-parser/src/stdlib/mod.rs 51-56 [tier]. *)
Definition tier (e : StdlibEvidence) : string * f64 :=
  match e with Certain => ("HIGH", nine_tenths) | Likely => ("MEDIUM", six_tenths) end.

(** Source: crates/dagayn-parser/src/stdlib/mod.rs 78-96 [mark_external_edge]. *)
Definition mark_external_edge (package : string) (evidence : StdlibEvidence) (e : ParsedEdge) : ParsedEdge :=
  let symbol := pe_target e in
  let extra := if is_object (pe_extra e) then pe_extra e else empty_object in
  let extra := set_member extra "external" (of_bool true) in
  let extra := set_member extra "external_package" (of_string package) in
  let extra := set_member extra "confidence_tier" (of_string (tier evidence).1) in
  let extra := set_member extra "confidence" (of_f64 (tier evidence).2) in
  with_target package
    (if negb (bool_decide (symbol = "")) && negb (bool_decide (symbol = package))
     then set_member extra "external_symbol" (of_string symbol) else extra) e.

(** Source: crates/dagayn-parser/src/stdlib/mod.rs 63-71 [mark_stdlib_edge]. *)
Definition mark_stdlib_edge (package : string) (evidence : StdlibEvidence) (e : ParsedEdge) : ParsedEdge :=
  let e := mark_external_edge package evidence e in
  with_target (pe_target e) (set_member (pe_extra e) "stdlib" (of_bool true)) e.

Section marks.
Context {laws : JsonObjectLaws}.

Lemma mark_stdlib_external package evidence e :
  is_object (pe_extra e) = true → get_bool (pe_extra (mark_stdlib_edge package evidence e)) "external" = Some true.
Proof using laws.
  intros Ho. unfold mark_stdlib_edge, mark_external_edge. rewrite Ho. cbn [with_target pe_extra].
  repeat match goal with |- context [if ?b then _ else _] => destruct b end; repeat first [by rewrite bool_set_same; auto using object_set | rewrite bool_set_other by auto 10 using object_set].
Qed.

End marks.
End parsed.
End ParsedFile.
