(* ===== verification/ParsedFileSpec.v ===== *)
(** * What settling a parsed file gives

    The passes of core.rs over what an extractor found: every name is one node,
    every member hangs on a node of the file, and doing it twice changes nothing. *)
From S2P Require Import Prelude GraphData EdgePass Visibility Text ParsedFile.
Import GraphData Text ParsedFile.

Module ParsedFileSpec.

#[local] Set Default Proof Using "Type".

(** ** The first of each name *)

(** Where a name stands first. *)
Definition first_at (qs : list string) (q : string) (p : nat) : Prop :=
  qs !! p = Some q ∧ ∀ j, j < p → qs !! j ≠ Some q.

Lemma first_at_unique qs q p p' : first_at qs q p → first_at qs q p' → p = p'.
Proof.
  intros [H1 H2] [H1' H2']. destruct (decide (p < p')) as [Hlt|]; [by destruct (H2' p Hlt)|].
  destruct (decide (p' < p)) as [Hlt|]; [by destruct (H2 p' Hlt)|lia].
Qed.

Lemma first_at_app qs q p l : first_at qs q p → first_at (qs ++ l) q p.
Proof.
  intros [H1 H2]. split; [by apply lookup_app_l_Some|]. intros j Hj. rewrite lookup_app_l; [by apply H2|].
  apply lookup_lt_Some in H1. lia.
Qed.

Lemma first_at_exists qs q : q ∈ qs → ∃ p, first_at qs q p.
Proof.
  intros Hq. assert (Hf : is_Some (list_find (λ x, x = q) qs)) by (apply list_find_elem_of with q; done).
  destruct Hf as [[p x] Hf]. apply list_find_Some in Hf as (Hp & <- & Hj). exists p. split; [done|].
  intros j Hlt Hl. by apply (Hj j x).
Qed.

(** The state of the pass over the names. *)
Record merging (qs : list string) (st : gmap string nat * list (option nat)) : Prop := mkMerging {
  merging_length : length st.2 = length qs;
  merging_first q p : st.1 !! q = Some p ↔ first_at qs q p;
  merging_targets i q : qs !! i = Some q → ∃ p, first_at qs q p ∧ st.2 !! i = Some (if bool_decide (p = i) then None else Some p)
}.

Lemma merge_step_ok qs st q : merging qs st → merging (qs ++ [q]) (merge_step st q).
Proof.
  destruct st as [first merged]. intros [Hl Hf Ht]. cbn in Hl, Hf, Ht. unfold merge_step.
  assert (Hold : ∀ i q', qs !! i = Some q' → i < length merged) by (intros i q' Hi; apply lookup_lt_Some in Hi; lia).
  destruct (first !! q) as [primary|] eqn:Hq.
  - apply Hf in Hq. split; cbn; [rewrite !length_app; cbn; lia| |].
    + intros q' p. rewrite Hf. split; [apply first_at_app|]. intros Hp. destruct (decide (q' = q)) as [->|Hne].
      * by rewrite (first_at_unique _ _ _ _ Hp (first_at_app _ _ _ [q] Hq)).
      * destruct Hp as [H1 H2]. apply lookup_app_Some in H1 as [H1|[Hge [_ Hx]%list_lookup_singleton_Some]]; [|congruence].
        split; [done|]. intros j Hj Hjq. apply (H2 j Hj). by apply lookup_app_l_Some.
    + intros i q' Hi. apply lookup_app_Some in Hi as [Hi|[Hge [Hi ->]%list_lookup_singleton_Some]].
      * destruct (Ht i q' Hi) as (p & Hp & Hm). exists p. split; [by apply first_at_app|]. by apply lookup_app_l_Some.
      * exists primary. split; [by apply first_at_app|]. assert (i = length merged) as -> by lia.
        rewrite lookup_app_r, Nat.sub_diag by lia. cbn. rewrite bool_decide_eq_false_2; [done|].
        destruct Hq as [Hq%lookup_lt_Some _]. lia.
  - assert (Hnew : first_at (qs ++ [q]) q (length merged)).
    { rewrite Hl. split; [by rewrite lookup_app_r, Nat.sub_diag by lia|]. intros j Hj Hjq. rewrite lookup_app_l in Hjq by done.
      destruct (first_at_exists qs q) as (p & Hp); [by eapply list_elem_of_lookup_2|]. apply Hf in Hp. congruence. }
    split; cbn; [rewrite !length_app; cbn; lia| |].
    + intros q' p. destruct (decide (q' = q)) as [->|Hne].
      * rewrite lookup_insert_eq. split; [by intros [= <-]|]. intros Hp. f_equal. by eapply first_at_unique.
      * rewrite lookup_insert_ne, Hf by done. split; [apply first_at_app|]. intros [H1 H2].
        apply lookup_app_Some in H1 as [H1|[Hge [_ Hx]%list_lookup_singleton_Some]]; [|congruence].
        split; [done|]. intros j Hj Hjq. apply (H2 j Hj). by apply lookup_app_l_Some.
    + intros i q' Hi. apply lookup_app_Some in Hi as [Hi|[Hge [Hi ->]%list_lookup_singleton_Some]].
      * destruct (Ht i q' Hi) as (p & Hp & Hm). exists p. split; [by apply first_at_app|]. by apply lookup_app_l_Some.
      * assert (i = length merged) as -> by lia. exists (length merged). split; [done|].
        rewrite lookup_app_r, Nat.sub_diag by lia. by rewrite bool_decide_eq_true_2.
Qed.

Lemma merging_all qs : merging qs (foldl merge_step (∅, []) qs).
Proof.
  induction qs as [|q qs IH] using rev_ind.
  - split; cbn; [done| |done]. intros q p. rewrite lookup_empty. split; [done|by intros [? _]].
  - rewrite foldl_app. cbn. by apply merge_step_ok.
Qed.

Lemma omap_nothing {A B} (f : A → option B) (l : list A) : (∀ x, x ∈ l → f x = None) → omap f l = [].
Proof.
  induction l as [|x l IH]; intros Hl; [done|]. cbn. rewrite (Hl x) by left. apply IH. intros y Hy. apply Hl. by right.
Qed.

Lemma omap_same {A B} (f g : A → option B) (l : list A) : (∀ x, x ∈ l → f x = g x) → omap f l = omap g l.
Proof.
  induction l as [|x l IH]; intros Hl; [done|]. cbn. rewrite (Hl x) by left. rewrite IH; [done|]. intros y Hy. apply Hl. by right.
Qed.

Lemma NoDup_fmap_omap {A B C} (g : A → option B) (f : B → C) (l : list A) :
  NoDup l → (∀ i j x y, i ∈ l → j ∈ l → g i = Some x → g j = Some y → f x = f y → i = j) → NoDup (f <$> omap g l).
Proof.
  induction l as [|i l IH]; intros Hnd Hinj; [constructor|]. apply NoDup_cons in Hnd as [Hi Hnd].
  assert (Hl : NoDup (f <$> omap g l)) by (apply IH; [done|]; intros j1 j2 x y H1 H2; apply Hinj; by right).
  cbn. destruct (g i) as [x|] eqn:Hx; [|done]. apply NoDup_cons. split; [|done].
  intros (y & Hxy & (j & Hj & Hy)%list_elem_of_omap)%list_elem_of_fmap. apply Hi.
  by rewrite (Hinj i j x y ltac:(left) ltac:(by right) Hx Hy Hxy).
Qed.

(** A list by its positions. *)
Lemma omap_lookup {A B} (f : A → option B) (l : list A) : omap f l = omap (λ i, l !! i ≫= f) (seq 0 (length l)).
Proof.
  induction l as [|x l IH]; [done|]. cbn [length seq]. rewrite <-fmap_S_seq. cbn. rewrite omap_of_fmap, IH. by destruct (f x).
Qed.

Lemma filter_omap {A} (P : A → Prop) `{!∀ x, Decision (P x)} (l : list A) : filter P l = omap (λ x, if decide (P x) then Some x else None) l.
Proof. induction l as [|x l IH]; [done|]. rewrite filter_cons, IH. cbn. by destruct (decide (P x)). Qed.

Section nodes.
Context `{JsonObjects}.

#[local] Abbreviation qn := qualified_name_of.

Lemma merge_targets_spec (nodes : list ParsedNode) i n :
  nodes !! i = Some n →
  ∃ p, first_at (qn <$> nodes) (qn n) p ∧ merge_targets nodes !! i = Some (if bool_decide (p = i) then None else Some p).
Proof.
  intros Hi. destruct (merging_all (qn <$> nodes)) as [_ _ Ht]. apply Ht. by rewrite list_lookup_fmap, Hi.
Qed.

Lemma length_merge_targets (nodes : list ParsedNode) : length (merge_targets nodes) = length nodes.
Proof. destruct (merging_all (qn <$> nodes)) as [Hl _ _]. unfold merge_targets. by rewrite Hl, length_fmap. Qed.

(** A node is merged into one that is not merged itself. *)
Lemma merge_target_first (nodes : list ParsedNode) j p :
  merge_targets nodes !! j = Some (Some p) → merge_targets nodes !! p = Some None ∧ p < j.
Proof.
  intros Hj. assert (is_Some (nodes !! j)) as [n Hn].
  { apply lookup_lt_is_Some. rewrite <-length_merge_targets. by eapply lookup_lt_Some. }
  destruct (merge_targets_spec nodes j n Hn) as (p' & Hp & Hm). rewrite Hj in Hm. revert Hm. case_bool_decide as Hpj; [done|]. intros [= ->].
  pose proof Hp as [Hq Hmin]. rewrite list_lookup_fmap in Hq. destruct (nodes !! p') as [m|] eqn:Hmp; [|done]. injection Hq as Hq.
  destruct (merge_targets_spec nodes p' m Hmp) as (p2 & Hp2 & Hm2). rewrite Hq in Hp2. rewrite (first_at_unique _ _ _ _ Hp2 Hp) in Hm2.
  rewrite bool_decide_eq_true_2 in Hm2 by done. split; [done|]. destruct (decide (j < p')) as [Hlt|]; [|lia].
  destruct (Hmin j Hlt). by rewrite list_lookup_fmap, Hn.
Qed.

(** What a node absorbs of the first nodes. *)
Definition duplicates (merged : list (option nat)) (nodes : list ParsedNode) (i k : nat) : list ParsedNode :=
  omap (λ j, if bool_decide (merged !! j = Some (Some i)) then nodes !! j else None) (seq 0 k).

Definition absorb_all (n : ParsedNode) (l : list ParsedNode) : ParsedNode := foldl (λ t n, absorb n t) n l.

Lemma absorbed (nodes : list ParsedNode) k :
  k <= length nodes → let merged := merge_targets nodes in
  let st := foldl (absorb_at merged) (nodes, replicate (length nodes) 1) (seq 0 k) in
  ∀ i, st.1 !! i = (λ n, absorb_all n (duplicates merged nodes i k)) <$> nodes !! i ∧
       st.2 !! i = (λ _, S (length (duplicates merged nodes i k))) <$> nodes !! i.
Proof.
  intros Hk merged. induction k as [|k IH]; intros st i; unfold st.
  - cbn. split; [by destruct (nodes !! i)|]. destruct (nodes !! i) eqn:Hi; cbn.
    + apply lookup_replicate. split; [done|]. by eapply lookup_lt_Some.
    + apply lookup_ge_None in Hi. apply lookup_ge_None. by rewrite length_replicate.
  - rewrite seq_S, foldl_app. cbn [foldl Nat.add]. specialize (IH ltac:(lia)). cbv zeta in IH.
    set (st0 := foldl _ _ _) in *. destruct st0 as [ns cs] eqn:Hst. cbn [fst snd] in IH. clear Hst st0.
    assert (Hd : ∀ i, duplicates merged nodes i (S k) =
      duplicates merged nodes i k ++ (if bool_decide (merged !! k = Some (Some i)) then option_list (nodes !! k) else [])).
    { intros i'. unfold duplicates. rewrite seq_S, omap_app. f_equal. cbn. case_bool_decide; [|done]. by destruct (nodes !! k). }
    unfold absorb_at. destruct (merged !! k) as [[p|]|] eqn:Hm.
    + destruct (merge_target_first nodes k p Hm) as [Hp Hlt]. assert (Hkn : ns !! k = nodes !! k).
      { destruct (IH k) as [Hik _]. rewrite Hik. replace (duplicates merged nodes k k) with (@nil ParsedNode); [by destruct (nodes !! k)|].
        symmetry. unfold duplicates. apply omap_nothing. intros j _. case_bool_decide as Hjk; [|done].
        destruct (merge_target_first nodes j k Hjk) as [Hk0 _]. fold merged in Hk0. congruence. }
      destruct (nodes !! k) as [n|] eqn:Hn; [|apply lookup_ge_None in Hn; lia]. rewrite Hkn. cbn [fst snd]. rewrite Hd.
      destruct (decide (i = p)) as [->|Hne].
      * rewrite !list_lookup_alter_eq, bool_decide_eq_true_2 by done. destruct (IH p) as [-> ->]. cbn [option_list].
        destruct (nodes !! p); cbn; [|done]. unfold absorb_all. rewrite foldl_app, length_app. cbn. split; [done|f_equal; lia].
      * rewrite !list_lookup_alter_ne, bool_decide_eq_false_2, app_nil_r by congruence. apply IH.
    + rewrite Hd, bool_decide_eq_false_2, app_nil_r by done. apply IH.
    + apply lookup_ge_None in Hm. unfold merged in Hm. rewrite length_merge_targets in Hm. lia.
Qed.

(** All the nodes of one name, the first before the others. *)
Lemma group_of (nodes : list ParsedNode) i n :
  nodes !! i = Some n → merge_targets nodes !! i = Some None →
  filter (λ m, qn m = qn n) nodes = n :: duplicates (merge_targets nodes) nodes i (length nodes).
Proof.
  intros Hi Hm. destruct (merge_targets_spec nodes i n Hi) as (p & Hp & Hm'). rewrite Hm in Hm'. injection Hm' as Hm'.
  case_bool_decide as Hpi; [subst p|done]. destruct Hp as [_ Hmin]. pose proof (lookup_lt_Some _ _ _ Hi) as Hlt.
  rewrite filter_omap, omap_lookup. unfold duplicates.
  replace (length nodes) with (i + S (length nodes - S i)) by lia. rewrite seq_app, !omap_app. cbn [seq Nat.add].
  rewrite (omap_nothing _ (seq 0 i)).
  2:{ intros j [_ Hj]%elem_of_seq. destruct (nodes !! j) as [m|] eqn:Hj2; [|done]. cbn. rewrite decide_False; [done|]. intros Hq.
      apply (Hmin j); [lia|]. by rewrite list_lookup_fmap, Hj2, <-Hq. }
  rewrite (omap_nothing _ (seq 0 i)).
  2:{ intros j [_ Hj]%elem_of_seq. rewrite bool_decide_eq_false_2; [done|]. intros [_ ?]%merge_target_first. lia. }
  cbn [app omap list_omap]. rewrite Hi. cbn [mbind option_bind]. rewrite decide_True by done.
  rewrite bool_decide_eq_false_2 by (rewrite Hm; done). f_equal. apply omap_same. intros j [Hj _]%elem_of_seq.
  destruct (nodes !! j) as [m|] eqn:Hj2; cbn; [|by destruct (bool_decide _)].
  destruct (merge_targets_spec nodes j m Hj2) as (p & Hp & Hmj). rewrite Hmj.
  destruct (decide (qn m = qn n)) as [Hq|Hq].
  - rewrite Hq in Hp. assert (p = i) as ->.
    { apply (first_at_unique _ _ _ _ Hp). split; [by rewrite list_lookup_fmap, Hi|done]. }
    rewrite (bool_decide_eq_false_2 (i = j)) by lia. by rewrite bool_decide_eq_true_2.
  - rewrite bool_decide_eq_false_2; [done|]. case_bool_decide; [done|]. intros [= ->]. destruct Hp as [Hp _].
    rewrite list_lookup_fmap, Hi in Hp. by injection Hp.
Qed.

(** The node that stands for a group. *)
Definition merged_node (nodes : list ParsedNode) (n : ParsedNode) : ParsedNode :=
  let group := filter (λ m, qn m = qn n) nodes in count_declarations (absorb_all n (tail group)) (length group).

Definition survivor (nodes : list ParsedNode) (i : nat) : option ParsedNode :=
  if bool_decide (merge_targets nodes !! i = Some None) then merged_node nodes <$> nodes !! i else None.

Lemma zip_survivors (l1 : list ParsedNode) (l2 : list (option nat)) :
  length l1 = length l2 →
  (zip l1 l2 ≫= (λ nm, match nm.2 with None => [nm.1] | Some _ => [] end)) =
  omap (λ i, if bool_decide (l2 !! i = Some None) then l1 !! i else None) (seq 0 (length l1)).
Proof.
  revert l2. induction l1 as [|x l1 IH]; intros [|m l2] Hl; cbn in Hl; try lia; [done|].
  cbn [zip zip_with length seq]. rewrite bind_cons, <-fmap_S_seq. cbn [omap list_omap]. rewrite omap_of_fmap. cbn [lookup list_lookup].
  rewrite IH by lia. destruct m; cbn [fst snd].
  - by rewrite bool_decide_eq_false_2.
  - by rewrite bool_decide_eq_true_2.
Qed.

Lemma count_one n : count_declarations n 1 = n.
Proof. by unfold count_declarations. Qed.

Lemma collapse_nodes (nodes : list ParsedNode) edges :
  (collapse_duplicate_nodes nodes edges).1 = omap (survivor nodes) (seq 0 (length nodes)).
Proof.
  unfold collapse_duplicate_nodes. set (merged := merge_targets nodes).
  assert (Hs : ∀ i n, nodes !! i = Some n → merged !! i = Some None →
    merged_node nodes n = count_declarations (absorb_all n (duplicates merged nodes i (length nodes))) (S (length (duplicates merged nodes i (length nodes))))).
  { intros i n Hi Hm. unfold merged_node. by rewrite (group_of nodes i n Hi Hm). }
  case_bool_decide as Hall.
  - cbn [fst]. rewrite <-(omap_same (λ i, nodes !! i ≫= Some)).
    { rewrite <-omap_lookup. clear. induction nodes as [|n l IH]; [done|]. cbn. by rewrite <-IH. }
    intros i Hi%elem_of_seq. unfold survivor. fold merged. destruct (nodes !! i) as [n|] eqn:Hn; [|apply lookup_ge_None in Hn; lia].
    assert (Hm : merged !! i = Some None).
    { destruct (merged !! i) as [m|] eqn:Hm; [|apply lookup_ge_None in Hm; unfold merged in Hm; rewrite length_merge_targets in Hm; lia].
      by rewrite (Forall_lookup_1 _ _ _ _ Hall Hm). }
    rewrite bool_decide_eq_true_2 by done. cbn. rewrite (Hs i n) by done.
    replace (duplicates merged nodes i (length nodes)) with (@nil ParsedNode); [by rewrite count_one|].
    symmetry. apply omap_nothing. intros j _. rewrite bool_decide_eq_false_2; [done|]. intros Hj. by pose proof (Forall_lookup_1 _ _ _ _ Hall Hj).
  - pose proof (absorbed nodes (length nodes) ltac:(lia)) as Hab. cbv zeta in Hab. fold merged in Hab.
    destruct (foldl _ _ _) as [ns cs]. cbn [fst snd] in Hab |- *. assert (Hzip : ∀ i, zip_with count_declarations ns cs !! i =
      (λ n, count_declarations (absorb_all n (duplicates merged nodes i (length nodes))) (S (length (duplicates merged nodes i (length nodes))))) <$> nodes !! i).
    { intros i. rewrite lookup_zip_with. destruct (Hab i) as [-> ->]. by destruct (nodes !! i). }
    assert (Hlen : length (zip_with count_declarations ns cs) = length nodes).
    { apply Nat.le_antisymm; apply Nat.nlt_ge; intros Hlt; apply lookup_lt_is_Some in Hlt as [x Hx].
      - rewrite Hzip in Hx. apply fmap_Some in Hx as (n & Hn%lookup_lt_Some & _). lia.
      - assert (Hnone : zip_with count_declarations ns cs !! length (zip_with count_declarations ns cs) = None) by by apply lookup_ge_None.
        rewrite Hzip, Hx in Hnone. done. }
    rewrite zip_survivors; rewrite Hlen; [|unfold merged; by rewrite length_merge_targets].
    apply omap_same. intros i _. unfold survivor. fold merged. case_bool_decide as Hm; [|done]. rewrite Hzip.
    destruct (nodes !! i) as [n|] eqn:Hn; [|done]. cbn. by rewrite (Hs i n).
Qed.

(** ** A node and its group *)

Record stands_for (group : list ParsedNode) (n' : ParsedNode) : Prop := mkStandsFor {
  stands_head : ∃ n, head group = Some n ∧ p_kind n' = p_kind n ∧ p_name n' = p_name n ∧ p_file_path n' = p_file_path n ∧
    p_language n' = p_language n ∧ p_parent_name n' = p_parent_name n ∧ p_params n' = p_params n ∧
    p_return_type n' = p_return_type n ∧ p_modifiers n' = p_modifiers n ∧
    p_extra n' = if (1 <? length group) && is_object (p_extra n)
                 then set_member (p_extra n) "merged_declarations"
                        (of_nat (default 1 (get_u64 (p_extra n) "merged_declarations") + length group - 1))
                 else p_extra n;
  stands_span m : m ∈ group → (p_line_start n' ≤ p_line_start m ∧ p_line_end m ≤ p_line_end n')%Z;
  stands_start : ∃ m, m ∈ group ∧ p_line_start m = p_line_start n';
  stands_end : ∃ m, m ∈ group ∧ p_line_end m = p_line_end n';
  stands_test : p_is_test n' = existsb p_is_test group
}.

Lemma absorb_all_stands n l :
  let n' := absorb_all n l in
  (p_kind n' = p_kind n ∧ p_name n' = p_name n ∧ p_file_path n' = p_file_path n ∧
    p_language n' = p_language n ∧ p_parent_name n' = p_parent_name n ∧ p_params n' = p_params n ∧
    p_return_type n' = p_return_type n ∧ p_modifiers n' = p_modifiers n ∧ p_extra n' = p_extra n) ∧
  (∀ m, m ∈ n :: l → (p_line_start n' ≤ p_line_start m ∧ p_line_end m ≤ p_line_end n')%Z) ∧
  (∃ m, m ∈ n :: l ∧ p_line_start m = p_line_start n') ∧
  (∃ m, m ∈ n :: l ∧ p_line_end m = p_line_end n') ∧
  p_is_test n' = existsb p_is_test (n :: l).
Proof.
  induction l as [|x l IH] using rev_ind.
  - cbn. split_and!; try done; [|by exists n; split; [left|]..|by rewrite orb_false_r].
    intros m [->|?%not_elem_of_nil]%elem_of_cons; [lia|done].
  - cbv zeta in IH |- *. unfold absorb_all in *. rewrite foldl_app. cbn [foldl]. set (n' := foldl _ n l) in *.
    destruct IH as (Heq & Hspan & (ms & Hms & Es) & (me & Hme & Ee) & Ht).
    assert (Hin : ∀ m, m ∈ n :: l → m ∈ n :: l ++ [x]) by (intros m; rewrite !elem_of_cons, elem_of_app; tauto).
    assert (Hx : x ∈ n :: l ++ [x]) by (rewrite elem_of_cons, elem_of_app, list_elem_of_singleton; tauto).
    split_and!; [apply Heq..| | | |].
    + intros m. rewrite elem_of_cons, elem_of_app, list_elem_of_singleton. cbn. intros [->|[Hm| ->]]; [| |lia].
      * specialize (Hspan n ltac:(left)). lia.
      * specialize (Hspan m ltac:(by right)). lia.
    + cbn. destruct (Z.min_spec (p_line_start n') (p_line_start x)) as [[_ ->]|[_ ->]]; [exists ms; auto|by exists x].
    + cbn. destruct (Z.max_spec (p_line_end n') (p_line_end x)) as [[_ ->]|[_ ->]]; [by exists x|exists me; auto].
    + cbn [p_is_test absorb]. rewrite Ht. cbn [existsb]. rewrite existsb_app. cbn. by rewrite orb_false_r, orb_assoc.
Qed.

Lemma count_same n c :
  p_kind (count_declarations n c) = p_kind n ∧ p_name (count_declarations n c) = p_name n ∧
  p_file_path (count_declarations n c) = p_file_path n ∧ p_language (count_declarations n c) = p_language n ∧
  p_parent_name (count_declarations n c) = p_parent_name n ∧ p_params (count_declarations n c) = p_params n ∧
  p_return_type (count_declarations n c) = p_return_type n ∧ p_modifiers (count_declarations n c) = p_modifiers n ∧
  p_line_start (count_declarations n c) = p_line_start n ∧ p_line_end (count_declarations n c) = p_line_end n ∧
  p_is_test (count_declarations n c) = p_is_test n ∧
  p_extra (count_declarations n c) =
    (if (1 <? c) && is_object (p_extra n)
     then set_member (p_extra n) "merged_declarations" (of_nat (default 1 (get_u64 (p_extra n) "merged_declarations") + c - 1))
     else p_extra n).
Proof. unfold count_declarations. by destruct (_ && _). Qed.

Lemma same_name n m :
  p_kind n = p_kind m → p_name n = p_name m → p_file_path n = p_file_path m → p_parent_name n = p_parent_name m → qn n = qn m.
Proof. unfold qualified_name_of. by intros -> -> -> ->. Qed.

Lemma merged_node_stands (nodes : list ParsedNode) n :
  head (filter (λ m, qn m = qn n) nodes) = Some n → stands_for (filter (λ m, qn m = qn n) nodes) (merged_node nodes n) ∧ qn (merged_node nodes n) = qn n.
Proof.
  unfold merged_node. destruct (filter _ nodes) as [|n0 l] eqn:Hg; [done|]. intros [= ->]. cbn [tail].
  destruct (absorb_all_stands n l) as ((K & Nm & P & L & Pa & Pr & R & M & X) & Hs & Hst & Hen & Ht).
  destruct (count_same (absorb_all n l) (length (n :: l))) as (K' & N' & P' & L' & Pa' & Pr' & R' & M' & S' & E' & T' & X').
  split; [split|].
  - exists n. rewrite K', N', P', L', Pa', Pr', R', M', X', X. by split_and!.
  - intros m. rewrite S', E'. apply Hs.
  - by rewrite S'.
  - by rewrite E'.
  - by rewrite T'.
  - apply same_name; congruence.
Qed.

Lemma survivor_spec (nodes : list ParsedNode) i n' :
  survivor nodes i = Some n' → ∃ n, nodes !! i = Some n ∧ first_at (qn <$> nodes) (qn n) i ∧
    stands_for (filter (λ m, qn m = qn n) nodes) n' ∧ qn n' = qn n.
Proof.
  unfold survivor. case_bool_decide as Hm; [|done]. destruct (nodes !! i) as [n|] eqn:Hi; [|done]. intros [= <-]. exists n. split; [done|].
  destruct (merge_targets_spec nodes i n Hi) as (p & Hp & Hm'). rewrite Hm in Hm'. injection Hm' as Hm'.
  case_bool_decide; [subst p|done]. split; [done|]. apply merged_node_stands. by rewrite (group_of nodes i n Hi Hm).
Qed.

Lemma collapsed (nodes : list ParsedNode) edges :
  let nodes' := (collapse_duplicate_nodes nodes edges).1 in
  NoDup (qn <$> nodes') ∧
  (∀ q, q ∈ qn <$> nodes' ↔ q ∈ qn <$> nodes) ∧
  (∀ n', n' ∈ nodes' → stands_for (filter (λ m, qn m = qn n') nodes) n').
Proof.
  cbv zeta. rewrite collapse_nodes. split; [|split].
  - apply NoDup_fmap_omap; [apply NoDup_seq|]. intros i j x y _ _ (n & _ & Hi & _ & Hx)%survivor_spec (m & _ & Hj & _ & Hy)%survivor_spec Hxy.
    rewrite Hx, Hy in Hxy. rewrite Hxy in Hi. by eapply first_at_unique.
  - intros q. split.
    + intros (n' & -> & (i & _ & (n & Hn & _ & _ & ->)%survivor_spec)%list_elem_of_omap)%list_elem_of_fmap.
      apply list_elem_of_fmap. exists n. split; [done|]. by eapply list_elem_of_lookup_2.
    + intros (i & Hi)%first_at_exists. pose proof Hi as [Hl _]. rewrite list_lookup_fmap in Hl. destruct (nodes !! i) as [n|] eqn:Hn; [|done].
      injection Hl as <-. destruct (merge_targets_spec nodes i n Hn) as (p & Hp & Hm). rewrite (first_at_unique _ _ _ _ Hp Hi) in Hm.
      rewrite bool_decide_eq_true_2 in Hm by done. assert (Hs : survivor nodes i = Some (merged_node nodes n)).
      { unfold survivor. by rewrite bool_decide_eq_true_2, Hn. }
      destruct (survivor_spec nodes i _ Hs) as (n2 & Hn2 & _ & _ & Hq). rewrite Hn in Hn2. injection Hn2 as <-.
      apply list_elem_of_fmap. exists (merged_node nodes n). split; [done|]. apply list_elem_of_omap. exists i. split; [|done].
      apply elem_of_seq. apply lookup_lt_Some in Hn. lia.
  - intros n' (i & _ & (n & _ & _ & Hs & Hq)%survivor_spec)%list_elem_of_omap. by rewrite Hq.
Qed.

(** ** Edges *)

Lemma first_contains_elem seen (edges : list ParsedEdge) e : e ∈ first_contains seen edges → e ∈ edges.
Proof.
  revert seen. induction edges as [|x l IH]; intros seen; [done|]. cbn [first_contains]. rewrite elem_of_cons.
  repeat case_bool_decide; rewrite ?elem_of_cons; naive_solver.
Qed.

Lemma first_contains_kept seen (edges : list ParsedEdge) e :
  e ∈ edges → (pe_kind e = Contains → (pe_source e, pe_target e) ∉ seen) →
  ∃ e', e' ∈ first_contains seen edges ∧
    (e' = e ∨ pe_kind e = Contains ∧ pe_kind e' = Contains ∧ pe_source e' = pe_source e ∧ pe_target e' = pe_target e).
Proof.
  revert seen. induction edges as [|x l IH]; intros seen; [by intros ?%not_elem_of_nil|]. cbn [first_contains]. rewrite elem_of_cons.
  intros Hin Hs. case_bool_decide as Hk; [case_bool_decide as Hx|].
  - destruct Hin as [->|Hin]; [by destruct (Hs Hk)|]. by apply IH.
  - destruct (decide (pe_kind e = Contains ∧ (pe_source e, pe_target e) = (pe_source x, pe_target x))) as [[Hke [= Hse Hte]]|Hne].
    + exists x. split; [left|]. right. by rewrite Hse, Hte.
    + destruct Hin as [->|Hin]; [exists x; split; [left|by left]|].
      destruct (IH ({[(pe_source x, pe_target x)]} ∪ seen) Hin) as (e' & He' & Hor).
      { intros Hke. rewrite not_elem_of_union, not_elem_of_singleton. split; [|by apply Hs]. intros Heq. by apply Hne. }
      exists e'. split; [by right|done].
  - destruct Hin as [->|Hin]; [exists x; split; [left|by left]|]. destruct (IH seen Hin Hs) as (e' & He' & Hor).
    exists e'. split; [by right|done].
Qed.

Lemma collapse_edges_elem (nodes : list ParsedNode) edges e : e ∈ (collapse_duplicate_nodes nodes edges).2 → e ∈ edges.
Proof.
  unfold collapse_duplicate_nodes. case_bool_decide; [done|]. destruct (foldl _ _ _). apply first_contains_elem.
Qed.

Lemma collapse_edges_kept (nodes : list ParsedNode) edges e :
  e ∈ edges → ∃ e', e' ∈ (collapse_duplicate_nodes nodes edges).2 ∧
    (e' = e ∨ pe_kind e = Contains ∧ pe_kind e' = Contains ∧ pe_source e' = pe_source e ∧ pe_target e' = pe_target e).
Proof.
  intros He. unfold collapse_duplicate_nodes. case_bool_decide; [by exists e; split; [|left]|]. destruct (foldl _ _ _). cbn [snd].
  apply first_contains_kept; [done|]. intros _. set_solver.
Qed.

(** An edge the malformed names leave. *)
Definition edge_kept (found : list ParsedNode * list ParsedEdge) (e : ParsedEdge) : Prop :=
  malformed (pe_target e) = false ∧
  ∀ n, n ∈ found.1 → well_named n = false → pe_source e ≠ qn n ∧ pe_target e ≠ qn n.

Lemma dropped_edges (found : list ParsedNode * list ParsedEdge) e :
  e ∈ (drop_malformed_names found.1 found.2).2 ↔ e ∈ found.2 ∧ edge_kept found e.
Proof.
  cbn [drop_malformed_names snd]. rewrite list_elem_of_filter, !elem_of_list_to_set, !list_elem_of_fmap. split.
  - intros ((Hm & Hs & Ht) & Hin). split; [done|]. split; [done|]. intros n Hn Hw.
    split; intros Heq; [apply Hs|apply Ht]; exists n; by rewrite list_elem_of_filter.
  - intros (Hin & Hm & Hk). split; [|done]. split_and!; [done| |]; intros (n & Heq & [Hw Hn]%list_elem_of_filter); by destruct (Hk n Hn Hw).
Qed.

(** ** What settling does *)

Lemma settle_eq file_path (found : list ParsedNode * list ParsedEdge) :
  let kept := drop_malformed_names found.1 found.2 in
  let merged := collapse_duplicate_nodes kept.1 kept.2 in
  settle file_path found = (merged.1, contain_in_file file_path merged.1 merged.2).
Proof. cbv zeta. unfold settle. destruct (drop_malformed_names _ _) as [ns es]. cbn [fst snd]. by destruct (collapse_duplicate_nodes _ _). Qed.

Lemma contained_elem file_path (nodes : list ParsedNode) edges e' :
  e' ∈ contain_in_file file_path nodes edges → ∃ e, e ∈ edges ∧
    (e' = e ∧ (pe_kind e = Contains → pe_source e = file_path ∨ pe_source e ∈ qn <$> nodes) ∨
     pe_kind e = Contains ∧ pe_source e ∉ qn <$> nodes ∧ e' = with_source file_path e).
Proof.
  intros (e & -> & He)%list_elem_of_fmap. exists e. split; [done|].
  destruct (bool_decide_reflect (pe_kind e = Contains)) as [Hk|]; cbn [andb]; [|by left; split].
  destruct (bool_decide_reflect (pe_source e = file_path)) as [Hs|]; cbn [negb andb]; [left; split; [done|by left]|].
  case_bool_decide as Hd; rewrite elem_of_list_to_set in Hd; cbn [negb]; [left; split; [done|by right]|]. by right.
Qed.

Lemma settled file_path (found : list ParsedNode * list ParsedEdge) :
  let nodes' := (settle file_path found).1 in
  let edges' := (settle file_path found).2 in
  NoDup (qn <$> nodes') ∧
  (∀ q, q ∈ qn <$> nodes' ↔ ∃ n, n ∈ found.1 ∧ well_named n = true ∧ qn n = q) ∧
  (∀ n', n' ∈ nodes' → stands_for (filter (λ m, well_named m = true ∧ qn m = qn n') found.1) n') ∧
  (∀ e', e' ∈ edges' → (pe_kind e' = Contains → pe_source e' = file_path ∨ pe_source e' ∈ qn <$> nodes') ∧
     ∃ e, e ∈ found.2 ∧ edge_kept found e ∧
       (e' = e ∨ pe_kind e = Contains ∧ pe_source e ∉ qn <$> nodes' ∧ e' = with_source file_path e)) ∧
  (∀ e, e ∈ found.2 → edge_kept found e → ∃ e', e' ∈ edges' ∧
     (e' = e ∨ pe_kind e = Contains ∧ pe_kind e' = Contains ∧ pe_target e' = pe_target e ∧
       (pe_source e' = pe_source e ∨ pe_source e' = file_path ∧ pe_source e ∉ qn <$> nodes'))).
Proof.
  cbv zeta. rewrite settle_eq. cbn [fst snd]. set (ns := (drop_malformed_names found.1 found.2).1). set (es := (drop_malformed_names found.1 found.2).2).
  assert (Hns : ns = filter (λ n, well_named n = true) found.1) by done. clearbody ns.
  destruct (collapsed ns es) as (H1 & H2 & H3). set (nodes' := (collapse_duplicate_nodes ns es).1) in *.
  split; [done|]. split; [|split; [|split]].
  - intros q. rewrite H2, list_elem_of_fmap, Hns. setoid_rewrite list_elem_of_filter. naive_solver.
  - intros n' Hn'. specialize (H3 n' Hn'). rewrite Hns, list_filter_filter in H3.
    rewrite (list_filter_iff _ (λ m, qn m = qn n' ∧ well_named m = true)); [done|]. intros m. tauto.
  - intros e' (e & He & Hor)%contained_elem. apply collapse_edges_elem, dropped_edges in He as [Hin Hkept]. split.
    + intros Hk. destruct Hor as [[-> Hs]|(_ & _ & ->)]; [by apply Hs|by left].
    + exists e. split_and!; [done|done|]. destruct Hor as [[-> _]|Hor]; [by left|by right].
  - intros e He Hkept. destruct (collapse_edges_kept ns es e) as (e1 & He1 & Hor); [by apply dropped_edges|].
    set (f := λ e, if bool_decide (pe_kind e = Contains) && negb (bool_decide (pe_source e = file_path)) && negb (bool_decide (pe_source e ∈ (list_to_set (qn <$> nodes') : gset string)))
        then with_source file_path e else e).
    exists (f e1). split; [by apply list_elem_of_fmap_2|]. unfold f.
    destruct (bool_decide_reflect (pe_kind e1 = Contains)) as [Hk|Hk]; cbn [andb].
    2:{ destruct Hor as [->|(_ & ? & _)]; [by left|done]. }
    right. assert (Hke : pe_kind e = Contains ∧ pe_source e1 = pe_source e ∧ pe_target e1 = pe_target e).
    { destruct Hor as [->|(? & _ & ? & ?)]; by split_and!. }
    destruct Hke as (Hke & Hs & Ht). split; [done|].
    destruct (bool_decide_reflect (pe_source e1 = file_path)) as [Hf|Hf]; cbn [negb andb]; [by split_and!; try left|].
    case_bool_decide as Hd; rewrite elem_of_list_to_set in Hd; cbn [negb]; [by split_and!; try left|].
    split_and!; [done|done|]. right. by rewrite <-Hs.
Qed.

(** C8: what a parsed file holds.  Whatever an extractor found, the nodes have
    distinct names, those of the well-formed ones it found; each stands for all
    the definitions of its name, from the first line of any to the last of any,
    a test if one is, otherwise as the first of them, and it counts them.  Every
    CONTAINS edge starts at the file or at a node of it; every edge left is one
    found, but that a member of a type declared elsewhere hangs on the file; no
    edge to a well-formed name is lost but for its twins. *)
Theorem settle_spec file_path (found : list ParsedNode * list ParsedEdge) :
  let nodes' := (settle file_path found).1 in
  let edges' := (settle file_path found).2 in
  NoDup (qn <$> nodes') ∧
  (∀ q, q ∈ qn <$> nodes' ↔ ∃ n, n ∈ found.1 ∧ well_named n = true ∧ qn n = q) ∧
  (∀ n', n' ∈ nodes' → stands_for (filter (λ m, well_named m = true ∧ qn m = qn n') found.1) n') ∧
  (∀ e', e' ∈ edges' → (pe_kind e' = Contains → pe_source e' = file_path ∨ pe_source e' ∈ qn <$> nodes') ∧
     ∃ e, e ∈ found.2 ∧ edge_kept found e ∧
       (e' = e ∨ pe_kind e = Contains ∧ pe_source e ∉ qn <$> nodes' ∧ e' = with_source file_path e)) ∧
  (∀ e, e ∈ found.2 → edge_kept found e → ∃ e', e' ∈ edges' ∧
     (e' = e ∨ pe_kind e = Contains ∧ pe_kind e' = Contains ∧ pe_target e' = pe_target e ∧
       (pe_source e' = pe_source e ∨ pe_source e' = file_path ∧ pe_source e ∉ qn <$> nodes'))).
Proof. apply settled. Qed.

Lemma distinct_unmerged (nodes : list ParsedNode) : NoDup (qn <$> nodes) → Forall (λ m, m = None) (merge_targets nodes).
Proof.
  intros Hnd. apply Forall_lookup_2. intros i m Hm. assert (is_Some (nodes !! i)) as [n Hn].
  { apply lookup_lt_is_Some. rewrite <-length_merge_targets. by eapply lookup_lt_Some. }
  destruct (merge_targets_spec nodes i n Hn) as (p & [Hp _] & Hm'). rewrite Hm in Hm'. injection Hm' as ->.
  rewrite bool_decide_eq_true_2; [done|]. eapply NoDup_lookup; [exact Hnd|exact Hp|]. by rewrite list_lookup_fmap, Hn.
Qed.

Lemma settled_well_named file_path (found : list ParsedNode * list ParsedEdge) n :
  n ∈ (settle file_path found).1 → well_named n = true.
Proof.
  intros Hn. destruct (settled file_path found) as (_ & _ & H3 & _). destruct (H3 n Hn) as [(m & Hm & Hk & Hname & _) _ _ _ _].
  assert (Hin : m ∈ filter (λ m, well_named m = true ∧ qn m = qn n) found.1) by (destruct (filter _ _); [done|injection Hm as ->; left]).
  apply list_elem_of_filter in Hin as [[Hw _] _]. unfold well_named in *. by rewrite Hk, Hname.
Qed.

(** Settling twice is settling once, so that nodes and edges stored from a
    file can go through it again without a change. *)
Theorem settle_again file_path (found : list ParsedNode * list ParsedEdge) :
  settle file_path (settle file_path found) = settle file_path found.
Proof.
  destruct (settled file_path found) as (H1 & _ & _ & H4 & _). pose proof (settled_well_named file_path found) as Hw.
  destruct (settle file_path found) as [ns es]. cbn [fst snd] in *. unfold settle at 1. cbn [fst snd drop_malformed_names].
  assert (Hbad : filter (λ n, well_named n = false) ns = []).
  { apply EdgePass.filter_nothing. intros n Hn. by rewrite Hw. }
  rewrite Hbad, (EdgePass.filter_all _ ns) by done. rewrite (EdgePass.filter_all _ es).
  2:{ intros e He. destruct (H4 e He) as (_ & e0 & _ & [Hm _] & Hor). assert (Ht : pe_target e = pe_target e0).
      { by destruct Hor as [->|(_ & _ & ->)]. }
      rewrite Ht. split; [done|]. cbn. set_solver. }
  unfold collapse_duplicate_nodes. rewrite bool_decide_eq_true_2 by by apply distinct_unmerged. f_equal.
  unfold contain_in_file. rewrite <-(list_fmap_id es) at 2. apply list_fmap_ext. intros i e He%list_elem_of_lookup_2.
  destruct (H4 e He) as [Hc _]. destruct (bool_decide_reflect (pe_kind e = Contains)) as [Hk|]; cbn [andb]; [|done].
  destruct (Hc Hk) as [->|Hin]; [by rewrite (bool_decide_eq_true_2 (_ = file_path))|].
  rewrite (bool_decide_eq_true_2 (_ ∈ list_to_set _)) by by apply elem_of_list_to_set. by rewrite andb_false_r.
Qed.

End nodes.
End ParsedFileSpec.
