(* ===== verification/CallTargets.v ===== *)
(** * Calls within a file

    Models [resolve_rust_call_targets], [add_tested_by_edges] and the helpers of
    crates/dagayn-parser/src/core.rs: a call or reference by a name that the file
    declares gets the declaration's qualified name. *)
From S2P Require Import Prelude GraphData EdgePass Visibility Text ParsedFile.
Import GraphData Visibility Text ParsedFile.

Module CallTargets.

#[local] Set Default Proof Using "Type".

(** What a name stands for in a file: its parents and qualified names. *)
Abbreviation Candidates := (list (option string * string)) (only parsing).
Abbreviation Symbols := (gmap string (list (option string * string))) (only parsing).

Section file.
Context (file_path : string) (symbols : Symbols) (object_owners : gset string).

Definition with_parent (p : option string → bool) (candidates : Candidates) : option string :=
  snd <$> List.find (λ c, p c.1) candidates.

(** What follows [file_path::] in a name of the file. *)
Definition inside_file (qualified : string) : option string :=
  rest ← strip_prefix file_path qualified; strip_prefix "::" rest.

(** Source: crates/dagayn-parser/src/core.rs 1067-1076 [same_file_unqualified_name]. *)
Definition same_file_unqualified_name (target : string) : option string :=
  if negb (str_contains "::" target) then Some target
  else rest ← inside_file target; if has_char dot rest then None else Some rest.

Fixpoint scopes_from (fuel : nat) (rest : string) : list string :=
  match fuel, rsplit_once dot rest with
  | S fuel, Some (before, _) => (if bool_decide (before = "") then [] else [before]) ++ scopes_from fuel before
  | _, _ => []
  end.

(** Source: crates/dagayn-parser/src/core.rs 1049-1065 [caller_scopes]. *)
Definition caller_scopes (caller : string) : list string :=
  match inside_file caller with Some rest => scopes_from (String.length rest) rest | None => [] end.

(** Source: crates/dagayn-parser/src/core.rs 1030-1045 [pick_method_for_caller]. *)
Fixpoint nearest (scopes : list string) (methods : Candidates) : option string :=
  match scopes with
  | [] => snd <$> head methods
  | scope :: scopes =>
      match with_parent (λ p, bool_decide (p = Some scope)) methods with
      | Some qualified => Some qualified
      | None => nearest scopes methods
      end
  end.
Definition pick_method_for_caller (caller : string) (methods : Candidates) : option string := nearest (caller_scopes caller) methods.

(** Source: crates/dagayn-parser/src/core.rs 985-1028 [resolve_type_scoped_call]. *)
Definition resolve_type_scoped_call (target : string) : option string :=
  if starts_with file_path target then None
  else
    '(type_name, method) ← rsplit_once_at "::" target;
    if bool_decide (type_name = "") || bool_decide (method = "") || str_contains "::" type_name || has_char slash type_name then None
    else if match split_once "." type_name with
            | Some (root, _) => negb (existsb (λ c, bool_decide (c.1 = None)) (default [] (symbols !! root)))
            | None => false
            end then None
    else
      candidates ← symbols !! method;
      match with_parent (λ p, bool_decide (p = Some type_name)) candidates with
      | Some qualified => Some qualified
      | None =>
          match filter (λ c, match c.1 with Some parent => str_ends_with ("." +:+ type_name) parent | None => false end = true) candidates with
          | [(_, qualified)] => Some qualified
          | _ => None
          end
      end.

(** Source: crates/dagayn-parser/src/core.rs 935-979 [resolve_same_file_call_target]. *)
Definition resolve_same_file_call_target (caller target : string) : option string :=
  match resolve_type_scoped_call target with
  | Some resolved => Some resolved
  | None =>
      name ← same_file_unqualified_name target;
      candidates ← symbols !! name;
      match own ← inside_file caller; with_parent (λ p, bool_decide (p = Some own)) candidates with
      | Some qualified => Some qualified
      | None =>
          let top_level := with_parent (λ p, bool_decide (p = None)) candidates in
          let methods := filter (λ c, match c.1 with Some parent => negb (bool_decide (parent ∈ object_owners)) | None => false end = true) candidates in
          if str_contains "::" target then
            match top_level with Some _ => None | None => pick_method_for_caller caller methods end
          else match top_level with Some qualified => Some qualified | None => pick_method_for_caller caller methods end
      end
  end.

End file.

Section nodes.
Context `{JsonObjects}.

Definition symbol_kind (k : NodeKind) : bool := bool_decide (k ∈ [KFunction; KClass; KType; KTest; KDocSection]).

(** Source: crates/dagayn-parser/src/core.rs 890-905 [resolve_rust_call_targets]. *)
Definition symbols_of (file_path : string) (nodes : list ParsedNode) : Symbols :=
  foldl (λ m n, <[p_name n := default [] (m !! p_name n) ++ [(p_parent_name n, qualify file_path (p_name n) (p_parent_name n))]]> m) ∅
    (filter (λ n, symbol_kind (p_kind n) = true) nodes).

(** Source: crates/dagayn-parser/src/core.rs 880-889 [resolve_rust_call_targets]. *)
Definition object_owners_of (nodes : list ParsedNode) : gset string :=
  list_to_set ((λ n, match p_parent_name n with Some parent => parent +:+ "." +:+ p_name n | None => p_name n end)
    <$> filter (λ n, p_kind n = KClass ∧ get_str (p_extra n) "type_role" = Some "object") nodes).

(** Source: crates/dagayn-parser/src/core.rs 745-747 [is_test_api_call]. *)
Definition is_test_api_call (extra : Value) : bool := bool_decide (get_bool extra "test_api" = Some true).

(** Source: crates/dagayn-parser/src/core.rs 751-753 [is_external_call]. *)
Definition is_external_call (extra : Value) : bool := bool_decide (get_bool extra "external" = Some true).

Definition resolvable (e : ParsedEdge) : bool :=
  bool_decide (pe_kind e ∈ [Calls; References]) && negb (bool_decide (get_bool (pe_extra e) "receiver_unknown" = Some true))
  && negb (has_key (pe_extra e) "receiver_type") && negb (has_key (pe_extra e) "receiver") && negb (is_external_call (pe_extra e)).

(** Source: crates/dagayn-parser/src/core.rs 874-933 [resolve_rust_call_targets]. *)
Definition resolve_rust_call_targets (nodes : list ParsedNode) (edges : list ParsedEdge) (file_path : string) : list ParsedEdge :=
  let symbols := symbols_of file_path nodes in
  let object_owners := object_owners_of nodes in
  (λ e, if resolvable e then
          match resolve_same_file_call_target file_path symbols object_owners (pe_source e) (pe_target e) with
          | Some target => with_target target (pe_extra e) e
          | None => e
          end
        else e) <$> edges.

(** Source: crates/dagayn-parser/src/core.rs 757-782 [add_tested_by_edges]. *)
Definition add_tested_by_edges (nodes : list ParsedNode) (edges : list ParsedEdge) : list ParsedEdge :=
  let test_qnames := list_to_set ((λ n, qualify (p_file_path n) (p_name n) (p_parent_name n)) <$> filter (λ n, p_is_test n = true) nodes) : gset string in
  edges ++
  ((λ e, new_edge TestedBy (pe_target e) (pe_source e) (pe_file_path e) (pe_line e))
     <$> filter (λ e, pe_kind e = Calls ∧ pe_source e ∈ test_qnames ∧ is_test_api_call (pe_extra e) = false ∧ is_external_call (pe_extra e) = false) edges).

(** ** What the table holds *)

Definition symbol_of (file_path : string) (n : ParsedNode) : option string * string :=
  (p_parent_name n, qualify file_path (p_name n) (p_parent_name n)).

Lemma symbols_fold file_path (l : list ParsedNode) (m : Symbols) name :
  default [] (foldl (λ m n, <[p_name n := default [] (m !! p_name n) ++ [(p_parent_name n, qualify file_path (p_name n) (p_parent_name n))]]> m) m l !! name) =
  default [] (m !! name) ++ (symbol_of file_path <$> filter (λ n, p_name n = name) l).
Proof.
  revert m. induction l as [|n l IH]; intros m; cbn [foldl]; [by rewrite app_nil_r|]. rewrite IH, filter_cons.
  destruct (decide (p_name n = name)) as [<-|Hn].
  - rewrite lookup_insert_eq. cbn. by rewrite <-app_assoc.
  - by rewrite lookup_insert_ne.
Qed.

Lemma symbols_lookup file_path (nodes : list ParsedNode) name :
  default [] (symbols_of file_path nodes !! name) =
  symbol_of file_path <$> filter (λ n, p_name n = name ∧ symbol_kind (p_kind n) = true) nodes.
Proof. unfold symbols_of. by rewrite symbols_fold, lookup_empty, list_filter_filter. Qed.

Lemma symbols_found file_path (nodes : list ParsedNode) name candidates :
  symbols_of file_path nodes !! name = Some candidates →
  candidates = symbol_of file_path <$> filter (λ n, p_name n = name ∧ symbol_kind (p_kind n) = true) nodes.
Proof. intros Hs. pose proof (symbols_lookup file_path nodes name) as Hl. by rewrite Hs in Hl. Qed.

(** A symbol of the file by that name. *)
Definition declares (file_path : string) (nodes : list ParsedNode) (name q : string) : Prop :=
  ∃ n, n ∈ nodes ∧ p_name n = name ∧ symbol_kind (p_kind n) = true ∧ q = qualify file_path (p_name n) (p_parent_name n).

Lemma candidate_declared file_path (nodes : list ParsedNode) name candidates c :
  symbols_of file_path nodes !! name = Some candidates → c ∈ candidates → declares file_path nodes name c.2.
Proof.
  intros ->%symbols_found (n & -> & [[Hn Hk] Hin]%list_elem_of_filter)%list_elem_of_fmap. by exists n.
Qed.

Lemma with_parent_in p (candidates : Candidates) q : with_parent p candidates = Some q → ∃ c, c ∈ candidates ∧ c.2 = q ∧ p c.1 = true.
Proof.
  unfold with_parent. destruct (List.find _ candidates) as [c|] eqn:Hf; [|done]. intros [= <-].
  apply find_some in Hf as [Hin Hp]. exists c. by split; [apply list_elem_of_In|].
Qed.

Lemma nearest_in scopes (methods : Candidates) q : nearest scopes methods = Some q → ∃ c, c ∈ methods ∧ c.2 = q.
Proof.
  induction scopes as [|x scopes IH]; cbn [nearest].
  - destruct methods as [|c l]; [done|]. intros [= <-]. exists c. by split; [left|].
  - destruct (with_parent _ methods) as [q'|] eqn:Hw; [|done]. intros [= ->]. apply with_parent_in in Hw as (c & ? & ? & _). by exists c.
Qed.

(** What a target names: itself, or what follows ["::"]. *)
Definition names (target name : string) : Prop := target = name ∨ ∃ before, target = before +:+ "::" +:+ name.

Lemma rsplit_once_at_spec sep s a b : rsplit_once_at sep s = Some (a, b) → s = a +:+ sep +:+ b.
Proof.
  clear. revert a b. induction s as [|c s IH]; intros a b; cbn [rsplit_once_at].
  - destruct (strip_prefix sep "") as [rest|] eqn:Hp; [|done]. intros [= <- <-]. by apply strip_prefix_spec in Hp.
  - destruct (rsplit_once_at sep s) as [[a' b']|] eqn:Hr.
    + intros [= <- <-]. rewrite app_cons. f_equal. by apply IH.
    + destruct (strip_prefix sep (String c s)) as [rest|] eqn:Hp; [|done]. intros [= <- <-]. by apply strip_prefix_spec in Hp.
Qed.

Lemma type_scoped_sound file_path (nodes : list ParsedNode) target q :
  resolve_type_scoped_call file_path (symbols_of file_path nodes) target = Some q →
  ∃ name, names target name ∧ declares file_path nodes name q.
Proof.
  unfold resolve_type_scoped_call. destruct (starts_with _ _); [done|]. destruct (rsplit_once_at "::" target) as [[ty method]|] eqn:Hr; [|done].
  cbn [mbind option_bind]. destruct (_ || _); [done|]. destruct (match split_once _ _ with Some _ => _ | None => _ end); [done|].
  destruct (symbols_of file_path nodes !! method) as [cs|] eqn:Hc; [|done]. cbn [mbind option_bind]. intros Hq. exists method. split.
  { right. exists ty. by apply rsplit_once_at_spec in Hr. }
  destruct (with_parent _ cs) as [q'|] eqn:Hw.
  - injection Hq as ->. apply with_parent_in in Hw as (c & Hin & <- & _). by eapply candidate_declared.
  - destruct (filter _ cs) as [|[p q'] [|]] eqn:Hf; try done. injection Hq as ->.
    assert (Hin : (p, q) ∈ filter (λ c, match c.1 with Some parent => str_ends_with ("." +:+ ty) parent | None => false end = true) cs) by (rewrite Hf; left).
    apply list_elem_of_filter in Hin as [_ Hin]. by apply (candidate_declared file_path nodes method cs (p, q)).
Qed.

Lemma inside_file_spec file_path s rest : inside_file file_path s = Some rest ↔ s = file_path +:+ "::" +:+ rest.
Proof.
  unfold inside_file. destruct (strip_prefix file_path s) as [r|] eqn:Hp; cbn [mbind option_bind].
  - apply strip_prefix_spec in Hp as ->. rewrite strip_prefix_spec. split; [by intros ->|]. intros Heq.
    by apply String.app_inj in Heq.
  - split; [done|]. intros Heq. by rewrite (proj2 (strip_prefix_spec file_path s _) Heq) in Hp.
Qed.

Lemma unqualified_names file_path target name : same_file_unqualified_name file_path target = Some name → names target name.
Proof.
  unfold same_file_unqualified_name. destruct (str_contains "::" target); cbn [negb]; [|intros [= ->]; by left].
  destruct (inside_file file_path target) as [rest|] eqn:Hi; [|done]. cbn [mbind option_bind]. destruct (has_char dot rest); [done|].
  intros [= ->]. right. exists file_path. by apply inside_file_spec.
Qed.

Lemma same_file_sound file_path (nodes : list ParsedNode) owners caller target q :
  resolve_same_file_call_target file_path (symbols_of file_path nodes) owners caller target = Some q →
  ∃ name, names target name ∧ declares file_path nodes name q.
Proof.
  unfold resolve_same_file_call_target. destruct (resolve_type_scoped_call _ _ _) as [q'|] eqn:Ht.
  { intros [= ->]. by apply type_scoped_sound. }
  destruct (same_file_unqualified_name file_path target) as [name|] eqn:Hn; [|done]. cbn [mbind option_bind].
  destruct (symbols_of file_path nodes !! name) as [cs|] eqn:Hc; [|done]. cbn [mbind option_bind]. intros Hq. exists name.
  split; [by eapply unqualified_names|]. revert Hq. assert (Hwp : ∀ p, with_parent p cs = Some q → declares file_path nodes name q).
  { intros p (c & Hin & <- & _)%with_parent_in. by eapply candidate_declared. }
  assert (Hpick : ∀ P `{!∀ c, Decision (P c)}, pick_method_for_caller file_path caller (filter P cs) = Some q → declares file_path nodes name q).
  { intros P ? (c & [_ Hin]%list_elem_of_filter & <-)%nearest_in. by eapply candidate_declared. }
  destruct (own ← _; _) as [q'|] eqn:Ho.
  - intros [= ->]. destruct (inside_file file_path caller) as [own|]; [|done]. by eapply Hwp.
  - destruct (with_parent (λ p, bool_decide (p = None)) cs) as [q'|] eqn:Hw; destruct (str_contains "::" target); [done| |by apply Hpick..].
    intros [= ->]. by eapply Hwp.
Qed.

(** ** Which calls are resolved *)

Lemma contains_middle sub a b : str_contains sub (a +:+ sub +:+ b) = true.
Proof.
  clear. induction a as [|c a IH].
  - assert (Hp : String.prefix sub (sub +:+ b) = true) by (apply String.prefix_correct, substring_front).
    change ("" +:+ sub +:+ b) with (sub +:+ b). by destruct (sub +:+ b); cbn [str_contains]; rewrite Hp.
  - rewrite app_cons. cbn [str_contains]. by rewrite IH, orb_true_r.
Qed.

(** A name declared outside any other, that nothing inside the caller shadows. *)
Definition visible_top_level (file_path : string) (nodes : list ParsedNode) (caller name : string) : Prop :=
  (∃ n, n ∈ nodes ∧ p_name n = name ∧ symbol_kind (p_kind n) = true ∧ p_parent_name n = None) ∧
  ∀ n, n ∈ nodes → p_name n = name → symbol_kind (p_kind n) = true → p_parent_name n ≠ inside_file file_path caller ∨ p_parent_name n = None.

Lemma with_parent_none p (candidates : Candidates) : with_parent p candidates = None ↔ ∀ c, c ∈ candidates → p c.1 = false.
Proof.
  unfold with_parent. split.
  - intros Hf c Hc. destruct (List.find _ candidates) eqn:Hf'; [done|]. by apply (find_none _ _ Hf' c), list_elem_of_In.
  - intros Hall. destruct (List.find _ candidates) as [c|] eqn:Hf; [|done]. apply find_some in Hf as [Hin Hp]. rewrite Hall in Hp; [done|by apply list_elem_of_In].
Qed.

Lemma bare_call_resolved file_path (nodes : list ParsedNode) owners caller target :
  str_contains "::" target = false → visible_top_level file_path nodes caller target →
  resolve_same_file_call_target file_path (symbols_of file_path nodes) owners caller target = Some (file_path +:+ "::" +:+ target).
Proof.
  intros Hbare [(n & Hn & Hname & Hk & Hp) Hshadow]. unfold resolve_same_file_call_target.
  replace (resolve_type_scoped_call file_path (symbols_of file_path nodes) target) with (@None string).
  2:{ unfold resolve_type_scoped_call. destruct (starts_with _ _); [done|]. destruct (rsplit_once_at "::" target) as [[a b]|] eqn:Hr; [|done].
      apply rsplit_once_at_spec in Hr. rewrite Hr, contains_middle in Hbare. done. }
  unfold same_file_unqualified_name. rewrite Hbare. cbn [negb mbind option_bind].
  assert (Hin : symbol_of file_path n ∈ default [] (symbols_of file_path nodes !! target)).
  { rewrite symbols_lookup. apply list_elem_of_fmap_2, list_elem_of_filter. by split_and!. }
  destruct (symbols_of file_path nodes !! target) as [cs|] eqn:Hcs; [|by apply not_elem_of_nil in Hin]. cbn [mbind option_bind default] in Hin |- *.
  replace (own ← inside_file file_path caller; with_parent (λ p, bool_decide (p = Some own)) cs) with (@None string).
  2:{ destruct (inside_file file_path caller) as [own|] eqn:Hown; [|done]. cbn [mbind option_bind]. symmetry. apply with_parent_none. intros c Hc.
      rewrite (symbols_found _ _ _ _ Hcs) in Hc. apply list_elem_of_fmap in Hc as (m & -> & [[Hmn Hmk] Hm]%list_elem_of_filter).
      apply bool_decide_eq_false_2. cbn. intros Hpm. destruct (Hshadow m Hm Hmn Hmk) as [Hne|Hnone]; congruence. }
  assert (Htop : with_parent (λ p, bool_decide (p = None)) cs = Some (file_path +:+ "::" +:+ target)).
  { destruct (with_parent _ cs) as [q|] eqn:Hw.
    - apply with_parent_in in Hw as (c & Hc & <- & Hnone%bool_decide_eq_true). rewrite (symbols_found _ _ _ _ Hcs) in Hc.
      apply list_elem_of_fmap in Hc as (m & -> & [[Hmn _] _]%list_elem_of_filter). cbn in Hnone |- *. by rewrite Hnone, Hmn.
    - assert (Hf : bool_decide ((symbol_of file_path n).1 = None) = false) by by apply (proj1 (with_parent_none _ cs) Hw).
      cbn in Hf. by rewrite Hp in Hf. }
  by rewrite Htop.
Qed.

(** In a file no symbol of which is inside another, a bare name the file declares
    is resolved, and nothing else. *)
Definition flat (nodes : list ParsedNode) : Prop := ∀ n, n ∈ nodes → symbol_kind (p_kind n) = true → p_parent_name n = None.

Lemma flat_candidate file_path (nodes : list ParsedNode) name candidates c :
  flat nodes → symbols_of file_path nodes !! name = Some candidates → c ∈ candidates → c = (None, file_path +:+ "::" +:+ name).
Proof.
  intros Hflat ->%symbols_found (n & -> & [[<- Hk] Hn]%list_elem_of_filter)%list_elem_of_fmap.
  unfold symbol_of. by rewrite (Hflat n Hn Hk).
Qed.

Lemma flat_no_member file_path (nodes : list ParsedNode) name candidates (P : option string * string → Prop) `{!∀ c, Decision (P c)} :
  flat nodes → symbols_of file_path nodes !! name = Some candidates → (∀ q, ¬ P (None, q)) → filter P candidates = [].
Proof.
  intros Hflat Hs HP. apply EdgePass.filter_nothing. intros c Hc. rewrite (flat_candidate _ _ _ _ _ Hflat Hs Hc). apply HP.
Qed.

Lemma flat_scoped file_path (nodes : list ParsedNode) target :
  flat nodes → resolve_type_scoped_call file_path (symbols_of file_path nodes) target = None.
Proof.
  intros Hflat. unfold resolve_type_scoped_call. destruct (starts_with _ _); [done|].
  destruct (rsplit_once_at "::" target) as [[ty method]|]; [|done]. cbn [mbind option_bind].
  destruct (_ || _); [done|]. destruct (match split_once _ _ with Some _ => _ | None => _ end); [done|].
  destruct (symbols_of file_path nodes !! method) as [cs|] eqn:Hc; [|done]. cbn [mbind option_bind].
  destruct (with_parent _ cs) as [q|] eqn:Hw.
  - apply with_parent_in in Hw as (c & Hin & _ & Hp). by rewrite (flat_candidate _ _ _ _ _ Hflat Hc Hin) in Hp.
  - by rewrite (flat_no_member _ _ _ _ _ Hflat Hc).
Qed.

Lemma flat_call file_path (nodes : list ParsedNode) owners caller target :
  flat nodes →
  resolve_same_file_call_target file_path (symbols_of file_path nodes) owners caller target =
  if negb (str_contains "::" target) && bool_decide (target ∈ p_name <$> filter (λ n, symbol_kind (p_kind n) = true) nodes)
  then Some (file_path +:+ "::" +:+ target) else None.
Proof.
  intros Hflat. destruct (negb (str_contains "::" target) && bool_decide _) eqn:Hv.
  - apply andb_true_iff in Hv as [Hb%negb_true_iff (n & -> & [Hk Hn]%list_elem_of_filter)%bool_decide_eq_true%list_elem_of_fmap].
    apply bare_call_resolved; [done|]. split; [by exists n; split_and!; [| |apply Hk|apply Hflat]|]. intros m Hm _ Hmk. right. by apply Hflat.
  - unfold resolve_same_file_call_target. rewrite flat_scoped by done. destruct (same_file_unqualified_name file_path target) as [name|] eqn:Hn; [|done].
    cbn [mbind option_bind]. destruct (symbols_of file_path nodes !! name) as [cs|] eqn:Hc; [|done]. cbn [mbind option_bind].
    assert (Hown : ∀ own, with_parent (λ p, bool_decide (p = Some own)) cs = None).
    { intros own. apply with_parent_none. intros c Hin. by rewrite (flat_candidate _ _ _ _ _ Hflat Hc Hin). }
    replace (own ← inside_file file_path caller; with_parent (λ p, bool_decide (p = Some own)) cs) with (@None string)
      by (destruct (inside_file file_path caller) as [own|]; [by cbn; rewrite Hown|done]).
    rewrite (flat_no_member _ _ _ _ _ Hflat Hc) by done.
    assert (Hpick : pick_method_for_caller file_path caller [] = None).
    { unfold pick_method_for_caller. by induction (caller_scopes file_path caller). }
    rewrite Hpick. destruct (with_parent (λ p, bool_decide (p = None)) cs) as [q|] eqn:Hw; destruct (str_contains "::" target) eqn:Ht; try done.
    exfalso. unfold same_file_unqualified_name in Hn. rewrite Ht in Hn. injection Hn as <-. cbn [negb andb] in Hv. apply bool_decide_eq_false in Hv.
    apply Hv. apply with_parent_in in Hw as (c & Hin & _). rewrite (symbols_found _ _ _ _ Hc) in Hin.
    apply list_elem_of_fmap in Hin as (m & _ & [[<- Hk] Hm]%list_elem_of_filter). apply list_elem_of_fmap_2, list_elem_of_filter. done.
Qed.

(** C11: calls within a file.  An edge keeps all but its target.  A target that
    changes becomes the qualified name of a symbol of the file by the name the
    target had, or ended in; an edge marked as going elsewhere stays; and a bare
    name that the file declares at its top, and nothing inside the caller
    shadows, is always resolved to that declaration. *)
Theorem call_targets_spec (nodes : list ParsedNode) (edges : list ParsedEdge) file_path :
  Forall2 (λ e e',
    (e' = with_target (pe_target e') (pe_extra e) e) ∧
    (resolvable e = false → e' = e) ∧
    (pe_target e' = pe_target e ∨ ∃ name, names (pe_target e) name ∧ declares file_path nodes name (pe_target e')) ∧
    (resolvable e = true → str_contains "::" (pe_target e) = false → visible_top_level file_path nodes (pe_source e) (pe_target e) →
     pe_target e' = file_path +:+ "::" +:+ pe_target e))
    edges (resolve_rust_call_targets nodes edges file_path).
Proof.
  unfold resolve_rust_call_targets. apply Forall2_fmap_r, Forall_Forall2_diag, Forall_forall. intros e _.
  unfold compose. cbv beta. destruct (resolvable e).
  - destruct (resolve_same_file_call_target file_path (symbols_of file_path nodes) (object_owners_of nodes) (pe_source e) (pe_target e)) as [q|] eqn:Hq.
    + split_and!; [done|done|right; by eapply same_file_sound|]. intros _ Hb Hv.
      rewrite (bare_call_resolved file_path nodes _ _ _ Hb Hv) in Hq. by injection Hq as <-.
    + split_and!; [by destruct e|done|by left|]. intros _ Hb Hv. by rewrite (bare_call_resolved file_path nodes _ _ _ Hb Hv) in Hq.
  - by split_and!; [destruct e|..]; try left.
Qed.

End nodes.
End CallTargets.
