(* ===== verification/BashParser.v ===== *)
(** * The Bash extractor

    Models crates/dagayn-parser/src/bash.rs and stdlib/bash.rs: the functions a
    script defines, the commands it runs and the scripts it sources, read off the
    grammar's tree, which is a parameter. *)
From S2P Require Import Prelude GraphData EdgePass Visibility Impact Text Syntax ParsedFile CallTargets.
Import GraphData Visibility Text Syntax ParsedFile CallTargets.

Module BashParser.

#[local] Set Default Proof Using "Type".

(** Source: crates/dagayn-parser/src/stdlib/bash.rs 6-68 [BASH_BUILTINS]. *)
Definition BASH_BUILTINS : list string :=
  ["."; ":"; "["; "alias"; "bg"; "bind"; "break"; "builtin"; "caller"; "cd"; "command"; "compgen"; "complete"; "compopt";
   "continue"; "declare"; "dirs"; "disown"; "echo"; "enable"; "eval"; "exec"; "exit"; "export"; "false"; "fc"; "fg"; "getopts";
   "hash"; "help"; "history"; "jobs"; "kill"; "let"; "local"; "logout"; "mapfile"; "popd"; "printf"; "pushd"; "pwd"; "read";
   "readarray"; "readonly"; "return"; "set"; "shift"; "shopt"; "source"; "suspend"; "test"; "times"; "trap"; "true"; "type";
   "typeset"; "ulimit"; "umask"; "unalias"; "unset"; "wait"].

(** Source: crates/dagayn-parser/src/stdlib/bash.rs 70-72 [is_bash_builtin]. *)
Definition is_bash_builtin (name : string) : bool := bool_decide (name ∈ BASH_BUILTINS).

Section bash.
Context `{JsonObjects}.
Context (from_utf8_lossy : string → string).
(** Whether a path is a file; the root of the repository. *)
Context (is_file : string → bool) (repo_root : option string).
Context (file_path source : string).

#[local] Abbreviation text := (node_text from_utf8_lossy source).
#[local] Abbreviation Found := (list ParsedNode * list ParsedEdge)%type.

(** Source: crates/dagayn-parser/src/bash.rs 129-135 [bash_function_name]. *)
Definition bash_function_name (t : Tree) : option string := text <$> direct_child t ["word"].

(** Source: crates/dagayn-parser/src/bash.rs 186-199 [bash_command_name]. *)
Definition bash_command_name (t : Tree) : option string :=
  child ← direct_child t ["command_name"];
  let static_name := match first_named_child child with Some name => bool_decide (t_kind name = "word") | None => false end in
  let name := trim (text child) in
  if static_name && negb (bool_decide (name = "")) then Some name else None.

(** What follows the command's name. *)
Fixpoint after_command (l : list Tree) : list Tree :=
  match l with [] => [] | c :: l => if bool_decide (t_kind c = "command_name") then l else after_command l end.

(** Source: crates/dagayn-parser/src/bash.rs 202-210 [bash_command_words]. *)
Definition bash_command_words (t : Tree) : list string :=
  text <$> filter (λ c, t_kind c = "word") (after_command (t_children t)).

Definition argument_kinds : list string := ["word"; "string"; "raw_string"; "concatenation"; "simple_expansion"; "expansion"].

(** Source: crates/dagayn-parser/src/bash.rs 212-237 [bash_first_command_arg]. *)
Definition bash_first_command_arg (t : Tree) : option string :=
  child ← head (filter (λ c, t_kind c ∈ argument_kinds) (after_command (t_children t)));
  let arg := strip_matching_quotes (trim (text child)) in
  if bool_decide (arg = "") then None else Some arg.

(** Source: crates/dagayn-parser/src/bash.rs 239-261 [resolve_bash_source_target]. *)
Definition resolve_bash_source_target (target : string) : option string :=
  let caller_dir := default "" (path_parent file_path) in
  match repo_root with
  | Some root =>
      let candidate := path_join (path_join root caller_dir) target in
      if is_file candidate then normalize_relative_path <$> Impact.strip_prefix candidate root else None
  | None =>
      let candidate := path_join caller_dir target in
      if is_file candidate then Some (normalize_relative_path candidate) else None
  end.

(** The name a wrapper runs: [exec greet] runs [greet].

    Source: crates/dagayn-parser/src/bash.rs 162-173 [bash_emit_command]. *)
Definition run_by (t : Tree) (command_name : string) : option string :=
  if bool_decide (command_name ∈ ["exec"; "command"; "nohup"]) then
    let args := bash_command_words t in
    if existsb (λ arg, bool_decide (arg = "-v" ∨ arg = "-V")) args then None
    else Some (default command_name (List.find (λ arg, negb (starts_with "-" arg)) args))
  else Some command_name.

(** Source: crates/dagayn-parser/src/bash.rs 137-184 [bash_emit_command]. *)
Definition bash_emit_command (t : Tree) (enclosing_func : option string) (edges : list ParsedEdge) : list ParsedEdge :=
  match bash_command_name t with
  | None => edges
  | Some command_name =>
      if bool_decide (command_name = "source" ∨ command_name = ".") then
        match bash_first_command_arg t with
        | Some target =>
            edges ++ [new_edge ImportsFrom file_path (default target (resolve_bash_source_target target)) file_path (line_of t)]
        | None => edges
        end
      else
        match run_by t command_name with
        | None => edges
        | Some command_name =>
            let caller := match enclosing_func with Some func => qualify file_path func None | None => file_path end in
            edges ++ [new_edge Calls caller command_name file_path (line_of t)]
        end
  end.

Definition function_node (name : string) (t : Tree) : ParsedNode :=
  mkParsedNode KFunction name file_path (line_of t) (last_line_of t) "bash" None None None None false empty_object.

(** What a child adds before its own children are walked, and the function they
    are in.

    Source: crates/dagayn-parser/src/bash.rs 48-90 [bash_walk_children]. *)
Definition bash_enter (child : Tree) (enclosing_func : option string) (acc : Found) : Found * option string :=
  let '(nodes, edges) := acc in
  if bool_decide (t_kind child = "function_definition") then
    match bash_function_name child with
    | Some name =>
        ((nodes ++ [function_node name child],
          edges ++ [new_edge Contains file_path (qualify file_path name None) file_path (line_of child)]), Some name)
    | None => (acc, enclosing_func)
    end
  else if bool_decide (t_kind child = "command") then ((nodes, bash_emit_command child enclosing_func edges), enclosing_func)
  else (acc, enclosing_func).

(** Source: crates/dagayn-parser/src/bash.rs 38-101 [bash_walk_children]. *)
Fixpoint bash_walk_children (t : Tree) (enclosing_func : option string) (acc : Found) : Found :=
  match t with
  | Node _ _ _ _ _ _ _ children =>
      (fix go (l : list Tree) (acc : Found) : Found :=
         match l with
         | [] => acc
         | child :: l => let '(acc, func) := bash_enter child enclosing_func acc in go l (bash_walk_children child func acc)
         end) children acc
  end.

(** Source: crates/dagayn-parser/src/bash.rs 108-127 [bash_mark_builtin_calls]. *)
Definition bash_mark_builtin_calls (nodes : list ParsedNode) (edges : list ParsedEdge) : list ParsedEdge :=
  let defined := list_to_set (p_name <$> filter (λ n, p_kind n = KFunction) nodes) : gset string in
  (λ e, if bool_decide (pe_kind e = Calls) && is_bash_builtin (pe_target e) && negb (bool_decide (pe_target e ∈ defined))
        then mark_stdlib_edge "bash" Likely e else e) <$> edges.

(** Source: crates/dagayn-parser/src/bash.rs 12-36 [parse_bash_with_parser]. *)
Definition parse_bash_with_parser (parser : option (string → option Tree)) : Found :=
  let nodes := [file_node file_path (line_count source) "bash"] in
  match parser ≫= (λ parse, parse source) with
  | Some root =>
      let '(nodes, edges) := bash_walk_children root None (nodes, []) in
      (nodes, resolve_rust_call_targets nodes (bash_mark_builtin_calls nodes edges) file_path)
  | None => (nodes, [])
  end.

(** ** What the extractor finds *)

(** The function the children of a node are in. *)
Definition function_scope (func : option string) (t : Tree) : option string :=
  if bool_decide (t_kind t = "function_definition") then match bash_function_name t with Some name => Some name | None => func end
  else func.

(** The nodes below one, each with the function it stands in. *)
Fixpoint visits (func : option string) (t : Tree) : list (option string * Tree) :=
  match t with
  | Node _ _ _ _ _ _ _ children =>
      (fix go (l : list Tree) : list (option string * Tree) :=
         match l with [] => [] | c :: l => (func, c) :: visits (function_scope func c) c ++ go l end) children
  end.

Definition function_at (v : option string * Tree) : option ParsedNode :=
  if bool_decide (t_kind v.2 = "function_definition") then name ← bash_function_name v.2; Some (function_node name v.2) else None.

(** The edge a node stands for, given what becomes of a call. *)
Definition edge_at (call : ParsedEdge → ParsedEdge) (v : option string * Tree) : option ParsedEdge :=
  let t := v.2 in
  if bool_decide (t_kind t = "function_definition") then
    name ← bash_function_name t; Some (new_edge Contains file_path (file_path +:+ "::" +:+ name) file_path (line_of t))
  else if bool_decide (t_kind t = "command") then
    name ← bash_command_name t;
    if bool_decide (name = "source" ∨ name = ".") then
      target ← bash_first_command_arg t;
      Some (new_edge ImportsFrom file_path (default target (resolve_bash_source_target target)) file_path (line_of t))
    else
      word ← run_by t name;
      Some (call (new_edge Calls (match v.1 with Some func => file_path +:+ "::" +:+ func | None => file_path end) word file_path (line_of t)))
  else None.

(** Where the call of a word goes, the script defining [defined]. *)
Definition settled_call (defined : list string) (e : ParsedEdge) : ParsedEdge :=
  let word := pe_target e in
  if bool_decide (word ∈ defined) then
    if str_contains "::" word then e else with_target (file_path +:+ "::" +:+ word) empty_object e
  else if is_bash_builtin word then mark_stdlib_edge "bash" Likely e else e.

Definition visited_children (func : option string) (l : list Tree) : list (option string * Tree) :=
  l ≫= λ c, (func, c) :: visits (function_scope func c) c.

Lemma visits_children func t : visits func t = visited_children func (t_children t).
Proof. destruct t as [k f nm b1 b2 r1 r2 children]. cbn. induction children as [|c l IH]; [done|]. by rewrite IH. Qed.

Lemma emit_edge func t edges :
  t_kind t = "command" → bash_emit_command t func edges = edges ++ option_list (edge_at id (func, t)).
Proof.
  intros Hk. unfold bash_emit_command, edge_at. cbn [fst snd]. rewrite bool_decide_eq_false_2 by by rewrite Hk. rewrite bool_decide_eq_true_2 by done.
  destruct (bash_command_name t) as [name|]; cbn [mbind option_bind option_list]; [|by rewrite app_nil_r].
  case_bool_decide.
  - destruct (bash_first_command_arg t); cbn; [done|by rewrite app_nil_r].
  - destruct (run_by t name); cbn; [done|by rewrite app_nil_r].
Qed.

Lemma enter_adds t func nodes edges :
  bash_enter t func (nodes, edges) =
  ((nodes ++ option_list (function_at (func, t)), edges ++ option_list (edge_at id (func, t))), function_scope func t).
Proof.
  unfold bash_enter, function_at, function_scope. cbn [fst snd]. destruct (decide (t_kind t = "function_definition")) as [Hk|Hk].
  - rewrite !(bool_decide_eq_true_2 _ Hk). unfold edge_at. cbn [fst snd]. rewrite (bool_decide_eq_true_2 _ Hk).
    destruct (bash_function_name t); cbn; [done|by rewrite !app_nil_r].
  - rewrite !(bool_decide_eq_false_2 _ Hk). case_bool_decide as Hc.
    + by rewrite app_nil_r, emit_edge.
    + unfold edge_at. cbn [fst snd]. rewrite (bool_decide_eq_false_2 _ Hk), (bool_decide_eq_false_2 _ Hc). cbn. by rewrite !app_nil_r.
Qed.

Lemma walk_adds t func nodes edges :
  bash_walk_children t func (nodes, edges) =
  (nodes ++ omap function_at (visits func t), edges ++ omap (edge_at id) (visits func t)).
Proof.
  revert func nodes edges. induction t as [k f nm b1 b2 r1 r2 children IH] using Tree_children_ind. intros func. cbn [bash_walk_children].
  rewrite visits_children. cbn [t_children]. induction IH as [|c l Hc _ IHl]; intros nodes edges; [by rewrite !app_nil_r|].
  rewrite enter_adds, Hc, IHl. unfold visited_children at 3 4. cbn [mbind list_bind]. fold (visited_children func l).
  rewrite <-!app_comm_cons. cbn [omap list_omap]. rewrite !omap_app.
  destruct (function_at (func, c)), (edge_at id (func, c)); cbn [option_list]; by rewrite <-!app_assoc.
Qed.

Lemma visits_below t c : c ∈ (visits None t).*2 ↔ below t c.
Proof.
  generalize (@None string) as func. revert c. induction t as [k f nm b1 b2 r1 r2 children IH] using Tree_children_ind. intros d func.
  rewrite visits_children. cbn [t_children]. unfold visited_children. rewrite Forall_forall in IH. split.
  - intros ([g d'] & -> & (c & Hv & Hc)%list_elem_of_bind)%list_elem_of_fmap. cbn [snd].
    apply elem_of_cons in Hv as [[= -> ->]|Hv]; [by apply below_child|].
    apply below_below with c; [done|]. apply (IH c Hc d' (function_scope func c)). apply list_elem_of_fmap. by exists (g, d').
  - intros Hb. inversion Hb as [d' Hd|c d' Hc Hcd]; subst; cbn [t_children] in *; apply list_elem_of_fmap.
    + exists (func, d). split; [done|]. apply list_elem_of_bind. exists d. split; [left|done].
    + apply (IH c Hc d (function_scope func c)), list_elem_of_fmap in Hcd as ([g d'] & -> & Hv). exists (g, d'). split; [done|].
      apply list_elem_of_bind. exists c. split; [by right|done].
Qed.

Lemma functions_flat (vs : list (option string * Tree)) :
  flat (file_node file_path (line_count source) "bash" :: omap function_at vs).
Proof.
  intros n [->|([g t] & _ & Hn)%list_elem_of_omap]%elem_of_cons _; [done|]. unfold function_at in Hn. cbn [snd] in Hn.
  case_bool_decide; [|done]. destruct (bash_function_name t); [|done]. by injection Hn as <-.
Qed.

(** The functions a script defines. *)
Definition defined_in (root : Tree) : list string := p_name <$> omap function_at (visits None root).

Lemma functions_kind (vs : list (option string * Tree)) n : n ∈ omap function_at vs → p_kind n = KFunction.
Proof.
  intros ([g t] & _ & Hn)%list_elem_of_omap. unfold function_at in Hn. cbn [snd] in Hn.
  case_bool_decide; [|done]. destruct (bash_function_name t); [|done]. by injection Hn as <-.
Qed.

Lemma settles_calls {laws : JsonObjectLaws} root f line func word :
  let nodes := file_node file_path (line_count source) "bash" :: omap function_at (visits None root) in
  let settle e := if resolvable e then
      match resolve_same_file_call_target file_path (symbols_of file_path nodes) f (pe_source e) (pe_target e) with
      | Some target => with_target target (pe_extra e) e
      | None => e
      end else e in
  let e := new_edge Calls func word file_path line in
  settle (if is_bash_builtin word && negb (bool_decide (word ∈ defined_in root)) then mark_stdlib_edge "bash" Likely e else e) =
  settled_call (defined_in root) e.
Proof.
  cbv zeta. set (nodes := _ :: _). unfold settled_call. cbn [pe_target new_edge].
  assert (Hdef : p_name <$> filter (λ n, symbol_kind (p_kind n) = true) nodes = defined_in root).
  { unfold nodes. rewrite filter_cons, decide_False by done. unfold defined_in. f_equal. apply EdgePass.filter_all.
    intros n Hn. by rewrite (functions_kind _ _ Hn). }
  assert (Hplain : resolvable (new_edge Calls func word file_path line) = true).
  { unfold resolvable, is_external_call. cbn. by rewrite !bool_empty, !key_empty. }
  destruct (decide (word ∈ defined_in root)) as [Hd|Hd].
  - rewrite (bool_decide_eq_true_2 _ Hd), andb_false_r, Hplain. cbn [pe_target pe_source new_edge].
    rewrite flat_call, Hdef, (bool_decide_eq_true_2 _ Hd) by apply functions_flat. by destruct (str_contains "::" word).
  - rewrite (bool_decide_eq_false_2 _ Hd), andb_true_r. destruct (is_bash_builtin word).
    + unfold resolvable, is_external_call. rewrite mark_stdlib_external by apply object_empty. by rewrite andb_false_r.
    + rewrite Hplain. cbn [pe_target pe_source new_edge]. rewrite flat_call, Hdef, (bool_decide_eq_false_2 _ Hd) by apply functions_flat.
      by rewrite andb_false_r.
Qed.

Lemma marked_resolved {laws : JsonObjectLaws} root :
  let nodes := file_node file_path (line_count source) "bash" :: omap function_at (visits None root) in
  resolve_rust_call_targets nodes (bash_mark_builtin_calls nodes (omap (edge_at id) (visits None root))) file_path =
  omap (edge_at (settled_call (defined_in root))) (visits None root).
Proof.
  cbv zeta. unfold resolve_rust_call_targets, bash_mark_builtin_calls. rewrite <-list_fmap_compose. apply fmap_omap. intros [g t].
  rewrite filter_cons, decide_False by done. rewrite EdgePass.filter_all by apply functions_kind. fold (defined_in root).
  unfold edge_at. cbn [fst snd]. case_bool_decide as Hf; [by destruct (bash_function_name t)|].
  case_bool_decide as Hc; [|done]. destruct (bash_command_name t) as [name|]; [|done]. cbn [mbind option_bind].
  case_bool_decide; [by destruct (bash_first_command_arg t)|]. destruct (run_by t name) as [word|]; [|done]. cbn [mbind option_bind fmap option_fmap option_map id].
  f_equal. unfold compose. cbn [pe_kind pe_target new_edge]. rewrite bool_decide_eq_true_2 by done.
  rewrite (bool_decide_ext (word ∈ list_to_set (defined_in root)) (word ∈ defined_in root)) by by rewrite elem_of_list_to_set.
  cbn [andb]. apply settles_calls.
Qed.

Lemma script_found {laws : JsonObjectLaws} (parser : option (string → option Tree)) :
  let found := parse_bash_with_parser parser in
  let file := file_node file_path (line_count source) "bash" in
  match parser ≫= (λ parse, parse source) with
  | None => found = ([file], [])
  | Some root =>
      found.1 = file :: omap function_at (visits None root) ∧
      found.2 = omap (edge_at (settled_call (defined_in root))) (visits None root) ∧
      ∀ t, t ∈ (visits None root).*2 ↔ below root t
  end.
Proof.
  cbv zeta. unfold parse_bash_with_parser. destruct (parser ≫= _) as [root|]; [|done]. rewrite walk_adds. cbn [app fst snd].
  split_and!; [done|apply marked_resolved|intros t; apply visits_below].
Qed.

(** C10: what a script gives.  Its nodes are the file and, in order, the
    functions anywhere in its tree, at any depth; its edges stand in the order of
    the tree: a function hangs on the file, a sourced script is imported by its
    path when there is a file of that path, and a command is called by the innermost function
    around it or by the file.  What it calls is the script's own function of that
    name, when there is one and its name has no [::]; the shell, when it is a
    builtin; and otherwise a name to resolve later.  Without a parser, or a tree,
    there is only the file. *)
Theorem parse_bash_spec {laws : JsonObjectLaws} (parser : option (string → option Tree)) :
  let found := parse_bash_with_parser parser in
  let file := file_node file_path (line_count source) "bash" in
  match parser ≫= (λ parse, parse source) with
  | None => found = ([file], [])
  | Some root =>
      found.1 = file :: omap function_at (visits None root) ∧
      found.2 = omap (edge_at (settled_call (defined_in root))) (visits None root) ∧
      ∀ t, t ∈ (visits None root).*2 ↔ below root t
  end.
Proof. apply script_found. Qed.

End bash.

(** ** A script *)

(** Objects as lists of members, the latest first; their text keeps only their
    shape. *)
Inductive Doc := DBool (b : bool) | DStr (s : string) | DNat (n : nat) | DF64 (x : f64) | DStrs (l : list string) | DNull
  | DObj (members : list (string * Doc)).

Definition doc_get (v : Doc) (key : string) : option Doc :=
  match v with DObj members => snd <$> List.find (λ m, bool_decide (m.1 = key)) members | _ => None end.

#[local] Instance doc_json : Json := {|
  Value := Doc;
  is_null v := match v with DNull => true | _ => false end;
  is_empty_object v := match v with DObj [] => true | _ => false end;
  to_string v := match v with DObj _ => Some "{}" | _ => Some "null" end;
  from_str s := if bool_decide (s = "{}") then Some (DObj []) else Some DNull;
  empty_object := DObj [];
  get_f64 v key := match doc_get v key with Some (DF64 x) => Some x | _ => None end;
  get_str v key := match doc_get v key with Some (DStr s) => Some s | _ => None end;
  get_bool v key := match doc_get v key with Some (DBool b) => Some b | _ => None end;
  has_key v key := match doc_get v key with Some _ => true | None => false end
|}.

#[local] Instance doc_objects : JsonObjects := {|
  of_bool := DBool; of_string := DStr; of_nat := DNat; of_f64 := DF64; of_strings := DStrs;
  is_object v := match v with DObj _ => true | _ => false end;
  set_member v key x := match v with DObj members => DObj ((key, x) :: members) | _ => v end;
  get_u64 v key := match doc_get v key with Some (DNat n) => Some n | _ => None end
|}.

#[local] Instance doc_laws : JsonObjectLaws.
Proof.
  split; try done.
  - by intros [] ??.
  - intros [] key ? Ho; try done. cbn. by rewrite bool_decide_eq_true_2.
  - intros [] key key' ? Ho Hne; try done. cbn. by rewrite bool_decide_eq_false_2.
Qed.

Definition lines (l : list string) : string := String.concat (String newline EmptyString) l.
Definition script : string := lines ["greet() { echo; }"; "greet"; "log::info() { :; }"; "log::info"].
Definition at_ (kind : string) (a b : nat) (row : Z) (children : list Tree) : Tree := Node kind None true a b row row children.
Definition run_at (a b : nat) (row : Z) : Tree := at_ "command" a b row [at_ "command_name" a b row [at_ "word" a b row []]].
Definition script_tree : Tree :=
  at_ "program" 0 52 0
    [at_ "function_definition" 0 17 0 [at_ "word" 0 5 0 []; at_ "compound_statement" 8 17 0 [run_at 10 14 0]];
     run_at 18 23 1;
     at_ "function_definition" 24 42 2 [at_ "word" 24 33 2 []; at_ "compound_statement" 36 42 2 [run_at 38 39 2]];
     run_at 43 52 3].
#[local] Definition ends (e : ParsedEdge) : EdgeKind * string * string := (pe_kind e, pe_source e, pe_target e).

(** [greet] is the script's own, [echo] the shell's; the call of [log::info] keeps
    its bare name though the script defines it. *)
Lemma parse_bash_spec_witness :
  ends <$> (parse_bash_with_parser id (λ _, false) None "a.sh" script (Some (λ _, Some script_tree))).2 =
  [(Contains, "a.sh", "a.sh::greet"); (Calls, "a.sh::greet", "bash"); (Calls, "a.sh", "a.sh::greet");
   (Contains, "a.sh", "a.sh::log::info"); (Calls, "a.sh::log::info", "bash"); (Calls, "a.sh", "log::info")].
Proof.
  destruct (parse_bash_spec id (λ _, false) None "a.sh" script (Some (λ _, Some script_tree))) as (_ & Hedges & _).
  rewrite Hedges. vm_compute. reflexivity.
Defined.
End BashParser.
