(* ===== verification/ParseFile.v ===== *)
(** * From a file's bytes to what the store takes

    Models the dispatch of crates/dagayn-parser/src/core.rs and file_only.rs, and
    how crates/dagayn-build/src/parse_batch.rs hands its result to the store: a
    file goes to the extractor that owns it, and what settles can be stored.  The
    extractors of the other languages are parameters. *)
From S2P Require Import Prelude GraphData EdgePass Store Update StoreGraph Visibility Text Syntax Discovery ParsedFile ParsedFileSpec CallTargets BashParser.
Import GraphData Text Syntax Discovery ParsedFile ParsedFileSpec BashParser.

Module ParseFile.

#[local] Set Default Proof Using "Type".

Section dispatch.
Context `{JsonObjects}.
Context (from_utf8_lossy : string → string) (is_utf8 : string → bool) (is_file : string → bool).
(** The features a build was compiled with; the grammar of Bash, when it loads. *)
Context (feature : string → bool) (new_bash_parser : option (string → option Tree)).
(** The extractors of the other languages, with the repository's root when it is
    known. *)
Context (extract : RustOwnedPathKind → option string → string → string → list ParsedNode * list ParsedEdge).

(** The feature that an extractor's grammar is behind. *)
Definition grammar_feature (kind : RustOwnedPathKind) : option string :=
  match kind with
  | Python | Notebook | PowerShell | Unsupported => None
  | kind => Some ("lang-" +:+ file_language kind)
  end.

(** Source: crates/dagayn-parser/src/ownership.rs 48-81 [grammar_enabled]. *)
Definition grammar_enabled (kind : RustOwnedPathKind) : bool :=
  match grammar_feature kind with Some name => feature name | None => true end.

(** Source: crates/dagayn-parser/src/file_only.rs 11-21 [parse_file_only]. *)
Definition parse_file_only (file_path source language : string) : list ParsedNode * list ParsedEdge :=
  ([file_node file_path (line_count source) language], []).

(** Source: crates/dagayn-parser/src/core.rs 235-469 [parse_file_dispatch]. *)
Definition parse_file_dispatch (repo_root : option string) (file_path source : string) : list ParsedNode * list ParsedEdge :=
  let kind := rust_owned_path_kind_for_source is_utf8 file_path source in
  if negb (grammar_enabled kind) then parse_file_only file_path source (file_language kind)
  else
    match kind with
    | Bash => parse_bash_with_parser from_utf8_lossy is_file repo_root file_path source new_bash_parser
    | PowerShell => parse_file_only file_path source (file_language kind)
    | Unsupported => ([], [])
    | kind => extract kind repo_root file_path source
    end.

(** Source: crates/dagayn-parser/src/core.rs 222-233 [parse_file_in_repo]. *)
Definition parse_file_in_repo (repo_root : option string) (file_path source : string) : list ParsedNode * list ParsedEdge :=
  settle file_path (parse_file_dispatch repo_root file_path source).

(** With a root, as for the files of a build, or without one.

    Source: crates/dagayn-build/src/parse_batch.rs 34-45 [parse_rust_owned_file_inputs]. *)
Definition parse_rust_owned_file_inputs (root : string) (in_repo : bool) (file_path source : string) : list NodeInput * list EdgeInput :=
  let '(nodes, edges) := parse_file_in_repo (if in_repo then Some root else None) file_path source in
  (parsed_node_to_input <$> nodes, parsed_edge_to_input <$> edges).

(** ** What reaches the store *)

(** What an extractor promises of the file it read: the file's node, everything
    in that file, and extras that can be written and read. *)
Record extracted (file_path : string) (found : list ParsedNode * list ParsedEdge) : Prop := mkExtracted {
  extracted_nodes n : n ∈ found.1 → p_file_path n = file_path ∧ StoreGraph.json_kept (p_extra n);
  extracted_edges e : e ∈ found.2 → pe_file_path e = file_path ∧ StoreGraph.json_kept (pe_extra e);
  extracted_file : ∃ n, n ∈ found.1 ∧ p_kind n = KFile
}.

(** What serde_json writes, it reads. *)
Class JsonText := {
  kept_empty : StoreGraph.json_kept empty_object;
  kept_bool b : StoreGraph.json_kept (of_bool b);
  kept_string s : StoreGraph.json_kept (of_string s);
  kept_nat n : StoreGraph.json_kept (of_nat n);
  kept_f64 x : StoreGraph.json_kept (of_f64 x);
  kept_set v key x : StoreGraph.json_kept v → StoreGraph.json_kept x → StoreGraph.json_kept (set_member v key x)
}.

(** The name the store gives a node. *)
Definition stored_name (n : NodeInput) : string := make_qualified_parts (ni_kind n) (ni_name n) (ni_file_path n) (ni_parent_name n).

Lemma stored_name_same n : stored_name (parsed_node_to_input n) = qualified_name_of n.
Proof. unfold stored_name, make_qualified_parts, qualified_name_of. cbn. by destruct (p_kind n), (p_parent_name n). Qed.

Section kept.
Context {json : JsonText} {laws : JsonObjectLaws}.

Lemma settle_extracted file_path found : extracted file_path found → extracted file_path (settle file_path found).
Proof using json.
  intros [Hn He (f & Hf & Hk)]. destruct (settled file_path found) as (_ & H2 & H3 & H4 & _).
  assert (Hgroup : ∀ n', n' ∈ (settle file_path found).1 → ∃ n, n ∈ found.1 ∧ p_file_path n' = p_file_path n ∧ p_kind n' = p_kind n ∧
    (p_extra n' = p_extra n ∨ ∃ k, p_extra n' = set_member (p_extra n) "merged_declarations" (of_nat k))).
  { intros n' Hin. destruct (H3 n' Hin) as [(n & Hhd & Hkn & _ & Hp & _ & _ & _ & _ & _ & Hx) _ _ _ _]. exists n.
    assert (Hng : n ∈ filter (λ m, well_named m = true ∧ qualified_name_of m = qualified_name_of n') found.1) by (destruct (filter _ _); [done|injection Hhd as ->; left]).
    apply list_elem_of_filter in Hng as [_ Hng]. split_and!; [done..|]. rewrite Hx. destruct (_ && _); [right; by eexists|by left]. }
  split.
  - intros n' (n & Hin & -> & _ & Hx)%Hgroup. destruct (Hn n Hin) as [Hp Hj]. split; [done|].
    destruct Hx as [->|[k ->]]; [done|]. apply kept_set; [done|apply kept_nat].
  - intros e' (_ & e & Hin & _ & Hor)%H4. destruct (He e Hin) as [Hp Hj]. by destruct Hor as [->|(_ & _ & ->)].
  - assert (Hfq : qualified_name_of f = file_path) by (unfold qualified_name_of; rewrite Hk; by apply Hn).
    assert (Hq : qualified_name_of f ∈ qualified_name_of <$> (settle file_path found).1).
    { apply H2. exists f. split; [done|]. split; [|done]. unfold well_named. by rewrite Hk. }
    apply list_elem_of_fmap in Hq as (n' & Hq & Hin). exists n'. split; [done|].
    destruct (Hgroup n' Hin) as (n & Hnin & Hp & Hkn & _). rewrite Hfq in Hq. unfold qualified_name_of in Hq. rewrite Hp, (proj1 (Hn n Hnin)) in Hq.
    assert (Hlong : ∀ rest, file_path ≠ file_path +:+ "::" +:+ rest).
    { intros rest Heq. apply (f_equal String.length) in Heq. rewrite !length_str_app in Heq. cbn in Heq. lia. }
    destruct (p_kind n'); [done|..]; destruct (p_parent_name n'); by apply Hlong in Hq.
Qed.

Lemma mark_kept package evidence e : StoreGraph.json_kept (pe_extra e) → StoreGraph.json_kept (pe_extra (mark_stdlib_edge package evidence e)).
Proof using json.
  intros He. unfold mark_stdlib_edge, mark_external_edge. cbn [pe_extra pe_target with_target].
  apply kept_set; [|apply kept_bool]. set (v := if is_object (pe_extra e) then pe_extra e else empty_object).
  assert (Hv : StoreGraph.json_kept v) by (unfold v; destruct (is_object _); [done|apply kept_empty]).
  destruct (_ && _); repeat (apply kept_set; [|first [apply kept_bool|apply kept_string|apply kept_f64]]); done.
Qed.

Lemma file_extracted file_path language source : extracted file_path (parse_file_only file_path source language).
Proof using json.
  split; cbn.
  - intros n ->%list_elem_of_singleton. split; [done|apply kept_empty].
  - by intros e ?%not_elem_of_nil.
  - eexists. split; [by left|done].
Qed.

Lemma bash_extracted repo_root file_path source parser :
  extracted file_path (parse_bash_with_parser from_utf8_lossy is_file repo_root file_path source parser).
Proof using json laws.
  pose proof (script_found from_utf8_lossy is_file repo_root file_path source parser) as Hf. cbv zeta in Hf.
  set (found := parse_bash_with_parser _ _ _ _ _ _) in *. clearbody found. destruct (parser ≫= _) as [root|].
  2:{ rewrite Hf. apply (file_extracted file_path "bash" source). }
  destruct Hf as (Hn & He & _). split.
  - rewrite Hn. intros n [->|(v & _ & Hv)%list_elem_of_omap]%elem_of_cons; [split; [done|apply kept_empty]|].
    unfold function_at in Hv. case_bool_decide; [|done]. destruct (bash_function_name _ _ _); [|done]. injection Hv as <-.
    split; [done|apply kept_empty].
  - rewrite He. intros e (v & _ & Hv)%list_elem_of_omap. unfold edge_at in Hv. case_bool_decide.
    { destruct (bash_function_name _ _ _); [|done]. injection Hv as <-. split; [done|apply kept_empty]. }
    case_bool_decide; [|done]. destruct (bash_command_name _ _ _) as [name|]; [|done]. cbn [mbind option_bind] in Hv. case_bool_decide.
    { destruct (bash_first_command_arg _ _ _); [|done]. injection Hv as <-. split; [done|apply kept_empty]. }
    destruct (run_by _ _ _ _); [|done]. injection Hv as <-. unfold settled_call. case_bool_decide.
    { destruct (str_contains _ _); split; try done; apply kept_empty. }
    destruct (is_bash_builtin _); split; [done|apply mark_kept, kept_empty|done|apply kept_empty].
  - rewrite Hn. eexists. split; [by left|done].
Qed.

(** The other extractors keep the promise. *)
Context (extract_ok : ∀ kind repo_root file_path source, kind ∉ [Bash; PowerShell; Unsupported] → extracted file_path (extract kind repo_root file_path source)).

Lemma dispatch_extracted repo_root file_path source :
  rust_parser_owns_source is_utf8 file_path source = true → extracted file_path (parse_file_dispatch repo_root file_path source).
Proof using json laws extract_ok.
  unfold rust_parser_owns_source, parse_file_dispatch. destruct (rust_owned_path_kind_for_source is_utf8 file_path source) eqn:Hk;
    intros Ho; destruct (negb (grammar_enabled _)); try apply file_extracted; try apply bash_extracted; try done;
    apply extract_ok; by apply (bool_decide_eq_true_1 (_ ∉ _)).
Qed.

(** C7: what a build makes of a file that an extractor owns can be stored, which
    is what [Update] asks of the parser.  All of it is in the file, which has a
    node of its own; no two nodes take one name in the store; and every CONTAINS
    edge starts at one of the nodes.  Bash scripts, and files whose grammar a
    build leaves out, need no promise of an extractor. *)
Theorem parse_file_storable root in_repo file_path source hash mtime :
  rust_parser_owns_source is_utf8 file_path source = true → Store.has_colon file_path = false → hash ≠ "" →
  let item := Update.make_item (parse_rust_owned_file_inputs root) in_repo file_path (source, hash, mtime) in
  StoreGraph.item_ok item ∧
  NoDup (stored_name <$> item_nodes _ _ item) ∧
  ∀ e, e ∈ item_edges _ _ item → ei_kind e = "CONTAINS" → ei_source e ∈ stored_name <$> item_nodes _ _ item.
Proof using json laws extract_ok.
  intros Ho Hc Hh. cbv zeta. unfold Update.make_item, parse_rust_owned_file_inputs, parse_file_in_repo.
  set (found := parse_file_dispatch _ _ _). assert (Hf : extracted file_path found) by by apply dispatch_extracted. clearbody found.
  destruct (settled file_path found) as (H1 & _ & _ & H4 & _). apply settle_extracted in Hf as [Hn He (f & Hf & Hk)].
  destruct (settle file_path found) as [nodes edges]. cbn [fst snd item_nodes item_edges item_path item_hash] in *.
  assert (Hnames : stored_name <$> (parsed_node_to_input <$> nodes) = qualified_name_of <$> nodes).
  { rewrite <-list_fmap_compose. apply list_fmap_ext. intros i n _. apply stored_name_same. }
  split; [|rewrite Hnames; split; [done|]].
  - split; cbn.
    + intros n' (n & -> & Hin)%list_elem_of_fmap. cbn. destruct (Hn n Hin) as [-> _]. done.
    + intros e' (e & -> & Hin)%list_elem_of_fmap. by apply He.
    + exists (parsed_node_to_input f). split; [by apply list_elem_of_fmap_2|]. cbn. by rewrite Hk.
    + done.
    + split; [intros n' (n & -> & Hin)%list_elem_of_fmap; by apply Hn|intros e' (e & -> & Hin)%list_elem_of_fmap; by apply He].
  - intros e' (e & -> & Hin)%list_elem_of_fmap Hkind. cbn in Hkind |- *. destruct (H4 e Hin) as [Hs _].
    assert (Hke : pe_kind e = Contains) by by destruct (pe_kind e). destruct (Hs Hke) as [->|Hs']; [|done].
    apply list_elem_of_fmap. exists f. split; [|done]. unfold qualified_name_of. rewrite Hk. symmetry. by apply Hn.
Qed.

End kept.

End dispatch.
(** ** A script that a build stores *)

#[local] Existing Instances doc_json doc_objects doc_laws.

#[local] Instance doc_text : JsonText.
Proof.
  assert (Hkept : ∀ v : Value, StoreGraph.json_kept v).
  { intros v. unfold StoreGraph.json_kept, extra_json. destruct (is_null v || is_empty_object v).
    - exists "{}". split; [done|by eexists].
    - destruct v; (eexists; split; [reflexivity|]); unfold from_str, doc_json; case_bool_decide; by eexists. }
  split; intros; apply Hkept.
Qed.

#[local] Definition no_extractor (kind : RustOwnedPathKind) (repo_root : option string) (file_path source : string) : list ParsedNode * list ParsedEdge :=
  parse_file_only file_path source (file_language kind).

Lemma parse_file_storable_witness :
  let item := Update.make_item (parse_rust_owned_file_inputs id (λ _, true) (λ _, false) (λ _, true) (Some (λ _, Some script_tree)) no_extractor "/r")
                true "a.sh" (script, "h", 0%Z) in
  StoreGraph.item_ok item ∧ stored_name <$> item_nodes _ _ item = ["a.sh"; "a.sh::greet"; "a.sh::log::info"].
Proof.
  destruct (parse_file_storable id (λ _, true) (λ _, false) (λ _, true) (Some (λ _, Some script_tree)) no_extractor
    (λ kind _ file_path source _, file_extracted file_path (file_language kind) source) "/r" true "a.sh" script "h" 0) as (Hok & _).
  - reflexivity.
  - reflexivity.
  - discriminate.
  - split; [exact Hok|vm_compute; reflexivity].
Defined.

End ParseFile.
