(* ===== verification/Realpath.v ===== *)
(** * Real paths

    Models crates/dagayn-tools/src/pypath.rs: a path with its symbolic links
    followed, whether or not it exists.  What stands at a path is a parameter:
    the answers of lstat and readlink, and of the other questions asked of the
    file system. *)
From S2P Require Import Prelude GraphData EdgePass CommunityNames Impact ImpactSpec Text Apply.
Import GraphData Text.

Module Realpath.

#[local] Set Default Proof Using "Type".

(** What lstat and readlink say of a path. *)
Inductive Entry := NoLink | UnreadableLink | NotText | Link (target : string).

Definition target_of (e : Entry) : option string := match e with Link t => Some t | _ => None end.

Section realpath.
Context (entry : string → Entry).

#[local] Abbreviation slash := (Ascii.ascii_of_nat 47).

(** Source: crates/dagayn-tools/src/pypath.rs 39-46 [realpath]. *)
Definition parent (resolved : string) : string :=
  let cut := match CommunityNames.rsplit_once slash resolved with Some (dir, _) => dir | None => "" end in
  if bool_decide (cut = "") then "/" else cut.

(** Source: crates/dagayn-tools/src/pypath.rs 47-51 [realpath]. *)
Definition child (resolved name : string) : string :=
  if bool_decide (resolved = "/") then "/" +:+ name else resolved +:+ "/" +:+ name.

(** [rest] is a stack, its top first; [None] marks the end of a link's target,
    the link's path below it.  The outer [None] is for want of fuel.

    Source: crates/dagayn-tools/src/pypath.rs 17-84 [realpath]. *)
Fixpoint resolve_from (fuel : nat) (rest : list (option string)) (part_count : nat) (resolved : string)
    (seen : gmap string (option string)) : option (option string) :=
  match part_count, fuel with
  | 0, _ => Some (Some resolved)
  | _, 0 => None
  | S count, S fuel =>
      match rest with
      | [] => Some None
      | None :: Some link :: rest => resolve_from fuel rest part_count resolved (<[link := Some resolved]> seen)
      | None :: _ => Some None
      | Some name :: rest =>
          if bool_decide (name = "") || bool_decide (name = ".") then resolve_from fuel rest count resolved seen
          else if bool_decide (name = "..") then resolve_from fuel rest count (parent resolved) seen
          else
            let next := child resolved name in
            match entry next with
            | NoLink => resolve_from fuel rest count next seen
            | link =>
                match seen !! next with
                | Some (Some target) => resolve_from fuel rest count target seen
                | Some None => resolve_from fuel rest count next seen
                | None =>
                    match link with
                    | NotText => Some None
                    | Link target =>
                        let parts := split_slash target in
                        resolve_from fuel ((Some <$> parts) ++ None :: Some next :: rest) (count + length parts)
                          (if starts_with "/" target then "/" else resolved) (<[next := None]> seen)
                    | _ => resolve_from fuel rest count next seen
                    end
                end
            end
      end
  end.

(** Source: crates/dagayn-tools/src/pypath.rs 12-84 [realpath]. *)
Definition realpath (fuel : nat) (current_dir : option string) (path : string) : option (option string) :=
  if bool_decide (Ascii.zero ∈ String.list_ascii_of_string path) then Some None
  else
    match (if starts_with "/" path then Some "/" else current_dir) with
    | None => Some None
    | Some start => let parts := split_slash path in resolve_from fuel (Some <$> parts) (length parts) start ∅
    end.

(** Every link is opened once, and costs its parts, its marker and its path. *)
Definition cost (p : string) : nat := match target_of (entry p) with Some t => 2 + length (split_slash t) | None => 0 end.
Definition fuel_of (links : gset string) (path : string) : nat := length (split_slash path) + sum_list (cost <$> elements links).

(** ** Following links

    A place is the list of its components, the innermost first. *)

Fixpoint path_at (cs : list string) : string := match cs with [] => "/" | n :: cs => child (path_at cs) n end.

Definition no_slash (n : string) : Prop := split_slash n = [n].
Definition plain (n : string) : Prop := no_slash n ∧ n ∉ [""; "."; ".."].

(** What is left to follow after one name from a place. *)
Definition follow (cs : list string) (n : string) : list string * list string :=
  if bool_decide (n ∈ [""; "."]) then (cs, [])
  else if bool_decide (n = "..") then (tail cs, [])
  else
    match target_of (entry (path_at (n :: cs))) with
    | Some t => (if starts_with "/" t then [] else cs, split_slash t)
    | None => (n :: cs, [])
    end.

Inductive step : list string * list string → list string * list string → Prop :=
  | step_name cs n rest : step (cs, n :: rest) ((follow cs n).1, (follow cs n).2 ++ rest).

(** The names lead from a place to another. *)
Definition leads (cs names r : list string) : Prop := rtc step (cs, names) (r, []).

(** A name whose links never end. *)
Definition endless (cs : list string) (n : string) : Prop := ∀ rest r, ¬ leads cs (n :: rest) r.

(** ** Lemmas on paths *)

Lemma path_parts cs : Forall plain cs → split_slash (path_at cs) = "" :: match cs with [] => [""] | _ => rev cs end.
Proof using Type.
  induction cs as [|n cs IH]; [done|]. intros [[Hn Hd] Hcs]%Forall_cons. specialize (IH Hcs). cbn [path_at]. unfold child. case_bool_decide as Hroot.
  - destruct cs as [|m cs].
    { change ("/" +:+ n) with ("" +:+ "/" +:+ n). by rewrite ImpactSpec.split_slash_app, Hn. }
    exfalso. rewrite Hroot in IH. apply (f_equal (λ l, rev (tail l))) in IH. cbn [tail] in IH. rewrite rev_involutive in IH. injection IH as <- <-.
    apply Forall_cons in Hcs as [[_ Hm] _]. by apply Hm; left.
  - rewrite ImpactSpec.split_slash_app, IH, Hn. by destruct cs.
Qed.

Lemma path_inj cs ds : Forall plain cs → Forall plain ds → path_at cs = path_at ds → cs = ds.
Proof using Type.
  assert (Hroot : ∀ l, Forall plain l → rev l = [""] → l = []).
  { intros l Hl Heq. apply (f_equal (@rev _)) in Heq. rewrite rev_involutive in Heq. subst l. apply Forall_cons in Hl as [[_ Hm] _]. by destruct Hm; left. }
  intros Hc Hd Heq. apply (f_equal split_slash) in Heq. rewrite !path_parts in Heq by done. apply (f_equal tail) in Heq. cbn [tail] in Heq.
  destruct cs as [|c cs], ds as [|d ds]; [done|by symmetry; apply Hroot|by apply Hroot|].
  apply (f_equal (@rev _)) in Heq. by rewrite !rev_involutive in Heq.
Qed.

Lemma rsplit_last a n : no_slash n → CommunityNames.rsplit_once slash (a +:+ "/" +:+ n) = Some (a, n).
Proof using Type.
  intros Hn. assert (Hnone : CommunityNames.rsplit_once slash n = None).
  { unfold no_slash in Hn. induction n as [|c n IH]; [done|]. rewrite ImpactSpec.split_slash_step in Hn. cbn [CommunityNames.rsplit_once].
    destruct (ImpactSpec.split_slash_cons n) as (p & ps & Hp). rewrite Hp in Hn. case_bool_decide; [done|]. injection Hn as -> ->. by rewrite IH. }
  induction a as [|c a IH].
  - change ("" +:+ "/" +:+ n) with (String slash n). cbn [CommunityNames.rsplit_once]. rewrite Hnone. by rewrite bool_decide_eq_true_2.
  - rewrite app_cons. cbn [CommunityNames.rsplit_once]. by rewrite IH.
Qed.

Lemma parent_at cs : Forall plain cs → parent (path_at cs) = path_at (tail cs).
Proof using Type.
  intros Hcs. destruct cs as [|n cs]; [done|]. apply Forall_cons in Hcs as [[Hn _] Hcs]. cbn [path_at tail]. unfold parent.
  destruct (decide (path_at cs = "/")) as [Hroot|Hroot]; unfold child.
  - rewrite (bool_decide_eq_true_2 (path_at cs = "/")), Hroot by done. change ("/" +:+ n) with ("" +:+ "/" +:+ n). by rewrite rsplit_last.
  - rewrite (bool_decide_eq_false_2 (path_at cs = "/")), rsplit_last by done. rewrite bool_decide_eq_false_2; [done|]. intros Hempty.
    destruct cs as [|m cs]; [done|]. cbn [path_at] in Hempty. unfold child in Hempty. case_bool_decide; [done|]. by destruct (path_at cs).
Qed.

Lemma split_no_slash s : Forall no_slash (split_slash s).
Proof using Type.
  induction s as [|c s IH]; [repeat constructor|]. rewrite ImpactSpec.split_slash_step. case_bool_decide as Hc; [by constructor|].
  destruct (ImpactSpec.split_slash_cons s) as (p & ps & Hp). rewrite Hp in IH |- *. apply Forall_cons in IH as [Hn Hps]. constructor; [|done].
  unfold no_slash in *. by rewrite ImpactSpec.split_slash_step, bool_decide_eq_false_2, Hn.
Qed.

(** ** Lemmas on following links *)

Lemma step_framed K x y : step x y → step (x.1, x.2 ++ K) (y.1, y.2 ++ K).
Proof using Type. intros [cs n rest]. cbn. rewrite <-app_assoc. constructor. Qed.

Lemma step_frame x y K : rtc step x y → rtc step (x.1, x.2 ++ K) (y.1, y.2 ++ K).
Proof using Type. apply (rtc_congruence (λ z, (z.1, z.2 ++ K))), step_framed. Qed.

Lemma nsteps_frame k x y K : nsteps step k x y → nsteps step k (x.1, x.2 ++ K) (y.1, y.2 ++ K).
Proof using Type. apply (nsteps_congruence (λ z, (z.1, z.2 ++ K))), step_framed. Qed.

(** From one state there is one way on. *)
Lemma steps_split j k x y cs : nsteps step j x y → nsteps step k x (cs, []) → j ≤ k ∧ nsteps step (k - j) y (cs, []).
Proof using Type.
  intros Hj. revert k. induction Hj as [x|m x y z Hxy Hyz IH]; intros k Hk; [rewrite Nat.sub_0_r; split; [lia|done]|].
  destruct k as [|k]; [inversion Hk; subst; inversion Hxy|]. inversion Hk as [|? ? u ? Hxu Hu]; subst.
  destruct Hxy as [d name rest]. inversion Hxu; subst. destruct (IH k Hu) as [Hle Hrest]. split; [lia|done].
Qed.

Lemma leads_step cs names d l r : rtc step (cs, names) (d, l) → leads cs names r ↔ leads d l r.
Proof using Type.
  intros Hs. unfold leads. split; [|intros Hr; by etrans].
  intros Hr. apply rtc_nsteps in Hs as [j Hj]. apply rtc_nsteps in Hr as [k Hk]. destruct (steps_split _ _ _ _ _ Hj Hk) as [_ H].
  by eapply rtc_nsteps_2.
Qed.

(** A name that leads back to itself never ends. *)
Lemma loop_endless cs n rest : tc step (cs, [n]) (cs, n :: rest) → endless cs n.
Proof using Type.
  intros (j & Hj & Hloop)%tc_nsteps K r (k & Hk)%rtc_nsteps. revert K Hk. induction k as [k IH] using lt_wf_ind; intros K Hk.
  apply (nsteps_frame _ _ _ K) in Hloop. cbn in Hloop. destruct (steps_split _ _ _ _ _ Hloop Hk) as [Hle Hnext].
  by apply (IH (k - j) ltac:(lia) (rest ++ K)).
Qed.

(** ** The walk's invariant *)

(** A link being followed, and what stands on the stack below its mark. *)
Record Frame := mkFrame { f_dir : list string; f_name : string; below : list string }.

Definition f_path (f : Frame) : string := path_at (f_name f :: f_dir f).

Fixpoint marks (frames : list Frame) : list (option string) :=
  match frames with [] => [] | f :: frames => None :: Some (f_path f) :: (Some <$> below f) ++ marks frames end.
Definition stack (seg : list string) (frames : list Frame) : list (option string) := (Some <$> seg) ++ marks frames.
Definition total (seg : list string) (frames : list Frame) : list string := seg ++ concat (below <$> frames).

(** The names above the mark of each link. *)
Fixpoint aboves (above : list string) (frames : list Frame) : list (Frame * list string) :=
  match frames with [] => [] | f :: frames => (f, above) :: aboves (above ++ below f) frames end.

Definition dead (d l : list string) : Prop := ∀ K r, ¬ leads d (l ++ K) r.

(** Every link on the way to the place is endless. *)
Definition good (cs : list string) : Prop :=
  Forall plain cs ∧ ∀ n d, (n :: d) `suffix_of` cs → target_of (entry (path_at (n :: d))) ≠ None → endless d n.

(** One name was taken, or stands for a way that does not end. *)
Definition moved (cs : list string) (x : string) (cs' new : list string) : Prop := endless cs x ∨ rtc step (cs, [x]) (cs', new).

Lemma dead_end d l cs x B : rtc step (d, l) (cs, x :: B) → endless cs x → dead d l.
Proof using Type.
  intros Hs He K r Hr. apply (step_frame _ _ K) in Hs. cbn in Hs. apply (He (B ++ K) r). by apply (leads_step _ _ _ _ _ Hs).
Qed.

Lemma main_moves d l cs x B cs' new :
  moved cs x cs' new → dead d l ∨ rtc step (d, l) (cs, x :: B) → dead d l ∨ rtc step (d, l) (cs', new ++ B).
Proof using Type.
  intros Hm [Hd|Hs]; [by left|]. destruct Hm as [He|Hm]; [left; by eapply dead_end|right].
  etrans; [exact Hs|]. apply (step_frame _ _ B Hm).
Qed.

Definition reach (cs : list string) (fa : Frame * list string) : Prop :=
  dead (f_dir fa.1) [f_name fa.1] ∨ tc step (f_dir fa.1, [f_name fa.1]) (cs, fa.2).

Lemma frames_move cs x B frames cs' new :
  moved cs x cs' new → Forall (reach cs) (aboves (x :: B) frames) → Forall (reach cs') (aboves (new ++ B) frames).
Proof using Type.
  intros Hm. revert B. induction frames as [|f frames IH]; intros B; cbn [aboves]; [constructor|].
  intros [Hf Hfs]%Forall_cons. constructor; [|rewrite <-app_assoc; by apply IH].
  destruct Hf as [Hd|Hs]; [by left|]. destruct Hm as [He|Hm]; [left; eapply dead_end, He; by apply tc_rtc|right].
  eapply tc_rtc_r; [exact Hs|]. apply (step_frame _ _ B Hm).
Qed.

Section walk.
Context (c0 parts : list string).

Record walking (count : nat) (seen : gmap string (option string)) (cs seg : list string) (frames : list Frame) : Prop := mkWalking {
  w_count : count = length (total seg frames);
  w_good : good cs;
  w_names : Forall no_slash (total seg frames);
  w_main : dead c0 parts ∨ rtc step (c0, parts) (cs, total seg frames);
  w_frames : Forall (reach cs) (aboves seg frames);
  w_plain : Forall (λ f, Forall plain (f_name f :: f_dir f)) frames;
  w_open p : seen !! p = Some None → ∃ f, f ∈ frames ∧ p = f_path f;
  w_dom : Forall (λ f, f_path f ∈ dom seen) frames;
  w_done p q : seen !! p = Some (Some q) → ∃ d n cs', p = path_at (n :: d) ∧ Forall plain (n :: d) ∧ q = path_at cs' ∧ good cs' ∧ moved d n cs' []
}.

Lemma walking_move count seen cs x B frames cs' :
  walking (S count) seen cs (x :: B) frames → moved cs x cs' [] → good cs' → walking count seen cs' B frames.
Proof using Type.
  intros [Hc Hg Hn Hm Hf Hp Ho Hdom Hd] Hx Hg'. unfold total in *. cbn in Hc. injection Hc as Hc. split; try done.
  - by apply Forall_cons in Hn as [_ Hn].
  - by apply (main_moves _ _ _ _ _ _ _ Hx Hm).
  - by apply (frames_move _ _ _ _ _ [] Hx Hf).
Qed.

(** The target of a link goes on top. *)
Lemma walking_open count seen cs x B frames t :
  walking (S count) seen cs (x :: B) frames → plain x → target_of (entry (path_at (x :: cs))) = Some t →
  walking (count + length (split_slash t)) (<[path_at (x :: cs) := None]> seen) (if starts_with "/" t then [] else cs)
    (split_slash t) (mkFrame cs x B :: frames).
Proof using Type.
  intros [Hc Hg Hn Hm Hf Hp Ho Hdom Hd] Hplain Ht. unfold total in *. cbn in Hc. injection Hc as Hc.
  assert (Hfollow : follow cs x = (if starts_with "/" t then [] else cs, split_slash t)).
  { unfold follow. destruct Hplain as [_ Hx]. rewrite bool_decide_eq_false_2, bool_decide_eq_false_2, Ht by set_solver. done. }
  assert (Hstep : step (cs, [x]) (if starts_with "/" t then [] else cs, split_slash t)).
  { pose proof (step_name cs x []) as Hs. by rewrite Hfollow, app_nil_r in Hs. }
  assert (Hmoved : moved cs x (if starts_with "/" t then [] else cs) (split_slash t)) by (right; by apply rtc_once).
  split.
  - unfold total. cbn. rewrite Hc, !length_app. lia.
  - destruct (starts_with _ _); [|done]. split; [constructor|]. intros n d Hs. by apply suffix_nil_inv in Hs.
  - unfold total. cbn. apply Forall_app. split; [|by apply Forall_cons in Hn as [_ Hn]]. apply split_no_slash.
  - by apply (main_moves _ _ _ _ _ _ _ Hmoved Hm).
  - cbn [aboves]. constructor; [right; by apply tc_once|]. by apply (frames_move _ _ _ _ _ _ Hmoved Hf).
  - constructor; [|done]. constructor; [done|apply Hg].
  - intros p [[<- _]|[_ Hin]]%lookup_insert_Some; [eexists; split; [by left|done]|].
    destruct (Ho p Hin) as (f & Hfin & ->). exists f. split; [by right|done].
  - constructor; [rewrite dom_insert; set_solver|]. eapply Forall_impl; [exact Hdom|]. intros f. rewrite dom_insert. set_solver.
  - intros p q [[_ ?]|[_ Hin]]%lookup_insert_Some; [done|]. by apply Hd.
Qed.

(** A target is done with. *)
Lemma walking_close count seen cs f frames :
  walking count seen cs [] (f :: frames) → walking count (<[f_path f := Some (path_at cs)]> seen) cs (below f) frames.
Proof using Type.
  intros [Hc Hg Hn Hm Hf Hp Ho Hdom Hd]. cbn [aboves app] in Hf. apply Forall_cons in Hf as [Hr Hf], Hp as [Hpf Hp], Hdom as [Hdf Hdom].
  split; try done.
  - intros p [[_ ?]|[Hne Hin]]%lookup_insert_Some; [done|]. destruct (Ho p Hin) as (f' & [->|Hfin]%elem_of_cons & ->); [done|by exists f'].
  - eapply Forall_impl; [exact Hdom|]. intros f'. rewrite dom_insert. set_solver.
  - intros p q [[<- [= <-]]|[_ Hin]]%lookup_insert_Some; [|by apply Hd]. exists (f_dir f), (f_name f), cs. split_and!; try done.
    destruct Hr as [He|Hr]; [left; intros K r; apply He|right; by apply tc_rtc].
Qed.

End walk.

(** ** The walk ends *)

Context (links : gset string).

Definition budget (seen : gmap string (option string)) : nat := sum_list (cost <$> elements (links ∖ dom seen)).

Lemma budget_open seen p v : p ∈ links → p ∉ dom seen → budget seen = cost p + budget (<[p := v]> seen).
Proof using Type.
  intros Hp Hs. unfold budget. assert (Hu : links ∖ dom seen = {[p]} ∪ links ∖ dom (<[p := v]> seen)).
  { rewrite dom_insert_L. apply set_eq. intros q. destruct (decide (q = p)); set_solver. }
  rewrite Hu, elements_disj_union by (rewrite dom_insert_L; set_solver). by rewrite elements_singleton.
Qed.

Lemma budget_known seen p v : p ∈ dom seen → budget (<[p := v]> seen) = budget seen.
Proof using Type. intros Hp. unfold budget. rewrite dom_insert_L. by replace ({[p]} ∪ dom seen) with (dom seen) by set_solver. Qed.

Context (links_all : ∀ p, target_of (entry p) ≠ None → p ∈ links).
Context (links_text : ∀ p, entry p ≠ NotText).

Lemma follow_dot cs x : x = "" ∨ x = "." → moved cs x cs [].
Proof using Type.
  intros Hx. right. apply rtc_once. pose proof (step_name cs x []) as Hs. unfold follow in Hs.
  by rewrite (bool_decide_eq_true_2 (x ∈ _)) in Hs by (destruct Hx as [->| ->]; repeat constructor).
Qed.

Lemma follow_up cs : moved cs ".." (tail cs) [].
Proof using Type. right. apply rtc_once. exact (step_name cs ".." []). Qed.

Lemma follow_plain cs x : plain x → target_of (entry (path_at (x :: cs))) = None → moved cs x (x :: cs) [].
Proof using Type.
  intros [_ Hx] Ht. right. apply rtc_once. pose proof (step_name cs x []) as Hs. unfold follow in Hs.
  by rewrite bool_decide_eq_false_2, bool_decide_eq_false_2, Ht in Hs by (clear -Hx; set_solver).
Qed.

Lemma good_cons cs x : good cs → plain x → (target_of (entry (path_at (x :: cs))) ≠ None → endless cs x) → good (x :: cs).
Proof using Type.
  intros [Hp Hl] Hx He. split; [by constructor|]. intros n d Hs. destruct (suffix_cons_inv _ _ _ _ Hs) as [[= -> ->]|Hs']; [done|by apply Hl].
Qed.

Lemma good_tail cs : good cs → good (tail cs).
Proof using Type.
  intros [Hp Hl]. destruct cs as [|n cs]; [done|]. apply Forall_cons in Hp as [_ Hp]. split; [done|].
  intros m d Hs. apply Hl. by apply suffix_cons_r.
Qed.

(** A link met again while it is being followed leads back to itself. *)
Lemma open_endless c0 parts count seen cs x B frames :
  walking c0 parts count seen cs (x :: B) frames → plain x → seen !! path_at (x :: cs) = Some None → endless cs x.
Proof using Type.
  intros [_ Hg _ _ Hf Hp Ho _ _] Hx Hs. destruct (Ho _ Hs) as (f & Hin & Heq).
  rewrite Forall_forall in Hp. specialize (Hp f Hin). apply path_inj in Heq; [|by constructor; [|apply Hg]|done]. injection Heq as -> ->.
  assert (Hr : ∃ A, reach (f_dir f) (f, f_name f :: A)).
  { clear -Hf Hin. revert B Hf. induction frames as [|g frames IH]; intros B Hf; [by apply not_elem_of_nil in Hin|].
    cbn [aboves] in Hf. apply Forall_cons in Hf as [Hg Hf]. apply elem_of_cons in Hin as [->|Hin]; [by exists B|].
    by apply (IH Hin (B ++ below g)). }
  destruct Hr as [A [Hd|Hloop]]; [intros K r; apply Hd|by eapply loop_endless].
Qed.

Lemma walk_ends c0 parts fuel count seen cs seg frames :
  walking c0 parts count seen cs seg frames → length (stack seg frames) + budget seen ≤ fuel →
  ∃ cs', resolve_from fuel (stack seg frames) count (path_at cs) seen = Some (Some (path_at cs')) ∧ good cs' ∧
         (dead c0 parts ∨ rtc step (c0, parts) (cs', [])).
Proof using links_all links_text.
  revert count seen cs seg frames. induction fuel as [|fuel IH]; intros count seen cs seg frames Hw Hfuel.
  all: destruct count as [|count]; [exists cs; pose proof (w_count _ _ _ _ _ _ _ Hw) as Hc;
    split; [done|split; [apply Hw|]]; pose proof (w_main _ _ _ _ _ _ _ Hw) as Hm; by destruct (total seg frames)|].
  { exfalso. destruct seg as [|x B]; [|cbn in Hfuel; lia]. destruct frames; [|cbn in Hfuel; lia]. by pose proof (w_count _ _ _ _ _ _ _ Hw). }
  destruct seg as [|x B].
  { destruct frames as [|f frames]; [by pose proof (w_count _ _ _ _ _ _ _ Hw)|]. pose proof (w_dom _ _ _ _ _ _ _ Hw) as [Hdf _]%Forall_cons.
    change (stack [] (f :: frames)) with (None :: Some (f_path f) :: stack (below f) frames). cbn [resolve_from]. apply IH; [by apply walking_close|]. rewrite budget_known by done. unfold stack in *. cbn in Hfuel. lia. }
  assert (Hgo : ∀ cs', moved cs x cs' [] → good cs' → ∃ cs'', resolve_from fuel (stack B frames) count (path_at cs') seen = Some (Some (path_at cs'')) ∧
      good cs'' ∧ (dead c0 parts ∨ rtc step (c0, parts) (cs'', []))).
  { intros cs' Hm Hg. apply IH; [by eapply walking_move|]. unfold stack in *. cbn in Hfuel. lia. }
  pose proof (w_good _ _ _ _ _ _ _ Hw) as Hg.
  change (stack (x :: B) frames) with (Some x :: stack B frames). cbn [resolve_from].
  destruct (decide (x = "" ∨ x = ".")) as [Hdot|Hdot].
  { replace (bool_decide (x = "") || bool_decide (x = ".")) with true by (by destruct Hdot as [->| ->]). apply Hgo; [by apply follow_dot|done]. }
  rewrite !(bool_decide_eq_false_2 (x = _)) by tauto. cbn [orb]. case_bool_decide as Hup.
  { subst x. rewrite parent_at by apply Hg. apply Hgo; [apply follow_up|by apply good_tail]. }
  assert (Hplain : plain x).
  { split; [by pose proof (w_names _ _ _ _ _ _ _ Hw) as [Hn _]%Forall_cons|]. clear -Hdot Hup. set_solver. }
  change (child (path_at cs) x) with (path_at (x :: cs)).
  assert (Hend : endless cs x → ∃ cs'', resolve_from fuel (stack B frames) count (path_at (x :: cs)) seen = Some (Some (path_at cs'')) ∧
      good cs'' ∧ (dead c0 parts ∨ rtc step (c0, parts) (cs'', []))).
  { intros He. apply Hgo; [by left|by apply good_cons]. }
  assert (Hleaf : target_of (entry (path_at (x :: cs))) = None → ∃ cs'', resolve_from fuel (stack B frames) count (path_at (x :: cs)) seen = Some (Some (path_at cs'')) ∧
      good cs'' ∧ (dead c0 parts ∨ rtc step (c0, parts) (cs'', []))).
  { intros Ht. apply Hgo; [by apply follow_plain|by apply good_cons]. }
  pose proof (links_text (path_at (x :: cs))) as Htext. pose proof (links_all (path_at (x :: cs))) as Hin.
  destruct (seen !! path_at (x :: cs)) as [[q|]|] eqn:Hseen.
  - destruct (w_done _ _ _ _ _ _ _ Hw _ _ Hseen) as (d & n & cs' & Hpath & Hpn & -> & Hg' & Hm).
    apply path_inj in Hpath; [|by constructor; [|apply Hg]|done]. injection Hpath as <- <-.
    destruct (entry _); [by apply Hleaf|by apply Hgo|by apply Hgo|by apply Hgo].
  - pose proof (open_endless _ _ _ _ _ _ _ _ Hw Hplain Hseen) as He. destruct (entry _); by apply Hend.
  - destruct (entry (path_at (x :: cs))) as [| | |t] eqn:He; [by apply Hleaf|by apply Hleaf|done|].
    pose proof (walking_open _ _ _ _ _ _ _ _ t Hw Hplain ltac:(by rewrite He)) as Hopen. apply IH in Hopen as Hrun.
    2:{ rewrite (budget_open seen (path_at (x :: cs)) None) in Hfuel by (first [by apply Hin | by apply not_elem_of_dom]). unfold cost in Hfuel. rewrite He in Hfuel.
        unfold stack in *. cbn [fmap list_fmap app length target_of] in Hfuel. cbn [marks below]. rewrite length_app, length_fmap. cbn [length]. lia. }
    by destruct (starts_with "/" t).
Qed.

Lemma good_leads cs K r : good cs → leads [] (rev cs ++ K) r → leads cs K r.
Proof using Type.
  revert K. induction cs as [|n cs IH]; intros K Hg Hr; [done|]. cbn [rev] in Hr. rewrite <-app_assoc in Hr. cbn in Hr.
  specialize (IH _ (good_tail _ Hg) Hr). destruct Hg as [[Hp _]%Forall_cons Hl].
  destruct (target_of (entry (path_at (n :: cs)))) eqn:Ht; [by destruct (Hl n cs ltac:(done) ltac:(by rewrite Ht) K r)|].
  destruct (follow_plain cs n Hp Ht) as [He|Hs]; [by destruct (He K r)|]. apply (step_frame _ _ K) in Hs. by apply (leads_step _ _ _ _ _ Hs).
Qed.

Lemma realpath_ends current_dir path c0 :
  Ascii.zero ∉ String.list_ascii_of_string path →
  (if starts_with "/" path then c0 = []
   else current_dir = Some (path_at c0) ∧ Forall plain c0 ∧ ∀ n d, (n :: d) `suffix_of` c0 → target_of (entry (path_at (n :: d))) = None) →
  ∃ cs, realpath (fuel_of links path) current_dir path = Some (Some (path_at cs)) ∧ Forall plain cs ∧
    (leads c0 (split_slash path) cs ∨ ∀ r, ¬ leads c0 (split_slash path) r) ∧
    ∀ r, leads [] (rev cs) r → r = cs.
Proof using links_all links_text.
  intros Hnul Hstart. unfold realpath. rewrite bool_decide_eq_false_2 by done.
  assert (Hc0 : good c0 ∧ (if starts_with "/" path then Some "/" else current_dir) = Some (path_at c0)).
  { destruct (starts_with "/" path); [subst c0; split; [|done]; split; [constructor|]; intros n d Hs; by apply suffix_nil_inv in Hs|].
    destruct Hstart as (-> & Hp & Hl). split; [|done]. split; [done|]. intros n d Hs Ht. by rewrite Hl in Ht. }
  destruct Hc0 as [Hg ->].
  destruct (walk_ends c0 (split_slash path) (fuel_of links path) (length (split_slash path)) ∅ c0 (split_slash path) []) as (cs & Hrun & Hgood & Hmain).
  - split; unfold total; cbn [concat fmap list_fmap]; rewrite ?app_nil_r; try done; [apply split_no_slash|by right].
  - unfold stack, budget, fuel_of. cbn [marks]. by rewrite app_nil_r, length_fmap, dom_empty_L, difference_empty_L.
  - unfold stack in Hrun. cbn [marks] in Hrun. rewrite app_nil_r in Hrun. exists cs. split; [done|]. split; [apply Hgood|]. split.
    + destruct Hmain as [Hd|Hs]; [right; intros r Hr; apply (Hd [] r); by rewrite app_nil_r|by left].
    + intros r Hr. rewrite <-(app_nil_r (rev cs)) in Hr. apply good_leads in Hr; [|done]. apply rtc_inv in Hr as [[= ->]|(y & Hy & _)]; [done|].
      inversion Hy.
Qed.

(** C33: Where every link's target is text, resolving a path ends, whatever links
    there are, with an absolute path that has no empty, [.] or [..] component.  When following the links of the
    path ends, the result is where it ends; when it does not, no path would do.
    Either way, opening the result leads to itself or nowhere: each link left on
    it goes round for ever.  So what is checked of a resolved path, such as that
    it lies inside a directory, holds of what is opened by it. *)
Theorem realpath_spec current_dir path c0 :
  Ascii.zero ∉ String.list_ascii_of_string path →
  (if starts_with "/" path then c0 = []
   else current_dir = Some (path_at c0) ∧ Forall plain c0 ∧ ∀ n d, (n :: d) `suffix_of` c0 → target_of (entry (path_at (n :: d))) = None) →
  ∃ cs, realpath (fuel_of links path) current_dir path = Some (Some (path_at cs)) ∧ Forall plain cs ∧
    (leads c0 (split_slash path) cs ∨ ∀ r, ¬ leads c0 (split_slash path) r) ∧
    ∀ r, leads [] (rev cs) r → r = cs.
Proof using links_all links_text. apply realpath_ends. Qed.

(** ** Edits of resolved paths *)

(** [None] is a path no file has, or one that is not text.

    Source: crates/dagayn-tools/src/apply.rs 68-77 [resolve]. *)
Definition resolve (root file : string) : option string :=
  let joined := if starts_with "/" file then file else root +:+ "/" +:+ file in
  default None (realpath (fuel_of links joined) None joined).

(** The edits of a refactoring change files inside the root only, through
    whatever links they are named: opening the path that is written leads to
    that path. *)
Theorem edits_stay_inside writable utf8 root dry edits fs fs' answer q :
  starts_with "/" root = true → Apply.apply_edits writable utf8 (resolve root) root dry edits fs = Some (fs', answer) → fs' !! q ≠ fs !! q →
  ∃ cs, q = path_at cs ∧ Apply.inside root q = true ∧ ∀ r, leads [] (rev cs) r → r = cs.
Proof using links_all links_text.
  intros Hroot Happly Hq. destruct (proj1 (Apply.apply_edits_inside _ _ _ _ _ _ _ _ _ Happly) q Hq) as (_ & _ & Hin & _ & e & _ & Hr).
  unfold resolve in Hr. set (joined := if starts_with "/" _ then _ else _) in Hr.
  assert (Habs : starts_with "/" joined = true).
  { unfold joined. destruct (starts_with "/" (Apply.edit_file e)) eqn:Hf; [done|].
    destruct root as [|c root]; [done|]. unfold starts_with in *. rewrite app_cons, ImpactSpec.prefix_cons. rewrite ImpactSpec.prefix_cons in Hroot.
    destruct (Ascii.ascii_dec _ _) in Hroot |- *; [|done]. by destruct (root +:+ _). }
  destruct (decide (Ascii.zero ∈ String.list_ascii_of_string joined)) as [Hz|Hz].
  { unfold realpath in Hr. by rewrite bool_decide_eq_true_2 in Hr. }
  destruct (realpath_ends None joined [] Hz) as (cs & Hrun & _ & _ & Hopen); [by rewrite Habs|].
  rewrite Hrun in Hr. injection Hr as <-. by exists cs.
Qed.

End realpath.

(** ** Joining without following *)

Definition kept_part (p : string) : Prop := p ≠ "" ∧ p ≠ ".".
#[local] Instance kept_part_dec p : Decision (kept_part p).
Proof. unfold kept_part. apply _. Defined.

(** Source: crates/dagayn-tools/src/pypath.rs 95-109 [pure_join]. *)
Definition pure_path (combined : string) : string :=
  let prefix :=
    if starts_with "//" combined && negb (starts_with "///" combined) then "//" else if starts_with "/" combined then "/" else "" in
  let parts := filter kept_part (split_slash combined) in
  if bool_decide (prefix = "") && bool_decide (parts = []) then "." else prefix +:+ Impact.join_slash parts.

(** Source: crates/dagayn-tools/src/pypath.rs 86-110 [pure_join]. *)
Definition pure_join (base tail : string) : string :=
  pure_path (if starts_with "/" tail || bool_decide (base = "") then tail else base +:+ "/" +:+ tail).

Lemma split_joined parts : Forall no_slash parts → parts ≠ [] → split_slash (Impact.join_slash parts) = parts.
Proof.
  induction parts as [|p [|q ps] IH]; [done|by intros [Hp _]%Forall_cons|]. intros [Hp Hps]%Forall_cons _.
  change (Impact.join_slash (p :: q :: ps)) with (p +:+ "/" +:+ Impact.join_slash (q :: ps)).
  by rewrite ImpactSpec.split_slash_app, Hp, IH.
Qed.

(** What is joined starts with the first part, if any. *)
Lemma join_head parts :
  Forall no_slash parts → Forall kept_part parts → parts = [] ∨ ∃ c s, Impact.join_slash parts = String c s ∧ c ≠ Ascii.ascii_of_nat 47.
Proof.
  intros Hn Hk. destruct parts as [|p ps]; [by left|right]. apply Forall_cons in Hn as [Hn _], Hk as [[Hk _] _].
  destruct p as [|c p]; [done|]. exists c. assert (Hc : c ≠ Ascii.ascii_of_nat 47).
  { intros ->. unfold no_slash in Hn. by rewrite ImpactSpec.split_slash_step, bool_decide_eq_true_2 in Hn. }
  destruct ps as [|q ps]; [by exists p|]. by eexists.
Qed.

(** A joined path is in normal form: joining it again changes nothing. *)
Lemma pure_join_normal base tail : pure_join "" (pure_join base tail) = pure_join base tail.
Proof.
  unfold pure_join at 1. rewrite (bool_decide_eq_true_2 ("" = "")), orb_true_r by done. unfold pure_join.
  set (combined := if _ || _ then _ else _). clearbody combined. clear base tail.
  set (parts := filter kept_part (split_slash combined)).
  assert (Hn : Forall no_slash parts).
  { apply Forall_forall. intros p [_ Hp]%list_elem_of_filter. pose proof (split_no_slash combined) as Hs. rewrite Forall_forall in Hs. by apply Hs. }
  assert (Hk : Forall kept_part parts) by (apply Forall_forall; by intros p [Hp _]%list_elem_of_filter).
  assert (Hparts : ∀ pre, pre = "" ∨ pre = "/" ∨ pre = "//" → filter kept_part (split_slash (pre +:+ Impact.join_slash parts)) = parts).
  { assert (Hjoin : filter kept_part (split_slash (Impact.join_slash parts)) = parts).
    { destruct (decide (parts = [])) as [->|Hne]; [done|]. rewrite split_joined by done. apply EdgePass.filter_all. by rewrite <-Forall_forall. }
    intros pre [->|[->| ->]]; [done|exact Hjoin|exact Hjoin]. }
  unfold pure_path at 2 3. fold parts. set (pre := if starts_with "//" _ && _ then _ else _).
  assert (Hpre : pre = "" ∨ pre = "/" ∨ pre = "//") by (unfold pre; destruct (_ && _); [|destruct (starts_with _ _)]; auto).
  clearbody pre. specialize (Hparts pre Hpre). destruct (join_head parts Hn Hk) as [Hnil|(c & s & Hjoin & Hc)].
  { rewrite Hnil in *. by destruct Hpre as [->|[->| ->]]. }
  assert (Hne : parts ≠ []) by (intros Hnil; by rewrite Hnil in Hjoin). rewrite (bool_decide_eq_false_2 (parts = [])), andb_false_r by done.
  unfold pure_path. rewrite Hparts, (bool_decide_eq_false_2 (parts = [])), andb_false_r by done. f_equal. rewrite Hjoin.
  unfold starts_with. destruct Hpre as [->|[->| ->]]; rewrite ?app_cons; change ("" +:+ String c s) with (String c s);
    rewrite !ImpactSpec.prefix_cons, ?ImpactSpec.prefix_cons; destruct (Ascii.ascii_dec _ c) as [Heq|]; try done; by destruct Hc.
Qed.

(** ** A link and a loop *)

#[local] Definition demo_entry (p : string) : Entry :=
  if bool_decide (p = "/d/link") then Link "real" else if bool_decide (p = "/d/loop") then Link "./loop" else NoLink.
#[local] Definition demo_links : gset string := {["/d/link"; "/d/loop"]}.

(** Links are followed, and a loop stays. *)
Example resolved_demo :
  realpath demo_entry (fuel_of demo_entry demo_links "/d/x/../link/f") None "/d/x/../link/f" = Some (Some "/d/real/f") ∧
  realpath demo_entry (fuel_of demo_entry demo_links "/d/loop/f") None "/d/loop/f" = Some (Some "/d/loop/f").
Proof. vm_compute. done. Qed.

Lemma realpath_spec_witness :
  ∃ cs, realpath demo_entry (fuel_of demo_entry demo_links "/d/loop/../link/f") None "/d/loop/../link/f" = Some (Some (path_at cs)) ∧
    path_at cs = "/d/real/f" ∧ ∀ r, leads demo_entry [] (rev cs) r → r = cs.
Proof.
  assert (Hall : ∀ p, target_of (demo_entry p) ≠ None → p ∈ demo_links).
  { intros p. unfold demo_entry, demo_links. case_bool_decide; [set_solver|]. case_bool_decide; [set_solver|done]. }
  assert (Htext : ∀ p, demo_entry p ≠ NotText) by (intros p; unfold demo_entry; by repeat case_bool_decide).
  destruct (realpath_spec demo_entry demo_links Hall Htext None "/d/loop/../link/f" []) as (cs & Hrun & _ & _ & Hopen); [|done|].
  - apply (bool_decide_eq_false_1 (_ ∈ _)). vm_compute. reflexivity.
  - exists cs. split; [exact Hrun|]. split; [|exact Hopen].
    assert (Hsome : Some (Some (path_at cs)) = Some (Some "/d/real/f")) by (rewrite <-Hrun; vm_compute; reflexivity). by injection Hsome.
Defined.

End Realpath.
