(* ===== verification/TerraformModule.v ===== *)
(** * References within a Terraform module

    Models crates/dagayn-graph/src/postprocess/terraform.rs: the files of one
    directory are one module, so a reference by a bare name goes to the only
    declaration of that name in the directory. *)
From S2P Require Import Prelude GraphData Store StoreSpec EdgePass Visibility.
Import GraphData Store StoreSpec EdgePass Visibility.

Module TerraformModule.

#[local] Set Default Proof Using "Type".

(** 0.8.

    Source: crates/dagayn-graph/src/postprocess/terraform.rs 4-5 [TERRAFORM_MODULE_SCOPE_CONFIDENCE]. *)
Definition TERRAFORM_MODULE_SCOPE_CONFIDENCE : f64 := SpecFloat.S754_finite false 7205759403792794 (-53).

(** Source: crates/dagayn-graph/src/postprocess/terraform.rs 7-10 [terraform_module_dir]. *)
Definition terraform_module_dir (file_path : string) : string :=
  match rsplit_once slash file_path with Some (dir, _) => dir | None => "" end.

Section terraform.
Context {F : Type}.
(** Rows without [ORDER BY]. *)
Context (unordered : ∀ A, list A → list A).

#[local] Abbreviation Graph := (GraphStore (F := F)).

(** A declaration of a module, as the index reads it. *)
Definition declared (r : NodeRow) : bool := bool_decide (language (vals r) = "terraform") && negb (bool_decide (kind (vals r) = "File")).

Definition push_declaration (index : gmap string (list (string * string))) (r : NodeRow) : gmap string (list (string * string)) :=
  <[name (vals r) := default [] (index !! name (vals r)) ++ [(terraform_module_dir (file_path (vals r)), qualified_name (vals r))]]> index.

(** Source: crates/dagayn-graph/src/postprocess/terraform.rs 25-41 [resolve_terraform_module_references]. *)
Definition module_index (s : Graph) : gmap string (list (string * string)) :=
  foldl push_declaration ∅ (unordered _ (filter (λ r, declared r = true) (nodes s))).

(** A bare reference in a Terraform file.

    Source: crates/dagayn-graph/src/postprocess/terraform.rs 42-51 [resolve_terraform_module_references]. *)
Definition bare_reference (s : Graph) (e : EdgeRow) : bool :=
  bool_decide (e_kind (e_vals e) = "REFERENCES") && bool_decide (split_colons (target_qualified (e_vals e)) = None)
  && existsb (λ f, bool_decide (qualified_name (vals f) = e_file_path (e_vals e)) && bool_decide (kind (vals f) = "File")
                   && bool_decide (language (vals f) = "terraform")) (nodes s).

(** Source: crates/dagayn-graph/src/postprocess/terraform.rs 53-61 [resolve_terraform_module_references]. *)
Definition module_target (index : gmap string (list (string * string))) (e : EdgeRow) : option string :=
  candidates ← index !! target_qualified (e_vals e);
  match filter (λ c, c.1 = terraform_module_dir (e_file_path (e_vals e))) candidates with
  | [(_, qualified)] => Some qualified
  | _ => None
  end.

Definition bound (qualified : string) : Resolution := (qualified, TERRAFORM_MODULE_SCOPE_CONFIDENCE, High).

Definition reference_step (index : gmap string (list (string * string))) (st : Graph * nat) (e : EdgeRow) : Graph * nat :=
  match module_target index e with
  | Some qualified => (set_call_target (edge_id e) (bound qualified) st.1, S st.2)
  | None => st
  end.

(** Source: crates/dagayn-graph/src/postprocess/terraform.rs 23-75 [resolve_terraform_module_references]. *)
Definition resolve_terraform_module_references (s : Graph) : Graph * nat :=
  foldl (reference_step (module_index s)) (s, 0) (unordered _ (filter (λ e, bare_reference s e = true) (edges s))).

(** ** What is bound *)

Hypothesis unordered_perm : ∀ A (l : list A), unordered A l ≡ₚ l.

(** The declarations of a name in a module. *)
Definition declarations (s : Graph) (dir declaration : string) : list NodeRow :=
  filter (λ r, declared r = true ∧ name (vals r) = declaration ∧ terraform_module_dir (file_path (vals r)) = dir) (nodes s).

Definition entry (r : NodeRow) : string * string := (terraform_module_dir (file_path (vals r)), qualified_name (vals r)).

Lemma index_fold (rows : list NodeRow) (m : gmap string (list (string * string))) q :
  default [] (foldl push_declaration m rows !! q) = default [] (m !! q) ++ (entry <$> filter (λ r, name (vals r) = q) rows).
Proof.
  revert m. induction rows as [|r rows IH]; intros m; cbn [foldl]; [by rewrite app_nil_r|]. rewrite IH, filter_cons. unfold push_declaration.
  destruct (decide (name (vals r) = q)) as [<-|Hn]; [|by rewrite lookup_insert_ne].
  rewrite lookup_insert_eq. cbn. by rewrite <-app_assoc.
Qed.

Definition only {A B} (f : A → B) (l : list A) : option B := match l with [x] => Some (f x) | _ => None end.

Lemma only_perm {A B} (f : A → B) (l l' : list A) : l ≡ₚ l' → only f l = only f l'.
Proof.
  intros Hl. destruct l as [|x [|y l]].
  - by apply Permutation_nil_l in Hl as ->.
  - by apply Permutation_singleton_l in Hl as ->.
  - destruct l' as [|x' [|y' l']]; [| |done]; by apply Permutation_length in Hl.
Qed.

Lemma target_found (s : Graph) e :
  module_target (module_index s) e =
  only (λ r, qualified_name (vals r)) (declarations s (terraform_module_dir (e_file_path (e_vals e))) (target_qualified (e_vals e))).
Proof using Type unordered_perm.
  set (q := target_qualified (e_vals e)). set (dir := terraform_module_dir _).
  assert (Hl : filter (λ c, c.1 = dir) (default [] (module_index s !! q)) ≡ₚ entry <$> declarations s dir q).
  { unfold module_index. rewrite index_fold, lookup_empty. cbn [default from_option app]. rewrite unordered_perm.
    rewrite filter_of_fmap, !list_filter_filter. apply fmap_Permutation. unfold declarations.
    rewrite (list_filter_iff _ (λ r, declared r = true ∧ name (vals r) = q ∧ terraform_module_dir (file_path (vals r)) = dir)); [done|].
    intros r. unfold entry. cbn. tauto. }
  unfold module_target. fold q dir. destruct (module_index s !! q) as [cs|]; cbn [mbind option_bind default from_option id] in *.
  - transitivity (only snd (filter (λ c, c.1 = dir) cs)); [by destruct (filter _ cs) as [|[a b] [|]]|].
    rewrite (only_perm _ _ _ Hl). by destruct (declarations s dir q) as [|r [|r' l]].
  - cbn in Hl. symmetry in Hl. apply Permutation_nil_r in Hl. by destruct (declarations s dir q).
Qed.

(** What the pass does to one edge. *)
Definition reference_answer (s : Graph) (e : EdgeRow) : option Resolution :=
  if bare_reference s e
  then bound <$> only (λ r, qualified_name (vals r)) (declarations s (terraform_module_dir (e_file_path (e_vals e))) (target_qualified (e_vals e)))
  else None.

Lemma reference_pass (s : Graph) :
  NoDup (edge_id <$> edges s) →
  resolve_terraform_module_references s =
    (set_edges (changed (retarget (reference_answer s)) <$> edges s) (edge_seq s) s,
     length (filter (λ e, is_Some (reference_answer s e)) (edges s))).
Proof using Type unordered_perm.
  intros Hnd. unfold resolve_terraform_module_references. set (l := unordered _ _).
  assert (Hl : l ≡ₚ filter (λ e, bare_reference s e = true) (edges s)) by apply unordered_perm.
  rewrite (foldl_ext_elem _ (pass_step (retarget (reference_answer s)))).
  - rewrite (pass_spec (retarget (reference_answer s)) _ l s Hnd Hl).
    + by rewrite retarget_counts.
    + intros e _ He. unfold retarget, reference_answer. by destruct (bare_reference s e); [destruct He|].
  - intros st e He. rewrite Hl in He. apply list_elem_of_filter in He as [He _].
    unfold reference_step, pass_step, retarget, reference_answer. rewrite He, target_found. by destruct (only _ _).
Qed.

(** A declaration that a bare reference in a file of the same module means. *)
Definition means (s : Graph) (e : EdgeRow) (r : NodeRow) : Prop :=
  r ∈ nodes s ∧ language (vals r) = "terraform" ∧ kind (vals r) ≠ "File" ∧ name (vals r) = target_qualified (e_vals e) ∧
  terraform_module_dir (file_path (vals r)) = terraform_module_dir (e_file_path (e_vals e)).

Lemma means_declarations (s : Graph) e r :
  r ∈ declarations s (terraform_module_dir (e_file_path (e_vals e))) (target_qualified (e_vals e)) ↔ means s e r.
Proof.
  unfold declarations, means, declared. rewrite list_elem_of_filter, andb_true_iff, bool_decide_eq_true, negb_true_iff, bool_decide_eq_false. tauto.
Qed.

Lemma only_means (s : Graph) e q :
  NoDup (nodes s) →
  only (λ r, qualified_name (vals r)) (declarations s (terraform_module_dir (e_file_path (e_vals e))) (target_qualified (e_vals e))) = Some q ↔
  ∃ r, means s e r ∧ qualified_name (vals r) = q ∧ ∀ r', means s e r' → r' = r.
Proof.
  intros Hnd. setoid_rewrite <-means_declarations. set (l := declarations _ _ _).
  assert (Hl : NoDup l) by by apply NoDup_filter. clearbody l. destruct l as [|x [|y l]]; cbn [only].
  - split; [done|]. by intros (r & ?%not_elem_of_nil & _).
  - split.
    + intros [= <-]. exists x. split_and!; [left|done|]. by intros r' ?%list_elem_of_singleton.
    + by intros (r & ->%list_elem_of_singleton & <- & _).
  - split; [done|]. intros (r & _ & _ & Hu). apply NoDup_cons in Hl as [Hx _]. destruct Hx.
    rewrite (Hu x ltac:(left)), <-(Hu y ltac:(right; left)). left.
Qed.

(** The pass over Terraform references binds a bare reference in a Terraform
    file exactly when its directory declares that name once, to that
    declaration, and changes no other edge; a name that is declared twice stays
    bare.  The count is of the edges bound, and a second run binds none. *)
Theorem terraform_references_spec (s : Graph) :
  NoDup (edge_id <$> edges s) → NoDup (ids (nodes s)) →
  (∀ r, r ∈ nodes s → kind (vals r) ≠ "File" → split_colons (qualified_name (vals r)) ≠ None) →
  let '(s', n) := resolve_terraform_module_references s in
  s' = set_edges (edges s') (edge_seq s) s ∧
  (∀ i e, edges s !! i = Some e → ∃ e', edges s' !! i = Some e' ∧
     (e' = e ∧ ¬ (bare_reference s e = true ∧ ∃ r, means s e r ∧ ∀ r', means s e r' → r' = r) ∨
      bare_reference s e = true ∧ ∃ r, means s e r ∧ (∀ r', means s e r' → r' = r) ∧
        e' = mkEdgeRow (edge_id e) (with_target (bound (qualified_name (vals r))) (e_vals e)))) ∧
  length (edges s') = length (edges s) ∧ n = length (filter (λ e, is_Some (reference_answer s e)) (edges s)) ∧
  resolve_terraform_module_references s' = (s', 0).
Proof using Type unordered_perm.
  intros Hnd Hids Hnames. assert (Hnn : NoDup (nodes s)) by exact (NoDup_fmap_1 _ _ Hids).
  pose proof (reference_pass s Hnd) as Hrun. destruct (resolve_terraform_module_references s) as [s' n]. injection Hrun as -> ->.
  cbn [edges set_edges]. split_and!; [done| |by rewrite length_fmap|done|].
  - intros i e Hi. exists (changed (retarget (reference_answer s)) e). split; [by rewrite list_lookup_fmap, Hi|].
    unfold changed, retarget, reference_answer. destruct (bare_reference s e) eqn:Hb; cbn [fmap option_fmap option_map]; [|left; split; [done|by intros []]].
    destruct (only _ _) as [q|] eqn:Ho; cbn [fmap option_fmap option_map].
    + right. apply (only_means s e q Hnn) in Ho as (r & Hm & <- & Hu). split; [done|]. by exists r.
    + left. split; [done|]. intros (_ & r & Hm & Hu).
      assert (Hs : only (λ r, qualified_name (vals r)) (declarations s (terraform_module_dir (e_file_path (e_vals e))) (target_qualified (e_vals e))) = Some (qualified_name (vals r)))
        by (apply (only_means s e _ Hnn); by exists r). congruence.
  - set (s' := set_edges _ _ s).
    assert (Hnone : ∀ e, e ∈ edges s' → reference_answer s' e = None).
    { intros e' (e & -> & He)%list_elem_of_fmap. change (reference_answer s') with (reference_answer s).
      unfold changed, retarget. destruct (reference_answer s e) as [[[q c] t]|] eqn:Ha; [|done]. cbn [fmap option_fmap option_map].
      unfold reference_answer in Ha. destruct (bare_reference s e); [|done]. destruct (only _ _) as [q'|] eqn:Ho; [|done]. injection Ha as <- <- <-.
      apply (only_means s e q' Hnn) in Ho as (r & (Hr & _ & Hk & _) & <- & _). specialize (Hnames r Hr Hk).
      unfold reference_answer, bare_reference. cbn [e_vals with_target bound target_qualified]. by rewrite (bool_decide_eq_false_2 _ Hnames), andb_false_r. }
    rewrite reference_pass by (unfold s'; cbn [edges set_edges]; by rewrite changed_ids). f_equal.
    + apply set_edges_id. intros e He. unfold changed, retarget. by rewrite (Hnone e He).
    + rewrite filter_nothing; [done|]. intros e He [x Hx]. by rewrite (Hnone e He) in Hx.
Qed.

End terraform.

(** ** A module of two files *)

#[local] Definition block (id : Z) (kind name file : string) : NodeRow :=
  mkNodeRow id (mkNodeVals kind name (make_qualified_parts kind name file None) file 1 1 "terraform" None None None None false "h" 0 "{}" one) None None.
#[local] Definition reference (id : Z) (target file : string) : EdgeRow :=
  mkEdgeRow id (mkEdgeVals "REFERENCES" file target target file 1 "{}" one "EXTRACTED" one).
#[local] Definition module_store : GraphStore (F := unit) :=
  set_edges [reference 1 "var.region" "net/main.tf"; reference 2 "var.size" "net/main.tf"; reference 3 "var.region" "main.tf"] 3
    (set_nodes [block 1 "File" "net/main.tf" "net/main.tf"; block 2 "Type" "var.region" "net/variables.tf";
                block 3 "Type" "var.size" "net/variables.tf"; block 4 "Type" "var.size" "net/override.tf";
                block 5 "File" "main.tf" "main.tf"] 5 (new_store true)).

(** [var.region] is bound in its module and not from another; [var.size] is
    declared twice. *)
Lemma terraform_references_spec_witness :
  let '(s', n) := resolve_terraform_module_references (λ _ l, l) module_store in
  (target_qualified ∘ e_vals <$> edges s', n) = (["net/variables.tf::var.region"; "var.size"; "var.region"], 1) ∧
  resolve_terraform_module_references (λ _ l, l) s' = (s', 0).
Proof.
  pose proof (terraform_references_spec (λ _ l, l) (λ _ l, reflexivity l) module_store) as H.
  assert (Hrun : let '(s', n) := resolve_terraform_module_references (λ _ l, l) module_store in
    (target_qualified ∘ e_vals <$> edges s', n) = (["net/variables.tf::var.region"; "var.size"; "var.region"], 1)) by (vm_compute; reflexivity).
  destruct (resolve_terraform_module_references (λ _ l, l) module_store) as [s' n]. split; [exact Hrun|].
  apply H.
  - apply (bool_decide_eq_true_1 (NoDup _)). vm_compute. reflexivity.
  - apply (bool_decide_eq_true_1 (NoDup _)). vm_compute. reflexivity.
  - intros r Hr Hk. unfold module_store in Hr. cbn [nodes set_edges set_nodes] in Hr. rewrite !elem_of_cons in Hr.
    destruct Hr as [->|[->|[->|[->|[->|Hr]]]]]; [by destruct Hk|by vm_compute..|by destruct Hk|by apply not_elem_of_nil in Hr].
Defined.

End TerraformModule.
