(* ===== verification/Rename.v ===== *)
(** * Renaming a symbol

    Models the rename mode of crates/dagayn-tools/src/refactor.rs, the store of
    pending refactorings of pending.rs and how apply.rs takes a preview from it:
    where the edits of a rename are, how they are written down and read back, and
    what the files hold after they are applied.  Full-text search, the file
    system, the clock and the tables of Unicode are parameters. *)
From S2P Require Import Prelude GraphData Store StoreSpec EdgePass Impact StoreGraph Difflib Apply RenameLines DiffRanges.
Import GraphData Store Impact.

Module Rename.

#[local] Set Default Proof Using "Type".

#[local] Abbreviation text := (list N).

(** ** JSON *)

Inductive Number := PosInt (n : N) | NegInt (z : Z) | Float (x : f64).

Inductive Doc :=
  | Null | Bool (b : bool) | Num (n : Number) | Str (s : string) | Array (items : list Doc) | Object (members : list (string * Doc)).

(** What a printed document is read back as: integers of 64 bits, no double that
    is not finite, and the members of an object in the order of their keys. *)
Fixpoint ascending (keys : list string) : bool :=
  match keys with key :: ((next :: _) as rest) => String.ltb key next && ascending rest | _ => true end.
Definition finite (x : f64) : bool :=
  match x with SpecFloat.S754_finite _ m e => SpecFloat.bounded 53 1024 m e | SpecFloat.S754_zero _ => true | _ => false end.
Definition number_kept (n : Number) : bool :=
  match n with PosInt n => (n <? 2 ^ 64)%N | NegInt z => (- 2 ^ 63 <=? z)%Z && (z <? 0)%Z | Float x => finite x end.
Fixpoint kept (v : Doc) : bool :=
  match v with
  | Null | Bool _ | Str _ => true
  | Num n => number_kept n
  | Array items => forallb kept items
  | Object members => ascending members.*1 && forallb (λ m, kept m.2) members
  end.

(** [value.get(key)]. *)
Definition get (v : Doc) (key : string) : option Doc :=
  match v with Object members => snd <$> List.find (λ m, bool_decide (m.1 = key)) members | _ => None end.

Definition as_str (v : Doc) : option string := match v with Str s => Some s | _ => None end.

(** [Number::as_i64] and [as_f64]: integers are rounded to a double. *)
Definition as_i64 (n : Number) : option Z :=
  match n with
  | PosInt n => if (Z.of_N n <? 2 ^ 63)%Z then Some (Z.of_N n) else None
  | NegInt z => Some z
  | Float _ => None
  end.
Definition as_f64 (n : Number) : f64 :=
  match n with
  | PosInt n => SpecFloat.binary_normalize 53 1024 (Z.of_N n) 0 false
  | NegInt z => SpecFloat.binary_normalize 53 1024 z 0 false
  | Float x => x
  end.

(** [line.trunc()] of a finite double, as an integer. *)
Definition truncated (s : bool) (m : positive) (e : Z) : Z :=
  let n := if (0 <=? e)%Z then (Z.pos m * 2 ^ e)%Z else (Z.pos m / 2 ^ (- e))%Z in if s then (- n)%Z else n.

(** [json!] of an [i64]. *)
Definition number_of (z : Z) : Number := if (z <? 0)%Z then NegInt z else PosInt (Z.to_N z).

(** ** Edits as JSON *)

(** [None] is a document that is not an edit.

    Source: crates/dagayn-tools/src/apply.rs 32-47 [parse]. *)
Definition parse_line (v : option Doc) : option (option Z) :=
  match v with
  | None | Some Null => Some None
  | Some (Bool flag) => Some (Some (if flag then 1 else 0)%Z)
  | Some (Num number) =>
      match as_i64 number with
      | Some line => Some (Some line)
      | None =>
          match as_f64 number with
          | SpecFloat.S754_finite s m e =>
              let line := truncated s m e in
              if (9 * 10 ^ 15 <=? Z.abs line)%Z then None else Some (Some line)
          | SpecFloat.S754_infinity _ => None
          | _ => Some (Some 0%Z)
          end
      end
  | Some _ => None
  end.

Section edits.
(** [str::chars]. *)
Context (chars_of : string → text).

(** Source: crates/dagayn-tools/src/apply.rs 28-55 [parse]. *)
Definition parse_edit (v : Doc) : option Apply.Edit :=
  match v with
  | Object _ =>
      line ← parse_line (get v "line");
      file ← get v "file" ≫= as_str; old ← get v "old" ≫= as_str; new ← get v "new" ≫= as_str;
      Some (Apply.mkEdit file line (chars_of old) (chars_of new))
  | _ => None
  end.

(** A place to edit and the evidence for it. *)
Record Site := mkSite { s_file : string; s_line : Z; s_confidence : string; s_source : string; s_edge_kind : option string }.

(** Source: crates/dagayn-tools/src/refactor.rs 404-408 [rename]. *)
Definition edit_value (old new : string) (s : Site) : Doc :=
  Object ([("confidence", Str (s_confidence s))] ++ match s_edge_kind s with Some kind => [("edge_kind", Str kind)] | None => [] end
          ++ [("file", Str (s_file s)); ("line", Num (number_of (s_line s))); ("new", Str new); ("old", Str old);
              ("source", Str (s_source s))]).

(** The edit that a place is read back as. *)
Definition edit_of (old new : string) (s : Site) : Apply.Edit := Apply.mkEdit (s_file s) (Some (s_line s)) (chars_of old) (chars_of new).

Lemma parse_edit_value old new s :
  (- 2 ^ 63 ≤ s_line s < 2 ^ 63)%Z → parse_edit (edit_value old new s) = Some (edit_of old new s).
Proof.
  intros Hl.
  assert (Hline : parse_line (Some (Num (number_of (s_line s)))) = Some (Some (s_line s))).
  { unfold parse_line, number_of, as_i64. destruct (Z.ltb_spec (s_line s) 0); [done|].
    rewrite Z2N.id by lia. by rewrite (proj2 (Z.ltb_lt _ _)) by lia. }
  assert (Hget : ∀ key v, key = "file" ∧ v = Str (s_file s) ∨ key = "line" ∧ v = Num (number_of (s_line s)) ∨
                          key = "old" ∧ v = Str old ∨ key = "new" ∧ v = Str new → get (edit_value old new s) key = Some v).
  { intros key v Hv. unfold edit_value, get. by destruct (s_edge_kind s), Hv as [[-> ->]|[[-> ->]|[[-> ->]|[-> ->]]]]. }
  pose proof (Hget "file" _ ltac:(eauto)) as Hfile. pose proof (Hget "old" _ ltac:(eauto)) as Hold.
  pose proof (Hget "new" _ ltac:(eauto)) as Hnew. pose proof (Hget "line" _ ltac:(eauto)) as Hln.
  unfold parse_edit. change (edit_value old new s) with (Object (match edit_value old new s with Object m => m | _ => [] end)) at 1.
  cbv beta iota. by rewrite Hln, Hfile, Hold, Hnew, Hline.
Qed.

End edits.

(** ** Names *)

Section names.
(** The characters of Python's [\w] and [\d]. *)
Context (is_word is_digit : N → bool).

(** Source: crates/dagayn-tools/src/refactor.rs 303-308 [is_valid_identifier]. *)
Definition is_valid_identifier (name : text) : bool :=
  let name := match rev name with 10%N :: rest => rev rest | _ => name end in
  match name with c :: rest => is_word c && negb (is_digit c) && forallb is_word rest | [] => false end.

(** Source: crates/dagayn-tools/src/pyunicode.rs 90-94 [is_word_boundary]. *)
Definition is_word_boundary (t : text) (index : nat) : bool :=
  let word_at i := match t !! i with Some c => is_word c | None => false end in
  let before := (0 <? index) && word_at (index - 1) in
  let after := word_at index in negb (Bool.eqb before after).

(** Source: crates/dagayn-tools/src/pyunicode.rs 97-108 [contains_bounded]. *)
Definition contains_bounded (t word : text) : bool :=
  if length t <? length word then false
  else existsb (λ start, bool_decide (take (length word) (drop start t) = word) && is_word_boundary t start
                         && is_word_boundary t (start + length word)) (seq 0 (S (length t - length word))).

(** A name without a final newline is one of word characters. *)
Lemma valid_identifier name : is_valid_identifier name = true → last name ≠ Some 10%N → name ≠ [] ∧ Forall (λ c, is_word c = true) name.
Proof.
  unfold is_valid_identifier. intros Hv Hl.
  assert (Hs : match rev name with 10%N :: rest => rev rest | _ => name end = name).
  { destruct name as [|c name _] using rev_ind; [done|]. rewrite rev_app_distr. cbn. rewrite last_snoc in Hl.
    destruct (decide (c = 10%N)) as [->|Hc]; [done|]. repeat (case_match; try done). }
  rewrite Hs in Hv. destruct name as [|c rest]; [done|]. split; [done|].
  rewrite !andb_true_iff, forallb_forall in Hv. destruct Hv as [[Hc _] Hr]. constructor; [done|].
  apply Forall_forall. intros x Hx. by apply Hr, list_elem_of_In.
Qed.

End names.

(** ** Where the edits are *)

(** The places already edited, and the edits.

    Source: crates/dagayn-tools/src/refactor.rs 400-409 [rename]. *)
Definition add (st : gset (string * Z) * list Site) (site : Site) : gset (string * Z) * list Site :=
  let '(seen, edits) := st in
  if bool_decide ((s_file site, s_line site) ∈ seen) then st
  else ({[(s_file site, s_line site)]} ∪ seen, edits ++ [site]).

(** One edit for each place, the first of the evidence for it. *)
Definition place (site : Site) : string * Z := (s_file site, s_line site).

Lemma add_places sites seen edits :
  (∀ p, p ∈ seen ↔ p ∈ place <$> edits) → NoDup (place <$> edits) →
  let '(_, edits') := foldl add (seen, edits) sites in
  NoDup (place <$> edits') ∧ (∀ p, p ∈ place <$> edits' ↔ p ∈ place <$> edits ∨ p ∈ place <$> sites) ∧
  (∀ e, e ∈ edits' ↔ e ∈ edits ∨ (place e ∉ place <$> edits ∧ ∃ i, sites !! i = Some e ∧ ∀ j e', j < i → sites !! j = Some e' → place e' ≠ place e)).
Proof.
  revert seen edits. induction sites as [|x sites IH]; intros seen edits Hseen Hnd; cbn [foldl].
  { split_and!; [done|intros p; set_solver|]. intros e. split; [by left|]. intros [?|(_ & i & Hi & _)]; [done|by destruct i]. }
  unfold add at 2. case_bool_decide as Hx.
  - specialize (IH seen edits Hseen Hnd). destruct (foldl add _ sites) as [seen' edits']. destruct IH as (H1 & H2 & H3).
    apply Hseen in Hx. split_and!; [done| |].
    + intros p. rewrite H2, fmap_cons, elem_of_cons. unfold place at 5. naive_solver.
    + intros e. rewrite H3. split; (intros [?|(Hne & i & Hi & Hj)]; [by left|]); right; (split; [done|]).
      * exists (S i). split; [done|]. intros [|j] e' Hlt Hl; [|by apply (Hj j); [lia|]]. cbn in Hl. injection Hl as <-. intros Heq. apply Hne. by rewrite <-Heq.
      * destruct i as [|i]; [by injection Hi as ->|]. exists i. split; [done|]. intros j e' Hlt Hl. by apply (Hj (S j)); [lia|].
  - specialize (IH ({[place x]} ∪ seen) (edits ++ [x])). unfold place in IH at 1. destruct (foldl add _ sites) as [seen' edits'].
    assert (Hnx : place x ∉ place <$> edits) by by rewrite <-Hseen.
    destruct IH as (H1 & H2 & H3).
    { intros p. rewrite elem_of_union, elem_of_singleton, Hseen, fmap_app, elem_of_app, (list_fmap_singleton place), list_elem_of_singleton. tauto. }
    { rewrite fmap_app. apply NoDup_app. split_and!; [done| |apply NoDup_singleton]. intros p Hp ->%list_elem_of_singleton. done. }
    split_and!; [done| |].
    + intros p. rewrite H2, fmap_app, (list_fmap_singleton place), elem_of_app, list_elem_of_singleton, fmap_cons, elem_of_cons. tauto.
    + intros e.
      rewrite H3, fmap_app, !elem_of_app, (list_fmap_singleton place), !list_elem_of_singleton. split.
      * intros [[?| ->]|(Hne & i & Hi & Hj)]; [by left| |].
        -- right. split; [done|]. exists 0. split; [done|]. intros j e' Hlt. lia.
        -- right. split; [tauto|]. exists (S i). split; [done|]. intros [|j] e' Hlt Hl; [|by apply (Hj j); [lia|]].
           cbn in Hl. injection Hl as <-. intros Heq. apply Hne. by right.
      * intros [?|(Hne & [|i] & Hi & Hj)]; [by left; left|left; right; by injection Hi|]. right. split.
        -- intros [?|Heq]; [done|]. by apply (Hj 0 x); [lia| |].
        -- exists i. split; [done|]. intros j e' Hlt Hl. by apply (Hj (S j)); [lia|].
Qed.

Section preview.
Context `{Json} {F : Type} (canonicalize : string → option string) (unordered : ∀ A, list A → list A).
(** Full-text search; the text of a file, decoded with replacement characters;
    [Path::join]. *)
Context (search_nodes : string → nat → option (list GraphNode)) (read_text : string → option text) (join : string → string → string).
Context (chars_of : string → text) (is_word is_digit : N → bool).

#[local] Abbreviation Graph := (GraphStore (F := F)).

Fixpoint first_ids (seen : gset Z) (edges : list GraphEdge) : list GraphEdge :=
  match edges with
  | [] => []
  | e :: edges => if bool_decide (g_id e ∈ seen) then first_ids seen edges else e :: first_ids ({[g_id e]} ∪ seen) edges
  end.

(** Source: crates/dagayn-graph/src/schema.rs 42-61 [get_edges_by_endpoint]. *)
Definition get_edges_by_target (s : Graph) (qualified_name : string) : Result (list GraphEdge) :=
  edges ← try_map edge_from_row
    (StoreGraph.qualified_key_candidates canonicalize s qualified_name ≫= λ key,
       unordered _ (filter (λ e, target_qualified (e_vals e) = key) (edges s)));
  inl (first_ids ∅ edges).

(** Source: crates/dagayn-graph/src/edge_lookups.rs 157-164 [search_edges_by_target_name]. *)
Definition search_edges_by_target_name (s : Graph) (name kind : string) : Result (list GraphEdge) :=
  try_map edge_from_row (unordered _ (filter (λ e, target_name (e_vals e) = name ∧ e_kind (e_vals e) = kind) (edges s))).

(** Source: crates/dagayn-graph/src/edge_lookups.rs 197-208 [search_import_edges_for_symbol]. *)
Definition search_import_edges_for_symbol (s : Graph) (defining_file : string) : Result (list GraphEdge) :=
  try_map edge_from_row (unordered _
    (filter (λ e, e_kind (e_vals e) = "IMPORTS_FROM" ∧ target_qualified (e_vals e) ∈ file_key_candidates canonicalize s defining_file) (edges s))).

(** The first of the paths whose text has the line decides.

    Source: crates/dagayn-tools/src/refactor.rs 328-341 [import_mentions]. *)
Fixpoint line_mentions (paths : list string) (line : Z) (symbol : string) : bool :=
  match paths with
  | [] => false
  | path :: paths =>
      match read_text path with
      | None => line_mentions paths line symbol
      | Some t =>
          match (if (0 <=? line - 1)%Z then DiffRanges.splitlines t !! Z.to_nat (line - 1) else None) with
          | Some l => contains_bounded is_word l (chars_of symbol)
          | None => line_mentions paths line symbol
          end
      end
  end.

(** Source: crates/dagayn-tools/src/refactor.rs 311-343 [import_mentions]. *)
Definition import_mentions (s : Graph) (e : GraphEdge) (symbol : string) : bool :=
  if bool_decide (g_target_qualified e = symbol) || str_ends_with ("::" +:+ symbol) (g_target_qualified e) then true
  else
    let absolute := if is_absolute (g_file_path e) then [g_file_path e] else [] in
    let in_repo := match get_metadata "repo_root" s with Some root => [join root (g_file_path e)] | None => [] end in
    line_mentions (absolute ++ in_repo) (g_line e) symbol.

Definition site_of (confidence source : string) (e : GraphEdge) : Site :=
  mkSite (g_file_path e) (g_line e) confidence source (Some (g_kind e)).

(** Source: crates/dagayn-tools/src/refactor.rs 411-422 [rename]. *)
Definition use_site (e : GraphEdge) : option Site :=
  if bool_decide (g_kind e = "CALLS") then Some (site_of "high" "call" e)
  else if bool_decide (g_kind e = "REFERENCES") then Some (site_of "high" "reference" e)
  else None.

Definition definition_site (n : GraphNode) : Site := mkSite (n_file_path n) (n_line_start n) "high" "definition" None.

(** Every place the rename may edit, the strongest evidence first.

    Source: crates/dagayn-tools/src/refactor.rs 410-458 [rename]. *)
Definition rename_sites (s : Graph) (n : GraphNode) (old : string) : Result (list Site) :=
  users ← get_edges_by_target s (n_qualified_name n);
  bare ← search_edges_by_target_name s old "CALLS";
  imports ← search_import_edges_for_symbol s (n_file_path n);
  bare_imports ← search_edges_by_target_name s old "IMPORTS_FROM";
  inl ([definition_site n] ++ omap use_site users ++ (site_of "medium" "bare_call" <$> bare)
       ++ (site_of "high" "import" <$> filter (λ e, import_mentions s e old = true) imports)
       ++ (site_of "medium" "import" <$> filter (λ e, import_mentions s e old = true) bare_imports)).

(** Source: crates/dagayn-tools/src/refactor.rs 398-458 [rename]. *)
Definition rename_edits (s : Graph) (n : GraphNode) (old : string) : Result (list Site) :=
  sites ← rename_sites s n old; inl (foldl add (∅, []) sites).2.

End preview.

(** ** The pending store *)

(** Entries as JSON text, in the order they were first set. *)
Definition Pending : Type := list (string * string).

(** Source: crates/dagayn-tools/src/pending.rs 31-37 [set]. *)
Fixpoint set_entry (id json : string) (entries : Pending) : Pending :=
  match entries with
  | [] => [(id, json)]
  | (key, v) :: entries => if bool_decide (key = id) then (key, json) :: entries else (key, v) :: set_entry id json entries
  end.

(** Source: crates/dagayn-tools/src/pending.rs 40-45 [get]. *)
Definition get_entry (id : string) (entries : Pending) : option string := snd <$> List.find (λ m, bool_decide (m.1 = id)) entries.

(** Source: crates/dagayn-tools/src/pending.rs 47-51 [remove]. *)
Fixpoint remove_entry (id : string) (entries : Pending) : Pending :=
  match entries with
  | [] => []
  | (key, v) :: entries => if bool_decide (key = id) then entries else (key, v) :: remove_entry id entries
  end.

(** 600.0.

    Source: crates/dagayn-tools/src/pending.rs 12-13 [EXPIRY_SECONDS]. *)
Definition EXPIRY_SECONDS : f64 := SpecFloat.S754_finite false 5277655813324800 (-43).
Definition age (now created : f64) : f64 := SpecFloat.SFsub 53 1024 now created.

Lemma find_entry id (entries : Pending) v : NoDup entries.*1 → get_entry id entries = Some v ↔ (id, v) ∈ entries.
Proof.
  unfold get_entry. induction entries as [|[k w] l IH]; [split; [done|by intros ?%not_elem_of_nil]|].
  rewrite fmap_cons. intros [Hk Hnd]%NoDup_cons. cbn [List.find fst]. rewrite elem_of_cons. case_bool_decide as Heq.
  - subst. cbn. split; [by intros [= ->]; left|]. intros [[= ->]|Hin]; [done|]. destruct Hk. apply list_elem_of_fmap. by exists (id, v).
  - rewrite (IH Hnd). naive_solver.
Qed.

Lemma set_keys id json (entries : Pending) k : k ∈ (set_entry id json entries).*1 ↔ k = id ∨ k ∈ entries.*1.
Proof.
  induction entries as [|[k' w] l IH]; cbn [set_entry]; [cbn; rewrite list_elem_of_singleton, elem_of_nil; tauto|].
  case_bool_decide; subst; rewrite !fmap_cons, !elem_of_cons; cbn; [naive_solver|]. rewrite IH. naive_solver.
Qed.

Lemma set_distinct id json (entries : Pending) : NoDup entries.*1 → NoDup (set_entry id json entries).*1.
Proof.
  induction entries as [|[k w] l IH]; cbn [set_entry]; [intros _; apply NoDup_singleton|].
  rewrite fmap_cons. intros [Hk Hnd]%NoDup_cons. case_bool_decide as Heq; rewrite fmap_cons; apply NoDup_cons; split; try done; [|by apply IH].
  cbn. rewrite set_keys. naive_solver.
Qed.

Lemma set_in id json (entries : Pending) : (id, json) ∈ set_entry id json entries.
Proof.
  induction entries as [|[k w] l IH]; cbn [set_entry]; [by left|]. case_bool_decide as Heq; [subst; left|by right].
Qed.

Lemma removed_gone id (entries : Pending) : NoDup entries.*1 → get_entry id (remove_entry id entries) = None.
Proof.
  intros Hnd. destruct (get_entry id (remove_entry id entries)) as [v|] eqn:Hg; [|done]. exfalso.
  assert (Hsub : remove_entry id entries `sublist_of` entries).
  { clear. induction entries as [|[k w] l IH]; cbn; [done|]. case_bool_decide; by constructor. }
  apply find_entry in Hg; [|eapply sublist_NoDup; [exact Hnd|by apply fmap_sublist]].
  clear Hsub. induction entries as [|[k w] l IH]; [by apply not_elem_of_nil in Hg|]. rewrite fmap_cons in Hnd. apply NoDup_cons in Hnd as [Hk Hnd].
  cbn in Hg. case_bool_decide as Heq.
  - subst. apply Hk, list_elem_of_fmap. by exists (id, v).
  - apply elem_of_cons in Hg as [[= -> ->]|Hg]; [done|]. by apply IH.
Qed.

(** ** A preview and what applies it *)

Section session.
Context `{Json} {F : Type} (canonicalize : string → option string) (unordered : ∀ A, list A → list A).
Context (search_nodes : string → nat → option (list GraphNode)) (read_text : string → option text) (join : string → string → string).
Context (chars_of : string → text) (is_word is_digit : N → bool).
(** [serde_json::to_string] and [from_str]. *)
Context (print : Doc → string) (parse : string → option Doc).
(** The real path of a file under the root; [fs::write]; lines as UTF-8. *)
Context (resolve : string → option string) (root : string) (writable : string → bool) (utf8 : text → string).

#[local] Abbreviation Graph := (GraphStore (F := F)).
#[local] Abbreviation edits_for := (rename_edits canonicalize unordered read_text join chars_of is_word).

Definition created_at (v : Doc) : option f64 :=
  created ← get v "created_at"; match created with Num n => Some (as_f64 n) | _ => None end.

(** Source: crates/dagayn-tools/src/pending.rs 61-72 [cleanup_expired]. *)
Definition cleanup_expired (now : f64) (entries : Pending) : Pending :=
  filter (λ m, match parse m.2 ≫= created_at with
               | Some created => SpecFloat.SFleb (age now created) EXPIRY_SECONDS
               | None => true
               end = true) entries.

(** The members of a preview that applying it reads, its identifier and its type.

    Source: crates/dagayn-tools/src/refactor.rs 467-510 [rename]. *)
Definition preview_value (id old new : string) (created : f64) (sites : list Site) : Doc :=
  Object [("created_at", Num (Float created)); ("edits", Array (edit_value old new <$> sites)); ("refactor_id", Str id); ("type", Str "rename")].

Inductive RenameAnswer := InvalidName | NotFound | Previewed (n : GraphNode) (sites : list Site).

(** [None] is a failed query. A preview is kept whole, whatever of it is shown.
    The clock is read for the preview and then to drop what has expired.

    Source: crates/dagayn-tools/src/refactor.rs 360-519 [rename]. *)
Definition rename (now swept : f64) (id : string) (s : Graph) (old new : string) (entries : Pending) : option (Pending * RenameAnswer) :=
  if negb (is_valid_identifier is_word is_digit (chars_of new)) then Some (entries, InvalidName)
  else
    candidates ← search_nodes old 10;
    match (match List.find (λ c, bool_decide (n_name c = old)) candidates with Some c => Some c | None => head candidates end) with
    | None => Some (entries, NotFound)
    | Some n =>
        match edits_for s n old with
        | inr _ => None
        | inl sites => Some (set_entry id (print (preview_value id old new now sites)) (cleanup_expired swept entries), Previewed n sites)
        end
    end.

(** Source: crates/dagayn-tools/src/apply.rs 229-233 [apply_refactor]. *)
Definition preview_edits (preview : Doc) : option (list Apply.Edit) :=
  match get preview "edits" with
  | None | Some Null => Some []
  | Some (Array items) => mapM (parse_edit chars_of) items
  | Some _ => None
  end.

(** The clock is read twice: to drop what has expired, and for this preview.
    [None] is a request left to the Python side.

    Source: crates/dagayn-tools/src/apply.rs 217-370 [apply_refactor]. *)
Definition apply_refactor (now now' : f64) (id : string) (dry : bool) (entries : Pending) (fs : gmap string Apply.entry)
    : option (Pending * gmap string Apply.entry * (Apply.Outcome + string)) :=
  let entries := cleanup_expired now entries in
  match get_entry id entries with
  | None => Some (entries, fs, inr ("Refactor '" +:+ id +:+ "' not found or expired."))
  | Some raw =>
      preview ← parse raw;
      created ← created_at preview;
      if SpecFloat.SFltb EXPIRY_SECONDS (age now' created)
      then Some (remove_entry id entries, fs, inr ("Refactor '" +:+ id +:+ "' has expired."))
      else
        edits ← preview_edits preview;
        '(fs', answer) ← Apply.apply_edits writable utf8 resolve root dry edits fs;
        Some (match answer with
              | inl _ => if dry || bool_decide (edits = []) then entries else remove_entry id entries
              | inr _ => entries
              end, fs', answer)
  end.

(** ** What a rename does *)

Hypothesis parse_print : ∀ v, kept v = true → parse (print v) = Some v.

Lemma cleanup_sublist now (entries : Pending) : cleanup_expired now entries `sublist_of` entries.
Proof. apply sublist_filter. Qed.

Lemma cleanup_distinct now (entries : Pending) : NoDup entries.*1 → NoDup (cleanup_expired now entries).*1.
Proof. intros Hnd. eapply sublist_NoDup; [exact Hnd|]. apply fmap_sublist, cleanup_sublist. Qed.

Lemma parse_edits old new sites :
  Forall (λ s, - 2 ^ 63 ≤ s_line s < 2 ^ 63)%Z sites → mapM (parse_edit chars_of) (edit_value old new <$> sites) = Some (edit_of chars_of old new <$> sites).
Proof.
  induction 1 as [|x l Hx _ IH]; [done|]. cbn [fmap list_fmap mapM]. by rewrite (parse_edit_value chars_of old new x Hx), IH.
Qed.

Lemma preview_kept id old new created sites :
  finite created = true → Forall (λ s, - 2 ^ 63 ≤ s_line s < 2 ^ 63)%Z sites → kept (preview_value id old new created sites) = true.
Proof.
  clear parse_print. intros Hc Hs. set (edits := Array (edit_value old new <$> sites)). change (finite created && (kept edits && true) = true). rewrite Hc, andb_true_r.
  subst edits. cbn [kept]. apply forallb_forall. intros v (s & <- & Hin)%in_map_iff. apply list_elem_of_In in Hin.
  rewrite Forall_forall in Hs. specialize (Hs s Hin).
  assert (Hn : number_kept (number_of (s_line s)) = true).
  { unfold number_of. destruct (Z.ltb_spec (s_line s) 0); cbn; [rewrite andb_true_iff, Z.leb_le, Z.ltb_lt; lia|]. apply N.ltb_lt. lia. }
  unfold edit_value. set (n := number_of _) in *. by destruct (s_edge_kind s); cbn; rewrite Hn.
Qed.

Lemma preview_found id old new created sites now now' (entries : Pending) :
  finite created = true → Forall (λ s, - 2 ^ 63 ≤ s_line s < 2 ^ 63)%Z sites → NoDup entries.*1 → SpecFloat.SFleb (age now created) EXPIRY_SECONDS = true →
  get_entry id (cleanup_expired now (set_entry id (print (preview_value id old new created sites)) (cleanup_expired now' entries))) =
  Some (print (preview_value id old new created sites)).
Proof using parse_print.
  intros Hc Hs Hnd Hfresh. apply find_entry; [by apply cleanup_distinct, set_distinct, cleanup_distinct|].
  apply list_elem_of_filter. split; [|apply set_in]. cbn [snd]. rewrite parse_print by by apply preview_kept. exact Hfresh.
Qed.

Lemma resolve_all edits :
  (∀ e, e ∈ edits → ∃ p, resolve (Apply.edit_file e) = Some p ∧ Apply.inside root p = true) →
  ∃ l, Apply.resolve_edits resolve root edits = Some (inl l) ∧ l.*1 = edits.
Proof.
  induction edits as [|e edits IH]; intros Hin; [by exists []|]. cbn [Apply.resolve_edits].
  destruct (Hin e ltac:(left)) as (p & Hr & Hi). rewrite Hr. cbn [mbind option_bind]. rewrite Hi. cbn [negb].
  destruct IH as (l & -> & <-); [intros x Hx; apply Hin; by right|]. by exists ((e, p) :: l).
Qed.

Lemma edits_distinct (s : Graph) n old sites : edits_for s n old = inl sites → NoDup (place <$> sites) ∧ sites ≠ [].
Proof.
  clear parse_print. unfold rename_edits, rename_sites. intros Hrun.
  destruct (get_edges_by_target _ _ _ _) as [users|]; cbn [mbind result_bind rbind] in Hrun; [|done].
  destruct (search_edges_by_target_name _ _ _ "CALLS") as [bare|]; cbn [mbind result_bind rbind] in Hrun; [|done].
  destruct (search_import_edges_for_symbol _ _ _ _) as [imports|]; cbn [mbind result_bind rbind] in Hrun; [|done].
  destruct (search_edges_by_target_name _ _ _ "IMPORTS_FROM") as [others|]; cbn [mbind result_bind rbind] in Hrun; [|done].
  match type of Hrun with context [foldl add _ ?l] => remember l as all eqn:Hall end.
  assert (Hhd : place (definition_site n) ∈ place <$> all) by (rewrite Hall; apply list_elem_of_fmap_2; left).
  clear Hall. injection Hrun as <-.
  pose proof (add_places all ∅ [] (λ p, conj (λ Hp, match not_elem_of_empty p Hp with end) (λ Hp, match not_elem_of_nil p Hp with end)) NoDup_nil_2) as Hadd. destruct (foldl add _ all) as [seen edits].
  destruct Hadd as (H1 & H2 & _). split; [done|]. intros Hnil.
  assert (Hin : place (definition_site n) ∈ place <$> edits) by (apply H2; by right). cbn [snd] in Hnil. subst.
  by apply not_elem_of_nil in Hin.
Qed.

Lemma filter_resolved (l : list (Apply.Edit * string)) q :
  (∀ e p, (e, p) ∈ l → resolve (Apply.edit_file e) = Some p) →
  (filter (λ x, x.2 = q) l).*1 = filter (λ e, resolve (Apply.edit_file e) = Some q) l.*1.
Proof.
  clear parse_print. induction l as [|[e p] l IH]; intros Hl; [done|]. rewrite fmap_cons, !filter_cons. cbn [snd fst].
  rewrite <-IH by (intros e' p' Hin; apply Hl; by right). pose proof (Hl e p ltac:(left)) as He.
  destruct (decide (p = q)) as [->|Hne]; [by rewrite decide_True by done|]. by rewrite decide_False by congruence.
Qed.

(** The edits of one file. *)
Lemma group_of_file old new sites q t :
  chars_of old ≠ [] → Forall (λ c, Apply.is_ident c = true) (chars_of old) → chars_of new ≠ [] → Difflib.plain (chars_of new) →
  NoDup (place <$> sites) →
  (∀ x y, x ∈ sites → y ∈ sites → resolve (s_file x) = resolve (s_file y) → s_file x = s_file y) →
  (Apply.apply_group t (filter (λ e, resolve (Apply.edit_file e) = Some q) (edit_of chars_of old new <$> sites))).1.1 =
  concat (RenameLines.rename_at (chars_of old) (chars_of new) (s_line <$> filter (λ x, resolve (s_file x) = Some q) sites) (Difflib.splitlines t)).
Proof.
  clear parse_print. intros Hold Hid Hnew Hplain Hnd Hone. rewrite filter_of_fmap. cbn [Apply.edit_file edit_of]. set (fl := filter _ sites).
  assert (Hlines : omap Apply.edit_line (edit_of chars_of old new <$> fl) = s_line <$> fl).
  { clearbody fl. induction fl as [|x fl IH]; [done|]. cbn. by rewrite <-IH. }
  assert (Hflnd : NoDup (s_line <$> fl)).
  { apply NoDup_fmap_2_strong.
    - intros x y [Hx Hxs]%list_elem_of_filter [Hy Hys]%list_elem_of_filter Hl. apply (EdgePass.NoDup_fmap_elem place sites); try done.
      unfold place. f_equal; [|done]. apply Hone; congruence.
    - apply NoDup_filter. by apply NoDup_fmap_1 in Hnd. }
  destruct (RenameLines.group_renamed (chars_of old) (chars_of new) Hold Hid Hnew Hplain t (edit_of chars_of old new <$> fl)) as (skips & Hrun & _).
  - apply Forall_fmap, Forall_true. intros x. split; done.
  - rewrite <-list_fmap_compose. change (Apply.edit_line ∘ edit_of chars_of old new) with (Some ∘ s_line). rewrite list_fmap_compose.
    by apply NoDup_fmap_2; [apply _|].
  - rewrite Hrun. cbn [fst]. by rewrite Hlines.
Qed.

(** The lines of a file with edits, as its reader takes them. *)
Lemma renamed_as_read is_name old new sites (q : string) t (fs : gmap string Apply.entry) :
  (∀ x q t, x ∈ sites → resolve (s_file x) = Some q → fs !! q = Some (Apply.Text t) → Apply.ordinary is_name t) →
  fs !! q = Some (Apply.Text t) →
  concat (RenameLines.rename_at old new (s_line <$> filter (λ x, resolve (s_file x) = Some q) sites) (Difflib.splitlines t)) =
  concat (RenameLines.rename_words is_name old new (s_line <$> filter (λ x, resolve (s_file x) = Some q) sites) (Apply.newline_lines t)).
Proof.
  clear parse_print. intros Hord Ht. destruct (filter (λ x, resolve (s_file x) = Some q) sites) as [|x xs] eqn:Hf.
  - cbn [fmap list_fmap]. by rewrite RenameLines.rename_words_nowhere, RenameLines.rename_nowhere, Apply.concat_splitlines.
  - assert (Hx : x ∈ filter (λ x, resolve (s_file x) = Some q) sites) by (rewrite Hf; left).
    apply list_elem_of_filter in Hx as [Hr Hx]. by rewrite RenameLines.rename_words_ordinary by by eapply Hord.
Qed.

(** C32: A rename, previewed and then applied in time, does what it says.  Every
    file that can be written holds its text with the lines of its edits renamed,
    each where the old name stands as a whole identifier outside quotes, and
    nothing else changed, whatever the order of the edits; a file no edit is in
    stays as it is.  The preview is then gone: applying it again finds nothing and
    changes nothing.  The old name is of ASCII letters, digits and underscores; the
    files with edits have lines that end in newlines, with or without carriage
    returns, and no character but those is one of an identifier in them, whatever
    the language takes for one: in other files apply.rs may count lines otherwise,
    or rewrite a part of an identifier.  The new name must not end in a newline,
    which [is_valid_identifier] lets pass; each file goes by one path, inside the
    root; line numbers fit an [i64], no word character ends a line, the pending
    entries have distinct ids and the clock's times are finite. *)
Theorem rename_applied is_name now swept now' now'' id (s : Graph) old new (entries entries' : Pending) n sites fs :
  NoDup entries.*1 → (∀ c, is_word c = true → c ≠ 13%N ∧ Difflib.is_boundary c = false) →
  rename now swept id s old new entries = Some (entries', Previewed n sites) → finite now = true →
  last (chars_of new) ≠ Some 10%N → chars_of old ≠ [] → Forall (λ c, Apply.is_ident c = true) (chars_of old) →
  Forall (λ x, - 2 ^ 63 ≤ s_line x < 2 ^ 63)%Z sites →
  (∀ x, x ∈ sites → ∃ p, resolve (s_file x) = Some p ∧ Apply.inside root p = true) →
  (∀ x y, x ∈ sites → y ∈ sites → resolve (s_file x) = resolve (s_file y) → s_file x = s_file y) →
  (∀ x q t, x ∈ sites → resolve (s_file x) = Some q → fs !! q = Some (Apply.Text t) → Apply.ordinary is_name t) →
  SpecFloat.SFleb (age now' now) EXPIRY_SECONDS = true → SpecFloat.SFltb EXPIRY_SECONDS (age now'' now) = false →
  ∃ remaining fs' outcome,
    apply_refactor now' now'' id false entries' fs = Some (remaining, fs', inl outcome) ∧
    (∀ q, fs' !! q =
      match fs !! q with
      | Some (Apply.Text t) =>
          if writable q
          then Some (Apply.Text (concat (RenameLines.rename_words is_name (chars_of old) (chars_of new)
                 (s_line <$> filter (λ x, resolve (s_file x) = Some q) sites) (Apply.newline_lines t))))
          else Some (Apply.Text t)
      | other => other
      end) ∧
    ∀ later later' dry fs2, apply_refactor later later' id dry remaining fs2 =
      Some (cleanup_expired later remaining, fs2, inr ("Refactor '" +:+ id +:+ "' not found or expired.")).
Proof using parse_print.
  intros Hnd Hword Hrename Hfinite Hnl Hold Hid Hrange Hin Hone Hord Hfresh Hlate.
  unfold rename in Hrename. destruct (is_valid_identifier is_word is_digit (chars_of new)) eqn:Hvalid; cbn [negb] in Hrename; [|done].
  apply valid_identifier in Hvalid as [Hne Hchars]; [|done].
  assert (Hplain : Difflib.plain (chars_of new)) by (eapply Forall_impl; [exact Hchars|exact Hword]).
  destruct (search_nodes old 10) as [candidates|]; cbn [mbind option_bind] in Hrename; [|done].
  destruct (match List.find _ candidates with Some c => Some c | None => head candidates end) as [c|]; [|done].
  destruct (edits_for s c old) as [sites'|] eqn:Hedits; [|done]. injection Hrename as <- -> ->.
  destruct (edits_distinct s n old sites Hedits) as [Hplaces Hsome].
  unfold apply_refactor. rewrite preview_found by done. rewrite parse_print by by apply preview_kept. cbn [mbind option_bind].
  change (created_at (preview_value id old new now sites)) with (Some now). cbn [mbind option_bind]. rewrite Hlate.
  change (preview_edits (preview_value id old new now sites)) with (mapM (parse_edit chars_of) (edit_value old new <$> sites)).
  rewrite parse_edits by done. cbn [mbind option_bind]. set (edits := edit_of chars_of old new <$> sites).
  assert (Hedits_ne : edits ≠ []) by (unfold edits; by destruct sites).
  destruct (resolve_all edits) as (l & Hl & Hfst).
  { intros e (x & -> & Hx)%list_elem_of_fmap. by apply Hin. }
  pose proof (Apply.resolve_edits_ok resolve root edits l Hl) as Hok.
  unfold Apply.apply_edits. rewrite !(bool_decide_eq_false_2 (edits = [])) by done. rewrite Hl. cbn [mbind option_bind].
  pose proof (Apply.planned_writes writable utf8 l fs) as Hwrites.
  destruct (Apply.apply_planned writable utf8 false l fs) as [fs' outcome]. cbn [fst orb] in Hwrites |- *.
  eexists _, fs', outcome. split; [reflexivity|]. split.
  - intros q. rewrite Hwrites.
    2:{ intros e p e' p' He He'. destruct (Hok e p He) as ((x & -> & Hx)%list_elem_of_fmap & Hr & _), (Hok e' p' He') as ((y & -> & Hy)%list_elem_of_fmap & Hr' & _).
        cbn [Apply.edit_file edit_of] in *. split; [intros Heq; rewrite Heq in Hr; congruence|intros ->; apply Hone; congruence]. }
    destruct (fs !! q) as [[t| |]|] eqn:Hq; try done. destruct (writable q); [|done]. do 2 f_equal.
    rewrite filter_resolved by (intros e p He; by apply (Hok e p He)). rewrite Hfst.
    etrans; [by apply group_of_file|by eapply renamed_as_read].
  - intros later later' dry fs2.
    assert (Hgone : get_entry id (cleanup_expired later (remove_entry id (cleanup_expired now' (set_entry id (print (preview_value id old new now sites)) (cleanup_expired swept entries))))) = None); [|by rewrite Hgone].
    set (kept := cleanup_expired now' _). assert (Hkept : NoDup kept.*1) by by apply cleanup_distinct, set_distinct, cleanup_distinct.
    pose proof (removed_gone id kept Hkept) as Hrem. clearbody kept.
    assert (Hsub : cleanup_expired later (remove_entry id kept) `sublist_of` remove_entry id kept) by apply cleanup_sublist.
    assert (Hrk : NoDup (remove_entry id kept).*1).
    { eapply sublist_NoDup; [exact Hkept|]. apply fmap_sublist. clear. induction kept as [|[k w] l IH]; cbn; [done|]. case_bool_decide; by constructor. }
    destruct (get_entry id (cleanup_expired later _)) as [v|] eqn:Hg; [|done]. apply find_entry in Hg; [|by eapply sublist_NoDup; [|by apply fmap_sublist]].
    assert (Hv : get_entry id (remove_entry id kept) = Some v) by (apply find_entry; [done|by eapply elem_of_sublist]). congruence.
Qed.


End session.

(** ** Documents as text *)

(** Documents are countable, so that they can be written and read back. *)
Section docs.
Context (P : Doc → Prop).
Context (HNull : P Null) (HBool : ∀ b, P (Bool b)) (HNum : ∀ n, P (Num n)) (HStr : ∀ s, P (Str s)).
Context (HArray : ∀ items, Forall P items → P (Array items)).
Context (HObject : ∀ members, Forall (λ m, P m.2) members → P (Object members)).

Fixpoint Doc_nested_ind (v : Doc) : P v :=
  match v with
  | Null => HNull
  | Bool b => HBool b
  | Num n => HNum n
  | Str s => HStr s
  | Array items =>
      HArray items ((fix go (l : list Doc) : Forall P l :=
        match l with [] => Forall_nil_2 P | x :: l => Forall_cons_2 P x l (Doc_nested_ind x) (go l) end) items)
  | Object members =>
      HObject members ((fix go (l : list (string * Doc)) : Forall (λ m, P m.2) l :=
        match l with [] => Forall_nil_2 _ | m :: l => Forall_cons_2 _ m l (Doc_nested_ind m.2) (go l) end) members)
  end.
End docs.

Definition float_parts (x : f64) : nat * bool * (positive * Z) :=
  match x with
  | SpecFloat.S754_zero s => (0, s, (1%positive, 0%Z))
  | SpecFloat.S754_infinity s => (1, s, (1%positive, 0%Z))
  | SpecFloat.S754_nan => (2, false, (1%positive, 0%Z))
  | SpecFloat.S754_finite s m e => (3, s, (m, e))
  end.
Definition float_of (p : nat * bool * (positive * Z)) : f64 :=
  match p with
  | (0, s, _) => SpecFloat.S754_zero s
  | (1, s, _) => SpecFloat.S754_infinity s
  | (2, _, _) => SpecFloat.S754_nan
  | (_, s, (m, e)) => SpecFloat.S754_finite s m e
  end.

Definition Leaf : Type := unit + bool + (N + Z + nat * bool * (positive * Z)) + string.

Fixpoint doc_tree (v : Doc) : gen_tree Leaf :=
  match v with
  | Null => GenLeaf (inl (inl (inl ())))
  | Bool b => GenLeaf (inl (inl (inr b)))
  | Num (PosInt n) => GenLeaf (inl (inr (inl (inl n))))
  | Num (NegInt z) => GenLeaf (inl (inr (inl (inr z))))
  | Num (Float x) => GenLeaf (inl (inr (inr (float_parts x))))
  | Str s => GenLeaf (inr s)
  | Array items => GenNode 0 (doc_tree <$> items)
  | Object members => GenNode 1 ((λ m, GenNode 2 [GenLeaf (inr m.1); doc_tree m.2]) <$> members)
  end.

Fixpoint tree_doc (t : gen_tree Leaf) : Doc :=
  match t with
  | GenLeaf (inl (inl (inl _))) => Null
  | GenLeaf (inl (inl (inr b))) => Bool b
  | GenLeaf (inl (inr (inl (inl n)))) => Num (PosInt n)
  | GenLeaf (inl (inr (inl (inr z)))) => Num (NegInt z)
  | GenLeaf (inl (inr (inr p))) => Num (Float (float_of p))
  | GenLeaf (inr s) => Str s
  | GenNode 0 items => Array (tree_doc <$> items)
  | GenNode _ members => Object ((λ m, match m with GenNode _ [GenLeaf (inr key); v] => (key, tree_doc v) | _ => ("", Null) end) <$> members)
  end.

Lemma tree_doc_tree v : tree_doc (doc_tree v) = v.
Proof.
  induction v as [|b|n|s|items IH|members IH] using Doc_nested_ind; try done.
  - destruct n as [n|z|[]]; done.
  - cbn. f_equal. by induction IH as [|x l Hx _ IHl]; [|cbn; rewrite Hx, IHl].
  - cbn. f_equal. by induction IH as [|[k x] l Hx _ IHl]; [|cbn in *; rewrite Hx, IHl].
Qed.

Fixpoint bits (p : positive) : string :=
  match p with xI p => String Ascii.one (bits p) | xO p => String Ascii.zero (bits p) | xH => EmptyString end.
Fixpoint of_bits (s : string) : positive :=
  match s with EmptyString => xH | String c s => if bool_decide (c = Ascii.one) then xI (of_bits s) else xO (of_bits s) end.

Lemma of_bits_bits p : of_bits (bits p) = p.
Proof. induction p as [p IH|p IH|]; [..|done]; cbn; by rewrite IH. Qed.

Definition write_doc (v : Doc) : string := bits (encode (doc_tree v)).
Definition read_doc (s : string) : option Doc := tree_doc <$> decode (of_bits s).

Lemma read_write v : read_doc (write_doc v) = Some v.
Proof. unfold read_doc, write_doc. rewrite of_bits_bits, decode_encode. cbn. by rewrite tree_doc_tree. Qed.

(** ** A rename of two files *)

#[local] Existing Instance text_json.

#[local] Definition ascii_word (c : N) : bool := is_ascii_alphanumeric c || (c =? 95)%N.
#[local] Definition greet : NodeRow :=
  mkNodeRow 1 (mkNodeVals "Function" "greet" "a.py::greet" "a.py" 1 2 "python" None None None None false "h" 0 "{}" one) None None.
#[local] Definition greet_call : EdgeRow :=
  mkEdgeRow 1 (mkEdgeVals "CALLS" "b.py::main" "a.py::greet" "greet" "b.py" 2 "{}" one "EXTRACTED" one).
#[local] Definition greet_store : GraphStore (F := unit) := set_edges [greet_call] 1 (set_nodes [greet] 1 (StoreSpec.new_store true)).
#[local] Definition greet_node : GraphNode :=
  match node_from_row greet with inl n => n | inr _ => mkGraphNode 0 "" "" "" "" 0 0 "" None None None false None "{}" None end.
#[local] Definition newline : string := String (Ascii.ascii_of_nat 10) EmptyString.
#[local] Definition repo (path : string) : option string := Some ("/r/" +:+ path).
#[local] Definition greet_files : gmap string Apply.entry :=
  {[ "/r/a.py" := Apply.Text (chars ("def greet():" +:+ newline +:+ "  greeting = 1" +:+ newline));
     "/r/b.py" := Apply.Text (chars ("def main():" +:+ newline +:+ "  greet(); greet_all()" +:+ newline)) ]}.
#[local] Definition greet_sites : list Site :=
  [mkSite "a.py" 1 "high" "definition" None; mkSite "b.py" 2 "high" "call" (Some "CALLS")].

Lemma ascii_words c : ascii_word c = true → c ≠ 13%N ∧ Difflib.is_boundary c = false.
Proof.
  unfold ascii_word, is_ascii_alphanumeric, is_ascii_alphabetic, is_ascii_uppercase, is_ascii_lowercase, is_ascii_digit, Difflib.is_boundary.
  rewrite !orb_true_iff, !andb_true_iff, !N.leb_le, N.eqb_eq, !orb_false_iff, !N.eqb_neq. lia.
Qed.

Lemma greet_ordinary q t : greet_files !! q = Some (Apply.Text t) → Apply.ordinary Apply.demo_word t.
Proof.
  unfold greet_files. intros [[_ [= <-]]|[_ [_ [= <-]]%lookup_singleton_Some]]%lookup_insert_Some;
    (split; [|by apply (bool_decide_unpack _); vm_compute]); cbn; repeat (split; [done|]; split; [done|]); done.
Qed.

Lemma rename_applied_witness :
  ∃ entries' remaining fs' outcome,
    rename (λ _, None) (λ _ l, l) (λ _ _, Some [greet_node]) (λ _, None) (λ a _, a) chars ascii_word is_ascii_digit write_doc read_doc
      one one "1" greet_store "greet" "hello" [] = Some (entries', Previewed greet_node greet_sites) ∧
    apply_refactor chars read_doc repo "/r" (λ _, true) (λ _, "") one one "1" false entries' greet_files =
      Some (remaining, fs', inl outcome) ∧
    fs' !! "/r/b.py" = Some (Apply.Text (chars ("def main():" +:+ newline +:+ "  hello(); greet_all()" +:+ newline))).
Proof.
  set (entries' := set_entry "1" (write_doc (preview_value "1" "greet" "hello" one greet_sites)) []).
  assert (Hrename : rename (λ _, None) (λ _ l, l) (λ _ _, Some [greet_node]) (λ _, None) (λ a _, a) chars ascii_word is_ascii_digit write_doc read_doc
      one one "1" greet_store "greet" "hello" [] = Some (entries', Previewed greet_node greet_sites)) by reflexivity.
  destruct (rename_applied (λ _, None) (λ _ l, l) (λ _ _, Some [greet_node]) (λ _, None) (λ a _, a) chars ascii_word is_ascii_digit write_doc read_doc
    repo "/r" (λ _, true) (λ _, "") (λ v _, read_write v) Apply.demo_word one one one one "1" greet_store "greet" "hello" [] entries' greet_node greet_sites greet_files)
    as (remaining & fs' & outcome & Happly & Hfs & _).
  - constructor.
  - exact ascii_words.
  - exact Hrename.
  - reflexivity.
  - vm_compute. discriminate.
  - vm_compute. discriminate.
  - repeat constructor.
  - repeat constructor; cbn; lia.
  - intros x Hx. exists ("/r/" +:+ s_file x). split; [reflexivity|]. apply elem_of_cons in Hx as [->|Hx]; [done|].
    apply elem_of_cons in Hx as [->|Hx]; [done|]. by apply not_elem_of_nil in Hx.
  - intros x y _ _ Heq. unfold repo in Heq. by injection Heq.
  - intros x q t _ _ Hq. by eapply greet_ordinary.
  - vm_compute. reflexivity.
  - vm_compute. reflexivity.
  - exists entries', remaining, fs', outcome. split; [exact Hrename|]. split; [exact Happly|].
    rewrite Hfs. vm_compute. reflexivity.
Defined.

(** ** Where the checks fall short *)

(** A final newline passes for part of a name, and a rename to it moves the
    later lines of the file, so that the next edit finds nothing. *)
Example newline_in_name :
  let name := chars ("foo" +:+ newline) in
  let first := Apply.apply_edit (chars ("old" +:+ newline +:+ "old")) (Apply.mkEdit "a.py" (Some 1%Z) (chars "old") name) in
  is_valid_identifier ascii_word is_ascii_digit name = true ∧
  match first with
  | inl t => Apply.apply_edit t (Apply.mkEdit "a.py" (Some 2%Z) (chars "old") name) = inr "line_no_longer_matches"
  | inr _ => False
  end.
Proof. vm_compute. done. Qed.

(** A letter outside ASCII ends an identifier: [na] is renamed inside [naïve]. *)
Example part_of_identifier :
  Apply.apply_edit (chars "na" ++ 239%N :: chars "ve()") (Apply.mkEdit "a.py" (Some 1%Z) (chars "na") (chars "x")) =
  inl (chars "x" ++ 239%N :: chars "ve()").
Proof. vm_compute. done. Qed.

(** A form feed ends a line here, though the graph's lines end at newlines. *)
Example form_feed_line :
  let page := 12%N :: chars newline in
  Apply.apply_edit (page ++ chars "f()") (Apply.mkEdit "a.py" (Some 2%Z) (chars "f") (chars "g")) = inr "line_no_longer_matches".
Proof. vm_compute. done. Qed.

End Rename.
