(* ===== verification/ImplMembers.v ===== *)
(** * Members of types declared elsewhere

    Models crates/dagayn-graph/src/postprocess/impl_members.rs: the edges of Rust
    [impl] blocks start at the type's node even when another file declares the
    type, and get the source they had back when that node goes.  SQLite's JSON
    functions are parameters with the laws the pass relies on. *)
From S2P Require Import Prelude GraphData Sqlite Store StoreSpec EdgePass Impact Visibility BareNames ArchFindings Text.
Import GraphData Sqlite Store EdgePass Visibility BareNames Text.

Module ImplMembers.

#[local] Set Default Proof Using "Type".

(** Source: crates/dagayn-graph/src/postprocess/impl_members.rs 17 [MOVED_FROM]. *)
Definition MOVED_FROM : string := "impl_owner_from".

(** ** Where a type may be *)

(** Source: crates/dagayn-graph/src/postprocess/impl_members.rs 104-108 [file_of]. *)
Definition file_of (qualified : string) : string := node_file_from_qualified qualified qualified.

(** Source: crates/dagayn-graph/src/postprocess/impl_members.rs 64-71 [only_in_named_module]. *)
Definition in_module (module qualified : string) : bool :=
  let file := file_of qualified in
  let stem := match strip_suffix "/mod.rs" file with
              | Some stem => stem
              | None => default file (strip_suffix ".rs" file)
              end in
  bool_decide (last_part slash stem = module).

(** Source: crates/dagayn-graph/src/postprocess/impl_members.rs 61-75 [only_in_named_module]. *)
Definition only_in_named_module (candidates : list string) (owner : string) : option string :=
  '(path, _) ← rsplit_once dot owner;
  only (filter (λ q, in_module (last_part dot path) q = true) candidates).

(** Source: crates/dagayn-graph/src/postprocess/impl_members.rs 94-101 [source_root_of]. *)
Fixpoint source_root (before components : list string) : option string :=
  match components with
  | [] => None
  | component :: components =>
      if bool_decide (component ∈ ["src"; "tests"; "benches"; "examples"])
      then Some (String.concat "/" (before ++ [component]))
      else source_root (before ++ [component]) components
  end.

(** Source: crates/dagayn-graph/src/postprocess/impl_members.rs 92-102 [source_root_of]. *)
Definition source_root_of (file : string) : option string := source_root [] (split_slash file).

(** Source: crates/dagayn-graph/src/postprocess/impl_members.rs 80-87 [only_in_package]. *)
Definition only_in_package (candidates : list string) (file : string) : option string :=
  root ← source_root_of file;
  only (filter (λ q, source_root_of (file_of q) = Some root) candidates).

Section impl_members.
Context `{Json} {F : Type}.
Context (get_strings : Value → string → option (list string)) (unordered : ∀ A, list A → list A).
(** SQLite's [json_extract] of a member, [json_set] of a member to a text,
    [json_remove] of a member; whether a value counts as true; and the text of a
    floating-point number. *)
Context (json_extract : string → string → option Sql) (json_set : string → string → string → string)
  (json_remove : string → string → string) (truth : Sql → bool) (real_text : f64 → string).

#[local] Abbreviation Graph := (GraphStore (F := F)).

(** ** The queries *)

Definition is_node (s : Graph) (q : string) : bool := existsb (λ r, bool_decide (qualified_name (vals r) = q)) (nodes s).

Definition is_module (r : NodeRow) : bool := match json_extract (extra (vals r)) "type_role" with Some (Text role) => bool_decide (role = "module") | _ => false end.

(** Source: crates/dagayn-graph/src/postprocess/impl_members.rs 117-123 [rust_type_index]. *)
Definition is_type (s : Graph) (r : NodeRow) : bool :=
  let v := vals r in
  bool_decide (language v = "rust") &&
  (bool_decide (kind v = "Class") && negb (is_module r)
   || bool_decide (kind v = "Type") &&
      match parent_name v with
      | None => true
      | Some parent => existsb (λ m, bool_decide (qualified_name (vals m) = file_path v +:+ "::" +:+ parent) && is_module m) (nodes s)
      end).

(** Source: crates/dagayn-graph/src/postprocess/impl_members.rs 114-132 [rust_type_index]. *)
Definition rust_type_index (s : Graph) : gmap string (list string) :=
  foldl (λ m r, <[name (vals r) := default [] (m !! name (vals r)) ++ [qualified_name (vals r)]]> m) ∅
    (unordered _ (filter (λ r, is_type s r = true) (nodes s))).

(** Source: crates/dagayn-graph/src/postprocess/impl_members.rs 138-142 [foreign_owners]. *)
Definition member_owner (s : Graph) (r : NodeRow) : option (string * string) :=
  let v := vals r in
  parent ← parent_name v;
  if bool_decide (language v = "rust") && bool_decide (kind v ∈ ["Function"; "Test"])
     && negb (is_node s (file_path v +:+ "::" +:+ parent))
  then Some (file_path v, parent) else None.

(** Source: crates/dagayn-graph/src/postprocess/impl_members.rs 144-148 [foreign_owners]. *)
Definition impl_owner (s : Graph) (e : EdgeRow) : option (string * string) :=
  let v := e_vals e in
  owner ← strip_prefix (e_file_path v +:+ "::") (source_qualified v);
  if bool_decide (e_kind v = "IMPLEMENTS") && like "%.rs" (e_file_path v) && negb (is_node s (source_qualified v))
  then Some (e_file_path v, owner) else None.

(** Source: crates/dagayn-graph/src/postprocess/impl_members.rs 136-153 [foreign_owners]. *)
Definition foreign_owners (s : Graph) : list (string * string) :=
  sort_by ArchFindings.pair_le (remove_dups (omap (member_owner s) (nodes s) ++ omap (impl_owner s) (edges s))).

(** ** The updates *)

(** Source: crates/dagayn-graph/src/postprocess/impl_members.rs 166-168 [move_owner_edges]. *)
Definition with_owner (owner_node : string) (v : EdgeVals) : EdgeVals :=
  mkEdgeVals (e_kind v) owner_node (target_qualified v) (target_name v) (e_file_path v) (e_line v)
    (json_set (if bool_decide (e_extra v = "") then "{}" else e_extra v) MOVED_FROM (source_qualified v))
    (confidence v) (confidence_tier v) (e_updated_at v).

Definition unknown_target (extra : string) : bool := match json_extract extra "impl_target" with None => true | Some _ => false end.

(** Source: crates/dagayn-graph/src/postprocess/impl_members.rs 169-176 [move_owner_edges]. *)
Definition owned (s : Graph) (file owner : string) (e : EdgeRow) : bool :=
  let v := e_vals e in
  bool_decide (e_file_path v = file) &&
  (bool_decide (e_kind v = "CONTAINS") && bool_decide (source_qualified v = file)
     && existsb (λ r, bool_decide (qualified_name (vals r) = target_qualified v) && bool_decide (file_path (vals r) = file)
                      && bool_decide (parent_name (vals r) = Some owner) && unknown_target (extra (vals r))) (nodes s)
   || bool_decide (e_kind v = "IMPLEMENTS") && bool_decide (source_qualified v = file +:+ "::" +:+ owner)
      && unknown_target (e_extra v)).

(** Source: crates/dagayn-graph/src/postprocess/impl_members.rs 158-180 [move_owner_edges]. *)
Definition move_owner_edges (file owner owner_node : string) (s : Graph) : Graph * Z :=
  (set_edges ((λ e, if owned s file owner e then mkEdgeRow (edge_id e) (with_owner owner_node (e_vals e)) else e) <$> edges s)
     (edge_seq s) s,
   Z.of_nat (length (filter (λ e, owned s file owner e = true) (edges s)))).

Definition sql_text (v : Sql) : string := match v with Text t => t | Int z => pretty z | Real x => real_text x end.

(** Source: crates/dagayn-graph/src/postprocess/impl_members.rs 186-191 [restore_orphaned_edges]. *)
Definition restored (s : Graph) (e : EdgeRow) : EdgeRow :=
  let v := e_vals e in
  match json_extract (e_extra v) MOVED_FROM with
  | Some from =>
      if is_node s (source_qualified v) then e
      else mkEdgeRow (edge_id e)
             (mkEdgeVals (e_kind v) (sql_text from) (target_qualified v) (target_name v) (e_file_path v) (e_line v)
                (json_remove (e_extra v) MOVED_FROM) (confidence v) (confidence_tier v) (e_updated_at v))
  | None => e
  end.

(** Source: crates/dagayn-graph/src/postprocess/impl_members.rs 183-195 [restore_orphaned_edges]. *)
Definition restore_orphaned_edges (s : Graph) : Graph := set_edges (restored s <$> edges s) (edge_seq s) s.

(** ** The pass *)

Section owner.
Context (import_targets : Sets) (visibility : SymbolVisibility) (types : gmap string (list string)).

(** Source: crates/dagayn-graph/src/postprocess/impl_members.rs 31-48 [link_foreign_impl_members]. *)
Definition owner_node (file owner : string) : option string :=
  candidates ← types !! last_part dot owner;
  match filter (λ q, file_of q = file) candidates with
  | [only] => Some only
  | [] =>
      match resolve_via_imports import_targets visibility candidates file with
      | Some (qualified, _, _) => Some qualified
      | None =>
          match only_in_named_module candidates owner with
          | Some qualified => Some qualified
          | None => only_in_package candidates file
          end
      end
  | _ => None
  end.

(** Source: crates/dagayn-graph/src/postprocess/impl_members.rs 30-52 [link_foreign_impl_members]. *)
Definition link_owner (acc : Graph * Z) (fo : string * string) : Graph * Z :=
  match owner_node fo.1 fo.2 with
  | Some node => let '(s, n) := move_owner_edges fo.1 fo.2 node acc.1 in (s, (acc.2 + n)%Z)
  | None => acc
  end.

End owner.

(** Source: crates/dagayn-graph/src/postprocess/impl_members.rs 23-55 [link_foreign_impl_members]. *)
Definition link_foreign_impl_members (s : Graph) : Graph * Result Z :=
  let restored := restore_orphaned_edges s in
  match (import_targets ← import_targets_tx unordered json_extract truth restored;
         visibility ← symbol_visibility get_strings unordered restored;
         inl (foldl (link_owner import_targets visibility (rust_type_index restored)) (restored, 0%Z) (foreign_owners restored))) with
  | inl (s', moved) => (s', inl moved)
  | inr e => (s, inr e)
  end.

(** ** What the pass does *)

(** What SQLite documents of these functions on the text of an object. *)
Context (is_object : string → Prop).

Class JsonEditLaws : Prop := {
  object_empty : is_object "{}";
  object_set t k v : is_object t → is_object (json_set t k v);
  object_remove t k : is_object t → is_object (json_remove t k);
  extract_set t k v k' : is_object t → json_extract (json_set t k v) k' = if bool_decide (k' = k) then Some (Text v) else json_extract t k';
  extract_remove t k k' : is_object t → json_extract (json_remove t k) k' = if bool_decide (k' = k) then None else json_extract t k'
}.
Context {laws : JsonEditLaws}.
Context (unordered_perm : ∀ A (l : list A), unordered A l ≡ₚ l).

(** The rows this pass meets: names are unique, a type's name has its file in
    front, a file's name has no colon, and extras are objects. *)
Record impl_ok (s : Graph) : Prop := mkImplOk {
  ok_names : NoDup ((λ r, qualified_name (vals r)) <$> nodes s);
  ok_types r : r ∈ nodes s → kind (vals r) ∈ ["Class"; "Type"] → has_colon (qualified_name (vals r)) = true;
  ok_files e : e ∈ edges s → has_colon (e_file_path (e_vals e)) = false;
  ok_extras e : e ∈ edges s → is_object (e_extra (e_vals e))
}.

Lemma is_node_true (s : Graph) q : is_node s q = true ↔ q ∈ (λ r, qualified_name (vals r)) <$> nodes s.
Proof.
  unfold is_node. rewrite existsb_exists, list_elem_of_fmap. setoid_rewrite bool_decide_eq_true. setoid_rewrite <-list_elem_of_In. naive_solver.
Qed.

(** *** The types *)

Lemma index_lookup (l : list NodeRow) (m : gmap string (list string)) n :
  default [] (foldl (λ m r, <[name (vals r) := default [] (m !! name (vals r)) ++ [qualified_name (vals r)]]> m) m l !! n) =
  default [] (m !! n) ++ ((λ r, qualified_name (vals r)) <$> filter (λ r, name (vals r) = n) l).
Proof.
  revert m. induction l as [|r l IH]; intros m; cbn [foldl]; [by rewrite app_nil_r|]. rewrite IH, filter_cons.
  destruct (decide (name (vals r) = n)) as [<-|Hn].
  - rewrite lookup_insert_eq. cbn. by rewrite <-app_assoc.
  - by rewrite lookup_insert_ne.
Qed.

Lemma types_lookup (s : Graph) n candidates q : rust_type_index s !! n = Some candidates → q ∈ candidates →
  ∃ r, r ∈ nodes s ∧ is_type s r = true ∧ name (vals r) = n ∧ qualified_name (vals r) = q.
Proof using unordered_perm.
  intros Hn Hq. pose proof (index_lookup (unordered _ (filter (λ r, is_type s r = true) (nodes s))) ∅ n) as Hl.
  fold (rust_type_index s) in Hl. rewrite Hn, lookup_empty in Hl. cbn in Hl. rewrite Hl in Hq.
  apply list_elem_of_fmap in Hq as (r & -> & [Hr Hin]%list_elem_of_filter). rewrite unordered_perm in Hin.
  apply list_elem_of_filter in Hin as [Ht Hin]. by exists r.
Qed.

Lemma type_is_type_kind (s : Graph) r : is_type s r = true → kind (vals r) ∈ ["Class"; "Type"].
Proof.
  unfold is_type. intros [_ [[Hk%bool_decide_eq_true _]%andb_true_iff|[Hk%bool_decide_eq_true _]%andb_true_iff]%orb_true_iff]%andb_true_iff;
    rewrite Hk; [left|right; left].
Qed.

(** *** One owner after another *)

Section moves.
Context (import_targets : Sets) (visibility : SymbolVisibility) (types : gmap string (list string)).

#[local] Abbreviation own := (λ p : string * string, owner_node import_targets visibility types p.1 p.2).

(** The first owner with a type that has the edge. *)
Fixpoint taker (s : Graph) (l : list (string * string)) (e : EdgeRow) : option string :=
  match l with
  | [] => None
  | p :: l => if owned s p.1 p.2 e then match own p with Some q => Some q | None => taker s l e end else taker s l e
  end.

Definition linked (s : Graph) (l : list (string * string)) (e : EdgeRow) : EdgeRow :=
  match taker s l e with Some q => mkEdgeRow (edge_id e) (with_owner q (e_vals e)) | None => e end.

Definition taken (s : Graph) (l : list (string * string)) (e : EdgeRow) : bool :=
  match taker s l e with Some _ => true | None => false end.

Definition is_owner_name (s : Graph) (p : string * string) : bool := is_node s (p.1 +:+ "::" +:+ p.2).

Lemma with_owner_not_owned (s : Graph) p q i v :
  has_colon (e_file_path v) = false → has_colon q = true → is_node s q = true → is_owner_name s p = false →
  owned s p.1 p.2 (mkEdgeRow i (with_owner q v)) = false.
Proof.
  intros Hf Hq Hn Hp. unfold owned. cbn. destruct (bool_decide_reflect (e_file_path v = p.1)) as [Heq|]; [|done]. cbn.
  rewrite (bool_decide_eq_false_2 (q = p.1)) by congruence. rewrite andb_false_r. cbn.
  rewrite (bool_decide_eq_false_2 (q = p.1 +:+ "::" +:+ p.2)).
  - by rewrite andb_false_r.
  - intros ->. unfold is_owner_name in Hp. congruence.
Qed.

Lemma taker_spec (s : Graph) l e q :
  taker s l e = Some q → ∃ p, p ∈ l ∧ owned s p.1 p.2 e = true ∧ own p = Some q.
Proof.
  induction l as [|p l IH]; [done|]. cbn [taker]. destruct (owned s p.1 p.2 e) eqn:Ho.
  - destruct (own p) as [q'|] eqn:Hq; [intros [= ->]; exists p; by split; [left|]|]. intros (p' & ? & ?)%IH. exists p'. by split; [right|].
  - intros (p' & ? & ?)%IH. exists p'. by split; [right|].
Qed.

Lemma taker_none (s : Graph) l e : taker s l e = None ↔ ∀ p, p ∈ l → owned s p.1 p.2 e = true → own p = None.
Proof.
  induction l as [|p l IH]; cbn [taker]; [split; [by intros _ p ?%not_elem_of_nil|done]|].
  setoid_rewrite elem_of_cons. destruct (owned s p.1 p.2 e) eqn:Ho.
  - destruct (own p) eqn:Hq; [split; [done|intros H1; rewrite (H1 p) in Hq by auto; done]|]. rewrite IH. naive_solver congruence.
  - rewrite IH. naive_solver congruence.
Qed.

Lemma owned_same (s s' : Graph) f o e : nodes s' = nodes s → owned s' f o e = owned s f o e.
Proof. intros Hn. unfold owned. by rewrite Hn. Qed.

Lemma taker_same (s s' : Graph) l e : nodes s' = nodes s → taker s' l e = taker s l e.
Proof. intros Hn. induction l as [|p l IH]; [done|]. cbn [taker]. by rewrite (owned_same s) , IH by done. Qed.

(** An owner's type is a node with a colon, an owner is no node. *)
Definition moves_ok (s : Graph) (l : list (string * string)) : Prop :=
  ∀ p, p ∈ l → is_owner_name s p = false ∧ ∀ q, own p = Some q → is_node s q = true ∧ has_colon q = true.

Lemma count_moved (s : Graph) p l q (mv : EdgeRow → EdgeRow) (es : list EdgeRow) :
  own p = Some q → (∀ e, owned s p.1 p.2 e = false → mv e = e) →
  (∀ e, e ∈ es → owned s p.1 p.2 e = true → taker s l (mv e) = None) →
  length (filter (λ e, owned s p.1 p.2 e = true) es) + length (filter (λ e, taken s l e = true) (mv <$> es)) =
  length (filter (λ e, taken s (p :: l) e = true) es).
Proof.
  intros Hq Hid. assert (Ht : ∀ e, taken s (p :: l) e = if owned s p.1 p.2 e then true else taken s l e).
  { intros e. unfold taken. cbn [taker]. rewrite Hq. by destruct (owned _ _ _ _). }
  induction es as [|e es IH]; intros Hmv; [done|]. specialize (IH ltac:(intros e' He'; apply Hmv; by right)).
  pose proof (Hmv e ltac:(left)) as He. rewrite fmap_cons, !filter_cons, Ht.
  destruct (owned s p.1 p.2 e) eqn:Ho.
  - rewrite (decide_False (P := taken s l (mv e) = true)) by (unfold taken; by rewrite He).
    rewrite !decide_True by done. cbn [length]. lia.
  - rewrite Hid, (decide_False (P := false = true)) by done. destruct (taken s l e).
    + rewrite !decide_True by done. cbn [length]. lia.
    + rewrite !decide_False by done. lia.
Qed.

Lemma link_owners (l : list (string * string)) (s : Graph) n :
  moves_ok s l → (∀ e, e ∈ edges s → has_colon (e_file_path (e_vals e)) = false) →
  foldl (link_owner import_targets visibility types) (s, n) l =
  (set_edges (linked s l <$> edges s) (edge_seq s) s, (n + Z.of_nat (length (filter (λ e, taken s l e = true) (edges s))))%Z).
Proof.
  revert s n. induction l as [|p l IH]; intros s n Hok Hf; cbn [foldl].
  - rewrite set_edges_id by done. rewrite filter_nothing by done. cbn. by rewrite Z.add_0_r.
  - assert (Hl : moves_ok s l) by (intros p' Hp'; apply Hok; by right). unfold link_owner at 2. cbn [fst snd].
    change (owner_node import_targets visibility types p.1 p.2) with (own p). destruct (own p) as [q|] eqn:Hq.
    2:{ rewrite IH by done. f_equal; [f_equal|do 3 f_equal]; [apply list_fmap_ext; intros i e _|apply filter_ext_elem; intros e _].
        - unfold linked. cbn [taker]. rewrite Hq. by destruct (owned _ _ _ _).
        - unfold taken. cbn [taker]. rewrite Hq. by destruct (owned _ _ _ _). }
    unfold move_owner_edges. set (mv := λ e, if owned s p.1 p.2 e then _ else e). cbv zeta beta iota.
    destruct (Hok p) as [Hp Hpq]; [by left|]. destruct (Hpq q Hq) as [Hqn Hqc].
    assert (Hmv : ∀ e, e ∈ edges s → owned s p.1 p.2 e = true → taker s l (mv e) = None).
    { intros e He Ho. unfold mv. rewrite Ho. apply taker_none. intros p' Hp' Ho'.
      rewrite with_owner_not_owned in Ho'; [done|by apply Hf|done|done|]. by apply Hl. }
    rewrite IH; [|exact Hl|].
    2:{ intros e (e0 & -> & He)%list_elem_of_fmap. unfold mv. destruct (owned _ _ _ e0); cbn; by apply Hf. }
    f_equal; [unfold set_edges; cbn; f_equal|].
    + rewrite <-list_fmap_compose. apply list_fmap_ext. intros i e He%list_elem_of_lookup_2. unfold compose, linked.
      rewrite (taker_same s) by done. cbn [taker]. destruct (owned s p.1 p.2 e) eqn:Ho.
      * rewrite Hmv, Hq by done. unfold mv. by rewrite Ho.
      * unfold mv. by rewrite Ho.
    + rewrite <-Z.add_assoc. f_equal. rewrite <-Nat2Z.inj_add. f_equal. cbn [edges set_edges].
      rewrite (filter_ext_elem (λ e, taken (set_edges _ _ _) l e = true) (λ e, taken s l e = true)).
      2:{ intros e _. unfold taken. by rewrite (taker_same s). }
      apply (count_moved s p l q mv); [done| |done]. intros e Ho. unfold mv. by rewrite Ho.
Qed.

End moves.

(** *** Owners *)

Lemma foreign_owners_no_node (s : Graph) p : p ∈ foreign_owners s → is_owner_name s p = false.
Proof.
  unfold foreign_owners. rewrite elem_of_sort_by, elem_of_remove_dups, elem_of_app, !list_elem_of_omap. unfold is_owner_name.
  intros [(r & _ & Hr)|(e & _ & He)].
  - unfold member_owner in Hr. destruct (parent_name (vals r)) as [o|]; [|done]. cbn [mbind option_bind] in Hr.
    destruct (_ && negb _) eqn:Hc; [|done]. injection Hr as <-. bool_to_prop. done.
  - unfold impl_owner in He. destruct (strip_prefix _ _) as [o|] eqn:Ho; [|done]. cbn [mbind option_bind] in He.
    destruct (_ && negb _) eqn:Hc; [|done]. injection He as <-. bool_to_prop. cbn [fst snd]. apply strip_prefix_spec in Ho. by rewrite <-string_app_assoc, <-Ho.
Qed.

Lemma owner_node_candidate import_targets visibility types f o q :
  owner_node import_targets visibility types f o = Some q → ∃ candidates, types !! last_part dot o = Some candidates ∧ q ∈ candidates.
Proof.
  clear. unfold owner_node. destruct (types !! _) as [cs|]; [|done]. cbn [mbind option_bind]. intros Hq. exists cs. split; [done|].
  destruct (filter _ cs) as [|x [|]] eqn:Hf; [|injection Hq as ->|done].
  - destruct (resolve_via_imports _ _ _ _) as [[[q' c] t]|] eqn:Hr.
    + injection Hq as ->. by apply resolve_via_imports_only in Hr as [? _].
    + destruct (only_in_named_module cs o) as [q'|] eqn:Hm.
      * injection Hq as ->. unfold only_in_named_module in Hm. destruct (rsplit_once dot o) as [[path x]|]; [|done].
        by apply only_filter in Hm as (? & _).
      * unfold only_in_package in Hq. destruct (source_root_of f); [|done]. by apply only_filter in Hq as (? & _).
  - assert (Hx : q ∈ filter (λ q, file_of q = f) cs) by (rewrite Hf; left). by apply list_elem_of_filter in Hx as [_ ?].
Qed.

Lemma owners_move (s : Graph) import_targets visibility :
  impl_ok s → moves_ok import_targets visibility (rust_type_index s) s (foreign_owners s).
Proof using unordered_perm.
  intros Hok p Hp. split; [by apply foreign_owners_no_node|]. intros q (cs & Hcs & Hq)%owner_node_candidate.
  destruct (types_lookup s _ cs q Hcs Hq) as (r & Hr & Ht & _ & <-). split; [apply is_node_true, list_elem_of_fmap; by exists r|].
  apply (ok_types s Hok r Hr). by apply (type_is_type_kind s).
Qed.

(** *** The restored graph *)

Lemma restored_same (s : Graph) e :
  edge_id (restored s e) = edge_id e ∧ e_kind (e_vals (restored s e)) = e_kind (e_vals e) ∧
  e_file_path (e_vals (restored s e)) = e_file_path (e_vals e).
Proof. unfold restored. destruct (json_extract _ _); [|done]. by destruct (is_node _ _). Qed.

Lemma restored_ok (s : Graph) : impl_ok s → impl_ok (restore_orphaned_edges s).
Proof using laws.
  intros [Hn Ht Hf Hx]. split; [done|done| |]; intros e (e0 & -> & He)%list_elem_of_fmap.
  - destruct (restored_same s e0) as (_ & _ & ->). by apply Hf.
  - unfold restored. destruct (json_extract _ _); [|by apply Hx]. destruct (is_node _ _); [by apply Hx|]. cbn. by apply object_remove, Hx.
Qed.

(** An edge with the mark starts at a node. *)
Definition marks_held (s : Graph) : Prop :=
  ∀ e, e ∈ edges s → json_extract (e_extra (e_vals e)) MOVED_FROM ≠ None → is_node s (source_qualified (e_vals e)) = true.

Lemma restored_marks (s : Graph) : impl_ok s → marks_held (restore_orphaned_edges s).
Proof using laws.
  intros Hok e (e0 & -> & He)%list_elem_of_fmap. unfold restored. destruct (json_extract (e_extra (e_vals e0)) MOVED_FROM) eqn:Hm; [|done].
  destruct (is_node s (source_qualified (e_vals e0))) eqn:Hn; [done|]. cbn [e_vals e_extra].
  rewrite extract_remove by by apply (ok_extras s Hok). by rewrite bool_decide_eq_true_2.
Qed.

Lemma restore_held (s : Graph) : marks_held s → restore_orphaned_edges s = s.
Proof.
  intros Hm. apply set_edges_id. intros e He. unfold restored. destruct (json_extract _ _) eqn:Hx; [|done].
  by rewrite (Hm e He) by congruence.
Qed.

Lemma linked_marks import_targets visibility (s : Graph) l :
  impl_ok s → marks_held s → moves_ok import_targets visibility (rust_type_index s) s l →
  marks_held (set_edges (linked import_targets visibility (rust_type_index s) s l <$> edges s) (edge_seq s) s).
Proof.
  intros Hok Hm Hl e (e0 & -> & He)%list_elem_of_fmap. change (is_node (set_edges _ _ s)) with (is_node s). unfold linked.
  destruct (taker _ _ _ s l e0) as [q|] eqn:Hq; [|by apply Hm]. cbn. intros _. apply taker_spec in Hq as (p & Hp & _ & Hq).
  by apply (Hl p Hp).
Qed.

(** *** The whole pass *)

Lemma link_run (s s' : Graph) n :
  impl_ok s → link_foreign_impl_members s = (s', inl n) →
  let s1 := restore_orphaned_edges s in
  ∃ import_targets visibility,
    import_targets_tx unordered json_extract truth s1 = inl import_targets ∧
    symbol_visibility get_strings unordered s1 = inl visibility ∧
    s' = set_edges (linked import_targets visibility (rust_type_index s1) s1 (foreign_owners s1) <$> edges s1) (edge_seq s1) s1 ∧
    n = Z.of_nat (length (filter (λ e, taken import_targets visibility (rust_type_index s1) s1 (foreign_owners s1) e = true) (edges s1))).
Proof using unordered_perm laws.
  intros Hok Hrun s1. pose proof (restored_ok s Hok) as Hok1. fold s1 in Hok1. unfold link_foreign_impl_members in Hrun. fold s1 in Hrun.
  destruct (import_targets_tx _ _ _ s1) as [targets|]; cbn [mbind result_bind rbind] in Hrun; [|done].
  destruct (symbol_visibility _ _ s1) as [visibility|]; cbn [mbind result_bind rbind] in Hrun; [|done].
  rewrite (link_owners targets visibility (rust_type_index s1) (foreign_owners s1) s1 0%Z) in Hrun by (by apply owners_move || apply (ok_files s1 Hok1)).
  injection Hrun as <- <-. by exists targets, visibility.
Qed.

Lemma owned_source (s : Graph) f o e :
  owned s f o e = true →
  e_file_path (e_vals e) = f ∧
  (e_kind (e_vals e) = "CONTAINS" ∧ source_qualified (e_vals e) = f ∨
   e_kind (e_vals e) = "IMPLEMENTS" ∧ source_qualified (e_vals e) = f +:+ "::" +:+ o).
Proof.
  clear. unfold owned. intros [Hf%bool_decide_eq_true [Hc|Hi]%orb_true_iff]%andb_true_iff; (split; [done|]).
  - apply andb_true_iff in Hc as [[Hk%bool_decide_eq_true Hs%bool_decide_eq_true]%andb_true_iff _]. by left.
  - apply andb_true_iff in Hi as [[Hk%bool_decide_eq_true Hs%bool_decide_eq_true]%andb_true_iff _]. by right.
Qed.

(** A moved edge starts elsewhere. *)
Lemma taken_source import_targets visibility (s : Graph) e q :
  impl_ok s → e ∈ edges s → taker import_targets visibility (rust_type_index s) s (foreign_owners s) e = Some q →
  q ≠ source_qualified (e_vals e) ∧ e_kind (e_vals e) ∈ ["CONTAINS"; "IMPLEMENTS"].
Proof using unordered_perm.
  intros Hok He (p & Hp & Ho & Hq)%taker_spec.
  destruct (owners_move s import_targets visibility Hok p Hp) as [Hn Hqs]. destruct (Hqs q Hq) as [Hqn Hqc].
  pose proof (ok_files s Hok e He) as Hf. unfold is_owner_name in Hn.
  apply owned_source in Ho as [Hp1 [[Hk Hs]|[Hk Hs]]]; rewrite Hk, Hs; rewrite Hp1 in Hf; (split; [intros ->; congruence|]); [left|right; left].
Qed.

(** What became of an edge. *)
Definition link_of import_targets visibility (s : Graph) (e e' : EdgeRow) : Prop :=
  (e' = e ∧ ∀ f o, (f, o) ∈ foreign_owners s → owned s f o e = true →
     owner_node import_targets visibility (rust_type_index s) f o = None) ∨
  (∃ f o r, (f, o) ∈ foreign_owners s ∧ owned s f o e = true ∧
     r ∈ nodes s ∧ is_type s r = true ∧ name (vals r) = last_part dot o ∧
     owner_node import_targets visibility (rust_type_index s) f o = Some (qualified_name (vals r)) ∧
     e' = mkEdgeRow (edge_id e) (with_owner (qualified_name (vals r)) (e_vals e))).

Lemma linked_spec import_targets visibility (s : Graph) e :
  link_of import_targets visibility s e (linked import_targets visibility (rust_type_index s) s (foreign_owners s) e).
Proof using unordered_perm.
  unfold linked. destruct (taker _ _ _ s _ e) as [q|] eqn:Hq.
  - apply taker_spec in Hq as ([f o] & Hp & Ho & Hq). right. pose proof Hq as (cs & Hcs & Hin)%owner_node_candidate.
    destruct (types_lookup s _ cs q Hcs Hin) as (r & Hr & Ht & Hn & <-). by exists f, o, r.
  - left. split; [done|]. intros f o Hp Ho. by apply (proj1 (taker_none _ _ _ s _ e) Hq (f, o)).
Qed.

Lemma length_filter_zip {A} (P : A → Prop) (Q : A * A → Prop) `{!∀ x, Decision (P x), !∀ x, Decision (Q x)} (f : A → A) (l : list A) :
  (∀ x, x ∈ l → P x ↔ Q (x, f x)) → length (filter P l) = length (filter Q (zip l (f <$> l))).
Proof.
  clear. induction l as [|x l IH]; intros Hl; [done|]. rewrite fmap_cons. cbn [zip zip_with]. rewrite !filter_cons.
  specialize (IH ltac:(intros y Hy; apply Hl; by right)). assert (Hx : P x ↔ Q (x, f x)) by (apply Hl; left).
  destruct (decide (P x)); [rewrite decide_True by tauto; cbn; by f_equal|by rewrite decide_False by tauto].
Qed.

(** C17: what linking does.  After the edges of types that are gone have their
    sources back, each edge either stands as it was, no type being found for
    any owner that has it, or starts at the one type found for its owner, a node
    of that name, with the source it had kept in its extra; the answer counts
    the edges moved.  Nothing else changes, and every edge with a kept source
    starts at a node. *)
Theorem link_spec (s s' : Graph) n :
  impl_ok s → link_foreign_impl_members s = (s', inl n) →
  let s1 := restore_orphaned_edges s in
  (∃ import_targets visibility,
     import_targets_tx unordered json_extract truth s1 = inl import_targets ∧
     symbol_visibility get_strings unordered s1 = inl visibility ∧
     Forall2 (link_of import_targets visibility s1) (edges s1) (edges s')) ∧
  s' = set_edges (edges s') (edge_seq s) s ∧
  n = Z.of_nat (length (filter (λ p, source_qualified (e_vals p.1) ≠ source_qualified (e_vals p.2)) (zip (edges s1) (edges s')))) ∧
  marks_held s'.
Proof using unordered_perm laws.
  intros Hok Hrun s1. pose proof (restored_ok s Hok) as Hok1. fold s1 in Hok1.
  destruct (link_run s s' n Hok Hrun) as (targets & visibility & Ht & Hv & -> & ->). fold s1 in Ht, Hv |- *. split; [|split; [done|split]].
  - exists targets, visibility. split; [done|split; [done|]]. cbn [edges set_edges]. apply Forall2_fmap_r, Forall_Forall2_diag, Forall_forall.
    intros e _. apply linked_spec.
  - f_equal. apply length_filter_zip. intros e He. cbn [fst snd]. unfold taken, linked.
    destruct (taker _ _ _ s1 _ e) as [q|] eqn:Hq; [|naive_solver]. cbn. split; [|done]. intros _. apply not_eq_sym. by eapply taken_source.
  - apply linked_marks; [done|by apply restored_marks|by apply owners_move].
Qed.

(** *** Linking twice *)

Section again.
Context (import_targets : Sets) (visibility : SymbolVisibility) (s : Graph) (Hok : impl_ok s).

#[local] Abbreviation the_link := (linked import_targets visibility (rust_type_index s) s (foreign_owners s)).
#[local] Abbreviation after := (set_edges (the_link <$> edges s) (edge_seq s) s).

(** No edge of another kind is moved. *)
Lemma linked_keeps (P : EdgeRow → bool) :
  (∀ e, P e = true → e_kind (e_vals e) = "IMPORTS_FROM") →
  filter (λ e, P e = true) (edges after) = filter (λ e, P e = true) (edges s).
Proof using unordered_perm Hok.
  intros HP. cbn [edges set_edges]. assert (Hall : ∀ e, e ∈ edges s → the_link e = e ∨ (P e = false ∧ P (the_link e) = false)).
  { intros e He. unfold linked. destruct (taker _ _ _ s _ e) as [q|] eqn:Hq; [|by left]. right.
    apply taken_source in Hq as [_ Hk]; [|done|done].
    assert (Hkinds : ∀ e' : EdgeRow, e_kind (e_vals e') = e_kind (e_vals e) → P e' = false).
    { intros e' Hk'. apply not_true_is_false. intros Hp%HP. rewrite <-Hk', Hp in Hk. by apply elem_of_cons in Hk as [?|[?|?%not_elem_of_nil]%elem_of_cons]. }
    split; by apply Hkinds. }
  revert Hall. generalize (edges s) as l. clear. intros l Hall.
  induction l as [|e l IH]; [done|]. rewrite fmap_cons, !filter_cons, IH by (intros e' He'; apply Hall; by right).
  destruct (Hall e ltac:(left)) as [->|[-> ->]]; [done|]. by rewrite !decide_False by done.
Qed.

Lemma import_targets_after : import_targets_tx unordered json_extract truth after = import_targets_tx unordered json_extract truth s.
Proof using unordered_perm Hok.
  unfold import_targets_tx, import_rows.
  pose (P := λ e, bool_decide (e_kind (e_vals e) = "IMPORTS_FROM" ∧ equals 0 (json_extract (e_extra (e_vals e)) "path_use") = true ∧
    equals 0 (json_extract (e_extra (e_vals e)) "package_import") = true)).
  assert (Hf : ∀ l : list EdgeRow, filter (λ e, e_kind (e_vals e) = "IMPORTS_FROM" ∧ equals 0 (json_extract (e_extra (e_vals e)) "path_use") = true ∧
    equals 0 (json_extract (e_extra (e_vals e)) "package_import") = true) l = filter (λ e, P e = true) l).
  { intros l. apply filter_ext_elem. intros e _. unfold P. by rewrite bool_decide_eq_true. }
  rewrite !Hf, linked_keeps; [done|]. intros e. unfold P. by intros [? _]%bool_decide_eq_true.
Qed.

Lemma visibility_after : symbol_visibility get_strings unordered after = symbol_visibility get_strings unordered s.
Proof using unordered_perm Hok.
  unfold symbol_visibility, declared_namespaces. cbn [nodes set_edges]. destruct (try_fold _ _ _); [|done]. cbn [mbind result_bind rbind].
  replace (imported_namespaces unordered after) with (imported_namespaces unordered s); [done|]. unfold imported_namespaces.
  pose (P := λ e, bool_decide (e_kind (e_vals e) = "IMPORTS_FROM")).
  assert (Hf : ∀ l : list EdgeRow, filter (λ e, e_kind (e_vals e) = "IMPORTS_FROM") l = filter (λ e, P e = true) l).
  { intros l. apply filter_ext_elem. intros e _. unfold P. by rewrite bool_decide_eq_true. }
  rewrite !Hf, linked_keeps; [done|]. intros e. unfold P. by intros ?%bool_decide_eq_true.
Qed.

Lemma owners_after p : p ∈ foreign_owners after → p ∈ foreign_owners s.
Proof using unordered_perm Hok.
  unfold foreign_owners. rewrite !elem_of_sort_by, !elem_of_remove_dups, !elem_of_app, !list_elem_of_omap.
  intros [Hm|(e' & (e & -> & He)%list_elem_of_fmap & Hp)]; [by left|]. right. exists e. split; [done|]. revert Hp. unfold linked.
  destruct (taker _ _ _ s _ e) as [q|] eqn:Hq; [|done]. intros Hp. apply taker_spec in Hq as (p' & Hp' & _ & Hq).
  destruct (owners_move s import_targets visibility Hok p' Hp') as [_ Hqs]. destruct (Hqs q Hq) as [Hqn _].
  unfold impl_owner in Hp. cbn [e_vals source_qualified with_owner] in Hp. destruct (strip_prefix _ q); [|done].
  cbn [mbind option_bind] in Hp. rewrite (Hqn : is_node after q = true), andb_false_r in Hp. done.
Qed.

Lemma nothing_taken e : e ∈ edges after → taker import_targets visibility (rust_type_index s) after (foreign_owners after) e = None.
Proof using unordered_perm Hok.
  intros (e0 & -> & He)%list_elem_of_fmap. apply taker_none. intros p Hp%owners_after Ho. rewrite (owned_same s after) in Ho by done.
  revert Ho. unfold linked. destruct (taker _ _ _ s _ e0) as [q|] eqn:Hq.
  - apply taker_spec in Hq as (p' & Hp' & _ & Hq). destruct (owners_move s import_targets visibility Hok p' Hp') as [_ Hqs].
    destruct (Hqs q Hq) as [Hqn Hqc]. rewrite with_owner_not_owned; [done|by apply (ok_files s Hok)|done|done|].
    by apply foreign_owners_no_node.
  - intros Ho. by apply (proj1 (taker_none _ _ _ s _ e0) Hq p).
Qed.

Lemma after_ok : impl_ok after.
Proof using laws Hok.
  destruct Hok as [Hn Ht Hf Hx]. split; [done|done| |]; intros e (e0 & -> & He)%list_elem_of_fmap; unfold linked;
    (destruct (taker _ _ _ s _ e0) as [q|]; [cbn|by auto]); [by apply Hf|].
  apply object_set. case_bool_decide; [apply object_empty|by apply Hx].
Qed.

End again.

(** C18: linking twice is linking once.  A run on what a run left moves nothing
    and changes nothing, so the pass may follow every build. *)
Theorem link_idempotent (s s' : Graph) n :
  impl_ok s → link_foreign_impl_members s = (s', inl n) → link_foreign_impl_members s' = (s', inl 0%Z).
Proof using unordered_perm laws.
  intros Hok Hrun. pose proof (restored_ok s Hok) as Hok1. pose proof (restored_marks s Hok) as Hm1.
  destruct (link_run s s' n Hok Hrun) as (targets & visibility & Ht & Hv & -> & _).
  set (s1 := restore_orphaned_edges s) in *. set (s2 := set_edges _ _ _).
  pose proof (after_ok targets visibility s1 Hok1) as Hok2. fold s2 in Hok2.
  assert (Hm2 : restore_orphaned_edges s2 = s2) by (apply restore_held, linked_marks; [done|done|by apply owners_move]).
  assert (Ht2 : import_targets_tx unordered json_extract truth s2 = inl targets) by (rewrite <-Ht; by apply import_targets_after).
  assert (Hv2 : symbol_visibility get_strings unordered s2 = inl visibility) by (rewrite <-Hv; by apply visibility_after).
  unfold link_foreign_impl_members. rewrite Hm2, Ht2. cbn [mbind result_bind rbind]. rewrite Hv2. cbn [mbind result_bind rbind]. rewrite link_owners; [|by apply owners_move|apply (ok_files s2 Hok2)].
  assert (Hnone : ∀ e, e ∈ edges s2 → taker targets visibility (rust_type_index s2) s2 (foreign_owners s2) e = None)
    by (intros e; by apply (nothing_taken targets visibility s1)).
  rewrite set_edges_id by (intros e He; unfold linked; by rewrite Hnone).
  rewrite filter_nothing by (intros e He; unfold taken; by rewrite Hnone). done.
Qed.

(** Linking is undone when the type goes.  Once the node an edge was moved
    to is no node any more, restoring gives back the row as it was before, with
    an extra that reads as before, the kept source gone. *)
Theorem link_undone (s s' s2 : Graph) n i e e' :
  impl_ok s → link_foreign_impl_members s = (s', inl n) →
  edges (restore_orphaned_edges s) !! i = Some e → e_extra (e_vals e) ≠ "" →
  edges s' !! i = Some e' → source_qualified (e_vals e') ≠ source_qualified (e_vals e) →
  is_node s2 (source_qualified (e_vals e')) = false →
  ∃ text, let v := e_vals e in
    restored s2 e' = mkEdgeRow (edge_id e)
      (mkEdgeVals (e_kind v) (source_qualified v) (target_qualified v) (target_name v) (e_file_path v) (e_line v) text
         (confidence v) (confidence_tier v) (e_updated_at v)) ∧
    ∀ k, json_extract text k = if bool_decide (k = MOVED_FROM) then None else json_extract (e_extra v) k.
Proof using unordered_perm laws.
  intros Hok Hrun He Hx He' Hs Hgone. destruct (link_run s s' n Hok Hrun) as (targets & visibility & _ & _ & -> & _).
  pose proof (restored_ok s Hok) as Hok1. set (s1 := restore_orphaned_edges s) in *. cbn [edges set_edges] in He'.
  rewrite list_lookup_fmap, He in He'. injection He' as <-. pose proof (ok_extras s1 Hok1 e) as Hobj.
  specialize (Hobj ltac:(by eapply list_elem_of_lookup_2)). revert Hs Hgone. unfold linked.
  destruct (taker _ _ _ s1 _ e) as [q|]; [|done]. cbn [e_vals source_qualified with_owner]. intros _ Hgone.
  exists (json_remove (json_set (e_extra (e_vals e)) MOVED_FROM (source_qualified (e_vals e))) MOVED_FROM). split.
  - unfold restored. cbn. rewrite (bool_decide_eq_false_2 (e_extra (e_vals e) = "")), extract_set by done.
    rewrite bool_decide_eq_true_2 by done. by rewrite Hgone.
  - intros k. rewrite extract_remove by by apply object_set. rewrite extract_set by done. by case_bool_decide.
Qed.

End impl_members.
(** ** Witnesses *)

(** Objects of texts, written as their members' quoted keys and values and then
    ["{}"]. *)
Fixpoint quoted (s : string) : string :=
  match s with EmptyString => String slash "" | String c s => String colon (String c (quoted s)) end.

Fixpoint unquoted (s : string) : option (string * string) :=
  match s with
  | String m s =>
      if bool_decide (m = slash) then Some ("", s)
      else if bool_decide (m = colon) then match s with String c s => '(x, rest) ← unquoted s; Some (String c x, rest) | _ => None end
      else None
  | _ => None
  end.

Fixpoint print (l : list (string * string)) : string :=
  match l with [] => "{}" | (k, v) :: l => quoted k +:+ quoted v +:+ print l end.

Fixpoint parse (fuel : nat) (s : string) : list (string * string) :=
  match fuel with
  | 0 => []
  | S fuel => match unquoted s with
              | Some (k, s) => match unquoted s with Some (v, s) => (k, v) :: parse fuel s | None => [] end
              | None => []
              end
  end.

Definition members (t : string) : list (string * string) := parse (String.length t) t.
Definition text_get (t k : string) : option Sql := Text ∘ snd <$> head (filter (λ p, p.1 = k) (members t)).
Definition text_set (t k v : string) : string := print ((k, v) :: members t).
Definition text_remove (t k : string) : string := print (filter (λ p, p.1 ≠ k) (members t)).

Lemma unquoted_quoted s rest : unquoted (quoted s +:+ rest) = Some (s, rest).
Proof.
  induction s as [|c s IH]; [done|]. change (quoted (String c s) +:+ rest) with (String colon (String c (quoted s +:+ rest))).
  cbn [unquoted]. rewrite bool_decide_eq_false_2, bool_decide_eq_true_2 by done. by rewrite IH.
Qed.

Lemma quoted_length s rest : String.length rest < String.length (quoted s +:+ rest).
Proof.
  induction s as [|c s IH]; [change (String.length rest < S (String.length rest)); lia|].
  change (quoted (String c s) +:+ rest) with (String colon (String c (quoted s +:+ rest))).
  cbn [String.length]. lia.
Qed.

Lemma members_print l : members (print l) = l.
Proof.
  unfold members. assert (Hlen : length l ≤ String.length (print l)).
  { induction l as [|[k v] l IH]; [cbn; lia|]. cbn [print length]. pose proof (quoted_length k (quoted v +:+ print l)).
    pose proof (quoted_length v (print l)). lia. }
  revert Hlen. generalize (String.length (print l)). induction l as [|[k v] l IH]; intros fuel Hl; [by destruct fuel|].
  destruct fuel as [|fuel]; cbn [length] in Hl; [lia|]. cbn [parse print]. rewrite !unquoted_quoted. f_equal. apply IH. lia.
Qed.

#[local] Instance text_laws : JsonEditLaws text_get text_set text_remove (λ t, ∃ l, t = print l).
Proof.
  split; [by exists []| | | |].
  - intros t k v _. by eexists.
  - intros t k _. by eexists.
  - intros t k v k' [l ->]. unfold text_get, text_set. rewrite !members_print, filter_cons. cbn [fst].
    destruct (decide (k = k')) as [->|Hk]; [by rewrite bool_decide_eq_true_2|]. by rewrite bool_decide_eq_false_2.
  - intros t k k' [l ->]. unfold text_get, text_remove. rewrite !members_print. case_bool_decide as Hk.
    + subst. rewrite filter_nothing; [done|]. by intros p [Hp _]%list_elem_of_filter.
    + do 2 f_equal. rewrite list_filter_filter. apply filter_ext_elem. intros p _. naive_solver.
Qed.

#[local] Existing Instance text_json.

Definition impl_row (i : Z) (k n q file : string) (parent : option string) : NodeRow :=
  mkNodeRow i (mkNodeVals k n q file 1 2 "rust" parent None None None false "" 0 "{}" one) None None.
Definition impl_edge (i : Z) (k a b : string) : EdgeRow :=
  mkEdgeRow i (mkEdgeVals k a b b "src/a.rs" 1 "{}" one "EXTRACTED" one).

(** [lib.rs] declares [Graph], and an [impl Run for Graph] of [a.rs] has [run]. *)
Definition impl_store (with_type : bool) : GraphStore (F := unit) :=
  mkStore ([impl_row 1 "File" "src/a.rs" "src/a.rs" "src/a.rs" None; impl_row 2 "Function" "run" "src/a.rs::Graph.run" "src/a.rs" (Some "Graph")]
           ++ if with_type then [impl_row 3 "Class" "Graph" "src/lib.rs::Graph" "src/lib.rs" None] else []) 3
    [impl_edge 1 "CONTAINS" "src/a.rs" "src/a.rs::Graph.run"; impl_edge 2 "IMPLEMENTS" "src/a.rs::Graph" "Run"] 2 [] [] None ∅ true false.

Definition demo_link (s : GraphStore (F := unit)) : GraphStore * Result Z :=
  link_foreign_impl_members (λ _ _, None) (λ _ l, l) text_get text_set text_remove (λ _, false) (λ _, "") s.

Lemma impl_store_ok b : impl_ok (λ t, ∃ l, t = print l) (impl_store b).
Proof.
  split.
  - apply (bool_decide_unpack _). by destruct b.
  - intros r Hr. destruct b; repeat (apply elem_of_cons in Hr as [->|Hr]; [by intros Hk%(bool_decide_pack _)|]); by apply not_elem_of_nil in Hr.
  - intros e He. repeat (apply elem_of_cons in He as [->|He]; [done|]). by apply not_elem_of_nil in He.
  - intros e He. exists []. repeat (apply elem_of_cons in He as [->|He]; [done|]). by apply not_elem_of_nil in He.
Qed.

Example linked_sources :
  source_qualified ∘ e_vals <$> edges (demo_link (impl_store true)).1 = ["src/lib.rs::Graph"; "src/lib.rs::Graph"] ∧
  (demo_link (impl_store true)).2 = inl 2%Z ∧
  source_qualified ∘ e_vals <$> edges (demo_link (impl_store false)).1 = ["src/a.rs"; "src/a.rs::Graph"].
Proof. by vm_compute. Qed.

Lemma impl_demo_run : demo_link (impl_store true) = ((demo_link (impl_store true)).1, inl 2%Z).
Proof. by vm_compute. Qed.

Lemma link_spec_witness :
  impl_ok (λ t, ∃ l, t = print l) (impl_store true) ∧ marks_held text_get (demo_link (impl_store true)).1 ∧
  2%Z = Z.of_nat (length (filter (λ p, source_qualified (e_vals p.1) ≠ source_qualified (e_vals p.2))
    (zip (edges (restore_orphaned_edges text_get text_remove (λ _, "") (impl_store true))) (edges (demo_link (impl_store true)).1)))).
Proof.
  split; [apply impl_store_ok|].
  destruct (link_spec _ _ _ _ _ _ _ (λ t, ∃ l, t = print l) (λ _ _, Permutation_refl _) _ _ _ (impl_store_ok true) impl_demo_run) as (_ & _ & Hn & Hm).
  by split.
Defined.

Lemma link_idempotent_witness :
  impl_ok (λ t, ∃ l, t = print l) (impl_store true) ∧ demo_link (demo_link (impl_store true)).1 = ((demo_link (impl_store true)).1, inl 0%Z).
Proof.
  split; [apply impl_store_ok|].
  exact (link_idempotent _ _ _ _ _ _ _ (λ t, ∃ l, t = print l) (λ _ _, Permutation_refl _) _ _ _ (impl_store_ok true) impl_demo_run).
Defined.

(** The method's edge, before and after. *)
Definition demo_edge : EdgeRow := impl_edge 1 "CONTAINS" "src/a.rs" "src/a.rs::Graph.run".
Definition demo_moved : EdgeRow := mkEdgeRow 1 (with_owner text_set "src/lib.rs::Graph" (e_vals demo_edge)).

Lemma link_undone_witness :
  edges (demo_link (impl_store true)).1 !! 0 = Some demo_moved ∧
  source_qualified (e_vals (restored text_get text_remove (λ _, "") (impl_store false) demo_moved)) = source_qualified (e_vals demo_edge).
Proof.
  assert (Hlink : edges (demo_link (impl_store true)).1 !! 0 = Some demo_moved) by (vm_compute; reflexivity). split; [exact Hlink|].
  destruct (link_undone _ _ _ _ _ _ _ (λ t, ∃ l, t = print l) (λ _ _, Permutation_refl _) (impl_store true) _ (impl_store false) 2%Z 0
    demo_edge demo_moved (impl_store_ok true) impl_demo_run) as (text & Hr & _); [reflexivity|done|exact Hlink|done|reflexivity|]. by rewrite Hr.
Defined.

End ImplMembers.
